(* ===== verification/_CoqProject ===== *)
-Q . S2P
Prelude.v
CxxString.v
CxxStream.v
Utils.v
UtilsProofs.v
Types.v
Status.v
Doubles.v
DecimalText.v
UtilsSystem.v
Json.v
Record.v
Page.v
PageProofs.v
FileManager.v
Directories.v
BufferPool.v
BufferPoolProofs.v
Table.v
TableProofs.v
TableScan.v
LockManager.v
Dumps.v
LogManager.v
LogProofs.v
LogSync.v
WAL.v
BTreeNode.v
BTreeNodeProofs.v
BTree.v
BTreeProofs.v
BTreeQueries.v
BTreeWalks.v
Lexer.v
LexerProofs.v
TransactionManager.v
TransactionProofs.v
Detector.v
Checkpoint.v
CheckpointProofs.v
AST.v
Parser.v
ParserLogic.v
ParserShape.v
ParserTypes.v
ParserPrint.v
ParserRoundtrip.v
ParserText.v
ParserErrors.v
Schema.v
SchemaProofs.v
Catalog.v
CatalogProofs.v
CatalogRoundtrip.v
ExecutorContext.v
Operators.v
OperatorsProofs.v
Optimizer.v
QueryExecutor.v
SelectProofs.v
QueryExecutorProofs.v
IndexManager.v
IndexManagerProofs.v
Statistics.v
StatisticsProofs.v
ThreadPool.v
ThreadPoolProofs.v
Console.v
ConsoleProofs.v
ConsoleTools.v
TestBTree.v
Constants.v
