(* ===== verification/Prelude.v ===== *)
(** * OrangeSQL: a verification of the database engine

    OrangeSQL is a relational engine in C++ (src/).  A query is read by the lexer
    and the parser (src/parser/), planned and run by the engine (src/engine/) over
    tables (src/storage/table.cpp), indexes (src/index/) and a catalog
    (src/metadata/).  Records live in slotted pages (src/storage/page.cpp), cached by
    a buffer pool (buffer_pool.cpp) over files of pages (file_manager.cpp).
    Transactions (src/transaction/transaction_manager.cpp) take locks
    (lock_manager.cpp), write a log (log_manager.cpp, wal.cpp) and are covered by
    checkpoints (checkpoint.cpp).  The development models these parts as executable
    functions, from the storage upwards, and proves what they do, including where
    that is not what they mean to do.

    ** Conventions

    A C++ integer is a [Z] with its wrap-around written out ([wrap], [to_signed]);
    a counter that the code keeps in the range of an array is a [nat].  A buffer is
    a list of byte values and a [memcpy] outside it is undefined behaviour.  A
    [double] is an IEEE binary64 float of the Standard Library ([Doubles]).  A
    function that changes an object takes the object and returns the new one with
    its result.  An [option] around the whole result of a call is [None] when the
    call does not return normally: undefined behaviour, an exception, or a wait
    that never ends; an [option] or a [bool] inside is what the code itself returns.
    Where an exception keeps a state that is looked at later, in the catalog and in
    the executor, the monad of the component keeps it too.
    A [std::unordered_map] is a [gmap]; its iteration order is that of
    [map_to_list], or an argument where a theorem depends on it.  The clock is an
    argument.  Calls are atomic where the code holds a mutex throughout.

    A loop that is not structural has fuel.  The bound is stated where the function
    is called: the frames of the pool for an eviction loop (every turn removes one),
    the transactions that wait for a search of the waits-for graph (a path does not
    repeat), the keys of a node for binary search (the interval shrinks), the
    characters left for a loop of the lexer, the bytes left for the log scanner, the
    tokens left and the depth of nesting for the parser, the pages and the rows of a
    table for a scan, the height of a tree for a descent and its nodes for a walk,
    the values of a sample for the buckets of a histogram.  The operators of the executor
    have a bound that does not depend on how they are pulled.  The theorems show that the
    fuel is enough, or that no amount is.

    Code that is not in the repository is a parameter, with what is documented of it as
    hypotheses: the library of JSON, the file system, [std::sort], random numbers, the
    logarithm, the calendar.  So is what the sources use but do not declare or define:
    [Page::getData], [estimateDistinctValues], a [createIndex] of two arguments, the log number in
    [addModifiedPage], the tree over [Value].

    ** Files

    Foundations:
    - [Prelude]: machine integers, bytes, byte buffers, strings as bytes, the hint
      databases [orange] and [orange_rw].
    - [CxxString], [CxxStream]: the character, number and stream functions of the C++
      library.
    - [Constants] (include/constants.h): every constant at its type.
    - [Utils], [UtilsProofs] (include/utils.h): strings, paths, bits, base64, CRC-32,
      UUIDs.  [UtilsSystem]: formats, clocks, random numbers, doubles, scope guards.
    - [Types] (include/types.h, status.h): data types, [Value] with its comparisons
      and hash, schemas and the validation of records.
    - [Status] (include/status.h): statuses with messages and the macros on them.
    - [Doubles], [DecimalText]: the arithmetic of doubles and their texts.  [Json]: the values of the library of JSON.
    - [ThreadPool], [ThreadPoolProofs] (include/thread_pool.h): the threads as interleaved
      events.

    Storage:
    - [Record] (storage/record.cpp): the record format, aggregates, conversions to
      and from text.
    - [Page], [PageProofs] (storage/page.h, page.cpp): the slotted page.  [page_ok]
      is the layout invariant.
    - [FileManager] (storage/file_manager.h, file_manager.cpp): files, handles,
      page input and output.  [PageStore] is the interface of a store of pages and
      [PageStoreLaws] what it promises for a usable file; the file manager is an
      instance of both.
    - [Directories] (storage/file_manager.cpp, include/utils.h): the operations on directories and
      files, over a tree of the file system.
    - [BufferPool], [BufferPoolProofs] (storage/buffer_pool.h, buffer_pool.cpp):
      the pool, over any [PageStore], with its LRU list of nodes and iterators.
    - [Table], [TableProofs], [TableScan] (storage/table.h, table.cpp): the chain of
      pages of a table and its iterators, over the pool.
    - [Dumps]: the texts that the page, the pool, the lock manager and the table dump, and the
      rest of the pool.

    Transactions:
    - [LockManager] (transaction/lock_manager.h, lock_manager.cpp): [acquireLock] is
      its part before the wait, and [poll] one turn of its loop, so that [sys_step]
      interleaves calls.
    - [LogManager], [LogProofs] (transaction/log_manager.h, log_manager.cpp): the
      records in memory, the write buffer and the file with the position of its
      stream.  [LogSync]: the synchronisation thread as steps between the calls, and the
      rotation of the file.
    - [WAL] (transaction/wal.h, wal.cpp): the log records of changes of rows.
    - [TransactionManager], [TransactionProofs]
      (transaction/transaction_manager.h, transaction_manager.cpp): transactions
      over the pool, the log and the locks; the mutex is a flag of the state, so
      that a call which locks it twice is seen not to return.  [Detector]: the thread that
      looks for deadlocks, and the destructor, as interleaved steps.
    - [Checkpoint], [CheckpointProofs] (transaction/checkpoint.h, checkpoint.cpp): the
      checkpoints, over the transaction manager.

    Indexes:
    - [BTreeNode], [BTreeNodeProofs] (index/btree_node.h, btree_node.cpp): nodes as
      arrays, generic in the keys through the classes [Key] and [KeyLaws].
    - [BTree], [BTreeProofs], [BTreeQueries] (index/btree.h, btree.cpp): the tree, over
      the interface [NodeStore] with its laws [NodeStoreLaws], which [PoolNodes]
      implements over the pool.
    - [BTreeWalks] (index/btree.cpp, btree_node.cpp): the traversal, the dump and [compact].
    - [TestBTree] (tests/test_btree.cpp): the tests of the tree and their outcome.
    - [IndexManager], [IndexManagerProofs] (index/index_manager.h, index_manager.cpp): the
      open indexes and their names, over the interface [IndexTrees], which [pool_trees]
      implements with the B-tree for integers.

    Language:
    - [Lexer], [LexerProofs] (parser/lexer.cpp, sql_parser.h): the tokens of SQL.
    - [AST], [Parser] (parser/ast.h, sql_parser.h, sql_parser.cpp): the syntax tree and every
      parsing function.  [ParserLogic] is a program logic for them, [ParserShape] and
      [ParserTypes] their results, [ParserPrint], [ParserRoundtrip] and [ParserText] the
      round trip, [ParserErrors] the errors.

    Metadata:
    - [Schema], [SchemaProofs] (metadata/schema.h, schema.cpp): schema objects.
    - [Catalog], [CatalogProofs], [CatalogRoundtrip] (metadata/catalog.h, catalog.cpp): the
      catalog, with its mutex as part of the state, and its file.
    - [Statistics], [StatisticsProofs] (metadata/statistics.h, statistics.cpp): histograms,
      estimates and the manager of the statistics.

    Engine:
    - [ExecutorContext] (engine/executor_context.h): modes, limits, counters, results kept.
    - [Operators], [OperatorsProofs] (engine/query_executor.h, query_executor.cpp): the operators
      behind the class [ExecutorOperator], composed by the shapes of plans; [OperatorLaws] says which list
      an operator yields.
    - [Optimizer] (engine/optimizer.h, optimizer.cpp): plans, costs and their text.
    - [QueryExecutor], [SelectProofs], [QueryExecutorProofs] (engine/query_executor.h,
      query_executor.cpp): the construction of plans, expressions, every statement and its transaction.

    Terminal:
    - [Console], [ConsoleProofs] (cli/console.h, console.cpp, main.cpp): a session over the lines of the
      terminal, its commands, history and output, the highlighter and the command line.
    - [ConsoleTools] (cli/console.cpp, main.cpp): the interrupt, the completion of commands, the pager, the
      texts of the command line.

    ** What is proved

    - Storage: operations on a page with a correct layout stay in bounds and keep
      the layout; a batch of insertions keeps every record that was there; what
      [getRecord] reads after an insertion, a removal, an update; a changed word of a
      page is detected by its checksum; pages, records and nodes are read back as
      written.  A page made by the constructor never accepts a record.
    - Files and pool: a page of a usable file reads back as written and nothing
      else changes; the pool keeps to its size and evicts the least recently used
      page that is not pinned, after writing it; its eviction loop ends exactly when
      fewer pages are pinned than the limit.  A file opened by a read is never
      written again.  The two ways to make a path of directories leave the same tree, and every
      operation on directories keeps it a tree.
    - Tables: a record that was inserted is read back by its id; a scan gives one row for
      each slot of the chain of pages, empty for one that was deleted, up to the limit.
    - Locks: in every interleaving the granted locks of a resource are compatible;
      deadlock detection finds exactly the cycles, in both detectors; the end of a
      transaction releases its locks and no others.  A call that waits for an
      exclusive lock is never granted it.
    - Log: numbering and chaining of the records; a flush writes exactly the records
      appended, in order, also when the synchronisation thread runs between the appends, and
      the thread ends when it is told to; records are read back.  A log that is opened again is
      empty.
    - Transactions: the invariant of the maps of transactions over all sequences of
      calls; the effect of commit; what a checkpoint writes.  Abort never returns, commit is not durable and
      recovery restores nothing.  The destructor of the manager completes exactly when no transaction is active.
    - Indexes: insertion and removal in a leaf are those of a sorted list of
      entries; insertion where the nodes have room, lookup and range queries on a tree are those of its sorted
      entries, and a traversal visits each of them once.  A split loses the middle entry, and a new tree stores nothing, so that the repository's own tests of
      the tree fail on a new index; on a root that is a leaf the range query passes.  The cache of open indexes
      keeps to its size and evicts the least recently used tree; a restart keeps the names and loses the rest.
    - Lexer and parser: they end on every input, CASE apart for the parser; lexing inverts printing, in upper
      case, and parsing inverts the printing of expressions and statements; the trees are well typed; which inputs are rejected.
    - Schema, catalog, statistics: invariants over all sequences of calls; files read back what was
      saved of the objects.  Calls that lock the mutex twice do not return.  The buckets of a histogram are the runs of the
      sorted sample, and a percentile has its share of the sample at or below it.
    - Executor: over any sources the operators deliver what operations on lists give, and the loop of a SELECT ends; what
      SELECT answers over the operators as they are; expressions evaluate as integers within 32 bits; each statement is
      a transaction of its own that is committed when it succeeds; INSERT is the insertion of a batch of rows.
    - Thread pool: tasks start in the order of acceptance, no notification is lost, every accepted task runs once and the
      destructor returns, if there is a worker.
    - Console: a session ends with its input or at [quit]; what it leaves in the file of the history, which is read back;
      highlighting keeps the text of SQL without strings and comments; an interrupt does not end the session.
    - Values and utilities: comparison is a strict order; the schema accepts exactly the records
      with admissible values; minimum and maximum; the text of a status determines its code, and a sequence of
      checked calls ends at the first that fails; a printed double is the nearest decimal; the table of CRC-32 computes the bitwise checksum, and base64 is that of RFC 4648.

    ** What is not modelled

    Times that are measured, except as arguments; the threads are steps of one critical section or one turn
    of a loop, and of the thread of the checkpoints one turn is modelled; the branches for Windows; what is declared
    but has no body (the aggregate operator, prepared statements, the semantic checks of the
    parser); deleted and defaulted copies.  Where an expression does not compile but its intention is plain, such as
    [Status::OK], the intention is modelled; where it is not, as for the member that [compact] of
    a node reads, it is a parameter. *)

From stdpp Require Export prelude gmap strings list.
From Stdlib Require Export ZArith Lia Ascii.

Declare Scope orange_scope.
Delimit Scope orange_scope with orange.

(** ** Hint databases of the development

    [orange] resolves the well-formedness side conditions of the components;
    [orange_rw] holds the rewriting rules that compute lengths and reads. *)
Create HintDb orange discriminated.
Create Rewrite HintDb orange_rw.

(** ** Machine integers

    An unsigned [w]-bit C++ integer is a [Z] in [0, 2^w); [wrap] is the
    conversion to it and [to_signed] the two's complement reading. *)

Definition wrap (w z : Z) : Z := (z `mod` 2 ^ w)%Z.

Definition to_signed (w z : Z) : Z :=
  (if decide (wrap w z < 2 ^ (w - 1)) then wrap w z else wrap w z - 2 ^ w)%Z.

Definition fits (w z : Z) : Prop := (0 ≤ z < 2 ^ w)%Z.

Definition fits_signed (w z : Z) : Prop := (- 2 ^ (w - 1) ≤ z < 2 ^ (w - 1))%Z.

Lemma wrap_fits w z : (0 ≤ w)%Z → fits w (wrap w z).
Proof. intros Hw. unfold fits, wrap. apply Z.mod_pos_bound. lia. Qed.

Lemma wrap_small w z : fits w z → wrap w z = z.
Proof. unfold fits, wrap. intros. by apply Z.mod_small. Qed.

Lemma wrap_idemp w z : (0 ≤ w)%Z → wrap w (wrap w z) = wrap w z.
Proof. intros. by apply wrap_small, wrap_fits. Qed.

Lemma wrap_add w a b : (0 ≤ w)%Z → wrap w (wrap w a + b) = wrap w (a + b).
Proof. intros. unfold wrap. apply Z.add_mod_idemp_l. lia. Qed.

Lemma pow2_half w : (1 ≤ w)%Z → (2 ^ w = 2 * 2 ^ (w - 1))%Z.
Proof. intros. rewrite <- Z.pow_succ_r by lia. f_equal. lia. Qed.

(** Storing a signed [w]-bit integer in an unsigned cell and reading it back. *)
Lemma to_signed_wrap w z : (1 ≤ w)%Z → fits_signed w z → to_signed w (wrap w z) = z.
Proof.
  intros Hw [H1 H2]. unfold to_signed. rewrite wrap_idemp by lia.
  pose proof (pow2_half w Hw) as Hp. unfold wrap.
  destruct (decide (0 ≤ z)%Z).
  - rewrite Z.mod_small by lia. case_decide; lia.
  - assert (z `mod` 2 ^ w = z + 2 ^ w)%Z as ->.
    { rewrite <- (Z.mod_add z 1 (2 ^ w)) by lia. rewrite Z.mod_small; lia. }
    case_decide; lia.
Qed.

Lemma to_signed_range w z : (1 ≤ w)%Z → fits_signed w (to_signed w z).
Proof.
  intros Hw. pose proof (wrap_fits w z ltac:(lia)) as [? ?].
  pose proof (pow2_half w Hw). unfold to_signed, fits_signed. case_decide; lia.
Qed.

Lemma wrap_to_signed w z : (1 ≤ w)%Z → wrap w (to_signed w z) = wrap w z.
Proof.
  intros Hw. pose proof (wrap_fits w z ltac:(lia)) as Hf.
  unfold to_signed. case_decide; [by apply wrap_small|].
  unfold wrap at 1. rewrite <- (Z.mod_add _ 1 (2 ^ w)) by lia.
  replace (wrap w z - 2 ^ w + 1 * 2 ^ w)%Z with (wrap w z) by lia. by apply wrap_small.
Qed.

Lemma lxor_fits w a b : (0 ≤ w)%Z → fits w a → fits w b → fits w (Z.lxor a b).
Proof.
  unfold fits. intros Hw [Ha Ha'] [Hb Hb'].
  assert (0 ≤ Z.lxor a b)%Z by (apply Z.lxor_nonneg; tauto).
  split; [done|]. destruct (decide (Z.lxor a b = 0)%Z) as [->|]; [lia|].
  apply Z.log2_lt_pow2; [lia|]. eapply Z.le_lt_trans; [by apply Z.log2_lxor|].
  destruct (decide (w = 0)%Z) as [->|].
  { assert (a = 0)%Z as -> by lia. assert (b = 0)%Z as -> by lia. done. }
  assert (∀ x, 0 ≤ x < 2 ^ w → Z.log2 x < w)%Z as Hlog.
  { intros x Hx. destruct (decide (x = 0)%Z) as [->|]; [simpl; lia|].
    apply Z.log2_lt_pow2; lia. }
  apply Z.max_lub_lt; auto.
Qed.

(** ** Little-endian byte sequences

    A byte is a [Z] in [0, 256).  [le_bytes n z] is the object representation
    of an [n]-byte integer, [le_value] reads one back. *)

Definition byte_ok (b : Z) : Prop := (0 ≤ b < 256)%Z.

Fixpoint le_bytes (n : nat) (z : Z) : list Z :=
  match n with
  | O => []
  | S n' => (z `mod` 256)%Z :: le_bytes n' (z / 256)%Z
  end.

Fixpoint le_value (bs : list Z) : Z :=
  match bs with
  | [] => 0%Z
  | b :: bs' => (b + 256 * le_value bs')%Z
  end.

Lemma length_le_bytes n z : length (le_bytes n z) = n.
Proof. revert z. induction n as [|n IH]; intros z; simpl; [done|]. by rewrite IH. Qed.
#[export] Hint Rewrite length_le_bytes : orange_rw.

Lemma le_bytes_ok n z : Forall byte_ok (le_bytes n z).
Proof.
  revert z. induction n as [|n IH]; intros z; simpl; constructor; auto.
  unfold byte_ok. apply Z.mod_pos_bound. lia.
Qed.
#[export] Hint Resolve le_bytes_ok : orange.

Lemma pow2_succ_bytes n : (2 ^ (8 * Z.of_nat (S n)) = 256 * 2 ^ (8 * Z.of_nat n))%Z.
Proof.
  replace (8 * Z.of_nat (S n))%Z with (8 + 8 * Z.of_nat n)%Z by lia.
  by rewrite Z.pow_add_r by lia.
Qed.

Lemma le_value_bytes n z : le_value (le_bytes n z) = wrap (8 * Z.of_nat n) z.
Proof.
  unfold wrap. revert z. induction n as [|n IH]; intros z; cbn [le_bytes le_value].
  - by rewrite Z.mod_1_r.
  - rewrite IH, pow2_succ_bytes, Z.rem_mul_r; lia.
Qed.

Lemma le_value_bound bs :
  Forall byte_ok bs → (0 ≤ le_value bs < 2 ^ (8 * Z.of_nat (length bs)))%Z.
Proof.
  induction 1 as [|b bs Hb _ IH]; cbn [le_value length]; [done|].
  rewrite pow2_succ_bytes. unfold byte_ok in Hb. lia.
Qed.

Lemma le_bytes_value bs :
  Forall byte_ok bs → le_bytes (length bs) (le_value bs) = bs.
Proof.
  induction 1 as [|b bs Hb Hbs IH]; cbn [le_value le_bytes length]; [done|].
  unfold byte_ok in Hb. f_equal.
  - rewrite (Z.mul_comm 256), Z.mod_add, Z.mod_small; lia.
  - rewrite (Z.mul_comm 256), Z.div_add, Z.div_small, Z.add_0_l by lia. done.
Qed.

Lemma le_value_bytes_fits n z : fits (8 * Z.of_nat n) z → le_value (le_bytes n z) = z.
Proof. intros. rewrite le_value_bytes. by apply wrap_small. Qed.

(** ** Bounds-checked memory copies

    [read_bytes] and [write_bytes] are [memcpy] from and into a buffer; a copy
    that leaves the buffer is undefined behaviour in C++ and [None] here. *)

Definition read_bytes (buf : list Z) (off n : nat) : option (list Z) :=
  if decide (off + n ≤ length buf) then Some (take n (drop off buf)) else None.

Definition write_bytes (buf : list Z) (off : nat) (src : list Z) : option (list Z) :=
  if decide (off + length src ≤ length buf)
  then Some (take off buf ++ src ++ drop (off + length src) buf)
  else None.

Lemma read_bytes_Some buf off n bs :
  read_bytes buf off n = Some bs ↔ off + n ≤ length buf ∧ bs = take n (drop off buf).
Proof. unfold read_bytes. case_decide; naive_solver. Qed.

Lemma write_bytes_Some buf off src buf' :
  write_bytes buf off src = Some buf' ↔
  off + length src ≤ length buf ∧
  buf' = take off buf ++ src ++ drop (off + length src) buf.
Proof. unfold write_bytes. case_decide; naive_solver. Qed.

Lemma write_bytes_total buf off src :
  off + length src ≤ length buf → is_Some (write_bytes buf off src).
Proof. intros. unfold write_bytes. rewrite decide_True by done. eauto. Qed.

Lemma write_bytes_length buf off src buf' :
  write_bytes buf off src = Some buf' → length buf' = length buf.
Proof.
  intros [? ->]%write_bytes_Some.
  rewrite !length_app, length_take, length_drop. lia.
Qed.

Lemma read_bytes_length buf off n bs : read_bytes buf off n = Some bs → length bs = n.
Proof. intros [? ->]%read_bytes_Some. rewrite length_take, length_drop. lia. Qed.

Lemma read_write_same buf off src buf' :
  write_bytes buf off src = Some buf' → read_bytes buf' off (length src) = Some src.
Proof.
  intros Hw. pose proof (write_bytes_length _ _ _ _ Hw) as Hl.
  apply write_bytes_Some in Hw as [Hle ->].
  apply read_bytes_Some. split; [lia|].
  rewrite drop_app_length' by (rewrite length_take; lia).
  by rewrite take_app_length.
Qed.

(** A read that does not meet the written range sees the old bytes. *)
Lemma read_write_disjoint buf off src buf' off' n :
  write_bytes buf off src = Some buf' →
  off' + n ≤ off ∨ off + length src ≤ off' →
  read_bytes buf' off' n = read_bytes buf off' n.
Proof.
  intros Hw Hd. pose proof (write_bytes_length _ _ _ _ Hw) as Hl.
  apply write_bytes_Some in Hw as [Hle ->].
  unfold read_bytes. rewrite Hl. case_decide as Hr; [|done]. f_equal.
  apply list_eq. intros i. rewrite !lookup_take, !lookup_drop.
  case_decide as Hi; [|done].
  destruct Hd as [Hd|Hd].
  - rewrite lookup_app_l by (rewrite length_take; lia).
    rewrite lookup_take. by rewrite decide_True by lia.
  - rewrite lookup_app_r by (rewrite length_take; lia).
    rewrite length_take, lookup_app_r by lia.
    rewrite lookup_drop. f_equal. lia.
Qed.

Lemma Forall_write_bytes P buf off src buf' :
  write_bytes buf off src = Some buf' → Forall P buf → Forall P src → Forall P buf'.
Proof.
  intros [? ->]%write_bytes_Some ??.
  rewrite !Forall_app. eauto using Forall_take, Forall_drop.
Qed.

Lemma Forall_read_bytes P buf off n bs :
  read_bytes buf off n = Some bs → Forall P buf → Forall P bs.
Proof. intros [? ->]%read_bytes_Some ?. eauto using Forall_take, Forall_drop. Qed.

(** ** std::string

    A [std::string] is a sequence of [char]; its object bytes are the codes of
    its characters. *)

Definition ascii_byte (a : ascii) : Z := Z.of_N (Ascii.N_of_ascii a).
Definition byte_ascii (b : Z) : ascii := Ascii.ascii_of_N (Z.to_N b).

Fixpoint string_bytes (s : string) : list Z :=
  match s with
  | EmptyString => []
  | String a s' => ascii_byte a :: string_bytes s'
  end.

Fixpoint bytes_string (bs : list Z) : string :=
  match bs with
  | [] => EmptyString
  | b :: bs' => String (byte_ascii b) (bytes_string bs')
  end.

Lemma byte_ascii_byte a : byte_ascii (ascii_byte a) = a.
Proof. unfold byte_ascii, ascii_byte. rewrite N2Z.id. apply Ascii.ascii_N_embedding. Qed.

Lemma ascii_byte_ok a : byte_ok (ascii_byte a).
Proof.
  unfold byte_ok, ascii_byte. pose proof (Ascii.N_ascii_bounded a). lia.
Qed.

Lemma ascii_byte_inj a b : ascii_byte a = ascii_byte b → a = b.
Proof. intros H. by rewrite <- (byte_ascii_byte a), <- (byte_ascii_byte b), H. Qed.

Lemma bytes_string_bytes s : bytes_string (string_bytes s) = s.
Proof. induction s as [|a s IH]; simpl; [done|]. by rewrite byte_ascii_byte, IH. Qed.

Lemma string_bytes_ok s : Forall byte_ok (string_bytes s).
Proof. induction s; simpl; constructor; auto using ascii_byte_ok. Qed.
#[export] Hint Resolve string_bytes_ok : orange.

Lemma length_string_bytes s : length (string_bytes s) = String.length s.
Proof. induction s as [|a s IH]; simpl; [done|]. by rewrite IH. Qed.
#[export] Hint Rewrite length_string_bytes : orange_rw.

Lemma string_bytes_inj s t : string_bytes s = string_bytes t → s = t.
Proof. intros H. by rewrite <- (bytes_string_bytes s), <- (bytes_string_bytes t), H. Qed.

(** [std::string::compare]: unsigned characters first, then the length. *)
Fixpoint bytes_compare (xs ys : list Z) : comparison :=
  match xs, ys with
  | [], [] => Eq
  | [], _ :: _ => Lt
  | _ :: _, [] => Gt
  | x :: xs', y :: ys' =>
      match (x ?= y)%Z with
      | Eq => bytes_compare xs' ys'
      | c => c
      end
  end.

Lemma bytes_compare_eq xs ys : bytes_compare xs ys = Eq ↔ xs = ys.
Proof.
  revert ys. induction xs as [|x xs IH]; intros [|y ys]; simpl; try naive_solver.
  destruct (Z.compare_spec x y); subst; rewrite ?IH; split; intros; simplify_eq; lia || done.
Qed.

Lemma bytes_compare_antisym xs ys : bytes_compare ys xs = CompOpp (bytes_compare xs ys).
Proof.
  revert ys. induction xs as [|x xs IH]; intros [|y ys]; simpl; try done.
  rewrite (Z.compare_antisym x y). destruct (x ?= y)%Z; simpl; auto.
Qed.

Lemma bytes_compare_trans xs ys zs :
  bytes_compare xs ys = Lt → bytes_compare ys zs = Lt → bytes_compare xs zs = Lt.
Proof.
  revert ys zs. induction xs as [|x xs IH]; intros [|y ys] [|z zs]; simpl; try done.
  destruct (Z.compare_spec x y), (Z.compare_spec y z), (Z.compare_spec x z);
    intros; try done; try lia; eauto.
Qed.

Definition string_compare (s t : string) : comparison :=
  bytes_compare (string_bytes s) (string_bytes t).

Lemma string_compare_eq s t : string_compare s t = Eq ↔ s = t.
Proof.
  unfold string_compare. rewrite bytes_compare_eq. split; [apply string_bytes_inj|by intros ->].
Qed.

Lemma string_compare_refl s : string_compare s s = Eq.
Proof. by apply string_compare_eq. Qed.

Lemma string_compare_antisym s t : string_compare t s = CompOpp (string_compare s t).
Proof. apply bytes_compare_antisym. Qed.

Lemma string_compare_trans s t u :
  string_compare s t = Lt → string_compare t u = Lt → string_compare s u = Lt.
Proof. apply bytes_compare_trans. Qed.

(** ** Tactics of the development *)

(** Case analysis on the scrutinee of the innermost [if] or [match] of the
    goal, or of a hypothesis, keeping its equation. *)
Ltac case_match_eq :=
  match goal with
  | |- context [if ?b then _ else _] => let E := fresh "E" in destruct b eqn:E
  | H : context [if ?b then _ else _] |- _ => let E := fresh "E" in destruct b eqn:E
  end.

(** Turn the boolean tests of the hypotheses into propositions. *)
Ltac prop_bools :=
  repeat match goal with
  | H : (_ && _) = true |- _ => apply andb_true_iff in H as [? ?]
  | H : (_ || _) = false |- _ => apply orb_false_iff in H as [? ?]
  | H : negb _ = true |- _ => apply negb_true_iff in H
  | H : negb _ = false |- _ => apply negb_false_iff in H
  | H : (_ =? _)%Z = true |- _ => apply Z.eqb_eq in H
  | H : (_ =? _)%Z = false |- _ => apply Z.eqb_neq in H
  | H : (_ <? _)%Z = true |- _ => apply Z.ltb_lt in H
  | H : (_ <? _)%Z = false |- _ => apply Z.ltb_ge in H
  | H : (_ <=? _)%Z = true |- _ => apply Z.leb_le in H
  | H : (_ <=? _)%Z = false |- _ => apply Z.leb_gt in H
  | H : bool_decide _ = true |- _ => apply bool_decide_eq_true in H
  | H : bool_decide _ = false |- _ => apply bool_decide_eq_false in H
  end.
