(* ===== verification/CxxString.v ===== *)
(** * CxxString: the C++ string and character functions the sources use

    [std::to_string], [std::stoi] and its relatives, and the classification of
    characters of [<cctype>] in the "C" locale.  A conversion that throws
    ([std::invalid_argument], [std::out_of_range]) is [None]. *)

From S2P Require Import Prelude.

Open Scope Z_scope.

(** ** <cctype> *)

Definition in_range (lo hi : Z) (c : ascii) : bool :=
  (lo <=? ascii_byte c) && (ascii_byte c <=? hi).

Definition isspace (c : ascii) : bool := in_range 9 13 c || (ascii_byte c =? 32).
Definition isdigit (c : ascii) : bool := in_range 48 57 c.
Definition isupper (c : ascii) : bool := in_range 65 90 c.
Definition islower (c : ascii) : bool := in_range 97 122 c.
Definition isalpha (c : ascii) : bool := isupper c || islower c.
Definition isalnum (c : ascii) : bool := isalpha c || isdigit c.
Definition toupper (c : ascii) : ascii :=
  if islower c then byte_ascii (ascii_byte c - 32) else c.

Fixpoint string_map (f : ascii → ascii) (s : string) : string :=
  match s with
  | EmptyString => EmptyString
  | String c s' => String (f c) (string_map f s')
  end.

(** The end of a line, and what [std::endl] writes. *)
Definition line_feed : ascii := byte_ascii 10.
Definition endl : string := String line_feed "".

(** ** std::to_string of an integer *)

Definition digit_char (d : Z) : ascii := byte_ascii (48 + d).

(** Digits of [n], most significant first, in front of [acc]. *)
Fixpoint digits (fuel : nat) (n : Z) (acc : string) : string :=
  match fuel with
  | O => acc
  | S fuel' =>
      let acc' := String (digit_char (n `mod` 10)) acc in
      if n <? 10 then acc' else digits fuel' (n / 10) acc'
  end.

(** A number below 10^k has at most k digits: its bit length is enough fuel. *)
Definition digits_fuel (n : Z) : nat := S (Z.to_nat (Z.log2 n)).

Definition to_string (z : Z) : string :=
  if z <? 0 then String "-" (digits (digits_fuel (- z)) (- z) "")
  else digits (digits_fuel z) z "".

(** ** std::stoi, std::stoll, std::stoull *)

Fixpoint skip_spaces (s : string) : string :=
  match s with
  | String c s' => if isspace c then skip_spaces s' else s
  | EmptyString => s
  end.

Fixpoint scan_digits (s : string) (acc : Z) : Z :=
  match s with
  | String c s' => if isdigit c then scan_digits s' (10 * acc + (ascii_byte c - 48)) else acc
  | EmptyString => acc
  end.

Definition starts_with_digit (s : string) : bool :=
  match s with String c _ => isdigit c | EmptyString => false end.

(** [strtoll] in base 10 after the blanks: an optional sign, then digits. *)
Definition parse_integer (s : string) : option Z :=
  match skip_spaces s with
  | String c s' =>
      if bool_decide (c = "-"%char) then
        if starts_with_digit s' then Some (- scan_digits s' 0) else None
      else if bool_decide (c = "+"%char) then
        if starts_with_digit s' then Some (scan_digits s' 0) else None
      else if isdigit c then Some (scan_digits (String c s') 0) else None
  | EmptyString => None
  end.

Definition parse_signed (w : Z) (s : string) : option Z :=
  z ← parse_integer s;
  if decide (- 2 ^ (w - 1) ≤ z < 2 ^ (w - 1)) then Some z else None.

Definition stoi (s : string) : option Z := parse_signed 32 s.
Definition stoll (s : string) : option Z := parse_signed 64 s.

(** [strtoull] accepts a sign and negates modulo 2^64. *)
Definition stoull (s : string) : option Z :=
  z ← parse_integer s;
  if decide (Z.abs z < 2 ^ 64) then Some (wrap 64 z) else None.

(** ** Round trip *)

Lemma ascii_byte_ascii b : byte_ok b → ascii_byte (byte_ascii b) = b.
Proof.
  unfold byte_ok, ascii_byte, byte_ascii. intros Hb.
  rewrite Ascii.N_ascii_embedding by lia. lia.
Qed.

Lemma digit_char_byte d : 0 ≤ d < 10 → ascii_byte (digit_char d) = 48 + d.
Proof. intros. unfold digit_char. apply ascii_byte_ascii. unfold byte_ok. lia. Qed.

Lemma isdigit_digit_char d : 0 ≤ d < 10 → isdigit (digit_char d) = true.
Proof. intros. unfold isdigit, in_range. rewrite digit_char_byte by done. lia. Qed.

Lemma scan_digits_print fuel n acc :
  (0 < fuel)%nat → 0 ≤ n < 10 ^ Z.of_nat fuel →
  scan_digits (digits fuel n acc) 0 = scan_digits acc n.
Proof.
  revert n acc. induction fuel as [|fuel IH]; intros n acc Hf Hn; [lia|].
  simpl. pose proof (Z.mod_pos_bound n 10 ltac:(lia)).
  pose proof (Z.div_mod n 10 ltac:(lia)).
  destruct (Z.ltb_spec n 10).
  - simpl. rewrite isdigit_digit_char, digit_char_byte, Z.mod_small by lia.
    f_equal. lia.
  - rewrite Nat2Z.inj_succ, Z.pow_succ_r in Hn by lia.
    rewrite IH.
    + simpl. rewrite isdigit_digit_char, digit_char_byte by lia. f_equal. lia.
    + destruct fuel; [simpl in Hn; lia|lia].
    + split; [apply Z.div_pos; lia|]. apply Z.div_lt_upper_bound; lia.
Qed.

Lemma digits_fuel_enough n : 0 ≤ n → n < 10 ^ Z.of_nat (digits_fuel n).
Proof.
  intros Hn. unfold digits_fuel. destruct (decide (n = 0)) as [->|]; [done|].
  pose proof (Z.log2_nonneg n). pose proof (Z.log2_spec n ltac:(lia)) as [_ Hlt].
  rewrite Nat2Z.inj_succ, Z2Nat.id by lia.
  eapply Z.lt_le_trans; [exact Hlt|]. apply Z.pow_le_mono_l. lia.
Qed.

Lemma digits_head fuel n acc :
  0 ≤ n → starts_with_digit acc = true ∨ (0 < fuel)%nat →
  starts_with_digit (digits fuel n acc) = true.
Proof.
  revert n acc. induction fuel as [|fuel IH]; intros n acc Hn Hs; simpl; [intuition lia|].
  pose proof (Z.mod_pos_bound n 10 ltac:(lia)).
  destruct (n <? 10); simpl; [by apply isdigit_digit_char|].
  apply IH; [apply Z.div_pos; lia|]. left. by apply isdigit_digit_char.
Qed.

Lemma parse_integer_nonneg s :
  starts_with_digit s = true → parse_integer s = Some (scan_digits s 0).
Proof.
  destruct s as [|c s]; simpl; [done|]. intros Hd. unfold parse_integer. simpl.
  assert (isspace c = false) as ->.
  { unfold isspace, isdigit, in_range in *. lia. }
  rewrite !bool_decide_eq_false_2; [by rewrite Hd|..]; by intros ->.
Qed.

Lemma parse_integer_neg s :
  starts_with_digit s = true → parse_integer (String "-" s) = Some (- scan_digits s 0).
Proof. intros Hd. unfold parse_integer. simpl. by rewrite Hd. Qed.

Lemma parse_to_string z : parse_integer (to_string z) = Some z.
Proof.
  unfold to_string. destruct (Z.ltb_spec z 0).
  - rewrite parse_integer_neg by (apply digits_head; unfold digits_fuel; lia).
    rewrite scan_digits_print; [|unfold digits_fuel; lia|].
    + simpl. f_equal. lia.
    + split; [lia|]. apply digits_fuel_enough. lia.
  - rewrite parse_integer_nonneg by (apply digits_head; unfold digits_fuel; lia).
    rewrite scan_digits_print; [done|unfold digits_fuel; lia|].
    split; [lia|]. by apply digits_fuel_enough.
Qed.

Lemma stoi_to_string z : fits_signed 32 z → stoi (to_string z) = Some z.
Proof. intros Hz. unfold stoi, parse_signed. rewrite parse_to_string. simpl. by rewrite decide_True. Qed.

Lemma stoll_to_string z : fits_signed 64 z → stoll (to_string z) = Some z.
Proof. intros Hz. unfold stoll, parse_signed. rewrite parse_to_string. simpl. by rewrite decide_True. Qed.

Lemma stoull_to_string z : fits 64 z → stoull (to_string z) = Some z.
Proof.
  intros Hz. unfold stoull. rewrite parse_to_string. simpl.
  rewrite decide_True by (unfold fits in Hz; lia). f_equal. by apply wrap_small.
Qed.
