(* ===== verification/CxxStream.v ===== *)
(** * CxxStream: text fields and [std::getline]

    Reading the fields of a text with [std::getline] from a [std::stringstream], and
    the characters that numbers are printed with. *)

From stdpp Require Import strings.
From S2P Require Import Prelude CxxString.

Open Scope Z_scope.

(** ** Concatenation *)

Lemma append_assoc s t u : (s +:+ t) +:+ u = s +:+ t +:+ u.
Proof. induction s as [|c s IH]; [done|].
  change ((String c s +:+ t) +:+ u) with (String c ((s +:+ t) +:+ u)). by rewrite IH. Qed.

Lemma append_nil s : s +:+ "" = s.
Proof. induction s as [|c s IH]; [done|]. change (String c s +:+ "") with (String c (s +:+ "")). by rewrite IH. Qed.

Lemma length_append s t : String.length (s +:+ t) = (String.length s + String.length t)%nat.
Proof.
  induction s as [|c s IH]; [done|]. change (String c s +:+ t) with (String c (s +:+ t)).
  cbn [String.length]. by rewrite IH.
Qed.

(** ** Characters of a string *)

Fixpoint no_char (c : ascii) (s : string) : bool :=
  match s with
  | EmptyString => true
  | String d s' => negb (bool_decide (d = c)) && no_char c s'
  end.

Lemma no_char_app c s1 s2 : no_char c (s1 +:+ s2) = no_char c s1 && no_char c s2.
Proof. induction s1 as [|d s1 IH]; [done|].
  change (String d s1 +:+ s2) with (String d (s1 +:+ s2)). cbn [no_char]. by rewrite IH, andb_assoc. Qed.

Lemma no_char_digits c fuel : ∀ n acc,
  0 ≤ n → isdigit c = false → no_char c acc = true → no_char c (digits fuel n acc) = true.
Proof.
  induction fuel as [|fuel IH]; intros n acc Hn Hc Ha; [done|]. cbn [digits].
  assert (no_char c (String (digit_char (n `mod` 10)) acc) = true) as Hs.
  { cbn [no_char]. rewrite Ha, andb_true_r. apply negb_true_iff, bool_decide_eq_false. intros <-.
    pose proof (Z.mod_pos_bound n 10). by rewrite isdigit_digit_char in Hc by lia. }
  destruct (n <? 10); [done|]. apply IH; [apply Z.div_pos; lia|done|done].
Qed.

(** A printed number has digits and a sign only. *)
Lemma no_char_to_string c z :
  isdigit c = false → c ≠ "-"%char → no_char c (to_string z) = true.
Proof.
  intros Hd Hm. unfold to_string. destruct (Z.ltb_spec z 0); [|by apply no_char_digits].
  cbn [no_char]. rewrite bool_decide_eq_false_2 by congruence. apply no_char_digits; [lia|done|done].
Qed.

(** ** std::getline *)

(** The characters left, and whether the stream is good: it is not once its end was
    met. *)
Record Stream := mkStream { ss_rest : string; ss_good : bool }.

Definition stringstream (s : string) : Stream := mkStream s true.

(** The text up to the delimiter, and what follows it, if there is one. *)
Fixpoint split_at (c : ascii) (s : string) : string * option string :=
  match s with
  | EmptyString => (EmptyString, None)
  | String d s' =>
      if bool_decide (d = c) then (EmptyString, Some s')
      else let '(a, b) := split_at c s' in (String d a, b)
  end.

(** On a stream that is not good the token keeps its value. *)
Definition getline (delim : ascii) (ss : Stream) (token : string) : Stream * string :=
  if ss_good ss then
    match split_at delim (ss_rest ss) with
    | (a, Some rest) => (mkStream rest true, a)
    | (a, None) => (mkStream EmptyString false, a)
    end
  else (ss, token).

Lemma split_at_found c a rest :
  no_char c a = true → split_at c (a +:+ String c rest) = (a, Some rest).
Proof.
  induction a as [|d a IH]; intros Ha.
  { change ("" +:+ String c rest) with (String c rest). cbn [split_at].
    by rewrite bool_decide_eq_true_2. }
  change (String d a +:+ String c rest) with (String d (a +:+ String c rest)). cbn [split_at].
  cbn [no_char] in Ha. apply andb_true_iff in Ha as [Hd%negb_true_iff Ha]. by rewrite Hd, IH.
Qed.

Lemma split_at_none c a : no_char c a = true → split_at c a = (a, None).
Proof.
  induction a as [|d a IH]; cbn [split_at no_char]; intros Ha; [done|].
  apply andb_true_iff in Ha as [Hd%negb_true_iff Ha]. by rewrite Hd, IH.
Qed.

(** A field that is followed by the delimiter. *)
Lemma getline_field c a rest token :
  no_char c a = true → getline c (mkStream (a +:+ String c rest) true) token = (mkStream rest true, a).
Proof. intros Ha. unfold getline. cbn [ss_good ss_rest]. by rewrite split_at_found. Qed.

(** The last field. *)
Lemma getline_last c a token :
  no_char c a = true → getline c (mkStream a true) token = (mkStream "" false, a).
Proof. intros Ha. unfold getline. cbn [ss_good ss_rest]. by rewrite split_at_none. Qed.

(** The text before the delimiter, and the rest. *)
Lemma split_at_app c s a b : split_at c s = (a, Some b) → s = a +:+ String c b ∧ no_char c a = true.
Proof.
  revert a b. induction s as [|d s IH]; intros a b; cbn [split_at]; [done|].
  destruct (bool_decide (d = c)) eqn:Hd.
  - intros [= <- <-]. apply bool_decide_eq_true in Hd as ->. done.
  - destruct (split_at c s) as [a' [b'|]] eqn:Hs; intros [= <- ->].
    destruct (IH _ _ eq_refl) as [-> Hn]. split; [done|]. cbn [no_char]. by rewrite Hd.
Qed.

(** ** std::string::find *)

(** The text after a prefix. *)
Fixpoint strip_prefix (p s : string) : option string :=
  match p, s with
  | EmptyString, _ => Some s
  | String c p', String d s' => if bool_decide (c = d) then strip_prefix p' s' else None
  | String _ _, EmptyString => None
  end.

(** The text before the first occurrence of [p], and the text after it. *)
Fixpoint find_text (p s : string) : option (string * string) :=
  match strip_prefix p s with
  | Some rest => Some (EmptyString, rest)
  | None =>
      match s with
      | EmptyString => None
      | String c s' => '(before, after) ← find_text p s'; Some (String c before, after)
      end
  end.

Lemma strip_prefix_app p s : strip_prefix p (p +:+ s) = Some s.
Proof.
  induction p as [|c p IH]; [done|].
  change (String c p +:+ s) with (String c (p +:+ s)). cbn [strip_prefix].
  by rewrite bool_decide_eq_true_2.
Qed.

Lemma strip_prefix_Some p s r : strip_prefix p s = Some r → s = p +:+ r.
Proof.
  revert s. induction p as [|c p IH]; intros s; cbn [strip_prefix]; [by intros [= ->]|].
  destruct s as [|d s]; [done|]. case_bool_decide as Hc; [|done]. intros ->%IH. by subst d.
Qed.

Lemma find_text_Some p s a b : find_text p s = Some (a, b) → s = a +:+ p +:+ b.
Proof.
  revert a b. induction s as [|c s IH]; intros a b; cbn [find_text].
  - destruct (strip_prefix p "") as [r|] eqn:Hp; [|done]. intros [= <- <-].
    by apply strip_prefix_Some in Hp.
  - destruct (strip_prefix p (String c s)) as [r|] eqn:Hp.
    + intros [= <- <-]. by apply strip_prefix_Some in Hp.
    + destruct (find_text p s) as [[a' b']|] eqn:Hf; [|done]. cbn. intros [= <- <-].
      by rewrite (IH _ _ eq_refl).
Qed.
