(* ===== verification/Utils.v ===== *)
(** * Utils: the utilities of src/include/utils.h

    One module per namespace.  A function that draws random numbers takes them as an
    argument.  Clocks, random generators and floating-point numbers are in [UtilsSystem], files
    and directories in [Directories].  A
    character is a byte; [isxdigit] of a byte over 127, which is undefined for a negative
    [char], is false. *)

From stdpp Require Import strings list.
From S2P Require Import Prelude CxxString CxxStream.

Open Scope Z_scope.

Module string_utils.

(** The characters of [" \t\n\r"] *)
Definition is_blank (c : ascii) : bool :=
  (ascii_byte c =? 32) || (ascii_byte c =? 9) || (ascii_byte c =? 10) || (ascii_byte c =? 13).

(** From [find_first_not_of] on. *)
Fixpoint skip_blank (s : string) : string :=
  match s with
  | EmptyString => EmptyString
  | String c s' => if is_blank c then skip_blank s' else s
  end.

(** Up to [find_last_not_of]. *)
Fixpoint cut_blank (s : string) : string :=
  match s with
  | EmptyString => EmptyString
  | String c s' =>
      match cut_blank s' with
      | EmptyString => if is_blank c then EmptyString else String c EmptyString
      | t => String c t
      end
  end.

Definition trim (str : string) : string := cut_blank (skip_blank str).

Definition tolower (c : ascii) : ascii := if isupper c then byte_ascii (ascii_byte c + 32) else c.

Definition toLower (str : string) : string := string_map tolower str.
Definition toUpper (str : string) : string := string_map toupper str.

(** [if (!token.empty()) tokens.push_back(token);] *)
Definition push_token (token : string) (tokens : list string) : list string :=
  match token with EmptyString => tokens | _ => token :: tokens end.

(** [while (std::getline(ss, token, delimiter))]: it fails when nothing is left. *)
Fixpoint split_loop (fuel : nat) (delimiter : ascii) (ss : string) : option (list string) :=
  match ss with
  | EmptyString => Some []
  | _ =>
      match fuel with
      | O => None
      | S fuel' =>
          match split_at delimiter ss with
          | (token, None) => Some (push_token token [])
          | (token, Some rest) => push_token token <$> split_loop fuel' delimiter rest
          end
      end
  end.

(** A turn takes a character at least. *)
Definition str_split (str : string) (delimiter : ascii) : option (list string) :=
  split_loop (String.length str) delimiter str.

Fixpoint join_loop (result : string) (parts : list string) (delimiter : string) : string :=
  match parts with
  | [] => result
  | p :: parts' => join_loop (result +:+ (delimiter +:+ p)) parts' delimiter
  end.

Definition join (parts : list string) (delimiter : string) : string :=
  match parts with
  | [] => EmptyString
  | p :: parts' => join_loop p parts' delimiter
  end.

Definition startsWith (str prefix : string) : bool :=
  (String.length prefix <=? String.length str)%nat &&
  bool_decide (String.substring 0 (String.length prefix) str = prefix).

Definition endsWith (str suffix : string) : bool :=
  (String.length suffix <=? String.length str)%nat &&
  bool_decide (String.substring (String.length str - String.length suffix) (String.length suffix) str = suffix).

(** The text from [pos] on, after the replacements; [None] when the fuel does not do. *)
Fixpoint replace_loop (fuel : nat) (rest from to : string) : option string :=
  match find_text from rest with
  | None => Some rest
  | Some (before, after) =>
      match fuel with
      | O => None
      | S fuel' => (λ t, before +:+ to +:+ t) <$> replace_loop fuel' after from to
      end
  end.

Definition replace (fuel : nat) (str from to : string) : option string := replace_loop fuel str from to.

Definition charset : string := "0123456789ABCDEFGHIJKLMNOPQRSTUVWXYZabcdefghijklmnopqrstuvwxyz".

(** [draws] are the values of [dis(gen)], one for each character. *)
Fixpoint randomString (draws : list Z) : string :=
  match draws with
  | [] => EmptyString
  | d :: draws' => String (default Ascii.zero (String.get (Z.to_nat d) charset)) (randomString draws')
  end.

End string_utils.

Module file_utils.

(** The text before the last character that satisfies [p], and the text after it. *)
Fixpoint split_last (p : ascii → bool) (s : string) : option (string * string) :=
  match s with
  | EmptyString => None
  | String c s' =>
      match split_last p s' with
      | Some (before, after) => Some (String c before, after)
      | None => if p c then Some (EmptyString, s') else None
      end
  end.

(** ["/\\"] *)
Definition is_separator (c : ascii) : bool := (ascii_byte c =? 47) || (ascii_byte c =? 92).

Definition dirname (path : string) : string :=
  match split_last is_separator path with Some (before, _) => before | None => "." end.

Definition basename (path : string) : string :=
  match split_last is_separator path with Some (_, after) => after | None => path end.

Definition dot : ascii := "."%char.

Definition extension (path : string) : string :=
  match split_last (λ c, bool_decide (c = dot)) path with
  | Some (_, after) => String dot after
  | None => EmptyString
  end.

End file_utils.

Module math_utils.

(** [T] is an integer type; [std::max(a, b)] is [b] only if [a < b]. *)
Definition clamp (value min max : Z) : Z := Z.max min (Z.min max value).

Definition smear (k n : Z) : Z := Z.lor n (Z.shiftr n k).

Definition nextPowerOfTwo (n : Z) : Z :=
  let n := wrap 64 (n - 1) in
  wrap 64 (smear 32 (smear 16 (smear 8 (smear 4 (smear 2 (smear 1 n))))) + 1).

End math_utils.

Module memory_utils.

(** [~x] of a [size_t] *)
Definition lnot64 (x : Z) : Z := wrap 64 (Z.lnot x).

Definition alignUp (size alignment : Z) : Z :=
  Z.land (wrap 64 (size + alignment - 1)) (lnot64 (wrap 64 (alignment - 1))).

Definition alignDown (size alignment : Z) : Z := Z.land size (lnot64 (wrap 64 (alignment - 1))).

Definition isAligned (ptr alignment : Z) : bool := Z.land ptr (wrap 64 (alignment - 1)) =? 0.

End memory_utils.

Module base64.

Definition b64_table : string := "ABCDEFGHIJKLMNOPQRSTUVWXYZabcdefghijklmnopqrstuvwxyz0123456789+/".

Definition b64_char (v : Z) : ascii := default Ascii.zero (String.get (Z.to_nat v) b64_table).

(** [while (bits >= 6)]: the characters and the bits left. *)
Fixpoint emit (fuel : nat) (temp bits : Z) : string * Z :=
  match fuel with
  | O => (EmptyString, bits)
  | S fuel' =>
      if 6 <=? bits then
        let bits := bits - 6 in
        let '(out, k) := emit fuel' temp bits in
        (String (b64_char (Z.land (Z.shiftr temp bits) 63)) out, k)
      else (EmptyString, bits)
  end.

(** The loop over the bytes: the characters, [temp] and [bits]. *)
Fixpoint encode_bytes (data : list Z) (temp bits : Z) : string * Z * Z :=
  match data with
  | [] => (EmptyString, temp, bits)
  | byte :: data' =>
      let temp := wrap 32 (Z.lor (Z.shiftl temp 8) byte) in
      let bits := bits + 8 in
      let '(out, k) := emit (Z.to_nat bits) temp bits in
      let '(out', temp', bits') := encode_bytes data' temp k in
      (out +:+ out', temp', bits')
  end.

(** [while (result.size() % 4)] *)
Fixpoint pad (fuel : nat) (result : string) : string :=
  match fuel with
  | O => result
  | S fuel' =>
      if (String.length result mod 4 =? 0)%nat then result
      else pad fuel' (result +:+ String "="%char EmptyString)
  end.

Definition encode (data : list Z) : string :=
  let '(result, temp, bits) := encode_bytes data 0 0 in
  let result :=
    if 0 <? bits
    then result +:+ String (b64_char (Z.land (wrap 32 (Z.shiftl temp (6 - bits))) 63)) EmptyString
    else result in
  pad 3 result.

(** The position of a character. *)
Fixpoint index_of (c : ascii) (table : string) : option Z :=
  match table with
  | EmptyString => None
  | String d table' => if bool_decide (c = d) then Some 0 else Z.succ <$> index_of c table'
  end.

(** [strchr(b64_table, c)] finds the terminating zero as well. *)
Definition strchr_table (c : ascii) : option Z :=
  match index_of c b64_table with
  | Some i => Some i
  | None => if bool_decide (c = Ascii.zero) then Some 64 else None
  end.

Fixpoint decode_loop (str : string) (temp bits : Z) : list Z :=
  match str with
  | EmptyString => []
  | String c str' =>
      if bool_decide (c = "="%char) then []
      else
        match strchr_table c with
        | None => decode_loop str' temp bits
        | Some value =>
            let temp := wrap 32 (Z.lor (Z.shiftl temp 6) value) in
            let bits := bits + 6 in
            if 8 <=? bits then
              let bits := bits - 8 in
              Z.land (Z.shiftr temp bits) 255 :: decode_loop str' temp bits
            else decode_loop str' temp bits
        end
  end.

Definition decode (str : string) : list Z := decode_loop str 0 0.

End base64.

Module crc32.

Definition crc32_table : list Z :=
  [
   0x00000000; 0x77073096; 0xee0e612c; 0x990951ba; 0x076dc419; 0x706af48f; 0xe963a535; 0x9e6495a3;
   0x0edb8832; 0x79dcb8a4; 0xe0d5e91e; 0x97d2d988; 0x09b64c2b; 0x7eb17cbd; 0xe7b82d07; 0x90bf1d91;
   0x1db71064; 0x6ab020f2; 0xf3b97148; 0x84be41de; 0x1adad47d; 0x6ddde4eb; 0xf4d4b551; 0x83d385c7;
   0x136c9856; 0x646ba8c0; 0xfd62f97a; 0x8a65c9ec; 0x14015c4f; 0x63066cd9; 0xfa0f3d63; 0x8d080df5;
   0x3b6e20c8; 0x4c69105e; 0xd56041e4; 0xa2677172; 0x3c03e4d1; 0x4b04d447; 0xd20d85fd; 0xa50ab56b;
   0x35b5a8fa; 0x42b2986c; 0xdbbbc9d6; 0xacbcf940; 0x32d86ce3; 0x45df5c75; 0xdcd60dcf; 0xabd13d59;
   0x26d930ac; 0x51de003a; 0xc8d75180; 0xbfd06116; 0x21b4f4b5; 0x56b3c423; 0xcfba9599; 0xb8bda50f;
   0x2802b89e; 0x5f058808; 0xc60cd9b2; 0xb10be924; 0x2f6f7c87; 0x58684c11; 0xc1611dab; 0xb6662d3d;
   0x76dc4190; 0x01db7106; 0x98d220bc; 0xefd5102a; 0x71b18589; 0x06b6b51f; 0x9fbfe4a5; 0xe8b8d433;
   0x7807c9a2; 0x0f00f934; 0x9609a88e; 0xe10e9818; 0x7f6a0dbb; 0x086d3d2d; 0x91646c97; 0xe6635c01;
   0x6b6b51f4; 0x1c6c6162; 0x856530d8; 0xf262004e; 0x6c0695ed; 0x1b01a57b; 0x8208f4c1; 0xf50fc457;
   0x65b0d9c6; 0x12b7e950; 0x8bbeb8ea; 0xfcb9887c; 0x62dd1ddf; 0x15da2d49; 0x8cd37cf3; 0xfbd44c65;
   0x4db26158; 0x3ab551ce; 0xa3bc0074; 0xd4bb30e2; 0x4adfa541; 0x3dd895d7; 0xa4d1c46d; 0xd3d6f4fb;
   0x4369e96a; 0x346ed9fc; 0xad678846; 0xda60b8d0; 0x44042d73; 0x33031de5; 0xaa0a4c5f; 0xdd0d7cc9;
   0x5005713c; 0x270241aa; 0xbe0b1010; 0xc90c2086; 0x5768b525; 0x206f85b3; 0xb966d409; 0xce61e49f;
   0x5edef90e; 0x29d9c998; 0xb0d09822; 0xc7d7a8b4; 0x59b33d17; 0x2eb40d81; 0xb7bd5c3b; 0xc0ba6cad;
   0xedb88320; 0x9abfb3b6; 0x03b6e20c; 0x74b1d29a; 0xead54739; 0x9dd277af; 0x04db2615; 0x73dc1683;
   0xe3630b12; 0x94643b84; 0x0d6d6a3e; 0x7a6a5aa8; 0xe40ecf0b; 0x9309ff9d; 0x0a00ae27; 0x7d079eb1;
   0xf00f9344; 0x8708a3d2; 0x1e01f268; 0x6906c2fe; 0xf762575d; 0x806567cb; 0x196c3671; 0x6e6b06e7;
   0xfed41b76; 0x89d32be0; 0x10da7a5a; 0x67dd4acc; 0xf9b9df6f; 0x8ebeeff9; 0x17b7be43; 0x60b08ed5;
   0xd6d6a3e8; 0xa1d1937e; 0x38d8c2c4; 0x4fdff252; 0xd1bb67f1; 0xa6bc5767; 0x3fb506dd; 0x48b2364b;
   0xd80d2bda; 0xaf0a1b4c; 0x36034af6; 0x41047a60; 0xdf60efc3; 0xa867df55; 0x316e8eef; 0x4669be79;
   0xcb61b38c; 0xbc66831a; 0x256fd2a0; 0x5268e236; 0xcc0c7795; 0xbb0b4703; 0x220216b9; 0x5505262f;
   0xc5ba3bbe; 0xb2bd0b28; 0x2bb45a92; 0x5cb36a04; 0xc2d7ffa7; 0xb5d0cf31; 0x2cd99e8b; 0x5bdeae1d;
   0x9b64c2b0; 0xec63f226; 0x756aa39c; 0x026d930a; 0x9c0906a9; 0xeb0e363f; 0x72076785; 0x05005713;
   0x95bf4a82; 0xe2b87a14; 0x7bb12bae; 0x0cb61b38; 0x92d28e9b; 0xe5d5be0d; 0x7cdcefb7; 0x0bdbdf21;
   0x86d3d2d4; 0xf1d4e242; 0x68ddb3f8; 0x1fda836e; 0x81be16cd; 0xf6b9265b; 0x6fb077e1; 0x18b74777;
   0x88085ae6; 0xff0f6a70; 0x66063bca; 0x11010b5c; 0x8f659eff; 0xf862ae69; 0x616bffd3; 0x166ccf45;
   0xa00ae278; 0xd70dd2ee; 0x4e048354; 0x3903b3c2; 0xa7672661; 0xd06016f7; 0x4969474d; 0x3e6e77db;
   0xaed16a4a; 0xd9d65adc; 0x40df0b66; 0x37d83bf0; 0xa9bcae53; 0xdebb9ec5; 0x47b2cf7f; 0x30b5ffe9;
   0xbdbdf21c; 0xcabac28a; 0x53b39330; 0x24b4a3a6; 0xbad03605; 0xcdd70693; 0x54de5729; 0x23d967bf;
   0xb3667a2e; 0xc4614ab8; 0x5d681b02; 0x2a6f2b94; 0xb40bbe37; 0xc30c8ea1; 0x5a05df1b; 0x2d02ef8d].

Definition lnot32 (x : Z) : Z := wrap 32 (Z.lnot x).

Definition crc_step (crc byte : Z) : Z :=
  Z.lxor (nth (Z.to_nat (Z.land (Z.lxor crc byte) 255)) crc32_table 0) (Z.shiftr crc 8).

Definition calculate (data : list Z) (crc : Z) : Z := lnot32 (foldl crc_step (lnot32 crc) data).

Definition calculate_string (str : string) (crc : Z) : Z := calculate (string_bytes str) crc.

End crc32.

Module uuid.

(** [ss << std::hex << d] for a digit *)
Definition hex_char (d : Z) : ascii := byte_ascii (if d <? 10 then 48 + d else 87 + d).

(** [n] values of [dis(gen)], from the [i]th on, before the rest. *)
Fixpoint hex_digits (dis : nat → Z) (i n : nat) (rest : string) : string :=
  match n with
  | O => rest
  | S n' => String (hex_char (dis i)) (hex_digits dis (S i) n' rest)
  end.

Definition dash : ascii := "-"%char.

(** [dis i] is the [i]th value of [dis(gen)], and [d2] the value of [dis2(gen)]. *)
Definition generate (dis : nat → Z) (d2 : Z) : string :=
  hex_digits dis 0 8 (String dash
    (hex_digits dis 8 4 (String dash (String "4"%char
    (hex_digits dis 12 3 (String dash (String (hex_char d2)
    (hex_digits dis 15 3 (String dash
    (hex_digits dis 18 12 EmptyString)))))))))).

Definition isxdigit (c : ascii) : bool := isdigit c || in_range 65 70 c || in_range 97 102 c.

Definition dash_at (i : nat) : bool := (i =? 8)%nat || (i =? 13)%nat || (i =? 18)%nat || (i =? 23)%nat.

Fixpoint valid_from (i : nat) (uuid : string) : bool :=
  match uuid with
  | EmptyString => true
  | String c uuid' =>
      if dash_at i then if negb (bool_decide (c = dash)) then false else valid_from (S i) uuid'
      else if negb (isxdigit c) then false else valid_from (S i) uuid'
  end.

Definition isValid (uuid : string) : bool :=
  if negb (String.length uuid =? 36)%nat then false else valid_from 0 uuid.

End uuid.
