(* ===== verification/UtilsProofs.v ===== *)
(** * UtilsProofs: correctness of the utilities

    The table-driven CRC is the bitwise one and detects every change of a byte; base64 is the
    encoding in groups of three bytes and is inverted by its decoder; the bit tricks compute
    powers of two and multiples; splitting inverts joining; UUIDs have their format. *)

From stdpp Require Import strings list.
From S2P Require Import Prelude CxxString CxxStream Utils.

Open Scope Z_scope.

(** ** CRC-32 *)

Import crc32.

(** The division by the polynomial, bit by bit. *)
Definition crc_bit (x : Z) : Z := Z.lxor (Z.shiftr x 1) (if Z.odd x then 0xedb88320 else 0).
Definition crc_byte (x : Z) : Z :=
  crc_bit (crc_bit (crc_bit (crc_bit (crc_bit (crc_bit (crc_bit (crc_bit x))))))).
Definition crc32_bitwise (data : list Z) (crc : Z) : Z :=
  lnot32 (foldl (λ c b, crc_byte (Z.lxor c b)) (lnot32 crc) data).

Lemma crc_table_entries : crc32_table = map (λ i, crc_byte (Z.of_nat i)) (seq 0 256).
Proof. vm_compute. reflexivity. Qed.

Lemma crc_table_byte i : 0 ≤ i < 256 → nth (Z.to_nat i) crc32_table 0 = crc_byte i.
Proof.
  intros Hi. rewrite crc_table_entries.
  rewrite (nth_indep _ 0 (crc_byte (Z.of_nat 0))) by (rewrite length_map, length_seq; lia).
  rewrite (map_nth (λ i, crc_byte (Z.of_nat i))), seq_nth by lia. f_equal. lia.
Qed.

Lemma odd_lxor x y : Z.odd (Z.lxor x y) = xorb (Z.odd x) (Z.odd y).
Proof. by rewrite <- !Z.bit0_odd, Z.lxor_spec. Qed.

Lemma crc_bit_lxor x y : crc_bit (Z.lxor x y) = Z.lxor (crc_bit x) (crc_bit y).
Proof.
  unfold crc_bit. rewrite Z.shiftr_lxor, odd_lxor.
  destruct (Z.odd x), (Z.odd y); cbn [xorb]; rewrite ?Z.lxor_0_r; apply Z.bits_inj'; intros n Hn;
    rewrite !Z.lxor_spec; repeat match goal with |- context [Z.testbit ?a ?b] => destruct (Z.testbit a b) end; done.
Qed.

Lemma crc_byte_lxor x y : crc_byte (Z.lxor x y) = Z.lxor (crc_byte x) (crc_byte y).
Proof. unfold crc_byte. by rewrite !crc_bit_lxor. Qed.

Lemma crc_byte_shift y : crc_byte (Z.shiftl y 8) = y.
Proof.
  assert (∀ k, 0 < k → crc_bit (Z.shiftl y k) = Z.shiftl y (k - 1)) as Hs.
  { intros k Hk. unfold crc_bit. rewrite <- Z.bit0_odd, Z.shiftl_spec_low by lia.
    by rewrite Z.lxor_0_r, Z.shiftr_shiftl_l by lia. }
  unfold crc_byte. rewrite !Hs by lia. apply Z.shiftl_0_r.
Qed.

(** A byte and the bits above it. *)
Lemma split_byte x : x = Z.lxor (Z.land x 255) (Z.shiftl (Z.shiftr x 8) 8).
Proof.
  apply Z.bits_inj'. intros n Hn. rewrite Z.lxor_spec, Z.land_spec.
  change 255 with (Z.ones 8). destruct (Z.lt_ge_cases n 8).
  - rewrite Z.ones_spec_low, Z.shiftl_spec_low by lia. by rewrite andb_true_r, xorb_false_r.
  - rewrite Z.ones_spec_high, Z.shiftl_spec, Z.shiftr_spec by lia.
    rewrite andb_false_r, xorb_false_l. f_equal. lia.
Qed.

(** One lookup does the work of eight divisions. *)
Lemma crc_step_byte c b : byte_ok b → crc_step c b = crc_byte (Z.lxor c b).
Proof.
  intros Hb. rewrite (split_byte (Z.lxor c b)) at 1. rewrite crc_byte_lxor, crc_byte_shift.
  unfold crc_step. rewrite crc_table_byte.
  - f_equal. rewrite Z.shiftr_lxor. rewrite (Z.shiftr_div_pow2 b) by lia.
    rewrite (Z.div_small b) by (unfold byte_ok in Hb; lia). by rewrite Z.lxor_0_r.
  - change 255 with (Z.ones 8). rewrite Z.land_ones by lia. apply Z.mod_pos_bound. lia.
Qed.

Lemma crc_fold data : ∀ c, Forall byte_ok data →
  foldl crc_step c data = foldl (λ c b, crc_byte (Z.lxor c b)) c data.
Proof.
  induction data as [|b data IH]; intros c Hd; [done|]. apply Forall_cons in Hd as [Hb Hd].
  cbn [foldl]. by rewrite crc_step_byte, IH.
Qed.

Lemma lnot32_spec x : lnot32 x = 2 ^ 32 - 1 - wrap 32 x.
Proof. unfold lnot32, wrap. unfold Z.lnot. Z.to_euclidean_division_equations. lia. Qed.

Lemma lnot32_lnot32 x : fits 32 x → lnot32 (lnot32 x) = x.
Proof.
  intros Hx. rewrite !lnot32_spec, (wrap_small 32 x) by done.
  rewrite wrap_small; unfold fits in *; lia.
Qed.

(** *** Words of 32 bits *)

Lemma crc_bit_fits x : fits 32 x → fits 32 (crc_bit x).
Proof.
  intros Hx. unfold crc_bit. apply lxor_fits; [lia| |].
  - unfold fits in *. rewrite Z.shiftr_div_pow2 by lia. change (2 ^ 1) with 2. Z.to_euclidean_division_equations. lia.
  - by destruct (Z.odd x).
Qed.

Lemma crc_byte_fits x : fits 32 x → fits 32 (crc_byte x).
Proof. intros Hx. unfold crc_byte. by do 8 apply crc_bit_fits. Qed.

(** The polynomial has its highest coefficient, so that no division loses information. *)
Lemma crc_bit_zero z : fits 32 z → crc_bit z = 0 → z = 0.
Proof.
  intros Hz Hc. unfold crc_bit in Hc. apply Z.lxor_eq in Hc.
  rewrite Z.shiftr_div_pow2 in Hc by lia. change (2 ^ 1) with 2 in Hc. unfold fits in Hz.
  pose proof (Z.div_mod z 2). pose proof (Zmod_odd z). destruct (Z.odd z); lia.
Qed.

Lemma crc_byte_inj x y : fits 32 x → fits 32 y → crc_byte x = crc_byte y → x = y.
Proof.
  intros Hx Hy Heq. apply Z.lxor_eq. assert (fits 32 (Z.lxor x y)) as Hz by (by apply lxor_fits).
  assert (crc_byte (Z.lxor x y) = 0) as H0 by (by rewrite crc_byte_lxor, Heq, Z.lxor_nilpotent).
  unfold crc_byte in H0.
  repeat (apply crc_bit_zero in H0; [|by repeat apply crc_bit_fits]). done.
Qed.

Lemma byte_fits32 b : byte_ok b → fits 32 b.
Proof. unfold byte_ok, fits. lia. Qed.

Lemma crc_fold_inj data : ∀ c d, Forall byte_ok data → fits 32 c → fits 32 d → c ≠ d →
  foldl crc_step c data ≠ foldl crc_step d data ∧
  fits 32 (foldl crc_step c data) ∧ fits 32 (foldl crc_step d data).
Proof.
  induction data as [|b data IH]; intros c d Hd Hc Hd' Hne; [done|].
  apply Forall_cons in Hd as [Hb Hd]. cbn [foldl]. rewrite !crc_step_byte by done.
  assert (fits 32 (Z.lxor c b) ∧ fits 32 (Z.lxor d b)) as [Hcb Hdb].
  { split; apply lxor_fits; auto using byte_fits32; lia. }
  apply IH; auto using crc_byte_fits. intros Heq%crc_byte_inj; [|done..]. apply Hne.
  by rewrite <- (Z.lxor_0_r c), <- (Z.lxor_nilpotent b), <- Z.lxor_assoc, Heq, Z.lxor_assoc,
    Z.lxor_nilpotent, Z.lxor_0_r.
Qed.

Lemma crc_fold_fits data c : Forall byte_ok data → fits 32 c → fits 32 (foldl crc_step c data).
Proof.
  intros Hd Hc. revert c Hc. induction Hd as [|b data Hb Hd IH]; intros c Hc; [done|].
  cbn [foldl]. apply IH. rewrite crc_step_byte by done. apply crc_byte_fits, lxor_fits; auto using byte_fits32. lia.
Qed.

Lemma lnot32_fits x : fits 32 (lnot32 x).
Proof. apply wrap_fits. lia. Qed.

(** (C38) The checksum that the table computes is the bitwise CRC-32 of the data (reflected
    polynomial EDB88320, initial and final complement), it can be computed in pieces, and two
    texts that differ in one byte never have the same checksum. *)
Theorem crc32_spec data data' crc a b :
  Forall byte_ok data → Forall byte_ok data' → byte_ok a → byte_ok b → fits 32 crc →
  calculate data crc = crc32_bitwise data crc ∧
  calculate (data ++ data') crc = calculate data' (calculate data crc) ∧
  (a ≠ b → calculate (data ++ a :: data') crc ≠ calculate (data ++ b :: data') crc).
Proof.
  intros Hd Hd' Ha Hb Hc. unfold calculate, crc32_bitwise. split_and!.
  - by rewrite crc_fold.
  - rewrite lnot32_lnot32 by (apply crc_fold_fits; auto using lnot32_fits). by rewrite foldl_app.
  - intros Hab. rewrite !foldl_app. cbn [foldl].
    set (c := foldl crc_step (lnot32 crc) data).
    assert (fits 32 c) as Hfc by (apply crc_fold_fits; auto using lnot32_fits).
    assert (fits 32 (Z.lxor c a) ∧ fits 32 (Z.lxor c b)) as [Hca Hcb].
    { split; apply lxor_fits; auto using byte_fits32; lia. }
    rewrite !crc_step_byte by done.
    destruct (crc_fold_inj data' (crc_byte (Z.lxor c a)) (crc_byte (Z.lxor c b))) as (Hne & H1 & H2);
      auto using crc_byte_fits.
    + intros Heq%crc_byte_inj; [|done..]. apply Hab. rewrite <- (Z.lxor_0_l a), <- (Z.lxor_nilpotent c).
      rewrite Z.lxor_assoc, Heq, <- Z.lxor_assoc, Z.lxor_nilpotent. apply Z.lxor_0_l.
    + intros Heq. apply Hne. by rewrite <- (lnot32_lnot32 _ H1), Heq, lnot32_lnot32.
Qed.

(** ** Base64 *)

Import base64.

(** The groups of six bits of the data, three bytes at a time. *)
Fixpoint sextets (data : list Z) : list Z :=
  match data with
  | [] => []
  | [a] => [a / 4; a mod 4 * 16]
  | [a; b] => [a / 4; a mod 4 * 16 + b / 16; b mod 16 * 4]
  | a :: b :: c :: data' =>
      a / 4 :: a mod 4 * 16 + b / 16 :: b mod 16 * 4 + c / 64 :: c mod 64 :: sextets data'
  end.

Fixpoint chars (vs : list Z) (rest : string) : string :=
  match vs with
  | [] => rest
  | v :: vs' => String (b64_char v) (chars vs' rest)
  end.

Definition padding (data : list Z) : string :=
  match (length data mod 3)%nat with 1%nat => "==" | 2%nat => "=" | _ => "" end.

(** The encoding of RFC 4648. *)
Definition base64_reference (data : list Z) : string := chars (sextets data) (padding data).

Lemma three_by_three {A} (P : list A → Prop) :
  P [] → (∀ a, P [a]) → (∀ a b, P [a; b]) → (∀ a b c l, P l → P (a :: b :: c :: l)) → ∀ l, P l.
Proof.
  intros H0 H1 H2 H3. fix IH 1. intros [|a [|b [|c l]]]; [exact H0|apply H1|apply H2|]. apply H3, IH.
Qed.

(** *** The register *)

Lemma shift_in t v k n :
  0 ≤ k → 0 ≤ n → k + n ≤ 32 → 0 ≤ v < 2 ^ n →
  wrap 32 (Z.lor (Z.shiftl t n) v) mod 2 ^ (k + n) = t mod 2 ^ k * 2 ^ n + v.
Proof.
  intros Hk Hn Hkn Hv. unfold wrap.
  assert (Z.lor (Z.shiftl t n) v = t * 2 ^ n + v) as ->.
  { rewrite <- Z.shiftl_mul_pow2 by lia. symmetry. apply Z.add_nocarry_lor.
    apply Z.bits_inj'. intros i Hi. rewrite Z.land_spec, Z.bits_0. destruct (Z.lt_ge_cases i n).
    - by rewrite Z.shiftl_spec_low by lia.
    - rewrite <- (Z.mod_small v (2 ^ n)) by lia. rewrite Z.mod_pow2_bits_high by lia. apply andb_false_r. }
  rewrite Z.mod_mod_divide by (exists (2 ^ (32 - (k + n))); rewrite <- Z.pow_add_r by lia; f_equal; lia).
  rewrite Z.pow_add_r by lia. pose proof (Z.pow_pos_nonneg 2 n). pose proof (Z.pow_pos_nonneg 2 k).
  pose proof (Z.div_mod t (2 ^ k)) as Ht. pose proof (Z.mod_pos_bound t (2 ^ k)).
  rewrite (Z.mod_unique (t * 2 ^ n + v) (2 ^ k * 2 ^ n) (t / 2 ^ k) (t mod 2 ^ k * 2 ^ n + v)); nia.
Qed.

Lemma bits_of t k m n : 0 ≤ k → 0 ≤ n → m = k + n → Z.land (Z.shiftr t k) (Z.ones n) = t mod 2 ^ m / 2 ^ k.
Proof.
  intros Hk Hn ->. rewrite Z.land_ones, Z.shiftr_div_pow2 by lia. rewrite Z.pow_add_r by lia.
  rewrite Z.rem_mul_r by (try (apply Z.pow_nonzero; lia); apply Z.pow_pos_nonneg; lia).
  rewrite (Z.mul_comm (2 ^ k)), Z.div_add by (apply Z.pow_nonzero; lia).
  rewrite (Z.div_small (t mod 2 ^ k)); [done|]. apply Z.mod_pos_bound, Z.pow_pos_nonneg; lia.
Qed.

(** *** The encoder *)

Lemma emit_more fuel t bits : 6 ≤ bits →
  emit (S fuel) t bits =
  let '(out, k) := emit fuel t (bits - 6) in (String (b64_char (t mod 2 ^ bits / 2 ^ (bits - 6))) out, k).
Proof.
  intros Hb. cbn [emit]. rewrite (proj2 (Z.leb_le 6 bits)) by done.
  change 63 with (Z.ones 6). by rewrite (bits_of t (bits - 6) bits 6) by lia.
Qed.

Lemma emit_done fuel t bits : bits < 6 → emit fuel t bits = (EmptyString, bits).
Proof. intros Hb. destruct fuel; [done|]. cbn [emit]. by rewrite (proj2 (Z.leb_gt 6 bits)). Qed.

(** A byte with no bit, two bits and four bits left before it. *)
Lemma encode_byte0 a data t : byte_ok a →
  ∃ t', t' mod 2 ^ 2 = a mod 4 ∧
    encode_bytes (a :: data) t 0 =
    let '(out, t'', k) := encode_bytes data t' 2 in (String (b64_char (a / 4)) out, t'', k).
Proof.
  intros Ha. set (t' := wrap 32 (Z.lor (Z.shiftl t 8) a)). exists t'.
  assert (t' mod 2 ^ 8 = a) as Ht.
  { pose proof (shift_in t a 0 8) as E. rewrite Z.pow_0_r, Z.mod_1_r in E. apply E; unfold byte_ok in Ha; lia. }
  split; [rewrite <- Ht; by rewrite Z.mod_mod_divide by (by exists 64)|].
  cbn [encode_bytes]. fold t'. change (0 + 8) with 8. change (Z.to_nat 8) with 8%nat.
  rewrite emit_more, emit_done by lia. rewrite Ht. change (8 - 6) with 2.
  by destruct (encode_bytes data t' 2) as [[out t''] k].
Qed.

Lemma encode_byte2 b data t : byte_ok b →
  ∃ t', t' mod 2 ^ 4 = b mod 16 ∧
    encode_bytes (b :: data) t 2 =
    let '(out, t'', k) := encode_bytes data t' 4 in
    (String (b64_char (t mod 2 ^ 2 * 16 + b / 16)) out, t'', k).
Proof.
  intros Hb. set (t' := wrap 32 (Z.lor (Z.shiftl t 8) b)). exists t'.
  assert (t' mod 2 ^ 10 = t mod 2 ^ 2 * 256 + b) as Ht by (apply (shift_in t b 2 8); unfold byte_ok in Hb; lia).
  split.
  - rewrite <- (Z.mod_mod_divide t' (2 ^ 10)) by (by exists 64). rewrite Ht.
    change (2 ^ 4) with 16. unfold byte_ok in Hb. Z.to_euclidean_division_equations; lia.
  - cbn [encode_bytes]. fold t'. change (2 + 8) with 10. change (Z.to_nat 10) with 10%nat.
    rewrite emit_more, emit_done by lia. rewrite Ht. change (10 - 6) with 4.
    replace ((t mod 2 ^ 2 * 256 + b) / 2 ^ 4) with (t mod 2 ^ 2 * 16 + b / 16).
    { by destruct (encode_bytes data t' 4) as [[out t''] k]. }
    change (2 ^ 4) with 16. Z.to_euclidean_division_equations; lia.
Qed.

Lemma encode_byte4 c data t : byte_ok c →
  ∃ t', encode_bytes (c :: data) t 4 =
    let '(out, t'', k) := encode_bytes data t' 0 in
    (String (b64_char (t mod 2 ^ 4 * 4 + c / 64)) (String (b64_char (c mod 64)) out), t'', k).
Proof.
  intros Hc. set (t' := wrap 32 (Z.lor (Z.shiftl t 8) c)). exists t'.
  assert (t' mod 2 ^ 12 = t mod 2 ^ 4 * 256 + c) as Ht by (apply (shift_in t c 4 8); unfold byte_ok in Hc; lia).
  assert (t' mod 2 ^ 6 = c mod 64) as Ht6.
  { rewrite <- (Z.mod_mod_divide t' (2 ^ 12)) by (by exists 64). rewrite Ht. change (2 ^ 6) with 64.
    Z.to_euclidean_division_equations; lia. }
  cbn [encode_bytes]. fold t'. change (4 + 8) with 12. change (Z.to_nat 12) with 12%nat.
  rewrite emit_more by lia. change (12 - 6) with 6. rewrite emit_more, emit_done by lia.
  change (6 - 6) with 0. rewrite Ht, Ht6, Z.pow_0_r, Z.div_1_r.
  replace ((t mod 2 ^ 4 * 256 + c) / 2 ^ 6) with (t mod 2 ^ 4 * 4 + c / 64).
  { by destruct (encode_bytes data t' 0) as [[out t''] k]. }
  change (2 ^ 6) with 64. Z.to_euclidean_division_equations; lia.
Qed.

Lemma last_sextet t k : 0 ≤ k ≤ 6 →
  Z.land (wrap 32 (Z.shiftl t (6 - k))) 63 = t mod 2 ^ k * 2 ^ (6 - k).
Proof.
  intros Hk. change 63 with (Z.ones 6). rewrite Z.land_ones by lia.
  pose proof (shift_in t 0 k (6 - k)) as E. rewrite Z.lor_0_r, Z.add_0_r in E.
  replace (k + (6 - k)) with 6 in E by lia. pose proof (Z.pow_pos_nonneg 2 (6 - k)). apply E; lia.
Qed.

(** The characters before the padding. *)
Definition flushed (r : string * Z * Z) : string :=
  let '(result, temp, bits) := r in
  if 0 <? bits
  then result +:+ String (b64_char (Z.land (wrap 32 (Z.shiftl temp (6 - bits))) 63)) EmptyString
  else result.

Lemma flushed_cons c out t k : flushed (String c out, t, k) = String c (flushed (out, t, k)).
Proof. unfold flushed. by destruct (0 <? k). Qed.

Lemma encode_sextets data : ∀ t, Forall byte_ok data →
  flushed (encode_bytes data t 0) = chars (sextets data) EmptyString.
Proof.
  induction data as [|a|a b|a b c data IH] using three_by_three; intros t Hd;
    rewrite ?Forall_cons in Hd.
  - done.
  - destruct Hd as [Ha _]. destruct (encode_byte0 a [] t Ha) as (t1 & H1 & ->).
    cbn [encode_bytes]. rewrite flushed_cons. unfold flushed. change (0 <? 2) with true. cbn match.
    by rewrite last_sextet, H1 by lia.
  - destruct Hd as (Ha & Hb & _). destruct (encode_byte0 a [b] t Ha) as (t1 & H1 & ->).
    destruct (encode_byte2 b [] t1 Hb) as (t2 & H2 & ->). cbn [encode_bytes]. rewrite !flushed_cons.
    unfold flushed. change (0 <? 4) with true. cbn match. by rewrite last_sextet, H1, H2 by lia.
  - destruct Hd as (Ha & Hb & Hc & Hd). destruct (encode_byte0 a (b :: c :: data) t Ha) as (t1 & H1 & ->).
    destruct (encode_byte2 b (c :: data) t1 Hb) as (t2 & H2 & ->).
    destruct (encode_byte4 c data t2 Hc) as (t3 & ->).
    specialize (IH t3 Hd). destruct (encode_bytes data t3 0) as [[out t4] k].
    rewrite !flushed_cons, IH, H1, H2. done.
Qed.

Lemma length_chars vs s : String.length (chars vs s) = (length vs + String.length s)%nat.
Proof. induction vs as [|v vs IH]; [done|]. cbn. by rewrite IH. Qed.

Lemma chars_append vs s t : chars vs s +:+ t = chars vs (s +:+ t).
Proof. induction vs as [|v vs IH]; [done|]. cbn [chars]. by rewrite <- IH. Qed.

Lemma length_sextets data :
  (length (sextets data) mod 4 = match length data mod 3 with 1 => 2 | 2 => 3 | _ => 0 end)%nat.
Proof.
  induction data as [|a|a b|a b c data IH] using three_by_three; [done..|].
  cbn [sextets length].
  replace (S (S (S (S (length (sextets data)))))) with (length (sextets data) + 1 * 4)%nat by lia.
  replace (S (S (S (length data)))) with (length data + 1 * 3)%nat by lia. by rewrite !Nat.Div0.mod_add.
Qed.

Lemma pad_chars vs : ∀ fuel s,
  pad (S fuel) (chars vs s) =
  if ((length vs + String.length s) mod 4 =? 0)%nat then chars vs s else pad fuel (chars vs (s +:+ "=")).
Proof. intros fuel s. cbn [pad]. by rewrite length_chars, chars_append. Qed.

Lemma encode_reference data : Forall byte_ok data → encode data = base64_reference data.
Proof.
  intros Hd. pose proof (encode_sextets data 0 Hd) as He. unfold encode.
  destruct (encode_bytes data 0 0) as [[out t] k]. unfold flushed in He. rewrite He.
  unfold base64_reference, padding. pose proof (length_sextets data) as Hl.
  pose proof (Nat.mod_upper_bound (length data) 3 ltac:(lia)) as Hm.
  set (n := length (sextets data)) in *.
  assert (∀ i, (n + i) mod 4 = (n mod 4 + i) mod 4)%nat as Hadd by (intros; by rewrite Nat.Div0.add_mod_idemp_l).
  destruct (length data mod 3)%nat as [|[|[|?]]]; [..|lia];
    repeat (rewrite pad_chars; fold n; rewrite Hadd, Hl; cbn -[chars pad]); done.
Qed.

(** *** The decoder *)

Lemma strchr_char v : 0 ≤ v < 64 →
  strchr_table (b64_char v) = Some v ∧ bool_decide (b64_char v = "="%char) = false.
Proof.
  intros Hv.
  assert (forallb (λ i, bool_decide (strchr_table (b64_char (Z.of_nat i)) = Some (Z.of_nat i) ∧
    bool_decide (b64_char (Z.of_nat i) = "="%char) = false)) (seq 0 64) = true) as Hall by (vm_compute; reflexivity).
  rewrite forallb_forall in Hall. specialize (Hall (Z.to_nat v)).
  rewrite Z2Nat.id in Hall by lia. eapply bool_decide_eq_true_1, Hall, in_seq. lia.
Qed.

(** A character with no bit, six, four and two bits left before it. *)
Lemma decode_char0 v rest t : 0 ≤ v < 64 →
  ∃ t', t' mod 2 ^ 6 = v ∧ decode_loop (String (b64_char v) rest) t 0 = decode_loop rest t' 6.
Proof.
  intros Hv. destruct (strchr_char v Hv) as [Hs He]. exists (wrap 32 (Z.lor (Z.shiftl t 6) v)). split.
  - pose proof (shift_in t v 0 6) as E. rewrite Z.pow_0_r, Z.mod_1_r in E. apply E; lia.
  - cbn [decode_loop]. by rewrite He, Hs.
Qed.

Lemma decode_char k v rest t : 0 ≤ v < 64 → 2 ≤ k ≤ 6 →
  ∃ t', t' mod 2 ^ (k - 2) = v mod 2 ^ (k - 2) ∧
    decode_loop (String (b64_char v) rest) t k =
    (t mod 2 ^ k * 64 + v) / 2 ^ (k - 2) :: decode_loop rest t' (k - 2).
Proof.
  intros Hv Hk. destruct (strchr_char v Hv) as [Hs He]. set (t' := wrap 32 (Z.lor (Z.shiftl t 6) v)).
  assert (t' mod 2 ^ (k + 6) = t mod 2 ^ k * 64 + v) as Ht by (apply (shift_in t v k 6); lia).
  exists t'. split.
  - rewrite <- (Z.mod_mod_divide t' (2 ^ (k + 6))).
    2:{ exists (2 ^ 8). rewrite <- Z.pow_add_r by lia. f_equal. lia. }
    rewrite Ht. rewrite Z.add_comm.
    replace (t mod 2 ^ k * 64) with (t mod 2 ^ k * 2 ^ (6 - (k - 2)) * 2 ^ (k - 2)).
    { apply Z_mod_plus_full. }
    rewrite <- Z.mul_assoc, <- Z.pow_add_r by lia. by replace (6 - (k - 2) + (k - 2)) with 6 by lia.
  - cbn [decode_loop]. rewrite He, Hs. fold t'. rewrite (proj2 (Z.leb_le 8 (k + 6))) by lia.
    replace (k + 6 - 8) with (k - 2) by lia. change 255 with (Z.ones 8).
    by rewrite (bits_of t' (k - 2) (k + 6) 8), Ht by lia.
Qed.

Lemma decode_sextets data rest : (∀ t k, decode_loop rest t k = []) →
  ∀ t, Forall byte_ok data → decode_loop (chars (sextets data) rest) t 0 = data.
Proof.
  intros Hrest. induction data as [|a|a b|a b c data IH] using three_by_three; intros t Hd;
    rewrite ?Forall_cons in Hd; unfold byte_ok in Hd; cbn [sextets chars].
  - apply Hrest.
  - destruct (decode_char0 (a / 4) (String (b64_char (a mod 4 * 16)) rest) t) as (t1 & H1 & ->).
    { Z.to_euclidean_division_equations; lia. }
    destruct (decode_char 6 (a mod 4 * 16) rest t1) as (t2 & _ & ->); [Z.to_euclidean_division_equations; lia|lia|].
    rewrite H1, Hrest. f_equal. change (2 ^ (6 - 2)) with 16. Z.to_euclidean_division_equations; lia.
  - destruct (decode_char0 (a / 4) (chars [a mod 4 * 16 + b / 16; b mod 16 * 4] rest) t) as (t1 & H1 & E1).
    { Z.to_euclidean_division_equations; lia. }
    destruct (decode_char 6 (a mod 4 * 16 + b / 16) (chars [b mod 16 * 4] rest) t1) as (t2 & H2 & E2);
      [Z.to_euclidean_division_equations; lia|lia|].
    destruct (decode_char 4 (b mod 16 * 4) rest t2) as (t3 & _ & E3); [Z.to_euclidean_division_equations; lia|lia|].
    cbn [chars] in *. change (6 - 2) with 4 in *. change (4 - 2) with 2 in *.
    rewrite E1, E2, E3, H1, H2, Hrest. change (2 ^ 4) with 16. change (2 ^ 2) with 4. clear -Hd.
    f_equal; [|f_equal]; Z.to_euclidean_division_equations; lia.
  - destruct Hd as (Ha & Hb & Hc & Hd). set (r := chars (sextets data) rest).
    destruct (decode_char0 (a / 4) (chars [a mod 4 * 16 + b / 16; b mod 16 * 4 + c / 64; c mod 64] r) t)
      as (t1 & H1 & E1). { Z.to_euclidean_division_equations; lia. }
    destruct (decode_char 6 (a mod 4 * 16 + b / 16) (chars [b mod 16 * 4 + c / 64; c mod 64] r) t1)
      as (t2 & H2 & E2); [Z.to_euclidean_division_equations; lia|lia|].
    destruct (decode_char 4 (b mod 16 * 4 + c / 64) (chars [c mod 64] r) t2)
      as (t3 & H3 & E3); [Z.to_euclidean_division_equations; lia|lia|].
    destruct (decode_char 2 (c mod 64) r t3) as (t4 & _ & E4); [Z.to_euclidean_division_equations; lia|lia|].
    cbn [chars] in *. change (6 - 2) with 4 in *. change (4 - 2) with 2 in *. change (2 - 2) with 0 in *.
    rewrite E1, E2, E3, E4, H1, H2, H3. unfold r. rewrite IH by done.
    change (2 ^ 4) with 16. change (2 ^ 2) with 4. change (2 ^ 0) with 1. clear -Ha Hb Hc.
    f_equal; [|f_equal; [|f_equal]]; Z.to_euclidean_division_equations; lia.
Qed.

(** Base64: the bytes are encoded as in RFC 4648, in groups of three with their padding, and
    decoding the text gives the bytes back. *)
Theorem base64_roundtrip data :
  Forall byte_ok data → encode data = base64_reference data ∧ decode (encode data) = data.
Proof.
  intros Hd. rewrite encode_reference by done. split; [done|]. apply decode_sextets; [|done].
  intros t k. unfold padding. by destruct (length data mod 3)%nat as [|[|[|?]]].
Qed.

(** ** Bit tricks *)

Import math_utils memory_utils.

(** [x] has a bit wherever [n] has one among the [w] bits from there on. *)
Definition window (w n x : Z) : Prop :=
  ∀ i, 0 ≤ i → Z.testbit x i = true ↔ ∃ j, 0 ≤ j < w ∧ Z.testbit n (i + j) = true.

Lemma window_one n : window 1 n n.
Proof.
  intros i Hi. split; [intros Hb; exists 0; by rewrite Z.add_0_r|].
  intros (j & Hj & Hb). replace (i + j) with i in Hb by lia. done.
Qed.

Lemma window_smear w n x : 0 < w → window w n x → window (2 * w) n (smear w x).
Proof.
  intros Hw Hx i Hi. unfold smear. rewrite Z.lor_spec, Z.shiftr_spec, orb_true_iff by done.
  rewrite (Hx i), (Hx (i + w)) by lia. split.
  - intros [(j & Hj & Hb)|(j & Hj & Hb)]; [exists j; split; [lia|done]|].
    exists (w + j). split; [lia|]. by rewrite Z.add_assoc.
  - intros (j & Hj & Hb). destruct (Z.lt_ge_cases j w); [left; exists j; split; [lia|done]|right].
    exists (j - w). split; [lia|]. by replace (i + w + (j - w)) with (i + j) by lia.
Qed.

(** All bits up to the highest one. *)
Lemma window_ones n x : 0 < n < 2 ^ 64 → 0 ≤ x → window 64 n x → x = 2 ^ (Z.log2 n + 1) - 1.
Proof.
  intros Hn Hx Hw. rewrite Z.sub_1_r, <- Z.ones_equiv. apply Z.bits_inj'. intros i Hi.
  pose proof (Z.log2_nonneg n). assert (Z.log2 n < 64) by (apply Z.log2_lt_pow2; lia).
  apply Bool.eq_iff_eq_true. rewrite (Hw i Hi), Z.testbit_ones_nonneg, Z.ltb_lt by lia. split.
  - intros (j & Hj & Hb). destruct (Z.lt_ge_cases i (Z.log2 n + 1)); [done|].
    rewrite Z.bits_above_log2 in Hb by lia. done.
  - intros Hlt. exists (Z.log2 n - i). split; [lia|].
    replace (i + (Z.log2 n - i)) with (Z.log2 n) by lia. apply Z.bit_log2. lia.
Qed.

Lemma smear_nonneg k n : 0 ≤ n → 0 ≤ smear k n.
Proof. intros Hn. apply Z.lor_nonneg. split; [done|]. by apply Z.shiftr_nonneg. Qed.

(** [nextPowerOfTwo] returns the least power of two that is not below its argument, for
    arguments from 1 to 2^63; it returns 0 for 0 and for every greater argument. *)
Theorem nextPowerOfTwo_spec n :
  fits 64 n →
  (1 ≤ n ≤ 2 ^ 63 →
     nextPowerOfTwo n = 2 ^ Z.log2_up n ∧ n ≤ nextPowerOfTwo n ∧
     ∀ k, 0 ≤ k → n ≤ 2 ^ k → nextPowerOfTwo n ≤ 2 ^ k) ∧
  (n = 0 ∨ 2 ^ 63 < n → nextPowerOfTwo n = 0).
Proof.
  intros Hn. unfold fits in Hn.
  assert (∀ m, 0 < m < 2 ^ 64 →
    smear 32 (smear 16 (smear 8 (smear 4 (smear 2 (smear 1 m))))) = 2 ^ (Z.log2 m + 1) - 1) as Hs.
  { intros m Hm. apply (window_ones m); [done|by repeat apply smear_nonneg; lia|].
    apply (window_smear 32); [done|]. apply (window_smear 16); [done|]. apply (window_smear 8); [done|].
    apply (window_smear 4); [done|]. apply (window_smear 2); [done|]. apply (window_smear 1); [done|].
    apply window_one. }
  unfold nextPowerOfTwo. split.
  - intros Hr. rewrite (wrap_small 64 (n - 1)) by (unfold fits; lia).
    assert (wrap 64 (smear 32 (smear 16 (smear 8 (smear 4 (smear 2 (smear 1 (n - 1)))))) + 1) =
            2 ^ Z.log2_up n) as ->.
    { destruct (decide (n = 1)) as [->|]; [done|]. rewrite Hs by lia.
      rewrite Z.log2_up_eqn by lia. rewrite <- Z.sub_1_r, <- Z.add_1_r, Z.sub_add.
      apply wrap_small. split; [apply Z.pow_nonneg; lia|].
      apply Z.pow_lt_mono_r; [lia..|]. assert (Z.log2 (n - 1) < 63) by (apply Z.log2_lt_pow2; lia). lia. }
    split; [done|]. split; [apply Z.log2_up_le_pow2; lia|].
    intros k Hk Hle. apply Z.pow_le_mono_r; [lia|]. apply Z.log2_up_le_pow2; [lia|done].
  - intros [->|Hgt]; [done|]. rewrite (wrap_small 64 (n - 1)) by (unfold fits; lia).
    rewrite Hs by lia. rewrite (Z.log2_unique (n - 1) 63) by lia. done.
Qed.

Lemma land_high x k : 0 ≤ k ≤ 64 → fits 64 x →
  Z.land x (lnot64 (2 ^ k - 1)) = x / 2 ^ k * 2 ^ k.
Proof.
  intros Hk Hx. unfold lnot64, wrap. rewrite <- Z.shiftr_div_pow2, <- Z.shiftl_mul_pow2 by lia.
  apply Z.bits_inj'. intros i Hi. rewrite Z.land_spec. rewrite Z.sub_1_r, <- Z.ones_equiv.
  destruct (Z.lt_ge_cases i k).
  - rewrite Z.shiftl_spec_low, Z.mod_pow2_bits_low, Z.lnot_spec, Z.ones_spec_low by lia. apply andb_false_r.
  - rewrite Z.shiftl_spec, Z.shiftr_spec by lia. replace (i - k + k) with i by lia.
    destruct (Z.lt_ge_cases i 64).
    + rewrite Z.mod_pow2_bits_low, Z.lnot_spec, Z.ones_spec_high by lia. apply andb_true_r.
    + rewrite <- (Z.mod_small x (2 ^ 64)) by (unfold fits in Hx; lia).
      by rewrite !Z.mod_pow2_bits_high by lia.
Qed.

(** Alignment to a power of two, without overflow: the multiples around a size. *)
Theorem align_spec size k :
  0 ≤ k < 64 → 0 ≤ size → size + 2 ^ k - 1 < 2 ^ 64 →
  (alignDown size (2 ^ k) ≤ size < alignDown size (2 ^ k) + 2 ^ k) ∧ (2 ^ k | alignDown size (2 ^ k)) ∧
  (alignUp size (2 ^ k) - 2 ^ k < size ≤ alignUp size (2 ^ k)) ∧ (2 ^ k | alignUp size (2 ^ k)) ∧
  (isAligned size (2 ^ k) = true ↔ (2 ^ k | size)).
Proof.
  intros Hk Hs Hb. pose proof (Z.pow_pos_nonneg 2 k). assert (2 ^ k < 2 ^ 64) by (apply Z.pow_lt_mono_r; lia).
  unfold alignDown, alignUp, isAligned. rewrite !(wrap_small 64) by (unfold fits; lia).
  rewrite !land_high by (unfold fits; lia). split_and!.
  - rewrite Z.mul_comm. apply Z.mul_div_le. lia.
  - pose proof (Z.mul_succ_div_gt size (2 ^ k)). lia.
  - by exists (size / 2 ^ k).
  - pose proof (Z.mul_div_le (size + 2 ^ k - 1) (2 ^ k)). lia.
  - pose proof (Z.mul_succ_div_gt (size + 2 ^ k - 1) (2 ^ k)). lia.
  - by exists ((size + 2 ^ k - 1) / 2 ^ k).
  - rewrite Z.sub_1_r, <- Z.ones_equiv, Z.land_ones, Z.eqb_eq by lia. apply Z.mod_divide. lia.
Qed.

(** ** Strings *)

Import string_utils file_utils.

Fixpoint blanks (s : string) : bool :=
  match s with EmptyString => true | String c s' => is_blank c && blanks s' end.

Lemma skip_blank_spec s : ∃ a, s = a +:+ skip_blank s ∧ blanks a = true ∧
  (∀ c t, skip_blank s = String c t → is_blank c = false).
Proof.
  induction s as [|c s IH]; cbn [skip_blank]; [by exists ""|].
  destruct (is_blank c) eqn:Hc; [|exists ""; naive_solver].
  destruct IH as (a & Hs & Ha & Ht). exists (String c a). split_and!; [|cbn; by rewrite Hc|done].
  change (String c a +:+ skip_blank s) with (String c (a +:+ skip_blank s)). by rewrite <- Hs.
Qed.

Lemma cut_blank_spec s : ∃ b, s = cut_blank s +:+ b ∧ blanks b = true ∧
  (cut_blank s = "" ∨ ∃ t c, cut_blank s = t +:+ String c "" ∧ is_blank c = false).
Proof.
  induction s as [|c s IH]; cbn [cut_blank]; [exists ""; auto|].
  destruct IH as (b & Hs & Hb & Ht). destruct (cut_blank s) as [|d t'] eqn:Hcut.
  - change ("" +:+ b) with b in Hs. subst b. destruct (is_blank c) eqn:Hc.
    + exists (String c s). split_and!; [done|cbn; by rewrite Hc|by left].
    + exists s. split_and!; [done|done|]. right. by exists "", c.
  - exists b. split_and!; [by rewrite Hs at 1|done|]. right. destruct Ht as [Ht|(t & e & Ht & He)]; [done|].
    exists (String c t), e. by rewrite Ht.
Qed.

(** [trim] removes the blanks at both ends and nothing else. *)
Theorem trim_spec str : ∃ a b,
  str = a +:+ trim str +:+ b ∧ blanks a = true ∧ blanks b = true ∧
  (trim str = "" ∨
   (∃ c t, trim str = String c t ∧ is_blank c = false) ∧
   (∃ t c, trim str = t +:+ String c "" ∧ is_blank c = false)).
Proof.
  destruct (skip_blank_spec str) as (a & Ha & Hba & Hc). unfold trim.
  destruct (cut_blank_spec (skip_blank str)) as (b & Hb & Hbb & Hl).
  exists a, b. split_and!; [by rewrite <- Hb|done|done|].
  destruct Hl as [Hl|Hl]; [by left|right]. split; [|done].
  destruct (cut_blank (skip_blank str)) as [|c t] eqn:Hcut; [destruct Hl as ([|? ?] & ? & ? & _); done|].
  exists c, t. split; [done|]. by apply (Hc c (t +:+ b)).
Qed.

Lemma join_loop_app parts : ∀ r d, join_loop r parts d = r +:+ join_loop "" parts d.
Proof.
  induction parts as [|p parts IH]; intros r d; cbn [join_loop]; [by rewrite append_nil|].
  rewrite (IH (r +:+ _)), (IH ("" +:+ _)). by rewrite append_assoc.
Qed.

Lemma push_token_some t l : t ≠ "" → push_token t l = t :: l.
Proof. by destruct t. Qed.

Lemma split_join_loop d parts : ∀ p fuel,
  Forall (λ s, s ≠ "" ∧ no_char d s = true) (p :: parts) →
  (String.length (join_loop p parts (String d "")) ≤ fuel)%nat →
  split_loop fuel d (join_loop p parts (String d "")) = Some (p :: parts).
Proof.
  induction parts as [|q parts IH]; intros p fuel Hf Hl; apply Forall_cons in Hf as [[Hp Hn] Hf].
  - cbn [join_loop] in *. destruct fuel as [|fuel]; [by destruct p; cbn in Hl; [|lia]|].
    cbn [split_loop]. destruct p as [|c p]; [done|]. by rewrite split_at_none.
  - cbn [join_loop] in *. rewrite join_loop_app in *.
    assert (join_loop q parts (String d "") = q +:+ join_loop "" parts (String d "")) as Hq by apply join_loop_app.
    rewrite append_assoc in *.
    change ((String d "" +:+ q) +:+ join_loop "" parts (String d ""))
      with (String d (q +:+ join_loop "" parts (String d ""))) in *.
    rewrite <- Hq in *. set (r := join_loop q parts (String d "")) in *.
    destruct p as [|c p]; [done|].
    rewrite length_append in Hl. cbn [String.length] in Hl. destruct fuel as [|fuel]; [lia|].
    change (String c p +:+ String d r) with (String c (p +:+ String d r)). cbn [split_loop].
    change (String c (p +:+ String d r)) with (String c p +:+ String d r).
    rewrite split_at_found by done. unfold r in *. rewrite IH; [done|done|lia].
Qed.

(** Splitting inverts joining: parts that are not empty and do not have the delimiter are
    given back in order. *)
Theorem split_join parts d :
  Forall (λ s, s ≠ "" ∧ no_char d s = true) parts →
  str_split (join parts (String d "")) d = Some parts.
Proof.
  destruct parts as [|p parts]; intros Hf; [done|]. unfold str_split, join. by apply split_join_loop.
Qed.

Lemma find_text_shorter p s a b : p ≠ "" → find_text p s = Some (a, b) → (String.length b < String.length s)%nat.
Proof.
  intros Hp ->%find_text_Some. destruct p as [|c p]; [done|]. rewrite !length_append. cbn [String.length]. lia.
Qed.

(** [replace] ends on every text when the text searched for is not empty, and never when it is. *)
Theorem replace_terminates str from to fuel :
  (from ≠ "" → (String.length str ≤ fuel)%nat → is_Some (replace fuel str from to)) ∧
  (from = "" → replace fuel str from to = None).
Proof.
  unfold replace. split.
  - intros Hf. revert str. induction fuel as [|fuel IH]; intros str Hl; cbn [replace_loop];
      (destruct (find_text from str) as [[a b]|] eqn:He; [|by eauto]);
      pose proof (find_text_shorter _ _ _ _ Hf He); [lia|].
    destruct (IH b) as [r Hr]; [lia|]. rewrite Hr. by eexists.
  - intros ->. revert str. induction fuel as [|fuel IH]; intros str; destruct str as [|c s];
      cbn [replace_loop find_text strip_prefix]; try done; by rewrite IH.
Qed.

Lemma split_last_spec p s : match split_last p s with
  | Some (a, b) => ∃ c, s = a +:+ String c b ∧ p c = true ∧ split_last p b = None
  | None => ∀ a c b, s = a +:+ String c b → p c = false
  end.
Proof.
  induction s as [|d s IH]; cbn [split_last]; [by intros []|].
  destruct (split_last p s) as [[a b]|] eqn:Hs.
  - destruct IH as (c & -> & Hc & Hb). by exists c.
  - destruct (p d) eqn:Hd; [by exists d|]. intros [|e a] c b [= -> He]; [done|]. by eapply IH.
Qed.

(** A path with a separator is its directory, the separator and its base name, which has
    none. *)
Theorem path_split path :
  (∃ c, is_separator c = true ∧ path = dirname path +:+ String c (basename path) ∧
        split_last is_separator (basename path) = None) ∨
  (dirname path = "." ∧ basename path = path ∧ split_last is_separator path = None).
Proof.
  unfold dirname, basename. pose proof (split_last_spec is_separator path) as Hs.
  destruct (split_last is_separator path) as [[a b]|]; [left|by right].
  destruct Hs as (c & ? & ? & ?). by exists c.
Qed.

(** ** UUIDs *)

Import uuid.

Lemma hex_char_digit d : 0 ≤ d < 16 → isxdigit (hex_char d) = true.
Proof.
  intros Hd. assert (forallb (λ i, isxdigit (hex_char (Z.of_nat i))) (seq 0 16) = true) as Hall by done.
  rewrite forallb_forall in Hall. specialize (Hall (Z.to_nat d)).
  rewrite Z2Nat.id in Hall by lia. apply Hall, in_seq. lia.
Qed.

Lemma length_hex_digits dis n : ∀ i rest,
  String.length (hex_digits dis i n rest) = (n + String.length rest)%nat.
Proof. induction n as [|n IH]; intros i rest; [done|]. cbn [hex_digits String.length]. by rewrite IH. Qed.

Lemma valid_hex c k rest : dash_at k = false → isxdigit c = true →
  valid_from k (String c rest) = valid_from (S k) rest.
Proof. intros Hk Hc. cbn [valid_from]. by rewrite Hk, Hc. Qed.

Lemma valid_dash k rest : dash_at k = true → valid_from k (String dash rest) = valid_from (S k) rest.
Proof. intros Hk. cbn [valid_from]. by rewrite Hk. Qed.

Lemma valid_hex_digits dis n : (∀ i, 0 ≤ dis i < 16) → ∀ i k rest,
  forallb (λ j, negb (dash_at j)) (seq k n) = true →
  valid_from k (hex_digits dis i n rest) = valid_from (n + k) rest.
Proof.
  intros Hdis. induction n as [|n IH]; intros i k rest Hk; [done|]. cbn [seq forallb] in Hk.
  apply andb_true_iff in Hk as [Hk%negb_true_iff Hn]. cbn [hex_digits].
  rewrite valid_hex by auto using hex_char_digit. rewrite IH by done. f_equal. lia.
Qed.

(** Whatever the numbers drawn, the text that [generate] makes is a valid UUID. *)
Theorem generate_valid dis d2 :
  (∀ i, 0 ≤ dis i < 16) → 8 ≤ d2 < 12 → isValid (generate dis d2) = true.
Proof.
  intros Hdis Hd2. unfold isValid, generate.
  assert (isxdigit (hex_char d2) = true) as Hx by (apply hex_char_digit; lia).
  repeat (rewrite ?length_hex_digits; cbn [String.length]).
  change (negb _) with false. cbn match.
  repeat first [rewrite valid_hex_digits by done | rewrite valid_dash by done | rewrite valid_hex by done].
  done.
Qed.

(** ** Examples *)

(** The check value of CRC-32, and a changed letter. *)
Lemma crc32_spec_witness :
  crc32_bitwise (string_bytes "123456789") 0 = 0xcbf43926 ∧
  calculate_string "cat" 0 ≠ calculate_string "cut" 0.
Proof.
  destruct (crc32_spec (string_bytes "123456789") [] 0 0 0) as (H1 & _);
    [apply string_bytes_ok|constructor|unfold byte_ok; lia|unfold byte_ok; lia|unfold fits; lia|].
  destruct (crc32_spec (string_bytes "c") (string_bytes "t") 0 97 117) as (_ & _ & H2);
    [apply string_bytes_ok|apply string_bytes_ok|unfold byte_ok; lia|unfold byte_ok; lia|unfold fits; lia|].
  split; [rewrite <- H1; vm_compute; reflexivity|apply H2; discriminate].
Defined.

Lemma base64_roundtrip_witness :
  encode (string_bytes "Many") = "TWFueQ==" ∧ decode "TWFueQ==" = string_bytes "Many".
Proof.
  destruct (base64_roundtrip (string_bytes "Many")) as [H1 H2]; [apply string_bytes_ok|].
  split; [rewrite H1; vm_compute; reflexivity|rewrite <- H2; vm_compute; reflexivity].
Defined.

Lemma nextPowerOfTwo_spec_witness : nextPowerOfTwo 1000 = 1024 ∧ nextPowerOfTwo 0 = 0.
Proof.
  destruct (nextPowerOfTwo_spec 1000) as [H1 _]; [unfold fits; lia|].
  destruct (nextPowerOfTwo_spec 0) as [_ H2]; [unfold fits; lia|].
  split; [apply H1; lia|apply H2; auto].
Defined.
