(* ===== verification/Types.v ===== *)
(** * Types: values, columns, table schemas (src/include/types.h, status.h)

    [Value] keeps the layout of the C++ struct: the type tag, the 8 raw bytes
    of the union (as an unsigned 64-bit integer), the string and the blob.  The
    members of the union are views of the raw bytes, so reading another member
    than the one written is what it is in memory.  The bytes of the union that
    a constructor leaves indeterminate are zero here. *)

From S2P Require Import Prelude.
From Stdlib Require Import SpecFloat.

(** ** Status codes (status.h) *)

Module StatusCode.
Inductive StatusCode :=
  | OK | DONE | NOT_FOUND | ALREADY_EXISTS
  | ERROR | NOT_IMPLEMENTED | UNSUPPORTED | INVALID_ARGUMENT | OUT_OF_RANGE
  | IO_ERROR | CORRUPTED_DATA | NO_SPACE | PAGE_NOT_FOUND
  | TRANSACTION_ERROR | DEADLOCK | SERIALIZATION | LOCK_TIMEOUT | TRANSACTION_ABORTED
  | CONSTRAINT_VIOLATION | UNIQUE_VIOLATION | FOREIGN_KEY_VIOLATION
  | CHECK_VIOLATION | NOT_NULL_VIOLATION
  | PERMISSION_DENIED | UNAUTHORIZED
  | OUT_OF_MEMORY | OUT_OF_DISK | TOO_MANY_CONNECTIONS
  | CONNECTION_ERROR | TIMEOUT
  | SYNTAX_ERROR | SEMANTIC_ERROR
  | INDEX_ERROR | DUPLICATE_KEY | KEY_NOT_FOUND.

#[export] Instance StatusCode_eq_dec : EqDecision StatusCode.
Proof. solve_decision. Defined.
End StatusCode.
Export (hints) StatusCode.
Abbreviation StatusCode := StatusCode.StatusCode.

(** ** Data types *)

(** [OTHER] stands for the values of the underlying [int] that are not an
    enumerator: [static_cast<DataType>(uint8_t)] can produce them. *)
Module DataType.
Inductive DataType :=
  | UNKNOWN | INTEGER | BIGINT | SMALLINT | VARCHAR | CHAR | TEXT | BOOLEAN
  | DATE | TIME | TIMESTAMP | DECIMAL | FLOAT | DOUBLE | BLOB | JSON | UUID
  | NULL_TYPE
  | OTHER (code : Z).

#[export] Instance DataType_eq_dec : EqDecision DataType.
Proof. solve_decision. Defined.
End DataType.
Export (hints) DataType.
Abbreviation DataType := DataType.DataType.

(** [static_cast<int>(type)] *)
Definition type_code (t : DataType) : Z :=
  match t with
  | DataType.UNKNOWN => 0 | DataType.INTEGER => 1 | DataType.BIGINT => 2
  | DataType.SMALLINT => 3 | DataType.VARCHAR => 4 | DataType.CHAR => 5
  | DataType.TEXT => 6 | DataType.BOOLEAN => 7 | DataType.DATE => 8
  | DataType.TIME => 9 | DataType.TIMESTAMP => 10 | DataType.DECIMAL => 11
  | DataType.FLOAT => 12 | DataType.DOUBLE => 13 | DataType.BLOB => 14
  | DataType.JSON => 15 | DataType.UUID => 16 | DataType.NULL_TYPE => 17
  | DataType.OTHER z => z
  end%Z.

(** [static_cast<DataType>(code)] *)
Definition code_type (z : Z) : DataType :=
  match z with
  | 0 => DataType.UNKNOWN | 1 => DataType.INTEGER | 2 => DataType.BIGINT
  | 3 => DataType.SMALLINT | 4 => DataType.VARCHAR | 5 => DataType.CHAR
  | 6 => DataType.TEXT | 7 => DataType.BOOLEAN | 8 => DataType.DATE
  | 9 => DataType.TIME | 10 => DataType.TIMESTAMP | 11 => DataType.DECIMAL
  | 12 => DataType.FLOAT | 13 => DataType.DOUBLE | 14 => DataType.BLOB
  | 15 => DataType.JSON | 16 => DataType.UUID | 17 => DataType.NULL_TYPE
  | _ => DataType.OTHER z
  end%Z.

(** Enumerators of [DataType] (every constructor but [OTHER]). *)
Definition enumerator (t : DataType) : Prop :=
  match t with DataType.OTHER _ => False | _ => True end.

Lemma code_type_code t : enumerator t → code_type (type_code t) = t.
Proof. destruct t; done. Qed.

Lemma type_code_range t : enumerator t → (0 ≤ type_code t ≤ 17)%Z.
Proof. destruct t; simpl; intros; done || lia. Qed.

(** ** Value *)

Record Value := mkValue {
  vtype : DataType;
  data : Z;
  str_val : string;
  blob_val : list Z
}.

(** The members of the union. *)
Definition int_val (v : Value) : Z := to_signed 32 (data v).
Definition bigint_val (v : Value) : Z := to_signed 64 (data v).
Definition smallint_val (v : Value) : Z := to_signed 16 (data v).
Definition bool_val (v : Value) : bool := negb (wrap 8 (data v) =? 0)%Z.

(** IEEE 754 reading of [w]-bit representations with [mbits] mantissa bits. *)
Definition ieee_of_bits (mbits ebits : Z) (bits : Z) : spec_float :=
  let m := wrap mbits bits in
  let e := wrap ebits (Z.shiftr bits mbits) in
  let s := Z.testbit bits (mbits + ebits) in
  let bias := (2 ^ (ebits - 1) - 1)%Z in
  (if e =? 0 then
     match m with Zpos p => S754_finite s p (1 - bias - mbits) | _ => S754_zero s end
   else if e =? 2 ^ ebits - 1 then
     match m with 0 => S754_infinity s | _ => S754_nan end
   else
     match 2 ^ mbits + m with
     | Zpos p => S754_finite s p (e - bias - mbits)
     | _ => S754_nan
     end)%Z.

Definition double_val (v : Value) : spec_float := ieee_of_bits 52 11 (wrap 64 (data v)).
Definition float_val (v : Value) : spec_float := ieee_of_bits 23 8 (wrap 32 (data v)).

(** Writing a [w]-bit member of the union leaves the bytes above it. *)
Definition set_low (w z old : Z) : Z := (old - wrap w old + wrap w z)%Z.

Definition set_type (t : DataType) (v : Value) : Value :=
  mkValue t (data v) (str_val v) (blob_val v).
Definition set_data (w z : Z) (v : Value) : Value :=
  mkValue (vtype v) (set_low w z (data v)) (str_val v) (blob_val v).
Definition set_str (s : string) (v : Value) : Value :=
  mkValue (vtype v) (data v) s (blob_val v).

(** Constructors *)
Definition Value_null : Value := mkValue DataType.NULL_TYPE 0 "" [].
Definition Value_int (v : Z) : Value := mkValue DataType.INTEGER (wrap 32 v) "" [].
Definition Value_bigint (v : Z) : Value := mkValue DataType.BIGINT (wrap 64 v) "" [].
Definition Value_smallint (v : Z) : Value := mkValue DataType.SMALLINT (wrap 16 v) "" [].
Definition Value_bool (v : bool) : Value := mkValue DataType.BOOLEAN (Z.b2z v) "" [].
Definition Value_double (bits : Z) : Value := mkValue DataType.DOUBLE (wrap 64 bits) "" [].
Definition Value_float (bits : Z) : Value := mkValue DataType.FLOAT (wrap 32 bits) "" [].
Definition Value_string (s : string) : Value := mkValue DataType.VARCHAR 0 s [].
Definition Value_blob (b : list Z) : Value := mkValue DataType.BLOB 0 "" b.

Lemma int_val_int z : fits_signed 32 z → int_val (Value_int z) = z.
Proof. intros. unfold int_val. simpl. apply to_signed_wrap; [lia | done]. Qed.

Definition isNull (v : Value) : bool := bool_decide (vtype v = DataType.NULL_TYPE).

(** ** Comparison operators *)

(** [Value::operator==] *)
Definition value_eq (a b : Value) : bool :=
  if decide (vtype a = vtype b) then
    match vtype a with
    | DataType.INTEGER => (int_val a =? int_val b)%Z
    | DataType.BIGINT => (bigint_val a =? bigint_val b)%Z
    | DataType.SMALLINT => (smallint_val a =? smallint_val b)%Z
    | DataType.BOOLEAN => Bool.eqb (bool_val a) (bool_val b)
    | DataType.DOUBLE => SFeqb (double_val a) (double_val b)
    | DataType.FLOAT => SFeqb (float_val a) (float_val b)
    | DataType.VARCHAR | DataType.CHAR | DataType.TEXT =>
        bool_decide (str_val a = str_val b)
    | DataType.BLOB => bool_decide (blob_val a = blob_val b)
    | DataType.NULL_TYPE => true
    | _ => false
    end
  else false.

(** [Value::operator<] *)
Definition value_lt (a b : Value) : bool :=
  if decide (vtype a = vtype b) then
    match vtype a with
    | DataType.INTEGER => (int_val a <? int_val b)%Z
    | DataType.BIGINT => (bigint_val a <? bigint_val b)%Z
    | DataType.SMALLINT => (smallint_val a <? smallint_val b)%Z
    | DataType.BOOLEAN => negb (bool_val a) && bool_val b
    | DataType.DOUBLE => SFltb (double_val a) (double_val b)
    | DataType.FLOAT => SFltb (float_val a) (float_val b)
    | DataType.VARCHAR | DataType.CHAR | DataType.TEXT =>
        match string_compare (str_val a) (str_val b) with Lt => true | _ => false end
    | _ => false
    end
  else (type_code (vtype a) <? type_code (vtype b))%Z.

Definition value_ne (a b : Value) : bool := negb (value_eq a b).
Definition value_le (a b : Value) : bool := value_lt a b || value_eq a b.
Definition value_gt (a b : Value) : bool := negb (value_le a b).
Definition value_ge (a b : Value) : bool := negb (value_lt a b).

(** ** Value::hash

    [std::hash] is the standard library's; the members are its instances. *)
Record StdHash := mkStdHash {
  hash_int32 : Z → Z;
  hash_int64 : Z → Z;
  hash_int16 : Z → Z;
  hash_bool : bool → Z;
  hash_double : spec_float → Z;
  hash_float : spec_float → Z;
  hash_string : string → Z;
  hash_uint8 : Z → Z
}.

Definition value_hash (H : StdHash) (v : Value) : Z :=
  let h := type_code (vtype v) in
  match vtype v with
  | DataType.INTEGER => Z.lxor h (hash_int32 H (int_val v))
  | DataType.BIGINT => Z.lxor h (hash_int64 H (bigint_val v))
  | DataType.SMALLINT => Z.lxor h (hash_int16 H (smallint_val v))
  | DataType.BOOLEAN => Z.lxor h (hash_bool H (bool_val v))
  | DataType.DOUBLE => Z.lxor h (hash_double H (double_val v))
  | DataType.FLOAT => Z.lxor h (hash_float H (float_val v))
  | DataType.VARCHAR | DataType.CHAR | DataType.TEXT => Z.lxor h (hash_string H (str_val v))
  | DataType.BLOB => foldl (λ acc byte, Z.lxor acc (hash_uint8 H byte)) h (blob_val v)
  | _ => h
  end.

(** ** Column and table schemas *)

Definition INVALID_COLUMN_ID : Z := (2 ^ 16 - 1)%Z.

(** [static_cast<size_t>(-1)] *)
Definition npos : Z := (2 ^ 64 - 1)%Z.

Record ColumnSchema := mkColumnSchema {
  col_id : Z;
  col_name : string;
  col_type : DataType;
  col_length : Z;
  precision : Z;
  scale : Z;
  nullable : bool;
  is_primary_key : bool;
  is_unique : bool;
  is_auto_increment : bool;
  default_value : string;
  comment : string
}.

(** [ColumnSchema()] *)
Definition ColumnSchema_default : ColumnSchema :=
  mkColumnSchema 0 "" DataType.INTEGER 0 10 0 true false false false "" "".

Record TableSchema := mkTableSchema {
  ts_id : Z;
  ts_name : string;
  columns : list ColumnSchema;
  primary_key : list Z;
  indexes : gmap string Z;
  options : gmap string string
}.

(** [length + 4] is computed in the type of [length], [uint32_t]. *)
Definition getSizeInBytes (c : ColumnSchema) : Z :=
  match col_type c with
  | DataType.INTEGER => 4
  | DataType.BIGINT => 8
  | DataType.SMALLINT => 2
  | DataType.BOOLEAN => 1
  | DataType.DOUBLE => 8
  | DataType.FLOAT => 4
  | DataType.VARCHAR | DataType.CHAR | DataType.TEXT => wrap 32 (col_length c + 4)
  | _ => 8
  end.

Fixpoint getColumnId_loop (cols : list ColumnSchema) (name : string) : Z :=
  match cols with
  | [] => INVALID_COLUMN_ID
  | c :: cols' =>
      if bool_decide (col_name c = name) then col_id c else getColumnId_loop cols' name
  end.
Definition getColumnId (t : TableSchema) (name : string) : Z :=
  getColumnId_loop (columns t) name.

Fixpoint getColumnIndex_loop (cols : list ColumnSchema) (name : string) (i : Z) : Z :=
  match cols with
  | [] => npos
  | c :: cols' =>
      if bool_decide (col_name c = name) then i else getColumnIndex_loop cols' name (i + 1)
  end.
Definition getColumnIndex (t : TableSchema) (name : string) : Z :=
  getColumnIndex_loop (columns t) name 0.

Definition hasColumn (t : TableSchema) (name : string) : bool :=
  negb (getColumnIndex t name =? npos)%Z.

Definition schemaRecordSize (t : TableSchema) : Z :=
  foldl (λ size c, wrap 64 (size + getSizeInBytes c)) 0%Z (columns t).

(** The body of the loop of [TableSchema::validateRecord]: [false] is the
    early return. *)
Definition validateField (col : ColumnSchema) (val : Value) : bool :=
  if isNull val && negb (nullable col) then false
  else if negb (isNull val) && negb (bool_decide (vtype val = col_type col)) then false
  else if negb (isNull val) &&
          (bool_decide (col_type col = DataType.VARCHAR)
           || bool_decide (col_type col = DataType.CHAR)) then
    if (col_length col <? Z.of_nat (String.length (str_val val)))%Z then false else true
  else true.

Fixpoint validateFields (cols : list ColumnSchema) (record : list Value) : bool :=
  match cols, record with
  | c :: cols', v :: record' => validateField c v && validateFields cols' record'
  | _, _ => true
  end.

Definition validateRecord (t : TableSchema) (record : list Value) : bool :=
  if decide (length record = length (columns t)) then validateFields (columns t) record
  else false.

(** ** The order of values *)

Lemma SFltb_irrefl f : SFltb f f = false.
Proof.
  unfold SFltb. destruct f as [s|s| |s m e]; simpl; try (by destruct s); try done.
  rewrite Z.compare_refl. change (Pos.compare_cont Eq m m) with (Pos.compare m m).
  rewrite Pos.compare_refl. by destruct s.
Qed.

Lemma SFltb_trans f g h : SFltb f g = true → SFltb g h = true → SFltb f h = true.
Proof.
  unfold SFltb.
  destruct f as [s1|s1| |s1 m1 e1], g as [s2|s2| |s2 m2 e2], h as [s3|s3| |s3 m3 e3];
    simpl; try done; destruct s1, s2, s3; try done.
  all: change (Pos.compare_cont Eq m1 m2) with (Pos.compare m1 m2).
  all: change (Pos.compare_cont Eq m2 m3) with (Pos.compare m2 m3).
  all: change (Pos.compare_cont Eq m1 m3) with (Pos.compare m1 m3).
  all: destruct (Z.compare_spec e1 e2), (Z.compare_spec e2 e3), (Z.compare_spec e1 e3),
    (Pos.compare_spec m1 m2), (Pos.compare_spec m2 m3), (Pos.compare_spec m1 m3);
    simpl; intros; done || lia.
Qed.

Ltac split_vtype v :=
  let t := fresh "t" in let E := fresh "E" in
  destruct (vtype v) as [] eqn:E; simpl.

(** [operator<] never relates a value to itself. *)
Lemma value_lt_irrefl v : value_lt v v = false.
Proof.
  unfold value_lt. rewrite decide_True by done.
  split_vtype v; try done; rewrite ?Z.ltb_irrefl, ?SFltb_irrefl, ?string_compare_refl; try done.
  by destruct (bool_val v).
Qed.

Lemma value_lt_trans a b c :
  value_lt a b = true → value_lt b c = true → value_lt a c = true.
Proof.
  unfold value_lt.
  destruct (decide (vtype a = vtype b)) as [Eab|], (decide (vtype b = vtype c)) as [Ebc|],
    (decide (vtype a = vtype c)) as [Eac|]; try congruence;
    rewrite ?Eab, ?Ebc, ?Z.ltb_lt; try lia.
  2: { rewrite <- Eac in *. lia. }
  split_vtype c; try done; rewrite ?Z.ltb_lt; try lia; try apply SFltb_trans.
  1-3: (repeat case_match; try done; intros _ _;
    match goal with
    | H1 : string_compare _ _ = Lt, H2 : string_compare _ _ = Lt, H3 : _ |- _ =>
        pose proof (string_compare_trans _ _ _ H1 H2); congruence
    end).
  destruct (bool_val a), (bool_val b), (bool_val c); done.
Qed.

(** The types whose values [operator<] and [operator==] order totally. *)
Definition totally_ordered (t : DataType) : bool :=
  match t with
  | DataType.INTEGER | DataType.BIGINT | DataType.SMALLINT | DataType.BOOLEAN
  | DataType.VARCHAR | DataType.CHAR | DataType.TEXT | DataType.NULL_TYPE => true
  | _ => false
  end.

(** The enumerators for which [operator==] has no case. *)
Definition without_equality (t : DataType) : bool :=
  match t with
  | DataType.UNKNOWN | DataType.DATE | DataType.TIME | DataType.TIMESTAMP
  | DataType.DECIMAL | DataType.JSON | DataType.UUID => true
  | _ => false
  end.

Lemma totally_ordered_code t u :
  totally_ordered t = true → totally_ordered u = true → type_code t = type_code u → t = u.
Proof. destruct t, u; simpl; intros; done. Qed.

(** On one type, the three outcomes of a comparison. *)
Lemma value_cmp_same_type a b :
  vtype a = vtype b → totally_ordered (vtype b) = true →
  (value_lt a b = true ∧ value_eq a b = false ∧ value_lt b a = false) ∨
  (value_lt a b = false ∧ value_eq a b = true ∧ value_lt b a = false) ∨
  (value_lt a b = false ∧ value_eq a b = false ∧ value_lt b a = true).
Proof.
  intros Hab Ht. unfold value_lt, value_eq.
  rewrite !decide_True by congruence. rewrite Hab.
  split_vtype b; try done.
  1-3: rewrite ?Z.eqb_eq, ?Z.eqb_neq, ?Z.ltb_lt, ?Z.ltb_ge; lia.
  1-3: rewrite (string_compare_antisym (str_val a) (str_val b));
    pose proof (string_compare_eq (str_val a) (str_val b)) as Hc;
    destruct (string_compare (str_val a) (str_val b)); simpl;
    rewrite ?bool_decide_eq_true, ?bool_decide_eq_false; naive_solver.
  - destruct (bool_val a), (bool_val b); naive_solver.
  - naive_solver.
Qed.

Lemma value_cmp_other_type a b :
  vtype a ≠ vtype b → totally_ordered (vtype a) = true → totally_ordered (vtype b) = true →
  value_eq a b = false ∧
  ((value_lt a b = true ∧ value_lt b a = false) ∨ (value_lt a b = false ∧ value_lt b a = true)).
Proof.
  intros Hne Ha Hb. unfold value_lt, value_eq. rewrite !decide_False by congruence.
  split; [done|]. rewrite !Z.ltb_lt, !Z.ltb_ge.
  destruct (Z.lt_trichotomy (type_code (vtype a)) (type_code (vtype b))) as [|[E|]]; [lia| |lia].
  exfalso. eauto using totally_ordered_code.
Qed.

(** [operator<] of [Value] is a strict order on all values, whatever their
    types: it is irreflexive and transitive, as [std::sort] and the ordered
    containers need. *)
Theorem value_lt_strict_order :
  (∀ v, value_lt v v = false) ∧
  (∀ a b c, value_lt a b = true → value_lt b c = true → value_lt a c = true).
Proof. split; [apply value_lt_irrefl | apply value_lt_trans]. Qed.

(** Trichotomy: for values of the integer, boolean, string and null types,
    of equal or different types, exactly one of [a < b], [a == b] and [a > b]
    holds, and [a > b] is [b < a]. *)
Theorem value_trichotomy a b :
  totally_ordered (vtype a) = true → totally_ordered (vtype b) = true →
  value_gt a b = value_lt b a ∧
  ((value_lt a b = true ∧ value_eq a b = false ∧ value_gt a b = false) ∨
   (value_lt a b = false ∧ value_eq a b = true ∧ value_gt a b = false) ∨
   (value_lt a b = false ∧ value_eq a b = false ∧ value_gt a b = true)).
Proof.
  intros Ha Hb. unfold value_gt, value_le. destruct (decide (vtype a = vtype b)) as [E|E].
  - destruct (value_cmp_same_type a b E Hb) as [(->&->&->)|[(->&->&->)|(->&->&->)]]; naive_solver.
  - destruct (value_cmp_other_type a b E Ha Hb) as [-> [[-> ->]|[-> ->]]]; naive_solver.
Qed.

Lemma value_trichotomy_witness :
  value_gt (Value_int 7) (Value_string "a") = value_lt (Value_string "a") (Value_int 7) ∧
  value_lt (Value_int 7) (Value_string "a") = true.
Proof.
  split; [apply (value_trichotomy (Value_int 7) (Value_string "a")); reflexivity|].
  reflexivity.
Defined.

(** A value of a type without an equality case (DATE, TIME, TIMESTAMP,
    DECIMAL, JSON, UUID, UNKNOWN) is not equal to itself, not [<=] itself, and
    greater than itself. *)
Theorem value_without_equality v :
  without_equality (vtype v) = true →
  value_eq v v = false ∧ value_ne v v = true ∧ value_le v v = false ∧ value_gt v v = true.
Proof.
  intros Hv. unfold value_gt, value_le, value_ne. rewrite value_lt_irrefl.
  assert (value_eq v v = false) as ->; [|done].
  unfold value_eq. rewrite decide_True by done. by destruct (vtype v).
Qed.

Lemma value_without_equality_witness :
  value_gt (mkValue DataType.DATE 0 "2024-01-01" []) (mkValue DataType.DATE 0 "2024-01-01" []) = true.
Proof.
  apply (value_without_equality (mkValue DataType.DATE 0 "2024-01-01" [])). reflexivity.
Defined.

(** Equal values have equal hashes, so [std::hash<Value>] is usable in the
    unordered containers, for every [std::hash] of floating-point numbers that
    itself respects their [==] (as the standard requires). *)
Theorem value_hash_respects_eq (H : StdHash)
  (Hdouble : ∀ x y, SFeqb x y = true → hash_double H x = hash_double H y)
  (Hfloat : ∀ x y, SFeqb x y = true → hash_float H x = hash_float H y) a b :
  value_eq a b = true → value_hash H a = value_hash H b.
Proof.
  unfold value_eq, value_hash. destruct (decide (vtype a = vtype b)) as [E|]; [|done].
  rewrite E. split_vtype b; intros Heq; prop_bools; try done; try congruence.
  - apply Bool.eqb_prop in Heq. congruence.
  - by rewrite (Hfloat _ _ Heq).
  - by rewrite (Hdouble _ _ Heq).
Qed.

Lemma value_hash_respects_eq_witness :
  let H := mkStdHash id id id Z.b2z (λ _, 0%Z) (λ _, 0%Z) (λ s, Z.of_nat (String.length s)) id in
  value_hash H (mkValue DataType.INTEGER 5 "x" []) = value_hash H (Value_int 5).
Proof.
  intros H. apply (value_hash_respects_eq H); [done | done | reflexivity].
Defined.

(** What [TableSchema::validateRecord] promises of one field. *)
Definition field_ok (c : ColumnSchema) (v : Value) : Prop :=
  (vtype v = DataType.NULL_TYPE ∧ nullable c = true) ∨
  (vtype v ≠ DataType.NULL_TYPE ∧ vtype v = col_type c ∧
   (col_type c = DataType.VARCHAR ∨ col_type c = DataType.CHAR →
    (Z.of_nat (String.length (str_val v)) ≤ col_length c)%Z)).

Lemma validateField_spec c v : validateField c v = true ↔ field_ok c v.
Proof.
  unfold validateField, field_ok, isNull.
  destruct (decide (vtype v = DataType.NULL_TYPE)) as [En|En];
    [rewrite bool_decide_eq_true_2 by done | rewrite bool_decide_eq_false_2 by done]; simpl.
  - destruct (nullable c); simpl; naive_solver.
  - destruct (decide (vtype v = col_type c)) as [Et|Et];
      [rewrite bool_decide_eq_true_2 by done | rewrite bool_decide_eq_false_2 by done]; simpl;
      [|naive_solver].
    destruct (_ || _) eqn:Es.
    + rewrite orb_true_iff, !bool_decide_eq_true in Es.
      destruct (_ <? _)%Z eqn:El; prop_bools; split; try done; naive_solver lia.
    + rewrite orb_false_iff, !bool_decide_eq_false in Es. naive_solver.
Qed.

Lemma validateFields_spec cols record :
  length record = length cols →
  validateFields cols record = true ↔ Forall2 field_ok cols record.
Proof.
  revert record. induction cols as [|c cols IH]; intros [|v record] Hl; simplify_eq/=.
  - split; [constructor|done].
  - rewrite andb_true_iff, validateField_spec, IH by done.
    by rewrite Forall2_cons.
Qed.

(** [validateRecord] accepts exactly the records with one value per column
    where a NULL meets a nullable column and any other value has the column's
    type and, in a VARCHAR or CHAR column, at most its declared length. *)
Theorem validateRecord_spec t record :
  validateRecord t record = true ↔ Forall2 field_ok (columns t) record.
Proof.
  unfold validateRecord. case_decide as Hl.
  - by apply validateFields_spec.
  - split; [done|]. intros H%Forall2_length. done.
Qed.

Lemma getColumnIndex_loop_spec cols name i :
  (0 ≤ i)%Z →
  (getColumnIndex_loop cols name i = npos ∧ Forall (λ c, col_name c ≠ name) cols) ∨
  (∃ k c, getColumnIndex_loop cols name i = (i + Z.of_nat k)%Z ∧ cols !! k = Some c ∧
     col_name c = name ∧ Forall (λ c, col_name c ≠ name) (take k cols)).
Proof.
  revert i. induction cols as [|c cols IH]; intros i Hi; simpl.
  - left. done.
  - case_bool_decide as Hc.
    + right. exists 0, c. simpl. split_and!; try done. lia.
    + destruct (IH (i + 1)%Z ltac:(lia)) as [[-> ?]|(k & c' & -> & ? & ? & ?)].
      * left. split; [done|]. by constructor.
      * right. exists (S k), c'. simpl. split_and!; try done; [lia|]. by constructor.
Qed.

(** [hasColumn] tells whether some column has the name, and then
    [getColumnIndex] is the position of the first such column; otherwise it is
    [size_t(-1)]. *)
Theorem getColumnIndex_spec t name :
  (Z.of_nat (length (columns t)) < npos)%Z →
  (hasColumn t name = true ↔ ∃ c, c ∈ columns t ∧ col_name c = name) ∧
  (hasColumn t name = true →
   ∃ k c, getColumnIndex t name = Z.of_nat k ∧ columns t !! k = Some c ∧
     col_name c = name ∧ Forall (λ c, col_name c ≠ name) (take k (columns t))).
Proof.
  intros Hlen. unfold hasColumn, getColumnIndex.
  destruct (getColumnIndex_loop_spec (columns t) name 0 ltac:(lia))
    as [[E Hall]|(k & c & E & Hk & Hc & Htake)]; rewrite E.
  - rewrite Z.eqb_refl. simpl. split; [|done]. split; [done|].
    intros (c & Hin & Hc). rewrite Forall_forall in Hall. naive_solver.
  - apply lookup_lt_Some in Hk as Hlt.
    destruct (Z.eqb_spec (0 + Z.of_nat k) npos); [lia|]. simpl.
    split; [|intros _; exists k, c; rewrite Z.add_0_l; naive_solver].
    split; [intros _; exists c; split; [|done] | done].
    by eapply list_elem_of_lookup_2.
Qed.

Definition two_columns : TableSchema :=
  mkTableSchema 1 "T"
    [mkColumnSchema 0 "ID" DataType.INTEGER 0 10 0 false true false false "" "";
     mkColumnSchema 1 "NAME" DataType.VARCHAR 20 10 0 true false false false "" ""]
    [0%Z] ∅ ∅.

Lemma getColumnIndex_spec_witness :
  ∃ k c, getColumnIndex two_columns "NAME" = Z.of_nat k ∧ columns two_columns !! k = Some c ∧
    col_name c = "NAME" ∧ Forall (λ c, col_name c ≠ "NAME") (take k (columns two_columns)).
Proof. apply (getColumnIndex_spec two_columns "NAME"); reflexivity. Defined.
