(* ===== verification/Status.v ===== *)
(** * Status: status codes with a message (src/include/status.h)

    The class [Status], its factories, tests and texts, and the macros that end a function
    on a status that is not [OK].  [operator==] compares the codes alone, so two statuses
    that are equal for it need not be the same value: [status_equiv] is that equivalence,
    and the operations that respect it are [Proper] for it. *)

From stdpp Require Import finite.
From S2P Require Import Prelude CxxString CxxStream Types.

Open Scope Z_scope.

(** The value of an enumerator. *)
Definition code_value (c : StatusCode) : Z :=
  match c with
  | StatusCode.OK => 0 | StatusCode.DONE => 1 | StatusCode.NOT_FOUND => 2
  | StatusCode.ALREADY_EXISTS => 3
  | StatusCode.ERROR => 100 | StatusCode.NOT_IMPLEMENTED => 101 | StatusCode.UNSUPPORTED => 102
  | StatusCode.INVALID_ARGUMENT => 103 | StatusCode.OUT_OF_RANGE => 104
  | StatusCode.IO_ERROR => 200 | StatusCode.CORRUPTED_DATA => 201 | StatusCode.NO_SPACE => 202
  | StatusCode.PAGE_NOT_FOUND => 203
  | StatusCode.TRANSACTION_ERROR => 300 | StatusCode.DEADLOCK => 301
  | StatusCode.SERIALIZATION => 302 | StatusCode.LOCK_TIMEOUT => 303
  | StatusCode.TRANSACTION_ABORTED => 304
  | StatusCode.CONSTRAINT_VIOLATION => 400 | StatusCode.UNIQUE_VIOLATION => 401
  | StatusCode.FOREIGN_KEY_VIOLATION => 402 | StatusCode.CHECK_VIOLATION => 403
  | StatusCode.NOT_NULL_VIOLATION => 404
  | StatusCode.PERMISSION_DENIED => 500 | StatusCode.UNAUTHORIZED => 501
  | StatusCode.OUT_OF_MEMORY => 600 | StatusCode.OUT_OF_DISK => 601
  | StatusCode.TOO_MANY_CONNECTIONS => 602
  | StatusCode.CONNECTION_ERROR => 700 | StatusCode.TIMEOUT => 701
  | StatusCode.SYNTAX_ERROR => 800 | StatusCode.SEMANTIC_ERROR => 801
  | StatusCode.INDEX_ERROR => 900 | StatusCode.DUPLICATE_KEY => 901 | StatusCode.KEY_NOT_FOUND => 902
  end.

(** The name of the enumerator with a value; any other [int] takes the default. *)
Definition codeToString (code : Z) : string :=
  match code with
  | 0 => "OK" | 1 => "DONE" | 2 => "NOT_FOUND" | 3 => "ALREADY_EXISTS"
  | 100 => "ERROR" | 101 => "NOT_IMPLEMENTED" | 102 => "UNSUPPORTED"
  | 103 => "INVALID_ARGUMENT" | 104 => "OUT_OF_RANGE"
  | 200 => "IO_ERROR" | 201 => "CORRUPTED_DATA" | 202 => "NO_SPACE" | 203 => "PAGE_NOT_FOUND"
  | 300 => "TRANSACTION_ERROR" | 301 => "DEADLOCK" | 302 => "SERIALIZATION"
  | 303 => "LOCK_TIMEOUT" | 304 => "TRANSACTION_ABORTED"
  | 400 => "CONSTRAINT_VIOLATION" | 401 => "UNIQUE_VIOLATION" | 402 => "FOREIGN_KEY_VIOLATION"
  | 403 => "CHECK_VIOLATION" | 404 => "NOT_NULL_VIOLATION"
  | 500 => "PERMISSION_DENIED" | 501 => "UNAUTHORIZED"
  | 600 => "OUT_OF_MEMORY" | 601 => "OUT_OF_DISK" | 602 => "TOO_MANY_CONNECTIONS"
  | 700 => "CONNECTION_ERROR" | 701 => "TIMEOUT"
  | 800 => "SYNTAX_ERROR" | 801 => "SEMANTIC_ERROR"
  | 900 => "INDEX_ERROR" | 901 => "DUPLICATE_KEY" | 902 => "KEY_NOT_FOUND"
  | _ => "UNKNOWN"
  end%string.

(** ** The class *)

Record Status := mkStatus { status_code : StatusCode; status_message : string }.

Module Status.

(** Factories *)
Definition new : Status := mkStatus StatusCode.OK "".
Definition of_code (c : StatusCode) : Status := mkStatus c "".
Definition OK (msg : string) : Status := mkStatus StatusCode.OK msg.
Definition Error (msg : string) : Status := mkStatus StatusCode.ERROR msg.
Definition NotFound (msg : string) : Status := mkStatus StatusCode.NOT_FOUND msg.
Definition AlreadyExists (msg : string) : Status := mkStatus StatusCode.ALREADY_EXISTS msg.
Definition NotImplemented (msg : string) : Status := mkStatus StatusCode.NOT_IMPLEMENTED msg.
Definition InvalidArgument (msg : string) : Status := mkStatus StatusCode.INVALID_ARGUMENT msg.
Definition IOError (msg : string) : Status := mkStatus StatusCode.IO_ERROR msg.
Definition Deadlock (msg : string) : Status := mkStatus StatusCode.DEADLOCK msg.
Definition ConstraintViolation (msg : string) : Status := mkStatus StatusCode.CONSTRAINT_VIOLATION msg.
Definition UniqueViolation (msg : string) : Status := mkStatus StatusCode.UNIQUE_VIOLATION msg.
Definition PermissionDenied (msg : string) : Status := mkStatus StatusCode.PERMISSION_DENIED msg.
Definition OutOfMemory (msg : string) : Status := mkStatus StatusCode.OUT_OF_MEMORY msg.
Definition SyntaxError (msg : string) : Status := mkStatus StatusCode.SYNTAX_ERROR msg.

(** Tests *)
Definition ok (s : Status) : bool := bool_decide (status_code s = StatusCode.OK).
Definition isError (s : Status) : bool := negb (ok s).
Definition isNotFound (s : Status) : bool := bool_decide (status_code s = StatusCode.NOT_FOUND).
Definition isAlreadyExists (s : Status) : bool := bool_decide (status_code s = StatusCode.ALREADY_EXISTS).
Definition isDeadlock (s : Status) : bool := bool_decide (status_code s = StatusCode.DEADLOCK).
Definition isConstraintViolation (s : Status) : bool :=
  bool_decide (status_code s = StatusCode.CONSTRAINT_VIOLATION)
  || bool_decide (status_code s = StatusCode.UNIQUE_VIOLATION)
  || bool_decide (status_code s = StatusCode.FOREIGN_KEY_VIOLATION)
  || bool_decide (status_code s = StatusCode.CHECK_VIOLATION)
  || bool_decide (status_code s = StatusCode.NOT_NULL_VIOLATION).

(** Also what [operator<<] writes. *)
Definition toString (s : Status) : string :=
  let result := codeToString (code_value (status_code s)) in
  if bool_decide (status_message s = "") then result else (result ++ ": " ++ status_message s)%string.

(** [operator==] and [operator!=] *)
Definition eqb (s other : Status) : bool := bool_decide (status_code s = status_code other).
Definition neqb (s other : Status) : bool := negb (eqb s other).

End Status.

(** ** The macros *)

(** The rest of the function is the argument before the state.  The argument of the macro is
    an expression, which is written twice: a status that is not [OK] is computed again
    before it is returned. *)
Definition ORANGESQL_CHECK {St : Type} (status : St → St * Status) (rest : St → St * Status) (st : St)
  : St * Status :=
  let '(st, s) := status st in if negb (Status.ok s) then status st else rest st.

(** Here the status is computed once, and the rest runs on the state that it leaves. *)
Definition ORANGESQL_RETURN_IF_ERROR {St : Type} (expr : St → St * Status) (rest : St → St * Status) (st : St)
  : St * Status :=
  let '(st, s) := expr st in if negb (Status.ok s) then (st, s) else rest st.

Definition ORANGESQL_TRY {St : Type} (expr : St → St * bool) (error_msg : string) (rest : St → St * Status)
    (st : St) : St * Status :=
  let '(st, b) := expr st in if negb b then (st, Status.Error error_msg) else rest st.

(** The text that goes to the standard error before the program is aborted, or the rest; the
    status is computed again for the text. *)
Definition ORANGESQL_ASSERT_OK {St A : Type} (status : St → St * Status) (file : string) (line : Z)
    (rest : St → A) (st : St) : string + A :=
  let '(st, s) := status st in
  if negb (Status.ok s) then
    inl ("Assertion failed: " ++ Status.toString (status st).2
         ++ " at " ++ file ++ ":" ++ to_string line ++ endl)%string
  else inr (rest st).

(** ** Texts *)

(** Values and names determine the enumerator. *)
#[export] Instance code_value_inj : Inj (=) (=) code_value.
Proof. by intros [] []. Qed.

Lemma code_name_inj c d : codeToString (code_value c) = codeToString (code_value d) → c = d.
Proof. by destruct c, d. Qed.

Lemma code_name_known c : codeToString (code_value c) ≠ "UNKNOWN"%string.
Proof. by destruct c. Qed.

#[export] Program Instance StatusCode_finite : finite.Finite StatusCode := {|
  finite.enum := [StatusCode.OK; StatusCode.DONE; StatusCode.NOT_FOUND; StatusCode.ALREADY_EXISTS;
    StatusCode.ERROR; StatusCode.NOT_IMPLEMENTED; StatusCode.UNSUPPORTED; StatusCode.INVALID_ARGUMENT;
    StatusCode.OUT_OF_RANGE; StatusCode.IO_ERROR; StatusCode.CORRUPTED_DATA; StatusCode.NO_SPACE;
    StatusCode.PAGE_NOT_FOUND; StatusCode.TRANSACTION_ERROR; StatusCode.DEADLOCK;
    StatusCode.SERIALIZATION; StatusCode.LOCK_TIMEOUT; StatusCode.TRANSACTION_ABORTED;
    StatusCode.CONSTRAINT_VIOLATION; StatusCode.UNIQUE_VIOLATION; StatusCode.FOREIGN_KEY_VIOLATION;
    StatusCode.CHECK_VIOLATION; StatusCode.NOT_NULL_VIOLATION; StatusCode.PERMISSION_DENIED;
    StatusCode.UNAUTHORIZED; StatusCode.OUT_OF_MEMORY; StatusCode.OUT_OF_DISK;
    StatusCode.TOO_MANY_CONNECTIONS; StatusCode.CONNECTION_ERROR; StatusCode.TIMEOUT;
    StatusCode.SYNTAX_ERROR; StatusCode.SEMANTIC_ERROR; StatusCode.INDEX_ERROR;
    StatusCode.DUPLICATE_KEY; StatusCode.KEY_NOT_FOUND] |}.
Next Obligation. apply (bool_decide_unpack _). vm_compute. exact I. Qed.
Next Obligation. intros c. apply (bool_decide_unpack _). by destruct c; vm_compute. Qed.

(** The default of [codeToString] is taken exactly outside the enumeration. *)
Lemma codeToString_unknown z : codeToString z = "UNKNOWN"%string ↔ ∀ c, code_value c ≠ z.
Proof.
  split; [intros Hz c <-; by apply (code_name_known c)|]. intros Hz.
  destruct (decide (0 ≤ z < 903)) as [Hr|Hr].
  - assert (Forall (λ z, codeToString z = "UNKNOWN"%string ∨ Exists (λ c, code_value c = z) (finite.enum StatusCode))
      (seqZ 0 903)) as Hall by (apply (bool_decide_unpack _); vm_compute; exact I).
    rewrite Forall_forall in Hall. destruct (Hall z) as [?|Hex]; [apply elem_of_seqZ; lia|done|].
    apply Exists_exists in Hex as (c & _ & Hc). by destruct (Hz c).
  - destruct z as [|p|p]; [lia| |done]. unfold codeToString.
    do 10 (destruct p as [p|p|]; try reflexivity; try lia).
Qed.

(** A name has no colon, so the text of a status determines its code. *)
Lemma app_colon_inj (a b x y : string) :
  no_char ":" a = true → no_char ":" b = true →
  (x = "" ∨ ∃ x', x = String ":" x') → (y = "" ∨ ∃ y', y = String ":" y') →
  (a +:+ x) = (b +:+ y) → a = b.
Proof.
  revert b. induction a as [|c a IH]; intros [|d b] Ha Hb Hx Hy Heq; cbn in *; [done|..].
  - apply andb_true_iff in Hb as [Hd _]. apply negb_true_iff, bool_decide_eq_false in Hd.
    destruct Hx as [->|[x' ->]]; by simplify_eq.
  - apply andb_true_iff in Ha as [Hd _]. apply negb_true_iff, bool_decide_eq_false in Hd.
    destruct Hy as [->|[y' ->]]; by simplify_eq.
  - apply andb_true_iff in Ha as [_ Ha]. apply andb_true_iff in Hb as [_ Hb].
    simplify_eq. f_equal. by eapply IH.
Qed.

Lemma code_name_no_colon c : no_char ":" (codeToString (code_value c)) = true.
Proof. by destruct c. Qed.

Lemma toString_shape s :
  ∃ x, Status.toString s = (codeToString (code_value (status_code s)) +:+ x) ∧
    (x = "" ∨ ∃ x', x = String ":" x').
Proof.
  unfold Status.toString. case_bool_decide.
  - exists ""%string. split; [by rewrite append_nil|by left].
  - exists (": " +:+ status_message s). split; [done|]. right. by eexists.
Qed.

Lemma toString_code s s' : Status.toString s = Status.toString s' → status_code s = status_code s'.
Proof.
  destruct (toString_shape s) as (x & -> & Hx), (toString_shape s') as (y & -> & Hy).
  intros Heq. apply code_name_inj. eapply app_colon_inj; [apply code_name_no_colon..|exact Hx|exact Hy|exact Heq].
Qed.

(** ** Equality of codes *)

(** [operator==] is an equivalence that forgets the message. *)
Definition status_equiv (s s' : Status) : Prop := Status.eqb s s' = true.

#[export] Instance status_equiv_equivalence : Equivalence status_equiv.
Proof.
  unfold status_equiv, Status.eqb. split.
  - intros s. by apply bool_decide_eq_true.
  - intros s s' H%bool_decide_eq_true. by apply bool_decide_eq_true.
  - intros s1 s2 s3 H1%bool_decide_eq_true H2%bool_decide_eq_true. apply bool_decide_eq_true. congruence.
Qed.

(** What depends on the code alone respects it. *)
#[export] Instance ok_proper : Proper (status_equiv ==> eq) Status.ok.
Proof. intros s s' H%bool_decide_eq_true. unfold Status.ok. by rewrite H. Qed.
#[export] Instance isError_proper : Proper (status_equiv ==> eq) Status.isError.
Proof. intros s s' H. unfold Status.isError. by rewrite H. Qed.
#[export] Instance isConstraintViolation_proper : Proper (status_equiv ==> eq) Status.isConstraintViolation.
Proof. intros s s' H%bool_decide_eq_true. unfold Status.isConstraintViolation. by rewrite H. Qed.
(** The text does not: two equal statuses may be shown differently, and equal texts are of
    equal statuses. *)
Theorem toString_finer :
  (∀ s s', Status.toString s = Status.toString s' → status_equiv s s') ∧
  ∃ s s', status_equiv s s' ∧ Status.toString s ≠ Status.toString s'.
Proof.
  split; [intros s s' H%toString_code; by apply bool_decide_eq_true|].
  exists (Status.Error ""), (Status.Error "disk"). split; [done|by vm_compute].
Qed.

(** ** The argument of a macro *)

(** An expression that changes no state. *)
Definition stable {St : Type} (expr : St → St * Status) : Prop := ∀ st, (expr st).1 = st.

(** For such an expression the two macros do the same; a failing call that is checked with
    [ORANGESQL_CHECK] is otherwise made twice, and its second status is returned, which may
    be [OK]. *)
Theorem check_return_if_error {St : Type} (expr rest : St → St * Status) st :
  stable expr → ORANGESQL_CHECK expr rest st = ORANGESQL_RETURN_IF_ERROR expr rest st.
Proof.
  intros Hs. unfold ORANGESQL_CHECK, ORANGESQL_RETURN_IF_ERROR. specialize (Hs st).
  destruct (expr st) as [st' s] eqn:He. cbn in Hs. subst st'. by rewrite He.
Qed.

Example check_twice :
  let retry (n : nat) := (S n, if decide (n = 0)%nat then Status.Error "busy" else Status.new) in
  ORANGESQL_CHECK retry (λ n, (n, Status.of_code StatusCode.DONE)) 0%nat = (2%nat, Status.new).
Proof. reflexivity. Qed.

(** ** Sequences of checked calls *)

(** A function that is a sequence of [ORANGESQL_RETURN_IF_ERROR] and ends with [OK]. *)
Fixpoint checked_calls {St : Type} (calls : list (St → St * Status)) : St → St * Status :=
  match calls with
  | [] => λ st, (st, Status.new)
  | c :: calls' => ORANGESQL_RETURN_IF_ERROR c (checked_calls calls')
  end.

(** The calls in order, without the checks. *)
Definition run_calls {St : Type} (calls : list (St → St * Status)) (st : St) : St :=
  foldl (λ st c, (c st).1) st calls.

(** Every call before [n] succeeds. *)
Definition succeed {St : Type} (calls : list (St → St * Status)) (st : St) : Prop :=
  ∀ i c, calls !! i = Some c → Status.ok (c (run_calls (take i calls) st)).2 = true.

(** The function runs the calls up to the first one whose status is not [OK], whose status
    and state it returns; [DONE] and [NOT_FOUND], which the header counts among the
    successes, end it as well. *)
Theorem checked_calls_spec {St : Type} (calls : list (St → St * Status)) st :
  (succeed calls st ∧ checked_calls calls st = (run_calls calls st, Status.new)) ∨
  (∃ before c after, calls = before ++ c :: after ∧ succeed before st ∧
     Status.isError (c (run_calls before st)).2 = true ∧
     checked_calls calls st = c (run_calls before st)).
Proof.
  revert st. induction calls as [|c calls IH]; intros st; [left; split; [by intros []|done]|].
  cbn [checked_calls]. unfold ORANGESQL_RETURN_IF_ERROR. destruct (c st) as [st1 s] eqn:Hc.
  destruct (Status.ok s) eqn:Hok; cbn [negb].
  - destruct (IH st1) as [[Hs Hr]|(before & d & after & -> & Hs & Hd & Hr)].
    + left. split; [|cbn; by rewrite Hc]. intros [|i] d Hd; cbn in *; [by simplify_eq; rewrite Hc|].
      rewrite Hc. by apply Hs.
    + right. exists (c :: before), d, after. cbn. rewrite Hc. split_and!; try done.
      intros [|i] e He; cbn in *; [by simplify_eq; rewrite Hc|]. rewrite Hc. by apply Hs.
  - right. exists [], c, calls. change (run_calls [] st) with st. rewrite Hc.
    split_and!; try done. cbn. unfold Status.isError. by rewrite Hok.
Qed.
