(* ===== verification/Doubles.v ===== *)
(** * Doubles: the arithmetic of [double]

    The operations of the C++ type as those of IEEE 754 binary64, rounded to
    nearest, on the floats of the Standard Library; a decimal literal is the
    quotient of two integers that doubles represent exactly. *)

From Stdlib Require Import SpecFloat.
From S2P Require Import Prelude.

Open Scope Z_scope.

Definition double : Type := spec_float.

(** [static_cast<double>] of an integer *)
Definition double_of_int (z : Z) : double := binary_normalize 53 1024 z 0 false.

Definition dadd : double → double → double := SFadd 53 1024.
Definition dsub : double → double → double := SFsub 53 1024.
Definition dmul : double → double → double := SFmul 53 1024.
Definition ddiv : double → double → double := SFdiv 53 1024.

(** The literal [n / d], for instance [0.05] as [decimal 5 100]. *)
Definition decimal (n d : Z) : double := ddiv (double_of_int n) (double_of_int d).

Definition dzero : double := S754_zero false.

(** The integer part: [None] is undefined behaviour. *)
Definition truncate (f : double) : option Z :=
  match f with
  | S754_zero _ => Some 0
  | S754_finite s p q =>
      let t := if 0 <=? q then Z.pos p * 2 ^ q else Z.pos p / 2 ^ (- q) in
      Some (if s : bool then - t else t)
  | _ => None
  end.

(** [static_cast<size_t>] of a double *)
Definition to_size (f : double) : option Z :=
  t ← truncate f; if decide (0 ≤ t < 2 ^ 64) then Some t else None.

Lemma to_size_fits f z : to_size f = Some z → fits 64 z.
Proof. unfold to_size. intros (t & _ & E)%bind_Some. by case_decide; simplify_eq. Qed.
