(* ===== verification/DecimalText.v ===== *)
(** * DecimalText: the text of a floating-point number

    What the source takes from the C++ library to print a [double]: [std::to_string] and the
    format [%.nf], which write a fixed number of decimals, and [operator<<] of a stream with
    its default format, six significant digits.  The exact value is rounded to the nearest
    decimal, ties to the even digit.  The sign of a NaN is not kept. *)

From Stdlib Require Import SpecFloat.
From stdpp Require Import strings list.
From S2P Require Import Prelude CxxString CxxStream Types Doubles.

Open Scope Z_scope.

(** ** Rounding of a quotient *)

Definition round_even (num den : Z) : Z :=
  let q := num / den in
  let r := num `mod` den in
  if 2 * r <? den then q
  else if den <? 2 * r then q + 1
  else if Z.even q then q else q + 1.

(** The value [m * 2 ^ e] as a quotient. *)
Definition quotient (m : positive) (e : Z) : Z * Z :=
  if 0 <=? e then (Z.pos m * 2 ^ e, 1) else (Z.pos m, 2 ^ (- e)).

Fixpoint zeros (k : nat) (s : string) : string :=
  match k with O => s | S k' => String "0" (zeros k' s) end.

(** A number in at least [width] digits. *)
Definition pad_zeros (width : nat) (z : Z) : string :=
  let s := to_string z in zeros (width - String.length s) s.

(** [z / 10 ^ prec] in decimals. *)
Definition decimal_text (prec : nat) (z : Z) : string :=
  if decide (prec = 0%nat) then to_string z
  else to_string (z / 10 ^ Z.of_nat prec) +:+ "." +:+ pad_zeros prec (z `mod` 10 ^ Z.of_nat prec).

Definition sign_text (s : bool) : string := if s then "-" else "".

(** ** [%.nf] and std::to_string *)

Definition print_fixed (prec : nat) (f : double) : string :=
  match f with
  | S754_nan => "nan"
  | S754_infinity s => sign_text s +:+ "inf"
  | S754_zero s => sign_text s +:+ decimal_text prec 0
  | S754_finite s m e =>
      let '(num, den) := quotient m e in
      sign_text s +:+ decimal_text prec (round_even (num * 10 ^ Z.of_nat prec) den)
  end.

Definition double_to_string (f : double) : string := print_fixed 6 f.

(** ** The default format of a stream *)

(** [num / den] times [10 ^ k], rounded. *)
Definition scale10 (num den k : Z) : Z :=
  if 0 <=? k then round_even (num * 10 ^ k) den else round_even num (den * 10 ^ (- k)).

(** The greatest [x] with [10 ^ x <= num / den], from [x] on downwards. *)
Fixpoint exponent_from (fuel : nat) (num den x : Z) : Z :=
  match fuel with
  | O => x
  | S fuel' =>
      if (if 0 <=? x then den * 10 ^ x <=? num else den <=? num * 10 ^ (- x)) then x
      else exponent_from fuel' num den (x - 1)
  end.

(** Six digits and the exponent of the first. *)
Definition six_digits (num den : Z) : Z * Z :=
  let x := exponent_from 640 num den 309 in
  let d := scale10 num den (5 - x) in
  if d =? 10 ^ 6 then (10 ^ 5, x + 1) else (d, x).

(** Without trailing zeros: the digits and how many are left. *)
Fixpoint strip_zeros (n : nat) (d : Z) : Z * nat :=
  match n with
  | O => (d, O)
  | S n' => if d `mod` 10 =? 0 then strip_zeros n' (d / 10) else (d, n)
  end.

Definition print_general (f : double) : string :=
  match f with
  | S754_nan => "nan"
  | S754_infinity s => sign_text s +:+ "inf"
  | S754_zero s => sign_text s +:+ "0"
  | S754_finite s m e =>
      let '(num, den) := quotient m e in
      let '(d, x) := six_digits num den in
      sign_text s +:+
      (if (-4 <=? x) && (x <? 6) then
         let '(d, n) := strip_zeros (Z.to_nat (5 - x)) d in decimal_text n d
       else
         let '(d, n) := strip_zeros 5 d in
         decimal_text n d +:+ "e" +:+ (if x <? 0 then "-" else "+") +:+ pad_zeros 2 (Z.abs x))
  end.

(** ** Value::toString (types.h) *)

Definition Value_toString (v : Value) : string :=
  match vtype v with
  | DataType.INTEGER => to_string (int_val v)
  | DataType.BIGINT => to_string (bigint_val v)
  | DataType.SMALLINT => to_string (smallint_val v)
  | DataType.BOOLEAN => if bool_val v then "true" else "false"
  | DataType.DOUBLE => double_to_string (double_val v)
  | DataType.FLOAT => double_to_string (float_val v)
  | DataType.VARCHAR | DataType.CHAR | DataType.TEXT => str_val v
  | DataType.NULL_TYPE => "NULL"
  | _ => "?"
  end.

(** ** Lemmas *)

(** The rounding is to a nearest integer. *)
Lemma round_even_nearest num den : 0 < den → 2 * Z.abs (num - den * round_even num den) ≤ den.
Proof.
  intros Hd. unfold round_even. pose proof (Z.div_mod num den ltac:(lia)) as Hdm.
  pose proof (Z.mod_pos_bound num den Hd) as Hr.
  destruct (Z.ltb_spec (2 * (num `mod` den)) den); [nia|].
  destruct (Z.ltb_spec den (2 * (num `mod` den))); [nia|].
  destruct (Z.even (num / den)); nia.
Qed.

Lemma round_even_exact q den : 0 < den → round_even (q * den) den = q.
Proof.
  intros Hd. unfold round_even. rewrite Z.div_mul, Z.mod_mul by lia.
  by rewrite (proj2 (Z.ltb_lt _ _)) by lia.
Qed.

Lemma round_even_nonneg num den : 0 ≤ num → 0 < den → 0 ≤ round_even num den.
Proof.
  intros Hn Hd. unfold round_even. pose proof (Z.div_pos num den Hn Hd).
  destruct (_ <? _); [done|]. destruct (_ <? _); [lia|]. destruct (Z.even _); lia.
Qed.

Lemma digits_app fuel : ∀ n acc, digits fuel n acc = digits fuel n "" +:+ acc.
Proof.
  induction fuel as [|fuel IH]; intros n acc; [done|]. cbn [digits].
  destruct (n <? 10); [done|]. rewrite IH, (IH _ (String _ "")), append_assoc. done.
Qed.

Lemma starts_with_digit_app s t : starts_with_digit s = true → starts_with_digit (s +:+ t) = true.
Proof. by destruct s. Qed.

(** A number is read up to the first character that is no digit. *)
Lemma parse_number_text z rest :
  0 ≤ z → starts_with_digit rest = false → parse_integer (to_string z +:+ rest) = Some z.
Proof.
  intros Hz Hr. unfold to_string. rewrite (proj2 (Z.ltb_ge _ _)) by done.
  rewrite parse_integer_nonneg by (apply starts_with_digit_app, digits_head; [done|right; unfold digits_fuel; lia]).
  rewrite <- digits_app, scan_digits_print; [|unfold digits_fuel; lia|].
  - destruct rest as [|c rest]; [done|]. cbn in *. by rewrite Hr.
  - split; [done|]. by apply digits_fuel_enough.
Qed.

Lemma scan_zeros k s : scan_digits (zeros k s) 0 = scan_digits s 0.
Proof. by induction k. Qed.

Lemma parse_pad_zeros width z : 0 ≤ z → parse_integer (pad_zeros width z) = Some z.
Proof.
  intros Hz. unfold pad_zeros. set (k := (width - _)%nat).
  pose proof (parse_to_string z) as Hp. unfold to_string in *. rewrite (proj2 (Z.ltb_ge _ _)) in * by done.
  assert (starts_with_digit (digits (digits_fuel z) z "") = true) as Hd
    by (apply digits_head; [done|right; unfold digits_fuel; lia]).
  rewrite parse_integer_nonneg in Hp by done. rewrite parse_integer_nonneg; [by rewrite scan_zeros|].
  by destruct k.
Qed.

(** The integer part and the decimals of a text can be read back. *)
Lemma decimal_text_parts prec z :
  0 ≤ z → (0 < prec)%nat →
  ∃ whole frac, decimal_text prec z = whole +:+ String "." frac ∧
    parse_integer (decimal_text prec z) = Some (z / 10 ^ Z.of_nat prec) ∧
    parse_integer frac = Some (z `mod` 10 ^ Z.of_nat prec).
Proof.
  intros Hz Hp. assert (0 < 10 ^ Z.of_nat prec) as H10 by (apply Z.pow_pos_nonneg; lia).
  exists (to_string (z / 10 ^ Z.of_nat prec)), (pad_zeros prec (z `mod` 10 ^ Z.of_nat prec)).
  unfold decimal_text. rewrite decide_False by lia. split; [done|]. split.
  - apply parse_number_text; [apply Z.div_pos; lia|done].
  - apply parse_pad_zeros, Z.mod_pos_bound. lia.
Qed.

(** ** What is proved of the texts *)

(** The text of a positive double with [prec] decimals is a decimal nearest to its value: its
    integer part [i] and its decimals [r] can be read back, and [i + r / 10 ^ prec] is
    within half a unit of the last decimal of [num / den]. *)
Theorem print_fixed_nearest prec m e :
  (0 < prec)%nat →
  let '(num, den) := quotient m e in
  ∃ whole frac i r, print_fixed prec (S754_finite false m e) = whole +:+ String "." frac ∧
    parse_integer (print_fixed prec (S754_finite false m e)) = Some i ∧ parse_integer frac = Some r ∧
    0 ≤ r < 10 ^ Z.of_nat prec ∧ 0 < den ∧
    2 * Z.abs (num * 10 ^ Z.of_nat prec - den * (i * 10 ^ Z.of_nat prec + r)) ≤ den.
Proof.
  intros Hp. assert (0 < 10 ^ Z.of_nat prec) as H10 by (apply Z.pow_pos_nonneg; lia).
  unfold print_fixed. destruct (quotient m e) as [num den] eqn:Hq. cbn [sign_text].
  assert (0 < num ∧ 0 < den) as [Hn Hd].
  { unfold quotient in Hq. destruct (Z.leb_spec 0 e); simplify_eq.
    - split; [|lia]. apply Z.mul_pos_pos; [lia|]. apply Z.pow_pos_nonneg; lia.
    - split; [lia|]. apply Z.pow_pos_nonneg; lia. }
  set (z := round_even (num * 10 ^ Z.of_nat prec) den).
  assert (0 ≤ z) as Hz by (apply round_even_nonneg; nia).
  destruct (decimal_text_parts prec z Hz Hp) as (whole & frac & Ht & Hi & Hr).
  exists whole, frac, (z / 10 ^ Z.of_nat prec), (z `mod` 10 ^ Z.of_nat prec).
  split; [exact Ht|]. split; [exact Hi|]. split; [exact Hr|].
  split; [apply Z.mod_pos_bound; lia|]. split; [done|].
  rewrite (Z.mul_comm (z / _)), <- Z.div_mod by lia. by apply round_even_nearest.
Qed.

(** The text of an integer value is read back as the value, and the text of a truth value,
    of a string and of NULL as they are written in a statement. *)
Theorem Value_toString_integers z :
  (fits_signed 32 z → stoi (Value_toString (Value_int z)) = Some z) ∧
  (fits_signed 64 z → stoll (Value_toString (Value_bigint z)) = Some z) ∧
  (fits_signed 16 z → stoi (Value_toString (Value_smallint z)) = Some z).
Proof.
  unfold Value_toString. cbn [vtype Value_int Value_bigint Value_smallint].
  split_and!; intros Hz.
  - rewrite int_val_int by done. by apply stoi_to_string.
  - unfold bigint_val. cbn [data Value_bigint]. rewrite to_signed_wrap by (done || lia). by apply stoll_to_string.
  - unfold smallint_val. cbn [data Value_smallint]. rewrite to_signed_wrap by (done || lia). apply stoi_to_string. unfold fits_signed in *. lia.
Qed.

Example double_texts :
  double_to_string (decimal 5 100) = "0.050000" ∧ double_to_string (double_of_int (-3)) = "-3.000000" ∧
  print_general (decimal 100 3) = "33.3333" ∧ print_general (decimal 5 10) = "0.5" ∧
  print_general (double_of_int 1000000) = "1e+06" ∧ print_general (decimal 1 100000) = "1e-05" ∧
  print_general (double_of_int 100) = "100".
Proof. vm_compute. done. Qed.
