(* ===== verification/UtilsSystem.v ===== *)
(** * UtilsSystem: the utilities that depend on clocks, doubles and random numbers

    The rest of src/include/utils.h.  A clock is the number of nanoseconds it shows, the local
    time is a function of the second, and the numbers that a generator draws are arguments. *)

From Stdlib Require Import SpecFloat.
From stdpp Require Import strings list.
From S2P Require Import Prelude CxxString CxxStream Doubles DecimalText Utils.

Open Scope Z_scope.

Module string_format.

(** Up to the first zero byte. *)
Fixpoint c_str (s : string) : string :=
  match s with
  | EmptyString => EmptyString
  | String c s' => if bool_decide (c = Ascii.zero) then EmptyString else String c (c_str s')
  end.

(** What [vsnprintf] makes of the arguments is cut to the buffer of 4096 bytes, the last of
    which is zero. *)
Definition format (formatted : string) : string := c_str (String.substring 0 4095 formatted).

End string_format.

Module time_utils.

(** The local time, with the year and the month as they are printed. *)
Record tm := mkTm { tm_year : Z; tm_mon : Z; tm_mday : Z; tm_hour : Z; tm_min : Z; tm_sec : Z }.

Section Clock.
Variable localtime : Z → tm.

(** [to_time_t] of a system clock *)
Definition clock_seconds (ns : Z) : Z := ns ÷ 10 ^ 9.

(** ["%Y-%m-%d %H:%M:%S"] *)
Definition now_text (ns : Z) : string :=
  let t := localtime (clock_seconds ns) in
  pad_zeros 4 (tm_year t) +:+ "-" +:+ pad_zeros 2 (tm_mon t) +:+ "-" +:+ pad_zeros 2 (tm_mday t) +:+ " " +:+
  pad_zeros 2 (tm_hour t) +:+ ":" +:+ pad_zeros 2 (tm_min t) +:+ ":" +:+ pad_zeros 2 (tm_sec t).

(** ["%Y%m%d_%H%M%S"], a point and the milliseconds in three digits *)
Definition timestamp (ns : Z) : string :=
  let t := localtime (clock_seconds ns) in
  let ms := Z.rem (ns ÷ 10 ^ 6) 1000 in
  pad_zeros 4 (tm_year t) +:+ pad_zeros 2 (tm_mon t) +:+ pad_zeros 2 (tm_mday t) +:+ "_" +:+
  pad_zeros 2 (tm_hour t) +:+ pad_zeros 2 (tm_min t) +:+ pad_zeros 2 (tm_sec t) +:+ "." +:+ pad_zeros 3 ms.

End Clock.

(** From the nanoseconds of the steady clock. *)
Definition currentTimeMillis (ns : Z) : Z := wrap 64 (ns ÷ 10 ^ 6).
Definition currentTimeMicros (ns : Z) : Z := wrap 64 (ns ÷ 10 ^ 3).

Record Timer := mkTimer { start_ns : Z }.

Definition Timer_new (ns : Z) : Timer := mkTimer ns.
Definition Timer_reset (ns : Z) (t : Timer) : Timer := mkTimer ns.

(** The conversion of a duration divides the count, as a double, by the ratio. *)
Definition elapsedSeconds (ns : Z) (t : Timer) : double := ddiv (double_of_int (ns - start_ns t)) (double_of_int (10 ^ 9)).
Definition elapsedMillis (ns : Z) (t : Timer) : double := ddiv (double_of_int (ns - start_ns t)) (double_of_int (10 ^ 6)).
Definition elapsedMicros (ns : Z) (t : Timer) : double := ddiv (double_of_int (ns - start_ns t)) (double_of_int (10 ^ 3)).

End time_utils.

Module math_double.

(** [std::round]: to the nearest integer, ties away from zero. *)
Definition dround (f : double) : double :=
  match f with
  | S754_finite s m e =>
      if 0 <=? e then f
      else
        let t := (2 * Z.pos m + 2 ^ (- e)) / (2 * 2 ^ (- e)) in
        binary_normalize 53 1024 (if s then - t else t) 0 s
  | _ => f
  end.

(** [std::pow(10.0, decimals)]; the library's result is taken to be the nearest double. *)
Definition pow10 (decimals : Z) : double :=
  if 0 <=? decimals then double_of_int (10 ^ decimals) else decimal 1 (10 ^ (- decimals)).

Definition roundTo (value : double) (decimals : Z) : double :=
  let factor := pow10 decimals in ddiv (dround (dmul value factor)) factor.

Definition percentage (value total : double) : double :=
  if SFeqb total dzero then dzero else dmul (ddiv value total) (double_of_int 100).

End math_double.

Module random_utils.

(** [uniform_int_distribution(min, max)] of a draw; it is undefined when the bounds are in the
    wrong order. *)
Definition randomInt (dis : Z → Z → Z) (min max : Z) : option Z :=
  if decide (min ≤ max) then Some (dis min max) else None.

Definition randomDouble (dis : double → double → double) (min max : double) : double := dis min max.

Definition randomBool (dis : double → double → double) (probability : double) : bool :=
  SFltb (randomDouble dis dzero (double_of_int 1)) probability.

Definition swap {A} (i j : nat) (l : list A) : list A :=
  match l !! i, l !! j with
  | Some x, Some y => <[j := x]> (<[i := y]> l)
  | _, _ => l
  end.

(** [std::shuffle]: the element at each position is swapped with one drawn at or before it. *)
Fixpoint shuffle_from {A} (draw : nat → nat) (steps i : nat) (l : list A) : list A :=
  match steps with
  | O => l
  | S steps' => shuffle_from draw steps' (S i) (swap i (draw i) l)
  end.

Definition shuffle {A} (draw : nat → nat) (vec : list A) : list A := shuffle_from draw (length vec - 1) 1 vec.

End random_utils.

Module memory_text.

Definition units : list string := ["B"; "KB"; "MB"; "GB"; "TB"].

(** [while (size >= 1024 && unit < 4)], which is left after four turns at most. *)
Fixpoint scale_bytes (fuel : nat) (size : double) (unit : nat) : double * nat :=
  match fuel with
  | O => (size, unit)
  | S fuel' =>
      if SFleb (double_of_int 1024) size && (unit <? 4)%nat
      then scale_bytes fuel' (ddiv size (double_of_int 1024)) (S unit) else (size, unit)
  end.

(** The buffer has 32 bytes. *)
Definition formatBytes (bytes : Z) : string :=
  let '(size, unit) := scale_bytes 4 (double_of_int bytes) 0 in
  string_format.c_str (String.substring 0 31 (print_fixed 2 size +:+ " " +:+ default "" (units !! unit))).

End memory_text.

(** [crc32::calculate] of a vector *)
Definition calculate_vector (data : list Z) (crc : Z) : Z := crc32.calculate data crc.

(** ** Guards *)

Section Guards.
Context {St : Type}.

Record Defer := mkDefer { defer_func : St → St }.
Definition Defer_destroy (d : Defer) (st : St) : St := defer_func d st.

Record ScopeGuard := mkScopeGuard { guard_func : St → St; guard_active : bool }.
Definition ScopeGuard_new (f : St → St) : ScopeGuard := mkScopeGuard f true.
Definition ScopeGuard_destroy (g : ScopeGuard) (st : St) : St := if guard_active g then guard_func g st else st.
Definition ScopeGuard_dismiss (g : ScopeGuard) : ScopeGuard := mkScopeGuard (guard_func g) false.

(** A scope is left: its guards, in the order of their construction, are destroyed from the
    last to the first. *)
Definition leave_scope (guards : list ScopeGuard) (st : St) : St := foldr (λ g k st, k (ScopeGuard_destroy g st)) id (reverse guards) st.

(** ** What is proved of the guards *)

Lemma leave_scope_snoc guards g st : leave_scope (guards ++ [g]) st = leave_scope guards (ScopeGuard_destroy g st).
Proof. unfold leave_scope. by rewrite reverse_snoc. Qed.

(** Guards of an inner scope run before those of the outer one, and a scope whose guards are
    all dismissed changes nothing. *)
Theorem leave_scope_app outer inner st : leave_scope (outer ++ inner) st = leave_scope outer (leave_scope inner st).
Proof.
  revert st. induction inner as [|g inner IH] using rev_ind; intros st; [by rewrite app_nil_r|].
  rewrite app_assoc, !leave_scope_snoc. apply IH.
Qed.

Theorem leave_scope_dismissed guards st : leave_scope (ScopeGuard_dismiss <$> guards) st = st.
Proof.
  revert st. induction guards as [|g guards IH] using rev_ind; intros st; [done|].
  rewrite fmap_app. cbn [fmap list_fmap]. by rewrite leave_scope_snoc, IH.
Qed.

End Guards.

(** ** Texts *)

Lemma c_str_length s : (String.length (string_format.c_str s) ≤ String.length s)%nat.
Proof. induction s as [|c s IH]; cbn; [lia|]. case_bool_decide; cbn; lia. Qed.

Lemma substring_length n : ∀ s, (String.length (String.substring 0 n s) ≤ n)%nat.
Proof. induction n as [|n IH]; intros [|c s]; cbn; [lia..|]. specialize (IH s). lia. Qed.

Lemma c_str_id s : no_char Ascii.zero s = true → string_format.c_str s = s.
Proof.
  induction s as [|c s IH]; cbn [string_format.c_str no_char]; [done|].
  intros [Hc Hs]%andb_true_iff. apply negb_true_iff in Hc. by rewrite Hc, IH.
Qed.

Lemma substring_all n : ∀ s, (String.length s ≤ n)%nat → String.substring 0 n s = s.
Proof.
  induction n as [|n IH]; intros [|c s] Hs; cbn in *; [done|lia|done|]. by rewrite IH by lia.
Qed.

(** A formatted text has 4095 bytes at most, and is not changed when it has no zero and fits. *)
Theorem format_spec text :
  (String.length (string_format.format text) ≤ 4095)%nat ∧
  ((String.length text ≤ 4095)%nat → no_char Ascii.zero text = true → string_format.format text = text).
Proof.
  unfold string_format.format. split.
  - etrans; [apply c_str_length|]. apply substring_length.
  - intros Hl Hz. by rewrite substring_all, c_str_id.
Qed.

(** ** Shuffling *)

Lemma swap_perm {A} i j (l : list A) : random_utils.swap i j l ≡ₚ l.
Proof.
  unfold random_utils.swap. destruct (l !! i) as [x|] eqn:Hi; [|done]. destruct (l !! j) as [y|] eqn:Hj; [|done].
  destruct (decide (i = j)) as [->|Hij]; [assert (x = y) as -> by congruence; by rewrite (list_insert_id l j y), list_insert_id by done|].
  symmetry. apply Permutation_inj. split; [by rewrite !length_insert|].
  exists (λ k, if decide (k = i) then j else if decide (k = j) then i else k). split.
  - intros a b Hab. repeat case_decide; lia.
  - intros k. apply lookup_lt_Some in Hi as Hli. apply lookup_lt_Some in Hj as Hlj.
    destruct (decide (k = i)) as [->|Hki]; [rewrite list_lookup_insert_eq; [done|by rewrite length_insert]|].
    destruct (decide (k = j)) as [->|Hkj].
    + rewrite list_lookup_insert_ne by done. by rewrite list_lookup_insert_eq.
    + by rewrite !list_lookup_insert_ne.
Qed.

(** Whatever is drawn, a shuffle is a permutation. *)
Theorem shuffle_perm {A} draw (vec : list A) : random_utils.shuffle draw vec ≡ₚ vec.
Proof.
  enough (∀ steps i l, random_utils.shuffle_from draw steps i l ≡ₚ l) as He by apply He. clear vec.
  induction steps as [|steps IH]; intros i l; cbn [random_utils.shuffle_from]; [reflexivity|].
  rewrite IH. apply swap_perm.
Qed.

(** ** Sizes in bytes *)

Lemma scale_bytes_spec fuel : ∀ size unit size' unit',
  (unit ≤ 4)%nat → (4 - unit ≤ fuel)%nat → memory_text.scale_bytes fuel size unit = (size', unit') →
  (unit' ≤ 4)%nat ∧ (SFleb (double_of_int 1024) size' = false ∨ unit' = 4%nat).
Proof.
  induction fuel as [|fuel IH]; intros size unit size' unit' Hu Hf Heq; cbn [memory_text.scale_bytes] in Heq.
  - simplify_eq. split; [lia|]. right. lia.
  - destruct (SFleb (double_of_int 1024) size) eqn:Hs; cbn [andb] in Heq.
    + destruct (Nat.ltb_spec unit 4) as [Hlt|Hge]; [|simplify_eq; split; [lia|right; lia]].
      eapply IH; [| |exact Heq]; lia.
    + simplify_eq. split; [lia|by left].
Qed.

(** The loop over the units ends, at a unit that exists, with a size below 1024 or the last
    unit. *)
Theorem formatBytes_unit bytes :
  ∃ size unit name, memory_text.scale_bytes 4 (double_of_int bytes) 0 = (size, unit) ∧
    memory_text.units !! unit = Some name ∧
    (SFleb (double_of_int 1024) size = false ∨ name = "TB"%string) ∧
    memory_text.formatBytes bytes =
      string_format.c_str (String.substring 0 31 (print_fixed 2 size +:+ " " +:+ name)).
Proof.
  destruct (memory_text.scale_bytes 4 (double_of_int bytes) 0) as [size unit] eqn:Hs.
  destruct (scale_bytes_spec 4 _ 0 size unit ltac:(lia) ltac:(lia) Hs) as [Hu Hend].
  destruct (lookup_lt_is_Some_2 memory_text.units unit) as [name Hn]; [cbn; lia|].
  exists size, unit, name. split; [done|]. split; [done|]. split.
  - destruct Hend as [Hend| ->]; [by left|]. right. by simplify_eq/=.
  - unfold memory_text.formatBytes. rewrite Hs, Hn. done.
Qed.

Example bytes_texts :
  memory_text.formatBytes 1023 = "1023.00 B" ∧ memory_text.formatBytes 1536 = "1.50 KB" ∧
  memory_text.formatBytes (2 ^ 64 - 1) = "16777216.00 TB".
Proof. by vm_compute. Qed.

Example rounded : print_fixed 3 (math_double.roundTo (decimal 12345 1000) 1) = "12.300" ∧
  print_fixed 1 (math_double.dround (decimal (-5) 2)) = "-3.0" ∧
  print_general (math_double.percentage (double_of_int 1) (double_of_int 3)) = "33.3333".
Proof. by vm_compute. Qed.

Example clock_texts :
  let lt := λ _, time_utils.mkTm 2024 3 9 7 5 1 in
  time_utils.now_text lt 1709960701042000000 = "2024-03-09 07:05:01" ∧
  time_utils.timestamp lt 1709960701042000000 = "20240309_070501.042".
Proof. by vm_compute. Qed.
