(* ===== verification/Json.v ===== *)
(** * Json: values of the library nlohmann::json

    The values that the sources build and read, with the conversions they use.  Printing
    and parsing belong to the library and are parameters where they are used. *)

From stdpp Require Import gmap strings.
From S2P Require Import Prelude CxxString Doubles.

Open Scope Z_scope.

(** A value of nlohmann::json: its objects are maps. *)
Inductive Json :=
  | JNull
  | JBoolean (b : bool)
  | JNumber (z : Z)
  | JDouble (d : double)
  | JString (s : string)
  | JArray (l : list Json)
  | JObject (m : gmap string Json).

(** Conversions: [None] is the exception of the library. *)
Definition as_number (j : Json) : option Z :=
  match j with JNumber z => Some z | JDouble d => truncate d | JBoolean b => Some (Z.b2z b) | _ => None end.
Definition as_double (j : Json) : option double :=
  match j with
  | JNumber z => Some (double_of_int z)
  | JDouble d => Some d
  | JBoolean b => Some (double_of_int (Z.b2z b))
  | _ => None
  end.
Definition as_string (j : Json) : option string := match j with JString s => Some s | _ => None end.
Definition as_array (j : Json) : option (list Json) := match j with JArray l => Some l | _ => None end.
Definition as_object (j : Json) : option (gmap string Json) :=
  match j with JObject m => Some m | _ => None end.
(** [j[key]] makes a missing member null. *)
Definition member (key : string) (m : gmap string Json) : Json := default JNull (m !! key).
(** What [for (auto& x : j)] visits; a value that is no container is visited itself. *)
Definition elements_of (j : Json) : list Json :=
  match j with
  | JArray l => l
  | JObject m => (map_to_list m).*2
  | JNull => []
  | _ => [j]
  end.
(** What [for (auto& [k, x] : j.items())] visits; the keys of an array are its indexes. *)
Definition items_of (j : Json) : list (string * Json) :=
  match j with
  | JArray l => imap (λ i x, (to_string (Z.of_nat i), x)) l
  | JObject m => map_to_list m
  | JNull => []
  | _ => [(""%string, j)]
  end.
(** [get<std::vector<A>>] *)
Definition as_list {A} (f : Json → option A) (j : Json) : option (list A) :=
  l ← as_array j; mapM f l.
(** [get<std::vector<size_t>>] *)
Definition as_nats (j : Json) : option (list nat) :=
  as_list (λ x, Z.to_nat ∘ wrap 64 <$> as_number x) j.

(** [if (j.contains(key))] with a default value. *)
Definition optional {A} (d : A) (f : Json → option A) (j : option Json) : option A :=
  match j with Some j => f j | None => Some d end.

(** The conversions of the members of an object or of what [items] visits. *)
Definition map_values {A} (f : string → Json → option A) (l : list (string * Json))
  : option (gmap string A) :=
  list_to_map <$> mapM (λ kv, pair kv.1 <$> f kv.1 kv.2) l.
