(* ===== verification/Record.v ===== *)
(** * Record: field encoding and value helpers (src/storage/record.cpp)

    The bytes that [serializeRecord] stores through its pointer are returned as
    a list, its return value is their number.  [deserializeRecord] reads a
    buffer with bounds-checked copies: [None] is a read outside the buffer. *)

From S2P Require Import Prelude CxxString Types.

Open Scope Z_scope.

(** ** The payload of one value, shared by the record, page and log formats *)

Definition payload_size (v : Value) : nat :=
  match vtype v with
  | DataType.INTEGER => 4
  | DataType.BIGINT => 8
  | DataType.BOOLEAN => 1
  | DataType.VARCHAR => 4 + String.length (str_val v)
  | _ => 0
  end.

(** [memcpy] of the member of the union, or the [uint32_t] length and the
    characters. *)
Definition value_payload (v : Value) : list Z :=
  match vtype v with
  | DataType.INTEGER => le_bytes 4 (data v)
  | DataType.BIGINT => le_bytes 8 (data v)
  | DataType.BOOLEAN => le_bytes 1 (data v)
  | DataType.VARCHAR =>
      let len := wrap 32 (Z.of_nat (String.length (str_val v))) in
      le_bytes 4 len ++ take (Z.to_nat len) (string_bytes (str_val v))
  | _ => []
  end.

(** Reading a length-prefixed string at [off]: the string and its length. *)
Definition read_varchar (buf : list Z) (off : nat) : option (string * nat) :=
  lenb ← read_bytes buf off 4;
  let len := Z.to_nat (le_value lenb) in
  s ← read_bytes buf (off + 4) len;
  Some (bytes_string s, len).

Definition read_le (buf : list Z) (off n : nat) : option Z :=
  le_value <$> read_bytes buf off n.

(** Strings whose length fits [uint32_t]. *)
Definition short_string (s : string) : Prop := Z.of_nat (String.length s) < 2 ^ 32.

Lemma value_payload_length v :
  (vtype v = DataType.VARCHAR → short_string (str_val v)) →
  length (value_payload v) = payload_size v.
Proof.
  unfold value_payload, payload_size, short_string. intros Hs.
  destruct (vtype v); autorewrite with orange_rw; try done.
  rewrite length_app, length_take. autorewrite with orange_rw.
  rewrite wrap_small by (unfold fits; split; [lia | by apply Hs]). lia.
Qed.

Lemma payload_varchar s :
  short_string s →
  value_payload (Value_string s) = le_bytes 4 (Z.of_nat (String.length s)) ++ string_bytes s.
Proof.
  intros Hs. unfold value_payload. simpl. unfold short_string in Hs.
  rewrite wrap_small by (unfold fits; lia).
  rewrite Nat2Z.id, take_ge; [done|]. autorewrite with orange_rw. lia.
Qed.

Lemma value_payload_ok v : Forall byte_ok (value_payload v).
Proof.
  unfold value_payload. destruct (vtype v); auto with orange.
  apply Forall_app. split; [|apply Forall_take]; auto with orange.
Qed.
#[export] Hint Resolve value_payload_ok : orange.

Lemma read_le_app pre n z rest :
  read_le (pre ++ le_bytes n z ++ rest) (length pre) n = Some (wrap (8 * Z.of_nat n) z).
Proof.
  unfold read_le, read_bytes. rewrite decide_True.
  - rewrite drop_app_length, take_app_length'; [|by autorewrite with orange_rw].
    simpl. by rewrite le_value_bytes.
  - rewrite !length_app. autorewrite with orange_rw. lia.
Qed.

Lemma read_le_head n z rest :
  read_le (le_bytes n z ++ rest) 0 n = Some (wrap (8 * Z.of_nat n) z).
Proof. apply (read_le_app []). Qed.

Lemma read_bytes_app pre bs rest :
  read_bytes (pre ++ bs ++ rest) (length pre) (length bs) = Some bs.
Proof.
  unfold read_bytes. rewrite decide_True by (rewrite !length_app; lia).
  by rewrite drop_app_length, take_app_length.
Qed.

Lemma read_varchar_app pre s rest :
  short_string s →
  read_varchar (pre ++ value_payload (Value_string s) ++ rest) (length pre) =
  Some (s, String.length s).
Proof.
  intros Hs. rewrite payload_varchar, <- !app_assoc by done. unfold read_varchar.
  pose proof (read_bytes_app pre (le_bytes 4 (Z.of_nat (String.length s)))
    (string_bytes s ++ rest)) as E.
  autorewrite with orange_rw in E. rewrite E. cbn [mbind option_bind].
  rewrite le_value_bytes_fits by (unfold fits, short_string in *; lia).
  rewrite Nat2Z.id.
  pose proof (read_bytes_app (pre ++ le_bytes 4 (Z.of_nat (String.length s)))
    (string_bytes s) rest) as E2.
  rewrite length_app, <- app_assoc in E2. autorewrite with orange_rw in E2.
  rewrite E2. cbn [mbind option_bind]. by rewrite bytes_string_bytes.
Qed.

(** ** serializeRecord and deserializeRecord *)

(** The running [current_offset] of the first loop. *)
Fixpoint field_offsets (current_offset : nat) (record : list Value) : list nat :=
  match record with
  | [] => []
  | v :: record' => current_offset :: field_offsets (current_offset + payload_size v) record'
  end.

Definition serializeRecord (record : list Value) : list Z :=
  let field_count := wrap 16 (Z.of_nat (length record)) in
  let fields := take (Z.to_nat field_count) record in
  let offsets := field_offsets (2 * (Z.to_nat field_count + 1)) fields in
  le_bytes 2 field_count
  ++ concat (map (λ o, le_bytes 2 (Z.of_nat o)) offsets)
  ++ concat (map value_payload fields).

(** [record.resize(n)] *)
Definition resize (n : nat) (record : list Value) : list Value :=
  take n record ++ replicate (n - length record) Value_null.

(** One iteration of the reading loop: the type is guessed from the size. *)
Definition decodeField (buf : list Z) (off : nat) (field_size : Z) (v : Value) : option Value :=
  if field_size =? 4 then
    z ← read_le buf off 4; Some (set_data 32 z (set_type DataType.INTEGER v))
  else if field_size =? 8 then
    z ← read_le buf off 8; Some (set_data 64 z (set_type DataType.BIGINT v))
  else if field_size =? 1 then
    z ← read_le buf off 1; Some (set_data 8 z (set_type DataType.BOOLEAN v))
  else
    sl ← read_varchar buf off; Some (set_str sl.1 (set_type DataType.VARCHAR v)).

(** [header] is [buffer - start] after the offset table, the end the loop uses
    for the last field. *)
Fixpoint decodeFields (buf : list Z) (header : Z) (offsets : list Z) (vals : list Value)
  : option (list Value) :=
  match offsets, vals with
  | off :: rest, v :: vals' =>
      let next_offset := match rest with next :: _ => next | [] => header end in
      let field_size := wrap 64 (next_offset - off) in
      v' ← decodeField buf (Z.to_nat off) field_size v;
      vs ← decodeFields buf header rest vals';
      Some (v' :: vs)
  | _, _ => Some []
  end.

(** The [uint16_t] offset table at [pos]. *)
Fixpoint read_offsets (buf : list Z) (pos n : nat) : option (list Z) :=
  match n with
  | O => Some []
  | S n' => o ← read_le buf pos 2; os ← read_offsets buf (pos + 2) n'; Some (o :: os)
  end.

(** [record] is the vector the caller passes, resized and overwritten. *)
Definition deserializeRecord (buf : list Z) (record : list Value) : option (list Value * nat) :=
  field_count ← read_le buf 0 2;
  let n := Z.to_nat field_count in
  offsets ← read_offsets buf 2 n;
  let consumed := (2 + 2 * n)%nat in
  vals ← decodeFields buf (Z.of_nat consumed) offsets (resize n record);
  Some (vals, consumed).

Definition getRecordSize (record : list Value) : Z :=
  foldl (λ size v, size + 2 + Z.of_nat (payload_size v)) 2 record.

(** ** compareValues and compareValuesOrdered *)

Definition compareValues (a b : Value) : bool :=
  if decide (vtype a = vtype b) then
    match vtype a with
    | DataType.INTEGER => int_val a =? int_val b
    | DataType.BIGINT => bigint_val a =? bigint_val b
    | DataType.BOOLEAN => Bool.eqb (bool_val a) (bool_val b)
    | DataType.VARCHAR => bool_decide (str_val a = str_val b)
    | _ => false
    end
  else false.

(** [std::string::compare] only promises the sign of its result. *)
Definition compare_sign (c : comparison) : Z :=
  match c with Lt => -1 | Eq => 0 | Gt => 1 end.

Definition compareValuesOrdered (a b : Value) : Z :=
  if decide (vtype a = vtype b) then
    match vtype a with
    | DataType.INTEGER =>
        if int_val a <? int_val b then -1 else if int_val b <? int_val a then 1 else 0
    | DataType.BIGINT =>
        if bigint_val a <? bigint_val b then -1
        else if bigint_val b <? bigint_val a then 1 else 0
    | DataType.BOOLEAN =>
        if negb (bool_val a) && bool_val b then -1
        else if bool_val a && negb (bool_val b) then 1 else 0
    | DataType.VARCHAR => compare_sign (string_compare (str_val a) (str_val b))
    | _ => 0
    end
  else type_code (vtype a) - type_code (vtype b).

(** ** aggregateValues *)

Module AggregateFunction.
Inductive AggregateFunction :=
  COUNT | SUM | AVG | MIN | MAX | GROUP_CONCAT | STDDEV | VARIANCE.
End AggregateFunction.
Abbreviation AggregateFunction := AggregateFunction.AggregateFunction.

Definition sum_int_vals (values : list Value) : Z :=
  foldl (λ sum v, sum + int_val v) 0 values.

Definition pick_min (result v : Value) : Value :=
  if compareValuesOrdered v result <? 0 then v else result.
Definition pick_max (result v : Value) : Value :=
  if 0 <? compareValuesOrdered v result then v else result.

(** [sum / values.size()] divides an [int64_t] by a [size_t]: the sum is
    converted to [uint64_t] first. *)
Definition aggregateValues (values : list Value) (func : AggregateFunction) : Value :=
  match values with
  | [] => Value_null
  | first :: rest =>
      match func with
      | AggregateFunction.COUNT => Value_int (Z.of_nat (length values))
      | AggregateFunction.SUM =>
          if decide (vtype first = DataType.INTEGER) then Value_int (sum_int_vals values)
          else first
      | AggregateFunction.AVG =>
          if decide (vtype first = DataType.INTEGER)
          then Value_int (wrap 64 (sum_int_vals values) / Z.of_nat (length values))
          else first
      | AggregateFunction.MIN => foldl pick_min first rest
      | AggregateFunction.MAX => foldl pick_max first rest
      | _ => first
      end
  end.

(** ** valueToString and stringToValue *)

Definition valueToString (val : Value) : string :=
  match vtype val with
  | DataType.INTEGER => to_string (int_val val)
  | DataType.BIGINT => to_string (bigint_val val)
  | DataType.BOOLEAN => if bool_val val then "true" else "false"
  | DataType.VARCHAR => str_val val
  | _ => "NULL"
  end.

(** [None]: the exception of [std::stoi] or [std::stoll]. *)
Definition stringToValue (str : string) (type : DataType) : option Value :=
  let val := set_type type Value_null in
  match type with
  | DataType.INTEGER => z ← stoi str; Some (set_data 32 z val)
  | DataType.BIGINT => z ← stoll str; Some (set_data 64 z val)
  | DataType.BOOLEAN =>
      Some (set_data 8 (Z.b2z (bool_decide (str = "true") || bool_decide (str = "1"))) val)
  | DataType.VARCHAR => Some (set_str str val)
  | _ => Some val
  end.

(** ** Sizes *)

Fixpoint total_payload (record : list Value) : nat :=
  match record with
  | [] => 0
  | v :: record' => payload_size v + total_payload record'
  end.

Lemma getRecordSize_acc record acc :
  foldl (λ size v, size + 2 + Z.of_nat (payload_size v)) acc record =
  acc + 2 * Z.of_nat (length record) + Z.of_nat (total_payload record).
Proof.
  revert acc. induction record as [|v record IH]; intros acc; simpl; [lia|].
  rewrite IH. lia.
Qed.

Lemma getRecordSize_eq record :
  getRecordSize record = 2 + 2 * Z.of_nat (length record) + Z.of_nat (total_payload record).
Proof. apply getRecordSize_acc. Qed.

(** Records whose strings are shorter than 2^32. *)
Definition short_strings (record : list Value) : Prop :=
  Forall (λ v, vtype v = DataType.VARCHAR → short_string (str_val v)) record.

Lemma length_payloads record :
  short_strings record →
  length (concat (map value_payload record)) = total_payload record.
Proof.
  induction 1 as [|v record Hv _ IH]; simpl; [done|].
  by rewrite length_app, IH, value_payload_length.
Qed.

Lemma length_field_offsets cur record : length (field_offsets cur record) = length record.
Proof. revert cur. induction record as [|v r IH]; intros cur; simpl; [done|]. by rewrite IH. Qed.

Lemma length_offset_bytes (os : list nat) :
  length (concat (map (λ o, le_bytes 2 (Z.of_nat o)) os)) = (2 * length os)%nat.
Proof.
  induction os as [|o os IH]; [done|]. cbn [map concat length].
  rewrite length_app, IH, length_le_bytes. lia.
Qed.

(** [serializeRecord] when the field count fits its [uint16_t]. *)
Lemma serializeRecord_eq record :
  Z.of_nat (length record) < 2 ^ 16 →
  serializeRecord record =
  le_bytes 2 (Z.of_nat (length record))
  ++ concat (map (λ o, le_bytes 2 (Z.of_nat o)) (field_offsets (2 * (length record + 1)) record))
  ++ concat (map value_payload record).
Proof.
  intros Hl. unfold serializeRecord. rewrite wrap_small by (unfold fits; lia).
  by rewrite Nat2Z.id, take_ge by lia.
Qed.

(** [getRecordSize] is exactly the number of bytes [serializeRecord]
    writes, for records of fewer than 65536 fields. *)
Theorem getRecordSize_serialize record :
  Z.of_nat (length record) < 2 ^ 16 → short_strings record →
  Z.of_nat (length (serializeRecord record)) = getRecordSize record.
Proof.
  intros Hl Hs. rewrite serializeRecord_eq, getRecordSize_eq by done.
  rewrite !length_app, length_le_bytes, length_offset_bytes, length_field_offsets,
    length_payloads by done. lia.
Qed.

Lemma getRecordSize_serialize_witness :
  Z.of_nat (length (serializeRecord [Value_int 5; Value_string "abc"])) =
  getRecordSize [Value_int 5; Value_string "abc"].
Proof.
  apply (getRecordSize_serialize [Value_int 5; Value_string "abc"]); [done|].
  repeat constructor; simpl; intros; try done; unfold short_string; simpl; lia.
Defined.

(** ** Reading a record back *)

(** The values whose fields the reader can recognise by their size. *)
Inductive sized_value : Value → Prop :=
  | sized_int z : sized_value (Value_int z)
  | sized_bigint z : sized_value (Value_bigint z)
  | sized_bool b : sized_value (Value_bool b)
  | sized_string s :
      short_string s → String.length s ≠ 0%nat → String.length s ≠ 4%nat →
      sized_value (Value_string s).

(** A record of such values that ends with a string. *)
Definition readable_record (record : list Value) : Prop :=
  ∃ init s, record = init ++ [Value_string s] ∧ Forall sized_value init ∧ short_string s.

Lemma sized_value_short v :
  sized_value v → vtype v = DataType.VARCHAR → short_string (str_val v).
Proof. by destruct 1. Qed.

(** Writing a member of the union of a default-constructed value. *)
Lemma set_data_fresh t w z :
  set_data w z (set_type t Value_null) = mkValue t (wrap w z) "" [].
Proof. reflexivity. Qed.

Lemma decodeField_sized pre v rest :
  sized_value v →
  decodeField (pre ++ value_payload v ++ rest) (length pre) (Z.of_nat (payload_size v))
    Value_null = Some v.
Proof.
  intros Hv. destruct Hv as [z|z|b|s Hs H0 H4]; unfold decodeField.
  - cbn -[le_bytes read_le set_data]. rewrite read_le_app. cbn [mbind option_bind].
    by rewrite set_data_fresh, !wrap_idemp by lia.
  - cbn -[le_bytes read_le set_data]. rewrite read_le_app. cbn [mbind option_bind].
    by rewrite set_data_fresh, !wrap_idemp by lia.
  - cbn -[le_bytes read_le]. rewrite read_le_app. by destruct b.
  - assert (Z.of_nat (payload_size (Value_string s)) = 4 + Z.of_nat (String.length s))
      as ->
      by (change (payload_size (Value_string s)) with (4 + String.length s)%nat; lia).
    destruct (Z.eqb_spec (4 + Z.of_nat (String.length s)) 4); [lia|].
    destruct (Z.eqb_spec (4 + Z.of_nat (String.length s)) 8); [lia|].
    destruct (Z.eqb_spec (4 + Z.of_nat (String.length s)) 1); [lia|].
    by rewrite read_varchar_app.
Qed.

(** Past the offset table, the size computed for the last field matches no
    fixed-size type, so it is read as a string. *)
Lemma decodeField_last buf off header v :
  (header ≤ Z.of_nat off < 2 ^ 16) → 0 ≤ header →
  decodeField buf off (wrap 64 (header - Z.of_nat off)) v =
  (sl ← read_varchar buf off; Some (set_str sl.1 (set_type DataType.VARCHAR v))).
Proof.
  intros Hoff Hh. set (d := header - Z.of_nat off).
  assert (wrap 64 d = 0 ∨ 2 ^ 64 - 2 ^ 16 ≤ wrap 64 d) as Hd.
  { unfold wrap. destruct (decide (d = 0)) as [->|]; [by left|right].
    rewrite <- (Z.mod_add d 1 (2 ^ 64)), Z.mod_small by lia. lia. }
  unfold decodeField.
  destruct (Z.eqb_spec (wrap 64 d) 4); [lia|].
  destruct (Z.eqb_spec (wrap 64 d) 8); [lia|].
  destruct (Z.eqb_spec (wrap 64 d) 1); [lia|]. done.
Qed.

Lemma decodeFields_readable init s pre rest header :
  Forall sized_value init → short_string s →
  0 ≤ header ≤ Z.of_nat (length pre) →
  Z.of_nat (length pre + total_payload (init ++ [Value_string s])) < 2 ^ 16 →
  decodeFields (pre ++ concat (map value_payload (init ++ [Value_string s])) ++ rest) header
    (map Z.of_nat (field_offsets (length pre) (init ++ [Value_string s])))
    (replicate (length (init ++ [Value_string s])) Value_null) =
  Some (init ++ [Value_string s]).
Proof.
  intros Hi. revert pre. induction Hi as [|v init Hv Hi IH]; intros pre Hs Hh Hb.
  - cbn -[decodeField value_payload wrap Z.pow]. rewrite Nat2Z.id, app_nil_r.
    rewrite decodeField_last by (simpl in Hb; lia).
    rewrite read_varchar_app by done. reflexivity.
  - cbn [app map concat field_offsets length replicate decodeFields].
    rewrite <- !app_assoc, Nat2Z.id.
    assert (length (value_payload v) = payload_size v) as Hlen
      by (apply value_payload_length; eauto using sized_value_short).
    cbn [app total_payload] in Hb.
    assert (wrap 64 (match map Z.of_nat (field_offsets (length pre + payload_size v)
        (init ++ [Value_string s])) with [] => header | n :: _ => n end
        - Z.of_nat (length pre)) = Z.of_nat (payload_size v)) as ->.
    { destruct init; simpl; (rewrite wrap_small; [lia|]); unfold fits; simpl in *; lia. }
    rewrite decodeField_sized by done. cbn [mbind option_bind].
    specialize (IH (pre ++ value_payload v) Hs).
    rewrite length_app, Hlen, <- app_assoc in IH.
    rewrite IH; [done|lia|lia].
Qed.

Lemma read_offsets_app pre (os : list nat) rest :
  Forall (λ o, Z.of_nat o < 2 ^ 16) os →
  read_offsets (pre ++ concat (map (λ o, le_bytes 2 (Z.of_nat o)) os) ++ rest) (length pre)
    (length os) = Some (map Z.of_nat os).
Proof.
  intros Ho. revert pre. induction Ho as [|o os Ho _ IH]; intros pre; [done|].
  cbn [map concat length read_offsets]. rewrite <- app_assoc, read_le_app.
  cbn [mbind option_bind]. specialize (IH (pre ++ le_bytes 2 (Z.of_nat o))).
  rewrite length_app, length_le_bytes, <- app_assoc in IH. rewrite IH.
  cbn [mbind option_bind]. rewrite wrap_small; [done|]. unfold fits. lia.
Qed.

Lemma field_offsets_bound cur record bound :
  Z.of_nat (cur + total_payload record) < bound →
  Forall (λ o, Z.of_nat o < bound) (field_offsets cur record).
Proof.
  revert cur. induction record as [|v record IH]; intros cur Hb; simpl; [done|].
  cbn [total_payload] in Hb. constructor; [lia|]. apply IH. lia.
Qed.

(** [deserializeRecord] on the output of [serializeRecord]: the offset table is
    read back, what remains is the loop over the fields. *)
Lemma deserialize_serialize record rest out :
  getRecordSize record < 2 ^ 16 →
  deserializeRecord (serializeRecord record ++ rest) out =
  (vals ← decodeFields (serializeRecord record ++ rest)
            (Z.of_nat (2 + 2 * length record))
            (map Z.of_nat (field_offsets (2 * (length record + 1)) record))
            (resize (length record) out);
   Some (vals, (2 + 2 * length record)%nat)).
Proof.
  rewrite getRecordSize_eq. intros Hb. rewrite serializeRecord_eq by lia.
  unfold deserializeRecord. rewrite <- !app_assoc.
  rewrite read_le_head. cbn [mbind option_bind].
  rewrite wrap_small by (unfold fits; lia). rewrite Nat2Z.id.
  pose proof (read_offsets_app (le_bytes 2 (Z.of_nat (length record)))
    (field_offsets (2 * (length record + 1)) record)
    (concat (map value_payload record) ++ rest)) as E.
  rewrite length_le_bytes, length_field_offsets in E. rewrite E; [done|].
  apply field_offsets_bound. lia.
Qed.

Lemma resize_nil n : resize n [] = replicate n Value_null.
Proof. unfold resize. rewrite take_nil. simpl. by rewrite Nat.sub_0_r. Qed.

(** Round trip of the record format: a record below 64KB whose fields
    before the last are integers, big integers, booleans and strings of a length
    other than 0 and 4, and whose last field is a string, is read back
    unchanged, whatever bytes follow it. *)
Theorem record_roundtrip record rest :
  readable_record record → getRecordSize record < 2 ^ 16 →
  deserializeRecord (serializeRecord record ++ rest) [] =
  Some (record, (2 + 2 * length record)%nat).
Proof.
  intros (init & s & -> & Hi & Hs) Hb. rewrite deserialize_serialize by done.
  rewrite getRecordSize_eq in Hb. rewrite serializeRecord_eq by lia.
  set (r := init ++ [Value_string s]) in *.
  set (hdr := le_bytes 2 (Z.of_nat (length r)) ++
    concat (map (λ o, le_bytes 2 (Z.of_nat o)) (field_offsets (2 * (length r + 1)) r))).
  assert (length hdr = 2 * (length r + 1))%nat as Hhdr.
  { unfold hdr. rewrite length_app, length_le_bytes, length_offset_bytes, length_field_offsets. lia. }
  pose proof (decodeFields_readable init s hdr rest (Z.of_nat (2 + 2 * length r)) Hi Hs) as E.
  fold r in E. rewrite Hhdr in E. unfold hdr in E. rewrite <- !app_assoc in *.
  rewrite resize_nil, E by lia. done.
Qed.

Lemma record_roundtrip_witness :
  deserializeRecord (serializeRecord [Value_int (-3); Value_bool true; Value_string "orange"] ++ [9; 9]) []
  = Some ([Value_int (-3); Value_bool true; Value_string "orange"], 8%nat).
Proof.
  apply (record_roundtrip [Value_int (-3); Value_bool true; Value_string "orange"]); [|reflexivity].
  exists [Value_int (-3); Value_bool true], "orange". split; [reflexivity|].
  split; [repeat constructor | reflexivity].
Defined.

Lemma decodeFields_last buf header offs off vals vs :
  decodeFields buf header (offs ++ [off]) vals = Some vs →
  length vals = S (length offs) →
  0 ≤ header ≤ off → off < 2 ^ 16 →
  ∃ v, last vs = Some v ∧ vtype v = DataType.VARCHAR.
Proof.
  revert vals vs. induction offs as [|o offs IH]; intros [|v vals] vs Hd Hl Hh Ho; simpl in Hl; try lia.
  - destruct vals; [|simpl in Hl; lia]. cbn [app decodeFields] in Hd.
    rewrite <- (Z2Nat.id off) in Hd at 2 by lia.
    rewrite decodeField_last in Hd by lia.
    destruct (read_varchar buf (Z.to_nat off)) as [sl|]; simplify_eq/=. eauto.
  - cbn [app decodeFields] in Hd.
    destruct (decodeField _ _ _ _) as [v'|]; simplify_eq/=.
    destruct (decodeFields buf header (offs ++ [off]) vals) as [vs'|] eqn:E; simplify_eq/=.
    destruct (IH _ _ E ltac:(lia) Hh Ho) as (w & Hw & Hwt). exists w. split; [|done].
    destruct vs'; [done|]. by rewrite <- Hw.
Qed.

Lemma field_offsets_snoc cur init v :
  field_offsets cur (init ++ [v]) = field_offsets cur init ++ [(cur + total_payload init)%nat].
Proof.
  revert cur. induction init as [|w init IH]; intros cur; simpl; [by rewrite Nat.add_0_r|].
  rewrite IH. do 3 f_equal. lia.
Qed.

Lemma total_payload_app a b : total_payload (a ++ b) = (total_payload a + total_payload b)%nat.
Proof. induction a as [|v a IH]; simpl; [done|]. lia. Qed.

Lemma length_resize n r : length (resize n r) = n.
Proof. unfold resize. rewrite length_app, length_take, length_replicate. lia. Qed.

(** The reader takes the end of the offset table for the end of the last
    field: whatever the type of the last value written, it is read back as a
    VARCHAR (a record that ends with an INTEGER does not round-trip). *)
Theorem record_last_field_varchar init v rest out vals n :
  getRecordSize (init ++ [v]) < 2 ^ 16 →
  deserializeRecord (serializeRecord (init ++ [v]) ++ rest) out = Some (vals, n) →
  ∃ w, last vals = Some w ∧ vtype w = DataType.VARCHAR.
Proof.
  intros Hb. rewrite deserialize_serialize by done. rewrite getRecordSize_eq in Hb.
  rewrite length_app, total_payload_app in Hb. simpl in Hb.
  rewrite field_offsets_snoc, map_app.
  destruct (decodeFields _ _ _ _) as [vs|] eqn:E; simpl; [|done]. intros [= <- <-].
  eapply decodeFields_last; [exact E|..].
  - rewrite length_resize, length_app, length_map, length_field_offsets. simpl. lia.
  - rewrite length_app. simpl. lia.
  - rewrite length_app. simpl. lia.
Qed.

Lemma record_last_field_varchar_witness :
  ∃ w, last [set_str "abcd" (set_type DataType.VARCHAR Value_null)] = Some w ∧
       vtype w = DataType.VARCHAR.
Proof.
  apply (record_last_field_varchar [] (Value_int 4) (string_bytes "abcd") []
    [set_str "abcd" (set_type DataType.VARCHAR Value_null)] 4%nat); reflexivity.
Defined.

(** ** compareValuesOrdered is a total preorder *)

Lemma compare_sign_opp c : compare_sign (CompOpp c) = - compare_sign c.
Proof. by destruct c. Qed.

Lemma compareValuesOrdered_antisym a b :
  compareValuesOrdered b a = - compareValuesOrdered a b.
Proof.
  unfold compareValuesOrdered.
  destruct (decide (vtype a = vtype b)) as [E|E];
    [rewrite decide_True by done | rewrite decide_False by congruence; lia].
  rewrite E. split_vtype b; try done.
  1-2: repeat case_match_eq; prop_bools; lia.
  - by rewrite string_compare_antisym, compare_sign_opp.
  - destruct (bool_val a), (bool_val b); done.
Qed.

Lemma compare_sign_le s t : compare_sign (string_compare s t) ≤ 0 ↔ s = t ∨ string_compare s t = Lt.
Proof.
  pose proof (string_compare_eq s t). destruct (string_compare s t); simpl; naive_solver lia.
Qed.

Lemma compareValuesOrdered_trans a b c :
  enumerator (vtype a) → enumerator (vtype b) →
  compareValuesOrdered a b ≤ 0 → compareValuesOrdered b c ≤ 0 → compareValuesOrdered a c ≤ 0.
Proof.
  unfold compareValuesOrdered.
  destruct (decide (vtype a = vtype b)) as [Eab|], (decide (vtype b = vtype c)) as [Ebc|],
    (decide (vtype a = vtype c)) as [Eac|]; intros Ha Hb; try congruence;
    rewrite ?Eab, ?Ebc; try lia.
  - clear Ha Hb. split_vtype c; try lia.
    1-2: repeat case_match_eq; prop_bools; lia.
    + rewrite !compare_sign_le. intros [Hab|Hab] [Hbc|Hbc];
        [left|right|right|right]; try congruence. by eapply string_compare_trans.
    + destruct (bool_val a), (bool_val b), (bool_val c); simpl; lia.
  - rewrite <- Eac. intros. assert (vtype a = vtype b); [|done].
    rewrite <- (code_type_code (vtype a)), <- (code_type_code (vtype b)) by done. f_equal. lia.
Qed.

(** ** aggregateValues *)

Lemma pick_min_fold first rest :
  Forall (λ v, enumerator (vtype v)) (first :: rest) →
  foldl pick_min first rest ∈ first :: rest ∧
  Forall (λ v, compareValuesOrdered (foldl pick_min first rest) v ≤ 0) (first :: rest).
Proof.
  revert first. induction rest as [|x rest IH]; intros first Hall.
  - simpl. split; [apply elem_of_cons; by left|]. repeat constructor.
    pose proof (compareValuesOrdered_antisym first first). lia.
  - inversion_clear Hall as [|?? Hf Hrest]. inversion_clear Hrest as [|?? Hx Hr].
    cbn [foldl]. destruct (IH (pick_min first x)) as [Hin Hle].
    { constructor; [|done]. unfold pick_min. by case_match_eq. }
    set (m := foldl pick_min (pick_min first x) rest) in *.
    inversion_clear Hle as [|?? Hm Hle'].
    assert (enumerator (vtype m)) as Em.
    { assert (Forall (λ v, enumerator (vtype v)) (pick_min first x :: rest)) as HA.
      { constructor; [|done]. unfold pick_min. by case_match_eq. }
      rewrite Forall_forall in HA. by apply HA. }
    unfold pick_min in *. pose proof (compareValuesOrdered_antisym x first).
    destruct (Z.ltb_spec (compareValuesOrdered x first) 0).
    + split; [set_solver|]. constructor; [|by constructor].
      eapply (compareValuesOrdered_trans _ x); auto. lia.
    + split; [set_solver|]. constructor; [done|]. constructor; [|done].
      eapply (compareValuesOrdered_trans _ first); auto. lia.
Qed.

(** MIN returns one of the values and no value is ordered before it. *)
Theorem aggregate_min_spec values :
  values ≠ [] → Forall (λ v, enumerator (vtype v)) values →
  aggregateValues values AggregateFunction.MIN ∈ values ∧
  Forall (λ v, compareValuesOrdered (aggregateValues values AggregateFunction.MIN) v ≤ 0) values.
Proof. destruct values as [|first rest]; [done|]. intros _. apply pick_min_fold. Qed.

Lemma aggregate_min_spec_witness :
  aggregateValues [Value_int 3; Value_int (-2); Value_int 7] AggregateFunction.MIN
  ∈ [Value_int 3; Value_int (-2); Value_int 7].
Proof.
  apply (aggregate_min_spec [Value_int 3; Value_int (-2); Value_int 7]); [done|].
  repeat constructor.
Defined.

(** SUM and AVG of INTEGER values with a non-negative sum: SUM is the
    exact sum when it fits 32 bits, AVG its integer quotient by the number of
    values. *)
Theorem aggregate_sum_avg first rest :
  vtype first = DataType.INTEGER →
  let values := first :: rest in
  let sum := sum_int_vals values in
  0 ≤ sum < 2 ^ 31 →
  int_val (aggregateValues values AggregateFunction.SUM) = sum ∧
  int_val (aggregateValues values AggregateFunction.AVG) = sum / Z.of_nat (length values).
Proof.
  intros Ht values sum Hs.
  assert (0 ≤ sum / Z.of_nat (length values) ≤ sum).
  { split; [apply Z.div_pos; simpl; lia|]. apply Z.div_le_upper_bound; simpl; nia. }
  unfold aggregateValues, values. rewrite !decide_True by done. fold values. fold sum.
  rewrite (wrap_small 64 sum) by (unfold fits; lia).
  rewrite !int_val_int by (unfold fits_signed; lia). done.
Qed.

Lemma aggregate_sum_avg_witness :
  int_val (aggregateValues [Value_int 10; Value_int (-3)] AggregateFunction.SUM) = 7 ∧
  int_val (aggregateValues [Value_int 10; Value_int (-3)] AggregateFunction.AVG) = 3.
Proof.
  apply (aggregate_sum_avg (Value_int 10) [Value_int (-3)]); [reflexivity|]. vm_compute. split; done.
Defined.

(** AVG of INTEGER values with a negative sum divides 2^64 + sum, because
    the sum is converted to [size_t]: the average of three -1 is 1431655764. *)
Theorem aggregate_avg_negative first rest :
  vtype first = DataType.INTEGER →
  let values := first :: rest in
  let sum := sum_int_vals values in
  - 2 ^ 63 ≤ sum < 0 →
  aggregateValues values AggregateFunction.AVG =
  Value_int ((2 ^ 64 + sum) / Z.of_nat (length values)).
Proof.
  intros Ht values sum Hs. unfold aggregateValues, values.
  rewrite decide_True by done. fold values. fold sum.
  assert (wrap 64 sum = 2 ^ 64 + sum) as ->; [|done].
  unfold wrap. rewrite <- (Z.mod_add sum 1 (2 ^ 64)), Z.mod_small; lia.
Qed.

Lemma aggregate_avg_negative_witness :
  aggregateValues [Value_int (-1); Value_int (-1); Value_int (-1)] AggregateFunction.AVG =
  Value_int 1431655764.
Proof.
  rewrite (aggregate_avg_negative (Value_int (-1)) [Value_int (-1); Value_int (-1)]);
    [reflexivity | reflexivity | vm_compute; split; done].
Defined.

(** ** Text *)

Inductive scalar_value : Value → Prop :=
  | scalar_int z : scalar_value (Value_int z)
  | scalar_bigint z : scalar_value (Value_bigint z)
  | scalar_bool b : scalar_value (Value_bool b)
  | scalar_string s : scalar_value (Value_string s).

(** Text round trip: an INTEGER, BIGINT, BOOLEAN or VARCHAR value is
    recovered from [valueToString] by [stringToValue] at its type, without
    exception. *)
Theorem value_string_roundtrip v :
  scalar_value v → stringToValue (valueToString v) (vtype v) = Some v.
Proof.
  destruct 1 as [z|z|b|s]; unfold stringToValue, valueToString; cbn [vtype Value_int Value_bigint].
  - rewrite stoi_to_string by (apply to_signed_range; lia). cbn [mbind option_bind].
    rewrite set_data_fresh. unfold int_val. rewrite wrap_to_signed by lia.
    simpl data. by rewrite wrap_idemp by lia.
  - rewrite stoll_to_string by (apply to_signed_range; lia). cbn [mbind option_bind].
    rewrite set_data_fresh. unfold bigint_val. rewrite wrap_to_signed by lia.
    simpl data. by rewrite wrap_idemp by lia.
  - by destruct b.
  - done.
Qed.

Lemma value_string_roundtrip_witness :
  stringToValue "-2147483648" DataType.INTEGER = Some (Value_int (-2147483648)).
Proof. apply (value_string_roundtrip (Value_int (-2147483648))). constructor. Defined.
