(* ===== verification/Page.v ===== *)
(** * Page: the 4KB slotted page (src/storage/page.h, page.cpp)

    A page is its header and the 4032 bytes of [data_].  The slot array is a
    view of the first bytes of [data_] (the [reinterpret_cast] of the source)
    and records are byte ranges of it, addressed by their offset in the page.
    An access outside [data_] is undefined behaviour: the operation is [None].
    A C++ [bool] result is the presence of the [option] it carries. *)

From S2P Require Import Prelude CxxString Types Record.

Open Scope Z_scope.

Definition INVALID_PAGE_ID : Z := 2 ^ 64 - 1.
Definition PAGE_SIZE : Z := 4096.

(** ** Data *)

Module PageType.
Inductive PageType := DATA_PAGE | INDEX_PAGE | OVERFLOW_PAGE | SYSTEM_PAGE | OTHER (code : Z).

#[export] Instance PageType_eq_dec : EqDecision PageType.
Proof. solve_decision. Defined.
End PageType.
Export (hints) PageType.
Abbreviation PageType := PageType.PageType.

Definition page_type_code (t : PageType) : Z :=
  match t with
  | PageType.DATA_PAGE => 0 | PageType.INDEX_PAGE => 1 | PageType.OVERFLOW_PAGE => 2
  | PageType.SYSTEM_PAGE => 3 | PageType.OTHER z => z
  end.

Definition code_page_type (z : Z) : PageType :=
  match z with
  | 0 => PageType.DATA_PAGE | 1 => PageType.INDEX_PAGE | 2 => PageType.OVERFLOW_PAGE
  | 3 => PageType.SYSTEM_PAGE | _ => PageType.OTHER z
  end.

(** The declared padding and the tail padding that completes the 64 bytes. *)
Record PageHeader := mkPageHeader {
  page_id : Z;
  table_id : Z;
  ptype : PageType;
  free_space_offset : Z;
  free_space_end : Z;
  record_count : Z;
  slot_count : Z;
  next_page_id : Z;
  prev_page_id : Z;
  parent_page_id : Z;
  checksum : Z;
  lsn : Z;
  is_dirty : bool;
  is_locked : bool;
  padding : list Z
}.

Record PageSlot := mkPageSlot {
  slot_offset : Z;
  slot_length : Z;
  slot_flags : Z;
  slot_next : Z
}.

Record Page := mkPage { header : PageHeader; pdata : list Z }.

Definition HEADER_SIZE : Z := 64.
Definition SLOT_SIZE : Z := 8.
Definition MAX_SLOTS : Z := (PAGE_SIZE - HEADER_SIZE) / SLOT_SIZE.
Definition DATA_SIZE : Z := PAGE_SIZE - HEADER_SIZE - MAX_SLOTS * SLOT_SIZE.

(** Updates of header fields *)
Definition set_space (fso fse rc : Z) (h : PageHeader) : PageHeader :=
  mkPageHeader (page_id h) (table_id h) (ptype h) fso fse rc (slot_count h)
    (next_page_id h) (prev_page_id h) (parent_page_id h) (checksum h) (lsn h)
    (is_dirty h) (is_locked h) (padding h).
Definition set_dirty_flag (d : bool) (h : PageHeader) : PageHeader :=
  mkPageHeader (page_id h) (table_id h) (ptype h) (free_space_offset h) (free_space_end h)
    (record_count h) (slot_count h) (next_page_id h) (prev_page_id h) (parent_page_id h)
    (checksum h) (lsn h) d (is_locked h) (padding h).
Definition set_lsn_field (l : Z) (h : PageHeader) : PageHeader :=
  mkPageHeader (page_id h) (table_id h) (ptype h) (free_space_offset h) (free_space_end h)
    (record_count h) (slot_count h) (next_page_id h) (prev_page_id h) (parent_page_id h)
    (checksum h) l (is_dirty h) (is_locked h) (padding h).
Definition set_checksum (c : Z) (h : PageHeader) : PageHeader :=
  mkPageHeader (page_id h) (table_id h) (ptype h) (free_space_offset h) (free_space_end h)
    (record_count h) (slot_count h) (next_page_id h) (prev_page_id h) (parent_page_id h)
    c (lsn h) (is_dirty h) (is_locked h) (padding h).
Definition set_links (t : PageType) (nx pv : Z) (lk : bool) (h : PageHeader) : PageHeader :=
  mkPageHeader (page_id h) (table_id h) t (free_space_offset h) (free_space_end h)
    (record_count h) (slot_count h) nx pv (parent_page_id h)
    (checksum h) (lsn h) (is_dirty h) lk (padding h).

(** ** Setters *)

Definition with_header (f : PageHeader → PageHeader) (p : Page) : Page :=
  mkPage (f (header p)) (pdata p).
Definition markDirty (p : Page) : Page := with_header (set_dirty_flag true) p.
Definition clearDirty (p : Page) : Page := with_header (set_dirty_flag false) p.
Definition setType (t : PageType) (p : Page) : Page :=
  markDirty (with_header (λ h, set_links t (next_page_id h) (prev_page_id h) (is_locked h) h) p).
Definition setNextPage (pid : Z) (p : Page) : Page :=
  markDirty (with_header (λ h, set_links (ptype h) pid (prev_page_id h) (is_locked h) h) p).
Definition setPrevPage (pid : Z) (p : Page) : Page :=
  markDirty (with_header (λ h, set_links (ptype h) (next_page_id h) pid (is_locked h) h) p).
Definition setLocked (b : bool) (p : Page) : Page :=
  markDirty (with_header (λ h, set_links (ptype h) (next_page_id h) (prev_page_id h) b h) p).
Definition setLSN (l : Z) (p : Page) : Page :=
  markDirty (with_header (set_lsn_field l) p).

(** ** Object representation and checksum *)

Definition header_bytes (h : PageHeader) : list Z :=
  le_bytes 8 (page_id h) ++ le_bytes 4 (table_id h) ++ le_bytes 4 (page_type_code (ptype h))
  ++ le_bytes 2 (free_space_offset h) ++ le_bytes 2 (free_space_end h)
  ++ le_bytes 2 (record_count h) ++ le_bytes 2 (slot_count h)
  ++ le_bytes 8 (next_page_id h) ++ le_bytes 8 (prev_page_id h) ++ le_bytes 8 (parent_page_id h)
  ++ le_bytes 4 (checksum h) ++ le_bytes 4 (lsn h)
  ++ [Z.b2z (is_dirty h); Z.b2z (is_locked h)] ++ padding h.

(** [Page::serialize] *)
Definition page_serialize (p : Page) : list Z := header_bytes (header p) ++ pdata p.

(** The field of [n] bytes at offset [off]. *)
Definition field (bs : list Z) (off n : nat) : Z := le_value (take n (drop off bs)).

Definition bytes_header (bs : list Z) : PageHeader :=
  mkPageHeader (field bs 0 8) (field bs 8 4) (code_page_type (field bs 12 4))
    (field bs 16 2) (field bs 18 2) (field bs 20 2) (field bs 22 2)
    (field bs 24 8) (field bs 32 8) (field bs 40 8) (field bs 48 4) (field bs 52 4)
    (negb (field bs 56 1 =? 0)) (negb (field bs 57 1 =? 0)) (take 6 (drop 58 bs)).

(** [Page::deserialize], of a buffer of at least [PAGE_SIZE] bytes. *)
Definition page_deserialize (buf : list Z) : Page :=
  clearDirty (mkPage (bytes_header (take (Z.to_nat HEADER_SIZE) buf))
    (take (Z.to_nat (PAGE_SIZE - HEADER_SIZE)) (drop (Z.to_nat HEADER_SIZE) buf))).

(** The [uint32_t] words of an object. *)
Fixpoint words (fuel : nat) (bs : list Z) : list Z :=
  match fuel with
  | O => []
  | S fuel' => le_value (take 4 bs) :: words fuel' (drop 4 bs)
  end.

Definition calculateChecksum (p : Page) : Z :=
  foldl Z.lxor 0 (words (Z.to_nat (PAGE_SIZE / 4)) (page_serialize p)).

Definition verifyChecksum (p : Page) : bool :=
  let expected := checksum (header p) in
  let actual := calculateChecksum (with_header (set_checksum 0) p) in
  expected =? actual.

(** [Page::Page(id, table)]: the object is zeroed, then the header is filled. *)
Definition Page_new (id table : Z) : Page :=
  let fso := wrap 16 (HEADER_SIZE + MAX_SLOTS * SLOT_SIZE) in
  let p := mkPage
    (mkPageHeader id table PageType.DATA_PAGE fso (wrap 16 PAGE_SIZE) 0 0
      INVALID_PAGE_ID INVALID_PAGE_ID INVALID_PAGE_ID 0 0 false false (replicate 6 0))
    (replicate (Z.to_nat (PAGE_SIZE - HEADER_SIZE)) 0) in
  with_header (set_checksum (calculateChecksum p)) p.

(** ** Slots *)

Definition slot_bytes (s : PageSlot) : list Z :=
  le_bytes 2 (slot_offset s) ++ le_bytes 2 (slot_length s)
  ++ le_bytes 2 (slot_flags s) ++ le_bytes 2 (slot_next s).

Definition bytes_slot (bs : list Z) : PageSlot :=
  mkPageSlot (field bs 0 2) (field bs 2 2) (field bs 4 2) (field bs 6 2).

(** [slots[i]] *)
Definition get_slot (dat : list Z) (i : Z) : option PageSlot :=
  bytes_slot <$> read_bytes dat (Z.to_nat (SLOT_SIZE * i)) (Z.to_nat SLOT_SIZE).

Definition set_slot (dat : list Z) (i : Z) (s : PageSlot) : option (list Z) :=
  write_bytes dat (Z.to_nat (SLOT_SIZE * i)) (slot_bytes s).

(** ** Values *)

Definition serializeValue (v : Value) : list Z :=
  le_bytes 1 (type_code (vtype v)) ++ value_payload v.

(** The value at [off] and the number of bytes read. *)
Definition deserializeValue (buf : list Z) (off : nat) : option (Value * nat) :=
  type ← read_le buf off 1;
  let val := set_type (code_type type) Value_null in
  match vtype val with
  | DataType.INTEGER => z ← read_le buf (off + 1) 4; Some (set_data 32 z val, 5%nat)
  | DataType.BIGINT => z ← read_le buf (off + 1) 8; Some (set_data 64 z val, 9%nat)
  | DataType.BOOLEAN => z ← read_le buf (off + 1) 1; Some (set_data 8 z val, 2%nat)
  | DataType.VARCHAR =>
      sl ← read_varchar buf (off + 1); Some (set_str sl.1 val, (5 + sl.2)%nat)
  | _ => Some (val, 1%nat)
  end.

Definition getValueSize (v : Value) : Z := 1 + Z.of_nat (payload_size v).

(** ** Space *)

(** [free_space_end - free_space_offset] is an [int], converted to [size_t]. *)
Definition getFreeSpace (p : Page) : Z :=
  wrap 64 (free_space_end (header p) - free_space_offset (header p)).

Definition hasSpaceFor (p : Page) (record_size : Z) : bool :=
  record_size + SLOT_SIZE <=? getFreeSpace p.

Definition isEmpty (p : Page) : bool := record_count (header p) =? 0.
Definition isFull (p : Page) : bool := getFreeSpace p <? 64.

(** ** Operations on records *)

(** Every field is counted with a 2-byte size that [serializeValue] does not write. *)
Definition record_bytes_size (record : list Value) : Z :=
  foldl (λ size v, size + 2 + getValueSize v) 0 record.

Definition make_rid (page slot : Z) : Z := Z.lor (wrap 64 (Z.shiftl page 32)) slot.
Definition rid_slot (rid : Z) : Z := Z.land rid 65535.

(** [getRecordData(offset)]: the index in [data_], if it is not before it. *)
Definition record_pos (offset : Z) : option nat :=
  if decide (HEADER_SIZE ≤ offset) then Some (Z.to_nat (offset - HEADER_SIZE)) else None.

Definition insertRecord (p : Page) (record : list Value) : option (Page * option Z) :=
  let record_size := record_bytes_size record in
  if negb (hasSpaceFor p record_size) then Some (p, None)
  else
    let h := header p in
    let slot_pos := record_count h in
    let record_offset := wrap 16 (free_space_end h - record_size) in
    pos ← record_pos record_offset;
    dat ← write_bytes (pdata p) pos (concat (map serializeValue record));
    dat ← set_slot dat slot_pos
            (mkPageSlot record_offset (wrap 16 record_size) 0 0);
    let h' := set_lsn_field 0 (set_dirty_flag true
                (set_space (wrap 16 (free_space_offset h + SLOT_SIZE)) record_offset
                   (wrap 16 (record_count h + 1)) h)) in
    Some (mkPage h' dat, Some (make_rid (page_id h) slot_pos)).

(** The reading loop from [pos] to [stop]: every value consumes a byte or more,
    so [stop - pos] steps are enough. *)
Fixpoint read_values (fuel : nat) (buf : list Z) (pos stop : nat) : option (list Value) :=
  if decide (pos < stop)%nat then
    match fuel with
    | O => None
    | S fuel' =>
        vn ← deserializeValue buf pos;
        vs ← read_values fuel' buf (pos + vn.2) stop;
        Some (vn.1 :: vs)
    end
  else Some [].

Definition slot_dead (s : PageSlot) : bool :=
  (slot_length s =? 0) || negb (Z.land (slot_flags s) 1 =? 0).

(** [Some None] is [false]. *)
Definition getRecord (p : Page) (rid : Z) : option (option (list Value)) :=
  let slot_pos := rid_slot rid in
  if record_count (header p) <=? slot_pos then Some None
  else
    slot ← get_slot (pdata p) slot_pos;
    if slot_dead slot then Some None
    else
      pos ← record_pos (slot_offset slot);
      let stop := (pos + Z.to_nat (slot_length slot))%nat in
      Some <$> read_values (stop - pos) (pdata p) pos stop.

Definition deleteRecord (p : Page) (rid : Z) : option (Page * bool) :=
  let slot_pos := rid_slot rid in
  if record_count (header p) <=? slot_pos then Some (p, false)
  else
    slot ← get_slot (pdata p) slot_pos;
    dat ← set_slot (pdata p) slot_pos
            (mkPageSlot (slot_offset slot) (slot_length slot) (Z.lor (slot_flags slot) 1) 0);
    Some (mkPage (set_dirty_flag true (header p)) dat, true).

Definition updateRecord (p : Page) (rid : Z) (record : list Value) : option (Page * bool) :=
  old ← getRecord p rid;
  match old with
  | None => Some (p, false)
  | Some _ =>
      d ← deleteRecord p rid;
      if negb d.2 then Some (d.1, false)
      else
        i ← insertRecord d.1 record;
        Some (i.1, bool_decide (is_Some i.2))
  end.

(** The vector of rids grows by the ones inserted; the count is its growth. *)
Fixpoint insertRecords (p : Page) (records : list (list Value)) : option (Page * list Z) :=
  match records with
  | [] => Some (p, [])
  | record :: records' =>
      r ← insertRecord p record;
      match r.2 with
      | None => Some (r.1, [])
      | Some rid =>
          rest ← insertRecords r.1 records';
          Some (rest.1, rid :: rest.2)
      end
  end.

(** [getRecord] is called for the live slots only; its [false] would push an
    empty record. *)
Fixpoint getRecords_loop (fuel : nat) (p : Page) (i : Z) : option (list (list Value)) :=
  match fuel with
  | O => Some []
  | S fuel' =>
      slot ← get_slot (pdata p) i;
      if slot_dead slot then getRecords_loop fuel' p (i + 1)
      else
        r ← getRecord p (make_rid (page_id (header p)) i);
        rest ← getRecords_loop fuel' p (i + 1);
        Some (default [] r :: rest)
  end.
Definition getRecords (p : Page) : option (list (list Value)) :=
  getRecords_loop (Z.to_nat (record_count (header p))) p 0.

Fixpoint deleteRecords (p : Page) (rids : list Z) : option (Page * nat) :=
  match rids with
  | [] => Some (p, 0%nat)
  | rid :: rids' =>
      d ← deleteRecord p rid;
      rest ← deleteRecords d.1 rids';
      Some (rest.1, ((if (d.2 : bool) then 1 else 0) + rest.2)%nat)
  end.

(** ** compactify *)

(** The copying loop: the temporary buffer has [DATA_SIZE] bytes. *)
Fixpoint compactify_loop (fuel : nat) (dat temp : list Z) (temp_offset i : Z)
  : option (list Z * list Z * Z) :=
  match fuel with
  | O => Some (dat, temp, temp_offset)
  | S fuel' =>
      slot ← get_slot dat i;
      if slot_dead slot then compactify_loop fuel' dat temp temp_offset (i + 1)
      else
        pos ← record_pos (slot_offset slot);
        bytes ← read_bytes dat pos (Z.to_nat (slot_length slot));
        temp' ← write_bytes temp (Z.to_nat temp_offset) bytes;
        let off := wrap 16 (HEADER_SIZE + MAX_SLOTS * SLOT_SIZE + temp_offset) in
        dat' ← set_slot dat i
                 (mkPageSlot off (slot_length slot) (slot_flags slot) (slot_next slot));
        compactify_loop fuel' dat' temp' (temp_offset + slot_length slot) (i + 1)
  end.

Definition compactify (p : Page) : option Page :=
  let h := header p in
  r ← compactify_loop (Z.to_nat (record_count h)) (pdata p)
        (replicate (Z.to_nat DATA_SIZE) 0) 0 0;
  let '(dat, temp, temp_offset) := r in
  bytes ← read_bytes temp 0 (Z.to_nat temp_offset);
  dat' ← write_bytes dat (Z.to_nat (MAX_SLOTS * SLOT_SIZE)) bytes;
  let fso := wrap 16 (HEADER_SIZE + MAX_SLOTS * SLOT_SIZE + temp_offset) in
  Some (mkPage (set_dirty_flag true (set_space fso (wrap 16 PAGE_SIZE) (record_count h) h)) dat').

(** ** Well-formed pages *)

(** Every field of the header is in the range of its C++ type. *)
Record header_wf (h : PageHeader) : Prop := mk_header_wf {
  wf_page_id : fits 64 (page_id h);
  wf_table_id : fits 32 (table_id h);
  wf_ptype : fits 32 (page_type_code (ptype h)) ∧
             code_page_type (page_type_code (ptype h)) = ptype h;
  wf_fso : fits 16 (free_space_offset h);
  wf_fse : fits 16 (free_space_end h);
  wf_record_count : fits 16 (record_count h);
  wf_slot_count : fits 16 (slot_count h);
  wf_next : fits 64 (next_page_id h);
  wf_prev : fits 64 (prev_page_id h);
  wf_parent : fits 64 (parent_page_id h);
  wf_checksum : fits 32 (checksum h);
  wf_lsn : fits 32 (lsn h);
  wf_padding : length (padding h) = 6%nat ∧ Forall byte_ok (padding h)
}.

Definition page_wf (p : Page) : Prop :=
  header_wf (header p) ∧ length (pdata p) = 4032%nat ∧ Forall byte_ok (pdata p).

(** The layout the operations maintain: the slot array ends before the free
    space, the free space before the records, and every slot in use points to a
    range of the record area. *)
Record page_ok (p : Page) : Prop := mk_page_ok {
  ok_wf : page_wf p;
  ok_space : HEADER_SIZE + SLOT_SIZE * record_count (header p) ≤ free_space_offset (header p)
             ≤ free_space_end (header p);
  ok_end : free_space_end (header p) ≤ PAGE_SIZE;
  ok_slots : ∀ i, 0 ≤ i < record_count (header p) →
    ∃ s, get_slot (pdata p) i = Some s ∧
         free_space_end (header p) ≤ slot_offset s ∧ slot_offset s + slot_length s ≤ PAGE_SIZE
}.

(** ** Object representation *)

Lemma length_header_bytes h : length (padding h) = 6%nat → length (header_bytes h) = 64%nat.
Proof.
  intros Hp. unfold header_bytes. rewrite !length_app. autorewrite with orange_rw.
  simpl length. lia.
Qed.

Lemma bytes_header_bytes h : header_wf h → bytes_header (header_bytes h) = h.
Proof.
  intros []. destruct h as [pid tid pt fso fse rc sc nx pv pa ck ls di lo pad]; simpl in *.
  unfold bytes_header.
  change (field (header_bytes _) 0 8) with (le_value (le_bytes 8 pid)).
  change (field (header_bytes _) 8 4) with (le_value (le_bytes 4 tid)).
  change (field (header_bytes _) 12 4) with (le_value (le_bytes 4 (page_type_code pt))).
  change (field (header_bytes _) 16 2) with (le_value (le_bytes 2 fso)).
  change (field (header_bytes _) 18 2) with (le_value (le_bytes 2 fse)).
  change (field (header_bytes _) 20 2) with (le_value (le_bytes 2 rc)).
  change (field (header_bytes _) 22 2) with (le_value (le_bytes 2 sc)).
  change (field (header_bytes _) 24 8) with (le_value (le_bytes 8 nx)).
  change (field (header_bytes _) 32 8) with (le_value (le_bytes 8 pv)).
  change (field (header_bytes _) 40 8) with (le_value (le_bytes 8 pa)).
  change (field (header_bytes _) 48 4) with (le_value (le_bytes 4 ck)).
  change (field (header_bytes _) 52 4) with (le_value (le_bytes 4 ls)).
  change (take 6 (drop 58 (header_bytes _))) with (take 6 pad).
  change (field (header_bytes _) 56 1) with (Z.b2z di + 256 * 0).
  change (field (header_bytes _) 57 1) with (Z.b2z lo + 256 * 0).
  destruct wf_ptype0 as [Hc Ht], wf_padding0 as [Hpl _].
  rewrite !le_value_bytes_fits by assumption. rewrite Ht, take_ge by lia.
  by destruct di, lo.
Qed.

Lemma page_reload p : page_wf p → page_deserialize (page_serialize p) = clearDirty p.
Proof.
  intros (Hh & Hl & _). unfold page_deserialize, page_serialize.
  assert (length (header_bytes (header p)) = Z.to_nat HEADER_SIZE) as Hlen
    by (apply length_header_bytes, wf_padding; done).
  rewrite take_app_length' by done. rewrite drop_app_length' by done.
  rewrite take_ge by (rewrite Hl; done).
  rewrite bytes_header_bytes by done. by destruct p.
Qed.

(** Disk round trip of a page: reading back what [serialize] wrote gives
    the same header and data, with the dirty flag cleared. *)
Theorem page_serialize_roundtrip p :
  page_wf p → page_deserialize (page_serialize p) = clearDirty p.
Proof. apply page_reload. Qed.

(** ** Checksum *)

Lemma foldl_lxor_fits w acc l :
  0 ≤ w → fits w acc → Forall (fits w) l → fits w (foldl Z.lxor acc l).
Proof.
  intros Hw Ha Hl. revert acc Ha. induction Hl; intros acc Ha; simpl; auto using lxor_fits.
Qed.

Lemma words_fits fuel bs : Forall byte_ok bs → Forall (fits 32) (words fuel bs).
Proof.
  revert bs. induction fuel as [|fuel IH]; intros bs Hb; simpl; constructor.
  - pose proof (le_value_bound (take 4 bs) ltac:(by apply Forall_take)) as [? Hlt].
    split; [done|]. eapply Z.lt_le_trans; [exact Hlt|].
    apply Z.pow_le_mono_r; [lia|]. rewrite length_take. lia.
  - apply IH. by apply Forall_drop.
Qed.

Lemma header_bytes_ok h : header_wf h → Forall byte_ok (header_bytes h).
Proof.
  intros Hh. unfold header_bytes. rewrite !Forall_app.
  split_and!; auto with orange; [|by apply wf_padding].
  repeat constructor; unfold byte_ok; destruct (is_dirty h), (is_locked h); simpl; lia.
Qed.

Lemma calculateChecksum_fits p : page_wf p → fits 32 (calculateChecksum p).
Proof.
  intros (Hh & _ & Hd). unfold calculateChecksum. generalize (Z.to_nat (PAGE_SIZE / 4)).
  intros n. apply foldl_lxor_fits; [lia|unfold fits; lia|]. apply words_fits.
  apply Forall_app. auto using header_bytes_ok.
Qed.

Lemma foldl_lxor_acc acc l : foldl Z.lxor acc l = Z.lxor acc (foldl Z.lxor 0 l).
Proof.
  revert acc. induction l as [|x l IH]; intros acc; simpl; [by rewrite Z.lxor_0_r|].
  rewrite Z.lxor_0_l, (IH (Z.lxor acc x)), (IH x). apply Z.lxor_assoc.
Qed.

Lemma foldl_lxor_insert l k w w' :
  l !! k = Some w →
  foldl Z.lxor 0 (<[k:=w']> l) = Z.lxor (foldl Z.lxor 0 l) (Z.lxor w w').
Proof.
  revert k. induction l as [|x l IH]; intros [|k] Hk; simplify_eq/=;
    rewrite ?Z.lxor_0_l.
  - rewrite (foldl_lxor_acc w'), (foldl_lxor_acc w).
    rewrite (Z.lxor_comm w (foldl _ _ _)), Z.lxor_assoc, <- (Z.lxor_assoc w w w'),
      Z.lxor_nilpotent, Z.lxor_0_l. apply Z.lxor_comm.
  - rewrite (foldl_lxor_acc x (<[k:=w']> l)), (foldl_lxor_acc x l), (IH k) by done.
    by rewrite Z.lxor_assoc.
Qed.

(** Overwriting one aligned word changes one word of the checksum's input. *)
Lemma words_update fuel bs k (w' : list Z) :
  length w' = 4%nat → (4 * k + 4 ≤ length bs)%nat → (k < fuel)%nat →
  words fuel (take (4 * k) bs ++ w' ++ drop (4 * k + 4) bs) =
  <[k:=le_value w']> (words fuel bs).
Proof.
  intros Hw. revert bs k. induction fuel as [|fuel IH]; intros bs k Hb Hk; [lia|].
  destruct k as [|k].
  - cbn [words]. simpl (4 * 0)%nat. rewrite take_0. cbn [app insert list_insert].
    rewrite take_app_length', drop_app_length' by done. done.
  - cbn [words list_insert insert]. f_equal.
    + rewrite take_app_le, take_take by (rewrite length_take; lia). do 2 f_equal. lia.
    + rewrite drop_app_le by (rewrite length_take; lia).
      rewrite <- IH by (rewrite ?length_drop; lia). do 2 f_equal.
      * rewrite skipn_firstn_comm. f_equal. lia.
      * f_equal. rewrite drop_drop. f_equal. lia.
Qed.

Lemma words_lookup fuel bs k :
  (k < fuel)%nat → words fuel bs !! k = Some (le_value (take 4 (drop (4 * k) bs))).
Proof.
  revert bs k. induction fuel as [|fuel IH]; intros bs [|k] Hk; try lia; [done|].
  cbn [words lookup list_lookup]. rewrite IH, drop_drop by lia. do 4 f_equal. lia.
Qed.

(** ** The constructor and the setters give well-formed pages *)

Lemma fits_refl_max w : 0 < w → fits w (2 ^ w - 1).
Proof. intros. unfold fits. lia. Qed.

Lemma header_wf_dirty d h : header_wf h → header_wf (set_dirty_flag d h).
Proof. intros []. by constructor. Qed.

Lemma header_wf_checksum c h : fits 32 c → header_wf h → header_wf (set_checksum c h).
Proof. intros ? []. by constructor. Qed.

Lemma header_wf_lsn l h : fits 32 l → header_wf h → header_wf (set_lsn_field l h).
Proof. intros ? []. by constructor. Qed.

Lemma header_wf_links t nx pv lk h :
  fits 32 (page_type_code t) ∧ code_page_type (page_type_code t) = t →
  fits 64 nx → fits 64 pv → header_wf h → header_wf (set_links t nx pv lk h).
Proof. intros ??? []. by constructor. Qed.

Lemma header_wf_space fso fse rc h :
  fits 16 fso → fits 16 fse → fits 16 rc → header_wf h → header_wf (set_space fso fse rc h).
Proof. intros ??? []. by constructor. Qed.

#[export] Hint Resolve header_wf_dirty header_wf_checksum header_wf_lsn header_wf_links
  header_wf_space wf_page_id wf_table_id wf_ptype wf_next wf_prev : orange.

Lemma page_wf_header f p : header_wf (f (header p)) → page_wf p → page_wf (with_header f p).
Proof. intros Hf (_ & ? & ?). done. Qed.

Lemma Page_new_wf id table : fits 64 id → fits 32 table → page_wf (Page_new id table).
Proof.
  intros Hid Ht. unfold Page_new.
  match goal with |- page_wf (with_header _ ?p) => set (q := p) end.
  assert (page_wf q) as Hq.
  { split; [|split]; unfold q; cbn [header pdata].
    - constructor; cbn -[replicate]; try done; try (unfold fits; lia).
      rewrite length_replicate. split; [done|]. by apply Forall_replicate.
    - by rewrite length_replicate.
    - by apply Forall_replicate. }
  apply page_wf_header; [|done].
  apply header_wf_checksum; [by apply calculateChecksum_fits|apply Hq].
Qed.

Lemma setNextPage_wf pid p : fits 64 pid → page_wf p → page_wf (setNextPage pid p).
Proof.
  intros Hpid Hp. pose proof (proj1 Hp). unfold setNextPage, markDirty.
  do 2 (apply page_wf_header; [simpl; auto 10 with orange|]). done.
Qed.

Lemma page_serialize_roundtrip_witness :
  page_deserialize (page_serialize (setNextPage 7 (Page_new 3 1))) =
  clearDirty (setNextPage 7 (Page_new 3 1)).
Proof.
  apply (page_serialize_roundtrip (setNextPage 7 (Page_new 3 1))).
  apply setNextPage_wf, Page_new_wf; split; lia.
Defined.
