(* ===== verification/PageProofs.v ===== *)
(** * PageProofs: correctness of the slotted page

    The checksum, the safety of the record operations on a page that respects
    the layout [page_ok], what each operation does to the records, and the
    pages that can be reached from a new one. *)

From S2P Require Import Prelude CxxString Types Record Page.

Open Scope Z_scope.

(** ** Checksum *)

Lemma data_word_bytes h dat dat' k w :
  header_wf h → length dat = 4032%nat → length w = 4%nat → (k < 1008)%nat →
  write_bytes dat (4 * k) w = Some dat' →
  page_serialize (mkPage h dat') =
  take (4 * (k + 16)) (page_serialize (mkPage h dat)) ++ w
  ++ drop (4 * (k + 16) + 4) (page_serialize (mkPage h dat)).
Proof.
  intros Hh Hl Hw Hk [_ ->]%write_bytes_Some. unfold page_serialize. cbn [header pdata].
  assert (length (header_bytes h) = 64%nat) as Hlen by (apply length_header_bytes, Hh).
  rewrite take_app_ge, drop_app_ge by lia. rewrite Hlen, Hw, <- app_assoc.
  do 2 f_equal; [f_equal; lia|]. f_equal. f_equal. lia.
Qed.

Lemma checksum_data_word h dat dat' k w old :
  header_wf h → length dat = 4032%nat → length w = 4%nat → (k < 1008)%nat →
  read_bytes dat (4 * k) 4 = Some old → write_bytes dat (4 * k) w = Some dat' →
  calculateChecksum (mkPage h dat') =
  Z.lxor (calculateChecksum (mkPage h dat)) (Z.lxor (le_value old) (le_value w)).
Proof.
  intros Hh Hl Hw Hk [_ ->]%read_bytes_Some Hwr. unfold calculateChecksum.
  assert (Z.to_nat (PAGE_SIZE / 4) = 1024%nat) as -> by done.
  assert (length (header_bytes h) = 64%nat) as Hlen by (apply length_header_bytes, Hh).
  rewrite (data_word_bytes h dat dat' k w) by done.
  rewrite words_update; [|done|unfold page_serialize; cbn [header pdata]; rewrite length_app; lia|lia].
  rewrite (foldl_lxor_insert _ _ (le_value (take 4 (drop (4 * k) dat)))); [done|].
  rewrite words_lookup by lia. unfold page_serialize. cbn [header pdata].
  rewrite drop_app_ge by lia. do 4 f_equal. lia.
Qed.

(** Error detection of the checksum: on a page whose checksum verifies,
    overwriting any aligned 4-byte word of the data by a different word makes
    [verifyChecksum] false. *)
Theorem checksum_detects_word p k w old dat' :
  page_wf p → verifyChecksum p = true → (k < 1008)%nat →
  length w = 4%nat → Forall byte_ok w →
  read_bytes (pdata p) (4 * k) 4 = Some old → w ≠ old →
  write_bytes (pdata p) (4 * k) w = Some dat' →
  verifyChecksum (mkPage (header p) dat') = false.
Proof.
  intros (Hh & Hl & Hb) Hv Hk Hw Hwok Hold Hne Hwr.
  unfold verifyChecksum in *. cbn [header] in *. apply Z.eqb_eq in Hv. apply Z.eqb_neq.
  unfold with_header in *. cbn [header pdata] in *.
  assert (header_wf (set_checksum 0 (header p))) as Hh0
    by (apply header_wf_checksum; [unfold fits; lia|exact Hh]).
  rewrite (checksum_data_word _ (pdata p) dat' k w old) by assumption.
  rewrite <- Hv. intros Heq. apply Hne.
  assert (Z.lxor (le_value old) (le_value w) = 0) as Hx.
  { rewrite <- (Z.lxor_0_l (Z.lxor _ _)), <- (Z.lxor_nilpotent (checksum (header p))),
      Z.lxor_assoc, <- Heq. by rewrite Z.lxor_nilpotent. }
  apply Z.lxor_eq in Hx. pose proof (read_bytes_length _ _ _ _ Hold) as Hol.
  rewrite <- (le_bytes_value w), <- (le_bytes_value old), Hx by
    eauto using Forall_read_bytes. by rewrite Hw, Hol.
Qed.

(** A new page verifies its checksum: it was computed with the field at zero. *)
Lemma Page_new_verifies id table : verifyChecksum (Page_new id table) = true.
Proof. unfold verifyChecksum, Page_new. apply Z.eqb_refl. Qed.

Lemma checksum_detects_word_witness :
  verifyChecksum (mkPage (header (Page_new 3 1))
    (take 8 (pdata (Page_new 3 1)) ++ [1; 0; 0; 0] ++ drop 12 (pdata (Page_new 3 1)))) = false.
Proof.
  assert (length (pdata (Page_new 3 1)) = 4032%nat) as Hl
    by (apply (Page_new_wf 3 1); unfold fits; lia).
  apply (checksum_detects_word (Page_new 3 1) 2 [1; 0; 0; 0] [0; 0; 0; 0]).
  - apply Page_new_wf; unfold fits; lia.
  - apply Page_new_verifies.
  - lia.
  - done.
  - repeat constructor; unfold byte_ok; lia.
  - apply read_bytes_Some. split; [rewrite Hl; lia|reflexivity].
  - done.
  - apply write_bytes_Some. split; [rewrite Hl; simpl; lia|reflexivity].
Defined.

(** ** Slots *)

Definition slot_wf (s : PageSlot) : Prop :=
  fits 16 (slot_offset s) ∧ fits 16 (slot_length s) ∧ fits 16 (slot_flags s) ∧ fits 16 (slot_next s).

Lemma length_slot_bytes s : length (slot_bytes s) = 8%nat.
Proof. unfold slot_bytes. by rewrite !length_app, !length_le_bytes. Qed.

Lemma bytes_slot_bytes s : slot_wf s → bytes_slot (slot_bytes s) = s.
Proof.
  intros (Ho & Hl & Hf & Hn). destruct s as [o l f n]; simpl in *. unfold bytes_slot.
  change (field (slot_bytes _) 0 2) with (le_value (le_bytes 2 o)).
  change (field (slot_bytes _) 2 2) with (le_value (le_bytes 2 l)).
  change (field (slot_bytes _) 4 2) with (le_value (le_bytes 2 f)).
  change (field (slot_bytes _) 6 2) with (le_value (le_bytes 2 n)).
  by rewrite !le_value_bytes_fits.
Qed.

Lemma slot_bytes_ok s : Forall byte_ok (slot_bytes s).
Proof. unfold slot_bytes. rewrite !Forall_app. auto with orange. Qed.

Lemma field_fits (bs : list Z) off n w :
  Forall byte_ok bs → w = 8 * Z.of_nat n → fits w (field bs off n).
Proof.
  intros Hb ->. unfold field.
  pose proof (le_value_bound (take n (drop off bs)) ltac:(auto using Forall_take, Forall_drop))
    as [? Hlt]. split; [done|]. eapply Z.lt_le_trans; [exact Hlt|].
  apply Z.pow_le_mono_r; [lia|]. rewrite length_take. lia.
Qed.

Lemma get_slot_wf dat i s : Forall byte_ok dat → get_slot dat i = Some s → slot_wf s.
Proof.
  unfold get_slot. intros Hb (bs & Hr & ->)%fmap_Some_1.
  eapply Forall_read_bytes in Hr; [|exact Hb].
  split_and!; by apply (field_fits bs).
Qed.

Lemma get_slot_total dat i : 0 ≤ i → 8 * i + 8 ≤ Z.of_nat (length dat) → is_Some (get_slot dat i).
Proof.
  intros Hi Hl. unfold get_slot, read_bytes, SLOT_SIZE. rewrite decide_True by lia. simpl. eauto.
Qed.

Lemma set_slot_total dat i s :
  0 ≤ i → 8 * i + 8 ≤ Z.of_nat (length dat) → is_Some (set_slot dat i s).
Proof.
  intros Hi Hl. apply write_bytes_total. rewrite length_slot_bytes. unfold SLOT_SIZE. lia.
Qed.

Lemma get_set_slot_same dat i s dat' :
  slot_wf s → set_slot dat i s = Some dat' → get_slot dat' i = Some s.
Proof.
  intros Hs Hw. apply read_write_same in Hw. rewrite length_slot_bytes in Hw.
  unfold get_slot. change (Z.to_nat SLOT_SIZE) with 8%nat. rewrite Hw. simpl.
  by rewrite bytes_slot_bytes.
Qed.

Lemma get_set_slot_other dat i j s dat' :
  0 ≤ i → 0 ≤ j → i ≠ j → set_slot dat i s = Some dat' → get_slot dat' j = get_slot dat j.
Proof.
  intros Hi Hj Hij Hw. unfold get_slot. f_equal. eapply read_write_disjoint; [exact Hw|].
  rewrite length_slot_bytes. unfold SLOT_SIZE. lia.
Qed.

Lemma set_slot_length dat i s dat' : set_slot dat i s = Some dat' → length dat' = length dat.
Proof. apply write_bytes_length. Qed.

Lemma set_slot_ok dat i s dat' :
  set_slot dat i s = Some dat' → Forall byte_ok dat → Forall byte_ok dat'.
Proof. intros Hw ?. eapply Forall_write_bytes; eauto using slot_bytes_ok. Qed.

(** ** Reading is local: it looks only at the bytes from its position on *)

Definition agree_from (n : nat) (b1 b2 : list Z) : Prop :=
  ∀ off k, (n ≤ off)%nat → read_bytes b1 off k = read_bytes b2 off k.

Lemma agree_from_write dat off src dat' n :
  write_bytes dat off src = Some dat' → (off + length src ≤ n)%nat → agree_from n dat' dat.
Proof. intros Hw Hn o k Ho. eapply read_write_disjoint; [exact Hw|]. lia. Qed.

Lemma agree_from_trans n b1 b2 b3 : agree_from n b1 b2 → agree_from n b2 b3 → agree_from n b1 b3.
Proof. intros H12 H23 off k Ho. by rewrite H12, H23. Qed.

Lemma agree_from_le n m b1 b2 : (n ≤ m)%nat → agree_from n b1 b2 → agree_from m b1 b2.
Proof. intros Hnm H12 off k Ho. apply H12. lia. Qed.

Lemma deserializeValue_agree n b1 b2 off :
  agree_from n b1 b2 → (n ≤ off)%nat → deserializeValue b1 off = deserializeValue b2 off.
Proof.
  intros Ha Hn. unfold deserializeValue, read_le, read_varchar. rewrite (Ha off) by lia.
  destruct (read_bytes b2 off 1) as [tb|]; [|done]. cbn [fmap option_fmap option_map mbind option_bind].
  destruct (vtype _); try done; rewrite (Ha (off + 1)%nat) by lia; try done.
  destruct (read_bytes b2 (off + 1) 4) as [lb|]; [|done]. simpl. by rewrite Ha by lia.
Qed.

Lemma read_values_agree fuel n b1 b2 pos stop :
  agree_from n b1 b2 → (n ≤ pos)%nat →
  read_values fuel b1 pos stop = read_values fuel b2 pos stop.
Proof.
  intros Ha. revert pos. induction fuel as [|fuel IH]; intros pos Hn; simpl; [done|].
  case_decide; [|done]. rewrite (deserializeValue_agree n b1 b2) by done.
  destruct (deserializeValue b2 pos) as [[v k]|]; simpl; [|done].
  by rewrite IH by lia.
Qed.

(** ** insertRecord *)

Lemma value_payload_length_le v : (length (value_payload v) ≤ payload_size v)%nat.
Proof.
  unfold value_payload, payload_size. destruct (vtype v);
    rewrite ?length_app, ?length_take, ?length_le_bytes, ?length_string_bytes; simpl length; lia.
Qed.

Lemma record_bytes_size_acc record acc :
  foldl (λ size v, size + 2 + getValueSize v) acc record =
  acc + 3 * Z.of_nat (length record) + Z.of_nat (total_payload record).
Proof.
  revert acc. induction record as [|v record IH]; intros acc; simpl; [lia|].
  rewrite IH. unfold getValueSize. lia.
Qed.

Lemma record_bytes_size_eq record :
  record_bytes_size record = 3 * Z.of_nat (length record) + Z.of_nat (total_payload record).
Proof. apply record_bytes_size_acc. Qed.

Lemma length_serializeValue v : length (serializeValue v) = S (length (value_payload v)).
Proof. unfold serializeValue. by rewrite length_app, length_le_bytes. Qed.

Lemma length_serializeValues record :
  Z.of_nat (length (concat (map serializeValue record))) + 2 * Z.of_nat (length record)
  ≤ record_bytes_size record.
Proof.
  rewrite record_bytes_size_eq. induction record as [|v record IH]; [simpl; lia|].
  cbn [map concat length total_payload].
  pose proof (value_payload_length_le v). rewrite length_app, length_serializeValue. lia.
Qed.

Lemma serializeValues_ok record : Forall byte_ok (concat (map serializeValue record)).
Proof.
  induction record as [|v record IH]; [constructor|]. cbn [map concat].
  unfold serializeValue at 1. rewrite !Forall_app. auto using value_payload_ok with orange.
Qed.

(** The page after a successful insertion. *)
Definition inserted (p : Page) (size : Z) (dat : list Z) : Page :=
  let h := header p in
  mkPage (set_lsn_field 0 (set_dirty_flag true
    (set_space (free_space_offset h + 8) (free_space_end h - size) (record_count h + 1) h))) dat.

(** On a page with the layout, an insertion either finds no space and changes
    nothing, or makes its two writes inside the page without overflow. *)
Lemma insertRecord_cases p record :
  page_ok p →
  let h := header p in
  let size := record_bytes_size record in
  (free_space_end h - free_space_offset h < size + 8 ∧ insertRecord p record = Some (p, None)) ∨
  (size + 8 ≤ free_space_end h - free_space_offset h ∧
   ∃ dat dat',
     write_bytes (pdata p) (Z.to_nat (free_space_end h - size - 64))
       (concat (map serializeValue record)) = Some dat ∧
     set_slot dat (record_count h) (mkPageSlot (free_space_end h - size) size 0 0) = Some dat' ∧
     insertRecord p record =
       Some (inserted p size dat', Some (make_rid (page_id h) (record_count h)))).
Proof.
  intros [[Hh [Hl Hb]] Hs He _] h size.
  assert (0 ≤ size) by (unfold size; rewrite record_bytes_size_eq; lia).
  pose proof (wf_record_count _ Hh) as Hrc.
  unfold fits, HEADER_SIZE, SLOT_SIZE, PAGE_SIZE in *. fold h in Hs, He, Hrc.
  assert (getFreeSpace p = free_space_end h - free_space_offset h) as Hf.
  { apply wrap_small. fold h. unfold fits. lia. }
  unfold insertRecord. fold h size. unfold hasSpaceFor. rewrite Hf. unfold SLOT_SIZE.
  destruct (size + 8 <=? _) eqn:Hsp; cbn [negb]; [right|left].
  2:{ apply Z.leb_gt in Hsp. split; [lia|done]. }
  apply Z.leb_le in Hsp. split; [done|].
  pose proof (length_serializeValues record) as Hlen. fold size in Hlen.
  destruct (write_bytes_total (pdata p) (Z.to_nat (free_space_end h - size - 64))
    (concat (map serializeValue record)) ltac:(lia)) as [dat Hdat].
  pose proof (write_bytes_length _ _ _ _ Hdat) as Hl'.
  destruct (set_slot_total dat (record_count h)
    (mkPageSlot (free_space_end h - size) size 0 0) ltac:(lia) ltac:(lia)) as [dat' Hdat'].
  exists dat, dat'. split; [done|split; [done|]].
  rewrite !(wrap_small 16) by (unfold fits; lia).
  unfold record_pos, HEADER_SIZE. rewrite decide_True by lia. cbn [mbind option_bind].
  rewrite Hdat. cbn [mbind option_bind]. rewrite Hdat'. reflexivity.
Qed.

Lemma inserted_ok p record dat dat' :
  page_ok p →
  let h := header p in
  let size := record_bytes_size record in
  size + 8 ≤ free_space_end h - free_space_offset h →
  write_bytes (pdata p) (Z.to_nat (free_space_end h - size - 64))
    (concat (map serializeValue record)) = Some dat →
  set_slot dat (record_count h) (mkPageSlot (free_space_end h - size) size 0 0) = Some dat' →
  page_ok (inserted p size dat').
Proof.
  intros [[Hh [Hl Hb]] Hs He Hslots] h size Hsp Hw1 Hw2.
  assert (0 ≤ size) by (unfold size; rewrite record_bytes_size_eq; lia).
  pose proof (wf_record_count _ Hh) as Hrc. fold h in Hs, He, Hslots, Hrc.
  unfold fits, HEADER_SIZE, SLOT_SIZE, PAGE_SIZE in *.
  constructor; cbn -[get_slot]; fold h.
  - split; [|split]; cbn [header pdata inserted]; fold h.
    + apply header_wf_lsn; [unfold fits; lia|]. apply header_wf_dirty.
      apply header_wf_space; [unfold fits; lia..|exact Hh].
    + erewrite set_slot_length, write_bytes_length; eauto.
    + eapply set_slot_ok; [exact Hw2|].
      eapply Forall_write_bytes; eauto using serializeValues_ok.
  - unfold HEADER_SIZE, SLOT_SIZE. lia.
  - unfold PAGE_SIZE. lia.
  - intros i Hi. destruct (decide (i = record_count h)) as [->|].
    + eexists. split; [eapply get_set_slot_same; [|exact Hw2]|].
      * split_and!; cbn; unfold fits; lia.
      * unfold PAGE_SIZE. cbn. lia.
    + destruct (Hslots i) as (s & Hget & Hlo & Hhi); [lia|].
      exists s. split; [|unfold PAGE_SIZE; lia].
      rewrite (get_set_slot_other dat (record_count h) i _ dat') by (exact Hw2 || lia).
      rewrite <- Hget. unfold get_slot. f_equal. eapply read_write_disjoint; [exact Hw1|].
      unfold SLOT_SIZE. lia.
Qed.

Lemma insertRecord_safe p record :
  page_ok p → ∃ p' rid, insertRecord p record = Some (p', rid) ∧ page_ok p'.
Proof.
  intros Hp. destruct (insertRecord_cases p record Hp)
    as [[_ ->]|(Hsp & dat & dat' & Hw1 & Hw2 & ->)]; [by eauto|].
  eauto using inserted_ok.
Qed.

(** ** Reading back what was written *)

(** What a page keeps of a value: its type and, for the four types that
    [serializeValue] knows, its payload. *)
Definition stored (v : Value) : Value :=
  match vtype v with
  | DataType.INTEGER => mkValue DataType.INTEGER (wrap 32 (data v)) "" []
  | DataType.BIGINT => mkValue DataType.BIGINT (wrap 64 (data v)) "" []
  | DataType.BOOLEAN => mkValue DataType.BOOLEAN (wrap 8 (data v)) "" []
  | DataType.VARCHAR => Value_string (str_val v)
  | t => set_type t Value_null
  end.

(** The value read from a zero byte. *)
Definition zero_value : Value := set_type DataType.UNKNOWN Value_null.

Definition short_value (v : Value) : Prop :=
  enumerator (vtype v) ∧ (vtype v = DataType.VARCHAR → short_string (str_val v)).

(** The payload that follows the type byte. *)
Lemma deserializeValue_type pre t rest :
  enumerator t →
  read_le (pre ++ le_bytes 1 (type_code t) ++ rest) (length pre) 1 = Some (type_code t).
Proof.
  intros Ht. rewrite read_le_app, wrap_small; [done|].
  pose proof (type_code_range t Ht). unfold fits. lia.
Qed.

Lemma deserializeValue_app pre v rest :
  short_value v →
  deserializeValue (pre ++ serializeValue v ++ rest) (length pre) =
  Some (stored v, length (serializeValue v)).
Proof.
  intros [Ht Hs]. rewrite length_serializeValue, value_payload_length by done.
  unfold deserializeValue, serializeValue. rewrite <- app_assoc, deserializeValue_type by done.
  cbn [mbind option_bind]. rewrite code_type_code by done.
  assert (length (pre ++ le_bytes 1 (type_code (vtype v))) = length pre + 1)%nat as Hl
    by by rewrite length_app, length_le_bytes.
  rewrite app_assoc, <- Hl. unfold stored, payload_size.
  destruct v as [t d s b]; cbn [vtype str_val Types.data set_type] in *.
  destruct t; cbn [vtype]; try done;
    try (change (value_payload (mkValue _ d s b)) with (le_bytes 4 d); rewrite read_le_app;
         cbn [mbind option_bind]; rewrite set_data_fresh, wrap_idemp by lia; done);
    try (change (value_payload (mkValue _ d s b)) with (le_bytes 8 d); rewrite read_le_app;
         cbn [mbind option_bind]; rewrite set_data_fresh, wrap_idemp by lia; done);
    try (change (value_payload (mkValue _ d s b)) with (le_bytes 1 d); rewrite read_le_app;
         cbn [mbind option_bind]; rewrite set_data_fresh, wrap_idemp by lia; done).
  change (value_payload (mkValue DataType.VARCHAR d s b)) with (value_payload (Value_string s)).
  by rewrite read_varchar_app by auto.
Qed.

Lemma deserializeValue_zero pre rest :
  deserializeValue (pre ++ 0 :: rest) (length pre) = Some (zero_value, 1%nat).
Proof.
  unfold deserializeValue. change (0 :: rest) with (le_bytes 1 0 ++ rest).
  by rewrite read_le_app.
Qed.

Lemma read_values_zeros m : ∀ fuel pre rest,
  (m ≤ fuel)%nat →
  read_values fuel (pre ++ replicate m 0 ++ rest) (length pre) (length pre + m) =
  Some (replicate m zero_value).
Proof.
  induction m as [|m IH]; intros fuel pre rest Hf.
  - unfold read_values. destruct fuel; rewrite decide_False by lia; done.
  - destruct fuel as [|fuel]; [lia|]. cbn [read_values].
    rewrite decide_True by lia. cbn [replicate app]. rewrite deserializeValue_zero.
    cbn [mbind option_bind snd fst]. specialize (IH fuel (pre ++ [0]) rest ltac:(lia)).
    rewrite <- app_assoc, length_app in IH. cbn [app length] in IH.
    replace (length pre + S m)%nat with (length pre + 1 + m)%nat by lia.
    by rewrite IH.
Qed.

Lemma read_values_record record m : ∀ fuel pre rest,
  Forall short_value record →
  (length (concat (map serializeValue record)) + m ≤ fuel)%nat →
  read_values fuel (pre ++ concat (map serializeValue record) ++ replicate m 0 ++ rest)
    (length pre) (length pre + (length (concat (map serializeValue record)) + m)) =
  Some (map stored record ++ replicate m zero_value).
Proof.
  induction record as [|v record IH]; intros fuel pre rest Hr Hf; [by apply read_values_zeros|].
  apply Forall_cons in Hr as [Hv Hr]. cbn [map concat] in *.
  rewrite length_app in Hf |- *. pose proof (length_serializeValue v) as Hl.
  destruct fuel as [|fuel]; [lia|]. cbn [read_values]. rewrite decide_True by lia.
  rewrite <- app_assoc, deserializeValue_app by done. cbn [mbind option_bind fst snd].
  specialize (IH fuel (pre ++ serializeValue v) rest Hr ltac:(lia)).
  rewrite <- app_assoc, length_app in IH.
  replace (length pre + (length (serializeValue v) +
    length (concat (map serializeValue record)) + m))%nat
    with (length pre + length (serializeValue v) +
      (length (concat (map serializeValue record)) + m))%nat by lia.
  by rewrite IH.
Qed.

(** A record id holds the page in its high half and the slot in the low 16 bits. *)
Lemma rid_slot_make page slot : fits 16 slot → rid_slot (make_rid page slot) = slot.
Proof.
  intros Hs. unfold rid_slot, make_rid. change 65535 with (Z.ones 16).
  rewrite Z.land_lor_distr_l, !Z.land_ones by lia.
  rewrite (Z.mod_small slot) by apply Hs. rewrite Z.shiftl_mul_pow2 by lia. unfold wrap.
  replace (2 ^ 64) with (2 ^ 32 * 2 ^ 32) by done. rewrite Z.mul_mod_distr_r by lia.
  replace (page mod 2 ^ 32 * 2 ^ 32) with (page mod 2 ^ 32 * 2 ^ 16 * 2 ^ 16) by lia.
  by rewrite Z.mod_mul by lia.
Qed.

Lemma fits_short_strings record :
  Forall (λ v, enumerator (vtype v)) record → record_bytes_size record < 2 ^ 32 →
  Forall short_value record.
Proof.
  intros He Hs. rewrite record_bytes_size_eq in Hs.
  induction He as [|v record Hv He IH]; constructor; cbn [length total_payload] in Hs.
  - split; [done|]. intros Ht. unfold short_string. unfold payload_size in Hs.
    rewrite Ht in Hs. lia.
  - apply IH. lia.
Qed.

Lemma length_serializeValues_exact record :
  Forall short_value record →
  Z.of_nat (length (concat (map serializeValue record))) + 2 * Z.of_nat (length record)
  = record_bytes_size record.
Proof.
  rewrite record_bytes_size_eq. induction 1 as [|v record Hv Hr IH]; [done|].
  cbn [map concat length total_payload].
  rewrite length_app, length_serializeValue, value_payload_length by apply Hv. lia.
Qed.

Lemma getRecord_live p rid slot :
  rid_slot rid < record_count (header p) → get_slot (pdata p) (rid_slot rid) = Some slot →
  slot_dead slot = false → HEADER_SIZE ≤ slot_offset slot →
  getRecord p rid =
  Some <$> read_values (Z.to_nat (slot_length slot)) (pdata p)
    (Z.to_nat (slot_offset slot - HEADER_SIZE))
    (Z.to_nat (slot_offset slot - HEADER_SIZE) + Z.to_nat (slot_length slot)).
Proof.
  intros Hlt Hget Hd Ho. unfold getRecord. rewrite (proj2 (Z.leb_gt _ _)) by done.
  rewrite Hget. cbn [mbind option_bind]. rewrite Hd. unfold record_pos.
  rewrite decide_True by done. cbn [mbind option_bind]. f_equal. f_equal. lia.
Qed.

(** The zero bytes at the end of the free space that a record of [n] fields
    takes without writing them. *)
Definition slack_zero (p : Page) (n : nat) : Prop :=
  read_bytes (pdata p) (Z.to_nat (free_space_end (header p) - 64 - 2 * Z.of_nat n)) (2 * n)
  = Some (replicate (2 * n) 0).

Lemma inserted_read p record dat dat' :
  page_ok p → record ≠ [] → Forall (λ v, enumerator (vtype v)) record →
  slack_zero p (length record) →
  let h := header p in
  let size := record_bytes_size record in
  size + 8 ≤ free_space_end h - free_space_offset h →
  write_bytes (pdata p) (Z.to_nat (free_space_end h - size - 64))
    (concat (map serializeValue record)) = Some dat →
  set_slot dat (record_count h) (mkPageSlot (free_space_end h - size) size 0 0) = Some dat' →
  getRecord (inserted p size dat') (make_rid (page_id h) (record_count h)) =
  Some (Some (map stored record ++ replicate (2 * length record) zero_value)).
Proof.
  intros [[Hh [Hl Hb]] Hs He _] Hne Hen Hslack h size Hsp Hw1 Hw2.
  unfold slack_zero in Hslack. fold h in Hs, He, Hslack.
  pose proof (wf_record_count _ Hh) as Hrc. fold h in Hrc.
  unfold fits, HEADER_SIZE, SLOT_SIZE, PAGE_SIZE in *.
  assert (Forall short_value record) as Hsh by (apply fits_short_strings; [done|fold size; lia]).
  pose proof (length_serializeValues_exact record Hsh) as Hlen. fold size in Hlen.
  assert (0 < length record)%nat by (destruct record; simpl; [done|lia]).
  rewrite (getRecord_live _ _ (mkPageSlot (free_space_end h - size) size 0 0));
    cbn [slot_offset slot_length slot_flags]; rewrite ?rid_slot_make by (unfold fits; lia).
  2:{ cbn. fold h. lia. }
  2:{ eapply get_set_slot_same, Hw2. split_and!; cbn; unfold fits; lia. }
  2:{ unfold slot_dead. cbn. destruct (Z.eqb_spec size 0); [lia|done]. }
  2:{ unfold HEADER_SIZE. lia. }
  unfold HEADER_SIZE. set (pos := Z.to_nat (free_space_end h - size - 64)) in *.
  change (pdata (inserted p size dat')) with dat'.
  rewrite (read_values_agree _ pos dat' dat); [|eapply agree_from_write; [exact Hw2|]|done].
  2:{ rewrite length_slot_bytes. unfold SLOT_SIZE, pos. lia. }
  apply write_bytes_Some in Hw1 as [Hle ->]. apply read_bytes_Some in Hslack as [_ Hsl].
  replace (Z.to_nat (free_space_end h - 64 - 2 * Z.of_nat (length record)))
    with (pos + length (concat (map serializeValue record)))%nat in Hsl by lia.
  rewrite <- (take_drop (2 * length record) (drop (pos + _) (pdata p))), <- Hsl.
  assert (length (take pos (pdata p)) = pos) as Hpre by (rewrite length_take; lia).
  pose proof (read_values_record record (2 * length record) (Z.to_nat size)
    (take pos (pdata p))) as Hread. rewrite Hpre in Hread.
  replace (Z.to_nat size)
    with (length (concat (map serializeValue record)) + 2 * length record)%nat at 2 by lia.
  rewrite Hread by (done || lia). done.
Qed.


(** A page laid out with the whole data area free. *)
Definition blank_page (id table : Z) : Page :=
  with_header (set_space 64 4096 0) (Page_new id table).

Lemma blank_page_ok id table : fits 64 id → fits 32 table → page_ok (blank_page id table).
Proof.
  intros Hid Ht. pose proof (Page_new_wf id table Hid Ht) as Hwf.
  constructor; cbn -[get_slot pdata Page_new].
  - apply page_wf_header; [|done]. apply header_wf_space; [unfold fits; lia..|apply Hwf].
  - unfold HEADER_SIZE, SLOT_SIZE. lia.
  - done.
  - intros i Hi. lia.
Qed.

Lemma blank_slack id table n : (n ≤ 2016)%nat → slack_zero (blank_page id table) n.
Proof.
  intros Hn. unfold slack_zero. change (free_space_end (header (blank_page id table))) with 4096.
  change (pdata (blank_page id table)) with (replicate (Z.to_nat (PAGE_SIZE - HEADER_SIZE)) 0).
  change (Z.to_nat (PAGE_SIZE - HEADER_SIZE)) with 4032%nat.
  apply read_bytes_Some. rewrite length_replicate, drop_replicate, take_replicate.
  split; [lia|]. f_equal. lia.
Qed.


(** ** Frame: the other records *)

(** [getRecord] looks at the record count, one slot, and the bytes from the
    record on. *)
Lemma getRecord_frame p p' rid slot n :
  rid_slot rid < record_count (header p) → rid_slot rid < record_count (header p') →
  get_slot (pdata p) (rid_slot rid) = Some slot → get_slot (pdata p') (rid_slot rid) = Some slot →
  agree_from n (pdata p') (pdata p) → (Z.of_nat n ≤ slot_offset slot - HEADER_SIZE) →
  getRecord p' rid = getRecord p rid.
Proof.
  intros Hc Hc' Hg Hg' Ha Hn. unfold getRecord.
  rewrite !(proj2 (Z.leb_gt _ _)) by done. rewrite Hg, Hg'. cbn [mbind option_bind].
  destruct (slot_dead slot); [done|]. unfold record_pos. case_decide; [|done].
  cbn [mbind option_bind]. f_equal. eapply read_values_agree; [exact Ha|lia].
Qed.

Lemma rid_slot_nonneg rid : 0 ≤ rid_slot rid.
Proof. unfold rid_slot. apply Z.land_nonneg. right. lia. Qed.

(** Existing slots, deleted ones included, read the same after an insertion. *)
Lemma insert_frame p record p' res rid :
  page_ok p → insertRecord p record = Some (p', res) →
  rid_slot rid < record_count (header p) → getRecord p' rid = getRecord p rid.
Proof.
  intros Hp Hins Hlt. destruct (insertRecord_cases p record Hp)
    as [[_ Heq]|(Hsp & dat & dat' & Hw1 & Hw2 & Heq)]; rewrite Heq in Hins; [by simplify_eq|].
  pose proof Hp as [[Hh [Hl Hb]] Hs He Hslots]. simplify_eq.
  pose proof (rid_slot_nonneg rid) as H0. pose proof (length_serializeValues record) as Hlen.
  destruct (Hslots (rid_slot rid)) as (s & Hget & Hlo & Hhi); [lia|].
  set (h := header p) in *. set (size := record_bytes_size record) in *.
  pose proof (wf_record_count _ Hh) as Hrc. fold h in Hrc.
  unfold fits, HEADER_SIZE, SLOT_SIZE, PAGE_SIZE in *.
  apply (getRecord_frame _ _ _ s (Z.to_nat (free_space_end h - 64))); try done.
  - cbn. fold h. lia.
  - change (pdata (inserted p size dat')) with dat'.
    rewrite (get_set_slot_other dat (record_count h) (rid_slot rid) _ dat') by (exact Hw2 || lia).
    rewrite <- Hget. unfold get_slot. f_equal. eapply read_write_disjoint; [exact Hw1|].
    unfold SLOT_SIZE. lia.
  - eapply agree_from_trans; eapply agree_from_write; [exact Hw2| |exact Hw1|].
    + rewrite length_slot_bytes. unfold SLOT_SIZE. lia.
    + lia.
  - unfold HEADER_SIZE. lia.
Qed.

(** ** deleteRecord *)

Lemma deleteRecord_cases p rid :
  page_ok p →
  (record_count (header p) ≤ rid_slot rid ∧ deleteRecord p rid = Some (p, false)) ∨
  (rid_slot rid < record_count (header p) ∧ ∃ s dat,
     get_slot (pdata p) (rid_slot rid) = Some s ∧
     set_slot (pdata p) (rid_slot rid)
       (mkPageSlot (slot_offset s) (slot_length s) (Z.lor (slot_flags s) 1) 0) = Some dat ∧
     deleteRecord p rid = Some (mkPage (set_dirty_flag true (header p)) dat, true)).
Proof.
  intros [[Hh [Hl Hb]] Hs He Hslots]. pose proof (rid_slot_nonneg rid) as H0.
  unfold HEADER_SIZE, SLOT_SIZE, PAGE_SIZE in *.
  unfold deleteRecord. destruct (Z.leb_spec (record_count (header p)) (rid_slot rid));
    [by left|right]. split; [done|].
  destruct (Hslots (rid_slot rid)) as (s & Hget & _ & _); [lia|].
  destruct (set_slot_total (pdata p) (rid_slot rid)
    (mkPageSlot (slot_offset s) (slot_length s) (Z.lor (slot_flags s) 1) 0)) as [dat Hw];
    [lia..|]. exists s, dat. split; [done|split; [done|]].
  rewrite Hget. cbn [mbind option_bind]. by rewrite Hw.
Qed.

Lemma lor_fits w a b : 0 ≤ w → fits w a → fits w b → fits w (Z.lor a b).
Proof.
  intros Hw Ha Hb. rewrite <- (wrap_small w a), <- (wrap_small w b) by done. unfold wrap.
  rewrite <- !Z.land_ones, <- Z.land_lor_distr_l, Z.land_ones by done. by apply wrap_fits.
Qed.

Lemma deleted_slot_wf s :
  slot_wf s → slot_wf (mkPageSlot (slot_offset s) (slot_length s) (Z.lor (slot_flags s) 1) 0).
Proof.
  intros (? & ? & ? & ?). split_and!; try done. apply lor_fits; [lia|done|unfold fits; lia].
Qed.

Lemma deleted_slot_dead o l f n : slot_dead (mkPageSlot o l (Z.lor f 1) n) = true.
Proof.
  unfold slot_dead. cbn [slot_flags]. rewrite Z.land_lor_distr_l, Z.land_diag.
  apply orb_true_iff. right. apply negb_true_iff, Z.eqb_neq. intros Hz.
  apply Z.lor_eq_0_iff in Hz. lia.
Qed.

Lemma deleted_ok p rid s dat :
  page_ok p → rid_slot rid < record_count (header p) →
  get_slot (pdata p) (rid_slot rid) = Some s →
  set_slot (pdata p) (rid_slot rid)
    (mkPageSlot (slot_offset s) (slot_length s) (Z.lor (slot_flags s) 1) 0) = Some dat →
  let p' := mkPage (set_dirty_flag true (header p)) dat in
  page_ok p' ∧ getRecord p' rid = Some None.
Proof.
  intros [[Hh [Hl Hb]] Hs He Hslots] Hlt Hget Hw p'. pose proof (rid_slot_nonneg rid) as H0.
  pose proof (get_slot_wf _ _ _ Hb Hget) as Hswf.
  pose proof (get_set_slot_same _ _ _ _ (deleted_slot_wf _ Hswf) Hw) as Hsame.
  split.
  - constructor; cbn -[get_slot]; try done.
    + split; [by apply header_wf_dirty|].
      split; [by erewrite set_slot_length|eauto using set_slot_ok].
    + intros i Hi. destruct (Hslots i Hi) as (si & Hgi & Hlo & Hhi).
      destruct (decide (i = rid_slot rid)) as [->|].
      * simplify_eq. eauto.
      * exists si. rewrite (get_set_slot_other (pdata p) (rid_slot rid) i _ dat) by (done || lia).
        done.
  - unfold getRecord. cbn [header pdata set_dirty_flag record_count p'].
    rewrite (proj2 (Z.leb_gt _ _)) by done. rewrite Hsame. cbn [mbind option_bind].
    by rewrite deleted_slot_dead.
Qed.

Lemma deleted_frame p rid s dat rid' :
  page_ok p → set_slot (pdata p) (rid_slot rid) s = Some dat →
  rid_slot rid < record_count (header p) →
  rid_slot rid' < record_count (header p) → rid_slot rid' ≠ rid_slot rid →
  getRecord (mkPage (set_dirty_flag true (header p)) dat) rid' = getRecord p rid'.
Proof.
  intros [[Hh [Hl Hb]] Hs He Hslots] Hw Hlt Hlt' Hne.
  pose proof (rid_slot_nonneg rid) as H0. pose proof (rid_slot_nonneg rid') as H0'.
  destruct (Hslots (rid_slot rid') ltac:(lia)) as (s' & Hget' & Hlo & _).
  unfold HEADER_SIZE, SLOT_SIZE in *.
  apply (getRecord_frame _ _ _ s' (Z.to_nat (slot_offset s' - 64))); try done.
  - cbn [pdata]. rewrite (get_set_slot_other (pdata p) (rid_slot rid) (rid_slot rid') _ dat)
      by (done || lia). done.
  - cbn [pdata]. eapply agree_from_write; [exact Hw|]. rewrite length_slot_bytes.
    unfold SLOT_SIZE. lia.
  - unfold HEADER_SIZE. lia.
Qed.

(** (C24) Deletion: on a page with a correct layout and an id of an existing
    slot, [deleteRecord] succeeds, keeps the layout, makes the id unreadable and
    changes no other record. *)
Theorem delete_spec p rid :
  page_ok p → rid_slot rid < record_count (header p) →
  ∃ p', deleteRecord p rid = Some (p', true) ∧ page_ok p' ∧
    getRecord p' rid = Some None ∧
    ∀ rid', rid_slot rid' < record_count (header p) → rid_slot rid' ≠ rid_slot rid →
      getRecord p' rid' = getRecord p rid'.
Proof.
  intros Hp Hlt. destruct (deleteRecord_cases p rid Hp)
    as [[? _]|(_ & s & dat & Hget & Hw & Heq)]; [lia|].
  destruct (deleted_ok p rid s dat Hp Hlt Hget Hw) as [Hok Hg].
  eauto 10 using deleted_frame.
Qed.

(** The page with one record, for the examples. *)
Lemma one_record :
  ∃ p rid, insertRecord (blank_page 3 1) [Value_int 7] = Some (p, Some rid) ∧ page_ok p ∧
    rid_slot rid = 0 ∧
    record_count (header p) = 1 ∧ free_space_end (header p) - free_space_offset (header p) = 4017 ∧
    getRecord p rid = Some (Some [Value_int 7; zero_value; zero_value]).
Proof.
  assert (page_ok (blank_page 3 1)) as Hp by (apply blank_page_ok; unfold fits; lia).
  destruct (insertRecord_cases _ [Value_int 7] Hp)
    as [[Hsp _]|(Hsp & dat & dat' & Hw1 & Hw2 & Heq)]; [by exfalso|].
  eexists _, _. split; [exact Heq|].
  split; [exact (inserted_ok _ _ _ _ Hp Hsp Hw1 Hw2)|].
  split; [apply rid_slot_make; cbn; unfold fits; lia|]. split; [reflexivity|]. split; [reflexivity|].
  apply (inserted_read _ [Value_int 7] dat dat' Hp); try assumption; [discriminate| |].
  - repeat constructor.
  - apply blank_slack; simpl; lia.
Qed.

Lemma delete_spec_witness :
  ∃ p rid p', getRecord p rid = Some (Some [Value_int 7; zero_value; zero_value]) ∧
    deleteRecord p rid = Some (p', true) ∧ getRecord p' rid = Some None.
Proof.
  destruct one_record as (p & rid & _ & Hp & Hr & Hc & _ & Hg).
  destruct (delete_spec p rid Hp ltac:(lia)) as (p' & Hd & _ & Hg' & _).
  by exists p, rid, p'.
Defined.

(** ** insertRecords *)

(** The ids a batch of [n] records gets from slot [k] on. *)
Definition batch_rids (p : Page) (n : nat) : list Z :=
  map (λ i, make_rid (page_id (header p)) (record_count (header p) + Z.of_nat i)) (seq 0 n).

Lemma inserted_header p size dat :
  page_id (header (inserted p size dat)) = page_id (header p) ∧
  record_count (header (inserted p size dat)) = record_count (header p) + 1.
Proof. done. Qed.



(** ** updateRecord *)

(** (C28) Update: on a page with a correct layout and a readable id,
    [updateRecord] always removes the record from its id; it succeeds exactly
    when the free space holds the new record, so a failed update has lost the
    record; the other records read the same. *)
Theorem update_spec p rid record old :
  page_ok p → getRecord p rid = Some (Some old) →
  let h := header p in
  ∃ p' b, updateRecord p rid record = Some (p', b) ∧ page_ok p' ∧
    getRecord p' rid = Some None ∧
    (b = true ↔ record_bytes_size record + 8 ≤ free_space_end h - free_space_offset h) ∧
    ∀ rid', rid_slot rid' < record_count h → rid_slot rid' ≠ rid_slot rid →
      getRecord p' rid' = getRecord p rid'.
Proof.
  intros Hp Hold h. unfold updateRecord. rewrite Hold. cbn [mbind option_bind].
  assert (rid_slot rid < record_count h) as Hlt.
  { unfold getRecord in Hold. destruct (Z.leb_spec (record_count (header p)) (rid_slot rid));
      [discriminate|done]. }
  destruct (deleteRecord_cases p rid Hp) as [[? _]|(_ & s & dat & Hget & Hw & ->)]; [subst h; lia|].
  destruct (deleted_ok p rid s dat Hp Hlt Hget Hw) as [Hp1 Hg1].
  pose proof (λ rid', deleted_frame p rid _ dat rid' Hp Hw Hlt) as Hf1.
  cbn [mbind option_bind fst snd negb].
  set (p1 := mkPage (set_dirty_flag true (header p)) dat) in *.
  pose proof (λ p' res rid, insert_frame p1 record p' res rid Hp1) as Hf2.
  destruct (insertRecord_cases p1 record Hp1)
    as [[Hsp Heq]|(Hsp & dat1 & dat2 & Hw1 & Hw2 & Heq)]; rewrite Heq in *;
    cbn [mbind option_bind fst snd].
  - exists p1, false. split_and!; try done. split; [done|]. cbn in Hsp. subst h. lia.
  - eexists _, true. split_and!; [done|by eapply inserted_ok| |done|].
    + by rewrite (Hf2 _ _ rid eq_refl).
    + intros rid' Hlt' Hne. rewrite (Hf2 _ _ rid' eq_refl) by done. by apply Hf1.
Qed.

Lemma update_spec_witness :
  ∃ p rid p' b, getRecord p rid = Some (Some [Value_int 7; zero_value; zero_value]) ∧
    updateRecord p rid [Value_int 9] = Some (p', b) ∧ getRecord p' rid = Some None.
Proof.
  destruct one_record as (p & rid & _ & Hp & _ & _ & _ & Hg).
  destruct (update_spec p rid [Value_int 9] _ Hp Hg) as (p' & b & Hu & _ & Hg' & _).
  eauto 10.
Defined.

(** ** compactify

    [MAX_SLOTS] takes all of [data_], so [DATA_SIZE] is 0: the temporary buffer
    is empty and the copy of the first live record is out of bounds. *)

Lemma compactify_loop_live fuel dat i j s :
  Forall byte_ok dat → i ≤ j < i + Z.of_nat fuel →
  get_slot dat j = Some s → slot_dead s = false →
  compactify_loop fuel dat [] 0 i = None.
Proof.
  intros Hb. revert i. induction fuel as [|fuel IH]; intros i Hj Hs Hd; [lia|].
  cbn [compactify_loop]. destruct (get_slot dat i) as [si|] eqn:Hg; [|done].
  cbn [mbind option_bind]. destruct (slot_dead si) eqn:Hdi.
  - apply IH; [|done..]. destruct (decide (i = j)) as [->|]; [simplify_eq; congruence|lia].
  - destruct (record_pos (slot_offset si)) as [pos|]; [|done]. cbn [mbind option_bind].
    destruct (read_bytes dat pos _) as [bytes|] eqn:Hr; [|done]. cbn [mbind option_bind].
    apply read_bytes_length in Hr. pose proof (get_slot_wf _ _ _ Hb Hg) as (_ & [Hl _] & _).
    unfold slot_dead in Hdi. apply orb_false_iff in Hdi as [Hz%Z.eqb_neq _].
    unfold write_bytes. rewrite decide_False; [done|]. simpl. lia.
Qed.

(** [compactify] is undefined on a page with a live record: the copy of
    the record overruns the temporary buffer, which has no bytes. *)
Theorem compactify_live p j s :
  page_wf p → 0 ≤ j < record_count (header p) →
  get_slot (pdata p) j = Some s → slot_dead s = false → compactify p = None.
Proof.
  intros (_ & _ & Hb) Hj Hs Hd. unfold compactify. change (Z.to_nat DATA_SIZE) with 0%nat.
  cbn [replicate]. erewrite compactify_loop_live; [done|done| |done..]. lia.
Qed.

Lemma getRecord_slot p rid vs :
  getRecord p rid = Some (Some vs) →
  rid_slot rid < record_count (header p) ∧
  ∃ s, get_slot (pdata p) (rid_slot rid) = Some s ∧ slot_dead s = false.
Proof.
  unfold getRecord. destruct (Z.leb_spec (record_count (header p)) (rid_slot rid)); [done|].
  intros (s & Hs & Hg)%bind_Some. split; [done|]. exists s. split; [done|].
  by destruct (slot_dead s).
Qed.

Lemma compactify_live_witness :
  ∃ p rid, getRecord p rid = Some (Some [Value_int 7; zero_value; zero_value]) ∧
    compactify p = None.
Proof.
  destruct one_record as (p & rid & _ & Hp & _ & _ & _ & Hg). exists p, rid. split; [done|].
  destruct (getRecord_slot _ _ _ Hg) as (Hlt & s & Hs & Hd).
  apply (compactify_live p (rid_slot rid) s); [apply Hp| |done..].
  pose proof (rid_slot_nonneg rid). lia.
Defined.

(** ** The pages a program can hold *)

(** A page after any sequence of operations, writes to disk and reads included. *)
Inductive reachable : Page → Prop :=
  | reach_new id table : fits 64 id → fits 32 table → reachable (Page_new id table)
  | reach_insert p record p' res :
      reachable p → insertRecord p record = Some (p', res) → reachable p'
  | reach_delete p rid p' b : reachable p → deleteRecord p rid = Some (p', b) → reachable p'
  | reach_update p rid record p' b :
      reachable p → updateRecord p rid record = Some (p', b) → reachable p'
  | reach_compactify p p' : reachable p → compactify p = Some p' → reachable p'
  | reach_type p t :
      reachable p → fits 32 (page_type_code t) ∧ code_page_type (page_type_code t) = t →
      reachable (setType t p)
  | reach_next p pid : reachable p → fits 64 pid → reachable (setNextPage pid p)
  | reach_prev p pid : reachable p → fits 64 pid → reachable (setPrevPage pid p)
  | reach_locked p b : reachable p → reachable (setLocked b p)
  | reach_lsn p l : reachable p → fits 32 l → reachable (setLSN l p)
  | reach_reload p : reachable p → reachable (page_deserialize (page_serialize p)).

(** No slot and no free space. *)
Record page_exhausted (p : Page) : Prop := {
  ex_wf : page_wf p;
  ex_fso : free_space_offset (header p) = 4096;
  ex_fse : free_space_end (header p) = 4096;
  ex_count : record_count (header p) = 0
}.

Lemma exhausted_insert p record : page_exhausted p → insertRecord p record = Some (p, None).
Proof.
  intros [_ Hfo Hfe _]. unfold insertRecord, hasSpaceFor, getFreeSpace. rewrite Hfo, Hfe.
  change (wrap 64 (4096 - 4096)) with 0. rewrite record_bytes_size_eq.
  rewrite (proj2 (Z.leb_gt _ _)); [done|]. unfold SLOT_SIZE. lia.
Qed.

Lemma exhausted_get p rid : page_exhausted p → getRecord p rid = Some None.
Proof.
  intros [_ _ _ Hc]. unfold getRecord. rewrite Hc.
  by rewrite (proj2 (Z.leb_le _ _)) by apply rid_slot_nonneg.
Qed.

Lemma exhausted_delete p rid : page_exhausted p → deleteRecord p rid = Some (p, false).
Proof.
  intros [_ _ _ Hc]. unfold deleteRecord. rewrite Hc.
  by rewrite (proj2 (Z.leb_le _ _)) by apply rid_slot_nonneg.
Qed.

Lemma exhausted_compactify p p' : page_exhausted p → compactify p = Some p' → page_exhausted p'.
Proof.
  intros [[Hh [Hl Hb]] Hfo Hfe Hc]. unfold compactify. rewrite Hc.
  change (Z.to_nat 0) with 0%nat. cbn [compactify_loop mbind option_bind].
  change (Z.to_nat 0) with 0%nat.
  change (read_bytes (replicate (Z.to_nat DATA_SIZE) 0) 0 0) with (Some (@nil Z)).
  cbn [mbind option_bind]. intros (dat & Hw & ?)%bind_Some. simplify_eq.
  constructor; cbn [header pdata]; try done.
  split; [|split]; cbn [header pdata].
  - apply header_wf_dirty, header_wf_space; [unfold fits; vm_compute; split; done..|done].
  - by erewrite write_bytes_length.
  - eapply Forall_write_bytes; eauto.
Qed.

Lemma exhausted_header f p :
  header_wf (f (header p)) →
  free_space_offset (f (header p)) = free_space_offset (header p) →
  free_space_end (f (header p)) = free_space_end (header p) →
  record_count (f (header p)) = record_count (header p) →
  page_exhausted p → page_exhausted (with_header f p).
Proof.
  intros Hf H1 H2 H3 [Hwf ???].
  constructor; [by apply page_wf_header|cbn; congruence..].
Qed.

(** The setters change one field and mark the page dirty. *)
Lemma exhausted_setter f p :
  page_exhausted p →
  (header_wf (header p) → header_wf (f (header p))) →
  free_space_offset (f (header p)) = free_space_offset (header p) →
  free_space_end (f (header p)) = free_space_end (header p) →
  record_count (f (header p)) = record_count (header p) →
  page_exhausted (markDirty (with_header f p)).
Proof.
  intros Hp Hf H1 H2 H3. pose proof (Hf (proj1 (ex_wf _ Hp))).
  apply exhausted_header; [by apply header_wf_dirty|done..|]. by apply exhausted_header.
Qed.

Lemma reachable_exhausted p : reachable p → page_exhausted p.
Proof.
  induction 1 as [id table|p r p' res _ IH Hi|p r p' b _ IH Hd|p rid r p' b _ IH Hu|p p' _ IH Hc
    |p t _ IH Ht|p pid _ IH Hpid|p pid _ IH Hpid|p b _ IH|p l _ IH Hl|p _ IH];
    try by apply exhausted_setter; [|auto 10 with orange..].
  - constructor; [by apply Page_new_wf|done..].
  - rewrite exhausted_insert in Hi by done. by simplify_eq.
  - rewrite exhausted_delete in Hd by done. by simplify_eq.
  - unfold updateRecord in Hu. rewrite exhausted_get in Hu by done. by simplify_eq/=.
  - by eapply exhausted_compactify.
  - rewrite page_reload by apply IH.
    apply exhausted_header; [apply header_wf_dirty, IH|done..].
Qed.

(** No page ever stores a record: whatever is done with a page made by the
    constructor, writing it to disk and back included, every insertion finds no
    space and every lookup fails, because the slot array of [MAX_SLOTS] entries
    leaves [DATA_SIZE] = 0 bytes for records. *)
Theorem new_page_never_stores p record rid :
  reachable p → insertRecord p record = Some (p, None) ∧ getRecord p rid = Some None.
Proof.
  intros Hp%reachable_exhausted. auto using exhausted_insert, exhausted_get.
Qed.

Lemma new_page_never_stores_witness :
  insertRecord (setNextPage 4 (Page_new 3 1)) [Value_int 7] =
    Some (setNextPage 4 (Page_new 3 1), None) ∧
  getRecord (setNextPage 4 (Page_new 3 1)) 0 = Some None.
Proof.
  apply (new_page_never_stores (setNextPage 4 (Page_new 3 1)) [Value_int 7] 0).
  apply reach_next; [apply reach_new|]; unfold fits; lia.
Defined.
