(* ===== verification/FileManager.v ===== *)
(** * FileManager: page files and the cache of open files
    (src/storage/file_manager.h, file_manager.cpp)

    The disk is a map from absolute paths to the bytes of each file.  An open
    file is the state of its [std::fstream]: the directions it was opened for
    and whether its failbit or badbit is set, which nothing in the source ever
    clears.  A stream and the file of its path are the same bytes: every
    operation that unlinks or renames a file closes its handle first.  Stream
    buffering, directories, time and disk-full errors are not modelled.

    [PageStore] is the interface the buffer pool uses, [PageStoreLaws] what it
    relies on; both are discharged here. *)

From stdpp Require Import gmap strings.
From S2P Require Import Prelude CxxString Types Page.

Open Scope Z_scope.

(** ** Environment *)

(** The process: its working directory, the paths where a file may be created,
    and the element [begin()] of an unordered map designates. *)
Record Env := mkEnv {
  cwd : string;
  can_create : string → bool;
  first_file : gset string → string
}.

(** [fs::absolute] of a POSIX path *)
Definition normalizePath (E : Env) (path : string) : string :=
  match path with
  | String c _ => if decide (c = "/"%char) then path else String.append (cwd E) (String.append "/" path)
  | EmptyString => String.append (cwd E) "/"
  end.

Module FileMode.
Inductive FileMode := READ | WRITE | READ_WRITE | CREATE.

#[export] Instance FileMode_eq_dec : EqDecision FileMode.
Proof. solve_decision. Defined.
End FileMode.
Export (hints) FileMode.
Abbreviation FileMode := FileMode.FileMode.

(** [FileManager::FileHandle] *)
Record FileHandle := mkFileHandle { mode : FileMode; failed : bool }.

Record IOStatistics := mkIOStatistics {
  io_reads : Z;
  io_writes : Z;
  io_read_bytes : Z;
  io_write_bytes : Z;
  io_fsyncs : Z
}.
Definition IOStatistics_reset : IOStatistics := mkIOStatistics 0 0 0 0 0.

Record FileManager := mkFileManager {
  disk : gmap string (list Z);
  open_files : gmap string FileHandle;
  max_open_files : nat;
  sync_on_write : bool;
  io_stats : IOStatistics
}.

Definition FileManager_new (d : gmap string (list Z)) : FileManager :=
  mkFileManager d ∅ 100 false IOStatistics_reset.

Definition set_disk (d : gmap string (list Z)) (fm : FileManager) : FileManager :=
  mkFileManager d (open_files fm) (max_open_files fm) (sync_on_write fm) (io_stats fm).
Definition set_open (o : gmap string FileHandle) (fm : FileManager) : FileManager :=
  mkFileManager (disk fm) o (max_open_files fm) (sync_on_write fm) (io_stats fm).
Definition set_io_stats (f : IOStatistics → IOStatistics) (fm : FileManager) : FileManager :=
  mkFileManager (disk fm) (open_files fm) (max_open_files fm) (sync_on_write fm)
    (f (io_stats fm)).
Definition setCacheSize (max_files : nat) (fm : FileManager) : FileManager :=
  mkFileManager (disk fm) (open_files fm) max_files (sync_on_write fm) (io_stats fm).
Definition setSyncOnWrite (sync : bool) (fm : FileManager) : FileManager :=
  mkFileManager (disk fm) (open_files fm) (max_open_files fm) sync (io_stats fm).
Definition resetStats (fm : FileManager) : FileManager :=
  set_io_stats (λ _, IOStatistics_reset) fm.

(** Counters are [size_t]. *)
Definition count_read (s : IOStatistics) : IOStatistics :=
  mkIOStatistics (wrap 64 (io_reads s + 1)) (io_writes s)
    (wrap 64 (io_read_bytes s + PAGE_SIZE)) (io_write_bytes s) (io_fsyncs s).
Definition count_write (s : IOStatistics) : IOStatistics :=
  mkIOStatistics (io_reads s) (wrap 64 (io_writes s + 1))
    (io_read_bytes s) (wrap 64 (io_write_bytes s + PAGE_SIZE)) (io_fsyncs s).
Definition count_fsync (s : IOStatistics) : IOStatistics :=
  mkIOStatistics (io_reads s) (io_writes s) (io_read_bytes s) (io_write_bytes s)
    (wrap 64 (io_fsyncs s + 1)).

(** ** FileHandle *)

Definition mode_in (m : FileMode) : bool :=
  match m with FileMode.READ | FileMode.READ_WRITE => true | _ => false end.
Definition mode_out (m : FileMode) : bool :=
  match m with FileMode.READ => false | _ => true end.
Definition mode_trunc (m : FileMode) : bool :=
  match m with FileMode.WRITE | FileMode.CREATE => true | _ => false end.

(** The constructor: [in] and [in|out] open an existing file, [out|trunc]
    empties or creates it.  The new disk, and whether the stream is open. *)
Definition FileHandle_open (E : Env) (d : gmap string (list Z)) (path : string) (m : FileMode)
  : gmap string (list Z) * bool :=
  if mode_trunc m then
    if bool_decide (is_Some (d !! path)) || can_create E path then (<[path := []]> d, true)
    else (d, false)
  else (d, bool_decide (is_Some (d !! path))).

(** A position is a signed [streamoff]. *)
Definition seekable (offset : Z) : bool := offset <? 2 ^ 63.

(** [FileHandle::read]: the handle after the call and the bytes on success. *)
Definition FileHandle_read (h : FileHandle) (content : list Z) (offset : Z) (size : nat)
  : FileHandle * option (list Z) :=
  if failed h then (h, None)
  else if mode_in (mode h) && seekable offset then
    match read_bytes content (Z.to_nat offset) size with
    | Some bs => (h, Some bs)
    | None => (mkFileHandle (mode h) true, None)
    end
  else (mkFileHandle (mode h) true, None).

(** Bytes written past the end leave a hole of zeros. *)
Definition overwrite (content : list Z) (offset : nat) (bs : list Z) : list Z :=
  take offset (content ++ replicate (offset - length content) 0) ++ bs
  ++ drop (offset + length bs) content.

(** [FileHandle::write]: the handle and the file after the call. *)
Definition FileHandle_write (h : FileHandle) (content : list Z) (offset : Z) (bs : list Z)
  : FileHandle * list Z * bool :=
  if failed h then (h, content, false)
  else if mode_out (mode h) && seekable offset then
    (h, overwrite content (Z.to_nat offset) bs, true)
  else (mkFileHandle (mode h) true, content, false).

Definition FileHandle_append (h : FileHandle) (content : list Z) (bs : list Z)
  : FileHandle * list Z * bool :=
  if failed h then (h, content, false)
  else if mode_out (mode h) then (h, content ++ bs, true)
  else (mkFileHandle (mode h) true, content, false).

(** [flush] of a stream that is not open for writing does nothing. *)
Definition FileHandle_sync (h : FileHandle) : bool := negb (failed h).

(** [size]: the position of the end, which is -1 for a stream that has failed; the position
    of the stream is restored. *)
Definition FileHandle_size (h : FileHandle) (content : list Z) : Z :=
  if failed h then wrap 64 (-1) else Z.of_nat (length content).

(** ** Cache of open files *)

Definition evictFile (E : Env) (fm : FileManager) : FileManager :=
  if decide (open_files fm = ∅) then fm
  else set_open (delete (first_file E (dom (open_files fm))) (open_files fm)) fm.

(** The path of the handle, if there is one. *)
Definition openFile (E : Env) (fm : FileManager) (filename : string) (m : FileMode)
  : FileManager * option string :=
  let path := normalizePath E filename in
  match open_files fm !! path with
  | Some _ => (fm, Some path)
  | None =>
      let fm := if bool_decide (max_open_files fm ≤ size (open_files fm))%nat
                then evictFile E fm else fm in
      let '(d, ok) := FileHandle_open E (disk fm) path m in
      let fm := set_disk d fm in
      if negb ok then (fm, None)
      else (set_open (<[path := mkFileHandle m false]> (open_files fm)) fm, Some path)
  end.

Definition closeFile (E : Env) (fm : FileManager) (filename : string) : FileManager :=
  set_open (delete (normalizePath E filename) (open_files fm)) fm.

(** The handle and the file of an open path. *)
Definition handle_of (fm : FileManager) (path : string) : FileHandle :=
  default (mkFileHandle FileMode.READ true) (open_files fm !! path).
Definition content_of (fm : FileManager) (path : string) : list Z :=
  default [] (disk fm !! path).
Definition set_handle (path : string) (h : FileHandle) (fm : FileManager) : FileManager :=
  set_open (<[path := h]> (open_files fm)) fm.
Definition set_content (path : string) (c : list Z) (fm : FileManager) : FileManager :=
  set_disk (<[path := c]> (disk fm)) fm.

(** ** Pages *)

Definition page_offset (page_id : Z) : Z := wrap 64 (page_id * PAGE_SIZE).

Definition readPage (E : Env) (fm : FileManager) (filename : string) (page_id : Z)
  : FileManager * option (list Z) :=
  match openFile E fm filename FileMode.READ with
  | (fm, None) => (fm, None)
  | (fm, Some path) =>
      let '(h, r) := FileHandle_read (handle_of fm path) (content_of fm path)
                       (page_offset page_id) (Z.to_nat PAGE_SIZE) in
      let fm := set_handle path h fm in
      match r with
      | Some bs => (set_io_stats count_read fm, Some bs)
      | None => (fm, None)
      end
  end.

Definition writePage (E : Env) (fm : FileManager) (filename : string) (page_id : Z)
    (buffer : list Z) : FileManager * bool :=
  match openFile E fm filename FileMode.READ_WRITE with
  | (fm, None) => (fm, false)
  | (fm, Some path) =>
      let '(h, c, success) := FileHandle_write (handle_of fm path) (content_of fm path)
                                (page_offset page_id) buffer in
      let fm := set_content path c (set_handle path h fm) in
      if (success : bool) then
        let fm := set_io_stats count_write fm in
        (if sync_on_write fm then set_io_stats count_fsync fm else fm, true)
      else (fm, false)
  end.

Definition appendPage (E : Env) (fm : FileManager) (filename : string) (buffer : list Z)
  : FileManager * bool :=
  match openFile E fm filename FileMode.READ_WRITE with
  | (fm, None) => (fm, false)
  | (fm, Some path) =>
      let '(h, c, success) := FileHandle_append (handle_of fm path) (content_of fm path) buffer in
      let fm := set_content path c (set_handle path h fm) in
      if (success : bool) then (set_io_stats count_write fm, true) else (fm, false)
  end.

(** ** Files *)

(** [std::ofstream] truncates or creates. *)
Definition createFile (E : Env) (fm : FileManager) (filename : string) : FileManager * bool :=
  let '(d, ok) := FileHandle_open E (disk fm) (normalizePath E filename) FileMode.CREATE in
  (set_disk d fm, ok).

Definition deleteFile (E : Env) (fm : FileManager) (filename : string) : FileManager * bool :=
  let path := normalizePath E filename in
  let fm := closeFile E fm filename in
  (set_disk (delete path (disk fm)) fm, bool_decide (is_Some (disk fm !! path))).

Definition fileExists (E : Env) (fm : FileManager) (filename : string) : bool :=
  bool_decide (is_Some (disk fm !! normalizePath E filename)).

Definition getFileSize (E : Env) (fm : FileManager) (filename : string) : option Z :=
  (λ c : list Z, Z.of_nat (length c)) <$> disk fm !! normalizePath E filename.

(** [fs::resize_file] cuts, or extends with zeros. *)
Definition truncateFile (E : Env) (fm : FileManager) (filename : string) (size : nat)
  : FileManager * bool :=
  let path := normalizePath E filename in
  match disk fm !! path with
  | Some c => (set_content path (take size (c ++ replicate (size - length c) 0)) fm, true)
  | None => (fm, false)
  end.

Definition atomicRename (E : Env) (fm : FileManager) (old_name new_name : string)
  : FileManager * bool :=
  let old_path := normalizePath E old_name in
  let new_path := normalizePath E new_name in
  let fm := closeFile E (closeFile E fm old_name) new_name in
  match disk fm !! old_path with
  | Some c =>
      if bool_decide (is_Some (disk fm !! new_path)) || can_create E new_path then
        (set_disk (<[new_path := c]> (delete old_path (disk fm))) fm, true)
      else (fm, false)
  | None => (fm, false)
  end.

(** The temporary file is opened by its name; the process resolves it against
    its working directory. *)
Definition atomicWrite (E : Env) (fm : FileManager) (filename : string) (bs : list Z)
  : FileManager * bool :=
  let temp_filename := String.append filename ".tmp" in
  let temp_path := normalizePath E temp_filename in
  let '(d, ok) := FileHandle_open E (disk fm) temp_path FileMode.WRITE in
  let fm := set_disk d fm in
  if negb ok then (fm, false)
  else atomicRename E (set_content temp_path bs fm) temp_filename filename.

Definition sync (E : Env) (fm : FileManager) (filename : string) : FileManager * bool :=
  match openFile E fm filename FileMode.READ_WRITE with
  | (fm, None) => (fm, false)
  | (fm, Some path) =>
      let success := FileHandle_sync (handle_of fm path) in
      (if success then set_io_stats count_fsync fm else fm, success)
  end.

(** One [fsyncs++] per handle, failed or not. *)
Definition syncAll (fm : FileManager) : FileManager * bool :=
  let handles := (map_to_list (open_files fm)).*2 in
  (Nat.iter (length handles) (set_io_stats count_fsync) fm, forallb FileHandle_sync handles).

Definition shutdown (fm : FileManager) : FileManager := set_open ∅ (syncAll fm).1.

(** [FileManager::~FileManager] *)
Definition FileManager_destroy (fm : FileManager) : FileManager := shutdown fm.

(** ** The interface to the buffer pool *)

Class PageStore (St : Type) := {
  ps_read : St → string → Z → St * option (list Z);
  ps_write : St → string → Z → list Z → St * bool
}.

(** Page numbers whose byte offset is a valid position. *)
Definition page_number (pid : Z) : Prop := 0 ≤ pid < 2 ^ 51.

(** What a usable file promises: a page is read back as it was last written,
    and writing a page changes no other one that can be read. *)
Class PageStoreLaws (St : Type) `{PageStore St} := {
  ps_usable : St → string → Prop;
  ps_write_read s f pid bs :
    ps_usable s f → page_number pid → length bs = Z.to_nat PAGE_SIZE →
    ∃ s', ps_write s f pid bs = (s', true) ∧ ps_usable s' f ∧ (ps_read s' f pid).2 = Some bs;
  ps_write_other s f pid bs s' pid' bs' :
    ps_usable s f → page_number pid → page_number pid' → pid ≠ pid' →
    length bs = Z.to_nat PAGE_SIZE → ps_write s f pid bs = (s', true) →
    (ps_read s f pid').2 = Some bs' → (ps_read s' f pid').2 = Some bs';
  ps_read_usable s f pid bs s' :
    ps_usable s f → ps_read s f pid = (s', Some bs) → ps_usable s' f
}.

#[export] Instance FileManager_store (E : Env) : PageStore FileManager := {
  ps_read := readPage E;
  ps_write := writePage E
}.

(** ** Bytes of a file *)

Lemma overwrite_length c off bs :
  length (overwrite c off bs) = Nat.max (length c) (off + length bs).
Proof.
  unfold overwrite. rewrite !length_app, length_take, length_drop, length_app, length_replicate. lia.
Qed.

Lemma overwrite_read c off bs : read_bytes (overwrite c off bs) off (length bs) = Some bs.
Proof.
  unfold overwrite.
  assert (length (take off (c ++ replicate (off - length c) 0)) = off) as Hl
    by (rewrite length_take, length_app, length_replicate; lia).
  apply read_bytes_Some. split; [rewrite !length_app, Hl; lia|].
  rewrite drop_app_length' by done. by rewrite take_app_length.
Qed.

Lemma overwrite_read_other c off bs off' n :
  (off' + n ≤ length c)%nat → (off' + n ≤ off ∨ off + length bs ≤ off')%nat →
  read_bytes (overwrite c off bs) off' n = read_bytes c off' n.
Proof.
  intros Hn Hd. unfold read_bytes. rewrite overwrite_length, !decide_True by lia. f_equal.
  apply list_eq. intros i. rewrite !lookup_take, !lookup_drop. case_decide; [|done].
  unfold overwrite. destruct Hd.
  - rewrite lookup_app_l by (rewrite length_take, length_app, length_replicate; lia).
    rewrite lookup_take_lt by lia. by rewrite lookup_app_l by lia.
  - assert (length (take off (c ++ replicate (off - length c) 0)) = off) as Hl
      by (rewrite length_take, length_app, length_replicate; lia).
    rewrite lookup_app_r by lia. rewrite Hl, lookup_app_r by lia.
    rewrite lookup_drop. f_equal. lia.
Qed.

Lemma page_offset_eq pid : page_number pid → page_offset pid = pid * 4096.
Proof. intros [? ?]. apply wrap_small. unfold fits, PAGE_SIZE. lia. Qed.

Lemma seekable_page pid : page_number pid → seekable (page_offset pid) = true.
Proof. intros Hp. rewrite page_offset_eq by done. apply Z.ltb_lt. destruct Hp. lia. Qed.

(** ** Files open for reading and writing *)

Section Store.
Context (E : Env).

Definition usable (fm : FileManager) (filename : string) : Prop :=
  open_files fm !! normalizePath E filename = Some (mkFileHandle FileMode.READ_WRITE false) ∧
  is_Some (disk fm !! normalizePath E filename).

Lemma openFile_cached fm filename m h :
  open_files fm !! normalizePath E filename = Some h →
  openFile E fm filename m = (fm, Some (normalizePath E filename)).
Proof. intros Hh. unfold openFile. by rewrite Hh. Qed.

Lemma set_handle_same fm path h : open_files fm !! path = Some h → set_handle path h fm = fm.
Proof.
  intros Hh. unfold set_handle, set_open. rewrite insert_id by done. by destruct fm.
Qed.

(** Reading and writing a usable file. *)
Lemma readPage_usable fm filename pid :
  usable fm filename → page_number pid →
  readPage E fm filename pid =
  match read_bytes (content_of fm (normalizePath E filename)) (Z.to_nat (page_offset pid))
          (Z.to_nat PAGE_SIZE) with
  | Some bs => (set_io_stats count_read fm, Some bs)
  | None => (set_handle (normalizePath E filename) (mkFileHandle FileMode.READ_WRITE true) fm, None)
  end.
Proof.
  intros [Hh _] Hp. unfold readPage. rewrite (openFile_cached _ _ _ _ Hh).
  unfold handle_of. rewrite Hh. cbn [default from_option id]. unfold FileHandle_read.
  cbn [failed mode mode_in andb]. rewrite seekable_page by done.
  destruct (read_bytes _ _ _); [|done]. cbv beta iota zeta. by rewrite set_handle_same.
Qed.

(** The state after a successful write. *)
Definition written (fm : FileManager) (path : string) (c : list Z) : FileManager :=
  let fm := set_io_stats count_write (set_content path c fm) in
  if sync_on_write fm then set_io_stats count_fsync fm else fm.

Lemma writePage_usable fm filename pid bs :
  usable fm filename → page_number pid →
  let path := normalizePath E filename in
  writePage E fm filename pid bs =
  (written fm path (overwrite (content_of fm path) (Z.to_nat (page_offset pid)) bs), true).
Proof.
  intros [Hh _] Hp path. unfold writePage. rewrite (openFile_cached _ _ _ _ Hh).
  unfold handle_of. fold path in Hh |- *. rewrite Hh. cbn [default from_option id]. unfold FileHandle_write.
  cbn [failed mode mode_out andb]. rewrite seekable_page by done.
  by rewrite (set_handle_same fm path _ Hh).
Qed.

Lemma written_open fm path c : open_files (written fm path c) = open_files fm.
Proof. unfold written. cbn. by case_match. Qed.

Lemma written_disk fm path c : disk (written fm path c) = <[path := c]> (disk fm).
Proof. unfold written. cbn. by case_match. Qed.

Lemma written_usable fm filename c :
  usable fm filename → usable (written fm (normalizePath E filename) c) filename.
Proof.
  intros [Hh Hd]. split; [by rewrite written_open|]. rewrite written_disk, lookup_insert_eq. eauto.
Qed.

Lemma written_content fm path c : content_of (written fm path c) path = c.
Proof. unfold content_of. by rewrite written_disk, lookup_insert_eq. Qed.

Lemma store_write_read fm filename pid bs :
  usable fm filename → page_number pid → length bs = Z.to_nat PAGE_SIZE →
  ∃ fm', writePage E fm filename pid bs = (fm', true) ∧ usable fm' filename ∧
    (readPage E fm' filename pid).2 = Some bs.
Proof.
  intros Hu Hp Hl. eexists. split; [by apply writePage_usable|].
  split; [by apply written_usable|].
  rewrite readPage_usable by (done || by apply written_usable).
  rewrite written_content, <- Hl, overwrite_read. done.
Qed.

Lemma store_write_other fm filename pid bs fm' pid' bs' :
  usable fm filename → page_number pid → page_number pid' → pid ≠ pid' →
  length bs = Z.to_nat PAGE_SIZE → writePage E fm filename pid bs = (fm', true) →
  (readPage E fm filename pid').2 = Some bs' → (readPage E fm' filename pid').2 = Some bs'.
Proof.
  intros Hu Hp Hp' Hne Hl Hw Hr. rewrite writePage_usable in Hw by done. simplify_eq.
  rewrite readPage_usable in Hr |- * by (done || by apply written_usable).
  rewrite written_content. destruct (read_bytes (content_of fm _) _ _) as [x|] eqn:Hrd; [|done].
  simplify_eq/=. pose proof Hrd as [Hle _]%read_bytes_Some.
  rewrite overwrite_read_other, Hrd; [done|done|].
  rewrite !page_offset_eq by done. rewrite Hl. unfold PAGE_SIZE, page_number in *. lia.
Qed.

Lemma store_read_usable fm filename pid bs fm' :
  usable fm filename → readPage E fm filename pid = (fm', Some bs) → usable fm' filename.
Proof.
  intros [Hh Hd] Hr. unfold readPage in Hr. rewrite (openFile_cached _ _ _ _ Hh) in Hr.
  unfold handle_of in Hr. rewrite Hh in Hr. cbn [default from_option id] in Hr. unfold FileHandle_read in Hr.
  cbn [failed] in Hr. repeat case_match; simplify_eq.
  split; cbn; [by rewrite lookup_insert_eq|done].
Qed.

#[export] Instance FileManager_laws : @PageStoreLaws FileManager (FileManager_store E).
Proof.
  exists usable.
  - exact store_write_read.
  - exact store_write_other.
  - exact store_read_usable.
Defined.

End Store.

(** ** Theorems *)

(** Page round trip through the manager: on a file that is open for
    reading and writing and has no error, [writePage] of a page succeeds, the
    page reads back as written, every other page that could be read still reads
    the same, and the other files are untouched. *)
Theorem page_file_roundtrip E fm filename pid bs :
  usable E fm filename → page_number pid → length bs = Z.to_nat PAGE_SIZE →
  ∃ fm', writePage E fm filename pid bs = (fm', true) ∧
    (readPage E fm' filename pid).2 = Some bs ∧
    (∀ pid' bs', page_number pid' → pid' ≠ pid →
       (readPage E fm filename pid').2 = Some bs' → (readPage E fm' filename pid').2 = Some bs') ∧
    (∀ path, path ≠ normalizePath E filename → disk fm' !! path = disk fm !! path).
Proof.
  intros Hu Hp Hl. destruct (store_write_read E fm filename pid bs Hu Hp Hl) as (fm' & Hw & _ & Hr).
  exists fm'. split_and!; [done|done| |].
  - intros. by eapply (store_write_other E fm filename pid bs).
  - intros path Hne. rewrite writePage_usable in Hw by done. simplify_eq.
    by rewrite written_disk, lookup_insert_ne.
Qed.

(** Two pages of a table, and an environment. *)
Definition env0 : Env := mkEnv "/db" (λ _, true) (λ s, default "" (head (elements s))).
Definition two_pages : list Z :=
  replicate (Z.to_nat PAGE_SIZE) 1 ++ replicate (Z.to_nat PAGE_SIZE) 2.
Definition fm0 : FileManager := FileManager_new (<["/db/t" := two_pages]> ∅).
Definition fm_open : FileManager := (openFile env0 fm0 "t" FileMode.READ_WRITE).1.

Lemma fm_open_usable : usable env0 fm_open "t".
Proof. split; [done|]. by exists two_pages. Qed.

Lemma page_file_roundtrip_witness :
  ∃ fm', writePage env0 fm_open "t" 1 (replicate (Z.to_nat PAGE_SIZE) 7) = (fm', true) ∧
    (readPage env0 fm' "t" 1).2 = Some (replicate (Z.to_nat PAGE_SIZE) 7).
Proof.
  destruct (page_file_roundtrip env0 fm_open "t" 1 (replicate (Z.to_nat PAGE_SIZE) 7))
    as (fm' & Hw & Hr & _); [apply fm_open_usable|unfold page_number; lia| |by eauto].
  by rewrite length_replicate.
Defined.

(** *** Handles that cannot write *)

Inductive page_op :=
  | op_read (page_id : Z)
  | op_write (page_id : Z) (buffer : list Z)
  | op_append (buffer : list Z)
  | op_sync.

(** The operation on the file, and whether it reported success. *)
Definition run_op (E : Env) (filename : string) (fm : FileManager) (o : page_op)
  : FileManager * bool :=
  match o with
  | op_read pid => let r := readPage E fm filename pid in (r.1, bool_decide (is_Some r.2))
  | op_write pid bs => writePage E fm filename pid bs
  | op_append bs => appendPage E fm filename bs
  | op_sync => sync E fm filename
  end.

Definition is_write (o : page_op) : bool :=
  match o with op_write _ _ | op_append _ => true | _ => false end.

(** A sequence of operations: the state and the results. *)
Fixpoint run_ops (E : Env) (filename : string) (fm : FileManager) (os : list page_op)
  : FileManager * list bool :=
  match os with
  | [] => (fm, [])
  | o :: os' =>
      let r := run_op E filename fm o in
      let rs := run_ops E filename r.1 os' in (rs.1, r.2 :: rs.2)
  end.

(** An open handle that is read-only or has failed. *)
Definition unwritable (E : Env) (fm : FileManager) (filename : string) : Prop :=
  ∃ h, open_files fm !! normalizePath E filename = Some h ∧
    (mode h = FileMode.READ ∨ failed h = true) ∧ is_Some (disk fm !! normalizePath E filename).

Lemma set_content_same fm path c : disk fm !! path = Some c → set_content path c fm = fm.
Proof. intros Hc. unfold set_content, set_disk. rewrite insert_id by done. by destruct fm. Qed.

Lemma unwritable_set_handle E fm filename h :
  unwritable E fm filename → (mode h = FileMode.READ ∨ failed h = true) →
  unwritable E (set_handle (normalizePath E filename) h fm) filename.
Proof.
  intros (h0 & _ & _ & Hd) Hh. exists h. split_and!; try done. cbn. by rewrite lookup_insert_eq.
Qed.

Lemma unwritable_stats E fm filename f :
  unwritable E fm filename → unwritable E (set_io_stats f fm) filename.
Proof. done. Qed.

Lemma unwritable_failed E fm filename m :
  unwritable E fm filename →
  unwritable E (set_handle (normalizePath E filename) (mkFileHandle m true) fm) filename.
Proof. intros. apply unwritable_set_handle; [done|by right]. Qed.

Lemma FileHandle_read_bad h c off n :
  mode h = FileMode.READ ∨ failed h = true →
  let h' := (FileHandle_read h c off n).1 in mode h' = FileMode.READ ∨ failed h' = true.
Proof.
  intros Hh. cbv zeta. unfold FileHandle_read. destruct (failed h) eqn:Hf; [by right|].
  destruct (_ && _); [|by right]. destruct (read_bytes _ _ _); [by destruct Hh; left|by right].
Qed.

(** One operation leaves the disk alone and the handle unwritable. *)
Lemma run_op_unwritable E filename fm o fm' b :
  unwritable E fm filename → run_op E filename fm o = (fm', b) →
  unwritable E fm' filename ∧ disk fm' = disk fm ∧ (is_write o = true → b = false).
Proof.
  intros Hu Hrun. pose proof Hu as (h & Hh & Hbad & [c Hc]).
  destruct o as [pid|pid bs|bs|]; cbn [run_op is_write] in *.
  - unfold readPage in Hrun. rewrite (openFile_cached _ _ _ _ _ Hh) in Hrun.
    unfold handle_of in Hrun. rewrite Hh in Hrun. cbn [default from_option id] in Hrun.
    pose proof (FileHandle_read_bad h (content_of fm (normalizePath E filename))
      (page_offset pid) (Z.to_nat PAGE_SIZE) Hbad) as Hbad1.
    destruct (FileHandle_read _ _ _ _) as [h1 [bs|]]; simplify_eq/=;
      (split; [by apply unwritable_set_handle || apply unwritable_stats, unwritable_set_handle|done]).
  - unfold writePage in Hrun. rewrite (openFile_cached _ _ _ _ _ Hh) in Hrun.
    unfold handle_of, content_of in Hrun. rewrite Hh, Hc in Hrun.
    cbn [default from_option id] in Hrun. unfold FileHandle_write in Hrun.
    destruct (failed h) eqn:Hf.
    { simplify_eq. rewrite set_content_same by exact Hc. split; [|done].
      apply unwritable_set_handle; auto. }
    destruct Hbad as [Hm|]; [|done]. rewrite Hm in Hrun. cbn [mode_out andb] in Hrun. simplify_eq.
    rewrite set_content_same by exact Hc. split; [by apply unwritable_failed|done].
  - unfold appendPage in Hrun. rewrite (openFile_cached _ _ _ _ _ Hh) in Hrun.
    unfold handle_of, content_of in Hrun. rewrite Hh, Hc in Hrun.
    cbn [default from_option id] in Hrun. unfold FileHandle_append in Hrun.
    destruct (failed h) eqn:Hf.
    { simplify_eq. rewrite set_content_same by exact Hc. split; [|done].
      apply unwritable_set_handle; auto. }
    destruct Hbad as [Hm|]; [|done]. rewrite Hm in Hrun. cbn [mode_out andb] in Hrun. simplify_eq.
    rewrite set_content_same by exact Hc. split; [by apply unwritable_failed|done].
  - unfold sync in Hrun. rewrite (openFile_cached _ _ _ _ _ Hh) in Hrun. simplify_eq.
    split; [|by case_match]. exists h. split_and!; [by case_match|done|by case_match; exists c].
Qed.

Lemma run_ops_unwritable E filename fm os fm' bs :
  unwritable E fm filename → run_ops E filename fm os = (fm', bs) →
  disk fm' = disk fm ∧ ∀ i o, os !! i = Some o → is_write o = true → bs !! i = Some false.
Proof.
  revert fm fm' bs. induction os as [|o os IH]; intros fm fm' bs Hu Hrun; simplify_eq/=; [done|].
  destruct (run_op E filename fm o) as [fm1 b1] eqn:Ho.
  destruct (run_op_unwritable _ _ _ _ _ _ Hu Ho) as (Hu1 & Hd1 & Hb1). cbn [fst snd].
  destruct (run_ops E filename fm1 os) as [fm2 bs2] eqn:Hos.
  destruct (IH _ _ _ Hu1 Hos) as [Hd2 Hbs]. cbn [fst snd].
  split; [congruence|]. intros [|i] o' Ho' Hw; simplify_eq/=; [|eauto].
  by rewrite Hb1.
Qed.

(** [readPage] of a closed file leaves a read-only handle in the cache. *)
Lemma readPage_opens_readonly E fm filename pid fm1 r :
  open_files fm !! normalizePath E filename = None →
  is_Some (disk fm !! normalizePath E filename) →
  readPage E fm filename pid = (fm1, r) → unwritable E fm1 filename ∧ disk fm1 = disk fm.
Proof.
  intros Hno [c Hc] Hr. set (path := normalizePath E filename) in *.
  unfold readPage, openFile in Hr. fold path in Hr. rewrite Hno in Hr.
  set (fm2 := if bool_decide _ then _ else _) in Hr.
  assert (disk fm2 = disk fm) as Hd2.
  { unfold fm2, evictFile. case_bool_decide; [|done]. by case_decide. }
  unfold FileHandle_open in Hr. cbn [mode_trunc] in Hr.
  rewrite Hd2, Hc, (bool_decide_true (is_Some (Some c))) in Hr by eauto. cbn [negb] in Hr.
  unfold handle_of in Hr. cbn [open_files set_open set_disk] in Hr.
  rewrite lookup_insert_eq in Hr. cbn [default from_option id] in Hr.
  unfold FileHandle_read in Hr. cbn [failed mode mode_in andb] in Hr.
  repeat case_match; simplify_eq; (split; [|done]);
    (eexists; split; [apply lookup_insert_eq|]; split; [by left|by exists c]).
Qed.

(** A file first opened by [readPage] can never be written: the read-only
    handle stays in the cache and is given to the writers, so every later
    [writePage] and [appendPage] of the file fails and the disk does not
    change, however the operations are ordered. *)
Theorem read_first_blocks_writes E fm filename pid os fm1 r fm' bs :
  open_files fm !! normalizePath E filename = None →
  readPage E fm filename pid = (fm1, r) → is_Some (disk fm !! normalizePath E filename) →
  run_ops E filename fm1 os = (fm', bs) →
  disk fm' = disk fm ∧ ∀ i o, os !! i = Some o → is_write o = true → bs !! i = Some false.
Proof.
  intros Hno Hr Hc Hrun. destruct (readPage_opens_readonly _ _ _ _ _ _ Hno Hc Hr) as [Hu <-].
  by eapply run_ops_unwritable.
Qed.

Lemma read_first_blocks_writes_witness :
  disk (run_ops env0 "t" (readPage env0 fm0 "t" 0).1 [op_write 0 [9]; op_read 1; op_append [9]]).1
  = disk fm0.
Proof.
  eapply (read_first_blocks_writes env0 fm0 "t" 0); [reflexivity| |by exists two_pages|];
    apply surjective_pairing.
Defined.

(** [atomicWrite] is all or nothing: when it succeeds the file holds exactly
    the given bytes and no temporary file is left, when it fails the file is as
    it was; the other files never change. *)
Theorem atomicWrite_spec E fm filename bs fm' b :
  atomicWrite E fm filename bs = (fm', b) →
  let path := normalizePath E filename in
  let temp := normalizePath E (String.append filename ".tmp") in
  path ≠ temp →
  disk fm' !! path = (if b then Some bs else disk fm !! path) ∧
  (b = true → disk fm' !! temp = None) ∧
  ∀ p, p ≠ path → p ≠ temp → disk fm' !! p = disk fm !! p.
Proof.
  intros Haw path temp Hne. unfold atomicWrite in Haw. fold temp in Haw.
  unfold FileHandle_open in Haw. cbn [mode_trunc] in Haw.
  destruct (bool_decide _ || can_create E temp); cbn [negb] in Haw; [|by simplify_eq].
  unfold atomicRename in Haw. fold path temp in Haw. cbn -[atomicRename] in Haw.
  rewrite lookup_insert_eq, insert_insert_eq, lookup_insert_ne in Haw by done.
  destruct (bool_decide _ || can_create E path); simplify_eq/=.
  - rewrite lookup_insert_eq, lookup_insert_ne, lookup_delete_eq by done.
    split_and!; [done..|]. intros p Hp Ht.
    by rewrite lookup_insert_ne, lookup_delete_ne, lookup_insert_ne by done.
  - rewrite !lookup_insert_ne by done. split_and!; [done..|].
    intros p Hp Ht. by rewrite !lookup_insert_ne by done.
Qed.

Lemma atomicWrite_spec_witness :
  (atomicWrite env0 fm0 "u" [1; 2]).2 = true ∧
  disk (atomicWrite env0 fm0 "u" [1; 2]).1 !! "/db/u" = Some [1; 2].
Proof.
  split; [reflexivity|].
  apply (atomicWrite_spec env0 fm0 "u" [1; 2] _ true (eq_refl _)). done.
Defined.
