(* ===== verification/Directories.v ===== *)
(** * Directories: the directory operations of the file manager and of the utilities

    The directory tree that [FileManager::init], [createDirectory], [listDirectory] and
    [deleteDirectory] (src/storage/file_manager.cpp) and the namespace [file_utils]
    (src/include/utils.h) act on: a node for each path, a path being the list of its names.
    A relative path starts at the working directory.  Links, permissions, a full disk and
    the name [..] are outside the model; an exception of [std::filesystem] is [None]. *)

From stdpp Require Import gmap strings list.
From S2P Require Import Prelude CxxString CxxStream Utils FileManager.

Open Scope Z_scope.

(** ** Paths *)

Definition slash : ascii := "/"%char.

(** A name that is complete; empty names and [.] do not count. *)
Definition push_name (names : list string) (cur : string) : list string :=
  if bool_decide (cur = "") || bool_decide (cur = ".") then names else names ++ [cur].

(** The complete names of a text and the one that is not finished. *)
Fixpoint scan_path (s : string) (names : list string) (cur : string) : list string * string :=
  match s with
  | EmptyString => (names, cur)
  | String c s' =>
      if bool_decide (c = slash) then scan_path s' (push_name names cur) ""
      else scan_path s' names (cur +:+ String c "")
  end.

Definition names_of (s : string) : list string :=
  let '(names, cur) := scan_path s [] "" in push_name names cur.

Definition is_absolute (s : string) : bool :=
  match s with String c _ => bool_decide (c = slash) | EmptyString => false end.

(** ** The tree *)

Inductive fs_node := FDir | FFile (content : list Z).

#[export] Instance fs_node_eq_dec : EqDecision fs_node.
Proof. solve_decision. Defined.

Abbreviation fsys := (gmap (list string) fs_node).

(** The root is always there. *)
Definition node_at (fs : fsys) (p : list string) : option fs_node :=
  match p with [] => Some FDir | _ => fs !! p end.

Definition is_dir (fs : fsys) (p : list string) : bool := bool_decide (node_at fs p = Some FDir).

(** Whether nothing is below a path. *)
Definition is_leaf (fs : fsys) (p : list string) : bool :=
  bool_decide (map_Forall (λ q _, q = p ∨ ¬ p `prefix_of` q) fs).

(** [std::filesystem::create_directories]: whether the last directory was made. *)
Fixpoint create_from (fs : fsys) (base rest : list string) (created : bool) : fsys * option bool :=
  match rest with
  | [] => (fs, Some created)
  | c :: rest' =>
      let d := base ++ [c] in
      match node_at fs d with
      | Some FDir => create_from fs d rest' false
      | Some (FFile _) => (fs, None)
      | None => create_from (<[d := FDir]> fs) d rest' true
      end
  end.

(** [std::filesystem::remove_all]: what is left and how many nodes were removed. *)
Definition remove_all (fs : fsys) (p : list string) : fsys * nat :=
  let keep := filter (λ x, ¬ p `prefix_of` x.1) fs in (keep, (size fs - size keep)%nat).

(** The names in a directory, in the order of the iterator. *)
Definition children_of (fs : fsys) (p : list string) : list string :=
  omap (λ x, match last x.1 with
             | Some c => if decide (x.1 = p ++ [c]) then Some c else None
             | None => None
             end) (map_to_list fs).

Section Cwd.
(** The working directory. *)
Variable cwd : list string.

Definition resolve (path : string) : list string :=
  if is_absolute path then names_of path else cwd ++ names_of path.

(** An empty path is an error. *)
Definition create_directories (fs : fsys) (path : string) : fsys * option bool :=
  if decide (path = "") then (fs, None) else create_from fs [] (resolve path) false.

(** ** FileManager *)

(** An exception ends the sequence and leaves what the calls before it did. *)
Fixpoint init_directories (dirs : list string) (fs : fsys) : fsys * bool :=
  match dirs with
  | [] => (fs, true)
  | dir :: dirs' =>
      match create_directories fs dir with
      | (fs', Some _) => init_directories dirs' fs'
      | (fs', None) => (fs', false)
      end
  end.

(** [DATA_DIR], [LOG_DIR] and [SYSTEM_DIR] *)
Definition fm_init (fs : fsys) : fsys * bool := init_directories ["data/tables"; "data/wal"; "data/system"] fs.

Definition createDirectory (fs : fsys) (path : string) : fsys * bool :=
  let '(fs', c) := create_directories fs path in (fs', default false c).

(** The names are added to the vector. *)
Definition listDirectory (fs : fsys) (path : string) (files : list string) : list string * bool :=
  if is_dir fs (resolve path) && negb (bool_decide (path = ""))
  then (files ++ children_of fs (resolve path), true) else (files, false).

Definition deleteDirectory (fs : fsys) (path : string) : fsys * bool :=
  if decide (path = "") then (fs, false)
  else let '(fs', n) := remove_all fs (resolve path) in (fs', (0 <? n)%nat).

(** ** file_utils *)

(** [std::ifstream f(path); f.good()]: a directory can be opened too. *)
Definition fexists (fs : fsys) (path : string) : bool :=
  negb (bool_decide (path = "")) && bool_decide (is_Some (node_at fs (resolve path))).

(** [::mkdir]: the parent must be a directory. *)
Definition mkdir (fs : fsys) (path : string) : fsys * bool :=
  let p := resolve path in
  if bool_decide (path = "") || bool_decide (is_Some (node_at fs p)) || negb (is_dir fs (removelast p))
  then (fs, false) else (<[p := FDir]> fs, true).

(** [find_first_of("/\\", pos)] in the rest of the path: what is before the separator, the
    separator and what is after it. *)
Fixpoint find_separator (rest : string) : option (string * ascii * string) :=
  match rest with
  | EmptyString => None
  | String c rest' =>
      if file_utils.is_separator c then Some ("", c, rest')
      else match find_separator rest' with
           | Some (before, sep, after) => Some (String c before, sep, after)
           | None => None
           end
  end.

(** [seen] is the path up to position [pos], [rest] what follows; a turn takes a separator. *)
Fixpoint mkdirs_loop (fuel : nat) (fs : fsys) (path seen rest : string) : fsys * bool :=
  match find_separator rest with
  | None => if negb (fexists fs path) then mkdir fs path else (fs, true)
  | Some (before, sep, after) =>
      let dir := seen +:+ before in
      match fuel with
      | O => (fs, false)
      | S fuel' =>
          if negb (bool_decide (dir = "")) && negb (fexists fs dir) then
            match mkdir fs dir with
            | (fs', false) => (fs', false)
            | (fs', true) => mkdirs_loop fuel' fs' path (dir +:+ String sep "") after
            end
          else mkdirs_loop fuel' fs path (dir +:+ String sep "") after
      end
  end.

(** The search begins at position 1. *)
Definition mkdirs (fs : fsys) (path : string) : fsys * bool :=
  match path with
  | EmptyString => mkdirs_loop 0 fs path "" ""
  | String c rest => mkdirs_loop (String.length path) fs path (String c "") rest
  end.

(** [std::remove]: a file, or a directory with nothing in it. *)
Definition fremove (fs : fsys) (path : string) : fsys * bool :=
  let p := resolve path in
  if decide (path = "") then (fs, false) else
  match fs !! p with
  | Some (FFile _) => (delete p fs, true)
  | Some FDir => if is_leaf fs p then (delete p fs, true) else (fs, false)
  | None => (fs, false)
  end.

(** The nodes at and below [p], moved to [q]. *)
Definition move_nodes (fs : fsys) (p q : list string) : fsys :=
  list_to_map (omap (λ x, if decide (p `prefix_of` x.1) then Some (q ++ drop (length p) x.1, x.2) else None)
                 (map_to_list fs)).

(** [std::rename]: what is at the new name is replaced if it is of the same kind and, for a
    directory, has nothing in it. *)
Definition frename (fs : fsys) (old_path new_path : string) : fsys * bool :=
  let p := resolve old_path in
  let q := resolve new_path in
  if decide (old_path = "" ∨ new_path = "") then (fs, false)
  else if decide (p = q) then (fs, bool_decide (is_Some (fs !! p)))
  else
    let replaceable := match fs !! p, node_at fs q with
      | Some _, None => true
      | Some (FFile _), Some (FFile _) => true
      | Some FDir, Some FDir => is_leaf fs q
      | _, _ => false
      end in
    if replaceable && is_dir fs (removelast q) && negb (bool_decide (p `prefix_of` q))
    then (move_nodes fs p q ∪ (remove_all (delete q fs) p).1, true) else (fs, false).

(** [tellg] at the end of the file: -1 when it cannot be opened; for a directory it is not
    determined. *)
Definition fsize (fs : fsys) (path : string) : option Z :=
  if decide (path = "") then Some (wrap 64 (-1)) else
  match node_at fs (resolve path) with
  | Some (FFile c) => Some (Z.of_nat (length c))
  | Some FDir => None
  | None => Some (wrap 64 (-1))
  end.

(** ** Lemmas *)

(** Every node is in a directory. *)
Definition fs_ok (fs : fsys) : Prop :=
  fs !! [] = None ∧ ∀ p c n, fs !! (p ++ [c]) = Some n → node_at fs p = Some FDir.

(** No file is on the way to a path. *)
Definition free_way (fs : fsys) (p : list string) : Prop :=
  ∀ q b, q `prefix_of` p → node_at fs q ≠ Some (FFile b).

(** One name more. *)
Definition add_dir (fs : fsys) (p : list string) : fsys :=
  match node_at fs p with Some _ => fs | None => <[p := FDir]> fs end.

(** All names of a path, from [base] on. *)
Fixpoint add_dirs (fs : fsys) (base rest : list string) : fsys :=
  match rest with
  | [] => fs
  | c :: rest' => add_dirs (add_dir fs (base ++ [c])) (base ++ [c]) rest'
  end.

Lemma add_dirs_app fs base l1 l2 :
  add_dirs fs base (l1 ++ l2) = add_dirs (add_dirs fs base l1) (base ++ l1) l2.
Proof.
  revert fs base. induction l1 as [|c l1 IH]; intros fs base; cbn; [by rewrite app_nil_r|].
  by rewrite IH, <- app_assoc.
Qed.

Lemma node_at_app fs p c : node_at fs (p ++ [c]) = fs !! (p ++ [c]).
Proof. by destruct p. Qed.

Lemma add_dir_lookup fs p q :
  p ≠ [] → node_at (add_dir fs p) q = if decide (q = p) then Some (default FDir (node_at fs p)) else node_at fs q.
Proof.
  intros Hp. unfold add_dir. destruct (node_at fs p) as [n|] eqn:Hn.
  - case_decide as Hq; [by subst|done].
  - case_decide as Hq; [subst q; destruct p as [|x p]; [done|]|destruct q as [|x q]; [done|]].
    + unfold node_at. by rewrite lookup_insert_eq.
    + unfold node_at. by rewrite lookup_insert_ne.
Qed.

(** What is at a path after the directories are made: the missing ones on the way. *)
Lemma add_dirs_lookup fs base rest q :
  node_at (add_dirs fs base rest) q =
  match node_at fs q with
  | Some n => Some n
  | None => if decide (base `prefix_of` q ∧ q ≠ base ∧ q `prefix_of` base ++ rest) then Some FDir else None
  end.
Proof.
  revert fs base. induction rest as [|c rest IH]; intros fs base; cbn.
  - destruct (node_at fs q); [done|]. rewrite decide_False; [done|]. intros (H1 & H2 & H3).
    rewrite app_nil_r in H3. by apply H2, (anti_symm prefix).
  - rewrite IH, add_dir_lookup by (by destruct base). rewrite <- app_assoc. cbn [app].
    case_decide as Hq.
    + subst q. destruct (node_at fs (base ++ [c])); cbn; [done|].
      rewrite decide_True; [done|]. split; [by apply prefix_app_r|]. split; [|apply prefix_app, prefix_cons, prefix_nil].
      intros Heq. apply (f_equal length) in Heq. rewrite length_app in Heq. cbn in Heq. lia.
    + destruct (node_at fs q); [done|]. apply decide_ext. split.
      * intros (H1 & H2 & H3). split; [by eapply prefix_app_l|]. split; [|done].
        intros ->. apply prefix_length in H1. rewrite length_app in H1. cbn in H1. lia.
      * intros ((k & ->) & H2 & H3). apply prefix_app_inv in H3.
        destruct k as [|d k]; [by rewrite app_nil_r in H2|].
        assert (d = c) as -> by (by apply prefix_cons_inv_1 in H3).
        split; [apply prefix_app, prefix_cons, prefix_nil|]. split; [done|]. by apply prefix_app.
Qed.

Lemma create_from_add fs base rest created :
  free_way fs (base ++ rest) →
  create_from fs base rest created =
    (add_dirs fs base rest, Some (match rest with [] => created | _ => negb (is_dir fs (base ++ rest)) end)).
Proof.
  revert fs base created. induction rest as [|c rest IH]; intros fs base created Hfree; [done|].
  cbn [create_from add_dirs]. unfold add_dir.
  assert (base ++ [c] `prefix_of` base ++ c :: rest) as Hpre by apply prefix_app, prefix_cons, prefix_nil.
  destruct (node_at fs (base ++ [c])) as [[|b]|] eqn:Hn; [|by destruct (Hfree _ b Hpre)|].
  - rewrite IH by (by rewrite <- app_assoc). rewrite <- app_assoc. cbn [app]. do 2 f_equal.
    destruct rest as [|c' rest]; [|done]. unfold is_dir. by rewrite Hn.
  - assert (∀ q, node_at (<[base ++ [c] := FDir]> fs) q =
      if decide (q = base ++ [c]) then Some FDir else node_at fs q) as Hlk.
    { intros q. pose proof (add_dir_lookup fs (base ++ [c]) q) as Hl. unfold add_dir in Hl.
      rewrite Hn in Hl. apply Hl. by destruct base. }
    rewrite IH.
    + rewrite <- app_assoc. cbn [app]. do 2 f_equal. unfold is_dir.
      destruct rest as [|c' rest]; [by rewrite Hn|]. rewrite Hlk, decide_False; [done|].
      intros Heq. apply app_inv_head in Heq. done.
    + intros q b Hq. rewrite Hlk. case_decide; [done|]. apply Hfree. by rewrite <- app_assoc in Hq.
Qed.

Lemma add_dirs_dir fs rest : free_way fs rest → node_at (add_dirs fs [] rest) rest = Some FDir.
Proof.
  intros Hfree. rewrite add_dirs_lookup. destruct (node_at fs rest) as [[|b]|] eqn:Hn; [done|by destruct (Hfree rest b)|].
  rewrite decide_True; [done|]. split; [apply prefix_nil|]. split; [by intros ->|done].
Qed.

Lemma ok_prefix_dirs fs p : fs_ok fs → node_at fs p = Some FDir → add_dirs fs [] p = fs.
Proof.
  intros Hok. induction p as [|c p IH] using rev_ind; [done|]. intros Hn. rewrite add_dirs_app.
  rewrite node_at_app in Hn. rewrite IH by (destruct Hok as [_ Hok]; by eapply Hok).
  cbn [add_dirs app]. unfold add_dir. by rewrite node_at_app, Hn.
Qed.

(** Paths as texts *)

Lemma scan_path_app s t names cur :
  scan_path (s +:+ t) names cur = let '(n, c) := scan_path s names cur in scan_path t n c.
Proof.
  revert names cur. induction s as [|c s IH]; intros names cur; [done|].
  change (String c s +:+ t) with (String c (s +:+ t)). cbn [scan_path]. case_bool_decide; apply IH.
Qed.

Lemma scan_path_name s names cur : no_char slash s = true → scan_path s names cur = (names, cur +:+ s).
Proof.
  revert cur. induction s as [|c s IH]; intros cur Hs; cbn [scan_path]; [by rewrite append_nil|].
  cbn [no_char] in Hs. apply andb_true_iff in Hs as [Hc Hs]. apply negb_true_iff in Hc. rewrite Hc.
  by rewrite IH, append_assoc.
Qed.

Lemma find_separator_some rest before sep after :
  find_separator rest = Some (before, sep, after) →
  rest = before +:+ String sep after ∧ no_char slash before = true ∧ file_utils.is_separator sep = true.
Proof.
  revert before. induction rest as [|c rest IH]; intros before Hf; cbn in Hf; [done|].
  destruct (file_utils.is_separator c) eqn:Hc; [by simplify_eq|].
  destruct (find_separator rest) as [[[b s0] a]|]; [|done]. simplify_eq.
  destruct (IH b eq_refl) as (-> & Hb & Hs). split; [done|]. split; [|done].
  cbn [no_char]. rewrite Hb, andb_true_r. apply negb_true_iff, bool_decide_eq_false. by intros ->.
Qed.

Lemma find_separator_none rest : find_separator rest = None → no_char slash rest = true.
Proof.
  induction rest as [|c rest IH]; cbn [find_separator no_char]; [done|].
  destruct (file_utils.is_separator c) eqn:Hc; [done|].
  destruct (find_separator rest) as [[[b s0] a]|]; [done|]. intros _. rewrite IH, andb_true_r by done.
  apply negb_true_iff, bool_decide_eq_false. by intros ->.
Qed.

Definition path_backslash : ascii := byte_ascii 92.

Lemma separator_slash c : file_utils.is_separator c = true → c ≠ path_backslash → c = slash.
Proof.
  unfold file_utils.is_separator. intros H Hne. apply orb_true_iff in H as [H%Z.eqb_eq|H%Z.eqb_eq].
  - apply (f_equal byte_ascii) in H. rewrite byte_ascii_byte in H. by rewrite H.
  - destruct Hne. apply (f_equal byte_ascii) in H. by rewrite byte_ascii_byte in H.
Qed.

(** ** mkdirs *)

Section Mkdirs.
Variables (fs : fsys) (path : string).
Hypothesis path_ok : path ≠ "".
Hypothesis way_free : free_way fs (resolve path).

Let base : list string := if is_absolute path then [] else cwd.

(** The tree with the directories of some names of the path. *)
Let tree (names : list string) : fsys := add_dirs fs [] (base ++ names).

Lemma resolve_prefix s t : s ≠ "" → s +:+ t = path → resolve s = base ++ names_of s.
Proof.
  intros Hs Hp. unfold resolve, base. rewrite <- Hp. destruct s as [|c s]; [done|].
  change (is_absolute (String c s +:+ t)) with (is_absolute (String c s)). by destruct (is_absolute (String c s)).
Qed.

Lemma push_name_cases names x : push_name names x = names ∨ push_name names x = names ++ [x].
Proof. unfold push_name. destruct (_ || _); auto. Qed.

Lemma tree_snoc names x : tree (names ++ [x]) = add_dir (tree names) ((base ++ names) ++ [x]).
Proof. unfold tree. by rewrite (app_assoc base), add_dirs_app. Qed.

(** A name more: the directory is there already, or its parent is and it is made. *)
Lemma mkdir_step names x s :
  s ≠ "" → resolve s = base ++ push_name names x → free_way fs (base ++ push_name names x) →
  (if negb (fexists (tree names) s) then mkdir (tree names) s else (tree names, true)) =
    (tree (push_name names x), true).
Proof.
  intros Hs Hr Hfree.
  assert (free_way fs (base ++ names)) as Hfree'.
  { intros q b Hq. apply Hfree. destruct (push_name_cases names x) as [->| ->]; [done|].
    rewrite app_assoc. by apply prefix_app_r. }
  pose proof (add_dirs_dir fs _ Hfree') as Hdir. fold (tree names) in Hdir.
  unfold fexists, mkdir. rewrite Hr, (bool_decide_false (s = "")) by done. cbn [negb andb orb].
  destruct (push_name_cases names x) as [Heq|Heq]; rewrite Heq in *.
  { rewrite bool_decide_true by (rewrite Hdir; eauto). done. }
  rewrite (tree_snoc names x), !(app_assoc base names [x]). unfold add_dir.
  destruct (node_at (tree names) ((base ++ names) ++ [x])) as [n|] eqn:Hn.
  - by rewrite bool_decide_true by eauto.
  - rewrite bool_decide_false by (by intros [? ?]). cbn [negb orb].
    rewrite removelast_last. unfold is_dir. by rewrite Hdir, bool_decide_true.
Qed.

Lemma mkdirs_loop_spec fuel : ∀ seen rest names cur,
  (String.length rest ≤ fuel)%nat → seen ≠ "" → seen +:+ rest = path → no_char path_backslash rest = true →
  scan_path seen [] "" = (names, cur) →
  mkdirs_loop fuel (tree names) path seen rest = (tree (names_of path), true).
Proof.
  assert (∀ p, p `prefix_of` base ++ names_of path → free_way fs p) as Hway.
  { intros p Hp q b Hq. apply way_free. rewrite (resolve_prefix path "") by (done || apply append_nil).
    by etrans. }
  assert (∀ s t, s +:+ String slash t = path → names_of s `prefix_of` names_of path) as Hpre.
  { intros s t <-. unfold names_of. rewrite scan_path_app. destruct (scan_path s [] "") as [n c].
    cbn [scan_path]. rewrite bool_decide_true by done. generalize (push_name n c). clear. intros n.
    revert n. enough (∀ c n, n `prefix_of` (let '(a, b) := scan_path t n c in push_name a b)) by done.
    induction t as [|d t IH]; intros c n; cbn [scan_path].
    - destruct (push_name_cases n c) as [->| ->]; [done|by apply prefix_app_r].
    - case_bool_decide; [|apply IH]. etrans; [|apply IH].
      destruct (push_name_cases n c) as [->| ->]; [done|by apply prefix_app_r]. }
  induction fuel as [|fuel IH]; intros seen rest names cur Hlen Hs Hp Hb Hscan; cbn [mkdirs_loop];
    (destruct (find_separator rest) as [[[before sep] after]|] eqn:Hf;
     [apply find_separator_some in Hf as (-> & Hbef & Hsep)|apply find_separator_none in Hf]).
  - rewrite length_append in Hlen. cbn in Hlen. lia.
  - assert (names_of path = push_name names (cur +:+ rest)) as Hn
      by (unfold names_of; by rewrite <- Hp, scan_path_app, Hscan, scan_path_name).
    rewrite Hn. apply mkdir_step; [done| |rewrite <- Hn; by apply Hway].
    rewrite <- Hn. by rewrite (resolve_prefix path "") by (done || apply append_nil).
  - rewrite no_char_app in Hb. apply andb_true_iff in Hb as [_ Hb]. cbn [no_char] in Hb.
    apply andb_true_iff in Hb as [Hc Hb]. apply negb_true_iff, bool_decide_eq_false in Hc.
    apply separator_slash in Hsep; [subst sep|done]. rewrite length_append in Hlen. cbn in Hlen.
    assert (seen +:+ before ≠ "") as Hne by (by destruct seen).
    assert (names_of (seen +:+ before) = push_name names (cur +:+ before)) as Hn
      by (unfold names_of; by rewrite scan_path_app, Hscan, scan_path_name).
    assert ((seen +:+ before) +:+ String slash after = path) as Hpath by (by rewrite append_assoc).
    pose proof (mkdir_step names (cur +:+ before) (seen +:+ before) Hne) as Hstep. rewrite <- Hn in Hstep.
    specialize (Hstep (resolve_prefix _ _ Hne Hpath) (Hway _ (prefix_app _ _ _ (Hpre _ _ Hpath)))).
    assert (mkdirs_loop fuel (tree (names_of (seen +:+ before))) path
      ((seen +:+ before) +:+ String slash "") after = (tree (names_of path), true)) as Hrec.
    { eapply IH; [lia|by destruct seen| |done|].
      - by rewrite append_assoc.
      - rewrite scan_path_app. unfold names_of. rewrite scan_path_app, Hscan, scan_path_name by done. done. }
    rewrite bool_decide_false by done. cbn [negb andb].
    destruct (negb (fexists (tree names) (seen +:+ before))).
    + rewrite Hstep. exact Hrec.
    + injection Hstep as ->. exact Hrec.
  - assert (names_of path = push_name names (cur +:+ rest)) as Hn
      by (unfold names_of; by rewrite <- Hp, scan_path_app, Hscan, scan_path_name).
    rewrite Hn. apply mkdir_step; [done| |rewrite <- Hn; by apply Hway].
    rewrite <- Hn. by rewrite (resolve_prefix path "") by (done || apply append_nil).
Qed.

End Mkdirs.

(** ** The invariant *)

Lemma add_dir_ok fs p c : fs_ok fs → node_at fs p = Some FDir → fs_ok (add_dir fs (p ++ [c])).
Proof.
  intros [Hroot Hok] Hp. split.
  - unfold add_dir. destruct (node_at fs (p ++ [c])); [done|]. rewrite lookup_insert_ne; [done|by destruct p].
  - intros q d n Hq. rewrite <- node_at_app, add_dir_lookup in Hq by (by destruct p).
    rewrite add_dir_lookup by (by destruct p). case_decide as Hd.
    + apply app_inj_tail in Hd as [-> ->]. rewrite decide_False; [done|].
      intros Heq. apply (f_equal length) in Heq. rewrite length_app in Heq. cbn in Heq. lia.
    + rewrite node_at_app in Hq. pose proof (Hok q d n Hq) as Hd'. case_decide; [subst|done]. by rewrite Hd'.
Qed.

Lemma add_dirs_ok fs base rest :
  fs_ok fs → node_at fs base = Some FDir → free_way fs (base ++ rest) → fs_ok (add_dirs fs base rest).
Proof.
  revert fs base. induction rest as [|c rest IH]; intros fs base Hok Hb Hfree; [done|]. cbn [add_dirs].
  assert (base ++ [c] `prefix_of` base ++ c :: rest) as Hpre by apply prefix_app, prefix_cons, prefix_nil.
  apply IH; [by apply add_dir_ok|..].
  - rewrite add_dir_lookup, decide_True by (done || by destruct base). f_equal.
    destruct (node_at fs (base ++ [c])) as [[|b]|] eqn:Hn; [done|by destruct (Hfree _ b Hpre)|done].
  - intros q b Hq. rewrite add_dir_lookup by (by destruct base). case_decide as Hd.
    + destruct (node_at fs (base ++ [c])) as [[|b']|] eqn:Hn; [done|by destruct (Hfree _ b' Hpre)|done].
    + apply Hfree. by rewrite <- app_assoc in Hq.
Qed.

(** A failed call makes the directories before the file that it meets. *)
Lemma create_from_ok fs base rest created :
  fs_ok fs → node_at fs base = Some FDir → fs_ok (create_from fs base rest created).1.
Proof.
  revert fs base created. induction rest as [|c rest IH]; intros fs base created Hok Hb; [done|].
  cbn [create_from]. pose proof (add_dir_ok fs base c Hok Hb) as Hok'.
  pose proof (add_dir_lookup fs (base ++ [c]) (base ++ [c])) as Hl. unfold add_dir in *.
  destruct (node_at fs (base ++ [c])) as [[|b]|] eqn:Hn; [by apply IH|done|].
  apply IH; [done|]. rewrite Hl by (by destruct base). by rewrite decide_True.
Qed.

Lemma create_directories_ok fs path : fs_ok fs → fs_ok (create_directories fs path).1.
Proof. intros Hok. unfold create_directories. case_decide; [done|]. by apply create_from_ok. Qed.

Lemma remove_all_lookup fs p q : (remove_all fs p).1 !! q = if decide (p `prefix_of` q) then None else fs !! q.
Proof.
  cbn. destruct (decide (p `prefix_of` q)) as [Hp|Hp].
  - apply map_lookup_filter_None. right. intros x _. cbn. by intros Hn.
  - destruct (fs !! q) as [n|] eqn:Hq.
    + by apply map_lookup_filter_Some.
    + apply map_lookup_filter_None. by left.
Qed.

Lemma prefix_of_parent (p q : list string) c : p `prefix_of` q → p `prefix_of` q ++ [c].
Proof. apply prefix_app_r. Qed.

Lemma remove_all_ok fs p : fs_ok fs → fs_ok (remove_all fs p).1.
Proof.
  intros [Hroot Hok]. split.
  - rewrite remove_all_lookup. by destruct (decide _).
  - intros q c n. rewrite remove_all_lookup. destruct (decide (p `prefix_of` q ++ [c])) as [|Hp]; [done|].
    intros Hq%Hok. destruct q as [|d q]; [done|]. unfold node_at in *. rewrite remove_all_lookup, decide_False; [done|].
    intros ?. by apply Hp, prefix_of_parent.
Qed.

Lemma mkdir_ok fs path : fs_ok fs → fs_ok (mkdir fs path).1.
Proof.
  intros Hok. unfold mkdir. destruct (_ || _) eqn:Hc; [done|]. cbn.
  apply orb_false_iff in Hc as [[_ Hn%bool_decide_eq_false]%orb_false_iff Hd%negb_false_iff].
  unfold is_dir in Hd. apply bool_decide_eq_true in Hd.
  destruct (exists_last (l := resolve path)) as (q & c & Heq); [intros Hr; apply Hn; rewrite Hr; by eexists|].
  rewrite Heq in *. rewrite removelast_last in Hd. pose proof (add_dir_ok fs q c Hok Hd) as Ha. unfold add_dir in Ha.
  destruct (node_at fs (q ++ [c])); [by destruct Hn; eauto|done].
Qed.

Lemma mkdirs_ok fs path : fs_ok fs → fs_ok (mkdirs fs path).1.
Proof.
  intros Hok. enough (∀ fuel seen rest fs, fs_ok fs → fs_ok (mkdirs_loop fuel fs path seen rest).1) as He
    by (unfold mkdirs; destruct path; by apply He).
  clear fs Hok. induction fuel as [|fuel IH]; intros seen rest fs Hok; cbn [mkdirs_loop];
    destruct (find_separator rest) as [[[before sep] after]|]; try done;
    try (destruct (negb _); [by apply mkdir_ok|done]).
  destruct (_ && _); [|by apply IH]. pose proof (mkdir_ok fs (seen +:+ before) Hok) as Hm.
  destruct (mkdir fs (seen +:+ before)) as [fs' []]; [by apply IH|done].
Qed.

Lemma is_leaf_below fs p q c n : is_leaf fs p = true → fs !! (q ++ [c]) = Some n → q ≠ p.
Proof.
  intros Hl%bool_decide_eq_true Hq ->. destruct (Hl _ _ Hq) as [Heq|Hn].
  - apply (f_equal length) in Heq. rewrite length_app in Heq. cbn in Heq. lia.
  - by apply Hn, prefix_app_r.
Qed.

(** A node without children may go. *)
Lemma delete_node_ok fs p :
  fs_ok fs → (∀ q c n, fs !! (q ++ [c]) = Some n → q ≠ p) → fs_ok (delete p fs).
Proof.
  intros [Hroot Hok] Hleaf. split; [by rewrite lookup_delete_None; right|].
  intros q c n Hq. apply lookup_delete_Some in Hq as [_ Hq]. pose proof (Hok q c n Hq) as Hd.
  destruct q as [|d q]; [done|]. unfold node_at in *. rewrite lookup_delete_ne; [done|].
  intros ->. by apply (Hleaf _ _ _ Hq).
Qed.

Lemma file_childless fs p b q c n : fs_ok fs → fs !! p = Some (FFile b) → fs !! (q ++ [c]) = Some n → q ≠ p.
Proof. intros [Hroot Hok] Hp Hq ->. apply Hok in Hq. destruct p; unfold node_at in Hq; congruence. Qed.

Lemma fremove_ok fs path : fs_ok fs → fs_ok (fremove fs path).1.
Proof.
  intros Hok. unfold fremove. case_decide; [done|].
  destruct (fs !! resolve path) as [[|b]|] eqn:Hp; [|cbn; apply delete_node_ok; [assumption|]|assumption].
  - destruct (is_leaf fs (resolve path)) eqn:Hl; cbn; [|exact Hok]. apply delete_node_ok; [exact Hok|].
    intros q c n. by apply is_leaf_below.
  - intros q c n. by eapply file_childless.
Qed.

(** The nodes that are moved. *)
Definition moved (p q : list string) (x : list string * fs_node) : option (list string * fs_node) :=
  if decide (p `prefix_of` x.1) then Some (q ++ drop (length p) x.1, x.2) else None.

Lemma moved_some p q x y : moved p q x = Some y ↔ ∃ t, x.1 = p ++ t ∧ y = (q ++ t, x.2).
Proof.
  unfold moved. case_decide as Hp.
  - destruct Hp as [t Ht]. rewrite Ht, drop_app_length. split; [intros; simplify_eq; by exists t|].
    intros (t' & ->%app_inv_head & ->). done.
  - split; [done|]. intros (t & Ht & _). destruct Hp. by exists t.
Qed.

Lemma moved_nodup p q l : NoDup l.*1 → NoDup (omap (moved p q) l).*1.
Proof.
  induction l as [|x l IH]; [done|]. rewrite fmap_cons, NoDup_cons. intros [Hx Hl]. cbn.
  destruct (moved p q x) as [y|] eqn:Hy; [|by apply IH]. rewrite fmap_cons, NoDup_cons. split; [|by apply IH].
  intros (z & Hz & (w & Hw & Hm)%list_elem_of_omap)%list_elem_of_fmap.
  apply moved_some in Hy as (t & Ht & ->), Hm as (u & Hu & ->). cbn in Hz. apply app_inv_head in Hz as <-.
  apply Hx. rewrite Ht, <- Hu. by apply list_elem_of_fmap_2.
Qed.

Lemma move_nodes_lookup fs p q r :
  move_nodes fs p q !! r = if decide (q `prefix_of` r) then fs !! (p ++ drop (length q) r) else None.
Proof.
  change (move_nodes fs p q) with (list_to_map (M := gmap (list string) fs_node) (omap (moved p q) (map_to_list fs))).
  apply option_eq. intros n. rewrite <- elem_of_list_to_map by apply moved_nodup, NoDup_fst_map_to_list.
  rewrite list_elem_of_omap. split.
  - intros ([k m] & Hk%elem_of_map_to_list & (t & Ht & Hr)%moved_some). cbn in *. simplify_eq.
    by rewrite decide_True, drop_app_length by (by apply prefix_app_r).
  - case_decide as Hq; [|done]. destruct Hq as [t ->]. rewrite drop_app_length. intros Hn.
    exists (p ++ t, n). split; [by apply elem_of_map_to_list|]. apply moved_some. by exists t.
Qed.

Lemma frename_lookup fs p q r :
  (move_nodes fs p q ∪ (remove_all (delete q fs) p).1) !! r =
  match (if decide (q `prefix_of` r) then fs !! (p ++ drop (length q) r) else None) with
  | Some n => Some n
  | None => if decide (p `prefix_of` r ∨ r = q) then None else fs !! r
  end.
Proof.
  rewrite lookup_union, move_nodes_lookup, remove_all_lookup.
  destruct (if decide (q `prefix_of` r) then _ else _) as [n|]; [by rewrite union_Some_l|].
  rewrite (left_id_L None _). destruct (decide (p `prefix_of` r)) as [Hp|Hp].
  - by rewrite decide_True by (by left).
  - destruct (decide (r = q)) as [->|Hq].
    + rewrite decide_True by (by right). apply lookup_delete_eq.
    + rewrite decide_False by tauto. by apply lookup_delete_ne.
Qed.

Lemma nothing_below fs q :
  fs_ok fs → (∀ r c n, fs !! (r ++ [c]) = Some n → r ≠ q) → ∀ e t, fs !! (q ++ e :: t) = None.
Proof.
  intros [_ Hup] Hleaf e t. apply eq_None_not_Some.
  induction t as [|d t IH] using rev_ind; intros [n Hn]; [by apply (Hleaf _ _ _ Hn)|].
  apply IH. change (e :: t ++ [d]) with ((e :: t) ++ [d]) in Hn. rewrite app_assoc in Hn.
  apply Hup in Hn. exists FDir. by destruct q.
Qed.

Lemma frename_ok fs old_path new_path : fs_ok fs → fs_ok (frename fs old_path new_path).1.
Proof.
  intros Hok. unfold frename. case_decide; [done|]. case_decide as Hpq; [done|].
  set (p := resolve old_path) in *. set (q := resolve new_path) in *.
  destruct (_ && _) eqn:Hc; [|done]. cbn [fst].
  apply andb_true_iff in Hc as [[Hrep Hpar%bool_decide_eq_true]%andb_true_iff Hnp%negb_true_iff].
  apply bool_decide_eq_false in Hnp. pose proof Hok as [Hroot Hup].
  assert (q ≠ []) as Hq0.
  { intros Hq. rewrite Hq in *. cbn in Hrep. destruct (fs !! p) as [[|b]|] eqn:Hp; [|done..].
    apply bool_decide_eq_true in Hrep. destruct (Hrep p FDir Hp) as [->|Hn]; [by rewrite Hroot in Hp|].
    apply Hn, prefix_nil. }
  assert (∀ r c n, fs !! (r ++ [c]) = Some n → r ≠ q) as Hleaf.
  { intros r c n Hr ->. pose proof (Hup _ _ _ Hr) as Hd. rewrite Hd in Hrep.
    destruct (fs !! p) as [[|b]|]; [|done..]. by apply (is_leaf_below _ _ _ _ _ Hrep Hr). }
  split.
  { rewrite frename_lookup, (decide_False (P := q `prefix_of` [])) by (by intros ?%prefix_nil_inv).
    by destruct (decide _). }
  assert (∀ r, r ≠ q → ¬ p `prefix_of` r → node_at fs r = Some FDir →
    node_at (move_nodes fs p q ∪ (remove_all (delete q fs) p).1) r = Some FDir) as Hkeep.
  { intros r Hrq Hrp Hr. destruct r as [|d r]; [done|]. unfold node_at in *. rewrite frename_lookup.
    rewrite (decide_False (P := p `prefix_of` d :: r ∨ d :: r = q)) by tauto.
    destruct (decide (q `prefix_of` d :: r)) as [[t Ht]|]; [|done].
    destruct t as [|e t]; [by rewrite app_nil_r in Ht|]. rewrite Ht in Hr.
    by rewrite (nothing_below fs q Hok Hleaf) in Hr. }
  intros r c n. rewrite frename_lookup. destruct (decide (q `prefix_of` r ++ [c])) as [[t Ht]|Hqr].
  - rewrite Ht, drop_app_length. destruct (fs !! (p ++ t)) as [m|] eqn:Hm; intros Hn.
    + destruct t as [|c' t _] using rev_ind.
      * rewrite app_nil_r in Ht. subst q. rewrite <- Ht, removelast_last in Hpar. rewrite <- Ht in *. apply Hkeep; [|intros ?; by apply Hnp, prefix_of_parent|done].
        intros Heq. apply (f_equal length) in Heq. rewrite length_app in Heq. cbn in Heq. lia.
      * rewrite app_assoc in Ht. apply app_inj_tail in Ht as [-> ->]. rewrite app_assoc in Hm. apply Hup in Hm.
        unfold node_at at 1. destruct (q ++ t) as [|x l] eqn:Hqt; [done|]. rewrite <- Hqt, frename_lookup.
        rewrite decide_True, drop_app_length by (by apply prefix_app_r).
        destruct (p ++ t) as [|y k] eqn:Hpt; [apply app_eq_nil in Hpt as [Hp0 _]; rewrite Hp0 in Hnp; destruct Hnp; apply prefix_nil|].
        unfold node_at in Hm. by rewrite Hm.
    + case_decide as Hd; [done|]. rewrite <- Ht in *. apply Hkeep; [by eapply Hleaf| |by eapply Hup].
      intros ?. apply Hd. left. by apply prefix_of_parent.
  - case_decide as Hd; [done|]. intros Hn. apply Hkeep; [by eapply Hleaf| |by eapply Hup].
    intros ?. apply Hd. left. by apply prefix_of_parent.
Qed.

(** ** What is proved of the directories *)

(** One call of the file manager or of the utilities. *)
Inductive fs_step : fsys → fsys → Prop :=
  | step_init fs : fs_step fs (fm_init fs).1
  | step_create fs path : fs_step fs (createDirectory fs path).1
  | step_delete fs path : fs_step fs (deleteDirectory fs path).1
  | step_mkdir fs path : fs_step fs (mkdir fs path).1
  | step_mkdirs fs path : fs_step fs (mkdirs fs path).1
  | step_remove fs path : fs_step fs (fremove fs path).1
  | step_rename fs old_path new_path : fs_step fs (frename fs old_path new_path).1.

Lemma init_directories_ok dirs fs : fs_ok fs → fs_ok (init_directories dirs fs).1.
Proof.
  revert fs. induction dirs as [|d dirs IH]; intros fs Hok; [done|]. cbn [init_directories].
  pose proof (create_directories_ok fs d Hok) as Hc. destruct (create_directories fs d) as [fs' []]; [by apply IH|done].
Qed.

(** Invariant of the directory tree: whatever calls are made, successful or not, every file
    and directory stays in a directory. *)
Theorem directory_tree_invariant fs fs' : fs_ok fs → rtc fs_step fs fs' → fs_ok fs'.
Proof.
  intros Hok Hsteps. induction Hsteps as [|fs1 fs2 fs3 Hstep _ IH]; [done|]. apply IH. clear IH.
  destruct Hstep as [fs|fs path|fs path|fs path|fs path|fs path|fs old_path new_path].
  - by apply init_directories_ok.
  - unfold createDirectory. pose proof (create_directories_ok fs path Hok).
    by destruct (create_directories fs path).
  - unfold deleteDirectory. case_decide; [done|]. by apply remove_all_ok.
  - by apply mkdir_ok.
  - by apply mkdirs_ok.
  - by apply fremove_ok.
  - by apply frename_ok.
Qed.

Lemma create_directories_add fs path :
  path ≠ "" → free_way fs (resolve path) →
  create_directories fs path = (add_dirs fs [] (resolve path), Some (negb (is_dir fs (resolve path)))).
Proof.
  intros Hp Hfree. unfold create_directories. rewrite decide_False by done. rewrite create_from_add by done.
  by destruct (resolve path).
Qed.


(** Deleting a directory removes it with everything below it and nothing else, and a file is
    deleted as well; the result tells whether there was anything. *)
Theorem deleteDirectory_spec fs path q :
  path ≠ "" →
  (deleteDirectory fs path).1 !! q = (if decide (resolve path `prefix_of` q) then None else fs !! q) ∧
  ((deleteDirectory fs path).2 = true ↔ ∃ r n, fs !! r = Some n ∧ resolve path `prefix_of` r).
Proof.
  intros Hp. unfold deleteDirectory. rewrite decide_False by done. split; [apply remove_all_lookup|].
  cbn [remove_all snd]. set (keep := filter _ fs). rewrite Nat.ltb_lt.
  destruct (decide (map_Forall (λ r _, ¬ resolve path `prefix_of` r) fs)) as [Hall|Hex].
  - assert (keep = fs) as -> by (apply map_filter_id; intros r n Hr; by apply (Hall r n)).
    split; [lia|]. intros (r & n & Hr & Hpre). by destruct (Hall r n Hr).
  - apply map_not_Forall in Hex as (r & n & Hr & Hpre%dec_stable); [|apply _].
    split; [by exists r, n|]. intros _. enough (size keep < size fs)%nat by lia. apply map_subset_size.
    split; [apply map_filter_subseteq|]. intros Hsub. pose proof (lookup_weaken _ _ _ _ Hr Hsub) as Hk.
    apply map_lookup_filter_Some in Hk as [_ Hk]. by apply Hk.
Qed.

(** A directory lists exactly the names in it, after those that the vector has already. *)
Theorem listDirectory_spec fs path files :
  path ≠ "" →
  if is_dir fs (resolve path)
  then ∃ names, listDirectory fs path files = (files ++ names, true) ∧
    ∀ c, c ∈ names ↔ is_Some (fs !! (resolve path ++ [c]))
  else listDirectory fs path files = (files, false).
Proof.
  intros Hp. unfold listDirectory. rewrite (bool_decide_false (path = "")) by done. cbn [negb].
  rewrite andb_true_r. destruct (is_dir fs (resolve path)); [|done]. eexists. split; [done|].
  intros c. unfold children_of. rewrite list_elem_of_omap. split.
  - intros ([k n] & Hk%elem_of_map_to_list & Hc). cbn in Hc. destruct (last k) as [d|]; [|done].
    case_decide; simplify_eq. by exists n.
  - intros [n Hn]. exists (resolve path ++ [c], n). split; [by apply elem_of_map_to_list|].
    cbn. rewrite last_snoc. by rewrite decide_True.
Qed.

(** Initialisation makes the three directories, succeeds again when they are there, and then
    changes nothing. *)
Lemma init_directories_add dirs : ∀ fs,
  (∀ d, d ∈ dirs → d ≠ "" ∧ free_way fs (resolve d)) →
  ∃ fs', init_directories dirs fs = (fs', true) ∧ (∀ d, d ∈ dirs → node_at fs' (resolve d) = Some FDir) ∧
    ∀ q, node_at fs' q = node_at fs q ∨ (node_at fs q = None ∧ node_at fs' q = Some FDir).
Proof.
  induction dirs as [|d dirs IH]; intros fs Hd; [exists fs; split; [done|]; split; [by intros ? ?%elem_of_nil|by left]|].
  cbn [init_directories]. destruct (Hd d) as [Hne Hfree]; [by left|]. rewrite create_directories_add by done.
  set (fs1 := add_dirs fs [] (resolve d)).
  assert (∀ q, node_at fs1 q = node_at fs q ∨ (node_at fs q = None ∧ node_at fs1 q = Some FDir)) as Hq.
  { intros q. unfold fs1. rewrite add_dirs_lookup. destruct (node_at fs q); [by left|]. case_decide; by auto. }
  destruct (IH fs1) as (fs2 & Hi & Hdirs & Hq2).
  { intros e He. destruct (Hd e) as [? Hf]; [by right|]. split; [done|]. intros r b Hr Hb.
    destruct (Hq r) as [Heq|[_ Heq]]; rewrite Heq in Hb; [|done]. by apply (Hf r b Hr). }
  exists fs2. split; [done|]. split.
  - intros e [->|He]%elem_of_cons; [|by apply Hdirs].
    pose proof (add_dirs_dir fs (resolve d) Hfree) as Hdir. fold fs1 in Hdir.
    destruct (Hq2 (resolve d)) as [->|[_ ->]]; done.
  - intros q. destruct (Hq2 q) as [H2|[H2a H2b]], (Hq q) as [H1|[H1a H1b]]; rewrite ?H2, ?H1; auto.
    right. split; [by rewrite <- H1|done].
Qed.

Theorem fm_init_spec fs :
  fs_ok fs → (∀ d, d ∈ ["data/tables"; "data/wal"; "data/system"] → free_way fs (resolve d)) →
  ∃ fs', fm_init fs = (fs', true) ∧ fs_ok fs' ∧
    (∀ d, d ∈ ["data/tables"; "data/wal"; "data/system"] → is_dir fs' (resolve d) = true) ∧
    fm_init fs' = (fs', true).
Proof.
  intros Hok Hfree. destruct (init_directories_add ["data/tables"; "data/wal"; "data/system"] fs)
    as (fs' & Hi & Hdirs & Hq).
  { intros d Hd. split; [|by apply Hfree]. repeat (apply elem_of_cons in Hd as [->|Hd]; [done|]). by apply elem_of_nil in Hd. }
  assert (fs_ok fs') as Hok' by (pose proof (init_directories_ok ["data/tables"; "data/wal"; "data/system"] fs Hok) as H; by rewrite Hi in H).
  exists fs'. split; [exact Hi|]. split; [done|]. split.
  { intros d Hd. unfold is_dir. by rewrite Hdirs, bool_decide_true. }
  assert (∀ d, d ∈ ["data/tables"; "data/wal"; "data/system"] → create_directories fs' d = (fs', Some false)) as Hc.
  { intros d Hd. pose proof (Hdirs d Hd) as Hdir. rewrite create_directories_add.
    - rewrite ok_prefix_dirs by done. unfold is_dir. by rewrite Hdir, bool_decide_true.
    - repeat (apply elem_of_cons in Hd as [->|Hd]; [done|]). by apply elem_of_nil in Hd.
    - intros r b Hr Hb. destruct (Hq r) as [Heq|[_ Heq]]; rewrite Heq in Hb; [|done]. by apply (Hfree d Hd r b). }
  unfold fm_init. cbn [init_directories]. rewrite !Hc by set_solver. done.
Qed.

End Cwd.

(** ** Examples *)

(** A working directory with a file in it. *)
Definition fs0 : fsys := {[ ["db"] := FDir; ["db"; "readme"] := FFile [1; 2] ]}.


(** A file in the place of the directory: [mkdirs] reports success and makes nothing. *)
Example mkdirs_on_file : mkdirs ["db"] fs0 "readme" = (fs0, true) ∧ createDirectory ["db"] fs0 "readme" = (fs0, false).
Proof. by vm_compute. Qed.

Example rename_and_size :
  fsize ["db"] (frename ["db"] fs0 "readme" "/db/notes").1 "notes" = Some 2 ∧
  fexists ["db"] (frename ["db"] fs0 "readme" "/db/notes").1 "readme" = false ∧
  (fremove ["db"] fs0 "/db").2 = false.
Proof. by vm_compute. Qed.
