(* ===== verification/BufferPool.v ===== *)
(** * BufferPool: cached pages over a page store
    (src/storage/buffer_pool.h, buffer_pool.cpp)

    The pool is written against [PageStore], the interface of the file manager.
    [lru_list_] is a list of nodes with an identity, since [lru_iterators_] maps
    pages to nodes and not to positions: [(node, page)], most recent first.
    A [Page*] that an operation returns is the key of the frame that owns the
    page; the caller changes the page with [with_page].  Operations are atomic,
    as they hold [mutex_] throughout.  [None] is a call that does not return
    normally: an eviction loop that makes no progress, a wait on a latched
    frame, or an access through an iterator that is not there.  The access
    times of the frames are not modelled. *)

From stdpp Require Import gmap strings.
From S2P Require Import Prelude CxxString Types Page FileManager.

Open Scope Z_scope.

Module FetchMode.
Inductive FetchMode := READ | WRITE | PIN | UNPIN.

#[export] Instance FetchMode_eq_dec : EqDecision FetchMode.
Proof. solve_decision. Defined.
End FetchMode.
Export (hints) FetchMode.
Abbreviation FetchMode := FetchMode.FetchMode.

Module EvictionStrategy.
Inductive EvictionStrategy := LRU | CLOCK | FIFO.
End EvictionStrategy.
Abbreviation EvictionStrategy := EvictionStrategy.EvictionStrategy.

Record BufferPoolStats := mkStats {
  hits : Z;
  misses : Z;
  reads : Z;
  writes : Z;
  evictions : Z
}.
Definition stats_zero : BufferPoolStats := mkStats 0 0 0 0 0.
Definition count_hit (s : BufferPoolStats) : BufferPoolStats :=
  mkStats (wrap 64 (hits s + 1)) (misses s) (reads s) (writes s) (evictions s).
Definition count_miss (s : BufferPoolStats) : BufferPoolStats :=
  mkStats (hits s) (wrap 64 (misses s + 1)) (reads s) (writes s) (evictions s).
Definition count_disk_read (s : BufferPoolStats) : BufferPoolStats :=
  mkStats (hits s) (misses s) (wrap 64 (reads s + 1)) (writes s) (evictions s).
Definition count_disk_write (s : BufferPoolStats) : BufferPoolStats :=
  mkStats (hits s) (misses s) (reads s) (wrap 64 (writes s + 1)) (evictions s).
Definition count_eviction (s : BufferPoolStats) : BufferPoolStats :=
  mkStats (hits s) (misses s) (reads s) (writes s) (wrap 64 (evictions s + 1)).

(** ** BufferFrame *)

Record BufferFrame := mkFrame {
  fpage : Page;
  pin_count : Z;
  dirty : bool;
  latched : bool
}.

Definition BufferFrame_new (p : Page) : BufferFrame := mkFrame p 0 false false.
Definition isPinned (f : BufferFrame) : bool := 0 <? pin_count f.
Definition pin (f : BufferFrame) : BufferFrame :=
  mkFrame (fpage f) (wrap 64 (pin_count f + 1)) (dirty f) (latched f).
Definition unpin (f : BufferFrame) : BufferFrame :=
  if 0 <? pin_count f then mkFrame (fpage f) (pin_count f - 1) (dirty f) (latched f) else f.
Definition setDirty (b : bool) (f : BufferFrame) : BufferFrame :=
  mkFrame (fpage f) (pin_count f) b (latched f).
Definition set_latch (b : bool) (f : BufferFrame) : BufferFrame :=
  mkFrame (fpage f) (pin_count f) (dirty f) b.
Definition set_fpage (p : Page) (f : BufferFrame) : BufferFrame :=
  mkFrame p (pin_count f) (dirty f) (latched f).

(** The effect of the mode of a fetch on the frame it returns. *)
Definition apply_mode (m : FetchMode) (f : BufferFrame) : BufferFrame :=
  let f := if decide (m = FetchMode.WRITE) then setDirty true f else f in
  if decide (m = FetchMode.PIN) then pin f else f.

Definition MAX_POOL_SIZE : nat := Z.to_nat 1048576.

Definition DATA_DIR : string := "data/tables".
Definition table_file (table : Z) : string :=
  String.append DATA_DIR (String.append "/table_" (String.append (to_string table) ".dat")).

Section Pool.
Context {St : Type} `{PageStore St}.

Record BufferPool := mkPool {
  pool_size : nat;
  frames : gmap Z BufferFrame;
  lru_list : list (nat * Z);
  lru_iterators : gmap Z nat;
  next_node : nat;
  strategy : EvictionStrategy;
  clock_hand : nat;
  file_manager : St;
  stats : BufferPoolStats;
  next_page_id : Z
}.

Definition set_frames (fs : gmap Z BufferFrame) (p : BufferPool) : BufferPool :=
  mkPool (pool_size p) fs (lru_list p) (lru_iterators p) (next_node p) (strategy p)
    (clock_hand p) (file_manager p) (stats p) (next_page_id p).
Definition set_lru (l : list (nat * Z)) (its : gmap Z nat) (n : nat) (p : BufferPool) : BufferPool :=
  mkPool (pool_size p) (frames p) l its n (strategy p)
    (clock_hand p) (file_manager p) (stats p) (next_page_id p).
Definition set_store (s : St) (p : BufferPool) : BufferPool :=
  mkPool (pool_size p) (frames p) (lru_list p) (lru_iterators p) (next_node p) (strategy p)
    (clock_hand p) s (stats p) (next_page_id p).
Definition set_stats (f : BufferPoolStats → BufferPoolStats) (p : BufferPool) : BufferPool :=
  mkPool (pool_size p) (frames p) (lru_list p) (lru_iterators p) (next_node p) (strategy p)
    (clock_hand p) (file_manager p) (f (stats p)) (next_page_id p).
Definition set_hand (n : nat) (p : BufferPool) : BufferPool :=
  mkPool (pool_size p) (frames p) (lru_list p) (lru_iterators p) (next_node p) (strategy p)
    n (file_manager p) (stats p) (next_page_id p).
Definition set_size (n : nat) (p : BufferPool) : BufferPool :=
  mkPool n (frames p) (lru_list p) (lru_iterators p) (next_node p) (strategy p)
    (clock_hand p) (file_manager p) (stats p) (next_page_id p).
Definition set_next_id (z : Z) (p : BufferPool) : BufferPool :=
  mkPool (pool_size p) (frames p) (lru_list p) (lru_iterators p) (next_node p) (strategy p)
    (clock_hand p) (file_manager p) (stats p) z.

(** [BufferPool::BufferPool]; the page counter is static and starts at 1. *)
Definition BufferPool_new (size : nat) (s : St) : BufferPool :=
  mkPool (Nat.min size MAX_POOL_SIZE) ∅ [] ∅ 0 EvictionStrategy.LRU 0 s stats_zero 1.

(** ** Disk *)

Definition readFromDisk (table pid : Z) (p : BufferPool) : BufferPool * option Page :=
  let '(s, r) := ps_read (file_manager p) (table_file table) pid in
  (set_store s p, page_deserialize <$> r).

(** The result of the write is ignored; the page's own dirty flag is cleared. *)
Definition writeToDisk (key : Z) (f : BufferFrame) (p : BufferPool) : BufferPool :=
  let pg := fpage f in
  let '(s, _) := ps_write (file_manager p) (table_file (table_id (header pg)))
                   (page_id (header pg)) (page_serialize pg) in
  set_frames (<[key := set_fpage (clearDirty pg) f]> (frames p)) (set_store s p).

(** ** LRU list *)

Definition erase_node (n : nat) (l : list (nat * Z)) : list (nat * Z) :=
  filter (λ x, x.1 ≠ n) l.

(** [push_front] and the iterator to the new node *)
Definition push_lru (pid : Z) (p : BufferPool) : BufferPool :=
  set_lru ((next_node p, pid) :: lru_list p) (<[pid := next_node p]> (lru_iterators p))
    (S (next_node p)) p.

Definition updateLRU (pid : Z) (p : BufferPool) : BufferPool :=
  let p := match lru_iterators p !! pid with
           | Some n => set_lru (erase_node n (lru_list p)) (lru_iterators p) (next_node p) p
           | None => p
           end in
  push_lru pid p.

(** ** Victims *)

Definition unpinned_in (fs : gmap Z BufferFrame) (pid : Z) : bool :=
  match fs !! pid with Some f => negb (isPinned f) | None => false end.

(** The scan of the list from its back. *)
Fixpoint lru_scan (fs : gmap Z BufferFrame) (l : list (nat * Z)) : Z :=
  match l with
  | [] => INVALID_PAGE_ID
  | (_, pid) :: l' => if unpinned_in fs pid then pid else lru_scan fs l'
  end.

Fixpoint selectVictimClock_loop (attempts : nat) (ks : list (Z * BufferFrame)) (hand : nat)
  : nat * Z :=
  match attempts with
  | O => (hand, INVALID_PAGE_ID)
  | S attempts' =>
      let hand := if decide (length ks ≤ hand)%nat then 0%nat else hand in
      match ks !! hand with
      | Some (pid, f) =>
          if negb (isPinned f) then (((hand + 1) mod length ks)%nat, pid)
          else selectVictimClock_loop attempts' ks (hand + 1)
      | None => (hand, INVALID_PAGE_ID)
      end
  end.

Definition selectVictimClock (p : BufferPool) : BufferPool * Z :=
  let ks := map_to_list (frames p) in
  let '(hand, v) := selectVictimClock_loop (length ks * 2) ks (clock_hand p) in
  (set_hand hand p, v).

Definition selectVictim (p : BufferPool) : BufferPool * Z :=
  match strategy p with
  | EvictionStrategy.LRU =>
      (p, lru_scan (frames p) (reverse (lru_list p)))
  | EvictionStrategy.CLOCK => selectVictimClock p
  | EvictionStrategy.FIFO => (p, default INVALID_PAGE_ID (snd <$> last (lru_list p)))
  end.

(** Removal of a frame, its node and its iterator; [None] if the page has no
    iterator. *)
Definition drop_frame (pid : Z) (p : BufferPool) : option BufferPool :=
  n ← lru_iterators p !! pid;
  Some (set_frames (delete pid (frames p))
          (set_lru (erase_node n (lru_list p)) (delete pid (lru_iterators p)) (next_node p) p)).

Definition evictPage (p : BufferPool) : option BufferPool :=
  let '(p, victim) := selectVictim p in
  if decide (victim = INVALID_PAGE_ID) then Some p
  else
    f ← frames p !! victim;
    let p := if dirty f then set_stats count_disk_write (writeToDisk victim f p) else p in
    set_stats count_eviction <$> drop_frame victim p.

(** [while (frames_.size() >= limit) evictPage();] *)
Fixpoint evict_while (fuel : nat) (limit : nat) (p : BufferPool) : option BufferPool :=
  if decide (limit ≤ size (frames p))%nat then
    match fuel with
    | O => None
    | S fuel' => p' ← evictPage p; evict_while fuel' limit p'
    end
  else Some p.

(** A turn of the loop removes a frame or changes nothing that the next turns
    look at, so one turn per frame is enough. *)
Definition make_room (limit : nat) (p : BufferPool) : option BufferPool :=
  evict_while (size (frames p)) limit p.

(** ** Interface *)

(** The page pointer is [Some key], or [None] for [nullptr]. *)
Definition fetchPage (table pid : Z) (m : FetchMode) (p : BufferPool)
  : option (BufferPool * option Z) :=
  match frames p !! pid with
  | Some f =>
      let p := set_stats count_hit p in
      if latched f then None
      else
        let f := apply_mode m (set_latch true f) in
        let p := updateLRU pid p in
        Some (set_frames (<[pid := set_latch false f]> (frames p)) p, Some pid)
  | None =>
      let p := set_stats count_miss p in
      p ← make_room (pool_size p) p;
      let '(p, r) := readFromDisk table pid p in
      match r with
      | None => Some (p, None)
      | Some pg =>
          let f := apply_mode m (set_latch true (BufferFrame_new pg)) in
          let key := page_id (header pg) in
          let p := push_lru key (set_frames (<[key := f]> (frames p)) p) in
          let p := set_stats count_disk_read p in
          Some (set_frames (<[key := set_latch false f]> (frames p)) p, Some key)
      end
  end.

Definition createNewPage (table : Z) (type : PageType) (p : BufferPool)
  : option (BufferPool * Z) :=
  let new_page_id := next_page_id p in
  let p := set_next_id (wrap 64 (new_page_id + 1)) p in
  let pg := setType type (Page_new new_page_id table) in
  p ← make_room (pool_size p) p;
  let f := setDirty true (set_latch true (BufferFrame_new pg)) in
  let p := push_lru new_page_id (set_frames (<[new_page_id := f]> (frames p)) p) in
  let p := set_stats count_disk_write p in
  Some (set_frames (<[new_page_id := set_latch false f]> (frames p)) p, new_page_id).

Definition unpinPage (pid : Z) (d : bool) (p : BufferPool) : BufferPool :=
  match frames p !! pid with
  | Some f =>
      let f := unpin f in
      set_frames (<[pid := if d then setDirty true f else f]> (frames p)) p
  | None => p
  end.

Definition flush_frame (pid : Z) (f : BufferFrame) (p : BufferPool) : BufferPool :=
  let p := writeToDisk pid f p in
  set_stats count_disk_write
    (set_frames (<[pid := setDirty false (set_fpage (clearDirty (fpage f)) f)]> (frames p)) p).

Definition flushPage (pid : Z) (p : BufferPool) : BufferPool :=
  match frames p !! pid with
  | Some f => if dirty f then flush_frame pid f p else p
  | None => p
  end.

(** The keys in the order of the iteration. *)
Definition flushAll (p : BufferPool) : BufferPool :=
  foldl (λ p pid, flushPage pid p) p (map_to_list (frames p)).*1.

Definition isPageInPool (pid : Z) (p : BufferPool) : bool :=
  bool_decide (is_Some (frames p !! pid)).

Definition discardPage (pid : Z) (p : BufferPool) : option BufferPool :=
  match frames p !! pid with
  | Some f => drop_frame pid (if dirty f then writeToDisk pid f p else p)
  | None => Some p
  end.

Definition discardAll (p : BufferPool) : BufferPool :=
  let p := flushAll p in set_frames ∅ (set_lru [] ∅ (next_node p) p).

Definition resetStats (p : BufferPool) : BufferPool := set_stats (λ _, stats_zero) p.

(** [while (frames_.size() > new_size)] *)
Definition setPoolSize (new_size : nat) (p : BufferPool) : option BufferPool :=
  let new_size := Nat.min new_size MAX_POOL_SIZE in
  set_size new_size <$> make_room (S new_size) p.

Definition sync : BufferPool → BufferPool := flushAll.

(** A change made through a page pointer. *)
Definition with_page (key : Z) (g : Page → Page) (p : BufferPool) : BufferPool :=
  match frames p !! key with
  | Some f => set_frames (<[key := set_fpage (g (fpage f)) f]> (frames p)) p
  | None => p
  end.

End Pool.
Arguments BufferPool : clear implicits.
