(* ===== verification/BufferPoolProofs.v ===== *)
(** * BufferPoolProofs: correctness of the buffer pool

    The invariant of the pool and that every operation keeps it, the choice of
    the victim, when making room terminates, and what happens to the data of
    the pages that leave the pool. *)

From stdpp Require Import gmap strings.
From S2P Require Import Prelude CxxString Types Page FileManager BufferPool.

Open Scope Z_scope.

Section Proofs.
Context {St : Type} `{PageStore St}.
Implicit Types p : BufferPool St.

(** ** Invariant *)

(** The nodes of the list are distinct and every frame has an iterator to a node
    of its page; no frame stays latched; the pool never exceeds its size. *)
Record pool_ok p : Prop := mk_pool_ok {
  ok_nodup : NoDup (lru_list p).*1;
  ok_fresh : Forall (λ x, (x.1 < next_node p)%nat) (lru_list p);
  ok_dom : dom (lru_iterators p) = dom (frames p);
  ok_iter : ∀ pid n, lru_iterators p !! pid = Some n → (n, pid) ∈ lru_list p;
  ok_latch : ∀ pid f, frames p !! pid = Some f → latched f = false;
  ok_size : (size (frames p) ≤ pool_size p)%nat;
  ok_strategy : strategy p = EvictionStrategy.LRU
}.

(** Operations that change only the contents of frames. *)
Lemma pool_ok_frame p pid f f' :
  pool_ok p → frames p !! pid = Some f → latched f' = false →
  pool_ok (set_frames (<[pid := f']> (frames p)) p).
Proof.
  intros [] Hf Hl. constructor; cbn; try done.
  - rewrite dom_insert_L, ok_dom0. apply elem_of_dom_2 in Hf. set_solver.
  - intros pid' g. destruct (decide (pid' = pid)) as [->|];
      rewrite ?lookup_insert_eq, ?lookup_insert_ne by done; naive_solver.
  - rewrite map_size_insert_Some by eauto. done.
Qed.

Lemma pool_ok_store p s : pool_ok p → pool_ok (set_store s p).
Proof. by intros []. Qed.

Lemma pool_ok_stats p f : pool_ok p → pool_ok (set_stats f p).
Proof. by intros []. Qed.

Lemma pool_ok_next_id p z : pool_ok p → pool_ok (set_next_id z p).
Proof. by intros []. Qed.

Lemma erase_node_spec n l x : x ∈ erase_node n l ↔ x ∈ l ∧ x.1 ≠ n.
Proof. unfold erase_node. rewrite list_elem_of_filter. tauto. Qed.

Lemma erase_node_nodup n l : NoDup l.*1 → NoDup (erase_node n l).*1.
Proof.
  induction l as [|[m q] l IH]; intros Hl; [done|]. apply NoDup_cons in Hl as [Hm Hl].
  unfold erase_node. rewrite filter_cons. case_decide; [|auto].
  constructor; [|auto]. intros (x & Heq & [Hx _]%erase_node_spec)%list_elem_of_fmap.
  apply Hm, list_elem_of_fmap. eauto.
Qed.

Lemma erase_node_fresh n m l :
  Forall (λ x : nat * Z, (x.1 < m)%nat) l → Forall (λ x, (x.1 < m)%nat) (erase_node n l).
Proof. rewrite !Forall_forall. intros Hl x [? _]%erase_node_spec. auto. Qed.

(** Two iterators never share a node. *)
Lemma ok_iter_inj p pid pid' n :
  pool_ok p → lru_iterators p !! pid = Some n → lru_iterators p !! pid' = Some n → pid = pid'.
Proof.
  intros [Hnd _ _ Hit _ _ _] H1%Hit H2%Hit.
  apply list_elem_of_lookup_1 in H1 as [i Hi], H2 as [j Hj].
  assert (i = j) as -> by (eapply NoDup_lookup; [exact Hnd| |]; rewrite list_lookup_fmap;
    [by rewrite Hi|by rewrite Hj]). congruence.
Qed.

Lemma pool_ok_drop p pid p' : pool_ok p → drop_frame pid p = Some p' → pool_ok p'.
Proof.
  intros Hok (n & Hn & ?)%bind_Some. simplify_eq. pose proof Hok as [].
  constructor; cbn; try done.
  - by apply erase_node_nodup.
  - by apply erase_node_fresh.
  - by rewrite !dom_delete_L, ok_dom0.
  - intros pid' n'. destruct (decide (pid' = pid)) as [->|Hne];
      [by rewrite lookup_delete_eq|]. rewrite lookup_delete_ne by done. intros Hn'.
    apply erase_node_spec. split; [by apply ok_iter0|]. simpl. intros ->.
    apply Hne. by eapply ok_iter_inj.
  - intros pid' f. destruct (decide (pid' = pid)) as [->|Hne];
      [by rewrite lookup_delete_eq|]. rewrite lookup_delete_ne by done. apply ok_latch0.
  - rewrite map_size_delete. case_match; simpl; lia.
Qed.

Lemma pool_ok_push p pid f :
  pool_ok p → latched f = false →
  (size (<[pid := f]> (frames p)) ≤ pool_size p)%nat →
  pool_ok (push_lru pid (set_frames (<[pid := f]> (frames p)) p)).
Proof.
  intros [] Hl Hs. constructor; cbn; try done.
  - apply NoDup_cons. split; [|done]. intros (x & Hx & Hin)%list_elem_of_fmap.
    rewrite Forall_forall in ok_fresh0. apply ok_fresh0 in Hin. rewrite <- Hx in Hin. lia.
  - constructor; [simpl; lia|]. eapply Forall_impl; [exact ok_fresh0|]. simpl. lia.
  - by rewrite !dom_insert_L, ok_dom0.
  - intros pid' n. destruct (decide (pid' = pid)) as [->|].
    + rewrite lookup_insert_eq. intros [= <-]. left.
    + rewrite lookup_insert_ne by done. intros Hn%ok_iter0. by right.
  - intros pid' g. destruct (decide (pid' = pid)) as [->|];
      rewrite ?lookup_insert_eq, ?lookup_insert_ne by done; naive_solver.
Qed.

Lemma pool_ok_updateLRU p pid : pool_ok p → is_Some (frames p !! pid) → pool_ok (updateLRU pid p).
Proof.
  intros Hok [f Hf]. pose proof Hok as [].
  assert (is_Some (lru_iterators p !! pid)) as [n Hn].
  { apply elem_of_dom. rewrite ok_dom0. by eapply elem_of_dom_2. }
  unfold updateLRU. rewrite Hn. constructor; cbn; try done.
  - apply NoDup_cons. split; [|by apply erase_node_nodup].
    intros (x & Hx & [Hin _]%erase_node_spec)%list_elem_of_fmap.
    rewrite Forall_forall in ok_fresh0. apply ok_fresh0 in Hin. rewrite <- Hx in Hin. lia.
  - constructor; [simpl; lia|]. eapply Forall_impl; [by apply erase_node_fresh|]. simpl. lia.
  - rewrite dom_insert_L, ok_dom0. apply elem_of_dom_2 in Hf. set_solver.
  - intros pid' m. destruct (decide (pid' = pid)) as [->|Hne].
    + rewrite lookup_insert_eq. intros [= <-]. left.
    + rewrite lookup_insert_ne by done. intros Hm. right. apply erase_node_spec.
      split; [by apply ok_iter0|]. simpl. intros ->. apply Hne. by eapply ok_iter_inj.
Qed.

Lemma pool_ok_writeToDisk p pid f :
  pool_ok p → frames p !! pid = Some f → pool_ok (writeToDisk pid f p).
Proof.
  intros Hok Hf. unfold writeToDisk. destruct (ps_write _ _ _ _) as [s b].
  apply (pool_ok_frame (set_store s p) pid f); [by apply pool_ok_store|done|].
  exact (ok_latch _ Hok _ _ Hf).
Qed.

(** ** Victims *)

Lemma lru_scan_cases fs l :
  (lru_scan fs l = INVALID_PAGE_ID ∧ Forall (λ x, unpinned_in fs x.2 = false) l) ∨
  ∃ l1 n l2, l = l1 ++ (n, lru_scan fs l) :: l2 ∧ unpinned_in fs (lru_scan fs l) = true ∧
    Forall (λ x, unpinned_in fs x.2 = false) l1.
Proof.
  induction l as [|[n q] l IH]; simpl; [left; auto|].
  destruct (unpinned_in fs q) eqn:Hq.
  - right. exists [], n, l. auto.
  - destruct IH as [[-> Hall]|(l1 & m & l2 & Hl & Hu & Hall)]; [left|right].
    + split; [done|]. by constructor.
    + exists ((n, q) :: l1), m, l2. split; [by rewrite Hl at 1|]. split; [done|]. by constructor.
Qed.

Definition unpinned p (pid : Z) : Prop := unpinned_in (frames p) pid = true.

Lemma unpinned_frame p pid : unpinned p pid → ∃ f, frames p !! pid = Some f ∧ isPinned f = false.
Proof.
  unfold unpinned, unpinned_in. destruct (frames p !! pid) as [f|]; [|done].
  intros Hn%negb_true_iff. eauto.
Qed.

Lemma frame_in_list p pid : pool_ok p → is_Some (frames p !! pid) → ∃ n, (n, pid) ∈ lru_list p.
Proof.
  intros [] Hf%elem_of_dom. rewrite <- ok_dom0, elem_of_dom in Hf. destruct Hf as [n Hn]. eauto.
Qed.

(** The victim: the last node of the list with an unpinned frame; there is none
    only when every frame is pinned. *)
Lemma selectVictim_spec p :
  pool_ok p →
  selectVictim p = (p, lru_scan (frames p) (reverse (lru_list p))) ∧
  let v := lru_scan (frames p) (reverse (lru_list p)) in
  (v = INVALID_PAGE_ID ∧ ∀ pid, ¬ unpinned p pid) ∨
  (unpinned p v ∧ ∃ l1 n l2, lru_list p = l1 ++ (n, v) :: l2 ∧
     Forall (λ x, ¬ unpinned p x.2) l2).
Proof.
  intros Hok. split; [unfold selectVictim; by rewrite (ok_strategy _ Hok)|]. cbv zeta.
  destruct (lru_scan_cases (frames p) (reverse (lru_list p)))
    as [[-> Hall]|(l1 & n & l2 & Hl & Hu & Hall)]; [left|right].
  - split; [done|]. intros pid Hp. destruct (unpinned_frame _ _ Hp) as (f & Hf & _).
    destruct (frame_in_list p pid Hok ltac:(eauto)) as [n Hn].
    rewrite Forall_forall in Hall. specialize (Hall (n, pid)). simpl in Hall.
    unfold unpinned in Hp. rewrite Hall in Hp; [done|]. by apply elem_of_reverse.
  - split; [done|]. exists (reverse l2), n, (reverse l1). split.
    + apply (f_equal reverse) in Hl. rewrite reverse_involutive, reverse_app, reverse_cons in Hl.
      rewrite <- app_assoc in Hl. exact Hl.
    + rewrite Forall_forall in Hall |- *. intros x Hx Hu'. rewrite elem_of_reverse in Hx.
      unfold unpinned in Hu'. by rewrite Hall in Hu'.
Qed.

(** A turn of the eviction loop. *)
Lemma evictPage_spec p :
  pool_ok p →
  ((∀ pid, ¬ unpinned p pid) ∧ evictPage p = Some p) ∨
  frames p !! INVALID_PAGE_ID ≠ None ∧ evictPage p = Some p ∨
  ∃ v f l1 n l2 p', evictPage p = Some p' ∧ pool_ok p' ∧
    frames p !! v = Some f ∧ isPinned f = false ∧
    lru_list p = l1 ++ (n, v) :: l2 ∧ Forall (λ x, ¬ unpinned p x.2) l2 ∧
    frames p' = delete v (frames p) ∧ pool_size p' = pool_size p ∧
    file_manager p' = file_manager (if dirty f then writeToDisk v f p else p).
Proof.
  intros Hok. destruct (selectVictim_spec p Hok) as [Hsel Hv]. cbv zeta in Hv.
  unfold evictPage. rewrite Hsel. set (v := lru_scan _ _) in *. case_decide as Hinv.
  { destruct Hv as [[_ Hall]|[Hu _]]; [by left|right; left].
    destruct (unpinned_frame _ _ Hu) as (f & Hf & _). rewrite <- Hinv, Hf. done. }
  right; right. destruct Hv as [[? _]|[Hu (l1 & n & l2 & Hl & Hall)]]; [done|].
  destruct (unpinned_frame _ _ Hu) as (f & Hf & Hp). rewrite Hf. cbn [mbind option_bind].
  set (q := if dirty f then _ else _).
  assert (pool_ok q ∧ lru_iterators q = lru_iterators p ∧ delete v (frames q) = delete v (frames p)
    ∧ pool_size q = pool_size p ∧
    file_manager q = file_manager (if dirty f then writeToDisk v f p else p)) as (Hq & Hit & Hfr & Hps & Hfm).
  { unfold q. destruct (dirty f); [|done].
    split; [by apply pool_ok_stats, pool_ok_writeToDisk|]. unfold writeToDisk.
    destruct (ps_write _ _ _ _) as [s b]. cbn. by rewrite delete_insert_eq. }
  assert (is_Some (lru_iterators p !! v)) as [m Hm].
  { apply elem_of_dom. rewrite (ok_dom _ Hok). by eapply elem_of_dom_2. }
  destruct (drop_frame v q) as [q'|] eqn:Hd.
  2:{ unfold drop_frame in Hd. by rewrite Hit, Hm in Hd. }
  exists v, f, l1, n, l2, (set_stats count_eviction q').
  split; [done|]. split; [by eapply pool_ok_stats, pool_ok_drop|].
  unfold drop_frame in Hd. rewrite Hit, Hm in Hd. injection Hd as <-. cbn.
  by rewrite Hfr.
Qed.

(** ** Making room *)

Definition pinned_frames p : gmap Z BufferFrame := filter (λ kf, isPinned kf.2 = true) (frames p).

Lemma pinned_frames_le p : (size (pinned_frames p) ≤ size (frames p))%nat.
Proof. apply map_subseteq_size, map_filter_subseteq. Qed.

Lemma all_pinned p :
  (∀ pid, ¬ unpinned p pid) → pinned_frames p = frames p.
Proof.
  intros Hall. apply map_filter_id. intros pid f Hf. simpl.
  specialize (Hall pid). unfold unpinned, unpinned_in in Hall. rewrite Hf in Hall.
  by destruct (isPinned f).
Qed.

Lemma pinned_frames_delete p p' v f :
  frames p !! v = Some f → isPinned f = false → frames p' = delete v (frames p) →
  pinned_frames p' = pinned_frames p.
Proof.
  intros Hf Hp Hd. unfold pinned_frames. rewrite Hd, map_filter_delete. apply delete_id.
  apply map_lookup_filter_None. right. intros g Hg. simplify_eq/=. by rewrite Hp.
Qed.

Lemma evict_while_ok fuel limit p p' :
  pool_ok p → evict_while fuel limit p = Some p' →
  pool_ok p' ∧ (size (frames p') < limit)%nat ∧ pool_size p' = pool_size p.
Proof.
  revert p. induction fuel as [|fuel IH]; intros p Hok; simpl;
    (case_decide; [|intros; simplify_eq; split_and!; [done|lia|done]]); [done|].
  intros (q & Hq & Hw)%bind_Some.
  destruct (evictPage_spec p Hok)
    as [[_ Heq]|[[_ Heq]|(v & f & l1 & n & l2 & q' & Heq & Hok' & _ & _ & _ & _ & _ & Hps & _)]];
    rewrite Heq in Hq; simplify_eq; [by apply IH..|].
  destruct (IH _ Hok' Hw) as (? & ? & ?). split_and!; [done|done|congruence].
Qed.

Lemma evict_while_returns fuel limit p :
  pool_ok p → frames p !! INVALID_PAGE_ID = None →
  (size (pinned_frames p) < limit)%nat → (size (frames p) ≤ fuel + (limit - 1))%nat →
  is_Some (evict_while fuel limit p).
Proof.
  revert p. induction fuel as [|fuel IH]; intros p Hok Hinv Hlt Hsz; simpl;
    (case_decide; [|by eauto]); [lia|].
  destruct (evictPage_spec p Hok)
    as [[Hall _]|[[? _]|(v & f & l1 & n & l2 & q & -> & Hq & Hf & Hp & _ & _ & Hfr & _)]];
    [rewrite (all_pinned p Hall) in Hlt; lia|done|].
  cbn [mbind option_bind]. apply IH; [done| | |].
  - rewrite Hfr. by apply lookup_delete_None; right.
  - by rewrite (pinned_frames_delete p q v f).
  - rewrite Hfr, map_size_delete_Some by eauto. lia.
Qed.

Lemma evict_while_diverges fuel limit p :
  pool_ok p → (limit ≤ size (pinned_frames p))%nat → evict_while fuel limit p = None.
Proof.
  revert p. induction fuel as [|fuel IH]; intros p Hok Hle; simpl;
    pose proof (pinned_frames_le p); rewrite decide_True by lia; [done|].
  destruct (evictPage_spec p Hok)
    as [[_ ->]|[[_ ->]|(v & f & l1 & n & l2 & q & -> & Hq & Hf & Hp & _ & _ & Hfr & _)]];
    cbn [mbind option_bind]; apply IH; try done.
  by rewrite (pinned_frames_delete p q v f).
Qed.

Lemma make_room_enough limit p : (size (frames p) < limit)%nat → make_room limit p = Some p.
Proof.
  intros Hlt. unfold make_room. destruct (size (frames p)) eqn:Hs; simpl; rewrite Hs;
    by rewrite decide_False by lia.
Qed.

Lemma new_pool_room n s f :
  (0 < n)%nat → let p := set_stats f (BufferPool_new n s) in make_room (pool_size p) p = Some p.
Proof.
  intros Hn p. apply make_room_enough. cbn [p frames pool_size set_stats BufferPool_new].
  rewrite map_size_empty. unfold MAX_POOL_SIZE. lia.
Qed.

(** When making room terminates: the eviction loop of [fetchPage],
    [createNewPage] and [setPoolSize] returns exactly when fewer frames are
    pinned than the limit, and the number of turns the model allows is then
    enough; otherwise no number of turns is.  In particular a full pool of
    pinned pages, or a pool of size 0, hangs. *)
Theorem make_room_terminates limit p :
  pool_ok p → frames p !! INVALID_PAGE_ID = None →
  (is_Some (make_room limit p) ↔ (size (pinned_frames p) < limit)%nat) ∧
  (make_room limit p = None → ∀ fuel, evict_while fuel limit p = None).
Proof.
  intros Hok Hinv. unfold make_room.
  destruct (decide (size (pinned_frames p) < limit)%nat) as [Hlt|Hge].
  - assert (is_Some (evict_while (size (frames p)) limit p)) as [q Hq]
      by (apply evict_while_returns; (done || lia)).
    split; [split; [done|by eauto]|]. congruence.
  - pose proof (λ fuel, evict_while_diverges fuel limit p Hok ltac:(lia)) as Hdiv.
    split; [|done]. rewrite Hdiv. split; [intros []%is_Some_None|lia].
Qed.

(** ** The operations keep the invariant *)

Lemma apply_mode_latched m f : latched (apply_mode m f) = latched f.
Proof. unfold apply_mode. by destruct m. Qed.

Lemma fetchPage_ok table pid m p p' r :
  pool_ok p → fetchPage table pid m p = Some (p', r) → pool_ok p'.
Proof.
  intros Hok. unfold fetchPage. destruct (frames p !! pid) as [f|] eqn:Hf.
  - destruct (latched f) eqn:Hl; [done|]. intros [= <- _].
    assert (pool_ok (updateLRU pid (set_stats count_hit p))) as Hu
      by (apply pool_ok_updateLRU; [by apply pool_ok_stats|by exists f]).
    refine (pool_ok_frame (updateLRU pid (set_stats count_hit p)) pid f _ Hu _ _); [|done].
    unfold updateLRU. cbn. by destruct (lru_iterators p !! pid).
  - intros (q & Hq & Hr)%bind_Some.
    destruct (evict_while_ok _ _ _ _ (pool_ok_stats _ _ Hok) Hq) as (Hq' & Hlt & Hps).
    unfold readFromDisk in Hr. destruct (ps_read _ _ _) as [s [bs|]]; simplify_eq/=;
      [|by apply pool_ok_store]. rewrite insert_insert_eq.
    set (g := set_latch false _).
    assert (pool_ok (push_lru (page_id (header (page_deserialize bs)))
      (set_frames (<[page_id (header (page_deserialize bs)) := g]> (frames q)) (set_store s q)))) as Hp.
    { apply (pool_ok_push (set_store s q)); [by apply pool_ok_store|done|]. cbn.
      rewrite map_size_insert. case_match; simpl; lia. }
    by apply (pool_ok_stats _ count_disk_read) in Hp.
Qed.

Lemma createNewPage_ok table t p p' id :
  pool_ok p → createNewPage table t p = Some (p', id) → pool_ok p'.
Proof.
  intros Hok. unfold createNewPage. intros (q & Hq & Hr)%bind_Some.
  destruct (evict_while_ok _ _ _ _ (pool_ok_next_id _ _ Hok) Hq) as (Hq' & Hlt & Hps).
  simplify_eq/=. rewrite insert_insert_eq. set (g := set_latch false _).
  assert (pool_ok (push_lru (next_page_id p)
    (set_frames (<[next_page_id p := g]> (frames q)) q))) as Hp.
  { apply pool_ok_push; [done|done|]. rewrite map_size_insert. case_match; simpl; lia. }
  by apply (pool_ok_stats _ count_disk_write) in Hp.
Qed.

Lemma unpinPage_ok pid d p : pool_ok p → pool_ok (unpinPage pid d p).
Proof.
  intros Hok. unfold unpinPage. destruct (frames p !! pid) as [f|] eqn:Hf; [|done].
  eapply pool_ok_frame; [done..|]. pose proof (ok_latch _ Hok _ _ Hf).
  unfold unpin. by destruct d, (0 <? pin_count f).
Qed.

Lemma flushPage_ok pid p : pool_ok p → pool_ok (flushPage pid p).
Proof.
  intros Hok. unfold flushPage. destruct (frames p !! pid) as [f|] eqn:Hf; [|done].
  destruct (dirty f); [|done]. pose proof (ok_latch _ Hok _ _ Hf) as Hl.
  apply pool_ok_stats. eapply pool_ok_frame; [by apply pool_ok_writeToDisk| |done].
  unfold writeToDisk. destruct (ps_write _ _ _ _). cbn. by rewrite lookup_insert_eq.
Qed.

Lemma flushAll_ok p : pool_ok p → pool_ok (flushAll p).
Proof.
  unfold flushAll. generalize (map_to_list (frames p)).*1. intros ks. revert p.
  induction ks as [|k ks IH]; intros p Hok; simpl; [done|]. by apply IH, flushPage_ok.
Qed.

Lemma discardPage_ok pid p p' : pool_ok p → discardPage pid p = Some p' → pool_ok p'.
Proof.
  intros Hok. unfold discardPage. destruct (frames p !! pid) as [f|] eqn:Hf; [|congruence].
  intros Hd. eapply pool_ok_drop; [|exact Hd]. destruct (dirty f); [|done].
  by apply pool_ok_writeToDisk.
Qed.

Lemma discardAll_ok p : pool_ok p → pool_ok (discardAll p).
Proof.
  intros Hok%flushAll_ok. destruct Hok.
  constructor; cbn; [constructor|constructor|by rewrite !dom_empty_L|..|done].
  - intros pid n. by rewrite lookup_empty.
  - intros pid f. by rewrite lookup_empty.
  - rewrite map_size_empty. lia.
Qed.

Lemma setPoolSize_ok n p p' : pool_ok p → setPoolSize n p = Some p' → pool_ok p'.
Proof.
  intros Hok (q & Hq & ->)%fmap_Some_1.
  destruct (evict_while_ok _ _ _ _ Hok Hq) as ([] & Hlt & _). constructor; cbn; try done. lia.
Qed.

Lemma with_page_ok key g p : pool_ok p → pool_ok (with_page key g p).
Proof.
  intros Hok. unfold with_page. destruct (frames p !! key) as [f|] eqn:Hf; [|done].
  eapply pool_ok_frame; [done..|]. exact (ok_latch _ Hok _ _ Hf).
Qed.

(** A pool after any sequence of calls that return, with any changes of the
    pages through the pointers that were handed out. *)
Inductive pool_reachable (n : nat) (s0 : St) : BufferPool St → Prop :=
  | pr_new : pool_reachable n s0 (BufferPool_new n s0)
  | pr_fetch p table pid m p' r :
      pool_reachable n s0 p → fetchPage table pid m p = Some (p', r) → pool_reachable n s0 p'
  | pr_create p table t p' id :
      pool_reachable n s0 p → createNewPage table t p = Some (p', id) → pool_reachable n s0 p'
  | pr_unpin p pid d : pool_reachable n s0 p → pool_reachable n s0 (unpinPage pid d p)
  | pr_flush p pid : pool_reachable n s0 p → pool_reachable n s0 (flushPage pid p)
  | pr_flush_all p : pool_reachable n s0 p → pool_reachable n s0 (flushAll p)
  | pr_discard p pid p' :
      pool_reachable n s0 p → discardPage pid p = Some p' → pool_reachable n s0 p'
  | pr_discard_all p : pool_reachable n s0 p → pool_reachable n s0 (discardAll p)
  | pr_resize p k p' :
      pool_reachable n s0 p → setPoolSize k p = Some p' → pool_reachable n s0 p'
  | pr_reset p : pool_reachable n s0 p → pool_reachable n s0 (resetStats p)
  | pr_page p key g : pool_reachable n s0 p → pool_reachable n s0 (with_page key g p).

Lemma BufferPool_new_ok n s0 : pool_ok (BufferPool_new n s0).
Proof.
  constructor; cbn; [constructor|constructor|by rewrite !dom_empty_L|..|done].
  - intros pid k. by rewrite lookup_empty.
  - intros pid f. by rewrite lookup_empty.
  - rewrite map_size_empty. lia.
Qed.

Lemma reachable_ok n s0 p : pool_reachable n s0 p → pool_ok p.
Proof.
  induction 1; [apply BufferPool_new_ok|..];
    first [eapply fetchPage_ok; eassumption | eapply createNewPage_ok; eassumption
      | eapply discardPage_ok; eassumption | eapply setPoolSize_ok; eassumption
      | by apply unpinPage_ok | by apply flushPage_ok | by apply flushAll_ok
      | by apply discardAll_ok | by apply pool_ok_stats | by apply with_page_ok].
Qed.

(** (C34) Invariant of the pool: whatever is called, the pool never holds more
    frames than its size, no frame is left latched, and every frame has an
    iterator to a node of the LRU list for its page. *)
Theorem pool_invariant n s0 p :
  pool_reachable n s0 p →
  (size (frames p) ≤ pool_size p)%nat ∧
  ∀ pid f, frames p !! pid = Some f →
    latched f = false ∧ ∃ node, lru_iterators p !! pid = Some node ∧ (node, pid) ∈ lru_list p.
Proof.
  intros Hok%reachable_ok. split; [apply Hok|]. intros pid f Hf.
  split; [by eapply ok_latch|]. pose proof (elem_of_dom_2 _ _ _ Hf) as Hd.
  rewrite <- (ok_dom _ Hok), elem_of_dom in Hd. destruct Hd as [node Hn].
  exists node. split; [done|by apply (ok_iter _ Hok)].
Qed.

(** The page that leaves the pool: an eviction that removes a frame removes
    one that is not pinned, and every frame behind it in the LRU list (used
    longer ago) is pinned. *)
Theorem evict_least_recent p p' :
  pool_ok p → evictPage p = Some p' → frames p' ≠ frames p →
  ∃ v f l1 n l2, frames p !! v = Some f ∧ isPinned f = false ∧
    lru_list p = l1 ++ (n, v) :: l2 ∧ frames p' = delete v (frames p) ∧
    ∀ m w g, (m, w) ∈ l2 → frames p !! w = Some g → isPinned g = true.
Proof.
  intros Hok He Hne. destruct (evictPage_spec p Hok)
    as [[_ Heq]|[[_ Heq]|(v & f & l1 & n & l2 & q & Heq & _ & Hf & Hp & Hl & Hall & Hfr & _)]];
    [congruence..|].
  assert (q = p') as -> by congruence. exists v, f, l1, n, l2. split_and!; try done.
  intros m w g Hin Hg. rewrite Forall_forall in Hall. specialize (Hall _ Hin).
  unfold unpinned, unpinned_in in Hall. simpl in Hall. rewrite Hg in Hall.
  by destruct (isPinned g).
Qed.

(** (C35) Evicted data is not lost on a usable file: after the eviction of a
    dirty page, reading it again from disk gives the page as it was in the
    pool, with its dirty flag cleared. *)
Theorem evicted_page_on_disk `{!PageStoreLaws St} p p' v f :
  pool_ok p → evictPage p = Some p' →
  frames p !! v = Some f → frames p' !! v = None → dirty f = true →
  page_wf (fpage f) → page_id (header (fpage f)) = v → page_number v →
  ps_usable (file_manager p) (table_file (table_id (header (fpage f)))) →
  (readFromDisk (table_id (header (fpage f))) v p').2 = Some (clearDirty (fpage f)).
Proof.
  intros Hok He Hf Hf' Hd Hwf Hv Hn Hu. destruct (evictPage_spec p Hok)
    as [[_ Heq]|[[_ Heq]|(w & g & l1 & n & l2 & q & Heq & _ & Hg & _ & _ & _ & Hfr & _ & Hfm)]];
    [congruence..|].
  assert (q = p') as -> by congruence.
  assert (w = v) as ->.
  { rewrite Hfr in Hf'. apply lookup_delete_None in Hf' as [|]; congruence. }
  assert (g = f) as -> by congruence. rewrite Hd in Hfm.
  destruct (ps_write_read (file_manager p) (table_file (table_id (header (fpage f)))) v
    (page_serialize (fpage f)) Hu Hn) as (s' & Hw & _ & Hr).
  { unfold page_serialize. destruct Hwf as (Hh & Hl & _).
    rewrite length_app, length_header_bytes, Hl by apply Hh. done. }
  unfold writeToDisk in Hfm. rewrite Hv, Hw in Hfm. cbn in Hfm.
  unfold readFromDisk. rewrite Hfm. destruct (ps_read s' _ _) as [s2 r]. simpl in *. subst r.
  simpl. by rewrite page_reload.
Qed.

End Proofs.

(** ** The pool over the file manager *)

Section OverFiles.
Context (E : Env).
#[local] Existing Instance FileManager_store.
Abbreviation Pool := (BufferPool FileManager).

(** A page fetched from disk cannot be written back: in a new pool over a
    file that is not open yet, a page that is fetched for writing, changed in
    any way and flushed is marked clean, but the disk does not change; the
    handle the fetch opened is read-only, and the result of the write is
    ignored. *)
Theorem fetched_page_write_lost n fm table pid p1 key g :
  let E_store := FileManager_store E in
  (0 < n)%nat →
  open_files fm !! normalizePath E (table_file table) = None →
  is_Some (disk fm !! normalizePath E (table_file table)) →
  fetchPage table pid FetchMode.WRITE (BufferPool_new n fm) = Some (p1, Some key) →
  (∀ f, frames p1 !! key = Some f → table_id (header (g (fpage f))) = table) →
  let p2 := flushPage key (with_page key g p1) in
  disk (file_manager p2) = disk fm ∧ ∃ f, frames p2 !! key = Some f ∧ dirty f = false.
Proof.
  intros E_store Hn Hno Hex Hfetch Hg p2.
  unfold fetchPage in Hfetch. cbn [frames BufferPool_new] in Hfetch. rewrite lookup_empty in Hfetch.
  rewrite new_pool_room in Hfetch by done.
  cbn [mbind option_bind] in Hfetch.
  unfold readFromDisk in Hfetch.
  match type of Hfetch with context [ps_read ?a ?b ?c] =>
    destruct (ps_read a b c) as [fm1 [bs|]] eqn:Hr end; [|discriminate Hfetch].
  destruct (readPage_opens_readonly _ _ _ _ _ _ Hno Hex Hr) as [Hu Hd].
  cbn [fmap option_fmap option_map] in Hfetch. injection Hfetch as Hp1 Hkey.
  set (f1 := set_latch false (apply_mode FetchMode.WRITE
    (set_latch true (BufferFrame_new (page_deserialize bs))))) in Hp1.
  assert (frames p1 !! key = Some f1 ∧ file_manager p1 = fm1) as [Hf1 Hfm1].
  { subst p1 key. split; [apply lookup_insert_eq|done]. }
  unfold p2, with_page. rewrite Hf1. unfold flushPage. cbn [frames set_frames].
  rewrite lookup_insert_eq. cbn [dirty set_fpage f1].
  assert (dirty f1 = true) as -> by done.
  unfold flush_frame, writeToDisk. cbn [fpage set_fpage file_manager set_frames]. rewrite Hfm1.
  destruct (ps_write fm1 _ _ _) as [fm2 b] eqn:Hw. rewrite (Hg f1) in Hw by done.
  destruct (run_op_unwritable E (table_file table) fm1
    (op_write (page_id (header (g (fpage f1)))) (page_serialize (g (fpage f1)))) fm2 b Hu Hw)
    as (_ & Hd2 & _). cbn [file_manager set_frames set_stats set_store frames].
  split; [congruence|]. eexists. split; [apply lookup_insert_eq|done].
Qed.
End OverFiles.

(** ** Examples: a pool of one page over a table file with two pages *)

Definition table_path : string := "/db/data/tables/table_1.dat".
Definition fm_closed : FileManager := FileManager_new (<[table_path := two_pages]> ∅).
Definition fm_ready : FileManager :=
  mkFileManager (disk fm_closed) (<[table_path := mkFileHandle FileMode.READ_WRITE false]> ∅)
    100 false IOStatistics_reset.

Lemma read_table_page : is_Some (readPage env0 fm_closed (table_file 1) 0).2.
Proof.
  unfold readPage. change (openFile env0 fm_closed (table_file 1) FileMode.READ) with
    (set_open (<[table_path := mkFileHandle FileMode.READ false]> ∅) fm_closed, Some table_path).
  unfold handle_of, content_of. cbn [open_files set_open disk].
  change (disk fm_closed !! table_path) with (Some two_pages). rewrite lookup_insert_eq.
  cbn [default from_option id]. unfold FileHandle_read. cbn [failed mode mode_in andb].
  change (seekable (page_offset 0)) with true. change (Z.to_nat (page_offset 0)) with 0%nat.
  unfold read_bytes. rewrite decide_True; [by eexists|].
  unfold two_pages. rewrite length_app, length_replicate. lia.
Qed.

Lemma fetched_page_write_lost_witness :
  let E_store := FileManager_store env0 in
  ∃ p1 key, fetchPage 1 0 FetchMode.WRITE (BufferPool_new 1 fm_closed) = Some (p1, Some key) ∧
    disk (file_manager (flushPage key (with_page key (λ _, Page_new 5 1) p1))) = disk fm_closed.
Proof.
  intros E_store. destruct read_table_page as [bs Hbs].
  assert (∃ p1 key, fetchPage 1 0 FetchMode.WRITE (BufferPool_new 1 fm_closed) = Some (p1, Some key))
    as (p1 & key & Hfetch).
  { unfold fetchPage. rewrite new_pool_room by lia.
    cbn [frames BufferPool_new]. rewrite lookup_empty. cbn [mbind option_bind].
    unfold readFromDisk. destruct (ps_read _ _ _) as [fm1 r] eqn:Hr.
    assert (r = Some bs) as -> by (rewrite <- Hbs; by rewrite Hr || exact (f_equal snd (eq_sym Hr))).
    eexists _, _. reflexivity. }
  exists p1, key. split; [done|].
  apply (fetched_page_write_lost env0 1 fm_closed 1 0 p1 key (λ _, Page_new 5 1));
    [lia|reflexivity|by exists two_pages|exact Hfetch|done].
Defined.

(** A pool that holds one frame, of page 1. *)
Definition pool_one (f : BufferFrame) : BufferPool FileManager :=
  mkPool 1 {[1 := f]} [(0%nat, 1)] {[1 := 0%nat]} 1 EvictionStrategy.LRU 0 fm_ready stats_zero 2.

Lemma pool_one_ok f : latched f = false → pool_ok (pool_one f).
Proof.
  intros Hf. constructor; cbn.
  - repeat constructor; set_solver.
  - repeat constructor.
  - by rewrite !dom_singleton_L.
  - intros pid n [<- <-]%lookup_singleton_Some. by left.
  - intros pid g [<- <-]%lookup_singleton_Some. done.
  - by rewrite map_size_singleton.
  - done.
Qed.

Definition new_frame (pins : Z) (d : bool) : BufferFrame := mkFrame (Page_new 1 1) pins d false.

(** One pinned page in a pool of size one: the next fetch never returns. *)
Lemma make_room_terminates_witness :
  let E_store := FileManager_store env0 in
  evict_while 1000 1 (pool_one (new_frame 1 false)) = None.
Proof.
  intros E_store.
  destruct (make_room_terminates 1 (pool_one (new_frame 1 false)) (pool_one_ok (new_frame 1 false) eq_refl) eq_refl)
    as [Hiff Hnone].
  apply Hnone. destruct (make_room 1 (pool_one (new_frame 1 false))) as [q|]; [|done].
  assert (size (pinned_frames (pool_one (new_frame 1 false))) = 1%nat) as Hs by reflexivity.
  rewrite Hs in Hiff. assert (1 < 1)%nat by (apply Hiff; eauto). lia.
Defined.

Lemma pool_invariant_witness :
  let E_store := FileManager_store env0 in
  (size (frames (unpinPage 3 true (BufferPool_new 1 fm_closed))) ≤
   pool_size (unpinPage 3 true (BufferPool_new 1 fm_closed)))%nat.
Proof. intros E_store. eapply (pool_invariant 1 fm_closed). apply pr_unpin, pr_new. Defined.

Lemma evict_least_recent_witness :
  let E_store := FileManager_store env0 in
  ∃ p' v f, evictPage (pool_one (new_frame 0 false)) = Some p' ∧
    frames p' = delete v (frames (pool_one (new_frame 0 false))) ∧
    frames (pool_one (new_frame 0 false)) !! v = Some f ∧ isPinned f = false.
Proof.
  intros E_store.
  assert (∃ p', evictPage (pool_one (new_frame 0 false)) = Some p' ∧ frames p' = ∅) as (p' & He & Hp')
    by (eexists; split; reflexivity).
  destruct (evict_least_recent _ p' (pool_one_ok (new_frame 0 false) eq_refl) He)
    as (v & f & _ & _ & _ & Hf & Hpin & _ & Hd & _); [by rewrite Hp'|]. eauto 10.
Defined.

Lemma evicted_page_on_disk_witness :
  let E_store := FileManager_store env0 in
  ∃ p', evictPage (pool_one (new_frame 0 true)) = Some p' ∧
    (readFromDisk 1 1 p').2 = Some (clearDirty (Page_new 1 1)).
Proof.
  intros E_store. set (p := pool_one (new_frame 0 true)).
  assert (pool_ok p) as Hok by by apply pool_one_ok.
  destruct (evictPage_spec p Hok)
    as [[Hall _]|[[? _]|(v & f & l1 & n & l2 & p' & He & _ & Hf & _ & _ & _ & Hfr & _)]];
    [by destruct (Hall 1)|done|].
  cbn [frames p pool_one] in Hf. apply lookup_singleton_Some in Hf as [<- <-]. exists p'. split; [exact He|].
  apply (evicted_page_on_disk (PageStoreLaws0 := FileManager_laws env0) p p' 1
    (new_frame 0 true) Hok He).
  - reflexivity.
  - rewrite Hfr. apply lookup_delete_eq.
  - reflexivity.
  - apply Page_new_wf; unfold fits; lia.
  - reflexivity.
  - unfold page_number. lia.
  - split; [reflexivity|by exists two_pages].
Defined.
