(* ===== verification/Table.v ===== *)
(** * Table: records over the pages of a table (src/storage/table.h, table.cpp)

    A table keeps pointers to its first and last page and reaches the others
    through the links of the pages and the buffer pool.  The pool is shared, so
    it is an argument and a result of every operation.  A [Page*] is the key of
    the frame that owns the page ([None] is [nullptr]); dereferencing one whose
    frame has left the pool is undefined.  A pointer that is kept while its page
    is evicted and read again is not told from a good one here: the theorems
    keep the pages in the pool.  [None] is a call that does not return
    normally: undefined behaviour or a loop that never ends.  [dump] is output. *)

From stdpp Require Import gmap strings.
From S2P Require Import Prelude CxxString Types Record Page FileManager BufferPool.

Open Scope Z_scope.

(** ** Data *)

Record ScanOptions := mkScanOptions {
  so_descending : bool;
  so_limit : Z;
  so_order_by : list (string * bool)
}.
Definition ScanOptions_default : ScanOptions := mkScanOptions false 0 [].

(** [table_] is the table the iterator is used with; an iterator made with the
    default constructor is not used by the code. *)
Record TableIterator := mkTableIterator {
  current_page_id : Z;
  current_slot : Z;
  current_page : option Z
}.

#[export] Instance TableIterator_eq_dec : EqDecision TableIterator.
Proof. solve_decision. Defined.

Record Table := mkTable {
  tschema : TableSchema;
  first_page : option Z;
  last_page : option Z;
  cached_record_count : Z;
  cached_page_count : Z;
  stats_update_time : Z
}.

Definition set_pages (first last : option Z) (t : Table) : Table :=
  mkTable (tschema t) first last (cached_record_count t) (cached_page_count t)
    (stats_update_time t).
Definition set_count (n time : Z) (t : Table) : Table :=
  mkTable (tschema t) (first_page t) (last_page t) n (cached_page_count t) time.
Definition count_rows (d : Z) (t : Table) : Table :=
  set_count (wrap 64 (cached_record_count t + d)) (stats_update_time t) t.

(** ** Schema *)

Fixpoint table_getColumnIndex_loop (cols : list ColumnSchema) (name : string) (i : Z) : Z :=
  match cols with
  | [] => npos
  | c :: cols' =>
      if bool_decide (col_name c = name) then i else table_getColumnIndex_loop cols' name (i + 1)
  end.
Definition table_getColumnIndex (t : Table) (name : string) : Z :=
  table_getColumnIndex_loop (columns (tschema t)) name 0.

Definition getColumnType (t : Table) (idx : Z) : DataType :=
  if idx <? Z.of_nat (length (columns (tschema t))) then
    match columns (tschema t) !! Z.to_nat idx with
    | Some c => col_type c
    | None => DataType.INTEGER
    end
  else DataType.INTEGER.

(** ** Validation *)

Definition validateColumn (t : Table) (col_idx : nat) (value : Value) : bool :=
  match columns (tschema t) !! col_idx with
  | None => false
  | Some col =>
      if negb (bool_decide (vtype value = col_type col)) then false
      else if negb (nullable col) && bool_decide (vtype value = DataType.INTEGER)
              && (int_val value =? 0) && bool_decide (str_val value = EmptyString) then false
      else true
  end.

Fixpoint table_validate_loop (t : Table) (i : nat) (values : list Value) : bool :=
  match values with
  | [] => true
  | v :: values' => if validateColumn t i v then table_validate_loop t (S i) values' else false
  end.

Definition table_validateRecord (t : Table) (values : list Value) : bool :=
  if decide (length values = length (columns (tschema t))) then table_validate_loop t 0 values
  else false.

Section Table.
Context {St : Type} `{PageStore St}.
Implicit Types p : BufferPool St.

(** ** Pages *)

(** [*ptr] *)
Definition deref_page (ptr : option Z) p : option Page :=
  key ← ptr; f ← frames p !! key; Some (fpage f).

(** [*ptr = pg] *)
Definition assign (ptr : option Z) (pg : Page) p : option (BufferPool St) :=
  key ← ptr; f ← frames p !! key;
  Some (set_frames (<[key := set_fpage pg f]> (frames p)) p).

Definition getPage (t : Table) (pid : Z) p : option (BufferPool St * option Z) :=
  fetchPage (ts_id (tschema t)) pid FetchMode.READ p.

(** The search for the last page: one turn per link followed. *)
Fixpoint last_page_loop (fuel : nat) (table : Z) (page : option Z) p
  : option (BufferPool St * option Z) :=
  pg ← deref_page page p;
  if decide (Page.next_page_id (header pg) = INVALID_PAGE_ID) then Some (p, page)
  else
    match fuel with
    | O => None
    | S fuel' =>
        r ← fetchPage table (Page.next_page_id (header pg)) FetchMode.READ p;
        last_page_loop fuel' table r.2 r.1
    end.

Definition Table_new (fuel : nat) (schema : TableSchema) p : option (BufferPool St * Table) :=
  let t := mkTable schema None None 0 0 0 in
  r ← fetchPage (ts_id schema) 0 FetchMode.READ p;
  match r.2 with
  | None =>
      c ← createNewPage (ts_id schema) PageType.DATA_PAGE r.1;
      Some (c.1, set_pages (Some c.2) (Some c.2) t)
  | Some first =>
      l ← last_page_loop fuel (ts_id schema) (Some first) r.1;
      Some (l.1, set_pages (Some first) l.2 t)
  end.

Definition getOrCreateFirstPage (t : Table) p : option (BufferPool St * Table * option Z) :=
  match first_page t with
  | None =>
      c ← createNewPage (ts_id (tschema t)) PageType.DATA_PAGE p;
      Some (c.1, set_pages (Some c.2) (last_page t) t, Some c.2)
  | Some first => Some (p, t, Some first)
  end.

(** [createNewPage] never returns [nullptr]. *)
Definition appendNewPage (t : Table) p : option (BufferPool St * Table * option Z) :=
  c ← createNewPage (ts_id (tschema t)) PageType.DATA_PAGE p;
  let new_page := Some c.2 in
  p ← match last_page t with
      | Some _ =>
          np ← deref_page new_page c.1;
          lp ← deref_page (last_page t) c.1;
          p ← assign (last_page t) (setNextPage (page_id (header np)) lp) c.1;
          Some (unpinPage (page_id (header lp)) true p)
      | None => Some c.1
      end;
  prev ← match last_page t with
         | Some _ => lp ← deref_page (last_page t) p; Some (page_id (header lp))
         | None => Some INVALID_PAGE_ID
         end;
  np ← deref_page new_page p;
  p ← assign new_page (setPrevPage prev np) p;
  let first := match first_page t with None => new_page | Some _ => first_page t end in
  Some (p, set_pages first new_page t, new_page).

(** ** Records *)

(** [ptr->insertRecord(values, rid)] *)
Definition insert_through (ptr : option Z) (values : list Value) p
  : option (BufferPool St * option Z) :=
  pg ← deref_page ptr p;
  r ← insertRecord pg values;
  p ← assign ptr r.1 p;
  Some (p, r.2).

Definition table_insertRecord (t : Table) (values : list Value) p
  : option (BufferPool St * Table * StatusCode * option Z) :=
  if negb (table_validateRecord t values) then Some (p, t, StatusCode.ERROR, None)
  else
    r ← insert_through (last_page t) values p;
    match r.2 with
    | Some rid =>
        lp ← deref_page (last_page t) r.1;
        Some (unpinPage (page_id (header lp)) true r.1, count_rows 1 t, StatusCode.OK, Some rid)
    | None =>
        a ← appendNewPage t r.1;
        let '(p, t, new_page) := a in
        r ← insert_through new_page values p;
        match r.2 with
        | None => Some (r.1, t, StatusCode.ERROR, None)
        | Some rid => Some (r.1, count_rows 1 t, StatusCode.OK, Some rid)
        end
    end.

Definition rid_page (rid : Z) : Z := Z.shiftr rid 32.

Definition table_getRecord (t : Table) (rid : Z) p
  : option (BufferPool St * StatusCode * list Value) :=
  r ← getPage t (rid_page rid) p;
  match r.2 with
  | None => Some (r.1, StatusCode.NOT_FOUND, [])
  | Some key =>
      pg ← deref_page (Some key) r.1;
      v ← getRecord pg rid;
      match v with
      | None => Some (r.1, StatusCode.NOT_FOUND, [])
      | Some values => Some (r.1, StatusCode.OK, values)
      end
  end.

Definition table_updateRecord (t : Table) (rid : Z) (values : list Value) p
  : option (BufferPool St * StatusCode) :=
  if negb (table_validateRecord t values) then Some (p, StatusCode.ERROR)
  else
    r ← getPage t (rid_page rid) p;
    match r.2 with
    | None => Some (r.1, StatusCode.NOT_FOUND)
    | Some key =>
        pg ← deref_page (Some key) r.1;
        u ← updateRecord pg rid values;
        p ← assign (Some key) u.1 r.1;
        Some (p, if (u.2 : bool) then StatusCode.OK else StatusCode.NOT_FOUND)
    end.

Definition table_deleteRecord (t : Table) (rid : Z) p
  : option (BufferPool St * Table * StatusCode) :=
  r ← getPage t (rid_page rid) p;
  match r.2 with
  | None => Some (r.1, t, StatusCode.NOT_FOUND)
  | Some key =>
      pg ← deref_page (Some key) r.1;
      d ← deleteRecord pg rid;
      p ← assign (Some key) d.1 r.1;
      if (d.2 : bool) then Some (p, count_rows (-1) t, StatusCode.OK)
      else Some (p, t, StatusCode.NOT_FOUND)
  end.

(** The vector grows by the rids inserted; the count is its growth. *)
Fixpoint table_insertRecords (t : Table) (records : list (list Value)) p
  : option (BufferPool St * Table * list Z) :=
  match records with
  | [] => Some (p, t, [])
  | record :: records' =>
      r ← table_insertRecord t record p;
      let '(p, t, status, rid) := r in
      match status, rid with
      | StatusCode.OK, Some rid =>
          rest ← table_insertRecords t records' p;
          let '(p, t, rids) := rest in Some (p, t, rid :: rids)
      | _, _ => Some (p, t, [])
      end
  end.

Fixpoint table_deleteRecords (t : Table) (rids : list Z) p
  : option (BufferPool St * Table * nat) :=
  match rids with
  | [] => Some (p, t, 0%nat)
  | rid :: rids' =>
      d ← table_deleteRecord t rid p;
      let '(p, t, status) := d in
      rest ← table_deleteRecords t rids' p;
      let '(p, t, n) := rest in
      Some (p, t, (if decide (status = StatusCode.OK) then S n else n))
  end.

(** ** Iterators *)

Definition loadCurrentPage (t : Table) (it : TableIterator) p
  : option (BufferPool St * TableIterator) :=
  if decide (current_page_id it ≠ INVALID_PAGE_ID) then
    r ← getPage t (current_page_id it) p;
    Some (r.1, mkTableIterator (current_page_id it) (current_slot it) r.2)
  else Some (p, it).

(** One turn per page that is left; [slot] keeps its value on the way out. *)
Fixpoint advanceToNextValid (fuel : nat) (t : Table) (it : TableIterator) p
  : option (BufferPool St * TableIterator) :=
  if decide (current_page_id it ≠ INVALID_PAGE_ID) then
    match fuel with
    | O => None
    | S fuel' =>
        next ← match current_page it with
               | Some _ =>
                   pg ← deref_page (current_page it) p;
                   Some (if current_slot it <? record_count (header pg) then None
                         else Some (Page.next_page_id (header pg)))
               | None => Some (Some INVALID_PAGE_ID)
               end;
        match next with
        | None => Some (p, it)
        | Some pid =>
            let it := mkTableIterator pid (current_slot it) (current_page it) in
            if decide (pid ≠ INVALID_PAGE_ID) then
              l ← loadCurrentPage t it p;
              advanceToNextValid fuel' t (mkTableIterator pid 0 (current_page l.2)) l.1
            else advanceToNextValid fuel' t it p
        end
    end
  else Some (p, it).

Definition TableIterator_new (fuel : nat) (t : Table) (pid slot : Z) p
  : option (BufferPool St * TableIterator) :=
  let it := mkTableIterator pid slot None in
  if decide (pid ≠ INVALID_PAGE_ID) then
    l ← loadCurrentPage t it p;
    match current_page l.2 with
    | Some _ =>
        pg ← deref_page (current_page l.2) l.1;
        if record_count (header pg) <=? current_slot l.2 then advanceToNextValid fuel t l.2 l.1
        else Some l
    | None => Some l
    end
  else Some (p, it).

(** [operator++]; the postfix form returns a copy of the old iterator. *)
Definition iterator_next (fuel : nat) (t : Table) (it : TableIterator) p
  : option (BufferPool St * TableIterator) :=
  if decide (current_page_id it ≠ INVALID_PAGE_ID) then
    advanceToNextValid fuel t
      (mkTableIterator (current_page_id it) (wrap 16 (current_slot it + 1)) (current_page it)) p
  else Some (p, it).

Definition iterator_next_post (fuel : nat) (t : Table) (it : TableIterator) p
  : option (BufferPool St * TableIterator * TableIterator) :=
  r ← iterator_next fuel t it p; Some (r, it).

Definition iterator_eq (a b : TableIterator) : bool :=
  (current_page_id a =? current_page_id b) && (current_slot a =? current_slot b).
Definition iterator_ne (a b : TableIterator) : bool := negb (iterator_eq a b).

Definition getRecordId (it : TableIterator) : Z :=
  make_rid (current_page_id it) (current_slot it).

(** [operator*]: a record that is not found leaves the vector empty. *)
Definition iterator_deref (it : TableIterator) p : option (Z * list Value) :=
  let rid := getRecordId it in
  match current_page it with
  | None => Some (rid, [])
  | Some _ =>
      pg ← deref_page (current_page it) p;
      v ← getRecord pg rid;
      Some (rid, default [] v)
  end.

Definition table_begin (fuel : nat) (t : Table) p : option (BufferPool St * TableIterator) :=
  pg ← deref_page (first_page t) p;
  TableIterator_new fuel t (page_id (header pg)) 0 p.

Definition table_end : TableIterator := mkTableIterator INVALID_PAGE_ID 0 None.

(** [for (auto it = begin(); it != end(); ++it)] from a given iterator.  The body
    gives the new value of what it accumulates, [inr] to leave the loop. *)
Fixpoint for_iterator {A} (fuel : nat) (t : Table) (body : A → list Value → option (A + A))
    (a : A) (it : TableIterator) p : option (BufferPool St * TableIterator * A) :=
  if iterator_ne it table_end then
    match fuel with
    | O => None
    | S fuel' =>
        rv ← iterator_deref it p;
        c ← body a rv.2;
        match c with
        | inr a => Some (p, it, a)
        | inl a =>
            n ← iterator_next fuel' t it p;
            for_iterator fuel' t body a n.2 n.1
        end
    end
  else Some (p, it, a).

(** ** Scans *)

(** [key[0]] of an empty key is undefined. *)
Definition find_body (key : list Value) (found : bool) (values : list Value)
  : option (bool + bool) :=
  match values with
  | [] => Some (inl found)
  | v :: _ => k ← head key; Some (if int_val v =? int_val k then inr true else inl found)
  end.

Definition table_find (fuel : nat) (t : Table) (key : list Value) p
  : option (BufferPool St * TableIterator) :=
  b ← table_begin fuel t p;
  r ← for_iterator fuel t (find_body key) false b.2 b.1;
  let '(p, it, found) := r in
  Some (p, if (found : bool) then it else table_end).

Definition scan_body (limit : Z) (results : list (list Value)) (values : list Value)
  : option (list (list Value) + list (list Value)) :=
  let results := results ++ [values] in
  Some (if (0 <? limit) && (limit <=? Z.of_nat (length results)) then inr results
        else inl results).

(** The comparison of [std::sort]. *)
Fixpoint scan_less (t : Table) (order_by : list (string * bool)) (a b : list Value) : bool :=
  match order_by with
  | [] => false
  | (col, asc) :: order_by' =>
      let idx := table_getColumnIndex t col in
      if (Z.of_nat (length a) <=? idx) || (Z.of_nat (length b) <=? idx) then
        scan_less t order_by' a b
      else
        let x := nth (Z.to_nat idx) a Value_null in
        let y := nth (Z.to_nat idx) b Value_null in
        if int_val x <? int_val y then asc
        else if int_val y <? int_val x then negb asc
        else scan_less t order_by' a b
  end.

(** [std::sort] is an argument: the order of equivalent rows is not specified. *)
Definition scan (sort : (list Value → list Value → bool) → list (list Value) → list (list Value))
    (fuel : nat) (t : Table) (options : ScanOptions) p
  : option (BufferPool St * list (list Value)) :=
  b ← table_begin fuel t p;
  r ← for_iterator fuel t (scan_body (so_limit options)) [] b.2 b.1;
  let '(p, _, results) := r in
  Some (p, match so_order_by options with
           | [] => results
           | order_by => sort (scan_less t order_by) results
           end).

(** ** Statistics *)

(** Times are in nanoseconds. *)
Definition STATS_PERIOD : Z := 5 * 10 ^ 9.

Definition getRecordCount (fuel : nat) (t : Table) (now : Z) p
  : option (BufferPool St * Table * Z) :=
  if STATS_PERIOD <? now - stats_update_time t then
    b ← table_begin fuel t p;
    r ← for_iterator fuel t (λ n _, Some (inl (wrap 64 (n + 1)))) 0 b.2 b.1;
    let '(p, _, n) := r in
    Some (p, set_count n now t, n)
  else Some (p, t, cached_record_count t).

(** One turn per page. *)
Fixpoint getPageCount_loop (fuel : nat) (t : Table) (count : Z) (page : option Z) p
  : option (BufferPool St * Z) :=
  match page with
  | None => Some (p, count)
  | Some _ =>
      match fuel with
      | O => None
      | S fuel' =>
          pg ← deref_page page p;
          r ← getPage t (Page.next_page_id (header pg)) p;
          getPageCount_loop fuel' t (wrap 64 (count + 1)) r.2 r.1
      end
  end.
Definition getPageCount (fuel : nat) (t : Table) p : option (BufferPool St * Z) :=
  getPageCount_loop fuel t 0 (first_page t) p.

End Table.
