(* ===== verification/TableProofs.v ===== *)
(** * TableProofs: what a table stores and what its scans return

    Pages that are in the pool are seen as a map from record ids to records, which
    the operations update ([read_record]).  A scan is proved against the protocol
    of an iterator ([cursor]), which the iterators of a table follow when the
    pages of the table are linked in the pool ([chain]). *)

From stdpp Require Import gmap strings.
From S2P Require Import Prelude CxxString Types Record Page PageProofs FileManager BufferPool BufferPoolProofs Table.

Open Scope Z_scope.

Section Proofs.
Context {St : Type} `{PageStore St}.
Implicit Types p : BufferPool St.

(** ** The pool under a table *)

(** What reading does to the pool: only the order of the pages and the counts. *)
Record kept p p' : Prop := mk_kept {
  kept_ok : pool_ok p';
  kept_frames : frames p' = frames p;
  kept_size : pool_size p' = pool_size p;
  kept_id : BufferPool.next_page_id p' = BufferPool.next_page_id p;
  kept_store : file_manager p' = file_manager p
}.

Lemma kept_refl p : pool_ok p → kept p p.
Proof. by constructor. Qed.

Lemma kept_trans p1 p2 p3 : kept p1 p2 → kept p2 p3 → kept p1 p3.
Proof. intros [] []. constructor; [done|congruence..]. Qed.

Lemma updateLRU_same pid p :
  frames (updateLRU pid p) = frames p ∧ pool_size (updateLRU pid p) = pool_size p ∧
  BufferPool.next_page_id (updateLRU pid p) = BufferPool.next_page_id p ∧
  file_manager (updateLRU pid p) = file_manager p.
Proof. unfold updateLRU. by destruct (lru_iterators p !! pid). Qed.

(** A page in the pool is found there, whatever the table. *)
Lemma fetch_hit table pid p f :
  pool_ok p → frames p !! pid = Some f →
  ∃ p', fetchPage table pid FetchMode.READ p = Some (p', Some pid) ∧ kept p p'.
Proof.
  intros Hok Hf. pose proof (ok_latch _ Hok _ _ Hf) as Hl.
  assert (∃ p', fetchPage table pid FetchMode.READ p = Some (p', Some pid) ∧
    frames p' = frames p ∧ pool_size p' = pool_size p ∧
    BufferPool.next_page_id p' = BufferPool.next_page_id p ∧ file_manager p' = file_manager p)
    as (p' & Hp' & Hfr & Hs & Hn & Hfm).
  { unfold fetchPage. rewrite Hf, Hl. eexists. split; [reflexivity|].
    destruct (updateLRU_same pid (set_stats count_hit p)) as (H1 & H2 & H3 & H4).
    cbn -[updateLRU]. rewrite H1, H2, H3, H4. split_and!; try done.
    apply insert_id. rewrite Hf. f_equal. destruct f. simpl in *. by subst. }
  exists p'. split; [done|]. constructor; try done. by eapply fetchPage_ok.
Qed.

(** ** The pages of the pool as a map of records *)

(** The record [rid] of the pages in the pool. *)
Definition read_record p (rid : Z) : option (list Value) :=
  f ← frames p !! rid_page rid; r ← getRecord (fpage f) rid; r.

Lemma read_record_frames p p' rid : frames p' = frames p → read_record p' rid = read_record p rid.
Proof. unfold read_record. by intros ->. Qed.

Lemma table_getRecord_hit t rid p f r :
  pool_ok p → frames p !! rid_page rid = Some f → getRecord (fpage f) rid = Some r →
  ∃ p', kept p p' ∧ table_getRecord t rid p =
    Some (p', match r with Some _ => StatusCode.OK | None => StatusCode.NOT_FOUND end, default [] r).
Proof.
  intros Hok Hf Hr. destruct (fetch_hit (ts_id (tschema t)) _ _ _ Hok Hf) as (p' & Hp' & Hk).
  exists p'. split; [done|]. unfold table_getRecord, getPage. rewrite Hp'.
  cbn [mbind option_bind snd fst deref_page]. rewrite (kept_frames _ _ Hk), Hf.
  cbn [mbind option_bind]. rewrite Hr. by destruct r.
Qed.

(** A frame whose page is replaced. *)
Lemma assign_some key f pg p :
  frames p !! key = Some f →
  assign (Some key) pg p = Some (set_frames (<[key := set_fpage pg f]> (frames p)) p).
Proof. intros Hf. unfold assign. cbn [mbind option_bind]. by rewrite Hf. Qed.

Lemma deref_page_some key f p : frames p !! key = Some f → deref_page (Some key) p = Some (fpage f).
Proof. intros Hf. unfold deref_page. cbn [mbind option_bind]. by rewrite Hf. Qed.

Lemma pool_ok_assign key f pg p :
  pool_ok p → frames p !! key = Some f →
  pool_ok (set_frames (<[key := set_fpage pg f]> (frames p)) p).
Proof. intros Hok Hf. eapply pool_ok_frame; [done..|]. exact (ok_latch _ Hok _ _ Hf). Qed.

Lemma rid_page_make k slot : 0 ≤ k < 2 ^ 32 → fits 16 slot → rid_page (make_rid k slot) = k.
Proof.
  intros Hk Hs. unfold rid_page, make_rid. rewrite Z.shiftr_lor.
  rewrite wrap_small by (rewrite Z.shiftl_mul_pow2 by lia; unfold fits; lia).
  rewrite Z.shiftr_shiftl_l by lia. rewrite Z.sub_diag, Z.shiftl_0_r.
  rewrite (Z.shiftr_div_pow2 slot) by lia. unfold fits in Hs.
  rewrite Z.div_small by lia. apply Z.lor_0_r.
Qed.

(** The part of a record id that selects a record: its page and its slot. *)
Definition same_record (rid rid' : Z) : Prop :=
  rid_page rid' = rid_page rid ∧ rid_slot rid' = rid_slot rid.

(** Replacing the page at [key] changes the records of this page only. *)
Lemma read_record_assign p p' key f f' :
  frames p' = <[key := f']> (frames p) → frames p !! key = Some f →
  ∀ rid, read_record p' rid =
    if decide (rid_page rid = key) then r ← getRecord (fpage f') rid; r else read_record p rid.
Proof.
  intros Hfr Hf rid. unfold read_record. rewrite Hfr. case_decide as Hk.
  - by rewrite Hk, lookup_insert_eq.
  - by rewrite lookup_insert_ne by done.
Qed.

(** A page pointer of a table that is good to use: the page is in the pool under
    its own number, with a correct layout. *)
Record good_page p (key : Z) (f : BufferFrame) : Prop := mk_good_page {
  good_frame : frames p !! key = Some f;
  good_layout : page_ok (fpage f);
  good_id : page_id (header (fpage f)) = key;
  good_number : 0 ≤ key < 2 ^ 32
}.

Definition has_space (pg : Page) (values : list Value) : Prop :=
  record_bytes_size values + 8 ≤ free_space_end (header pg) - free_space_offset (header pg).

Lemma count_fits pg : page_ok pg → fits 16 (record_count (header pg)).
Proof. intros [[Hh _] _ _ _]. apply (wf_record_count _ Hh). Qed.

(** An insertion that finds space in the last page. *)
Lemma table_insert_space t values p k f :
  pool_ok p → last_page t = Some k → good_page p k f →
  table_validateRecord t values = true → has_space (fpage f) values →
  let rid := make_rid k (record_count (header (fpage f))) in
  ∃ p' f' dat dat', table_insertRecord t values p = Some (p', count_rows 1 t, StatusCode.OK, Some rid) ∧
    pool_ok p' ∧ frames p' = <[k := f']> (frames p) ∧ dirty f' = true ∧
    fpage f' = inserted (fpage f) (record_bytes_size values) dat' ∧
    insertRecord (fpage f) values = Some (fpage f', Some rid) ∧
    write_bytes (pdata (fpage f))
      (Z.to_nat (free_space_end (header (fpage f)) - record_bytes_size values - 64))
      (concat (map serializeValue values)) = Some dat ∧
    set_slot dat (record_count (header (fpage f)))
      (mkPageSlot (free_space_end (header (fpage f)) - record_bytes_size values)
         (record_bytes_size values) 0 0) = Some dat'.
Proof.
  intros Hok Hl [Hf Hp Hid Hk] Hv Hsp rid. unfold has_space in Hsp.
  destruct (insertRecord_cases (fpage f) values Hp)
    as [[? _]|(_ & dat & dat' & Hw1 & Hw2 & Heq)]; [lia|].
  rewrite Hid in Heq. fold rid in Heq. set (pg := inserted _ _ dat') in *.
  unfold table_insertRecord. rewrite Hv, Hl. cbn [negb]. unfold insert_through.
  rewrite (deref_page_some _ _ _ Hf). cbn [mbind option_bind]. rewrite Heq. cbn [mbind option_bind fst snd].
  rewrite (assign_some _ _ _ _ Hf). cbn [mbind option_bind fst snd].
  erewrite deref_page_some by (cbn; apply lookup_insert_eq). cbn [mbind option_bind fpage set_fpage].
  assert (page_id (header pg) = k) as -> by (rewrite <- Hid; reflexivity).
  unfold unpinPage. cbn [frames set_frames]. rewrite lookup_insert_eq, insert_insert_eq.
  eexists _, _, dat, dat'. split; [reflexivity|].
  assert (fpage (setDirty true (unpin (set_fpage pg f))) = pg) as ->
    by (unfold unpin; cbn; by destruct (0 <? pin_count f)).
  split_and!; try done.
  refine (pool_ok_frame p k f _ Hok Hf _). pose proof (ok_latch _ Hok _ _ Hf).
  unfold unpin. cbn. by destruct (0 <? pin_count f).
Qed.


(** Deletion from a table: the id of an existing slot of a page in the pool is
    deleted with status [OK], even if the record was deleted before, and the cached
    count falls by one each time; the id becomes unreadable and every other
    record reads the same.  The frame is left as clean as it was, so that a
    flush of a page fetched for reading writes nothing. *)
Theorem table_delete_spec t rid p f :
  pool_ok p → good_page p (rid_page rid) f → rid_slot rid < record_count (header (fpage f)) →
  ∃ p' t' f', table_deleteRecord t rid p = Some (p', t', StatusCode.OK) ∧ pool_ok p' ∧
    good_page p' (rid_page rid) f' ∧ record_count (header (fpage f')) = record_count (header (fpage f)) ∧
    cached_record_count t' = wrap 64 (cached_record_count t - 1) ∧
    read_record p' rid = None ∧
    (∀ rid', ¬ same_record rid rid' → is_Some (read_record p rid') →
       read_record p' rid' = read_record p rid') ∧
    dirty f' = dirty f ∧ (dirty f = false → flushPage (rid_page rid) p' = p').
Proof.
  intros Hok [Hf Hp Hid Hk] Hlt.
  destruct (fetch_hit (ts_id (tschema t)) _ _ _ Hok Hf) as (q & Hq & Hkept).
  pose proof (kept_frames _ _ Hkept) as Hfr.
  destruct (deleteRecord_cases (fpage f) rid Hp) as [[? _]|(_ & s & dat & Hget & Hw & Heq)]; [lia|].
  destruct (deleted_ok (fpage f) rid s dat Hp Hlt Hget Hw) as [Hp' Hg].
  pose proof (λ rid', deleted_frame (fpage f) rid _ dat rid' Hp Hw Hlt) as Hframe.
  set (pg := mkPage (set_dirty_flag true (header (fpage f))) dat) in *.
  assert (frames q !! rid_page rid = Some f) as Hfq by (by rewrite Hfr).
  eexists _, _, (set_fpage pg f). split.
  { unfold table_deleteRecord, getPage. rewrite Hq. cbn [mbind option_bind fst snd].
    rewrite (deref_page_some _ _ _ Hfq). cbn [mbind option_bind]. rewrite Heq.
    cbn [mbind option_bind fst snd]. rewrite (assign_some _ _ _ _ Hfq). reflexivity. }
  set (p' := set_frames _ q).
  assert (frames p' = <[rid_page rid := set_fpage pg f]> (frames p)) as Hfr'
    by (unfold p'; cbn; by rewrite Hfr).
  split; [by apply pool_ok_assign; [apply Hkept|]|].
  split. { constructor; [rewrite Hfr'; apply lookup_insert_eq|done..]. }
  split; [done|]. split; [done|].
  pose proof (read_record_assign p p' (rid_page rid) f _ Hfr' Hf) as Hread.
  split; [rewrite Hread, decide_True by done; cbn [fpage set_fpage]; by rewrite Hg|]. split.
  - intros rid' Hns [row Hr]. rewrite Hread. case_decide as Hpk; [|done].
    unfold read_record in Hr |- *. rewrite Hpk, Hf in Hr |- *. cbn [mbind option_bind fpage set_fpage] in *.
    rewrite Hframe; [done| |].
    + apply bind_Some in Hr as (r & Hr & ->). unfold getRecord in Hr.
      destruct (Z.leb_spec (record_count (header (fpage f))) (rid_slot rid')); [discriminate|done].
    + intros Hs. by apply Hns.
  - split; [done|]. intros Hd. unfold flushPage. rewrite Hfr', lookup_insert_eq.
    cbn [dirty set_fpage]. by rewrite Hd.
Qed.

(** ** A table with no file *)

(** A new page, when there is room in the pool. *)
Lemma create_room table p :
  pool_ok p → (size (frames p) < pool_size p)%nat → fits 64 (BufferPool.next_page_id p + 1) →
  let id := BufferPool.next_page_id p in
  ∃ p' f, createNewPage table PageType.DATA_PAGE p = Some (p', id) ∧ pool_ok p' ∧
    frames p' = <[id := f]> (frames p) ∧ fpage f = setType PageType.DATA_PAGE (Page_new id table) ∧
    BufferPool.next_page_id p' = id + 1 ∧ pool_size p' = pool_size p.
Proof.
  intros Hok Hs Hid id.
  assert (∃ p' f, createNewPage table PageType.DATA_PAGE p = Some (p', id) ∧
    frames p' = <[id := f]> (frames p) ∧ fpage f = setType PageType.DATA_PAGE (Page_new id table) ∧
    BufferPool.next_page_id p' = id + 1 ∧ pool_size p' = pool_size p)
    as (p' & f & Hc & Hfr & Hf & Hn & Hps).
  { unfold createNewPage. rewrite make_room_enough by done. cbn [mbind option_bind].
    eexists _, _. split; [reflexivity|]. cbn -[Page_new setType].
    rewrite insert_insert_eq, wrap_small by done. split_and!; reflexivity. }
  exists p', f. split_and!; try done. by eapply createNewPage_ok.
Qed.

(** The last page of the table is as its constructor made it, and the numbers of the
    pages in the pool were given by its counter. *)
Record fresh_table (t : Table) p : Prop := mk_fresh_table {
  fresh_ok : pool_ok p;
  fresh_ids : ∀ key, is_Some (frames p !! key) → key < BufferPool.next_page_id p;
  fresh_last : ∃ k f, last_page t = Some k ∧ frames p !! k = Some f ∧
    reachable (fpage f) ∧ page_id (header (fpage f)) = k
}.

Lemma new_reachable id table :
  fits 64 id → fits 32 table → reachable (setType PageType.DATA_PAGE (Page_new id table)).
Proof. intros Hid Ht. apply reach_type; [by apply reach_new|]. by repeat split. Qed.

(** A page pointer whose page is as the constructor made it. *)
Lemma insert_through_fresh key f values p :
  frames p !! key = Some f → reachable (fpage f) →
  ∃ p', insert_through (Some key) values p = Some (p', None) ∧ p' = p.
Proof.
  intros Hf Hr%reachable_exhausted. exists p. split; [|done]. unfold insert_through.
  rewrite (deref_page_some _ _ _ Hf). cbn [mbind option_bind]. rewrite exhausted_insert by done.
  cbn [mbind option_bind fst snd]. rewrite (assign_some _ _ _ _ Hf).
  cbn [mbind option_bind]. do 2 f_equal. destruct p as [? fs ? ? ? ? ? ? ? ?]. unfold set_frames. cbn in *.
  f_equal. apply insert_id. rewrite Hf. f_equal. by destruct f.
Qed.

(** A page changed and then unpinned as dirty. *)
Lemma unpin_assigned key f pg p :
  pool_ok p → frames p !! key = Some f →
  let p' := unpinPage key true (set_frames (<[key := set_fpage pg f]> (frames p)) p) in
  pool_ok p' ∧ BufferPool.next_page_id p' = BufferPool.next_page_id p ∧ pool_size p' = pool_size p ∧
  ∃ f', frames p' = <[key := f']> (frames p) ∧ fpage f' = pg ∧ dirty f' = true.
Proof.
  intros Hok Hf p'. split; [by apply unpinPage_ok, pool_ok_assign|]. unfold p', unpinPage.
  cbn [frames set_frames]. rewrite lookup_insert_eq, insert_insert_eq. cbn.
  split; [done|]. split; [done|]. eexists. split; [done|].
  unfold unpin. cbn. by destruct (0 <? pin_count f).
Qed.

Lemma fresh_table_append t p :
  fresh_table t p → (size (frames p) < pool_size p)%nat →
  fits 64 (BufferPool.next_page_id p + 1) → 0 < BufferPool.next_page_id p →
  fits 32 (ts_id (tschema t)) →
  ∃ p' t' k, appendNewPage t p = Some (p', t', Some k) ∧ fresh_table t' p' ∧
    last_page t' = Some k ∧ tschema t' = tschema t ∧ cached_record_count t' = cached_record_count t ∧
    size (frames p') = S (size (frames p)) ∧ pool_size p' = pool_size p ∧
    BufferPool.next_page_id p' = BufferPool.next_page_id p + 1.
Proof.
  intros [Hok Hids (k & f & Hl & Hf & Hr & Hid)] Hs Hfit Hpos Ht.
  destruct (create_room (ts_id (tschema t)) p Hok Hs Hfit) as (q & g & Hc & Hokq & Hfr & Hg & Hn & Hps).
  set (id := BufferPool.next_page_id p) in *.
  assert (k ≠ id) as Hne by (intros ->; specialize (Hids _ ltac:(by eexists)); unfold id in *; lia).
  assert (frames p !! id = None) as Hnone.
  { apply eq_None_not_Some. intros Hsome%Hids. unfold id in *. lia. }
  assert (fits 64 id) as Hfid by (unfold fits in *; lia).
  unfold appendNewPage. rewrite Hc, Hl. cbn [mbind option_bind fst snd].
  assert (frames q !! id = Some g) as Hgq by (rewrite Hfr; apply lookup_insert_eq).
  assert (frames q !! k = Some f) as Hfq by (rewrite Hfr; by rewrite lookup_insert_ne by done).
  rewrite (deref_page_some _ _ _ Hgq), (deref_page_some _ _ _ Hfq). cbn [mbind option_bind].
  rewrite (assign_some _ _ _ _ Hfq). cbn [mbind option_bind].
  assert (page_id (header (fpage g)) = id) as -> by by rewrite Hg.
  rewrite Hid.
  destruct (unpin_assigned k f (setNextPage id (fpage f)) q Hokq Hfq)
    as (Hok1 & Hn1 & Hps1 & f1 & Hfr1 & Hpg1 & _). cbv zeta in *.
  set (q1 := unpinPage k true _) in *.
  assert (frames q1 !! k = Some f1) as Hk1 by (rewrite Hfr1; apply lookup_insert_eq).
  assert (frames q1 !! id = Some g) as Hg1 by (rewrite Hfr1; by rewrite lookup_insert_ne).
  rewrite (deref_page_some _ _ _ Hk1), Hpg1. cbn [mbind option_bind].
  rewrite (deref_page_some _ _ _ Hg1). cbn [mbind option_bind]. rewrite (assign_some _ _ _ _ Hg1).
  cbn [mbind option_bind]. eexists _, _, _. split; [reflexivity|].
  assert (fits 64 k) as Hfk by (rewrite <- Hid; apply (ex_wf _ (reachable_exhausted _ Hr))).
  split; [|split; [done|split; [done|split; [done|]]]].
  - constructor; [by apply pool_ok_assign| |].
    + intros key. cbn [frames set_frames BufferPool.next_page_id]. rewrite Hn1, Hn, Hfr1, Hfr.
      destruct (decide (key = id)) as [->|]; [lia|].
      destruct (decide (key = k)) as [->|]; [intros _; specialize (Hids k); rewrite Hf in Hids;
        specialize (Hids ltac:(eauto)); unfold id in *; lia|].
      rewrite !lookup_insert_ne by done. intros Hsome%Hids. unfold id in *. lia.
    + eexists _, _. split; [done|]. cbn [frames set_frames]. split; [apply lookup_insert_eq|].
      cbn [fpage set_fpage]. rewrite Hg. split; [|done].
      apply reach_prev; [by apply new_reachable|]. by rewrite <- Hid in Hfk.
  - cbn [frames set_frames pool_size BufferPool.next_page_id]. split_and!; [|congruence..].
    rewrite map_size_insert_Some by eauto. rewrite Hfr1, map_size_insert_Some by eauto.
    by rewrite Hfr, map_size_insert_None.
Qed.

(** Validation depends on the schema only. *)
Lemma validate_schema t t' values :
  tschema t' = tschema t → table_validateRecord t' values = table_validateRecord t values.
Proof.
  intros Hs. unfold table_validateRecord. rewrite Hs. case_decide as Hl; [clear Hl|done].
  generalize 0%nat. induction values as [|v values IH]; intros i; [done|]. cbn [table_validate_loop].
  unfold validateColumn. rewrite Hs. by rewrite IH.
Qed.

(** The insertions of a list of records, one by one, with their statuses. *)
Fixpoint insert_each (t : Table) (records : list (list Value)) p
  : option (BufferPool St * Table * list StatusCode) :=
  match records with
  | [] => Some (p, t, [])
  | record :: records' =>
      r ← table_insertRecord t record p;
      let '(p, t, status, _) := r in
      rest ← insert_each t records' p;
      let '(p, t, statuses) := rest in Some (p, t, status :: statuses)
  end.

Lemma fresh_table_insert t values p :
  fresh_table t p → (size (frames p) < pool_size p)%nat →
  fits 64 (BufferPool.next_page_id p + 1) → 0 < BufferPool.next_page_id p →
  fits 32 (ts_id (tschema t)) → table_validateRecord t values = true →
  ∃ p' t', table_insertRecord t values p = Some (p', t', StatusCode.ERROR, None) ∧ fresh_table t' p' ∧
    tschema t' = tschema t ∧ cached_record_count t' = cached_record_count t ∧
    size (frames p') = S (size (frames p)) ∧ pool_size p' = pool_size p ∧
    BufferPool.next_page_id p' = BufferPool.next_page_id p + 1.
Proof.
  intros Hfresh Hs Hfit Hpos Ht Hv.
  destruct (fresh_table_append t p Hfresh Hs Hfit Hpos Ht)
    as (p' & t' & k' & Ha & Hfresh' & Hl' & Hsch & Hc & Hs' & Hps & Hn).
  pose proof Hfresh as [_ _ (k & f & Hl & Hf & Hr & _)].
  pose proof Hfresh' as [_ _ (k1 & f1 & Hl1 & Hf1 & Hr1 & _)].
  assert (k1 = k') as -> by congruence.
  exists p', t'. split; [|done]. unfold table_insertRecord. rewrite Hv, Hl. cbn [negb].
  destruct (insert_through_fresh k f values p Hf Hr) as (? & -> & ->).
  cbn [mbind option_bind fst snd]. rewrite Ha. cbn [mbind option_bind].
  destruct (insert_through_fresh k' f1 values p' Hf1 Hr1) as (? & -> & ->). done.
Qed.

(** The table that is made when its file has no first page. *)
Lemma fresh_table_new fuel schema p s :
  pool_ok p → frames p = ∅ → (0 < pool_size p)%nat → fits 64 (BufferPool.next_page_id p + 1) →
  0 < BufferPool.next_page_id p → fits 32 (ts_id schema) →
  ps_read (file_manager p) (table_file (ts_id schema)) 0 = (s, None) →
  ∃ p' t, Table_new fuel schema p = Some (p', t) ∧ fresh_table t p' ∧ tschema t = schema ∧
    cached_record_count t = 0 ∧ size (frames p') = 1%nat ∧ pool_size p' = pool_size p ∧
    BufferPool.next_page_id p' = BufferPool.next_page_id p + 1.
Proof.
  intros Hok Hfr Hs Hfit Hpos Ht Hread.
  assert (∃ q, fetchPage (ts_id schema) 0 FetchMode.READ p = Some (q, None) ∧ frames q = ∅ ∧
    pool_size q = pool_size p ∧ BufferPool.next_page_id q = BufferPool.next_page_id p)
    as (q & Hq & Hfq & Hpq & Hnq).
  { unfold fetchPage. rewrite Hfr, lookup_empty.
    rewrite make_room_enough by (cbn; rewrite Hfr, map_size_empty; lia).
    cbn [mbind option_bind]. unfold readFromDisk. cbn [file_manager set_stats]. rewrite Hread.
    eexists. split; [reflexivity|]. cbn. by rewrite Hfr. }
  destruct (create_room (ts_id schema) q) as (p' & f & Hc & Hok' & Hfr' & Hf & Hn & Hps).
  { by eapply fetchPage_ok. } { rewrite Hfq, map_size_empty. lia. } { congruence. }
  unfold Table_new. rewrite Hq. cbn [mbind option_bind fst snd]. rewrite Hc.
  cbn [mbind option_bind fst snd]. eexists _, _. split; [reflexivity|].
  split; [|split; [done|split; [done|]]].
  - constructor; [done| |].
    + intros key. rewrite Hfr', Hfq, Hn. intros [g [[<- _]|[_ Hg]]%lookup_insert_Some]; [lia|].
      by rewrite lookup_empty in Hg.
    + eexists _, f. split; [done|]. split; [rewrite Hfr'; apply lookup_insert_eq|]. rewrite Hf.
      split; [|done]. apply new_reachable; [|done]. unfold fits in *. rewrite Hnq. lia.
  - rewrite Hfr', Hfq. split; [by rewrite map_size_insert_None, map_size_empty|]. split; congruence.
Qed.

Lemma fresh_insert_each records : ∀ t p,
  fresh_table t p → (size (frames p) + length records ≤ pool_size p)%nat →
  fits 64 (BufferPool.next_page_id p + Z.of_nat (length records)) → 0 < BufferPool.next_page_id p →
  fits 32 (ts_id (tschema t)) → Forall (λ r, table_validateRecord t r = true) records →
  ∃ p' t', insert_each t records p = Some (p', t', replicate (length records) StatusCode.ERROR) ∧
    size (frames p') = (size (frames p) + length records)%nat ∧
    cached_record_count t' = cached_record_count t.
Proof.
  induction records as [|r records IH]; intros t p Hfresh Hs Hfit Hpos Ht Hv.
  { exists p, t. split; [done|]. cbn [length]. split; [lia|done]. }
  apply Forall_cons in Hv as [Hv Hvs]. cbn [length] in Hs, Hfit.
  destruct (fresh_table_insert t r p Hfresh) as (q & u & Hi & Hfresh' & Hsch & Hc & Hsq & Hps & Hn);
    [lia|unfold fits in *; lia|done..|].
  destruct (IH u q Hfresh') as (p' & t' & He & Hs' & Hc').
  { lia. } { rewrite Hn. unfold fits in *. lia. } { lia. } { by rewrite Hsch. }
  { eapply Forall_impl; [exact Hvs|]. intros x. by rewrite (validate_schema t u). }
  exists p', t'. split; [|split; [cbn [length]; lia|congruence]].
  cbn [insert_each]. rewrite Hi. cbn [mbind option_bind]. rewrite He. done.
Qed.

(** A new table never stores a record: for a table whose file has no first page, each
    insertion of a valid record returns [ERROR], and yet appends one more page to
    the table, as long as the pool has room for the pages. *)
Theorem new_table_never_stores fuel schema p s records :
  pool_ok p → frames p = ∅ → BufferPool.next_page_id p = 1 → fits 32 (ts_id schema) →
  ps_read (file_manager p) (table_file (ts_id schema)) 0 = (s, None) →
  (length records < pool_size p)%nat → Z.of_nat (pool_size p) < 2 ^ 32 →
  Forall (λ r, table_validateRecord (mkTable schema None None 0 0 0) r = true) records →
  ∃ p1 t p2 t', Table_new fuel schema p = Some (p1, t) ∧
    insert_each t records p1 = Some (p2, t', replicate (length records) StatusCode.ERROR) ∧
    size (frames p2) = S (length records) ∧ cached_record_count t' = 0.
Proof.
  intros Hok Hfr Hn Ht Hread Hs Hps Hv.
  destruct (fresh_table_new fuel schema p s) as (p1 & t & Hnew & Hfresh & Hsch & Hc & Hs1 & Hps1 & Hn1);
    rewrite ?Hn; try done; [lia|].
  destruct (fresh_insert_each records t p1 Hfresh) as (p2 & t' & He & Hs2 & Hc2).
  { lia. } { rewrite Hn1, Hn. unfold fits. lia. } { lia. } { by rewrite Hsch. }
  { eapply Forall_impl; [exact Hv|]. intros x. by rewrite (validate_schema (mkTable schema None None 0 0 0) t). }
  exists p1, t, p2, t'. split_and!; [done..|lia|congruence].
Qed.

End Proofs.

(** ** Examples *)

(** A table of one nullable integer column whose only page is page 1. *)
Definition schema1 : TableSchema :=
  mkTableSchema 1 "t" [ColumnSchema_default] [] ∅ ∅.
Definition table1 : Table := mkTable schema1 (Some 1) (Some 1) 0 0 0.

Definition frame_of (pg : Page) : BufferFrame := mkFrame pg 0 false false.

Lemma good_page1 pg :
  page_ok pg → page_id (header pg) = 1 → good_page (pool_one (frame_of pg)) 1 (frame_of pg).
Proof. intros Hp Hid. constructor; [reflexivity|done..|lia]. Qed.

Lemma pool1_ok pg : pool_ok (pool_one (frame_of pg)).
Proof. by apply pool_one_ok. Qed.

(** A file system without files. *)
Definition fm_nofile : FileManager := FileManager_new ∅.

(** Page 1 with one record. *)
Definition page1 : Page :=
  match insertRecord (blank_page 1 1) [Value_int 7] with
  | Some (p, _) => p
  | None => blank_page 1 1
  end.

Lemma page1_ok : page_ok page1.
Proof.
  unfold page1. assert (page_ok (blank_page 1 1)) as Hp by (apply blank_page_ok; unfold fits; lia).
  destruct (insertRecord_safe _ [Value_int 7] Hp) as (p' & rid & -> & Hp'). done.
Qed.


Lemma table_delete_spec_witness :
  let E_store := FileManager_store env0 in
  ∃ p' t', table_deleteRecord table1 (make_rid 1 0) (pool_one (frame_of page1)) =
      Some (p', t', StatusCode.OK) ∧ read_record p' (make_rid 1 0) = None.
Proof.
  intros E_store.
  destruct (table_delete_spec table1 (make_rid 1 0) (pool_one (frame_of page1)) (frame_of page1)
    (pool1_ok _) (good_page1 _ page1_ok eq_refl)) as (p' & t' & f' & Hd & _ & _ & _ & _ & Hr & _).
  - vm_compute. done.
  - exists p', t'. split; [exact Hd|exact Hr].
Defined.

Lemma new_table_never_stores_witness :
  let E_store := FileManager_store env0 in
  ∃ p1 t p2 t', Table_new 0 schema1 (BufferPool_new 8 fm_nofile) = Some (p1, t) ∧
    insert_each t [[Value_int 7]; [Value_int 8]] p1 =
      Some (p2, t', [StatusCode.ERROR; StatusCode.ERROR]) ∧ size (frames p2) = 3%nat.
Proof.
  intros E_store. destruct (ps_read fm_nofile (table_file 1) 0) as [s r] eqn:Hread.
  assert (r = None) as -> by (vm_compute in Hread; congruence).
  destruct (new_table_never_stores 0 schema1 (BufferPool_new 8 fm_nofile) s [[Value_int 7]; [Value_int 8]])
    as (p1 & t & p2 & t' & H1 & H2 & H3 & _).
  - apply BufferPool_new_ok.
  - done.
  - done.
  - unfold fits. cbn. lia.
  - exact Hread.
  - vm_compute. lia.
  - vm_compute. done.
  - by repeat constructor.
  - exists p1, t, p2, t'. split; [exact H1|]. split; [exact H2|exact H3].
Defined.
