(* ===== verification/TableScan.v ===== *)
(** * TableScan: iteration over a table, scans and searches

    [cursor] is the protocol of an iterator with the rows that it still has to
    give; the loops of the table are proved against it, and [begin_cursor] shows
    that the iterators of a table whose pages are linked in the pool follow it.
    Its end is not the [end()] of the table: the slot is not reset when the
    last page is left. *)

From stdpp Require Import gmap strings.
From S2P Require Import Prelude CxxString Types Record Page PageProofs FileManager BufferPool BufferPoolProofs Table TableProofs.

Open Scope Z_scope.

Section Scan.
Context {St : Type} `{PageStore St}.
Implicit Types p : BufferPool St.

(** ** The protocol of an iterator *)

Section Cursor.
Variable t : Table.
Variable fs : gmap Z BufferFrame.
(** The fuel that one step needs. *)
Variable n : nat.

(** The pools in which the frames are [fs]. *)
Definition pool_at p : Prop := pool_ok p ∧ frames p = fs.

Lemma pool_at_kept p p' : pool_at p → kept p p' → pool_at p'.
Proof. intros [_ Hf] [Hok Hf' _ _ _]. split; [done|congruence]. Qed.

(** [it] gives [rows], with their ids, and then stops at slot [e] of no page. *)
Fixpoint cursor (it : TableIterator) (rows : list (Z * list Value)) (e : Z) : Prop :=
  match rows with
  | [] =>
      current_page_id it = INVALID_PAGE_ID ∧ current_slot it = e ∧
      ∀ p, pool_at p → ∃ rid, iterator_deref it p = Some (rid, [])
  | (rid, row) :: rows' =>
      iterator_ne it table_end = true ∧ getRecordId it = rid ∧
      (∀ p, pool_at p → iterator_deref it p = Some (rid, row)) ∧
      ∃ it', cursor it' rows' e ∧
        ∀ p fuel, pool_at p → (n ≤ fuel)%nat →
          ∃ p', iterator_next fuel t it p = Some (p', it') ∧ kept p p'
  end.

(** The body of a loop, run over rows without leaving the loop. *)
Fixpoint run_body {A} (body : A → list Value → option (A + A)) (a : A)
    (rows : list (list Value)) : option A :=
  match rows with
  | [] => Some a
  | row :: rows' => match body a row with Some (inl a') => run_body body a' rows' | _ => None end
  end.

(** The loop over the first rows, when the body does not leave it. *)
Lemma for_iterator_run {A} (body : A → list Value → option (A + A)) rows1 :
  ∀ a a' it rows2 e p fuel,
  pool_at p → cursor it (rows1 ++ rows2) e → run_body body a rows1.*2 = Some a' →
  (n ≤ fuel)%nat →
  ∃ it' p', cursor it' rows2 e ∧ kept p p' ∧
    for_iterator (length rows1 + fuel) t body a it p = for_iterator fuel t body a' it' p'.
Proof.
  induction rows1 as [|[rid row] rows1 IH]; intros a a' it rows2 e p fuel Hp Hc Hr Hn.
  { simplify_eq/=. exists it, p. split; [done|]. split; [apply kept_refl, Hp|done]. }
  destruct Hc as (Hne & _ & Hd & it' & Hc & Hnext). cbn [run_body fmap list_fmap snd] in Hr.
  destruct (body a row) as [[a1|]|] eqn:Hb; [|done..].
  destruct (Hnext p (length rows1 + fuel)%nat Hp ltac:(lia)) as (p1 & Hp1 & Hk1).
  destruct (IH a1 a' it' rows2 e p1 fuel (pool_at_kept _ _ Hp Hk1) Hc Hr Hn)
    as (it2 & p2 & Hc2 & Hk2 & Heq).
  exists it2, p2. split; [done|]. split; [by eapply kept_trans|].
  cbn [length Nat.add for_iterator]. rewrite Hne, (Hd p Hp). cbn [mbind option_bind snd].
  rewrite Hb. cbn [mbind option_bind]. rewrite Hp1. cbn [mbind option_bind fst snd]. exact Heq.
Qed.

(** The row at which the body leaves the loop. *)
Lemma for_iterator_break {A} (body : A → list Value → option (A + A)) a a' it rid row rows e p fuel :
  pool_at p → cursor it ((rid, row) :: rows) e → body a row = Some (inr a') →
  for_iterator (S fuel) t body a it p = Some (p, it, a').
Proof.
  intros Hp (Hne & _ & Hd & _) Hb. cbn [for_iterator]. rewrite Hne, (Hd p Hp).
  cbn [mbind option_bind snd]. by rewrite Hb.
Qed.

(** The end, if it is the end of the table. *)
Lemma for_iterator_end {A} (body : A → list Value → option (A + A)) a it p fuel :
  cursor it [] 0 → for_iterator fuel t body a it p = Some (p, it, a).
Proof.
  intros (Hid & Hs & _). destruct fuel; cbn [for_iterator]; unfold iterator_ne, iterator_eq;
    by rewrite Hid, Hs.
Qed.

(** Past the end otherwise: the loop goes on with empty rows. *)
Lemma for_iterator_past {A} (body : A → list Value → option (A + A)) a it e p fuel :
  pool_at p → cursor it [] e → e ≠ 0 →
  for_iterator (S fuel) t body a it p =
  (c ← body a []; match c with inr a => Some (p, it, a) | inl a => for_iterator fuel t body a it p end)
  ∧ for_iterator 0 t body a it p = None.
Proof.
  intros Hp (Hid & Hs & Hd) He.
  assert (iterator_ne it table_end = true) as Hne.
  { unfold iterator_ne, iterator_eq. rewrite Hid, Hs. cbn [table_end current_page_id current_slot].
    by rewrite (proj2 (Z.eqb_neq e 0)), andb_false_r. }
  destruct (Hd p Hp) as [rid Hdp]. cbn [for_iterator]. rewrite Hne, Hdp. split; [|done].
  cbn [mbind option_bind snd]. destruct (body a []) as [[a'|a']|]; [|done..].
  cbn [mbind option_bind]. unfold iterator_next. by rewrite Hid.
Qed.

(** A body that never leaves the loop on empty rows: the loop does not end. *)
Lemma for_iterator_forever {A} (body : A → list Value → option (A + A)) :
  (∀ a, ∃ a', body a [] = Some (inl a')) →
  ∀ fuel a it e p, pool_at p → cursor it [] e → e ≠ 0 → for_iterator fuel t body a it p = None.
Proof.
  intros Hb fuel. induction fuel as [|fuel IH]; intros a it e p Hp Hc He.
  { apply (for_iterator_past body a it e p 0 Hp Hc He). }
  destruct (for_iterator_past body a it e p fuel Hp Hc He) as [Hs _].
  rewrite Hs. destruct (Hb a) as [a' ->]. cbn [mbind option_bind]. by eapply IH.
Qed.

(** Less fuel never gives more. *)
Lemma advance_mono fuel : ∀ it p r,
  advanceToNextValid fuel t it p = Some r → advanceToNextValid (S fuel) t it p = Some r.
Proof.
  induction fuel as [|fuel IH]; intros it p r; cbn [advanceToNextValid]; case_decide; try done.
  intros (x & Hx & Hr)%bind_Some. rewrite Hx. cbn [mbind option_bind].
  destruct x as [pid|]; [|done]. case_decide; [|by apply IH].
  apply bind_Some in Hr as (l & Hl & Hr). rewrite Hl. cbn [mbind option_bind]. by apply IH.
Qed.

Lemma iterator_next_mono fuel it p r :
  iterator_next fuel t it p = Some r → iterator_next (S fuel) t it p = Some r.
Proof. unfold iterator_next. case_decide; [|done]. apply advance_mono. Qed.

Lemma for_iterator_mono {A} (body : A → list Value → option (A + A)) fuel fuel' : ∀ a it p r,
  (fuel ≤ fuel')%nat →
  for_iterator fuel t body a it p = Some r → for_iterator fuel' t body a it p = Some r.
Proof.
  intros a it p r Hle. induction Hle as [|fuel' Hle IH]; [done|]. intros Hr%IH. clear - Hr.
  revert a it p r Hr. induction fuel' as [|fuel IH]; intros a it p r;
    cbn [for_iterator]; destruct (iterator_ne it table_end); try done.
  intros (rv & Hrv & Hr)%bind_Some. rewrite Hrv. cbn [mbind option_bind].
  apply bind_Some in Hr as (c & Hc & Hr). rewrite Hc. cbn [mbind option_bind].
  destruct c as [a'|a']; [|done]. apply bind_Some in Hr as (x & Hx & Hr).
  apply iterator_next_mono in Hx. rewrite Hx. cbn [mbind option_bind]. by apply IH.
Qed.

End Cursor.

(** ** The iterators of a table *)

(** The slots of a page are read without undefined behaviour. *)
Definition readable (pg : Page) : Prop :=
  fits 16 (record_count (header pg)) ∧
  ∀ i, 0 ≤ i < record_count (header pg) →
    is_Some (getRecord pg (make_rid (page_id (header pg)) i)).

(** The pages [l], linked from the page number [pid] on and in the pool. *)
Fixpoint chain (fs : gmap Z BufferFrame) (pid : Z) (l : list Page) : Prop :=
  match l with
  | [] => pid = INVALID_PAGE_ID
  | pg :: l' =>
      pid = page_id (header pg) ∧ pid ≠ INVALID_PAGE_ID ∧
      (∃ f, fs !! pid = Some f ∧ fpage f = pg) ∧ readable pg ∧
      chain fs (Page.next_page_id (header pg)) l'
  end.

(** What a slot reads as: a deleted one is an empty row. *)
Definition slot_row (pg : Page) (i : Z) : Z * list Value :=
  let rid := make_rid (page_id (header pg)) i in (rid, default [] (default None (getRecord pg rid))).

Definition page_rows (pg : Page) (s : Z) : list (Z * list Value) :=
  slot_row pg <$> seqZ s (record_count (header pg) - s).

Definition chain_rows (l : list Page) : list (Z * list Value) := l ≫= λ pg, page_rows pg 0.

(** The number of slots of the last page. *)
Definition last_count (l : list Page) : Z := default 0 (record_count ∘ header <$> last l).

Lemma page_rows_step pg s :
  0 ≤ s < record_count (header pg) → page_rows pg s = slot_row pg s :: page_rows pg (s + 1).
Proof.
  intros Hs. unfold page_rows. rewrite seqZ_cons by lia. rewrite fmap_cons.
  do 3 f_equal; lia.
Qed.

Lemma page_rows_done pg s : record_count (header pg) ≤ s → page_rows pg s = [].
Proof. intros Hs. unfold page_rows. by rewrite seqZ_nil by lia. Qed.

Section Advance.
Variable t : Table.
Variable fs : gmap Z BufferFrame.
Variable n : nat.

Lemma deref_slot pg f s p :
  pool_at fs p → fs !! page_id (header pg) = Some f → fpage f = pg → readable pg →
  0 ≤ s < record_count (header pg) →
  iterator_deref (mkTableIterator (page_id (header pg)) s (Some (page_id (header pg)))) p
  = Some (slot_row pg s).
Proof.
  intros [_ Hfs] Hf Hpg [_ Hr] Hs. unfold iterator_deref. cbn [current_page]. rewrite <- Hfs in Hf.
  rewrite (deref_page_some _ _ _ Hf), Hpg. cbn [mbind option_bind].
  unfold getRecordId, slot_row. cbn [current_page_id current_slot].
  destruct (Hr s Hs) as [r Hget]. by rewrite Hget.
Qed.

(** Past the slots of the last page. *)
Lemma deref_past pg f p :
  pool_at fs p → fs !! page_id (header pg) = Some f → fpage f = pg → readable pg →
  ∃ rid, iterator_deref (mkTableIterator INVALID_PAGE_ID (record_count (header pg))
    (Some (page_id (header pg)))) p = Some (rid, []).
Proof.
  intros [_ Hfs] Hf Hpg [Hc _]. unfold iterator_deref. cbn [current_page]. rewrite <- Hfs in Hf.
  rewrite (deref_page_some _ _ _ Hf), Hpg. cbn [mbind option_bind].
  unfold getRecordId. cbn [current_page_id current_slot]. eexists.
  unfold getRecord. rewrite rid_slot_make by done. by rewrite Z.leb_refl.
Qed.

(** From slot [s] of [pg], with the pages [l] after it, [advanceToNextValid] goes to
    the next row. *)
Definition reaches (l : list Page) (pg : Page) (s : Z) : Prop :=
  let it := mkTableIterator (page_id (header pg)) s (Some (page_id (header pg))) in
  ∃ it', cursor t fs n it' (page_rows pg s ++ chain_rows l) (last_count (pg :: l)) ∧
    ∀ p fuel, pool_at fs p → (length l + 2 ≤ fuel)%nat →
      ∃ p', advanceToNextValid fuel t it p = Some (p', it') ∧ kept p p'.

(** One turn of the loop, on a page of the chain. *)
Lemma advance_turn pg l s p fuel :
  pool_at fs p → chain fs (page_id (header pg)) (pg :: l) →
  let it := mkTableIterator (page_id (header pg)) s (Some (page_id (header pg))) in
  let next := Page.next_page_id (header pg) in
  advanceToNextValid (S fuel) t it p =
  if s <? record_count (header pg) then Some (p, it)
  else if decide (next ≠ INVALID_PAGE_ID) then
    l ← loadCurrentPage t (mkTableIterator next s (Some (page_id (header pg)))) p;
    advanceToNextValid fuel t (mkTableIterator next 0 (current_page l.2)) l.1
  else Some (p, mkTableIterator next s (Some (page_id (header pg)))).
Proof.
  intros [_ Hfs] (_ & Hinv & (f & Hf & Hfp) & _ & _). cbn [advanceToNextValid current_page_id].
  rewrite decide_True by done. cbn [current_page current_slot]. rewrite <- Hfs in Hf.
  rewrite (deref_page_some _ _ _ Hf), Hfp. cbn [mbind option_bind].
  destruct (s <? record_count (header pg)); [done|]. case_decide as Hd; [done|].
  destruct fuel; cbn [advanceToNextValid current_page_id]; by destruct (decide _).
Qed.

(** On a slot of the page. *)
Lemma reaches_slot l pg s :
  chain fs (page_id (header pg)) (pg :: l) → 0 ≤ s < record_count (header pg) →
  (length l + 2 ≤ n)%nat → reaches l pg (s + 1) → reaches l pg s.
Proof.
  intros Hch Hs Hn (it' & Hc & Hnext). pose proof Hch as (_ & Hinv & (f & Hf & Hfp) & Hrd & _).
  exists (mkTableIterator (page_id (header pg)) s (Some (page_id (header pg)))). split.
  - rewrite page_rows_step by lia. cbn [app cursor slot_row].
    split; [|split; [reflexivity|split]].
    + unfold iterator_ne, iterator_eq. cbn [table_end current_page_id].
      by rewrite (proj2 (Z.eqb_neq _ _) Hinv).
    + intros p Hp. by apply deref_slot with f.
    + exists it'. split; [exact Hc|]. intros p fuel Hp Hfuel. unfold iterator_next.
      cbn [current_page_id current_slot current_page]. rewrite decide_True by done.
      rewrite wrap_small by (destruct Hrd as [Hfit _]; unfold fits in *; lia).
      apply Hnext; [done|lia].
  - intros p fuel Hp Hfuel. exists p. split; [|apply kept_refl, Hp].
    destruct fuel as [|fuel]; [lia|]. rewrite (advance_turn pg l s p fuel Hp Hch).
    by rewrite (proj2 (Z.ltb_lt _ _)) by lia.
Qed.

(** Past the slots of the last page. *)
Lemma reaches_end pg :
  chain fs (page_id (header pg)) [pg] → reaches [] pg (record_count (header pg)).
Proof.
  intros Hch. pose proof Hch as (_ & Hinv & (f & Hf & Hfp) & Hrd & Hnx).
  exists (mkTableIterator INVALID_PAGE_ID (record_count (header pg)) (Some (page_id (header pg)))).
  split.
  - rewrite page_rows_done by lia. split; [|split]; [..|intros p Hp; by apply deref_past with f]; done.
  - intros p fuel Hp Hfuel. exists p. split; [|apply kept_refl, Hp].
    destruct fuel as [|fuel]; [simpl in Hfuel; lia|]. rewrite (advance_turn pg [] _ p fuel Hp Hch).
    by rewrite Z.ltb_irrefl, Hnx.
Qed.

(** Past the slots of a page that is not the last. *)
Lemma reaches_next l pg pg' :
  chain fs (page_id (header pg)) (pg :: pg' :: l) →
  reaches l pg' 0 → reaches (pg' :: l) pg (record_count (header pg)).
Proof.
  intros Hch (it' & Hc & Hnext). pose proof Hch as (_ & _ & _ & _ & Hnx & Hinv & (f & Hf & _) & _ & _).
  exists it'. rewrite page_rows_done by lia. split; [exact Hc|]. intros p fuel Hp Hfuel.
  destruct fuel as [|fuel]; [lia|]. rewrite (advance_turn pg (pg' :: l) _ p fuel Hp Hch). rewrite Z.ltb_irrefl, Hnx.
  rewrite Hnx in Hinv. rewrite Hnx in Hf.
  rewrite decide_True by done. unfold loadCurrentPage, getPage. cbn [current_page_id current_slot].
  rewrite decide_True by done. pose proof Hp as [Hok Hfs]. rewrite <- Hfs in Hf.
  destruct (fetch_hit (ts_id (tschema t)) _ _ _ Hok Hf) as (q & Hq & Hk). rewrite Hq.
  cbn [mbind option_bind fst snd current_page].
  destruct (Hnext q fuel (pool_at_kept _ _ _ Hp Hk)) as (p' & Hp' & Hk'); [simpl in Hfuel; lia|].
  exists p'. split; [done|by eapply kept_trans].
Qed.

Lemma reaches_all l : ∀ pg s,
  chain fs (page_id (header pg)) (pg :: l) → 0 ≤ s ≤ record_count (header pg) →
  (length l + 2 ≤ n)%nat → reaches l pg s.
Proof.
  induction l as [|pg' l IH]; intros pg s Hch Hs Hn;
    remember (Z.to_nat (record_count (header pg) - s)) as m eqn:Hm; revert s Hs Hm;
    (induction m as [|m IHm]; intros s Hs Hm;
     [assert (s = record_count (header pg)) as -> by lia
     |apply reaches_slot; [done|lia|done|]; apply IHm; lia]).
  - by apply reaches_end.
  - apply reaches_next; [done|]. pose proof Hch as (_ & _ & _ & _ & Hch').
    pose proof Hch' as (Heq & _ & _ & [Hfit _] & _). rewrite Heq in Hch'.
    apply IH; [done|unfold fits in Hfit; lia|simpl in Hn; lia].
Qed.

End Advance.

(** The table [t] has the pages [l], all in the pool. *)
Definition table_chain (t : Table) (fs : gmap Z BufferFrame) (l : list Page) : Prop :=
  match l with
  | [] => False
  | pg :: _ =>
      first_page t = Some (page_id (header pg)) ∧ chain fs (page_id (header pg)) l
  end.

Lemma begin_cursor t l p :
  pool_ok p → table_chain t (frames p) l →
  ∃ it, cursor t (frames p) (S (length l)) it (chain_rows l) (last_count l) ∧
    ∀ fuel, (length l < fuel)%nat → ∃ p', table_begin fuel t p = Some (p', it) ∧ kept p p'.
Proof.
  destruct l as [|pg l']; [done|]. intros Hok [Hfirst Hch].
  pose proof Hch as (_ & Hinv & (f & Hf & Hfp) & [Hfit _] & _). unfold fits in Hfit.
  assert (pool_at (frames p) p) as Hp by done.
  destruct (fetch_hit (ts_id (tschema t)) _ _ _ Hok Hf) as (q & Hq & Hkept).
  destruct (reaches_all t (frames p) (S (length (pg :: l'))) l' pg 0 Hch) as (it & Hc & Hadv);
    [lia|simpl; lia|].
  exists it. split; [exact Hc|]. intros fuel Hfuel. simpl in Hfuel.
  unfold table_begin. rewrite Hfirst, (deref_page_some _ _ _ Hf), Hfp. cbn [mbind option_bind].
  unfold TableIterator_new, loadCurrentPage, getPage. cbn [current_page_id current_slot].
  rewrite !decide_True by done. rewrite Hq. cbn [mbind option_bind fst snd current_page current_slot].
  rewrite <- (kept_frames _ _ Hkept) in Hf. rewrite (deref_page_some _ _ _ Hf), Hfp.
  cbn [mbind option_bind fst snd].
  destruct (Hadv q fuel) as (p' & Hp' & Hk'); [by eapply pool_at_kept|lia|].
  destruct fuel as [|fuel]; [lia|].
  rewrite (advance_turn t (frames p) pg l') in Hp' by (done || by eapply pool_at_kept).
  destruct (Z.leb_spec (record_count (header pg)) 0) as [Hle|Hgt].
  - exists p'. split; [|by eapply kept_trans]. rewrite (advance_turn t (frames p) pg l') by
      (done || by eapply pool_at_kept). done.
  - rewrite (proj2 (Z.ltb_lt _ _)) in Hp' by lia. simplify_eq. by exists p'.
Qed.

(** ** Loops over a table *)

Lemma begin_mono t fuel p r : table_begin fuel t p = Some r → table_begin (S fuel) t p = Some r.
Proof.
  unfold table_begin, TableIterator_new. intros (pg & Hpg & Hr)%bind_Some.
  rewrite Hpg. cbn [mbind option_bind]. case_decide; [|done].
  apply bind_Some in Hr as (q & Hq & Hr). rewrite Hq. cbn [mbind option_bind].
  destruct (current_page q.2) as [k|]; [|done]. apply bind_Some in Hr as (pg' & Hpg' & Hr).
  rewrite Hpg'. cbn [mbind option_bind].
  destruct (record_count (header pg') <=? current_slot q.2); [|done]. by apply advance_mono.
Qed.

Lemma begin_mono_le t fuel fuel' p r :
  (fuel ≤ fuel')%nat → table_begin fuel t p = Some r → table_begin fuel' t p = Some r.
Proof. induction 1; [done|]. intros Hr. by apply begin_mono, IHle. Qed.

Section Loops.
Context (t : Table) (l : list Page) (p : BufferPool St).
Hypothesis Hok : pool_ok p.
Hypothesis Hchain : table_chain t (frames p) l.

(** A loop over the rows that the body accepts, up to what it does after them. *)
Lemma table_loop {A} (body : A → list Value → option (A + A)) rows1 rows2 a a' fuel :
  chain_rows l = rows1 ++ rows2 → run_body body a rows1.*2 = Some a' →
  (length l < fuel)%nat →
  ∃ b p' it', table_begin (length rows1 + fuel) t p = Some b ∧ kept p p' ∧
    cursor t (frames p) (S (length l)) it' rows2 (last_count l) ∧ pool_at (frames p) p' ∧
    for_iterator (length rows1 + fuel) t body a b.2 b.1 = for_iterator fuel t body a' it' p'.
Proof.
  intros Hrows Hrun Hfuel. destruct (begin_cursor t l p Hok Hchain) as (it & Hc & Hb).
  destruct (Hb (length rows1 + fuel)%nat ltac:(lia)) as (q & Hq & Hk). rewrite Hrows in Hc.
  assert (pool_at (frames p) q) as Hat by (eapply pool_at_kept; [done|exact Hk]).
  destruct (for_iterator_run t (frames p) (S (length l)) body rows1 a a' it rows2 _ q fuel
    Hat Hc Hrun ltac:(lia)) as (it' & p' & Hc' & Hk' & Heq).
  exists (q, it), p', it'. split; [done|]. split; [by eapply kept_trans|]. split; [done|].
  split; [by eapply pool_at_kept|done].
Qed.

(** A loop that goes past the last row of a page with slots does not end. *)
Lemma table_loop_forever {A} (body : A → list Value → option (A + A)) a a' :
  last_count l ≠ 0 → run_body body a (chain_rows l).*2 = Some a' →
  (∀ a, ∃ a', body a [] = Some (inl a')) →
  ∀ fuel b, table_begin fuel t p = Some b → for_iterator fuel t body a b.2 b.1 = None.
Proof.
  intros Hlast Hrun Hb fuel b Hbegin. apply eq_None_not_Some. intros [r Hr].
  set (big := (length (chain_rows l) + (fuel + S (length l)))%nat).
  destruct (table_loop body (chain_rows l) [] a a' (fuel + S (length l)))
    as (b' & p' & it' & Hb' & _ & Hc & Hat & Heq); [by rewrite app_nil_r|done|lia|].
  apply (begin_mono_le _ _ big) in Hbegin; [|unfold big; lia].
  apply (for_iterator_mono _ _ _ big) in Hr; [|unfold big; lia].
  fold big in Hb', Heq. simplify_eq. rewrite Heq in Hr.
  rewrite (for_iterator_forever t (frames p) (S (length l)) body Hb _ _ _ _ _ Hat Hc Hlast) in Hr.
  done.
Qed.

(** ** scan *)

Lemma scan_continue limit (acc : list (list Value)) row :
  limit = 0 ∨ Z.of_nat (length acc) + 1 < limit →
  scan_body limit acc row = Some (inl (acc ++ [row])).
Proof.
  intros Hl. unfold scan_body. rewrite length_app. cbn [length].
  destruct (Z.ltb_spec 0 limit); [|done]. by rewrite (proj2 (Z.leb_gt _ _)) by lia.
Qed.

Lemma run_scan limit rows : ∀ acc : list (list Value),
  limit = 0 ∨ Z.of_nat (length acc + length rows) < limit →
  run_body (scan_body limit) acc rows = Some (acc ++ rows).
Proof.
  induction rows as [|row rows IH]; intros acc Hl; cbn [run_body]; [by rewrite app_nil_r|].
  rewrite scan_continue by (simpl in Hl; lia).
  rewrite IH by (rewrite length_app; simpl in *; lia). by rewrite <- app_assoc.
Qed.

Lemma scan_break limit (acc : list (list Value)) row :
  0 < limit → limit = Z.of_nat (length acc) + 1 →
  scan_body limit acc row = Some (inr (acc ++ [row])).
Proof.
  intros H0 Hl. unfold scan_body. rewrite (proj2 (Z.ltb_lt _ _)) by done.
  rewrite (proj2 (Z.leb_le _ _)); [done|]. rewrite length_app. simpl. lia.
Qed.

(** Past the end, empty rows fill the result up to the limit. *)
Lemma scan_past k : ∀ limit (acc : list (list Value)) it e q fuel,
  pool_at (frames p) q → cursor t (frames p) (S (length l)) it [] e → e ≠ 0 →
  limit = Z.of_nat (length acc + S k) →
  for_iterator (S k + fuel) t (scan_body limit) acc it q = Some (q, it, acc ++ replicate (S k) []).
Proof.
  induction k as [|k IH]; intros limit acc it e q fuel Hq Hc He Hl; cbn [Nat.add].
  - rewrite (proj1 (for_iterator_past t (frames p) (S (length l)) _ acc it e q _ Hq Hc He)).
    by rewrite scan_break by lia.
  - rewrite (proj1 (for_iterator_past t (frames p) (S (length l)) _ acc it e q _ Hq Hc He)).
    rewrite scan_continue by lia. cbn [mbind option_bind].
    specialize (IH limit (acc ++ [[]]) it e q fuel Hq Hc He). cbn [Nat.add] in IH. rewrite IH.
    + rewrite <- app_assoc. done.
    + rewrite length_app. simpl. lia.
Qed.

End Loops.

(** The rows that a scan with a limit collects. *)
Definition scanned (l : list Page) (limit : Z) : list (list Value) :=
  let rows := (chain_rows l).*2 in
  if limit =? 0 then rows
  else take (Z.to_nat limit) (rows ++ if last_count l =? 0 then [] else replicate (Z.to_nat limit) []).

Definition in_order sort (t : Table) (options : ScanOptions) (rows : list (list Value)) :=
  match so_order_by options with
  | [] => rows
  | order_by => (sort (scan_less t order_by) rows : list (list Value))
  end.


(** The loop of [scan]: it ends when the last page has no slots or there is a limit. *)
Lemma scan_loop t l p limit :
  pool_ok p → table_chain t (frames p) l → 0 ≤ limit → last_count l = 0 ∨ 0 < limit →
  let rows := (chain_rows l).*2 in
  ∃ fuel, (fuel ≤ length rows + Z.to_nat limit + S (length l))%nat ∧ ∃ b it p',
    table_begin fuel t p = Some b ∧ kept p p' ∧
    for_iterator fuel t (scan_body limit) [] b.2 b.1 = Some (p', it, scanned l limit).
Proof.
  intros Hok Hch H0 Hend rows. unfold scanned. fold rows.
  destruct (decide (limit = 0 ∨ Z.of_nat (length rows) < limit)) as [Hall|Hlim].
  - (* all the rows are read *)
    destruct (table_loop t l p Hok Hch (scan_body limit) (chain_rows l) [] [] rows
      (S (Z.to_nat limit - length rows + length l)))
      as (b & p' & it & Hb & Hk & Hc & Hat & Heq); [by rewrite app_nil_r|by apply run_scan|lia|].
    eexists. split; [|exists b, it, p'; split; [exact Hb|split; [done|]]].
    { unfold rows. rewrite length_fmap. lia. }
    rewrite Heq. destruct (decide (last_count l = 0)) as [Hz|Hnz].
    + rewrite Hz in Hc. rewrite (for_iterator_end _ _ _ _ _ _ _ _ Hc). do 2 f_equal.
      rewrite Hz, Z.eqb_refl, app_nil_r. case_match; [done|]. rewrite take_ge; [done|lia].
    + destruct Hend as [|Hpos]; [done|]. destruct Hall as [|Hlt]; [lia|].
      set (k := (Z.to_nat limit - length rows - 1)%nat).
      replace (S (Z.to_nat limit - length rows + length l)) with (S k + S (length l))%nat
        by (unfold k; lia).
      rewrite (scan_past t l p k limit rows it _ p' _ Hat Hc Hnz) by (unfold k; lia).
      do 2 f_equal. rewrite (proj2 (Z.eqb_neq limit 0)), (proj2 (Z.eqb_neq (last_count l) 0)) by lia.
      rewrite take_app_ge, take_replicate by lia. do 2 f_equal. unfold k. lia.
  - (* the limit is reached *)
    assert (limit ≠ 0 ∧ limit ≤ Z.of_nat (length rows)) as [Hne Hle] by lia. clear Hlim.
    set (m := (Z.to_nat limit - 1)%nat).
    assert (m < length (chain_rows l))%nat as Hm by (unfold rows in Hle; rewrite length_fmap in Hle; lia).
    destruct (lookup_lt_is_Some_2 _ _ Hm) as [[rid row] Hrow].
    pose proof (take_drop_middle _ _ _ Hrow) as Hsplit.
    destruct (table_loop t l p Hok Hch (scan_body limit) (take m (chain_rows l))
      ((rid, row) :: drop (S m) (chain_rows l)) [] (take m rows) (S (length l)))
      as (b & p' & it & Hb & Hk & Hc & Hat & Heq); [done| |lia|].
    { unfold rows. rewrite <- fmap_take. apply run_scan. right. simpl.
      rewrite fmap_take, length_take, length_fmap. lia. }
    eexists. split; [|exists b, it, p'; split; [exact Hb|split; [done|]]].
    { rewrite length_take. lia. }
    rewrite Heq. assert (length (take m rows) = m) as Hlen
      by (unfold rows; rewrite length_take, length_fmap; lia).
    rewrite (for_iterator_break t (frames p) (S (length l)) (scan_body limit) (take m rows)
      (take m rows ++ [row]) it rid row _ _ p' _ Hat Hc) by (apply scan_break; lia).
    do 2 f_equal. rewrite (proj2 (Z.eqb_neq limit 0)) by done.
    rewrite take_app_le by lia. replace (Z.to_nat limit) with (S m) by (unfold m; lia).
    symmetry. apply take_S_r. unfold rows. by rewrite list_lookup_fmap, Hrow.
Qed.


(** ** find *)

Definition matches (k : Value) (row : list Value) : bool :=
  match row with [] => false | v :: _ => int_val v =? int_val k end.

Lemma run_find k key rows found :
  Forall (λ row, matches k row = false) rows →
  run_body (find_body (k :: key)) found rows = Some found.
Proof.
  induction 1 as [|row rows Hm _ IH]; [done|]. cbn [run_body]. destruct row as [|v row]; [done|].
  cbn [find_body head mbind option_bind]. cbn [matches] in Hm. by rewrite Hm.
Qed.

(** Search by the first column: when some row of the linked pages has the key
    in its first column, as a 32-bit integer, [find] returns an iterator at the
    first such row, and the pages do not change. *)
Theorem find_first t l p k key rows1 rid row rows2 fuel :
  pool_ok p → table_chain t (frames p) l →
  chain_rows l = rows1 ++ (rid, row) :: rows2 →
  Forall (λ row, matches k row = false) rows1.*2 → matches k row = true →
  (length rows1 + S (length l) ≤ fuel)%nat →
  ∃ p' it, table_find fuel t (k :: key) p = Some (p', it) ∧ getRecordId it = rid ∧
    iterator_deref it p' = Some (rid, row) ∧ frames p' = frames p.
Proof.
  intros Hok Hch Hrows Hno Hm Hfuel.
  destruct (table_loop t l p Hok Hch (find_body (k :: key)) rows1 ((rid, row) :: rows2) false false
    (S (length l))) as (b & p' & it & Hb & Hk & Hc & Hat & Heq); [done|by apply run_find|lia|].
  exists p', it. pose proof Hc as (_ & Hid & Hd & _).
  split; [|split; [done|split; [by apply Hd|apply Hk]]].
  assert (find_body (k :: key) false row = Some (inr true)) as Hbody.
  { destruct row as [|v row]; [done|]. cbn [find_body head mbind option_bind].
    cbn [matches] in Hm. by rewrite Hm. }
  rewrite (for_iterator_break t (frames p) (S (length l)) _ _ _ it rid row _ _ p' _ Hat Hc Hbody) in Heq.
  unfold table_find. apply (begin_mono_le _ _ fuel) in Hb; [|done].
  apply (for_iterator_mono _ _ _ fuel) in Heq; [|done]. rewrite Hb. cbn [mbind option_bind].
  by rewrite Heq.
Qed.

(** ** Loops that do not end *)

Lemma run_count n rows :
  ∃ n', run_body (λ n (_ : list Value), Some (inl (wrap 64 (n + 1)))) n rows = Some n'.
Proof. revert n. induction rows as [|row rows IH]; intros n; [by eauto|apply IH]. Qed.

(** A scan without a limit, a search for a key that is not there and the recount
    of the records never return when the last page of the table has a slot, whatever
    the number of steps: after the last row the iterator is not equal to [end()],
    because its slot is not reset, and it does not move any more. *)
Theorem loops_never_end sort t l p :
  pool_ok p → table_chain t (frames p) l → last_count l ≠ 0 →
  ∀ fuel,
  (∀ options, so_limit options = 0 → scan sort fuel t options p = None) ∧
  (∀ k key, Forall (λ row, matches k row = false) (chain_rows l).*2 →
     table_find fuel t (k :: key) p = None) ∧
  (∀ now, STATS_PERIOD < now - stats_update_time t → getRecordCount fuel t now p = None).
Proof.
  intros Hok Hch Hlast fuel. split_and!.
  - intros options H0. unfold scan. destruct (table_begin fuel t p) as [b|] eqn:Hb; [|done].
    cbn [mbind option_bind]. rewrite H0.
    erewrite table_loop_forever; [done..|by apply run_scan; left| |done].
    intros a. eexists. by apply scan_continue; left.
  - intros k key Hno. unfold table_find. destruct (table_begin fuel t p) as [b|] eqn:Hb; [|done].
    cbn [mbind option_bind].
    erewrite table_loop_forever; [done..|by apply run_find| |done]. intros a. by eexists.
  - intros now Hnow. unfold getRecordCount. rewrite (proj2 (Z.ltb_lt _ _)) by done.
    destruct (table_begin fuel t p) as [b|] eqn:Hb; [|done]. cbn [mbind option_bind].
    destruct (run_count 0 (chain_rows l).*2) as [n' Hn'].
    erewrite table_loop_forever; [done..|exact Hn'| |done]. intros a. by eexists.
Qed.

End Scan.

(** ** Examples *)

Lemma readable1 : readable page1.
Proof.
  assert (record_count (header page1) = 1) as Hc by (vm_compute; reflexivity).
  split; rewrite Hc; [unfold fits; lia|]. intros i Hi. assert (i = 0) as -> by lia.
  vm_compute. eexists. reflexivity.
Qed.

Lemma chain1 : table_chain table1 (frames (pool_one (frame_of page1))) [page1].
Proof.
  assert (page_id (header page1) = 1) as Hid by (vm_compute; reflexivity).
  assert (Page.next_page_id (header page1) = INVALID_PAGE_ID) as Hn by (vm_compute; reflexivity).
  cbn [table_chain chain]. rewrite Hid, Hn. split; [done|]. split; [done|]. split; [done|].
  split; [exists (frame_of page1); split; reflexivity|]. split; [apply readable1|done].
Qed.

Definition no_sort (_ : list Value → list Value → bool) (rows : list (list Value)) := rows.


Lemma find_first_witness :
  let E_store := FileManager_store env0 in
  ∃ p' it, table_find 10 table1 [Value_int 7] (pool_one (frame_of page1)) = Some (p', it) ∧
    getRecordId it = make_rid 1 0.
Proof.
  intros E_store.
  destruct (find_first table1 [page1] (pool_one (frame_of page1)) (Value_int 7) [] []
    (make_rid 1 0) [Value_int 7; zero_value; zero_value] [] 10)
    as (p' & it & Hf & Hr & _).
  - apply pool1_ok.
  - apply chain1.
  - by vm_compute.
  - constructor.
  - done.
  - vm_compute. lia.
  - exists p', it. split; [exact Hf|exact Hr].
Defined.

Lemma loops_never_end_witness :
  let E_store := FileManager_store env0 in
  scan no_sort 1000 table1 ScanOptions_default (pool_one (frame_of page1)) = None.
Proof.
  intros E_store.
  apply (loops_never_end no_sort table1 [page1] (pool_one (frame_of page1)));
    [apply pool1_ok|apply chain1|by vm_compute|done].
Defined.
