(* ===== verification/LockManager.v ===== *)
(** * LockManager: lock modes, granted locks and waiting transactions
    (src/transaction/lock_manager.h, lock_manager.cpp)

    Every call runs under [mutex_] and is a function on the manager; the waiting
    loop of [acquireLock] gives the mutex up between its turns, so it is modelled
    turn by turn ([acquireLock] up to the loop, then [poll]) and the calls of
    several threads interleave ([sys_step]).  The clock is an input.

    [acquireLock] keeps a reference to the vector of the resource across its
    turns.  Vectors therefore carry an identity, which changes when the map
    entry is erased and made again; a turn that uses a reference to a vector
    that is gone is [Dangling].  A call that locks [mutex_] while its thread
    holds it never returns: [SelfDeadlock].  The times of the granted locks,
    which are never read, are not modelled. *)

From stdpp Require Import gmap strings.
From S2P Require Import Prelude CxxString Types.

Open Scope Z_scope.

(** ** Data *)

Module LockMode.
Inductive LockMode :=
  SHARED | EXCLUSIVE | INTENT_SHARED | INTENT_EXCLUSIVE | SHARED_INTENT_EXCLUSIVE.

#[export] Instance LockMode_eq_dec : EqDecision LockMode.
Proof. solve_decision. Defined.
End LockMode.
Export (hints) LockMode.
Abbreviation LockMode := LockMode.LockMode.

Module LockGranularity.
Inductive LockGranularity := TABLE | PAGE | ROW.
End LockGranularity.
Abbreviation LockGranularity := LockGranularity.LockGranularity.

Module LockStatus.
Inductive LockStatus := GRANTED | WAITING | TIMEOUT | DEADLOCK.
End LockStatus.
Abbreviation LockStatus := LockStatus.LockStatus.

Record LockEntry := mkLockEntry {
  lmode : LockMode;
  holder : Z;
  granularity : LockGranularity
}.

Record LockWaitEntry := mkLockWaitEntry {
  waiter : Z;
  requested_mode : LockMode;
  request_time : Z
}.

Record LockStats := mkLockStats {
  total_locks : Z;
  granted_locks_count : Z;
  waiting_locks : Z;
  deadlocks_detected : Z;
  lock_timeouts : Z
}.
Definition LockStats_zero : LockStats := mkLockStats 0 0 0 0 0.

(** [size_t] counters *)
Definition add_stats (total granted waiting deadlocks timeouts : Z) (s : LockStats) : LockStats :=
  mkLockStats (wrap 64 (total_locks s + total)) (wrap 64 (granted_locks_count s + granted))
    (wrap 64 (waiting_locks s + waiting)) (wrap 64 (deadlocks_detected s + deadlocks))
    (wrap 64 (lock_timeouts s + timeouts)).

(** [granted_locks_] maps a resource to the identity of its vector and its
    locks. *)
Record LockManager := mkLockManager {
  granted_locks : gmap string (nat * list LockEntry);
  next_ref : nat;
  wait_queues : gmap string (list LockWaitEntry);
  waiting_for : gmap Z (list string);
  lock_stats : LockStats
}.

Definition LockManager_new : LockManager := mkLockManager ∅ 0 ∅ ∅ LockStats_zero.

Definition set_granted (g : gmap string (nat * list LockEntry)) (lm : LockManager) : LockManager :=
  mkLockManager g (next_ref lm) (wait_queues lm) (waiting_for lm) (lock_stats lm).
Definition set_queues (q : gmap string (list LockWaitEntry)) (lm : LockManager) : LockManager :=
  mkLockManager (granted_locks lm) (next_ref lm) q (waiting_for lm) (lock_stats lm).
Definition set_waiting (w : gmap Z (list string)) (lm : LockManager) : LockManager :=
  mkLockManager (granted_locks lm) (next_ref lm) (wait_queues lm) w (lock_stats lm).
Definition upd_stats (f : LockStats → LockStats) (lm : LockManager) : LockManager :=
  mkLockManager (granted_locks lm) (next_ref lm) (wait_queues lm) (waiting_for lm)
    (f (lock_stats lm)).

(** ** Compatibility *)

Definition areCompatible (existing requested : LockMode) : bool :=
  if decide (existing = LockMode.EXCLUSIVE ∨ requested = LockMode.EXCLUSIVE) then false
  else if decide (existing = LockMode.SHARED_INTENT_EXCLUSIVE) then
    bool_decide (requested = LockMode.SHARED ∨ requested = LockMode.INTENT_SHARED)
  else if decide (requested = LockMode.SHARED_INTENT_EXCLUSIVE) then
    bool_decide (existing = LockMode.SHARED ∨ existing = LockMode.INTENT_SHARED)
  else if decide (existing = LockMode.INTENT_EXCLUSIVE) then
    bool_decide (requested = LockMode.INTENT_SHARED)
  else if decide (requested = LockMode.INTENT_EXCLUSIVE) then
    bool_decide (existing = LockMode.INTENT_SHARED)
  else true.

Definition canGrant (current_locks : list LockEntry) (requested : LockMode) : bool :=
  forallb (λ lock, areCompatible (lmode lock) requested) current_locks.

(** ** Waiting *)

(** [granted_locks_[resource]]: the entry is made if it is not there. *)
Definition locks_ref (resource : string) (lm : LockManager) : LockManager * (nat * list LockEntry) :=
  match granted_locks lm !! resource with
  | Some rl => (lm, rl)
  | None =>
      (mkLockManager (<[resource := (next_ref lm, [])]> (granted_locks lm)) (S (next_ref lm))
         (wait_queues lm) (waiting_for lm) (lock_stats lm), (next_ref lm, []))
  end.

Definition queue_of (resource : string) (lm : LockManager) : list LockWaitEntry :=
  default [] (wait_queues lm !! resource).

(** Removal of a resource from the list a transaction waits for. *)
Definition stop_waiting (tx : Z) (resource : string) (lm : LockManager) : LockManager :=
  let waiting := filter (λ r, r ≠ resource) (default [] (waiting_for lm !! tx)) in
  set_waiting (if decide (waiting = []) then delete tx (waiting_for lm)
               else <[tx := waiting]> (waiting_for lm)) lm.

Definition removeFromWaitQueue (resource : string) (tx : Z) (lm : LockManager) : LockManager :=
  stop_waiting tx resource
    (set_queues (<[resource := filter (λ e, waiter e ≠ tx) (queue_of resource lm)]>
                   (wait_queues lm)) lm).

(** ** acquireLock *)

(** A call that waits: its arguments, its reference to the vector of the
    resource. *)
Record Waiter := mkWaiter {
  w_tx : Z;
  w_resource : string;
  w_mode : LockMode;
  w_granularity : LockGranularity;
  w_timeout : Z;
  w_ref : nat
}.

(** Up to the loop: [inl] is a status returned, [inr] a call that waits. *)
Definition acquireLock (tx : Z) (resource : string) (m : LockMode) (g : LockGranularity)
    (timeout_ms now : Z) (lm : LockManager) : LockManager * (LockStatus + Waiter) :=
  let '(lm, (ref, current)) := locks_ref resource lm in
  let lm := set_queues (<[resource := queue_of resource lm]> (wait_queues lm)) lm in
  if canGrant current m then
    (upd_stats (add_stats 1 1 0 0 0)
       (set_granted (<[resource := (ref, current ++ [mkLockEntry m tx g])]> (granted_locks lm)) lm),
     inl LockStatus.GRANTED)
  else
    let lm := set_queues (<[resource := queue_of resource lm ++ [mkLockWaitEntry tx m now]]>
                            (wait_queues lm)) lm in
    let lm := set_waiting (<[tx := default [] (waiting_for lm !! tx) ++ [resource]]>
                             (waiting_for lm)) lm in
    (upd_stats (add_stats 0 0 1 0 0) lm, inr (mkWaiter tx resource m g timeout_ms ref)).

Inductive poll_result :=
  | Returns (s : LockStatus)
  | Sleeps
  | SelfDeadlock
  | Dangling.

(** One turn of the loop, [elapsed] milliseconds after its start. *)
Definition poll (w : Waiter) (elapsed : Z) (lm : LockManager) : LockManager * poll_result :=
  let tx := w_tx w in
  let resource := w_resource w in
  if w_timeout w <? elapsed then
    (upd_stats (add_stats 0 0 0 0 1) (removeFromWaitQueue resource tx lm),
     Returns LockStatus.TIMEOUT)
  else if elapsed mod 100 =? 0 then (lm, SelfDeadlock)
  else
    match granted_locks lm !! resource with
    | Some (ref, current) =>
        if decide (ref = w_ref w) then
          if canGrant current (w_mode w) then
            match queue_of resource lm with
            | [] => (lm, Dangling)
            | _ :: queue =>
                let lm := set_queues (<[resource := queue]> (wait_queues lm)) lm in
                let lm := stop_waiting tx resource lm in
                let lm := set_granted
                  (<[resource := (ref, current ++ [mkLockEntry (w_mode w) tx (w_granularity w)])]>
                     (granted_locks lm)) lm in
                (upd_stats (add_stats 1 1 (-1) 0 0) lm, Returns LockStatus.GRANTED)
            end
          else (lm, Sleeps)
        else (lm, Dangling)
    | None => (lm, Dangling)
    end.

(** ** Release and upgrade *)

Definition without (tx : Z) (locks : list LockEntry) : list LockEntry :=
  filter (λ e, holder e ≠ tx) locks.

Definition releaseLock (tx : Z) (resource : string) (lm : LockManager) : LockManager * bool :=
  match granted_locks lm !! resource with
  | None => (lm, false)
  | Some (ref, locks) =>
      let locks := without tx locks in
      (upd_stats (add_stats (-1) 0 0 0 0)
         (set_granted (if decide (locks = []) then delete resource (granted_locks lm)
                       else <[resource := (ref, locks)]> (granted_locks lm)) lm), true)
  end.

Definition releaseAllLocks (tx : Z) (lm : LockManager) : LockManager * bool :=
  let g := omap (λ rl, let locks := without tx rl.2 in
                       if decide (locks = []) then None else Some (rl.1, locks))
             (granted_locks lm) in
  let q := (λ queue, filter (λ e, waiter e ≠ tx) queue) <$> wait_queues lm in
  (set_waiting (delete tx (waiting_for lm)) (set_queues q (set_granted g lm)), true).

(** The first lock of the transaction, and the others. *)
Fixpoint take_lock (tx : Z) (locks : list LockEntry) : option (LockEntry * list LockEntry) :=
  match locks with
  | [] => None
  | e :: locks' =>
      if decide (holder e = tx) then Some (e, locks')
      else '(e', rest) ← take_lock tx locks'; Some (e', e :: rest)
  end.

(** [it->granularity] is read after [locks.erase(it)]: [g] is what that read
    gives. *)
Definition upgradeLock (tx : Z) (resource : string) (new_mode : LockMode) (g : LockGranularity)
    (lm : LockManager) : LockManager * LockStatus :=
  let '(lm, (ref, locks)) := locks_ref resource lm in
  match take_lock tx locks with
  | None => (lm, LockStatus.TIMEOUT)
  | Some (old, locks) =>
      let put m := set_granted (<[resource := (ref, locks ++ [mkLockEntry m tx g])]>
                                  (granted_locks lm)) lm in
      if canGrant locks new_mode then (put new_mode, LockStatus.GRANTED)
      else (put (lmode old), LockStatus.WAITING)
  end.

(** ** Queries *)

Definition hasLock (tx : Z) (resource : string) (m : LockMode) (lm : LockManager) : bool :=
  match granted_locks lm !! resource with
  | Some (_, locks) => existsb (λ e, bool_decide (holder e = tx ∧ lmode e = m)) locks
  | None => false
  end.

Definition isLocked (resource : string) (lm : LockManager) : bool :=
  bool_decide (is_Some (granted_locks lm !! resource)).

Fixpoint restrictive_mode (mode : LockMode) (locks : list LockEntry) : LockMode :=
  match locks with
  | [] => mode
  | e :: locks' =>
      if decide (lmode e = LockMode.EXCLUSIVE) then LockMode.EXCLUSIVE
      else if decide (lmode e = LockMode.SHARED_INTENT_EXCLUSIVE) then
        restrictive_mode LockMode.SHARED_INTENT_EXCLUSIVE locks'
      else if decide (lmode e = LockMode.INTENT_EXCLUSIVE ∧
                      mode ≠ LockMode.SHARED_INTENT_EXCLUSIVE) then
        restrictive_mode LockMode.INTENT_EXCLUSIVE locks'
      else if decide (lmode e = LockMode.INTENT_SHARED ∧ mode = LockMode.SHARED) then
        restrictive_mode LockMode.INTENT_SHARED locks'
      else restrictive_mode mode locks'
  end.

Definition getLockMode (resource : string) (lm : LockManager) : LockMode :=
  match granted_locks lm !! resource with
  | Some (_, locks) => restrictive_mode LockMode.SHARED locks
  | None => LockMode.SHARED
  end.

(** ** Deadlock detection *)

Definition holds (lm : LockManager) (tx : Z) (resource : string) : bool :=
  match granted_locks lm !! resource with
  | Some (_, locks) => existsb (λ e, bool_decide (holder e = tx)) locks
  | None => false
  end.

(** A waiter is listed once for every resource it waits for that [tx] holds. *)
Definition getWaitingTransactions (lm : LockManager) (tx : Z) : list Z :=
  concat (map (λ '(w, resources),
                 if decide (w = tx) then []
                 else map (λ _, w) (filter (λ r, holds lm tx r = true) resources))
            (map_to_list (waiting_for lm))).

(** [visited] holds the transactions of the current path.  [None] is a recursion
    deeper than [fuel]. *)
Fixpoint checkDeadlock (fuel : nat) (lm : LockManager) (visited : gset Z) (start : Z) : option bool :=
  if decide (start ∈ visited) then Some true
  else
    match fuel with
    | O => None
    | S fuel' =>
        (fix visit (ws : list Z) : option bool :=
           match ws with
           | [] => Some false
           | w :: ws' =>
               b ← checkDeadlock fuel' lm ({[start]} ∪ visited) w;
               if (b : bool) then Some true else visit ws'
           end) (getWaitingTransactions lm start)
    end.

(** A path has the start and then transactions that wait. *)
Definition hasDeadlock (lm : LockManager) (tx : Z) : option bool :=
  checkDeadlock (S (size (waiting_for lm))) lm ∅ tx.

(** ** checkTimeouts *)

(** One queue: an entry that is too old is removed with every entry of its
    waiter, and the entry that has come to the front is popped in its place. *)
Fixpoint expire_queue (fuel : nat) (resource : string) (now : Z) (kept : list LockWaitEntry)
    (lm : LockManager) : option LockManager :=
  match queue_of resource lm with
  | [] => Some (set_queues (<[resource := kept]> (wait_queues lm)) lm)
  | e :: queue =>
      match fuel with
      | O => None
      | S fuel' =>
          if 5000 <? now - request_time e then
            let lm := removeFromWaitQueue resource (waiter e) lm in
            match queue_of resource lm with
            | [] => None
            | _ :: queue' =>
                expire_queue fuel' resource now kept
                  (upd_stats (add_stats 0 0 0 0 1)
                     (set_queues (<[resource := queue']> (wait_queues lm)) lm))
            end
          else
            expire_queue fuel' resource now (kept ++ [e])
              (set_queues (<[resource := queue]> (wait_queues lm)) lm)
      end
  end.

Fixpoint expire_queues (resources : list string) (now : Z) (lm : LockManager) : option LockManager :=
  match resources with
  | [] => Some lm
  | r :: rs => lm ← expire_queue (length (queue_of r lm)) r now [] lm; expire_queues rs now lm
  end.

Definition checkTimeouts (now : Z) (lm : LockManager) : option LockManager :=
  expire_queues (map_to_list (wait_queues lm)).*1 now lm.

Definition resetStats (lm : LockManager) : LockManager := upd_stats (λ _, LockStats_zero) lm.

(** ** The threads of the system

    The manager and the calls of [acquireLock] that sleep between two turns. *)

Record Sys := mkSys { mgr : LockManager; pending : list Waiter }.

Inductive sys_step : Sys → Sys → Prop :=
  | step_acquire lm ws tx resource m g timeout now lm' s :
      acquireLock tx resource m g timeout now lm = (lm', inl s) →
      sys_step (mkSys lm ws) (mkSys lm' ws)
  | step_wait lm ws tx resource m g timeout now lm' w :
      acquireLock tx resource m g timeout now lm = (lm', inr w) →
      sys_step (mkSys lm ws) (mkSys lm' (w :: ws))
  | step_return lm ws1 w ws2 elapsed lm' s :
      poll w elapsed lm = (lm', Returns s) →
      sys_step (mkSys lm (ws1 ++ w :: ws2)) (mkSys lm' (ws1 ++ ws2))
  | step_sleep lm ws w elapsed lm' :
      w ∈ ws → poll w elapsed lm = (lm', Sleeps) → sys_step (mkSys lm ws) (mkSys lm' ws)
  | step_release lm ws tx resource lm' b :
      releaseLock tx resource lm = (lm', b) → sys_step (mkSys lm ws) (mkSys lm' ws)
  | step_release_all lm ws tx lm' b :
      releaseAllLocks tx lm = (lm', b) → sys_step (mkSys lm ws) (mkSys lm' ws)
  | step_upgrade lm ws tx resource m g lm' s :
      upgradeLock tx resource m g lm = (lm', s) → sys_step (mkSys lm ws) (mkSys lm' ws)
  | step_expire lm ws now lm' :
      checkTimeouts now lm = Some lm' → sys_step (mkSys lm ws) (mkSys lm' ws)
  | step_reset lm ws : sys_step (mkSys lm ws) (mkSys (resetStats lm) ws).

Definition sys_init : Sys := mkSys LockManager_new [].
Definition sys_reachable : Sys → Prop := rtc sys_step sys_init.

(** ** Compatibility of the granted locks *)

Lemma areCompatible_sym a b : areCompatible a b = areCompatible b a.
Proof. by destruct a, b. Qed.

Definition compatible (e e' : LockEntry) : Prop := areCompatible (lmode e) (lmode e') = true.

Fixpoint pairwise (locks : list LockEntry) : Prop :=
  match locks with
  | [] => True
  | e :: locks' => Forall (compatible e) locks' ∧ pairwise locks'
  end.

Lemma canGrant_spec locks m :
  canGrant locks m = true ↔ Forall (λ e, areCompatible (lmode e) m = true) locks.
Proof. unfold canGrant. rewrite forallb_forall, List.Forall_forall. done. Qed.

Lemma pairwise_snoc locks e : pairwise locks → canGrant locks (lmode e) = true → pairwise (locks ++ [e]).
Proof.
  rewrite canGrant_spec. induction locks as [|e' locks IH]; simpl; [auto|].
  intros [Hf Hp] [He Hg]%Forall_cons. split; [|auto].
  apply Forall_app. split; [done|]. by constructor.
Qed.

Lemma pairwise_filter (P : LockEntry → Prop) `{!∀ e, Decision (P e)} locks :
  pairwise locks → pairwise (filter P locks).
Proof.
  induction locks as [|e locks IH]; [done|]. intros [Hf Hp]. rewrite filter_cons.
  case_decide; [|auto]. split; [|auto]. rewrite Forall_forall in Hf |- *.
  intros x [_ Hx]%list_elem_of_filter. auto.
Qed.

Lemma take_lock_spec tx locks old rest :
  take_lock tx locks = Some (old, rest) →
  ∃ l1 l2, locks = l1 ++ old :: l2 ∧ rest = l1 ++ l2 ∧ holder old = tx.
Proof.
  revert old rest. induction locks as [|e locks IH]; intros old rest Ht; simplify_eq/=.
  case_decide as Hh; simplify_eq/=.
  - by exists [], rest.
  - apply bind_Some in Ht as ([o r] & Ht & ?). simplify_eq.
    destruct (IH _ _ Ht) as (l1 & l2 & -> & -> & Ho). by exists (e :: l1), l2.
Qed.

Lemma pairwise_remove l1 e l2 :
  pairwise (l1 ++ e :: l2) → pairwise (l1 ++ l2) ∧ Forall (compatible e) (l1 ++ l2).
Proof.
  induction l1 as [|e' l1 IH]; simpl; [tauto|].
  intros [[Hf1 [Hfe Hf2]%Forall_cons]%Forall_app Hp]. destruct (IH Hp) as [Hp' He].
  split; [split; [apply Forall_app; auto|done]|]. constructor; [|done].
  unfold compatible in *. by rewrite areCompatible_sym.
Qed.

Lemma pairwise_lookup locks i j e e' :
  pairwise locks → locks !! i = Some e → locks !! j = Some e' → i ≠ j → compatible e e'.
Proof.
  revert i j. induction locks as [|e0 locks IH]; intros i j Hp Hi Hj Hne; [done|].
  destruct Hp as [Hf Hp]. rewrite Forall_lookup in Hf. destruct i, j; simplify_eq/=; [eauto| |].
  - unfold compatible. rewrite areCompatible_sym. eapply Hf; eauto.
  - eapply (IH i j); auto.
Qed.

(** ** How calls change the granted locks *)

Record locks_ok (lm : LockManager) : Prop := mk_locks_ok {
  lo_pairwise : ∀ r ref l, granted_locks lm !! r = Some (ref, l) → pairwise l;
  lo_fresh : ∀ r ref l, granted_locks lm !! r = Some (ref, l) → (ref < next_ref lm)%nat
}.

(** From [lm] to [lm']: the locks stay compatible, and a vector that was already
    there is never left empty. *)
Record evolves (lm lm' : LockManager) : Prop := mk_evolves {
  ev_ref : (next_ref lm ≤ next_ref lm')%nat;
  ev_ok : locks_ok lm';
  ev_old : ∀ r ref l', granted_locks lm' !! r = Some (ref, l') → (ref < next_ref lm)%nat →
    ∃ l, granted_locks lm !! r = Some (ref, l) ∧ (l ≠ [] → l' ≠ [])
}.

Lemma evolves_same lm lm' :
  locks_ok lm → granted_locks lm' = granted_locks lm → next_ref lm' = next_ref lm → evolves lm lm'.
Proof.
  intros [] Hg Hn. constructor; [lia|constructor; rewrite Hg, ?Hn; done|].
  intros r ref l Hl _. rewrite Hg in Hl. eauto.
Qed.

Lemma evolves_trans lm1 lm2 lm3 : evolves lm1 lm2 → evolves lm2 lm3 → evolves lm1 lm3.
Proof.
  intros [H1 H2 H3] [H4 H5 H6]. constructor; [lia|done|].
  intros r ref l Hl Hr. destruct (H6 r ref l Hl) as (l2 & Hl2 & Hne2); [lia|].
  destruct (H3 r ref l2 Hl2 Hr) as (l1 & Hl1 & Hne1). eauto.
Qed.

Lemma evolves_insert lm lm' r ref l l' :
  locks_ok lm → granted_locks lm !! r = Some (ref, l) → pairwise l' → (l ≠ [] → l' ≠ []) →
  granted_locks lm' = <[r := (ref, l')]> (granted_locks lm) → next_ref lm' = next_ref lm →
  evolves lm lm'.
Proof.
  intros [Hp Hf] Hr Hl' Hne Hg Hn.
  assert (∀ r0 ref0 l0, granted_locks lm' !! r0 = Some (ref0, l0) →
    (r0 = r ∧ ref0 = ref ∧ l0 = l') ∨ granted_locks lm !! r0 = Some (ref0, l0)) as Hcase.
  { intros r0 ref0 l0. rewrite Hg. destruct (decide (r0 = r)) as [->|].
    - rewrite lookup_insert_eq. intros [= <- <-]. auto.
    - rewrite lookup_insert_ne by done. auto. }
  constructor; [lia|constructor; rewrite ?Hn|].
  - intros r0 ref0 l0 [(-> & -> & ->)|H0]%Hcase; eauto.
  - intros r0 ref0 l0 [(-> & -> & ->)|H0]%Hcase; eauto.
  - intros r0 ref0 l0 [(-> & -> & ->)|H0]%Hcase _; eauto.
Qed.

Lemma evolves_sub lm lm' :
  locks_ok lm → next_ref lm' = next_ref lm →
  (∀ r ref l', granted_locks lm' !! r = Some (ref, l') →
     ∃ l, granted_locks lm !! r = Some (ref, l) ∧ pairwise l' ∧ (l ≠ [] → l' ≠ [])) →
  evolves lm lm'.
Proof.
  intros [Hp Hf] Hn Hsub. constructor; [lia|constructor; rewrite ?Hn|].
  - intros r ref l' Hl. by destruct (Hsub _ _ _ Hl) as (l & _ & ? & _).
  - intros r ref l' Hl. destruct (Hsub _ _ _ Hl) as (l & ? & _). eauto.
  - intros r ref l' Hl _. destruct (Hsub _ _ _ Hl) as (l & ? & _ & ?). eauto.
Qed.

Lemma locks_ref_evolves lm r lm' ref l :
  locks_ok lm → locks_ref r lm = (lm', (ref, l)) →
  evolves lm lm' ∧ granted_locks lm' !! r = Some (ref, l) ∧ wait_queues lm' = wait_queues lm.
Proof.
  intros Hok Hr. unfold locks_ref in Hr. destruct (granted_locks lm !! r) as [rl|] eqn:Hg; simplify_eq.
  - split; [by apply evolves_same|done].
  - split; [|split; [apply lookup_insert_eq|done]]. destruct Hok as [Hp Hf]. constructor; cbn; [lia| |].
    + constructor; cbn; intros r0 ref0 l0; (destruct (decide (r0 = r)) as [->|];
        [rewrite lookup_insert_eq; intros [= <- <-]; [done || lia]
        |rewrite lookup_insert_ne by done; intros H0]); [eauto|]. apply Hf in H0. lia.
    + intros r0 ref0 l0. destruct (decide (r0 = r)) as [->|].
      * rewrite lookup_insert_eq. intros [= <- <-]. lia.
      * rewrite lookup_insert_ne by done. eauto.
Qed.

Lemma snoc_ne {A} (l : list A) x : l ++ [x] ≠ [].
Proof. by destruct l. Qed.

Lemma acquireLock_evolves tx r m g t now lm lm' res :
  locks_ok lm → acquireLock tx r m g t now lm = (lm', res) → evolves lm lm'.
Proof.
  intros Hok. unfold acquireLock. destruct (locks_ref r lm) as [lm1 [ref cur]] eqn:Hr.
  destruct (locks_ref_evolves _ _ _ _ _ Hok Hr) as (Hev & Hg & _). pose proof (ev_ok _ _ Hev) as Hok1.
  destruct (canGrant cur m) eqn:Hc; intros [= <- _]; (eapply evolves_trans; [exact Hev|]).
  - eapply evolves_insert; [done|done| |intros _; apply snoc_ne|done..].
    apply pairwise_snoc; [by eapply lo_pairwise|done].
  - by apply evolves_same.
Qed.

Lemma poll_evolves w elapsed lm lm' res :
  locks_ok lm → poll w elapsed lm = (lm', res) → evolves lm lm'.
Proof.
  intros Hok. unfold poll. case_match; [intros [= <- _]; by apply evolves_same|].
  case_match; [intros [= <- _]; by apply evolves_same|].
  destruct (granted_locks lm !! w_resource w) as [[ref cur]|] eqn:Hg;
    [|intros [= <- _]; by apply evolves_same].
  case_decide; [|intros [= <- _]; by apply evolves_same].
  destruct (canGrant cur (w_mode w)) eqn:Hc; [|intros [= <- _]; by apply evolves_same].
  destruct (queue_of _ lm); intros [= <- _]; [by apply evolves_same|].
  eapply evolves_insert; [done|done| |intros _; apply snoc_ne|done..].
  apply pairwise_snoc; [by eapply lo_pairwise|done].
Qed.

Lemma releaseLock_evolves tx r lm lm' b :
  locks_ok lm → releaseLock tx r lm = (lm', b) → evolves lm lm'.
Proof.
  intros Hok. unfold releaseLock. destruct (granted_locks lm !! r) as [[ref l]|] eqn:Hg;
    intros [= <- _]; [|by apply evolves_same].
  apply evolves_sub; [done|done|]. cbn. intros r0 ref0 l0 H0.
  destruct (decide (r0 = r)) as [->|].
  - case_decide as Hl; [by rewrite lookup_delete_eq in H0|].
    rewrite lookup_insert_eq in H0. simplify_eq. exists l. split_and!; [done| |done].
    eapply pairwise_filter, lo_pairwise; eauto.
  - case_decide; rewrite ?lookup_delete_ne, ?lookup_insert_ne in H0 by done;
      (exists l0; split_and!; [done|by eapply lo_pairwise|done]).
Qed.

Lemma releaseAllLocks_evolves tx lm lm' b :
  locks_ok lm → releaseAllLocks tx lm = (lm', b) → evolves lm lm'.
Proof.
  intros Hok. unfold releaseAllLocks. intros [= <- _]. apply evolves_sub; [done|done|]. cbn.
  intros r ref l' Hl. rewrite lookup_omap in Hl. apply bind_Some in Hl as ([ref0 l] & Hl & Hd).
  cbn in Hd. case_decide; simplify_eq. exists l. split_and!; [done| |done].
  eapply pairwise_filter, lo_pairwise; eauto.
Qed.

Lemma upgradeLock_evolves tx r m g lm lm' s :
  locks_ok lm → upgradeLock tx r m g lm = (lm', s) → evolves lm lm'.
Proof.
  intros Hok. unfold upgradeLock. destruct (locks_ref r lm) as [lm1 [ref cur]] eqn:Hr.
  destruct (locks_ref_evolves _ _ _ _ _ Hok Hr) as (Hev & Hg & _). pose proof (ev_ok _ _ Hev) as Hok1.
  destruct (take_lock tx cur) as [[old rest]|] eqn:Ht; [|by intros [= <- _]].
  destruct (take_lock_spec _ _ _ _ Ht) as (l1 & l2 & -> & -> & _).
  destruct (pairwise_remove l1 old l2) as [Hp Hc]; [by eapply lo_pairwise|].
  destruct (canGrant (l1 ++ l2) m) eqn:Hm; intros [= <- _];
    (eapply evolves_trans; [exact Hev|]);
    (eapply evolves_insert; [done|done| |intros _; apply snoc_ne|done..]);
    (apply pairwise_snoc; [done|]); [done|].
  apply canGrant_spec. eapply Forall_impl; [exact Hc|]. intros e He. cbn.
  by rewrite areCompatible_sym.
Qed.

Lemma expire_queue_granted fuel r now kept lm lm' :
  expire_queue fuel r now kept lm = Some lm' →
  granted_locks lm' = granted_locks lm ∧ next_ref lm' = next_ref lm.
Proof.
  revert kept lm. induction fuel as [|fuel IH]; intros kept lm; cbn [expire_queue];
    (destruct (queue_of r lm); [intros; by simplify_eq|]); [done|].
  destruct (5000 <? _); [|intros Hq; by apply IH in Hq].
  destruct (queue_of r _); [done|]. intros Hq. by apply IH in Hq.
Qed.

Lemma expire_queues_granted rs now lm lm' :
  expire_queues rs now lm = Some lm' →
  granted_locks lm' = granted_locks lm ∧ next_ref lm' = next_ref lm.
Proof.
  revert lm. induction rs as [|r rs IH]; intros lm; simpl; [intros; by simplify_eq|].
  intros (lm1 & [Hg Hn]%expire_queue_granted & Hrs)%bind_Some.
  destruct (IH _ Hrs) as [? ?]. split; congruence.
Qed.

(** ** Invariant of the system *)

Definition waiter_ok (lm : LockManager) (w : Waiter) : Prop :=
  (w_ref w < next_ref lm)%nat ∧
  ∀ l, granted_locks lm !! w_resource w = Some (w_ref w, l) → l ≠ [].

Lemma waiter_ok_evolves lm lm' w : evolves lm lm' → waiter_ok lm w → waiter_ok lm' w.
Proof.
  intros [Hn Hok Hold] [Hr Hl]. split; [lia|]. intros l' Hl'.
  destruct (Hold _ _ _ Hl' Hr) as (l & Hg & Hne). eauto.
Qed.

Lemma acquireLock_waiter tx r m g t now lm lm' w :
  locks_ok lm → acquireLock tx r m g t now lm = (lm', inr w) → waiter_ok lm' w.
Proof.
  intros Hok. unfold acquireLock. destruct (locks_ref r lm) as [lm1 [ref cur]] eqn:Hr.
  destruct (locks_ref_evolves _ _ _ _ _ Hok Hr) as (Hev & Hg & _).
  destruct (canGrant cur m) eqn:Hc; [done|]. intros [= <- <-].
  split; cbn; [by eapply (lo_fresh _ (ev_ok _ _ Hev))|].
  intros l Hl. rewrite Hg in Hl. simplify_eq. by intros ->.
Qed.

Definition sys_ok (s : Sys) : Prop := locks_ok (mgr s) ∧ Forall (waiter_ok (mgr s)) (pending s).

Lemma sys_ok_evolves lm lm' ws ws' :
  sys_ok (mkSys lm ws) → evolves lm lm' → ws' ⊆ ws → sys_ok (mkSys lm' ws').
Proof.
  intros [Hok Hws] Hev Hsub. split; [apply Hev|]. cbn in *. rewrite Forall_forall in Hws |- *.
  intros w Hw. eapply waiter_ok_evolves; eauto.
Qed.

Lemma sys_step_ok s s' : sys_step s s' → sys_ok s → sys_ok s'.
Proof.
  destruct 1 as [?????????? Ha|?????????? Ha|lm ws1 w ws2 ??? Hp|????? _ Hp|?????? Hr|????? Hr
    |???????? Hu|???? He|]; intros Hok; pose proof (proj1 Hok) as Hlm; cbn in Hlm.
  - eapply sys_ok_evolves; [done|by eapply acquireLock_evolves|done].
  - destruct (sys_ok_evolves _ lm' ws ws Hok) as [Hok' Hws];
      [by eapply acquireLock_evolves|done|]. split; [done|].
    constructor; [exact (acquireLock_waiter _ _ _ _ _ _ _ _ _ Hlm Ha)|done].
  - eapply sys_ok_evolves; [done|by eapply poll_evolves|set_solver].
  - eapply sys_ok_evolves; [done|by eapply poll_evolves|done].
  - eapply sys_ok_evolves; [done|by eapply releaseLock_evolves|done].
  - eapply sys_ok_evolves; [done|by eapply releaseAllLocks_evolves|done].
  - eapply sys_ok_evolves; [done|by eapply upgradeLock_evolves|done].
  - apply expire_queues_granted in He as [? ?].
    eapply sys_ok_evolves; [done|by apply evolves_same|done].
  - eapply sys_ok_evolves; [done|by apply evolves_same|done].
Qed.

Lemma sys_reachable_ok s : sys_reachable s → sys_ok s.
Proof.
  intros Hr. unfold sys_reachable in Hr. apply rtc_ind_r with (P := sys_ok) in Hr; [done| |].
  - split; [constructor; cbn; intros r ref l; by rewrite lookup_empty|constructor].
  - intros. by eapply sys_step_ok.
Qed.

(** (C8) Mutual exclusion: in every interleaving of calls, two different locks
    granted on the same resource are compatible; in particular an EXCLUSIVE lock
    is the only lock of its resource. *)
Theorem granted_locks_compatible s resource ref locks :
  sys_reachable s → granted_locks (mgr s) !! resource = Some (ref, locks) →
  (∀ i j e e', i ≠ j → locks !! i = Some e → locks !! j = Some e' →
     areCompatible (lmode e) (lmode e') = true) ∧
  (∀ e, e ∈ locks → lmode e = LockMode.EXCLUSIVE → locks = [e]).
Proof.
  intros [Hok _]%sys_reachable_ok Hg. pose proof (lo_pairwise _ Hok _ _ _ Hg) as Hp.
  split; [intros; by eapply pairwise_lookup|].
  intros e He Hx. apply list_elem_of_split in He as (l1 & l2 & ->).
  destruct (pairwise_remove _ _ _ Hp) as [_ Hc].
  assert (l1 ++ l2 = []) as [-> ->]%app_nil; [|done].
  destruct (l1 ++ l2) as [|e' l]; [done|]. apply Forall_cons in Hc as [Hc _].
  unfold compatible in Hc. by rewrite Hx in Hc.
Qed.

(** A call that waits for an EXCLUSIVE lock is never granted it: when the
    last lock of the resource is released the vector it refers to is destroyed,
    so in no reachable state does a turn of its loop return GRANTED. *)
Theorem exclusive_waiter_never_granted s w elapsed lm' :
  sys_reachable s → w ∈ pending s → w_mode w = LockMode.EXCLUSIVE →
  poll w elapsed (mgr s) ≠ (lm', Returns LockStatus.GRANTED).
Proof.
  intros [Hok Hws]%sys_reachable_ok Hw Hx. rewrite Forall_forall in Hws.
  destruct (Hws w Hw) as [_ Hne]. unfold poll. case_match; [done|]. case_match; [done|].
  destruct (granted_locks (mgr s) !! w_resource w) as [[ref cur]|] eqn:Hg; [|done].
  case_decide; [|done]. subst ref. specialize (Hne cur eq_refl). rewrite Hx.
  destruct cur as [|e cur]; [done|]. simpl. unfold areCompatible.
  rewrite decide_True by auto. done.
Qed.

(** ** Deadlock detection *)

(** [b] waits for a resource that [a] holds. *)
Definition waited_by (lm : LockManager) (a b : Z) : Prop := b ∈ getWaitingTransactions lm a.

Definition cycle_from (lm : LockManager) (a : Z) : Prop :=
  ∃ c, rtc (waited_by lm) a c ∧ tc (waited_by lm) c c.

Lemma waited_by_dom lm a b : waited_by lm a b → b ∈ dom (waiting_for lm).
Proof.
  unfold waited_by, getWaitingTransactions. rewrite list_elem_of_In, in_concat.
  intros (l & Hl & Hb). apply in_map_iff in Hl as ([w rs] & <- & Hin).
  case_decide; [done|]. apply in_map_iff in Hb as (r & <- & _).
  apply list_elem_of_In, elem_of_map_to_list in Hin. by eapply elem_of_dom_2.
Qed.

(** The loop over the waiters of a transaction. *)
Definition visit_all (check : Z → option bool) : list Z → option bool :=
  fix visit (ws : list Z) : option bool :=
    match ws with
    | [] => Some false
    | w :: ws' => b ← check w; if (b : bool) then Some true else visit ws'
    end.

Lemma checkDeadlock_S fuel lm visited start :
  start ∉ visited →
  checkDeadlock (S fuel) lm visited start =
  visit_all (checkDeadlock fuel lm ({[start]} ∪ visited)) (getWaitingTransactions lm start).
Proof. intros Hs. simpl. by rewrite decide_False by done. Qed.

Lemma visit_all_spec check ws (P : Z → Prop) :
  (∀ w, w ∈ ws → ∃ b, check w = Some b ∧ (b = true ↔ P w)) →
  ∃ b, visit_all check ws = Some b ∧ (b = true ↔ ∃ w, w ∈ ws ∧ P w).
Proof.
  induction ws as [|w ws IH]; intros Hc; simpl.
  { exists false. split; [done|]. split; [done|]. intros (w & Hw & _). by apply not_elem_of_nil in Hw. }
  destruct (Hc w) as (b & -> & Hb); [by left|]. cbn [mbind option_bind]. destruct b.
  { exists true. split; [done|]. split; [intros _; exists w; split; [by left|by apply Hb]|done]. }
  destruct IH as (b & -> & Hiff); [intros; apply Hc; by right|]. exists b. split; [done|].
  rewrite Hiff. split; intros (w' & Hw & Hp); exists w'.
  - split; [by right|done].
  - apply elem_of_cons in Hw as [->|Hw]; [|done]. by apply Hb in Hp.
Qed.

(** A cycle reachable from a transaction that is not on one is reachable from a
    transaction that waits for it. *)
Lemma cycle_from_next lm a : cycle_from lm a ↔ ∃ b, waited_by lm a b ∧ cycle_from lm b.
Proof.
  split.
  - intros (c & Hac & Hcc). apply rtc_inv in Hac as [<-|(b & Hab & Hbc)]; [|by exists b; split; [|exists c]].
    assert (∃ b, waited_by lm a b ∧ rtc (waited_by lm) b a) as (b & Hab & Hba)
      by (inversion Hcc; subst; eauto using rtc_refl, tc_rtc).
    exists b. split; [done|]. by exists a.
  - intros (b & Hab & c & Hbc & Hcc). exists c. split; [by eapply rtc_l|done].
Qed.

Lemma checkDeadlock_spec (N : gset Z) lm fuel visited start :
  dom (waiting_for lm) ⊆ N → start ∈ N → visited ⊆ N →
  (∀ v, v ∈ visited → tc (waited_by lm) v start) →
  (size N ≤ fuel + size visited)%nat →
  ∃ b, checkDeadlock fuel lm visited start = Some b ∧ (b = true ↔ cycle_from lm start).
Proof.
  intros HN. revert visited start. induction fuel as [|fuel IH]; intros visited start Hs Hv Ht Hsz.
  - assert (start ∈ visited) as Hin.
    { by rewrite (set_subseteq_size_eq visited N Hv ltac:(lia)). }
    exists true. simpl. rewrite decide_True by done. split; [done|]. split; [|done].
    intros _. exists start. split; [apply rtc_refl|by apply Ht].
  - destruct (decide (start ∈ visited)) as [Hin|Hin].
    { exists true. simpl. rewrite decide_True by done. split; [done|]. split; [|done].
      intros _. exists start. split; [apply rtc_refl|by apply Ht]. }
    rewrite checkDeadlock_S by done. setoid_rewrite cycle_from_next.
    apply visit_all_spec. intros w Hw. apply IH.
    + apply HN. by eapply waited_by_dom.
    + set_solver.
    + intros v [->%elem_of_singleton|Hin']%elem_of_union; [by apply tc_once|].
      eapply tc_r; [by apply Ht|done].
    + rewrite size_union, size_singleton by set_solver. lia.
Qed.


(** ** Releasing everything *)

Lemma existsb_filter_false tx locks : existsb (λ e, bool_decide (holder e = tx)) (without tx locks) = false.
Proof.
  induction locks as [|e locks IH]; [done|]. unfold without in *. rewrite filter_cons.
  case_decide; [|done]. simpl. by rewrite bool_decide_false.
Qed.

Lemma existsb_without_other tx tx' m locks :
  tx' ≠ tx →
  existsb (λ e, bool_decide (holder e = tx' ∧ lmode e = m)) (without tx locks) =
  existsb (λ e, bool_decide (holder e = tx' ∧ lmode e = m)) locks.
Proof.
  intros Hne. induction locks as [|e locks IH]; [done|]. unfold without in *. rewrite filter_cons.
  case_decide as Hh; simpl; rewrite IH; [done|].
  rewrite (bool_decide_false (holder e = tx' ∧ _)); [done|]. intros [? _]. congruence.
Qed.

Lemma release_holds tx lm r : holds (releaseAllLocks tx lm).1 tx r = false.
Proof.
  unfold holds. cbn. rewrite lookup_omap. destruct (granted_locks lm !! r) as [[ref l]|]; [|done].
  cbn. case_decide; [done|]. apply existsb_filter_false.
Qed.

Lemma release_others tx lm tx' r m :
  tx' ≠ tx → hasLock tx' r m (releaseAllLocks tx lm).1 = hasLock tx' r m lm.
Proof.
  intros Hne. unfold hasLock. cbn. rewrite lookup_omap.
  destruct (granted_locks lm !! r) as [[ref l]|]; [|done]. cbn.
  rewrite <- (existsb_without_other tx tx' m l) by done.
  unfold without. case_decide as Hl; [by rewrite Hl|done].
Qed.

(** [releaseAllLocks] ends a transaction: afterwards it holds no lock,
    waits for nothing and is in no queue, and the locks of every other
    transaction are as before. *)
Theorem releaseAllLocks_spec tx lm lm' b :
  releaseAllLocks tx lm = (lm', b) →
  b = true ∧ (∀ r, holds lm' tx r = false) ∧ waiting_for lm' !! tx = None ∧
  (∀ r e, e ∈ queue_of r lm' → waiter e ≠ tx) ∧
  (∀ tx' r m, tx' ≠ tx → hasLock tx' r m lm' = hasLock tx' r m lm).
Proof.
  intros Hr. pose proof (release_holds tx lm) as Hh. pose proof (release_others tx lm) as Ho.
  rewrite Hr in Hh, Ho. injection Hr as <- <-. split_and!; [done|done| | |done].
  - apply lookup_delete_eq.
  - intros r e. unfold queue_of. cbn. rewrite lookup_fmap.
    destruct (wait_queues lm !! r); cbn; [|by intros ?%not_elem_of_nil].
    by intros [? _]%list_elem_of_filter.
Qed.

(** ** Examples *)

Definition lm_grant (tx : Z) (r : string) (m : LockMode) (lm : LockManager) : LockManager :=
  (acquireLock tx r m LockGranularity.TABLE 5000 0 lm).1.

(** Transactions 1 and 2 read, 3 wants to write and waits. *)
Definition two_readers : LockManager :=
  lm_grant 2 "t" LockMode.INTENT_SHARED (lm_grant 1 "t" LockMode.SHARED LockManager_new).
Definition writer : Waiter := mkWaiter 3 "t" LockMode.EXCLUSIVE LockGranularity.TABLE 5000 0.
Definition writer_waits : LockManager := lm_grant 3 "t" LockMode.EXCLUSIVE two_readers.

Lemma two_readers_reachable : sys_reachable (mkSys two_readers []).
Proof.
  eapply rtc_l; [eapply (step_acquire _ _ 1 "t" LockMode.SHARED LockGranularity.TABLE 5000 0);
    reflexivity|].
  eapply rtc_l; [eapply (step_acquire _ _ 2 "t" LockMode.INTENT_SHARED LockGranularity.TABLE 5000 0);
    reflexivity|]. apply rtc_refl.
Qed.

Lemma granted_locks_compatible_witness :
  ∃ ref locks, granted_locks two_readers !! "t" = Some (ref, locks) ∧ length locks = 2%nat ∧
    ∀ i j e e', i ≠ j → locks !! i = Some e → locks !! j = Some e' →
      areCompatible (lmode e) (lmode e') = true.
Proof.
  eexists _, _. split; [reflexivity|]. split; [reflexivity|].
  apply (granted_locks_compatible (mkSys two_readers []) "t" 0 _ two_readers_reachable eq_refl).
Defined.

Lemma exclusive_waiter_never_granted_witness :
  let lm := (releaseLock 2 "t" (releaseLock 1 "t" writer_waits).1).1 in
  granted_locks lm !! "t" = None ∧
  ∀ elapsed lm', poll writer elapsed lm ≠ (lm', Returns LockStatus.GRANTED).
Proof.
  intros lm. split; [reflexivity|]. intros elapsed lm'.
  apply (exclusive_waiter_never_granted (mkSys lm [writer]) writer elapsed lm');
    [|by left|reflexivity].
  unfold sys_reachable. etrans; [apply two_readers_reachable|].
  eapply rtc_l; [eapply (step_wait _ _ 3 "t" LockMode.EXCLUSIVE LockGranularity.TABLE 5000 0);
    reflexivity|].
  eapply rtc_l; [eapply (step_release _ _ 1 "t"); reflexivity|].
  eapply rtc_l; [eapply (step_release _ _ 2 "t"); reflexivity|]. apply rtc_refl.
Defined.

Lemma releaseAllLocks_spec_witness :
  holds (releaseAllLocks 1 writer_waits).1 1 "t" = false ∧
  hasLock 2 "t" LockMode.INTENT_SHARED (releaseAllLocks 1 writer_waits).1 = true.
Proof.
  destruct (releaseAllLocks_spec 1 writer_waits _ _ (surjective_pairing _)) as (_ & H1 & _ & _ & H2).
  split; [apply H1|]. rewrite H2; [reflexivity|done].
Defined.

(** A wait inside [acquireLock] whose turn falls on a multiple of 100 ms, the
    first turn in practice, locks the mutex it holds. *)
Example first_turn_blocks : (poll writer 0 writer_waits).2 = SelfDeadlock.
Proof. reflexivity. Qed.

(** Transactions 1 and 2 each wait for the lock of the other. *)
Definition deadlocked : LockManager :=
  lm_grant 2 "a" LockMode.EXCLUSIVE (lm_grant 1 "b" LockMode.EXCLUSIVE
    (lm_grant 2 "b" LockMode.EXCLUSIVE (lm_grant 1 "a" LockMode.EXCLUSIVE LockManager_new))).

Example deadlock_found : hasDeadlock deadlocked 1 = Some true ∧ hasDeadlock writer_waits 1 = Some false.
Proof. split; vm_compute; reflexivity. Qed.
