(* ===== verification/Dumps.v ===== *)
(** * Dumps: what the storage and the locks print about themselves

    [Page::dump], [BufferPool::dump] with the hit ratio, [LockManager::dumpLocks] and
    [dumpWaitGraph], and [Table::dump], with what the other small members of the pool do: the
    destructor and [waitForUnpin].  A map that is not ordered is printed in the order of its
    iteration, here that of [map_to_list]. *)

From Stdlib Require Import SpecFloat.
From stdpp Require Import gmap strings list.
From S2P Require Import Prelude CxxString CxxStream Types Doubles DecimalText Page FileManager BufferPool BufferPoolProofs Table TableProofs TableScan LockManager.

Open Scope Z_scope.

(** ** Pages *)

Definition Page_dump (p : Page) : string :=
  let h := header p in
  "Page " +:+ to_string (page_id h) +:+ ":" +:+ endl +:+
  "  Type: " +:+ to_string (page_type_code (ptype h)) +:+ endl +:+
  "  Records: " +:+ to_string (record_count h) +:+ endl +:+
  "  Free space: " +:+ to_string (getFreeSpace p) +:+ " bytes" +:+ endl +:+
  "  Next page: " +:+ to_string (Page.next_page_id h) +:+ endl +:+
  "  Prev page: " +:+ to_string (prev_page_id h) +:+ endl +:+
  "  Dirty: " +:+ (if is_dirty h then "1" else "0") +:+ endl.

(** ** The buffer pool *)

Section Pool.
Context {St : Type} `{PageStore St}.

(** The sum of the counters is a [size_t]. *)
Definition getHitRatio (p : BufferPool St) : double :=
  let total := wrap 64 (hits (stats p) + misses (stats p)) in
  if 0 <? total then ddiv (double_of_int (hits (stats p))) (double_of_int total) else dzero.

Definition pool_dump (p : BufferPool St) : string :=
  let s := stats p in
  "Buffer Pool Statistics:" +:+ endl +:+
  "  Size: " +:+ to_string (Z.of_nat (size (frames p))) +:+ "/" +:+ to_string (Z.of_nat (pool_size p)) +:+ endl +:+
  "  Hits: " +:+ to_string (hits s) +:+ endl +:+
  "  Misses: " +:+ to_string (misses s) +:+ endl +:+
  "  Hit Ratio: " +:+ print_general (dmul (getHitRatio p) (double_of_int 100)) +:+ "%" +:+ endl +:+
  "  Reads: " +:+ to_string (reads s) +:+ endl +:+
  "  Writes: " +:+ to_string (writes s) +:+ endl +:+
  "  Evictions: " +:+ to_string (evictions s) +:+ endl.

(** [BufferPool::~BufferPool] *)
Definition pool_destructor (p : BufferPool St) : BufferPool St := BufferPool.flushAll p.

(** The condition is never notified: the wait does not end, unless it does so spuriously with
    the pool [wake] makes of this one. *)
Definition waitForUnpin (wake : BufferPool St → option (BufferPool St)) (pid : Z) (p : BufferPool St)
  : option (BufferPool St * bool) :=
  match frames p !! pid with
  | Some f => if isPinned f then p' ← wake p; Some (p', true) else Some (p, false)
  | None => Some (p, false)
  end.

(** ** Tables *)

Definition columns_text (cols : list ColumnSchema) : string :=
  String.concat "" ((λ c, "    " +:+ col_name c +:+ ": " +:+ to_string (type_code (col_type c)) +:+ endl) <$> cols).

(** The rows are counted with an iterator over the table. *)
Definition table_dump (fuel : nat) (t : Table) (p : BufferPool St) : option (BufferPool St * string) :=
  b ← table_begin fuel t p;
  r ← for_iterator fuel t (λ n _, Some (inl (wrap 64 (n + 1)))) 0 b.2 b.1;
  let '(p, _, n) := r in
  Some (p, "Table " +:+ ts_name (tschema t) +:+ ":" +:+ endl +:+
    "  ID: " +:+ to_string (ts_id (tschema t)) +:+ endl +:+
    "  Columns: " +:+ to_string (Z.of_nat (length (columns (tschema t)))) +:+ endl +:+
    columns_text (columns (tschema t)) +:+
    "  Records: " +:+ to_string n +:+ endl).

(** The dump of a table whose last page has a slot does not end: the loop over its rows is the
    one of the other scans. *)
Theorem table_dump_never_ends t l p fuel :
  pool_ok p → table_chain t (frames p) l → last_count l ≠ 0 → table_dump fuel t p = None.
Proof.
  intros Hok Hch Hlast. unfold table_dump. destruct (table_begin fuel t p) as [b|] eqn:Hb; [|done].
  cbn [mbind option_bind]. destruct (run_count 0 (chain_rows l).*2) as [n' Hn'].
  erewrite table_loop_forever; [done..|exact Hn'| |done]. intros a. by eexists.
Qed.

(** A pool that was asked for no page has the ratio 0, and one that found them all the ratio 1. *)
Lemma hit_ratio_zero p : hits (stats p) = 0 → misses (stats p) = 0 → getHitRatio p = dzero.
Proof. intros Hh Hm. unfold getHitRatio. by rewrite Hh, Hm. Qed.

End Pool.

(** ** Locks *)

Definition lock_mode_code (m : LockMode) : Z :=
  match m with
  | LockMode.SHARED => 0 | LockMode.EXCLUSIVE => 1 | LockMode.INTENT_SHARED => 2
  | LockMode.INTENT_EXCLUSIVE => 3 | LockMode.SHARED_INTENT_EXCLUSIVE => 4
  end.

Definition lock_text (l : LockEntry) : string :=
  "    TX " +:+ to_string (holder l) +:+ ": " +:+ to_string (lock_mode_code (lmode l)) +:+ endl.

Definition dumpLocks (lm : LockManager) : string :=
  "Current Locks:" +:+ endl +:+
  String.concat "" ((λ x, "  Resource: " +:+ x.1 +:+ endl +:+ String.concat "" (lock_text <$> x.2.2))
                      <$> map_to_list (granted_locks lm)).

Definition dumpWaitGraph (lm : LockManager) : string :=
  "Wait-for Graph:" +:+ endl +:+
  String.concat "" ((λ x, "  TX " +:+ to_string x.1 +:+ " waiting for: " +:+
                       String.concat "" ((λ r, r +:+ " ") <$> x.2) +:+ endl)
                      <$> map_to_list (waiting_for lm)).

(** ** Examples *)

Example page_dump_new :
  Page_dump (Page_new 7 1) =
    "Page 7:" +:+ endl +:+ "  Type: 0" +:+ endl +:+ "  Records: 0" +:+ endl +:+ "  Free space: 0 bytes" +:+ endl +:+
    "  Next page: 18446744073709551615" +:+ endl +:+ "  Prev page: 18446744073709551615" +:+ endl +:+ "  Dirty: 0" +:+ endl.
Proof. by vm_compute. Qed.

Example locks_dump :
  dumpLocks (mkLockManager {[ "t" := (0%nat, [mkLockEntry LockMode.SHARED 4 LockGranularity.TABLE]) ]} 1 ∅ ∅ LockStats_zero) =
    "Current Locks:" +:+ endl +:+ "  Resource: t" +:+ endl +:+ "    TX 4: 0" +:+ endl.
Proof. by vm_compute. Qed.
