(* ===== verification/LogManager.v ===== *)
(** * LogManager: the log of the transactions
    (src/transaction/log_manager.h, log_manager.cpp)

    The manager keeps the records in memory ([log_buffer_]), the serialized
    bytes that are not written yet ([write_buffer_] up to [buffer_pos_]) and the
    stream of the log file, which has one position for reading and writing.  The
    file is the bytes behind the stream and whether the name of the log still
    designates them.  Clock values are inputs, in nanoseconds.  The synchronizing
    thread (which calls [flushAll]) and the times measured are not modelled, nor
    is [writeToDisk] with [rotateLogFile], which nothing calls.

    A [LogRecord] owns its data: the copies the source makes are deep. *)

From stdpp Require Import gmap strings sorting.
From S2P Require Import Prelude CxxString Types Page FileManager.

Open Scope Z_scope.

(** ** Records *)

Module LogRecordType.
Inductive LogRecordType :=
  | BEGIN | COMMIT | ABORT | CHECKPOINT | SAVEPOINT | ROLLBACK_SAVEPOINT
  | INSERT | UPDATE | DELETE | COMPENSATION | CLR | OTHER (code : Z).

#[export] Instance LogRecordType_eq_dec : EqDecision LogRecordType.
Proof. solve_decision. Defined.
End LogRecordType.
Export (hints) LogRecordType.
Abbreviation LogRecordType := LogRecordType.LogRecordType.

Definition log_type_code (t : LogRecordType) : Z :=
  match t with
  | LogRecordType.BEGIN => 0 | LogRecordType.COMMIT => 1 | LogRecordType.ABORT => 2
  | LogRecordType.CHECKPOINT => 3 | LogRecordType.SAVEPOINT => 4
  | LogRecordType.ROLLBACK_SAVEPOINT => 5 | LogRecordType.INSERT => 6
  | LogRecordType.UPDATE => 7 | LogRecordType.DELETE => 8
  | LogRecordType.COMPENSATION => 9 | LogRecordType.CLR => 10 | LogRecordType.OTHER z => z
  end.

Definition code_log_type (z : Z) : LogRecordType :=
  match z with
  | 0 => LogRecordType.BEGIN | 1 => LogRecordType.COMMIT | 2 => LogRecordType.ABORT
  | 3 => LogRecordType.CHECKPOINT | 4 => LogRecordType.SAVEPOINT
  | 5 => LogRecordType.ROLLBACK_SAVEPOINT | 6 => LogRecordType.INSERT
  | 7 => LogRecordType.UPDATE | 8 => LogRecordType.DELETE
  | 9 => LogRecordType.COMPENSATION | 10 => LogRecordType.CLR | _ => LogRecordType.OTHER z
  end.

Record LogRecord := mkLogRecord {
  rec_lsn : Z;
  rec_type : LogRecordType;
  rec_tx : Z;
  rec_page : Z;
  rec_offset : Z;
  data_length : Z;
  rec_data : option (list Z);
  timestamp : Z;
  prev_lsn : Z
}.

Definition LogRecord_default : LogRecord :=
  mkLogRecord 0 LogRecordType.BEGIN 0 INVALID_PAGE_ID 0 0 None 0 0.

(** [sizeof(LogRecord)] and [sizeof(LogFileHeader)], with their padding *)
Definition LOG_RECORD_SIZE : nat := 64.
Definition LOG_HEADER_SIZE : nat := 48.
Definition FIXED_SIZE : nat := 50.

(** [to_time_t] and [from_time_t] *)
Definition to_time_t (ns : Z) : Z := ns ÷ 1000000000.
Definition from_time_t (s : Z) : Z := s * 1000000000.

Definition serializeLogRecord (r : LogRecord) : list Z :=
  le_bytes 8 (rec_lsn r) ++ le_bytes 4 (log_type_code (rec_type r)) ++ le_bytes 8 (rec_tx r)
  ++ le_bytes 8 (rec_page r) ++ le_bytes 4 (rec_offset r) ++ le_bytes 2 (data_length r)
  ++ le_bytes 8 (prev_lsn r) ++ le_bytes 8 (to_time_t (timestamp r))
  ++ (if 0 <? data_length r then take (Z.to_nat (data_length r)) (default [] (rec_data r)) else []).

(** The record at the start of a buffer and the number of bytes it takes; [None]
    if it leaves the buffer. *)
Definition deserializeLogRecord (buf : list Z) : option (LogRecord * nat) :=
  if decide (length buf < FIXED_SIZE)%nat then None
  else
    let n := Z.to_nat (field buf 32 2) in
    let r := mkLogRecord (field buf 0 8) (code_log_type (field buf 8 4)) (field buf 12 8)
               (field buf 20 8) (field buf 28 4) (field buf 32 2) None
               (from_time_t (to_signed 64 (field buf 42 8))) (field buf 34 8) in
    if decide (n = 0)%nat then Some (r, FIXED_SIZE)
    else
      bs ← read_bytes buf FIXED_SIZE n;
      Some (mkLogRecord (rec_lsn r) (rec_type r) (rec_tx r) (rec_page r) (rec_offset r)
              (data_length r) (Some bs) (timestamp r) (prev_lsn r), (FIXED_SIZE + n)%nat).

(** ** State *)

Module LogMode.
Inductive LogMode := NORMAL | ASYNC | NO_LOG.

#[export] Instance LogMode_eq_dec : EqDecision LogMode.
Proof. solve_decision. Defined.
End LogMode.
Export (hints) LogMode.
Abbreviation LogMode := LogMode.LogMode.

Record LogStats := mkLogStats {
  total_records : Z;
  bytes_written : Z;
  flushes : Z;
  checkpoints : Z
}.
Definition LogStats_zero : LogStats := mkLogStats 0 0 0 0.

(** The open log file: its bytes, its position, and whether the log's name
    designates it. *)
Record LogFile := mkLogFile { lf_bytes : list Z; lf_pos : nat; lf_linked : bool }.

Record LogManager := mkLogManager {
  log_file : option LogFile;
  log_mode : LogMode;
  recovery_mode : bool;
  current_lsn : Z;
  last_checkpoint : Z;
  log_buffer : gmap Z LogRecord;
  last_tx_lsn : gmap Z Z;
  log_stats : LogStats;
  write_buffer : list Z
}.

Definition LogManager_new : LogManager :=
  mkLogManager None LogMode.NORMAL false 1 0 ∅ ∅ LogStats_zero [].

Definition WRITE_BUFFER_SIZE : Z := 1024 * 1024.

Definition set_log_file (f : option LogFile) (lm : LogManager) : LogManager :=
  mkLogManager f (log_mode lm) (recovery_mode lm) (current_lsn lm) (last_checkpoint lm)
    (log_buffer lm) (last_tx_lsn lm) (log_stats lm) (write_buffer lm).
Definition set_write_buffer (b : list Z) (lm : LogManager) : LogManager :=
  mkLogManager (log_file lm) (log_mode lm) (recovery_mode lm) (current_lsn lm)
    (last_checkpoint lm) (log_buffer lm) (last_tx_lsn lm) (log_stats lm) b.
Definition set_log_stats (f : LogStats → LogStats) (lm : LogManager) : LogManager :=
  mkLogManager (log_file lm) (log_mode lm) (recovery_mode lm) (current_lsn lm)
    (last_checkpoint lm) (log_buffer lm) (last_tx_lsn lm) (f (log_stats lm)) (write_buffer lm).
Definition set_log_buffer (b : gmap Z LogRecord) (lm : LogManager) : LogManager :=
  mkLogManager (log_file lm) (log_mode lm) (recovery_mode lm) (current_lsn lm)
    (last_checkpoint lm) b (last_tx_lsn lm) (log_stats lm) (write_buffer lm).
Definition set_lsns (cur : Z) (last : gmap Z Z) (lm : LogManager) : LogManager :=
  mkLogManager (log_file lm) (log_mode lm) (recovery_mode lm) cur
    (last_checkpoint lm) (log_buffer lm) last (log_stats lm) (write_buffer lm).
Definition setLogMode (m : LogMode) (lm : LogManager) : LogManager :=
  mkLogManager (log_file lm) m (recovery_mode lm) (current_lsn lm) (last_checkpoint lm)
    (log_buffer lm) (last_tx_lsn lm) (log_stats lm) (write_buffer lm).
Definition setRecoveryMode (b : bool) (lm : LogManager) : LogManager :=
  mkLogManager (log_file lm) (log_mode lm) b (current_lsn lm) (last_checkpoint lm)
    (log_buffer lm) (last_tx_lsn lm) (log_stats lm) (write_buffer lm).

Definition count_record (bytes : Z) (s : LogStats) : LogStats :=
  mkLogStats (wrap 64 (total_records s + 1)) (wrap 64 (bytes_written s + bytes)) (flushes s)
    (checkpoints s).
Definition count_flush (s : LogStats) : LogStats :=
  mkLogStats (total_records s) (bytes_written s) (wrap 64 (flushes s + 1)) (checkpoints s).

(** ** Writing *)

(** [log_file_.write] at the position of the stream; nothing is written if the
    stream is closed. *)
Definition flushBuffer (lm : LogManager) : LogManager :=
  if decide (write_buffer lm = []) then lm
  else
    let f := (λ f, mkLogFile (overwrite (lf_bytes f) (lf_pos f) (write_buffer lm))
                     (lf_pos f + length (write_buffer lm)) (lf_linked f)) <$> log_file lm in
    set_log_stats count_flush (set_write_buffer [] (set_log_file f lm)).

Definition flush (lm : LogManager) : LogManager := set_log_stats count_flush (flushBuffer lm).
Definition flushAll : LogManager → LogManager := flush.

(** [appendLogRecord(record)] *)
Definition appendRecord (now : Z) (record : LogRecord) (lm : LogManager) : LogManager * Z :=
  let lsn := current_lsn lm in
  let prev := default (prev_lsn record) (last_tx_lsn lm !! rec_tx record) in
  let copy := mkLogRecord lsn (rec_type record) (rec_tx record) (rec_page record)
                (rec_offset record) (data_length record) (rec_data record) now prev in
  let lm := set_lsns (wrap 64 (lsn + 1)) (<[rec_tx record := lsn]> (last_tx_lsn lm)) lm in
  let lm := set_log_buffer (<[lsn := copy]> (log_buffer lm)) lm in
  let record_size := Z.of_nat LOG_RECORD_SIZE + data_length record in
  let lm :=
    if decide (log_mode lm = LogMode.NO_LOG) then lm
    else
      let lm := if WRITE_BUFFER_SIZE <? Z.of_nat (length (write_buffer lm)) + record_size
                then flushBuffer lm else lm in
      set_write_buffer (write_buffer lm ++ serializeLogRecord copy) lm in
  (set_log_stats (count_record record_size) lm, lsn).

(** [appendLogRecord(type, tx_id, page_id, data, data_len)]; [data_length] is a
    [uint16_t]. *)
Definition appendLogRecord (now : Z) (type : LogRecordType) (tx page : Z) (dat : option (list Z))
    (lm : LogManager) : LogManager * Z :=
  let r :=
    match dat with
    | Some ((_ :: _) as bs) =>
        mkLogRecord 0 type tx page 0 (wrap 16 (Z.of_nat (length bs))) (Some bs) 0 0
    | _ => mkLogRecord 0 type tx page 0 0 None 0 0
    end in
  appendRecord now r lm.

(** ** Opening *)

(** The header of a new file: the checksum and the tail padding are not
    initialized. *)
Definition log_header_bytes (start_lsn : Z) (junk : list Z) : list Z :=
  le_bytes 4 1330793543 ++ le_bytes 4 1 ++ le_bytes 8 start_lsn ++ le_bytes 8 1 ++ le_bytes 8 0
  ++ le_bytes 8 PAGE_SIZE ++ junk.

(** The reading loop of [init]: the position of the stream, the next LSN and the
    records found. *)
Fixpoint scan_log (fuel : nat) (c : list Z) (pos stream : nat) (cur : Z) (buf : gmap Z LogRecord)
  : option (nat * Z * gmap Z LogRecord) :=
  if decide (pos + LOG_RECORD_SIZE ≤ length c)%nat then
    match fuel with
    | O => None
    | S fuel' =>
        chunk ← read_bytes c pos LOG_RECORD_SIZE;
        '(r, _) ← deserializeLogRecord chunk;
        let found := 0 <? rec_lsn r in
        scan_log fuel' c (pos + (LOG_RECORD_SIZE + Z.to_nat (data_length r)))
          (pos + LOG_RECORD_SIZE)
          (if found then wrap 64 (rec_lsn r + 1) else cur)
          (if found then <[rec_lsn r := r]> buf else buf)
    end
  else Some (stream, cur, buf).

(** [existing] is the log file found on disk. *)
Definition init (existing : option (list Z)) (can_create : bool) (junk : list Z) (lm : LogManager)
  : option (LogManager * bool) :=
  match existing with
  | None =>
      if can_create then
        Some (set_log_file (Some (mkLogFile (log_header_bytes 1 junk) 0 true)) lm, true)
      else Some (lm, false)
  | Some c =>
      if decide (LOG_HEADER_SIZE < length c)%nat then
        '(stream, cur, buf) ←
          scan_log (length c) c LOG_HEADER_SIZE (length c) (current_lsn lm) (log_buffer lm);
        Some (set_log_buffer buf (set_lsns cur (last_tx_lsn lm)
                (set_log_file (Some (mkLogFile c stream true)) lm)), true)
      else Some (set_log_file (Some (mkLogFile c (length c) true)) lm, true)
  end.

(** What the next process finds. *)
Definition on_disk (lm : LogManager) : option (list Z) :=
  f ← log_file lm; if lf_linked f then Some (lf_bytes f) else None.

(** ** Reading *)

Definition getLogRecord (lsn : Z) (lm : LogManager) : option LogRecord :=
  match log_buffer lm !! lsn with
  | Some r => Some r
  | None =>
      match on_disk lm with
      | None => Some LogRecord_default
      | Some c =>
          let pos := Z.to_nat (wrap 64 (Z.of_nat LOG_HEADER_SIZE + lsn * Z.of_nat LOG_RECORD_SIZE)) in
          chunk ← read_bytes c pos LOG_RECORD_SIZE;
          '(r, _) ← deserializeLogRecord chunk;
          let n := Z.to_nat (data_length r) in
          let bs := take n (drop (pos + LOG_RECORD_SIZE) c) in
          Some (if decide (n = 0)%nat then r
                else mkLogRecord (rec_lsn r) (rec_type r) (rec_tx r) (rec_page r) (rec_offset r)
                       (data_length r) (Some (bs ++ replicate (n - length bs) 0)) (timestamp r)
                       (prev_lsn r))
      end
  end.

Definition lsn_le (a b : LogRecord) : Prop := rec_lsn a ≤ rec_lsn b.
#[global] Instance lsn_le_dec a b : Decision (lsn_le a b) := decide (rec_lsn a ≤ rec_lsn b).

(** [std::sort] by LSN of the entries that satisfy a condition *)
Definition sorted_logs (P : Z * LogRecord → Prop) `{!∀ kr, Decision (P kr)} (lm : LogManager)
  : list LogRecord :=
  merge_sort lsn_le (filter P (map_to_list (log_buffer lm))).*2.

Definition getLogsSince (lsn : Z) (lm : LogManager) : list LogRecord :=
  sorted_logs (λ kr, lsn < kr.1) lm.

Definition getLogsForTransaction (tx : Z) (lm : LogManager) : list LogRecord :=
  sorted_logs (λ kr, rec_tx kr.2 = tx) lm.

(** ** Maintenance *)

Definition truncate (lsn : Z) (lm : LogManager) : LogManager :=
  set_log_buffer (filter (λ kr, lsn ≤ kr.1) (log_buffer lm)) lm.

(** The analysis of [recover] over the records in the order of the iteration:
    the state of every transaction ([true] for committed, [false] for aborted,
    [None] for active) and the last checkpoint met.  The two passes that follow
    have empty bodies. *)
Definition analysis_step (acc : gmap Z (option bool) * Z) (kr : Z * LogRecord)
  : gmap Z (option bool) * Z :=
  let '(states, redo) := acc in
  let r := kr.2 in
  match rec_type r with
  | LogRecordType.BEGIN => (<[rec_tx r := None]> states, redo)
  | LogRecordType.COMMIT => (<[rec_tx r := Some true]> states, redo)
  | LogRecordType.ABORT => (<[rec_tx r := Some false]> states, redo)
  | LogRecordType.CHECKPOINT => (states, kr.1)
  | _ => (states, redo)
  end.
Definition analysis (order : list (Z * LogRecord)) : gmap Z (option bool) * Z :=
  foldl analysis_step (∅, 0) order.

Definition recover (lm : LogManager) : LogManager * StatusCode :=
  (setRecoveryMode false (setRecoveryMode true lm), StatusCode.OK).

Definition setCheckpoint (lsn : Z) (lm : LogManager) : LogManager :=
  mkLogManager (log_file lm) (log_mode lm) (recovery_mode lm) (current_lsn lm) lsn
    (log_buffer lm) (last_tx_lsn lm)
    (mkLogStats (total_records (log_stats lm)) (bytes_written (log_stats lm))
       (flushes (log_stats lm)) (wrap 64 (checkpoints (log_stats lm) + 1)))
    (write_buffer lm).

Definition resetStats (lm : LogManager) : LogManager := set_log_stats (λ _, LogStats_zero) lm.

(** The bytes of the archive of the records from [start] to [stop]. *)
Definition archiveLog (start stop : Z) (lm : LogManager) : list Z :=
  concat (map (λ i, match log_buffer lm !! (start + Z.of_nat i) with
                    | Some r => serializeLogRecord r
                    | None => []
                    end) (seq 0 (Z.to_nat (stop - start + 1)))).

(** Every name it removes is the name of the current log. *)
Definition deleteArchivedLogs (before : Z) (lm : LogManager) : LogManager :=
  if 1 <? before then
    set_log_file ((λ f, mkLogFile (lf_bytes f) (lf_pos f) false) <$> log_file lm) lm
  else lm.

Definition shutdown (lm : LogManager) : LogManager := set_log_file None (flushAll lm).

(** [parseLSN]: the number after the last dot of a file name *)
Fixpoint after_last_dot (s : string) : option string :=
  match s with
  | EmptyString => None
  | String c s' =>
      match after_last_dot s' with
      | Some t => Some t
      | None => if decide (c = "."%char) then Some s' else None
      end
  end.
Definition parseLSN (filename : string) : option Z :=
  match after_last_dot filename with Some t => stoull t | None => Some 0 end.
