(* ===== verification/LogProofs.v ===== *)
(** * LogProofs: correctness of the log

    Records survive serialization, LSNs are consecutive and [prev_lsn] chains the
    records of a transaction, queries are sorted, the write-ahead buffer never
    overflows and reaches the file in order; and what a restart finds. *)

From stdpp Require Import gmap strings sorting.
From S2P Require Import Prelude CxxString Types Page FileManager LogManager.

Open Scope Z_scope.

(** ** Serialization of a record *)

Record log_record_wf (r : LogRecord) : Prop := mk_log_record_wf {
  lw_lsn : fits 64 (rec_lsn r);
  lw_type : fits 32 (log_type_code (rec_type r)) ∧
            code_log_type (log_type_code (rec_type r)) = rec_type r;
  lw_tx : fits 64 (rec_tx r);
  lw_page : fits 64 (rec_page r);
  lw_offset : fits 32 (rec_offset r);
  lw_length : fits 16 (data_length r);
  lw_data : if decide (data_length r = 0) then rec_data r = None
            else ∃ bs, rec_data r = Some bs ∧ Z.of_nat (length bs) = data_length r;
  lw_time : fits_signed 64 (to_time_t (timestamp r));
  lw_prev : fits 64 (prev_lsn r)
}.

(** The record with its time cut to seconds. *)
Definition whole_seconds (r : LogRecord) : LogRecord :=
  mkLogRecord (rec_lsn r) (rec_type r) (rec_tx r) (rec_page r) (rec_offset r) (data_length r)
    (rec_data r) (from_time_t (to_time_t (timestamp r))) (prev_lsn r).

(** The bytes of the data that follow the fixed part. *)
Definition payload (r : LogRecord) : list Z :=
  if 0 <? data_length r then take (Z.to_nat (data_length r)) (default [] (rec_data r)) else [].

Lemma length_payload r : log_record_wf r → Z.of_nat (length (payload r)) = data_length r.
Proof.
  intros []. unfold payload. destruct (Z.ltb_spec 0 (data_length r)).
  - rewrite decide_False in lw_data0 by lia. destruct lw_data0 as (bs & -> & Hl). simpl.
    rewrite length_take. lia.
  - simpl. destruct lw_length0. lia.
Qed.

(** The fixed fields of a serialized record, whatever follows. *)
Lemma serialized_fields r rest :
  let b := serializeLogRecord r ++ rest in
  field b 0 8 = wrap 64 (rec_lsn r) ∧ field b 8 4 = wrap 32 (log_type_code (rec_type r)) ∧
  field b 12 8 = wrap 64 (rec_tx r) ∧ field b 20 8 = wrap 64 (rec_page r) ∧
  field b 28 4 = wrap 32 (rec_offset r) ∧ field b 32 2 = wrap 16 (data_length r) ∧
  field b 34 8 = wrap 64 (prev_lsn r) ∧ field b 42 8 = wrap 64 (to_time_t (timestamp r)) ∧
  drop 50 b = payload r ++ rest.
Proof.
  unfold serializeLogRecord. fold (payload r). cbv zeta.
  rewrite <- !app_assoc. split_and!;
    first [exact (le_value_bytes 8 _) | exact (le_value_bytes 4 _) | exact (le_value_bytes 2 _)
          | reflexivity].
Qed.

Lemma length_serializeLogRecord r :
  length (serializeLogRecord r) = (50 + length (payload r))%nat.
Proof.
  unfold serializeLogRecord. fold (payload r). rewrite !length_app, !length_le_bytes. lia.
Qed.

(** Round trip of a log record: reading the bytes of a record, at the
    start of any buffer, gives the record back with its time cut to seconds,
    and consumes exactly its bytes. *)
Theorem log_record_roundtrip r rest :
  log_record_wf r →
  deserializeLogRecord (serializeLogRecord r ++ rest) =
  Some (whole_seconds r, length (serializeLogRecord r)).
Proof.
  intros Hr. destruct (serialized_fields r rest) as (H1 & H2 & H3 & H4 & H5 & H6 & H7 & H8 & H9).
  pose proof (length_payload r Hr) as Hpl. rewrite length_serializeLogRecord.
  unfold deserializeLogRecord.
  rewrite decide_False by (rewrite length_app, length_serializeLogRecord; unfold FIXED_SIZE; lia).
  rewrite H1, H2, H3, H4, H5, H6, H7, H8. destruct Hr.
  rewrite to_signed_wrap by (done || lia).
  rewrite !wrap_small by (assumption || apply lw_type0). rewrite (proj2 lw_type0).
  destruct (decide (Z.to_nat (data_length r) = 0)%nat) as [Hn|Hn].
  - assert (data_length r = 0) as H0 by (destruct lw_length0; lia).
    rewrite decide_True in lw_data0 by done. unfold whole_seconds. rewrite lw_data0, H0.
    f_equal. f_equal. unfold FIXED_SIZE. lia.
  - destruct lw_length0. rewrite decide_False in lw_data0 by lia.
    destruct lw_data0 as (bs & Hbs & Hlb).
    assert (payload r = bs) as Hp.
    { unfold payload. rewrite (proj2 (Z.ltb_lt _ _)) by lia. rewrite Hbs. simpl.
      apply take_ge. lia. }
    assert (read_bytes (serializeLogRecord r ++ rest) FIXED_SIZE (Z.to_nat (data_length r)) = Some bs) as ->.
    { apply read_bytes_Some. rewrite length_app, length_serializeLogRecord. unfold FIXED_SIZE.
      split; [lia|]. rewrite H9, Hp. rewrite take_app_length' by lia. done. }
    cbn [mbind option_bind rec_lsn rec_type rec_tx rec_page rec_offset data_length timestamp prev_lsn].
    unfold whole_seconds. rewrite Hbs. f_equal. f_equal. unfold FIXED_SIZE. lia.
Qed.

(** ** LSNs and chains *)

(** No record of transaction [t] lies strictly between [lo] and [hi]. *)
Definition none_between (buf : gmap Z LogRecord) (t lo hi : Z) : Prop :=
  ∀ k r, buf !! k = Some r → rec_tx r = t → lo < k → k < hi → False.

Record log_ok (lm : LogManager) : Prop := mk_log_ok {
  lk_dense : ∀ k, is_Some (log_buffer lm !! k) ↔ 0 < k < current_lsn lm;
  lk_key : ∀ k r, log_buffer lm !! k = Some r → rec_lsn r = k;
  lk_last : ∀ t, match last_tx_lsn lm !! t with
                 | Some l => (∃ r, log_buffer lm !! l = Some r ∧ rec_tx r = t) ∧
                             none_between (log_buffer lm) t l (current_lsn lm)
                 | None => none_between (log_buffer lm) t 0 (current_lsn lm)
                 end;
  lk_chain : ∀ k r, log_buffer lm !! k = Some r →
    prev_lsn r < k ∧ none_between (log_buffer lm) (rec_tx r) (prev_lsn r) k ∧
    (prev_lsn r = 0 ∨ ∃ r', log_buffer lm !! prev_lsn r = Some r' ∧ rec_tx r' = rec_tx r)
}.

Lemma log_new_ok : log_ok LogManager_new.
Proof.
  constructor; cbn.
  - intros k. rewrite lookup_empty. split; [intros []%is_Some_None|lia].
  - intros k r. by rewrite lookup_empty.
  - intros t. rewrite lookup_empty. intros k r. by rewrite lookup_empty.
  - intros k r. by rewrite lookup_empty.
Qed.

(** What [appendRecord] does to the records and the LSNs. *)
Lemma flushBuffer_keeps lm :
  log_buffer (flushBuffer lm) = log_buffer lm ∧ last_tx_lsn (flushBuffer lm) = last_tx_lsn lm ∧
  current_lsn (flushBuffer lm) = current_lsn lm ∧ log_mode (flushBuffer lm) = log_mode lm.
Proof. unfold flushBuffer. by case_decide. Qed.

Definition logged (now : Z) (record : LogRecord) (lm : LogManager) : LogRecord :=
  mkLogRecord (current_lsn lm) (rec_type record) (rec_tx record) (rec_page record)
    (rec_offset record) (data_length record) (rec_data record) now
    (default (prev_lsn record) (last_tx_lsn lm !! rec_tx record)).

Lemma appendRecord_fields now record lm lm' lsn :
  appendRecord now record lm = (lm', lsn) →
  lsn = current_lsn lm ∧ current_lsn lm' = wrap 64 (current_lsn lm + 1) ∧
  log_buffer lm' = <[lsn := logged now record lm]> (log_buffer lm) ∧
  last_tx_lsn lm' = <[rec_tx record := lsn]> (last_tx_lsn lm) ∧ log_mode lm' = log_mode lm.
Proof.
  intros Ha. unfold appendRecord in Ha. injection Ha as Hlm Hlsn. subst lsn lm'.
  cbn [current_lsn log_buffer last_tx_lsn log_mode set_log_stats].
  destruct (decide _); [done|].
  match goal with |- context [if ?c then flushBuffer ?l else _] =>
    pose proof (flushBuffer_keeps l) as (H1 & H2 & H3 & H4); destruct c end; [|done].
  cbn [set_write_buffer log_buffer last_tx_lsn current_lsn log_mode]. by rewrite H1, H2, H3, H4.
Qed.

Lemma appendRecord_ok now record lm lm' lsn :
  log_ok lm → 0 < current_lsn lm < 2 ^ 64 - 1 → prev_lsn record = 0 →
  appendRecord now record lm = (lm', lsn) →
  log_ok lm' ∧ current_lsn lm' = current_lsn lm + 1.
Proof.
  intros [Hd Hk Hl Hc] Hcur Hp0 Ha.
  destruct (appendRecord_fields _ _ _ _ _ Ha) as (-> & Hn & Hb & Ht & _).
  assert (current_lsn lm' = current_lsn lm + 1) as Hn' by (rewrite Hn; apply wrap_small; unfold fits; lia).
  split; [|done]. set (cur := current_lsn lm) in *.
  assert (∀ k r, log_buffer lm !! k = Some r → 0 < k < cur) as Hrange.
  { intros k r Hr. apply Hd. eauto. }
  assert (∀ k r, log_buffer lm' !! k = Some r →
    (k = cur ∧ r = logged now record lm) ∨ (k ≠ cur ∧ log_buffer lm !! k = Some r)) as Hcase.
  { intros k r. rewrite Hb. destruct (decide (k = cur)) as [->|].
    - rewrite lookup_insert_eq. intros [= <-]. auto.
    - rewrite lookup_insert_ne by done. auto. }
  assert (prev_lsn (logged now record lm) < cur ∧
    none_between (log_buffer lm) (rec_tx record) (prev_lsn (logged now record lm)) cur ∧
    (prev_lsn (logged now record lm) = 0 ∨
     ∃ r', log_buffer lm !! prev_lsn (logged now record lm) = Some r' ∧ rec_tx r' = rec_tx record))
    as Hnew.
  { cbn. specialize (Hl (rec_tx record)). destruct (last_tx_lsn lm !! rec_tx record) as [l|]; simpl.
    - destruct Hl as [(r & Hr & Htx) Hnone]. pose proof (Hrange _ _ Hr). split_and!; [lia|done|eauto].
    - rewrite Hp0. split_and!; [lia|done|by left]. }
  constructor.
  - intros k. rewrite Hn', Hb. destruct (decide (k = cur)) as [->|].
    + rewrite lookup_insert_eq. split; [lia|by eauto].
    + rewrite lookup_insert_ne by done. rewrite Hd. lia.
  - intros k r [[-> ->]|[_ Hr]]%Hcase; [done|by apply Hk].
  - intros t. rewrite Ht. destruct (decide (t = rec_tx record)) as [->|Hne].
    + rewrite lookup_insert_eq. split.
      * exists (logged now record lm). rewrite Hb, lookup_insert_eq. done.
      * intros k r [[-> _]|[_ Hr]]%Hcase _ ? ?; [lia|]. apply Hrange in Hr. lia.
    + rewrite lookup_insert_ne by done. specialize (Hl t).
      assert (∀ lo, none_between (log_buffer lm) t lo cur →
        none_between (log_buffer lm') t lo (current_lsn lm')) as Hext.
      { intros lo Hnb k r [[-> ->]|[_ Hr]]%Hcase Hrt Hlo Hhi; [by apply Hne|].
        eapply Hnb; eauto. apply Hrange in Hr. lia. }
      destruct (last_tx_lsn lm !! t) as [l|]; [|by apply Hext].
      destruct Hl as [(r & Hr & Htx) Hnone]. split; [|by apply Hext].
      exists r. rewrite Hb, lookup_insert_ne; [done|]. apply Hrange in Hr. lia.
  - assert (∀ lo k t, k ≤ cur → none_between (log_buffer lm) t lo k →
      none_between (log_buffer lm') t lo k) as Hext.
    { intros lo k t Hkc Hnb j r [[-> ->]|[_ Hr]]%Hcase Hrt Hlo Hhi; [lia|]. by eapply Hnb. }
    intros k r [[-> ->]|[_ Hr]]%Hcase.
    + destruct Hnew as (H1 & H2 & H3). split_and!; [done|apply Hext; [lia|done]|].
      destruct H3 as [H3|(r' & H3 & H4)]; [by left|right]. exists r'. split; [|done].
      rewrite Hb, lookup_insert_ne; [done|]. apply Hrange in H3. lia.
    + destruct (Hc k r Hr) as (H1 & H2 & H3). pose proof (Hrange _ _ Hr).
      split_and!; [done|apply Hext; [lia|done]|].
      destruct H3 as [H3|(r' & H3 & H4)]; [by left|right]. exists r'. split; [|done].
      rewrite Hb, lookup_insert_ne; [done|]. apply Hrange in H3. lia.
Qed.

(** A sequence of appends, with the time of each. *)
Fixpoint append_all (rs : list (Z * LogRecord)) (lm : LogManager) : LogManager * list Z :=
  match rs with
  | [] => (lm, [])
  | (now, r) :: rs' =>
      let '(lm, lsn) := appendRecord now r lm in
      let '(lm, lsns) := append_all rs' lm in (lm, lsn :: lsns)
  end.

Lemma append_all_ok rs lm lm' lsns :
  log_ok lm → 0 < current_lsn lm → current_lsn lm + Z.of_nat (length rs) < 2 ^ 64 →
  Forall (λ nr, prev_lsn nr.2 = 0) rs → append_all rs lm = (lm', lsns) →
  log_ok lm' ∧ lsns = map (λ i, current_lsn lm + Z.of_nat i) (seq 0 (length rs)).
Proof.
  revert lm lm' lsns. induction rs as [|[now r] rs IH]; intros lm lm' lsns Hok Hpos Hlt Hp Ha.
  { simplify_eq/=. done. }
  apply Forall_cons in Hp as [Hp0 Hp]. cbn [append_all snd length] in *.
  destruct (appendRecord now r lm) as [lm1 lsn] eqn:H1.
  destruct (append_all rs lm1) as [lm2 lsns2] eqn:H2. simplify_eq.
  destruct (appendRecord_ok _ _ _ _ _ Hok ltac:(lia) Hp0 H1) as [Hok1 Hc1].
  destruct (appendRecord_fields _ _ _ _ _ H1) as (-> & _).
  destruct (IH _ _ _ Hok1 ltac:(lia) ltac:(lia) Hp H2) as [Hok2 ->]. split; [done|].
  cbn [length seq map]. rewrite Z.add_0_r, <- seq_shift, map_map. f_equal.
  apply map_ext. intros i. rewrite Hc1. lia.
Qed.

Lemma append_all_current rs lm lm' lsns :
  append_all rs lm = (lm', lsns) → 0 < current_lsn lm →
  current_lsn lm + Z.of_nat (length rs) < 2 ^ 64 →
  current_lsn lm' = current_lsn lm + Z.of_nat (length rs).
Proof.
  revert lm lm' lsns. induction rs as [|[now r] rs IH]; intros lm lm' lsns Ha Hpos Hlt;
    cbn [append_all length] in *; [simplify_eq; lia|].
  destruct (appendRecord now r lm) as [lm1 lsn] eqn:H1.
  destruct (append_all rs lm1) as [lm2 lsns2] eqn:H2. simplify_eq.
  destruct (appendRecord_fields _ _ _ _ _ H1) as (_ & Hc & _).
  rewrite wrap_small in Hc by (unfold fits; lia). rewrite (IH _ _ _ H2), Hc by lia. lia.
Qed.

(** (C29) The log of a new manager: the records appended get the LSNs 1, 2, ...
    in order and are all in memory; [prev_lsn] of a record is 0 for the first
    record of its transaction and otherwise the LSN of the record of the same
    transaction just before it. *)
Theorem log_chain rs lm lsns :
  append_all rs LogManager_new = (lm, lsns) → Z.of_nat (length rs) < 2 ^ 64 - 1 →
  Forall (λ nr, prev_lsn nr.2 = 0) rs →
  lsns = map (λ i, 1 + Z.of_nat i) (seq 0 (length rs)) ∧
  (∀ lsn, lsn ∈ lsns → is_Some (log_buffer lm !! lsn)) ∧
  ∀ k r, log_buffer lm !! k = Some r →
    rec_lsn r = k ∧ prev_lsn r < k ∧
    none_between (log_buffer lm) (rec_tx r) (prev_lsn r) k ∧
    (prev_lsn r = 0 ∨ ∃ r', log_buffer lm !! prev_lsn r = Some r' ∧ rec_tx r' = rec_tx r).
Proof.
  intros Ha Hlen Hp.
  destruct (append_all_ok rs LogManager_new lm lsns log_new_ok ltac:(done) ltac:(cbn; lia) Hp Ha)
    as [Hok ->]. split; [done|]. split.
  - intros lsn (i & -> & Hi)%list_elem_of_fmap. apply elem_of_seq in Hi.
    apply (lk_dense _ Hok). split; [cbn; lia|].
    rewrite (append_all_current _ _ _ _ Ha) by (cbn; lia). cbn. lia.
  - intros k r Hr. split; [by apply (lk_key _ Hok)|]. by apply (lk_chain _ Hok).
Qed.

Definition plain (t : LogRecordType) (tx : Z) : LogRecord :=
  mkLogRecord 0 t tx INVALID_PAGE_ID 0 0 None 0 0.

Definition two_transactions : list (Z * LogRecord) :=
  [(0, plain LogRecordType.BEGIN 7); (0, plain LogRecordType.BEGIN 8);
   (0, plain LogRecordType.COMMIT 7)].

Lemma log_chain_witness :
  (append_all two_transactions LogManager_new).2 = [1; 2; 3] ∧
  prev_lsn <$> (log_buffer (append_all two_transactions LogManager_new).1 !! 3) = Some 1.
Proof.
  destruct (log_chain two_transactions _ _ (surjective_pairing _)) as (Hl & _);
    [done|repeat constructor|]. split; [exact Hl|reflexivity].
Defined.

(** ** Queries *)

#[local] Instance lsn_le_trans : Transitive lsn_le.
Proof. unfold lsn_le. intros ???. lia. Qed.
#[local] Instance lsn_le_total : Total lsn_le.
Proof. unfold lsn_le. intros ??. lia. Qed.

Lemma sorted_logs_spec (P : Z * LogRecord → Prop) `{!∀ kr, Decision (P kr)} lm :
  StronglySorted lsn_le (sorted_logs P lm) ∧
  ∀ r, r ∈ sorted_logs P lm ↔ ∃ k, log_buffer lm !! k = Some r ∧ P (k, r).
Proof.
  unfold sorted_logs. split; [apply StronglySorted_merge_sort; apply _|].
  intros r. rewrite merge_sort_Permutation, list_elem_of_fmap. split.
  - intros ([k r'] & -> & [HP Hin]%list_elem_of_filter). apply elem_of_map_to_list in Hin. eauto.
  - intros (k & Hk & HP). exists (k, r). split; [done|]. apply list_elem_of_filter.
    split; [done|]. by apply elem_of_map_to_list.
Qed.

(** The queries of the log: [getLogsSince] and [getLogsForTransaction]
    return the records of the buffer after the LSN, or of the transaction, all
    of them and no other, in the order of their LSNs. *)
Theorem log_queries lm lsn tx :
  StronglySorted lsn_le (getLogsSince lsn lm) ∧
  (∀ r, r ∈ getLogsSince lsn lm ↔ ∃ k, log_buffer lm !! k = Some r ∧ lsn < k) ∧
  StronglySorted lsn_le (getLogsForTransaction tx lm) ∧
  (∀ r, r ∈ getLogsForTransaction tx lm ↔ ∃ k, log_buffer lm !! k = Some r ∧ rec_tx r = tx).
Proof.
  destruct (sorted_logs_spec (λ kr, lsn < kr.1) lm) as [H1 H2].
  destruct (sorted_logs_spec (λ kr, rec_tx kr.2 = tx) lm) as [H3 H4]. done.
Qed.

(** ** From the buffer to the file *)

Lemma overwrite_append c p w b :
  overwrite (overwrite c p w) (p + length w) b = overwrite c p (w ++ b).
Proof.
  unfold overwrite at 1. rewrite overwrite_length.
  replace (p + length w - Nat.max (length c) (p + length w))%nat with 0%nat by lia.
  cbn [replicate]. rewrite app_nil_r. unfold overwrite.
  set (pre := take p (c ++ replicate (p - length c) 0)).
  assert (length pre = p) as Hp
    by (unfold pre; rewrite length_take, length_app, length_replicate; lia).
  rewrite (app_assoc pre w), take_app_length' by (rewrite length_app; lia).
  rewrite <- !app_assoc, length_app. do 3 f_equal.
  rewrite app_assoc, drop_app_ge by (rewrite length_app; lia).
  rewrite length_app, drop_drop. f_equal. lia.
Qed.

Lemma overwrite_nil c p : (p ≤ length c)%nat → overwrite c p [] = c.
Proof.
  intros Hp. unfold overwrite. rewrite take_app_le by done. simpl. rewrite Nat.add_0_r.
  apply take_drop.
Qed.

(** What was appended since the stream was at [p] of the bytes [c]: a part is in
    the file, the rest in the buffer. *)
Record stream_ok (c : list Z) (p : nat) (linked : bool) (hist : list Z) (lm : LogManager) : Prop := mk_stream_ok {
  so_written : ∃ w, log_file lm = Some (mkLogFile (overwrite c p w) (p + length w) linked) ∧
    w ++ write_buffer lm = hist;
  so_bound : Z.of_nat (length (write_buffer lm)) ≤ WRITE_BUFFER_SIZE
}.

Lemma flushBuffer_stream c p l hist lm :
  stream_ok c p l hist lm → stream_ok c p l hist (flushBuffer lm) ∧ write_buffer (flushBuffer lm) = [].
Proof.
  intros [(w & Hf & Hw) Hb]. unfold flushBuffer. case_decide as He.
  { split; [|done]. constructor; [by exists w|done]. }
  split; [|done]. constructor; [|cbn; unfold WRITE_BUFFER_SIZE; lia].
  exists hist. cbn [log_file write_buffer set_log_stats set_write_buffer set_log_file].
  rewrite app_nil_r. split; [|done]. rewrite Hf. cbn [fmap option_fmap option_map].
  cbn [lf_bytes lf_pos lf_linked]. rewrite overwrite_append, Hw.
  rewrite <- Hw, length_app, Nat.add_assoc. done.
Qed.

Lemma appendRecord_stream now r c p l hist lm lm' lsn :
  stream_ok c p l hist lm → log_mode lm ≠ LogMode.NO_LOG → log_record_wf (logged now r lm) →
  appendRecord now r lm = (lm', lsn) →
  stream_ok c p l (hist ++ serializeLogRecord (logged now r lm)) lm' ∧ log_mode lm' = log_mode lm.
Proof.
  intros Hs Hm Hwf Ha. destruct (appendRecord_fields _ _ _ _ _ Ha) as (_ & _ & _ & _ & Hmode).
  split; [|done]. unfold appendRecord in Ha. injection Ha as Hlm _. subst lm'.
  rewrite decide_False by done. fold (logged now r lm).
  set (lm1 := set_log_buffer _ _).
  assert (stream_ok c p l hist lm1) as Hs1 by (destruct Hs; constructor; done).
  match goal with |- context [if ?b then flushBuffer lm1 else lm1] =>
    set (lm2 := if b then flushBuffer lm1 else lm1) end.
  assert (stream_ok c p l hist lm2 ∧
    Z.of_nat (length (write_buffer lm2)) + (Z.of_nat LOG_RECORD_SIZE + data_length r) ≤ WRITE_BUFFER_SIZE)
    as [[(w & Hf & Hw) _] Hroom].
  { unfold lm2. destruct (Z.ltb_spec WRITE_BUFFER_SIZE
      (Z.of_nat (length (write_buffer lm)) + (Z.of_nat LOG_RECORD_SIZE + data_length r))); [|done].
    destruct (flushBuffer_stream _ _ _ _ _ Hs1) as [Hf Hz]. split; [done|]. rewrite Hz.
    pose proof (lw_length _ Hwf) as [_ Hl]. cbn in Hl. unfold WRITE_BUFFER_SIZE, LOG_RECORD_SIZE. simpl. lia. }
  constructor; cbn [log_file write_buffer set_log_stats set_write_buffer].
  - exists w. split; [done|]. by rewrite app_assoc, Hw.
  - rewrite length_app, length_serializeLogRecord. pose proof (length_payload _ Hwf) as Hp.
    cbn in Hp. unfold LOG_RECORD_SIZE in Hroom. lia.
Qed.

(** The bytes of a sequence of appends. *)
Fixpoint appended_bytes (rs : list (Z * LogRecord)) (lm : LogManager) : list Z :=
  match rs with
  | [] => []
  | (now, r) :: rs' =>
      serializeLogRecord (logged now r lm) ++ appended_bytes rs' (appendRecord now r lm).1
  end.

Fixpoint appended_wf (rs : list (Z * LogRecord)) (lm : LogManager) : Prop :=
  match rs with
  | [] => True
  | (now, r) :: rs' =>
      log_record_wf (logged now r lm) ∧ appended_wf rs' (appendRecord now r lm).1
  end.

Lemma append_all_stream rs c p l hist lm :
  stream_ok c p l hist lm → log_mode lm ≠ LogMode.NO_LOG → appended_wf rs lm →
  stream_ok c p l (hist ++ appended_bytes rs lm) (append_all rs lm).1.
Proof.
  revert hist lm. induction rs as [|[now r] rs IH]; intros hist lm Hs Hm Hwf;
    cbn [append_all appended_bytes appended_wf] in *; [by rewrite app_nil_r|].
  destruct Hwf as [Hwf Hrs]. destruct (appendRecord now r lm) as [lm1 lsn] eqn:Ha.
  destruct (appendRecord_stream _ _ _ _ _ _ _ _ _ Hs Hm Hwf Ha) as [Hs1 Hm1].
  specialize (IH (hist ++ serializeLogRecord (logged now r lm)) lm1 Hs1 ltac:(congruence) Hrs).
  destruct (append_all rs lm1) as [lm2 lsns]. cbn [fst] in *. by rewrite app_assoc.
Qed.

Lemma flushed rs lm c p linked :
  log_file lm = Some (mkLogFile c p linked) → (p ≤ length c)%nat → write_buffer lm = [] →
  log_mode lm ≠ LogMode.NO_LOG → appended_wf rs lm →
  let lm1 := (append_all rs lm).1 in
  Z.of_nat (length (write_buffer lm1)) ≤ WRITE_BUFFER_SIZE ∧
  write_buffer (flush lm1) = [] ∧ ∃ q,
  log_file (flush lm1) = Some (mkLogFile (overwrite c p (appended_bytes rs lm)) q linked).
Proof.
  intros Hf Hp Hw Hm Hwf lm1.
  assert (stream_ok c p linked [] lm) as Hs.
  { constructor; [|rewrite Hw; unfold WRITE_BUFFER_SIZE; simpl; lia].
    exists []. rewrite Hw, Hf, overwrite_nil by done. split; [|done].
    simpl. by rewrite Nat.add_0_r. }
  pose proof (append_all_stream rs _ _ _ _ _ Hs Hm Hwf) as Hs1. fold lm1 in Hs1.
  destruct (flushBuffer_stream _ _ _ _ _ Hs1) as [[(w & Hf2 & Hw2) _] Hz].
  split; [apply Hs1|]. split; [exact Hz|]. rewrite Hz, app_nil_r in Hw2. subst w.
  unfold flush. cbn [log_file set_log_stats]. rewrite Hf2. by eexists.
Qed.

(** (C32) Write-ahead: whatever is appended to a log whose stream is at position
    [p] of the bytes [c], the buffer stays within the 1 MB reserved for it, and
    after [flush] nothing is left in it and the file holds exactly the records
    appended, serialized in order from [p]. *)
Theorem flush_writes_all rs lm c p linked :
  log_file lm = Some (mkLogFile c p linked) → (p ≤ length c)%nat → write_buffer lm = [] →
  log_mode lm ≠ LogMode.NO_LOG → appended_wf rs lm →
  let lm1 := (append_all rs lm).1 in
  Z.of_nat (length (write_buffer lm1)) ≤ WRITE_BUFFER_SIZE ∧
  write_buffer (flush lm1) = [] ∧
  lf_bytes <$> log_file (flush lm1) = Some (overwrite c p (appended_bytes rs lm)).
Proof.
  intros Hf Hp Hw Hm Hwf lm1.
  destruct (flushed rs lm c p linked Hf Hp Hw Hm Hwf) as (H1 & H2 & q & H3).
  split; [exact H1|]. split; [exact H2|]. unfold lm1. by rewrite H3.
Qed.

Lemma flush_writes_all_witness :
  let lm := set_log_file (Some (mkLogFile [9; 9] 1 true)) LogManager_new in
  lf_bytes <$> log_file (flush (append_all [(0, plain LogRecordType.BEGIN 7)] lm).1) =
  Some (9 :: serializeLogRecord (mkLogRecord 1 LogRecordType.BEGIN 7 INVALID_PAGE_ID 0 0 None 0 0)).
Proof.
  intros lm. apply (flush_writes_all [(0, plain LogRecordType.BEGIN 7)] lm [9; 9] 1 true);
    [done|simpl; lia|done|done|]. split; [|done].
  constructor; cbn; unfold fits, fits_signed; try lia; try done.
Defined.

Lemma log_record_roundtrip_witness :
  deserializeLogRecord (serializeLogRecord
    (mkLogRecord 4 LogRecordType.INSERT 7 2 0 3 (Some [1; 2; 3]) 1500000000 1) ++ [0; 0]) =
  Some (mkLogRecord 4 LogRecordType.INSERT 7 2 0 3 (Some [1; 2; 3]) 1000000000 1, 53%nat).
Proof.
  apply (log_record_roundtrip
    (mkLogRecord 4 LogRecordType.INSERT 7 2 0 3 (Some [1; 2; 3]) 1500000000 1)).
  constructor; cbn; unfold fits, fits_signed; try lia; try done.
  by exists [1; 2; 3].
Defined.

(** ** After a restart *)

Lemma to_time_t_fits t : fits_signed 64 t → fits_signed 64 (to_time_t t).
Proof. unfold fits_signed, to_time_t. Z.to_euclidean_division_equations. lia. Qed.

Lemma plain_wf now t tx lm :
  fits 64 (current_lsn lm) → fits 64 tx → fits_signed 64 now → fits 32 (log_type_code t) →
  code_log_type (log_type_code t) = t → fits 64 (default 0 (last_tx_lsn lm !! tx)) →
  log_record_wf (logged now (plain t tx) lm).
Proof.
  intros. constructor; cbn [logged plain rec_lsn rec_type rec_tx rec_page rec_offset data_length
    rec_data timestamp prev_lsn]; try done; try (unfold fits, INVALID_PAGE_ID; lia).
  by apply to_time_t_fits.
Qed.

(** A transaction that begins and commits in a log without records. *)
Lemma pair_wf t1 t2 tx lm :
  current_lsn lm = 1 → last_tx_lsn lm = ∅ → fits 64 tx → fits_signed 64 t1 → fits_signed 64 t2 →
  appended_wf [(t1, plain LogRecordType.BEGIN tx); (t2, plain LogRecordType.COMMIT tx)] lm.
Proof.
  intros Hc Hl Htx Ht1 Ht2. cbn [appended_wf].
  destruct (appendRecord t1 (plain LogRecordType.BEGIN tx) lm) as [lm1 lsn] eqn:Ha.
  destruct (appendRecord_fields _ _ _ _ _ Ha) as (-> & Hc1 & _ & Hl1 & _).
  split; [|split; [|done]].
  - apply plain_wf; try done; rewrite ?Hc, ?Hl, ?lookup_empty; unfold fits; cbn; lia.
  - cbn [fst]. apply plain_wf; try done; rewrite ?Hc1, ?Hl1, ?Hc;
      [by apply wrap_fits|].
    cbn [rec_tx plain]. rewrite lookup_insert_eq. unfold fits. cbn. lia.
Qed.

Lemma append_pair_lsns t1 r1 t2 r2 lm :
  current_lsn lm = 1 → (append_all [(t1, r1); (t2, r2)] lm).2 = [1; 2].
Proof.
  intros Hc. cbn [append_all]. destruct (appendRecord t1 r1 lm) as [lm1 lsn1] eqn:H1.
  destruct (appendRecord_fields _ _ _ _ _ H1) as (-> & Hc1 & _).
  destruct (appendRecord t2 r2 lm1) as [lm2 lsn2] eqn:H2.
  destruct (appendRecord_fields _ _ _ _ _ H2) as (-> & _). cbn [snd]. by rewrite Hc1, Hc.
Qed.

Lemma scan_log_stop fuel c pos stream cur buf :
  (length c < pos + LOG_RECORD_SIZE)%nat →
  scan_log fuel c pos stream cur buf = Some (stream, cur, buf).
Proof. intros. destruct fuel; cbn [scan_log]; by rewrite decide_False by lia. Qed.

(** A committed transaction is lost by a restart: a transaction that
    begins and commits in a new log, flushed to disk, is not found when the log
    is opened again.  The stream of a new file starts at its first byte, so the
    records overwrite the header, and the reader steps through the file with
    the size of the structure in memory and not with the size that was written. *)
Theorem reopened_log_is_empty junk tx t1 t2 lm1 :
  length junk = 8%nat → fits 64 tx → fits_signed 64 t1 → fits_signed 64 t2 →
  init None true junk LogManager_new = Some (lm1, true) →
  let rs := [(t1, plain LogRecordType.BEGIN tx); (t2, plain LogRecordType.COMMIT tx)] in
  let lm2 := flush (append_all rs lm1).1 in
  (append_all rs lm1).2 = [1; 2] ∧
  ∃ lm3, init (on_disk lm2) true junk LogManager_new = Some (lm3, true) ∧
    log_buffer lm3 = ∅ ∧ current_lsn lm3 = 1.
Proof.
  intros Hj Htx Ht1 Ht2 Hi rs lm2. injection Hi as <-. split; [apply append_pair_lsns; reflexivity|].
  destruct (flushed rs (set_log_file (Some (mkLogFile (log_header_bytes 1 junk) 0 true)) LogManager_new)
    (log_header_bytes 1 junk) 0 true) as (_ & _ & q & Hf);
    [reflexivity|lia|reflexivity|discriminate|by apply pair_wf|].
  fold lm2 in Hf. unfold on_disk. rewrite Hf. cbn [mbind option_bind lf_linked lf_bytes].
  cbn [appended_bytes rs]. rewrite app_nil_r.
  set (c := overwrite _ _ _). assert (length c = 100%nat) as Hc.
  { unfold c. rewrite overwrite_length, length_app, !length_serializeLogRecord.
    unfold log_header_bytes. rewrite !length_app, !length_le_bytes, Hj. reflexivity. }
  unfold init. rewrite Hc. unfold LOG_HEADER_SIZE. rewrite decide_True by lia.
  rewrite scan_log_stop by (rewrite Hc; unfold LOG_RECORD_SIZE; lia).
  cbn [mbind option_bind]. eexists. split; [reflexivity|]. split; reflexivity.
Qed.

Lemma reopened_log_is_empty_witness :
  let lm1 := set_log_file (Some (mkLogFile (log_header_bytes 1 (replicate 8 0)) 0 true))
               LogManager_new in
  let rs := [(0, plain LogRecordType.BEGIN 7); (0, plain LogRecordType.COMMIT 7)] in
  ∃ lm3, init (on_disk (flush (append_all rs lm1).1)) true (replicate 8 0) LogManager_new =
    Some (lm3, true) ∧ log_buffer lm3 = ∅.
Proof.
  intros lm1 rs.
  destruct (reopened_log_is_empty (replicate 8 0) 7 0 0 lm1 eq_refl) as (_ & lm3 & H1 & H2 & _);
    [unfold fits; lia|unfold fits_signed; lia..|reflexivity|]. exists lm3. exact (conj H1 H2).
Defined.
