(* ===== verification/LogSync.v ===== *)
(** * LogSync: the synchronisation thread and the rotation of the log

    The parts of src/transaction/log_manager.cpp around the files of the log: the thread that
    flushes the buffer at intervals, as a step relation that interleaves it with the clients
    and with [stopSyncThread], and [writeToDisk] with [rotateLogFile], which nothing calls.
    [sync_thread_running_] is read and written atomically here. *)

From stdpp Require Import gmap list strings.
From S2P Require Import Prelude CxxString CxxStream Types Record Page FileManager LogManager LogProofs.

Open Scope Z_scope.

(** ** The thread *)

(** Where the loop is: before its test, asleep, or left; [NoThread] is not joinable. *)
Inductive sync_thread := NoThread | AtTest | Sleeping | Ended.

#[export] Instance sync_thread_eq_dec : EqDecision sync_thread.
Proof. solve_decision. Defined.

(** [joining] is set while a client is inside [stopSyncThread]. *)
Record SyncLog := mkSyncLog {
  sy_log : LogManager;
  sy_running : bool;
  sy_thread : sync_thread;
  joining : bool
}.

Definition SyncLog_new (lm : LogManager) : SyncLog := mkSyncLog lm false NoThread false.

(** Assigning over a thread that was not joined ends the program. *)
Definition startSyncThread (s : SyncLog) : option SyncLog :=
  if decide (log_mode (sy_log s) = LogMode.ASYNC) then
    if decide (sy_thread s = NoThread) then Some (mkSyncLog (sy_log s) true AtTest (joining s)) else None
  else Some s.

(** [syncLoop]: from one point of its loop to the next. *)
Definition syncLoop (s : SyncLog) : option SyncLog :=
  match sy_thread s with
  | AtTest => Some (mkSyncLog (sy_log s) (sy_running s) (if sy_running s then Sleeping else Ended) (joining s))
  | Sleeping => Some (mkSyncLog (flushAll (sy_log s)) (sy_running s) AtTest (joining s))
  | NoThread | Ended => None
  end.

(** [stopSyncThread] up to [join], and its return. *)
Definition stop_request (s : SyncLog) : SyncLog :=
  if decide (sy_thread s = NoThread) then s else mkSyncLog (sy_log s) false (sy_thread s) true.
Definition stop_return (s : SyncLog) : option SyncLog :=
  if decide (sy_thread s = Ended) then Some (mkSyncLog (sy_log s) (sy_running s) NoThread false) else None.

(** One step of the thread or of a client; a client that joins does nothing else. *)
Inductive sync_step : SyncLog → SyncLog → Prop :=
  | sync_turn s s' : syncLoop s = Some s' → sync_step s s'
  | sync_append s now r :
      joining s = false →
      sync_step s (mkSyncLog (appendRecord now r (sy_log s)).1 (sy_running s) (sy_thread s) false)
  | sync_stop s : joining s = false → sync_step s (stop_request s)
  | sync_return s s' : joining s = true → stop_return s = Some s' → sync_step s s'.

(** [shutdown] after [stopSyncThread] *)
Definition sync_shutdown (s : SyncLog) : LogManager := LogManager.shutdown (sy_log s).

(** ** Rotation *)

Definition log_filename : string := "data/wal/orangesql.log".

(** Every record is in the same file. *)
Definition getLogFileName (lsn : Z) : string := log_filename.

(** The name and the bytes of the file that is put aside, if the log has a name on disk, and
    the new log, which is positioned after its header; [junk] are the bytes of the header that
    are not initialized. *)
Definition rotateLogFile (can_open : bool) (junk : list Z) (lm : LogManager)
  : option (string * list Z) * LogManager * bool :=
  let new_name := log_filename +:+ "." +:+ to_string (current_lsn lm) in
  let aside := match log_file lm with
               | Some f => if lf_linked f then Some (new_name, lf_bytes f) else None
               | None => None
               end in
  if can_open then
    let header := log_header_bytes (current_lsn lm) junk in
    (aside, set_log_file (Some (mkLogFile header (length header) true)) lm, true)
  else (aside, set_log_file None lm, false).

(** [tellp] of a stream that is not open is -1, the greatest [size_t]; a write to it is lost. *)
Definition log_writeToDisk (max_log_size : Z) (can_open : bool) (junk : list Z) (record : LogRecord) (lm : LogManager)
  : option (string * list Z) * LogManager :=
  let lm := set_log_file ((λ f, mkLogFile (lf_bytes f) (length (lf_bytes f)) (lf_linked f)) <$> log_file lm) lm in
  let file_size := match log_file lm with Some f => Z.of_nat (lf_pos f) | None => wrap 64 (-1) end in
  let '(aside, lm) :=
    if max_log_size <? file_size then (rotateLogFile can_open junk lm).1 else (None, lm) in
  let bytes := serializeLogRecord record in
  (aside, set_log_file ((λ f, mkLogFile (overwrite (lf_bytes f) (lf_pos f) bytes)
            (lf_pos f + length bytes) (lf_linked f)) <$> log_file lm) lm).

(** ** What is proved *)

(** Without [ASYNC] no thread is started, and once there is none there never is. *)
Lemma no_thread s s' : sync_step s s' → sy_thread s = NoThread → joining s = false → sy_thread s' = NoThread ∧ joining s' = false.
Proof.
  intros [? ? Hl|? ? ? ?|? ?|? ? Hj] Hn Hf; [unfold syncLoop in Hl; by rewrite Hn in Hl|done| |congruence].
  unfold stop_request. by rewrite Hn, decide_True.
Qed.

(** The mode when the log is opened is the one of the constructor, [NORMAL]: setting [ASYNC]
    afterwards starts no thread. *)
Theorem sync_thread_needs_early_mode s s' :
  log_mode (sy_log s) ≠ LogMode.ASYNC → sy_thread s = NoThread → joining s = false →
  startSyncThread s = Some s ∧ (rtc sync_step s s' → sy_thread s' = NoThread).
Proof.
  intros Hm Hn Hj. unfold startSyncThread. rewrite decide_False by done. split; [done|].
  intros Hsteps. clear Hm. induction Hsteps as [|s1 s2 s3 Hstep _ IH]; [done|].
  destruct (no_thread _ _ Hstep Hn Hj) as [Hn' Hj']. by apply IH.
Qed.

(** How many turns the thread makes once it was asked to stop. *)
Definition turns_left (t : sync_thread) : nat :=
  match t with Sleeping => 2 | AtTest => 1 | Ended | NoThread => 0 end.

Lemma stop_turn s s' :
  sy_running s = false → syncLoop s = Some s' →
  sy_running s' = false ∧ joining s' = joining s ∧ turns_left (sy_thread s) = S (turns_left (sy_thread s')).
Proof. unfold syncLoop. intros Hr Hl. destruct (sy_thread s); simplify_eq/=; by rewrite ?Hr. Qed.

(** Stopping ends: after the request the thread makes at most two turns, after which
    [stopSyncThread] returns; while it waits nothing but a turn or the return is possible. *)
Theorem stop_terminates s :
  sy_thread s ≠ NoThread → joining s = false →
  ∃ n s1 s2, (n ≤ 2)%nat ∧ relations.nsteps (λ a b, syncLoop a = Some b) n (stop_request s) s1 ∧
    stop_return s1 = Some s2 ∧ sy_thread s2 = NoThread ∧ joining s2 = false ∧
    rtc sync_step s s2.
Proof.
  intros Ht Hj. set (s0 := stop_request s).
  assert (s0 = mkSyncLog (sy_log s) false (sy_thread s) true) as Hs0 by (unfold s0, stop_request; by rewrite decide_False).
  assert (∀ k a, turns_left (sy_thread a) = k → sy_running a = false → joining a = true → sy_thread a ≠ NoThread →
    ∃ b, relations.nsteps (λ a b, syncLoop a = Some b) k a b ∧ sy_thread b = Ended ∧ joining b = true ∧ rtc sync_step a b) as Hrun.
  { induction k as [|k IH]; intros a Hk Hr Hja Hta.
    - exists a. split; [constructor|]. destruct (sy_thread a) eqn:Hd; try done.
    - assert (∃ a', syncLoop a = Some a' ∧ sy_thread a' ≠ NoThread) as (a' & Hl & Hta').
      { unfold syncLoop. destruct (sy_thread a) eqn:Hd; try done; eexists; (split; [done|]); cbn; by rewrite ?Hr. }
      destruct (stop_turn a a' Hr Hl) as (Hr' & Hj' & Hk').
      destruct (IH a') as (b & Hb & He & Hjb & Hsteps); [lia|done|congruence|done|].
      exists b. split; [by econstructor|]. split; [done|]. split; [done|].
      eapply rtc_l; [by apply sync_turn|done]. }
  destruct (Hrun (turns_left (sy_thread s0)) s0) as (s1 & Hn & He & Hj1 & Hsteps); [done|by rewrite Hs0..|].
  exists (turns_left (sy_thread s0)), s1, (mkSyncLog (sy_log s1) (sy_running s1) NoThread false).
  assert (stop_return s1 = Some (mkSyncLog (sy_log s1) (sy_running s1) NoThread false)) as Hret
    by (unfold stop_return; by rewrite decide_True).
  split; [destruct (sy_thread s0); cbn; lia|]. split; [done|]. split; [done|]. split; [done|]. split; [done|].
  eapply rtc_l; [by apply sync_stop|]. eapply rtc_r; [exact Hsteps|]. by apply sync_return.
Qed.

(** A run of the log with the records that were appended in it. *)
Inductive sync_run : SyncLog → list Z → SyncLog → Prop :=
  | run_nil s : sync_run s [] s
  | run_append s hist s' now r :
      sync_run s hist s' → joining s' = false → log_record_wf (logged now r (sy_log s')) →
      sync_run s (hist ++ serializeLogRecord (logged now r (sy_log s')))
        (mkSyncLog (appendRecord now r (sy_log s')).1 (sy_running s') (sy_thread s') false)
  | run_other s hist s' s'' :
      sync_run s hist s' →
      syncLoop s' = Some s'' ∨ s'' = stop_request s' ∨ stop_return s' = Some s'' → sync_run s hist s''.

Lemma sync_run_stream c p linked hist0 s hist s' :
  stream_ok c p linked hist0 (sy_log s) → log_mode (sy_log s) ≠ LogMode.NO_LOG → sync_run s hist s' →
  stream_ok c p linked (hist0 ++ hist) (sy_log s') ∧ log_mode (sy_log s') = log_mode (sy_log s).
Proof.
  intros Hs Hm Hrun. induction Hrun as [s|s hist s' now r _ IH _ Hwf|s hist s' s'' _ IH Hstep].
  - by rewrite app_nil_r.
  - destruct (IH Hs Hm) as [Hs' Hm']. destruct (appendRecord now r (sy_log s')) as [lm' lsn] eqn:Ha.
    destruct (appendRecord_stream _ _ _ _ _ _ _ _ _ Hs' ltac:(congruence) Hwf Ha) as [Hs2 Hm2].
    cbn [sy_log fst]. rewrite app_assoc. split; [done|congruence].
  - destruct (IH Hs Hm) as [Hs' Hm']. destruct Hstep as [Hl|[->|Hr]].
    + unfold syncLoop in Hl. destruct (sy_thread s'); simplify_eq/=; [done|].
      destruct (flushBuffer_stream _ _ _ _ _ Hs') as [Hf _]. split.
      * destruct Hf. by constructor.
      * rewrite <- Hm'. unfold flushAll, flush, flushBuffer. by case_decide.
    + unfold stop_request. by case_decide.
    + unfold stop_return in Hr. case_decide; by simplify_eq.
Qed.

(** (C25) The log with its synchronisation thread: however the turns of the thread, the
    appends of the clients and the stopping of the thread interleave, the file that is left
    when the log is shut down holds exactly the appended records, in the order of the
    appends, from where the stream was; every turn of the thread leaves the buffer empty. *)
Theorem sync_log_complete c p linked s hist s' :
  log_file (sy_log s) = Some (mkLogFile c p linked) → (p ≤ length c)%nat → write_buffer (sy_log s) = [] →
  log_mode (sy_log s) ≠ LogMode.NO_LOG → sync_run s hist s' →
  lf_bytes <$> log_file (flushAll (sy_log s')) = Some (overwrite c p hist) ∧
  (∀ s'', sy_thread s' = Sleeping → syncLoop s' = Some s'' →
     write_buffer (sy_log s'') = [] ∧ lf_bytes <$> log_file (sy_log s'') = Some (overwrite c p hist)).
Proof.
  intros Hf Hp Hw Hm Hrun.
  assert (stream_ok c p linked [] (sy_log s)) as Hs.
  { constructor; [|rewrite Hw; unfold WRITE_BUFFER_SIZE; simpl; lia].
    exists []. rewrite Hw, Hf, overwrite_nil by done. split; [|done]. simpl. by rewrite Nat.add_0_r. }
  destruct (sync_run_stream c p linked [] s hist s' Hs Hm Hrun) as [Hs' _]. cbn [app] in Hs'.
  destruct (flushBuffer_stream _ _ _ _ _ Hs') as [[(w & Hf2 & Hw2) _] Hz].
  rewrite Hz, app_nil_r in Hw2. subst w.
  assert (lf_bytes <$> log_file (flushAll (sy_log s')) = Some (overwrite c p hist)) as Hend
    by (unfold flushAll, flush; cbn [log_file set_log_stats]; by rewrite Hf2).
  split; [done|]. intros s'' Ht Hl. unfold syncLoop in Hl. rewrite Ht in Hl. simplify_eq/=. by split.
Qed.

(** ** Rotation *)

Lemma after_last_dot_none s : no_char "." s = true → after_last_dot s = None.
Proof.
  induction s as [|c s IH]; [done|]. cbn [no_char after_last_dot]. intros [Hc Hs]%andb_true_iff.
  rewrite IH by done. apply negb_true_iff, bool_decide_eq_false in Hc. by rewrite decide_False.
Qed.

Lemma after_last_dot_app a s : no_char "." s = true → after_last_dot (a +:+ String "." s) = Some s.
Proof.
  intros Hs. induction a as [|c a IH].
  - change ("" +:+ String "." s) with (String "." s). cbn [after_last_dot].
    by rewrite after_last_dot_none.
  - change (String c a +:+ String "." s) with (String c (a +:+ String "." s)). cbn [after_last_dot]. by rewrite IH.
Qed.

(** A rotated log keeps its bytes under a name from which [parseLSN] reads the LSN at the
    time, and the new log has nothing but its header. *)
Theorem rotate_spec junk lm f :
  log_file lm = Some f → lf_linked f = true → fits 64 (current_lsn lm) →
  ∃ name lm', rotateLogFile true junk lm = (Some (name, lf_bytes f), lm', true) ∧
    parseLSN name = Some (current_lsn lm) ∧
    on_disk lm' = Some (log_header_bytes (current_lsn lm) junk) ∧ current_lsn lm' = current_lsn lm.
Proof.
  intros Hf Hl Hlsn. eexists _, _. unfold rotateLogFile. rewrite Hf, Hl. split; [done|]. split; [|done].
  unfold parseLSN. change ("." +:+ to_string (current_lsn lm)) with (String "." (to_string (current_lsn lm))).
  rewrite after_last_dot_app by (by apply no_char_to_string). by apply stoull_to_string.
Qed.

(** A write within the limit adds the record at the end of the file. *)
Theorem writeToDisk_appends max junk record lm f :
  log_file lm = Some f → Z.of_nat (length (lf_bytes f)) ≤ max →
  ∃ lm', log_writeToDisk max true junk record lm = (None, lm') ∧
    lf_bytes <$> log_file lm' = Some (lf_bytes f ++ serializeLogRecord record).
Proof.
  intros Hf Hmax. unfold log_writeToDisk. rewrite Hf. cbn [fmap option_fmap option_map log_file set_log_file lf_pos lf_bytes].
  rewrite (proj2 (Z.ltb_ge _ _)) by done. eexists. split; [done|].
  cbn [fmap option_fmap option_map log_file set_log_file lf_bytes lf_pos]. f_equal.
  unfold overwrite. rewrite Nat.sub_diag. cbn [replicate]. rewrite app_nil_r, firstn_all.
  by rewrite drop_ge, app_nil_r by lia.
Qed.

(** A log that is not open is taken to be as long as possible: the first write to it rotates. *)
Theorem writeToDisk_reopens max junk record lm :
  log_file lm = None → max < 2 ^ 64 - 1 →
  lf_bytes <$> log_file (log_writeToDisk max true junk record lm).2 =
    Some (log_header_bytes (current_lsn lm) junk ++ serializeLogRecord record).
Proof.
  intros Hf Hmax. unfold log_writeToDisk. rewrite Hf. cbn [fmap option_fmap option_map log_file set_log_file].
  change (wrap 64 (-1)) with (2 ^ 64 - 1). rewrite (proj2 (Z.ltb_lt _ _)) by done.
  cbn [rotateLogFile fst snd]. unfold rotateLogFile. cbn [fst snd fmap option_fmap option_map log_file set_log_file lf_bytes lf_pos].
  f_equal. unfold overwrite. rewrite Nat.sub_diag. cbn [replicate]. rewrite app_nil_r, firstn_all.
  by rewrite drop_ge, app_nil_r by lia.
Qed.

(** ** Examples *)

Lemma sync_log_complete_witness :
  let lm := setLogMode LogMode.ASYNC (set_log_file (Some (mkLogFile [9; 9] 2 true)) LogManager_new) in
  let s := mkSyncLog lm true Sleeping false in
  let r := plain LogRecordType.BEGIN 7 in
  let s1 := mkSyncLog (appendRecord 0 r lm).1 true Sleeping false in
  lf_bytes <$> log_file (flushAll (sy_log (stop_request s1))) =
    Some (9 :: 9 :: serializeLogRecord (mkLogRecord 1 LogRecordType.BEGIN 7 INVALID_PAGE_ID 0 0 None 0 0)).
Proof.
  intros lm s r s1.
  apply (sync_log_complete [9; 9] 2 true s ([] ++ serializeLogRecord (logged 0 r lm)) (stop_request s1)); try done.
  eapply run_other; [|right; left; reflexivity]. apply (run_append s [] s 0 r); [constructor|done|].
  constructor; cbn; unfold fits, fits_signed; try lia; try done.
Defined.
