(* ===== verification/WAL.v ===== *)
(** * WAL: the changes of records in the log (src/transaction/wal.h, wal.cpp)

    The manager turns the changes of a page into log records through the
    interface of the log manager, and keeps the pages whose log is on disk. *)

From stdpp Require Import gmap strings.
From S2P Require Import Prelude CxxString Types Record Page PageProofs FileManager LogManager LogProofs.

Open Scope Z_scope.

Record WALManager := mkWALManager { log_manager : LogManager; durable_pages : gmap Z Z }.

Definition WALManager_new (lm : LogManager) : WALManager := mkWALManager lm ∅.

(** ** Records *)

(** [total_size] *)
Definition wal_size (record : list Value) : nat :=
  foldl (λ size v, (size + 1 + payload_size v)%nat) 2%nat record.

(** The buffer has [total_size] bytes, zero where nothing is written. *)
Definition wal_serialize (record : list Value) : list Z :=
  let written := le_bytes 2 (wrap 16 (Z.of_nat (length record)))
                 ++ concat (map serializeValue record) in
  written ++ replicate (wal_size record - length written) 0.

(** One field at [pos]: the value and the next position.  A payload that does not
    fit before the end is not read. *)
Definition wal_field (buf : list Z) (pos : nat) (type_byte : Z) : Value * nat :=
  let val := set_type (code_type type_byte) Value_null in
  match vtype val with
  | DataType.INTEGER =>
      match read_le buf pos 4 with Some z => (set_data 32 z val, pos + 4)%nat | None => (val, pos) end
  | DataType.BIGINT =>
      match read_le buf pos 8 with Some z => (set_data 64 z val, pos + 8)%nat | None => (val, pos) end
  | DataType.BOOLEAN =>
      match read_le buf pos 1 with Some z => (set_data 8 z val, pos + 1)%nat | None => (val, pos) end
  | DataType.VARCHAR =>
      match read_le buf pos 4 with
      | None => (val, pos)
      | Some len =>
          match read_bytes buf (pos + 4) (Z.to_nat len) with
          | Some bs => (set_str (bytes_string bs) val, (pos + 4 + Z.to_nat len)%nat)
          | None => (val, pos + 4)%nat
          end
      end
  | _ => (val, pos)
  end.

Fixpoint wal_fields (count : nat) (buf : list Z) (pos : nat) : list Value :=
  match count with
  | O => []
  | S count' =>
      match read_le buf pos 1 with
      | None => []
      | Some t => let '(v, pos') := wal_field buf (pos + 1) t in v :: wal_fields count' buf pos'
      end
  end.

Definition wal_deserialize (buf : list Z) : list Value :=
  match read_le buf 0 2 with
  | None => []
  | Some count => wal_fields (Z.to_nat count) buf 2
  end.

(** ** Logging *)

Definition insert_data (record : list Value) (rid : Z) : list Z :=
  le_bytes 8 rid ++ wal_serialize record.

Definition update_data (old_record new_record : list Value) (rid : Z) : list Z :=
  let old_data := wal_serialize old_record in
  let new_data := wal_serialize new_record in
  le_bytes 8 rid ++ le_bytes 8 (Z.of_nat (length old_data)) ++ old_data
  ++ le_bytes 8 (Z.of_nat (length new_data)) ++ new_data.

Definition wal_append (now : Z) (type : LogRecordType) (tx page : Z) (bs : list Z) (w : WALManager)
  : WALManager * Z :=
  let '(lm, lsn) := appendLogRecord now type tx page (Some bs) (log_manager w) in
  (mkWALManager lm (durable_pages w), lsn).

Definition logInsert (now tx page : Z) (record : list Value) (rid : Z) (w : WALManager)
  : WALManager * Z :=
  wal_append now LogRecordType.INSERT tx page (insert_data record rid) w.

Definition logUpdate (now tx page : Z) (old_record new_record : list Value) (rid : Z)
    (w : WALManager) : WALManager * Z :=
  wal_append now LogRecordType.UPDATE tx page (update_data old_record new_record rid) w.

Definition logDelete (now tx page : Z) (record : list Value) (rid : Z) (w : WALManager)
  : WALManager * Z :=
  wal_append now LogRecordType.DELETE tx page (insert_data record rid) w.

(** ** Durability *)

Definition beforePageWrite (page lsn : Z) (w : WALManager) : WALManager :=
  mkWALManager (flush (log_manager w)) (<[page := lsn]> (durable_pages w)).

Definition isPageDurable (page : Z) (w : WALManager) : bool :=
  bool_decide (is_Some (durable_pages w !! page)).

Definition wal_flush (w : WALManager) : WALManager :=
  mkWALManager (flush (log_manager w)) (durable_pages w).
Definition wal_flushAll : WALManager → WALManager := wal_flush.

Definition wal_recover (w : WALManager) : WALManager * StatusCode :=
  let '(lm, s) := recover (log_manager w) in (mkWALManager lm (durable_pages w), s).

(** ** Round trip of records *)

Lemma wal_size_acc record n :
  foldl (λ size v, (size + 1 + payload_size v)%nat) n record =
  (n + length record + total_payload record)%nat.
Proof.
  revert n. induction record as [|v record IH]; intros n; simpl; [lia|]. rewrite IH. lia.
Qed.

Lemma length_serialized record :
  Forall short_value record →
  length (concat (map serializeValue record)) = (length record + total_payload record)%nat.
Proof.
  induction 1 as [|v record Hv Hr IH]; [done|]. cbn [map concat length total_payload].
  rewrite length_app, length_serializeValue, value_payload_length, IH by apply Hv. lia.
Qed.

(** With strings shorter than 2^32 there is no padding. *)
Lemma wal_serialize_eq record :
  Forall short_value record →
  wal_serialize record =
  le_bytes 2 (wrap 16 (Z.of_nat (length record))) ++ concat (map serializeValue record).
Proof.
  intros Hr. unfold wal_serialize. rewrite length_app, length_le_bytes, length_serialized by done.
  unfold wal_size. rewrite wal_size_acc.
  replace (_ - _)%nat with 0%nat by lia. apply app_nil_r.
Qed.

Lemma wal_field_app pre v rest :
  short_value v →
  wal_field (pre ++ value_payload v ++ rest) (length pre) (type_code (vtype v)) =
  (stored v, (length pre + payload_size v)%nat).
Proof.
  intros [Ht Hs]. unfold wal_field. rewrite code_type_code by done. cbn [vtype set_type].
  unfold stored, payload_size. destruct v as [t d s b]; cbn [vtype str_val Types.data] in *.
  destruct t; try (by rewrite Nat.add_0_r);
    try (change (value_payload (mkValue _ d s b)) with (le_bytes 4 d); rewrite read_le_app;
         rewrite set_data_fresh, wrap_idemp by lia; done);
    try (change (value_payload (mkValue _ d s b)) with (le_bytes 8 d); rewrite read_le_app;
         rewrite set_data_fresh, wrap_idemp by lia; done);
    try (change (value_payload (mkValue _ d s b)) with (le_bytes 1 d); rewrite read_le_app;
         rewrite set_data_fresh, wrap_idemp by lia; done).
  change (value_payload (mkValue DataType.VARCHAR d s b)) with (value_payload (Value_string s)).
  pose proof (read_varchar_app pre s rest (Hs eq_refl)) as Hv. unfold read_varchar in Hv.
  unfold read_le. destruct (read_bytes _ (length pre) 4) as [lb|]; [|done]. cbn [mbind option_bind] in Hv.
  apply bind_Some in Hv as (sb & Hsb & [= Hstr Hlen]). cbn [fmap option_fmap option_map].
  rewrite Hsb, Hstr, Hlen. f_equal. lia.
Qed.

Lemma wal_fields_app record : ∀ pre rest,
  Forall short_value record →
  wal_fields (length record) (pre ++ concat (map serializeValue record) ++ rest) (length pre) =
  map stored record.
Proof.
  induction record as [|v record IH]; intros pre rest Hr; [done|].
  apply Forall_cons in Hr as [Hv Hr]. cbn [length wal_fields map concat].
  change (serializeValue v) with (le_bytes 1 (type_code (vtype v)) ++ value_payload v).
  rewrite <- !app_assoc, deserializeValue_type by apply Hv.
  assert (length (pre ++ le_bytes 1 (type_code (vtype v))) = length pre + 1)%nat as Hl
    by by rewrite length_app, length_le_bytes.
  rewrite app_assoc, <- Hl, wal_field_app by done. f_equal.
  specialize (IH ((pre ++ le_bytes 1 (type_code (vtype v))) ++ value_payload v) rest Hr).
  rewrite length_app, value_payload_length in IH by apply Hv.
  rewrite <- (app_assoc _ (value_payload v)) in IH. exact IH.
Qed.

Lemma wal_reload record rest :
  Forall short_value record → Z.of_nat (length record) < 2 ^ 16 →
  wal_deserialize (wal_serialize record ++ rest) = map stored record.
Proof.
  intros Hr Hl. rewrite wal_serialize_eq by done. unfold wal_deserialize.
  rewrite <- app_assoc, read_le_head. change (8 * Z.of_nat 2) with 16.
  rewrite !(wrap_small 16 (Z.of_nat (length record))) by (unfold fits; lia).
  rewrite Nat2Z.id. apply (wal_fields_app record (le_bytes 2 _) rest Hr).
Qed.

Lemma appendLogRecord_data now type tx page bs lm :
  bs ≠ [] →
  appendLogRecord now type tx page (Some bs) lm =
  appendRecord now (mkLogRecord 0 type tx page 0 (wrap 16 (Z.of_nat (length bs))) (Some bs) 0 0) lm.
Proof. intros Hbs. destruct bs; [congruence|reflexivity]. Qed.

(** A logged insertion can be read back: its log record holds the
    transaction, the page and the record id and, after it, bytes from which the stored
    values are read back.  This holds when the data is less than 64 KB, the
    range of [data_length]. *)
Theorem logged_record_readable now tx page record rid w w' lsn :
  Forall short_value record → Z.of_nat (length record) < 2 ^ 16 → fits 64 rid →
  Z.of_nat (length (insert_data record rid)) < 2 ^ 16 →
  logInsert now tx page record rid w = (w', lsn) →
  ∃ r bs, log_buffer (log_manager w') !! lsn = Some r ∧ rec_type r = LogRecordType.INSERT ∧
    rec_tx r = tx ∧ rec_page r = page ∧
    rec_data r = Some bs ∧ data_length r = Z.of_nat (length bs) ∧
    read_le bs 0 8 = Some rid ∧ wal_deserialize (drop 8 bs) = map stored record.
Proof.
  intros Hr Hc Hrid Hlen Hi. unfold logInsert, wal_append in Hi.
  set (bs := insert_data record rid) in *.
  rewrite appendLogRecord_data in Hi by discriminate.
  destruct (appendRecord _ _ _) as [lm1 lsn1] eqn:Ha. simplify_eq.
  destruct (appendRecord_fields _ _ _ _ _ Ha) as (-> & _ & Hb & _ & _). cbn [log_manager].
  eexists _, bs. rewrite Hb, lookup_insert_eq. split; [done|].
  cbn [logged rec_type rec_tx rec_page rec_data data_length].
  split_and!; try done.
  - apply wrap_small. unfold fits. lia.
  - unfold bs, insert_data. rewrite read_le_head. f_equal. by apply wrap_small.
  - unfold bs, insert_data. rewrite drop_app_length' by (by rewrite length_le_bytes).
    rewrite <- (app_nil_r (wal_serialize record)). by apply wal_reload.
Qed.

Lemma logged_record_readable_witness :
  ∃ r bs, log_buffer (log_manager (logInsert 0 7 2 [Value_int 5; Value_string "ab"] 9
      (WALManager_new LogManager_new)).1) !! 1 = Some r ∧ rec_data r = Some bs ∧
    wal_deserialize (drop 8 bs) = [Value_int 5; Value_string "ab"].
Proof.
  destruct (logged_record_readable 0 7 2 [Value_int 5; Value_string "ab"] 9
    (WALManager_new LogManager_new)
    (logInsert 0 7 2 [Value_int 5; Value_string "ab"] 9 (WALManager_new LogManager_new)).1 1)
    as (r & bs & H1 & _ & _ & _ & H2 & _ & _ & H3).
  - repeat constructor; done.
  - done.
  - unfold fits. lia.
  - done.
  - reflexivity.
  - exists r, bs. done.
Defined.
