(* ===== verification/BTreeNode.v ===== *)
(** * BTreeNode: nodes of the B-tree (src/index/btree_node.h, btree_node.cpp)

    The arrays have the fixed lengths of the source; an access outside them is
    undefined and the operation is [None].  The template is generic in its keys:
    [Key] is what it uses of the type, with the laws of a total order.  [compact] and
    [dump] are in [BTreeWalks]. *)

From stdpp Require Import list.
From S2P Require Import Prelude CxxString Types Page.

Open Scope Z_scope.

(** ** Keys *)

(** The comparison operators, [K()] and the object representation. *)
Class Key (K : Type) := {
  kcmp : K → K → comparison;
  kdefault : K;
  ksize : nat;
  kencode : K → list Z;
  kdecode : list Z → K;
  kok : K → Prop
}.

Class KeyLaws (K : Type) `{Key K} := {
  kcmp_eq a b : kcmp a b = Eq ↔ a = b;
  kcmp_antisym a b : kcmp b a = CompOpp (kcmp a b);
  kcmp_trans a b c : kcmp a b = Lt → kcmp b c = Lt → kcmp a c = Lt;
  kencode_length a : length (kencode a) = ksize;
  kdecode_encode a : kok a → kdecode (kencode a) = a
}.

Definition klt `{Key K} (a b : K) : Prop := kcmp a b = Lt.
Definition key_eqb `{Key K} (a b : K) : bool := match kcmp a b with Eq => true | _ => false end.
Definition key_ltb `{Key K} (a b : K) : bool := match kcmp a b with Lt => true | _ => false end.

(** [int32_t] and [int64_t] *)
Definition int_key (bytes : nat) : Key Z := {|
  kcmp := Z.compare;
  kdefault := 0;
  ksize := bytes;
  kencode z := le_bytes bytes z;
  kdecode bs := to_signed (8 * Z.of_nat bytes) (le_value bs);
  kok z := fits_signed (8 * Z.of_nat bytes) z
|}.

#[export] Instance int_key_laws bytes : (0 < bytes)%nat → @KeyLaws Z (int_key bytes).
Proof.
  intros Hb. constructor; cbn.
  - apply Z.compare_eq_iff.
  - apply Z.compare_antisym.
  - intros a b c. rewrite !Z.compare_lt_iff. lia.
  - intros a. apply length_le_bytes.
  - intros a Ha. rewrite le_value_bytes. apply to_signed_wrap; [lia|done].
Qed.

(** ** Data *)

Module BTreeNodeType.
Inductive BTreeNodeType := LEAF | INTERNAL | ROOT | OTHER (code : Z).

#[export] Instance BTreeNodeType_eq_dec : EqDecision BTreeNodeType.
Proof. solve_decision. Defined.
End BTreeNodeType.
Export (hints) BTreeNodeType.
Abbreviation BTreeNodeType := BTreeNodeType.BTreeNodeType.

Definition node_type_code (t : BTreeNodeType) : Z :=
  match t with
  | BTreeNodeType.LEAF => 0 | BTreeNodeType.INTERNAL => 1 | BTreeNodeType.ROOT => 2
  | BTreeNodeType.OTHER z => z
  end.
Definition code_node_type (z : Z) : BTreeNodeType :=
  match z with
  | 0 => BTreeNodeType.LEAF | 1 => BTreeNodeType.INTERNAL | 2 => BTreeNodeType.ROOT
  | _ => BTreeNodeType.OTHER z
  end.

(** The counters are [uint16_t]; the operations keep them in the range of the
    arrays. *)
Record BTreeNodeHeader := mkNodeHeader {
  ntype : BTreeNodeType;
  key_count : nat;
  child_count : nat;
  parent_id : Z;
  next_id : Z;
  prev_id : Z;
  level : Z
}.

(** [uint16_t] subtraction *)
Definition sub16 (a b : nat) : nat := Z.to_nat (wrap 16 (Z.of_nat a - Z.of_nat b)).

Definition ORDER : nat := 128.
Definition MAX_KEYS : nat := ORDER - 1.
Definition MIN_KEYS : nat := Nat.div ORDER 2 - 1.

Section Node.
Context {K : Type} `{Key K}.

Record BTreeNode := mkNode {
  node_id : Z;
  nheader : BTreeNodeHeader;
  keys : list K;
  values : list Z;
  children : list Z;
  ndirty : bool
}.

Definition BTreeNode_new (page_id : Z) (t : BTreeNodeType) : BTreeNode :=
  mkNode page_id (mkNodeHeader t 0 0 INVALID_PAGE_ID INVALID_PAGE_ID INVALID_PAGE_ID 0)
    (replicate MAX_KEYS kdefault) (replicate MAX_KEYS 0) (replicate ORDER INVALID_PAGE_ID) false.

Definition isLeaf (n : BTreeNode) : bool := bool_decide (ntype (nheader n) = BTreeNodeType.LEAF).
Definition isRoot (n : BTreeNode) : bool := bool_decide (ntype (nheader n) = BTreeNodeType.ROOT).
Definition isFull (n : BTreeNode) : bool := bool_decide (MAX_KEYS ≤ key_count (nheader n))%nat.
Definition isUnderflow (n : BTreeNode) : bool := bool_decide (key_count (nheader n) < MIN_KEYS)%nat.

Definition set_counts (kc cc : nat) (h : BTreeNodeHeader) : BTreeNodeHeader :=
  mkNodeHeader (ntype h) kc cc (parent_id h) (next_id h) (prev_id h) (level h).
Definition set_node_links (p nx pv lv : Z) (h : BTreeNodeHeader) : BTreeNodeHeader :=
  mkNodeHeader (ntype h) (key_count h) (child_count h) p nx pv lv.

Definition setNodeType (t : BTreeNodeType) (n : BTreeNode) : BTreeNode :=
  let h := nheader n in
  mkNode (node_id n) (mkNodeHeader t (key_count h) (child_count h) (parent_id h) (next_id h)
                        (prev_id h) (level h)) (keys n) (values n) (children n) true.
Definition setParentId (pid : Z) (n : BTreeNode) : BTreeNode :=
  let h := nheader n in
  mkNode (node_id n) (set_node_links pid (next_id h) (prev_id h) (level h) h)
    (keys n) (values n) (children n) true.
Definition setNextId (pid : Z) (n : BTreeNode) : BTreeNode :=
  let h := nheader n in
  mkNode (node_id n) (set_node_links (parent_id h) pid (prev_id h) (level h) h)
    (keys n) (values n) (children n) true.
Definition setPrevId (pid : Z) (n : BTreeNode) : BTreeNode :=
  let h := nheader n in
  mkNode (node_id n) (set_node_links (parent_id h) (next_id h) pid (level h) h)
    (keys n) (values n) (children n) true.
Definition setLevel (lv : Z) (n : BTreeNode) : BTreeNode :=
  let h := nheader n in
  mkNode (node_id n) (set_node_links (parent_id h) (next_id h) (prev_id h) lv h)
    (keys n) (values n) (children n) true.

(** ** Element access *)

(** Writing an element of an array. *)
Definition arr_set {A} (a : list A) (i : nat) (x : A) : option (list A) :=
  if decide (i < length a)%nat then Some (<[i := x]> a) else None.

(** [None] is the exception. *)
Definition getKey (n : BTreeNode) (index : nat) : option K :=
  if decide (key_count (nheader n) ≤ index)%nat then None else keys n !! index.

Definition setKey (index : nat) (k : K) (n : BTreeNode) : BTreeNode :=
  if decide (MAX_KEYS ≤ index)%nat then n
  else
    let h := nheader n in
    mkNode (node_id n)
      (if decide (key_count h ≤ index)%nat then set_counts (index + 1) (child_count h) h else h)
      (<[index := k]> (keys n)) (values n) (children n) true.

Definition getValue (n : BTreeNode) (index : nat) : option Z :=
  if negb (isLeaf n) || bool_decide (key_count (nheader n) ≤ index)%nat then None
  else values n !! index.

Definition setValue (index : nat) (v : Z) (n : BTreeNode) : BTreeNode :=
  if negb (isLeaf n) || bool_decide (MAX_KEYS ≤ index)%nat then n
  else mkNode (node_id n) (nheader n) (keys n) (<[index := v]> (values n)) (children n) true.

Definition getChild (n : BTreeNode) (index : nat) : Z :=
  if isLeaf n || bool_decide (child_count (nheader n) ≤ index)%nat then INVALID_PAGE_ID
  else default INVALID_PAGE_ID (children n !! index).

Definition setChild (index : nat) (child : Z) (n : BTreeNode) : BTreeNode :=
  if isLeaf n || bool_decide (ORDER ≤ index)%nat then n
  else
    let h := nheader n in
    mkNode (node_id n)
      (if decide (child_count h ≤ index)%nat then set_counts (key_count h) (index + 1) h else h)
      (keys n) (values n) (<[index := child]> (children n)) true.

(** ** Shifts *)

(** [for (int i = n; i > start; i--) a[i] = a[i - 1];] *)
Fixpoint shift_right {A} (start : nat) (a : list A) (i : nat) : option (list A) :=
  match i with
  | O => Some a
  | S i' =>
      if decide (start ≤ i')%nat then
        x ← a !! i'; a' ← arr_set a i x; shift_right start a' i'
      else Some a
  end.

(** [steps] turns of [a[i] = a[i + 1]; i++] *)
Fixpoint shift_left {A} (steps : nat) (i : nat) (a : list A) : option (list A) :=
  match steps with
  | O => Some a
  | S steps' => x ← a !! S i; a' ← arr_set a i x; shift_left steps' (S i) a'
  end.

Definition shiftRight (start : nat) (n : BTreeNode) : option BTreeNode :=
  let h := nheader n in
  ks ← shift_right start (keys n) (key_count h);
  vs ← (if isLeaf n then shift_right start (values n) (key_count h) else Some (values n));
  cs ← (if isLeaf n then Some (children n) else shift_right start (children n) (child_count h));
  Some (mkNode (node_id n) h ks vs cs (ndirty n)).

Definition shiftLeft (start : nat) (n : BTreeNode) : option BTreeNode :=
  let h := nheader n in
  ks ← shift_left (key_count h - 1 - start) start (keys n);
  vs ← (if isLeaf n then shift_left (key_count h - 1 - start) start (values n) else Some (values n));
  cs ← (if isLeaf n then Some (children n)
        else shift_left (child_count h - 1 - start) start (children n));
  Some (mkNode (node_id n) h ks vs cs (ndirty n)).

(** ** Search *)

(** The loop; [None] is an index outside the array. *)
Fixpoint find_loop (fuel : nat) (ks : list K) (key : K) (left right : Z) : option Z :=
  if left <=? right then
    match fuel with
    | O => None
    | S fuel' =>
        let mid := (left + right) ÷ 2 in
        k ← ks !! Z.to_nat mid;
        if key_eqb k key then Some mid
        else if key_ltb k key then find_loop fuel' ks key (mid + 1) right
        else find_loop fuel' ks key left (mid - 1)
    end
  else Some right.

(** Every turn shortens the interval, of [key_count] positions at first. *)
Definition findKeyIndex (n : BTreeNode) (key : K) : option Z :=
  let kc := key_count (nheader n) in
  find_loop kc (keys n) key 0 (Z.of_nat kc - 1).

Definition findChildIndex (n : BTreeNode) (key : K) : option Z :=
  if isLeaf n then Some (-1)
  else
    pos ← findKeyIndex n key;
    if pos <? 0 then Some 0
    else if pos <? Z.of_nat (key_count (nheader n)) then
      k ← keys n !! Z.to_nat pos;
      Some (if key_ltb k key || key_eqb k key then pos + 1 else pos)
    else Some pos.

(** ** Insertion and removal *)

Definition insertAt (index : nat) (key : K) (value child : Z) (n : BTreeNode)
  : option (BTreeNode * bool) :=
  if isFull n then Some (n, false)
  else
    n ← shiftRight index n;
    let h := nheader n in
    ks ← arr_set (keys n) index key;
    vs ← (if isLeaf n then arr_set (values n) index value else Some (values n));
    cs ← (if isLeaf n then Some (children n) else arr_set (children n) index child);
    Some (mkNode (node_id n)
            (set_counts (key_count h + 1)
               (if isLeaf n then child_count h else child_count h + 1)%nat h)
            ks vs cs true, true).

Definition insert (key : K) (value child : Z) (n : BTreeNode) : option (BTreeNode * bool) :=
  pos ← findKeyIndex n key;
  let found := match keys n !! Z.to_nat pos with
               | Some k => (0 <=? pos) && (pos <? Z.of_nat (key_count (nheader n))) && key_eqb k key
               | None => false
               end in
  if found then
    if isLeaf n then
      vs ← arr_set (values n) (Z.to_nat pos) value;
      Some (mkNode (node_id n) (nheader n) (keys n) vs (children n) true, true)
    else Some (n, false)
  else if pos <? 0 then insertAt 0 key value child n
  else
    k ← keys n !! Z.to_nat pos;
    insertAt (Z.to_nat (if key_ltb k key then pos + 1 else pos)) key value child n.

(** [remove(uint16_t)] *)
Definition removeAt (index : nat) (n : BTreeNode) : option (BTreeNode * bool) :=
  let h := nheader n in
  if decide (key_count h ≤ index)%nat then Some (n, false)
  else
    ks ← arr_set (keys n) index kdefault;
    vs ← (if isLeaf n then arr_set (values n) index 0 else Some (values n));
    n ← shiftLeft index (mkNode (node_id n) h ks vs (children n) (ndirty n));
    Some (mkNode (node_id n)
            (set_counts (key_count h - 1)
               (if isLeaf n then child_count h else sub16 (child_count h) 1) h)
            (keys n) (values n) (children n) true, true).

(** [remove(const K&)] *)
Definition removeKey (key : K) (n : BTreeNode) : option (BTreeNode * bool) :=
  pos ← findKeyIndex n key;
  if (pos <? 0) || (Z.of_nat (key_count (nheader n)) <=? pos) then Some (n, false)
  else
    k ← keys n !! Z.to_nat pos;
    if negb (key_eqb k key) then Some (n, false) else removeAt (Z.to_nat pos) n.

(** ** Split, merge and redistribution *)

(** [steps] turns of [dst[j++] = src[i++]] *)
Fixpoint copy_range {A} (steps : nat) (src : list A) (i : nat) (dst : list A) (j : nat)
  : option (list A) :=
  match steps with
  | O => Some dst
  | S steps' => x ← src !! i; dst' ← arr_set dst j x; copy_range steps' src (S i) dst' (S j)
  end.

(** The node that keeps the lower half, and the new node. *)
Definition split (n : BTreeNode) : option (BTreeNode * BTreeNode) :=
  let h := nheader n in
  let fresh := setLevel (level h) (BTreeNode_new INVALID_PAGE_ID (ntype h)) in
  let mid := Nat.div (key_count h) 2 in
  let upper := (key_count h - (mid + 1))%nat in
  ks ← copy_range upper (keys n) (mid + 1) (keys fresh) 0;
  vs ← (if isLeaf n then copy_range upper (values n) (mid + 1) (values fresh) 0
        else Some (values fresh));
  cs ← (if isLeaf n then Some (children fresh)
        else copy_range (child_count h + 1 - (mid + 1)) (children n) (mid + 1) (children fresh) 0);
  let fh := nheader fresh in
  let right := mkNode INVALID_PAGE_ID
    (set_counts (sub16 (key_count h) (mid + 1))
       (if isLeaf n then child_count fh else sub16 (child_count h) (mid + 1)) fh)
    ks vs cs true in
  let left := mkNode (node_id n)
    (set_counts mid (if isLeaf n then child_count h else mid + 1)%nat h)
    (keys n) (values n) (children n) true in
  if isLeaf n then
    Some (mkNode (node_id n)
            (set_node_links (parent_id h) INVALID_PAGE_ID (prev_id h) (level h) (nheader left))
            (keys n) (values n) (children n) true,
          setPrevId (node_id n) (setNextId (next_id h) right))
  else Some (left, right).

Definition merge (n right : BTreeNode) : option (BTreeNode * bool) :=
  let h := nheader n in
  let rh := nheader right in
  if negb (bool_decide (ntype h = ntype rh ∧ level h = level rh)) then Some (n, false)
  else
    ks ← copy_range (key_count rh) (keys right) 0 (keys n) (key_count h);
    vs ← (if isLeaf n then copy_range (key_count rh) (values right) 0 (values n) (key_count h)
          else Some (values n));
    cs ← (if isLeaf n then Some (children n)
          else copy_range (child_count rh + 1) (children right) 0 (children n) (child_count h));
    let cc := (if isLeaf n then child_count h else child_count h + child_count rh)%nat in
    let h' := set_counts (key_count h + key_count rh) cc h in
    let h'' := if isLeaf n then set_node_links (parent_id h) (next_id rh) (prev_id h) (level h) h'
               else h' in
    Some (mkNode (node_id n) h'' ks vs cs true, true).

(** The node and its neighbour after the call; it always returns true. *)
Definition redistribute (n neighbor : BTreeNode) (from_left : bool)
  : option (BTreeNode * BTreeNode) :=
  let nh := nheader neighbor in
  if from_left then
    n ← shiftRight 0 n;
    if decide (key_count nh = 0 ∨ (isLeaf n = false ∧ child_count nh = 0))%nat then None else
    k ← keys neighbor !! (key_count nh - 1)%nat;
    ks ← arr_set (keys n) 0 k;
    vs ← (if isLeaf n then v ← values neighbor !! (key_count nh - 1)%nat; arr_set (values n) 0 v
          else Some (values n));
    cs ← (if isLeaf n then Some (children n)
          else c ← children neighbor !! (child_count nh - 1)%nat; arr_set (children n) 0 c);
    r ← removeAt (key_count nh - 1) neighbor;
    Some (mkNode (node_id n) (nheader n) ks vs cs true, r.1)
  else
    let h := nheader n in
    k ← keys neighbor !! 0%nat;
    ks ← arr_set (keys n) (key_count h) k;
    vs ← (if isLeaf n then v ← values neighbor !! 0%nat; arr_set (values n) (key_count h) v
          else Some (values n));
    cs ← (if isLeaf n then Some (children n)
          else c ← children neighbor !! 0%nat; arr_set (children n) (child_count h) c);
    r ← removeAt 0 neighbor;
    Some (mkNode (node_id n)
            (set_counts (key_count h + 1)
               (if isLeaf n then child_count h else child_count h + 1)%nat h) ks vs cs true, r.1).

(** ** Object representation *)

(** [sizeof(BTreeNodeHeader)] is 40 with its tail padding [pad]. *)
Definition node_header_bytes (h : BTreeNodeHeader) (pad : list Z) : list Z :=
  le_bytes 4 (node_type_code (ntype h)) ++ le_bytes 2 (Z.of_nat (key_count h))
  ++ le_bytes 2 (Z.of_nat (child_count h)) ++ le_bytes 8 (parent_id h) ++ le_bytes 8 (next_id h)
  ++ le_bytes 8 (prev_id h) ++ le_bytes 4 (level h) ++ pad.

Definition bytes_node_header (bs : list Z) : BTreeNodeHeader :=
  mkNodeHeader (code_node_type (field bs 0 4)) (Z.to_nat (field bs 4 2)) (Z.to_nat (field bs 6 2))
    (field bs 8 8) (field bs 16 8) (field bs 24 8) (field bs 32 4).

Definition node_serialize (n : BTreeNode) (pad : list Z) : list Z :=
  node_header_bytes (nheader n) pad ++ concat (map kencode (keys n))
  ++ (if isLeaf n then concat (map (le_bytes 8) (values n))
      else concat (map (le_bytes 8) (children n))).

(** [count] elements of [size] bytes *)
Fixpoint decode_array {A} (dec : list Z → A) (size count : nat) (bs : list Z) : list A :=
  match count with
  | O => []
  | S count' => dec (take size bs) :: decode_array dec size count' (drop size bs)
  end.

Definition node_deserialize (buf : list Z) (n : BTreeNode) : BTreeNode :=
  let h := bytes_node_header buf in
  let leaf := bool_decide (ntype h = BTreeNodeType.LEAF) in
  let rest := drop (40 + MAX_KEYS * ksize) buf in
  mkNode (node_id n) h (decode_array kdecode ksize MAX_KEYS (drop 40 buf))
    (if leaf then decode_array le_value 8 MAX_KEYS rest else values n)
    (if leaf then children n else decode_array le_value 8 ORDER rest) false.

End Node.
Arguments BTreeNode K : clear implicits.
