(* ===== verification/BTreeNodeProofs.v ===== *)
(** * BTreeNodeProofs: correctness of the nodes of the B-tree

    A leaf is a sorted list of entries: binary search, insertion and removal are
    the operations of that list.  What split and redistribution do to the
    entries, and the round trip of the object representation. *)

From stdpp Require Import list sorting.
From S2P Require Import Prelude CxxString Types Page BTreeNode.

Open Scope Z_scope.

(** ** Arrays *)

Lemma arr_set_Some {A} (a : list A) i x a' :
  arr_set a i x = Some a' ↔ (i < length a)%nat ∧ a' = <[i := x]> a.
Proof. unfold arr_set. case_decide; naive_solver. Qed.

Lemma shift_right_lookup {A} start (a : list A) i :
  (i < length a)%nat →
  ∃ a', shift_right start a i = Some a' ∧ length a' = length a ∧
    ∀ j, a' !! j = if decide (start < j ≤ i)%nat then a !! (j - 1)%nat else a !! j.
Proof.
  revert a. induction i as [|i IH]; intros a Hi; simpl.
  { exists a. split_and!; [done|done|]. intros j. by rewrite decide_False by lia. }
  case_decide as Hs.
  2:{ exists a. split_and!; [done|done|]. intros j. by rewrite decide_False by lia. }
  destruct (lookup_lt_is_Some_2 a i) as [x Hx]; [lia|]. rewrite Hx. cbn [mbind option_bind].
  unfold arr_set. rewrite decide_True by done. cbn [mbind option_bind].
  destruct (IH (<[S i := x]> a)) as (a' & Ha' & Hl & Hj); [rewrite length_insert; lia|].
  exists a'. split; [done|]. split; [by rewrite Hl, length_insert|]. intros j. rewrite Hj.
  repeat case_decide; try lia.
  - by rewrite list_lookup_insert_ne by lia.
  - assert (j = S i) as -> by lia. rewrite list_lookup_insert_eq by done.
    by rewrite Nat.sub_succ, Nat.sub_0_r.
  - by rewrite list_lookup_insert_ne by lia.
Qed.

Lemma shift_left_lookup {A} steps i (a : list A) :
  (i + steps < length a)%nat →
  ∃ a', shift_left steps i a = Some a' ∧ length a' = length a ∧
    ∀ j, a' !! j = if decide (i ≤ j < i + steps)%nat then a !! S j else a !! j.
Proof.
  revert i a. induction steps as [|steps IH]; intros i a Hi; simpl.
  { exists a. split_and!; [done|done|]. intros j. by rewrite decide_False by lia. }
  destruct (lookup_lt_is_Some_2 a (S i)) as [x Hx]; [lia|]. rewrite Hx. cbn [mbind option_bind].
  unfold arr_set. rewrite decide_True by lia. cbn [mbind option_bind].
  destruct (IH (S i) (<[i := x]> a)) as (a' & Ha' & Hl & Hj); [rewrite length_insert; lia|].
  exists a'. split; [done|]. split; [by rewrite Hl, length_insert|]. intros j. rewrite Hj.
  repeat case_decide; try lia.
  - by rewrite list_lookup_insert_ne by lia.
  - assert (j = i) as -> by lia. by rewrite list_lookup_insert_eq by lia.
  - by rewrite list_lookup_insert_ne by lia.
Qed.

Lemma copy_range_lookup {A} steps (src : list A) i dst j :
  (i + steps ≤ length src)%nat → (j + steps ≤ length dst)%nat →
  ∃ d, copy_range steps src i dst j = Some d ∧ length d = length dst ∧
    ∀ k, d !! k = if decide (j ≤ k < j + steps)%nat then src !! (i + (k - j))%nat else dst !! k.
Proof.
  revert i dst j. induction steps as [|steps IH]; intros i dst j Hi Hj; simpl.
  { exists dst. split_and!; [done|done|]. intros k. by rewrite decide_False by lia. }
  destruct (lookup_lt_is_Some_2 src i) as [x Hx]; [lia|]. rewrite Hx. cbn [mbind option_bind].
  unfold arr_set. rewrite decide_True by lia. cbn [mbind option_bind].
  destruct (IH (S i) (<[j := x]> dst) (S j)) as (d & Hd & Hl & Hk);
    [lia|rewrite length_insert; lia|].
  exists d. split; [done|]. split; [by rewrite Hl, length_insert|]. intros k. rewrite Hk.
  repeat case_decide; try lia.
  - f_equal. lia.
  - assert (k = j) as -> by lia. rewrite list_lookup_insert_eq by lia. rewrite <- Hx. f_equal. lia.
  - by rewrite list_lookup_insert_ne by lia.
Qed.

(** Opening a position of the first [n] elements and writing it. *)
Lemma open_position {A} (a a' : list A) start n x :
  (start ≤ n)%nat → (n < length a)%nat →
  shift_right start a n = Some a' →
  take (n + 1) (<[start := x]> a') = take start (take n a) ++ x :: drop start (take n a).
Proof.
  intros Hs Hn Ha. destruct (shift_right_lookup start a n Hn) as (b & Hb & Hl & Hj).
  rewrite Ha in Hb. simplify_eq. apply list_eq. intros i.
  rewrite lookup_take. case_decide as Hi.
  - destruct (decide (i = start)) as [->|Hne].
    + rewrite list_lookup_insert_eq by lia.
      rewrite lookup_app_r, length_take_le by (rewrite ?length_take; lia).
      by rewrite Nat.sub_diag.
    + rewrite list_lookup_insert_ne, Hj by done. destruct (decide (i < start)%nat).
      * rewrite decide_False by lia.
        rewrite lookup_app_l by (rewrite !length_take; lia).
        by rewrite !lookup_take_lt by lia.
      * rewrite decide_True by lia.
        rewrite lookup_app_r, length_take_le by (rewrite ?length_take; lia).
        rewrite lookup_cons_ne_0 by lia. rewrite lookup_drop, lookup_take_lt by lia. f_equal. lia.
  - symmetry. apply lookup_ge_None. rewrite length_app, length_take. cbn [length].
    rewrite length_drop, length_take. lia.
Qed.

(** Closing a position of the first [n] elements. *)
Lemma close_position {A} (a a' : list A) i n y :
  (i < n)%nat → (n ≤ length a)%nat →
  shift_left (n - 1 - i) i (<[i := y]> a) = Some a' →
  take (n - 1) a' = delete i (take n a).
Proof.
  intros Hi Hn Ha.
  destruct (shift_left_lookup (n - 1 - i) i (<[i := y]> a)) as (b & Hb & Hl & Hj);
    [rewrite length_insert; lia|]. rewrite Ha in Hb. simplify_eq.
  apply list_eq. intros j. rewrite lookup_take. case_decide as Hjn.
  - rewrite Hj. destruct (decide (j < i)%nat).
    + rewrite decide_False by lia. rewrite list_lookup_insert_ne by lia.
      rewrite list_lookup_delete_lt by done. by rewrite lookup_take_lt by lia.
    + rewrite decide_True by lia. rewrite list_lookup_insert_ne by lia.
      rewrite list_lookup_delete_ge by lia. by rewrite lookup_take_lt by lia.
  - symmetry. apply lookup_ge_None. rewrite length_delete; rewrite ?length_take; [lia|].
    rewrite lookup_take_lt by done. apply lookup_lt_is_Some. lia.
Qed.

Lemma copy_range_take {A} steps (src : list A) i dst j d :
  (i + steps ≤ length src)%nat → (j + steps ≤ length dst)%nat →
  copy_range steps src i dst j = Some d →
  take (j + steps) d = take j dst ++ take steps (drop i src).
Proof.
  intros Hi Hj Hd. destruct (copy_range_lookup steps src i dst j Hi Hj) as (d' & Hd' & Hl & Hk).
  rewrite Hd in Hd'. simplify_eq. apply list_eq. intros k. rewrite lookup_take.
  case_decide as Hks.
  - rewrite Hk. destruct (decide (k < j)%nat).
    + rewrite decide_False by lia. rewrite lookup_app_l by (rewrite length_take; lia).
      by rewrite lookup_take_lt.
    + rewrite decide_True by lia. rewrite lookup_app_r by (rewrite length_take; lia).
      rewrite length_take_le by lia. by rewrite lookup_take_lt, lookup_drop by lia.
  - symmetry. apply lookup_ge_None. rewrite length_app, !length_take, length_drop. lia.
Qed.

Lemma sub16_small a b : (b ≤ a)%nat → (a < 256)%nat → sub16 a b = (a - b)%nat.
Proof. intros. unfold sub16, wrap. rewrite Z.mod_small by lia. lia. Qed.

Section Leaf.
Context {K : Type} `{HK : Key K} `{HL : !KeyLaws K}.
Implicit Types (n : BTreeNode K) (k : K).

Lemma key_eqb_spec (a b : K) : key_eqb a b = true ↔ a = b.
Proof. unfold key_eqb. rewrite <- kcmp_eq. destruct (kcmp a b); split; congruence. Qed.

Lemma key_ltb_spec (a b : K) : key_ltb a b = true ↔ klt a b.
Proof. unfold key_ltb, klt. destruct (kcmp a b); split; congruence. Qed.

Lemma klt_irrefl (a : K) : ¬ klt a a.
Proof. unfold klt. by rewrite (proj2 (kcmp_eq a a) eq_refl). Qed.

Lemma klt_trichotomy (a b : K) : klt a b ∨ a = b ∨ klt b a.
Proof.
  unfold klt. rewrite (kcmp_antisym a b), <- kcmp_eq. destruct (kcmp a b); auto.
Qed.

Lemma klt_asym (a b : K) : klt a b → klt b a → False.
Proof. intros Hab Hba. apply (klt_irrefl a). by eapply kcmp_trans. Qed.

(** ** Binary search *)

(** The keys in increasing order. *)
Definition keys_sorted (ks : list K) : Prop :=
  ∀ i j a b, (i < j)%nat → ks !! i = Some a → ks !! j = Some b → klt a b.

(** Position [p] of [key]: it is there, or the keys up to [p] are below it and
    the ones after [p] above. *)
Definition position_of (ks : list K) (key : K) (p : Z) : Prop :=
  (0 ≤ p < Z.of_nat (length ks) ∧ ks !! Z.to_nat p = Some key) ∨
  (-1 ≤ p < Z.of_nat (length ks) ∧
   (∀ i a, ks !! i = Some a → Z.of_nat i ≤ p → klt a key) ∧
   (∀ i a, ks !! i = Some a → p < Z.of_nat i → klt key a)).

Lemma find_loop_spec fuel (arr : list K) (m : nat) (key : K) (left right : Z) :
  (m ≤ length arr)%nat → keys_sorted (take m arr) →
  0 ≤ left → -1 ≤ right < Z.of_nat m → right - left < Z.of_nat fuel → left ≤ right + 1 →
  (∀ i a, take m arr !! i = Some a → Z.of_nat i < left → klt a key) →
  (∀ i a, take m arr !! i = Some a → right < Z.of_nat i → klt key a) →
  ∃ p, find_loop fuel arr key left right = Some p ∧ position_of (take m arr) key p.
Proof.
  intros Hm Hsorted. assert (length (take m arr) = m) as Hlen by (rewrite length_take; lia).
  revert left right. induction fuel as [|fuel IH]; intros left right Hl Hr Hf Hlr Hlo Hhi;
    cbn [find_loop]; destruct (Z.leb_spec left right) as [Hle|Hgt].
  1: lia.
  1, 3: exists right; split; [done|right]; rewrite Hlen; split_and!; [lia|lia| |done];
    intros i a Hi Hip; apply (Hlo i a Hi); lia.
  set (mid := (left + right) ÷ 2).
  assert (left ≤ mid ≤ right) as Hmid by (unfold mid; Z.to_euclidean_division_equations; lia).
  destruct (lookup_lt_is_Some_2 arr (Z.to_nat mid)) as [k Hk]; [lia|]. rewrite Hk.
  cbn [mbind option_bind].
  assert (take m arr !! Z.to_nat mid = Some k) as Hk' by (rewrite lookup_take_lt by lia; done).
  destruct (key_eqb k key) eqn:He.
  { apply key_eqb_spec in He as ->. exists mid. split; [done|left]. rewrite Hlen. split; [lia|done]. }
  destruct (key_ltb k key) eqn:Hlt.
  - apply key_ltb_spec in Hlt. apply IH; try lia; [|done].
    intros i a Hi Hi'. destruct (decide (i = Z.to_nat mid)) as [->|]; [congruence|].
    eapply kcmp_trans; [|exact Hlt]. eapply (Hsorted i (Z.to_nat mid)); eauto. lia.
  - assert (klt key k) as Hgt.
    { destruct (klt_trichotomy k key) as [Hc|[Hc|Hc]]; [|subst|done].
      - apply key_ltb_spec in Hc. congruence.
      - rewrite (proj2 (key_eqb_spec key key) eq_refl) in He. done. }
    apply IH; try lia; [done|]. intros i a Hi Hi'.
    destruct (decide (i = Z.to_nat mid)) as [->|]; [congruence|].
    eapply kcmp_trans; [exact Hgt|]. eapply (Hsorted (Z.to_nat mid) i); eauto. lia.
Qed.

(** A node whose arrays have their lengths and whose keys are sorted. *)
Record node_ok n : Prop := mk_node_ok {
  no_keys : length (keys n) = MAX_KEYS;
  no_values : length (values n) = MAX_KEYS;
  no_children : length (children n) = ORDER;
  no_count : (key_count (nheader n) ≤ MAX_KEYS)%nat;
  no_sorted : keys_sorted (take (key_count (nheader n)) (keys n))
}.

Definition node_keys n : list K := take (key_count (nheader n)) (keys n).

Lemma length_node_keys n : node_ok n → length (node_keys n) = key_count (nheader n).
Proof. intros []. unfold node_keys. rewrite length_take. lia. Qed.

Lemma findKeyIndex_position n key :
  node_ok n → ∃ p, findKeyIndex n key = Some p ∧ position_of (node_keys n) key p.
Proof.
  intros []. unfold findKeyIndex, node_keys.
  apply find_loop_spec; [lia|done|lia|lia|lia|lia| |].
  - intros. lia.
  - intros i a Hi. apply lookup_lt_Some in Hi. rewrite length_take in Hi. lia.
Qed.

(** ** The reference: sorted lists of entries *)

Fixpoint ins (key : K) (v : Z) (l : list (K * Z)) : list (K * Z) :=
  match l with
  | [] => [(key, v)]
  | (k, w) :: l' =>
      match kcmp key k with
      | Lt => (key, v) :: l
      | Eq => (key, v) :: l'
      | Gt => (k, w) :: ins key v l'
      end
  end.

Lemma klt_gt (a b : K) : klt a b → kcmp b a = Gt.
Proof. unfold klt. intros Hab. by rewrite kcmp_antisym, Hab. Qed.

Lemma ins_between key v l1 l2 :
  Forall (λ e, klt e.1 key) l1 → Forall (λ e, klt key e.1) l2 →
  ins key v (l1 ++ l2) = l1 ++ (key, v) :: l2.
Proof.
  intros H1 H2. induction H1 as [|[k w] l1 Hk H1 IH]; simpl in *.
  - destruct H2 as [|[k w] l2 Hk _]; [done|]. simpl in *. by rewrite Hk.
  - rewrite (klt_gt _ _ Hk). by rewrite IH.
Qed.

Lemma ins_replace key v w l1 l2 :
  Forall (λ e, klt e.1 key) l1 → ins key v (l1 ++ (key, w) :: l2) = l1 ++ (key, v) :: l2.
Proof.
  induction 1 as [|[k u] l1 Hk H1 IH]; simpl in *.
  - by rewrite (proj2 (kcmp_eq key key) eq_refl).
  - rewrite (klt_gt _ _ Hk). by rewrite IH.
Qed.

Lemma keys_sorted_iff ks : keys_sorted ks ↔ StronglySorted klt ks.
Proof.
  induction ks as [|k ks IH].
  - split; [constructor|]. by intros _ i j a b _ Hi%lookup_nil_Some || done.
  - rewrite StronglySorted_cons, <- IH, Forall_lookup. split.
    + intros Hs. split; [intros i x Hi; by apply (Hs 0%nat (S i)); [lia|..]|].
      intros i j a b Hij Hi Hj. by apply (Hs (S i) (S j)); [lia|..].
    + intros [Hf Hs] [|i] [|j] a b Hij Hi Hj; simplify_eq/=; try lia; [eauto|].
      apply (Hs i j); [lia|done..].
Qed.

(** ** Entries of a leaf *)

Definition entries n : list (K * Z) :=
  zip (node_keys n) (take (key_count (nheader n)) (values n)).

Lemma length_entries n : node_ok n → length (entries n) = key_count (nheader n).
Proof.
  intros Hn. unfold entries. rewrite length_zip_with, length_node_keys by done.
  destruct Hn. rewrite length_take. lia.
Qed.

Lemma entries_keys n : node_ok n → (entries n).*1 = node_keys n.
Proof.
  intros Hn. apply fst_zip. rewrite length_node_keys by done. destruct Hn. rewrite length_take. lia.
Qed.

Lemma entries_lookup n i k : node_ok n → node_keys n !! i = Some k → ∃ v, entries n !! i = Some (k, v).
Proof.
  intros Hn Hi. rewrite <- entries_keys, list_lookup_fmap in Hi by done.
  destruct (entries n !! i) as [[k' v]|]; simplify_eq/=. eauto.
Qed.

(** The entries up to a position and after it. *)
Lemma position_split n key p :
  node_ok n → -1 ≤ p < Z.of_nat (key_count (nheader n)) →
  (∀ i a, node_keys n !! i = Some a → Z.of_nat i ≤ p → klt a key) →
  (∀ i a, node_keys n !! i = Some a → p < Z.of_nat i → klt key a) →
  let q := Z.to_nat (p + 1) in
  Forall (λ e, klt e.1 key) (take q (entries n)) ∧ Forall (λ e, klt key e.1) (drop q (entries n)).
Proof.
  intros Hn Hp Hlo Hhi q. rewrite !Forall_lookup. split; intros i [k v] Hi; simpl.
  - apply lookup_take_Some in Hi as [Hi Hiq]. apply (Hlo i); [|lia].
    rewrite <- entries_keys, list_lookup_fmap, Hi by done. done.
  - rewrite lookup_drop in Hi. apply (Hhi (q + i)%nat); [|lia].
    rewrite <- entries_keys, list_lookup_fmap, Hi by done. done.
Qed.

Lemma sorted_insert (l1 l2 : list K) key :
  StronglySorted klt (l1 ++ l2) → Forall (λ k, klt k key) l1 → Forall (klt key) l2 →
  StronglySorted klt (l1 ++ key :: l2).
Proof.
  rewrite !StronglySorted_app, StronglySorted_cons, !Forall_forall.
  intros (H12 & H1 & H2) Hl Hr. split_and!; [|done|done|done].
  intros x1 x2 Hx1 [->|Hx2]%elem_of_cons; auto.
Qed.

(** The arrays after [insertAt], for the keys and the values alike. *)
Lemma insertAt_leaf index key v c n :
  node_ok n → isLeaf n = true → (key_count (nheader n) < MAX_KEYS)%nat →
  (index ≤ key_count (nheader n))%nat →
  ∃ n', insertAt index key v c n = Some (n', true) ∧ isLeaf n' = true ∧
    length (keys n') = MAX_KEYS ∧ length (values n') = MAX_KEYS ∧ children n' = children n ∧
    key_count (nheader n') = (key_count (nheader n) + 1)%nat ∧
    node_keys n' = take index (node_keys n) ++ key :: drop index (node_keys n) ∧
    entries n' = take index (entries n) ++ (key, v) :: drop index (entries n).
Proof.
  intros [Hk Hv Hc Hcnt Hs] Hleaf Hfull Hi. set (kc := key_count (nheader n)) in *.
  unfold insertAt, isFull. rewrite bool_decide_false by (fold kc; lia).
  unfold shiftRight. fold kc. rewrite Hleaf.
  destruct (shift_right_lookup index (keys n) kc) as (ks & Hks & Hlk & _); [lia|].
  destruct (shift_right_lookup index (values n) kc) as (vs & Hvs & Hlv & _); [lia|].
  rewrite Hks, Hvs. cbn [mbind option_bind isLeaf nheader keys values children].
  assert (∀ m, isLeaf (mkNode m (nheader n) ks vs (children n) (ndirty n)) = true) as Hl' by done.
  rewrite Hl'. unfold arr_set. rewrite !decide_True by lia. cbn [mbind option_bind].
  eexists. split; [reflexivity|].
  pose proof (open_position (keys n) _ _ _ key Hi ltac:(lia) Hks) as Hok.
  pose proof (open_position (values n) _ _ _ v Hi ltac:(lia) Hvs) as Hov.
  split; [exact Hleaf|]. cbn [keys values children nheader key_count set_counts].
  rewrite !length_insert. split_and!; [lia|lia|done|done| |];
    unfold entries, node_keys; cbn [keys values nheader key_count set_counts]; fold kc.
  - exact Hok.
  - rewrite Hok, Hov, zip_with_app by (rewrite !length_take; lia). cbn [zip_with].
    by rewrite zip_with_take, zip_with_drop.
Qed.

Lemma found_split n key q :
  node_ok n → node_keys n !! q = Some key →
  ∃ w, entries n = take q (entries n) ++ (key, w) :: drop (S q) (entries n) ∧
    Forall (λ e, klt e.1 key) (take q (entries n)) ∧
    Forall (λ e, klt key e.1) (drop (S q) (entries n)).
Proof.
  intros Hn Hq. destruct (entries_lookup n q key Hn Hq) as [w Hw]. exists w.
  split; [symmetry; by apply take_drop_middle|]. pose proof (no_sorted _ Hn) as Hs.
  fold (node_keys n) in Hs. rewrite !Forall_lookup. split; intros i [k u] Hi; simpl.
  - apply lookup_take_Some in Hi as [Hi Hiq]. apply (Hs i q); [done| |done].
    rewrite <- entries_keys, list_lookup_fmap, Hi by done. done.
  - rewrite lookup_drop in Hi. apply (Hs q (S q + i)%nat); [lia|done|].
    rewrite <- entries_keys, list_lookup_fmap, Hi by done. done.
Qed.

(** ** Insertion *)

Lemma insertAt_ok n key v c p :
  node_ok n → isLeaf n = true → isFull n = false →
  -1 ≤ p < Z.of_nat (key_count (nheader n)) →
  (∀ i a, node_keys n !! i = Some a → Z.of_nat i ≤ p → klt a key) →
  (∀ i a, node_keys n !! i = Some a → p < Z.of_nat i → klt key a) →
  ∃ n', insertAt (Z.to_nat (p + 1)) key v c n = Some (n', true) ∧ node_ok n' ∧ isLeaf n' = true ∧
    entries n' = ins key v (entries n).
Proof.
  intros Hn Hleaf Hfull%bool_decide_eq_false Hp Hlo Hhi.
  destruct (insertAt_leaf (Z.to_nat (p + 1)) key v c n) as
    (n' & Hi & Hl' & Hk & Hv & Hc & Hcnt & Hnk & He); [done|done|lia|lia|].
  destruct (position_split n key p Hn Hp Hlo Hhi) as [H1 H2].
  exists n'. split; [done|]. split; [|split; [done|]].
  - constructor; [done|done|by rewrite Hc; apply no_children|rewrite Hcnt; lia|].
    fold (node_keys n'). rewrite Hnk. apply keys_sorted_iff, sorted_insert.
    + rewrite take_drop. apply keys_sorted_iff, no_sorted, Hn.
    + rewrite <- entries_keys, <- fmap_take by done. by apply Forall_fmap.
    + rewrite <- entries_keys, <- fmap_drop by done. by apply Forall_fmap.
  - rewrite He, <- (ins_between key v _ _ H1 H2). by rewrite take_drop.
Qed.

Lemma insert_at_position n key v c p :
  node_ok n → findKeyIndex n key = Some p → -1 ≤ p < Z.of_nat (key_count (nheader n)) →
  (∀ i a, node_keys n !! i = Some a → Z.of_nat i ≤ p → klt a key) →
  insert key v c n = insertAt (Z.to_nat (p + 1)) key v c n.
Proof.
  intros Hn Hf Hp Hlo. unfold insert. rewrite Hf. cbn [mbind option_bind].
  destruct (Z.ltb_spec p 0).
  - assert (p = -1) as -> by lia. by destruct (keys n !! _).
  - destruct (node_keys n !! Z.to_nat p) as [k|] eqn:Hk.
    2:{ apply lookup_ge_None in Hk. rewrite length_node_keys in Hk by done. lia. }
    pose proof (Hlo _ _ Hk ltac:(lia)) as Hlt. unfold node_keys in Hk.
    rewrite lookup_take_lt in Hk by lia. rewrite Hk. cbn [mbind option_bind].
    replace (key_eqb k key) with false.
    2:{ symmetry. apply not_true_iff_false. intros ->%key_eqb_spec. by apply klt_irrefl in Hlt. }
    rewrite andb_false_r. by rewrite (proj2 (key_ltb_spec k key) Hlt).
Qed.

Lemma position_absent n key p :
  node_ok n →
  (∀ i a, node_keys n !! i = Some a → Z.of_nat i ≤ p → klt a key) →
  (∀ i a, node_keys n !! i = Some a → p < Z.of_nat i → klt key a) → key ∉ node_keys n.
Proof.
  intros Hn Hlo Hhi [i Hi]%list_elem_of_lookup. apply (klt_irrefl key).
  destruct (decide (Z.of_nat i ≤ p)); [by apply (Hlo i)|apply (Hhi i); [done|lia]].
Qed.

Lemma insert_found n key v c q :
  node_ok n → isLeaf n = true → findKeyIndex n key = Some (Z.of_nat q) →
  node_keys n !! q = Some key →
  ∃ n', insert key v c n = Some (n', true) ∧ node_ok n' ∧ isLeaf n' = true ∧
    entries n' = ins key v (entries n).
Proof.
  intros Hn Hleaf Hf Hq. pose proof (lookup_lt_Some _ _ _ Hq) as Hlt.
  rewrite length_node_keys in Hlt by done.
  destruct (found_split n key q Hn Hq) as (w & He & H1 & H2).
  unfold insert. rewrite Hf. cbn [mbind option_bind]. rewrite Nat2Z.id.
  pose proof Hq as Hq'. unfold node_keys in Hq'. rewrite lookup_take_lt in Hq' by lia. rewrite Hq'.
  rewrite (proj2 (key_eqb_spec key key) eq_refl), Hleaf.
  rewrite (proj2 (Z.leb_le 0 _)), (proj2 (Z.ltb_lt _ _)) by lia. cbn [andb].
  pose proof (no_values _ Hn) as Hv. pose proof (no_count _ Hn) as Hcnt.
  unfold arr_set. rewrite decide_True by lia. cbn [mbind option_bind].
  eexists. split; [reflexivity|]. split; [|split; [exact Hleaf|]].
  - destruct Hn. constructor; cbn [keys values children nheader]; [done| |done..].
    by rewrite length_insert.
  - rewrite He, (ins_replace _ _ _ _ _ H1). unfold entries, node_keys.
    cbn [keys values nheader]. rewrite take_insert_lt by lia.
    fold (node_keys n). rewrite <- (list_insert_id _ _ _ Hq) at 1.
    rewrite <- insert_zip_with. change (zip_with _ _ _) with (entries n).
    rewrite insert_take_drop by (rewrite length_entries by done; lia). done.
Qed.

(** Insertion into a leaf always returns; it fails exactly on a full leaf without
    the key, and otherwise is the insertion of the sorted list of entries. *)
Theorem leaf_insert n key v c :
  node_ok n → isLeaf n = true →
  ∃ n' b, insert key v c n = Some (n', b) ∧ node_ok n' ∧ isLeaf n' = true ∧
    (b = false ↔ isFull n = true ∧ key ∉ node_keys n) ∧
    entries n' = if b then ins key v (entries n) else entries n.
Proof.
  intros Hn Hleaf. destruct (findKeyIndex_position n key Hn) as (p & Hf & [[Hp Hk]|(Hp & Hlo & Hhi)]).
  - destruct (insert_found n key v c (Z.to_nat p)) as (n' & Hi & Hn' & Hl' & He);
      [done|done|rewrite Hf; f_equal; lia|done|].
    exists n', true. split_and!; [done..| |done]. split; [done|]. intros [_ Habs].
    destruct Habs. by eapply list_elem_of_lookup_2.
  - rewrite length_node_keys in Hp by done. pose proof (position_absent n key p Hn Hlo Hhi) as Habs.
    rewrite (insert_at_position n key v c p Hn Hf Hp Hlo). destruct (isFull n) eqn:Hfull.
    + exists n, false. unfold insertAt. rewrite Hfull. done.
    + destruct (insertAt_ok n key v c p) as (n' & Hi & Hn' & Hl' & He); [done..|].
      exists n', true. split_and!; [done..| |done]. naive_solver.
Qed.

(** ** Removal *)

Lemma removeAt_leaf n q :
  node_ok n → isLeaf n = true → (q < key_count (nheader n))%nat →
  ∃ n', removeAt q n = Some (n', true) ∧ isLeaf n' = true ∧
    length (keys n') = MAX_KEYS ∧ length (values n') = MAX_KEYS ∧ children n' = children n ∧
    key_count (nheader n') = (key_count (nheader n) - 1)%nat ∧
    node_keys n' = delete q (node_keys n) ∧ entries n' = delete q (entries n).
Proof.
  intros [Hk Hv Hc Hcnt Hs] Hleaf Hq. set (kc := key_count (nheader n)) in *.
  unfold removeAt. fold kc. rewrite decide_False by lia. rewrite Hleaf.
  unfold arr_set. rewrite !decide_True by lia. cbn [mbind option_bind].
  unfold shiftLeft. cbn [nheader keys values children]. fold kc.
  assert (∀ m (ks : list K) vs cs d, isLeaf (mkNode m (nheader n) ks vs cs d) = true) as Hl' by done.
  rewrite Hl'.
  destruct (shift_left_lookup (kc - 1 - q) q (<[q := kdefault]> (keys n))) as (ks & Hks & Hlk & _);
    [rewrite length_insert; lia|].
  destruct (shift_left_lookup (kc - 1 - q) q (<[q := 0]> (values n))) as (vs & Hvs & Hlv & _);
    [rewrite length_insert; lia|].
  rewrite Hks, Hvs. cbn [mbind option_bind]. rewrite length_insert in Hlk. rewrite length_insert in Hlv.
  pose proof (close_position (keys n) ks q kc _ Hq ltac:(lia) Hks) as Hok.
  pose proof (close_position (values n) vs q kc _ Hq ltac:(lia) Hvs) as Hov.
  eexists. split; [reflexivity|]. split; [exact Hleaf|].
  cbn [keys values children nheader key_count set_counts].
  split_and!; [lia|lia|done|done| |]; unfold entries, node_keys;
    cbn [keys values nheader key_count set_counts]; fold kc.
  - exact Hok.
  - rewrite Hok, Hov. rewrite !delete_take_drop. rewrite zip_with_app.
    + by rewrite zip_with_take, zip_with_drop.
    + rewrite !length_take. lia.
Qed.

Lemma filter_keep key (l : list (K * Z)) :
  Forall (λ e, e.1 ≠ key) l → List.filter (λ e, negb (key_eqb e.1 key)) l = l.
Proof.
  induction 1 as [|[k w] l Hk Hl IH]; simpl in *; [done|].
  replace (key_eqb k key) with false; [simpl; by rewrite IH|].
  symmetry. apply not_true_iff_false. by intros ->%key_eqb_spec.
Qed.

Lemma klt_neq (a b : K) : klt a b → a ≠ b.
Proof. intros Hab ->. by apply klt_irrefl in Hab. Qed.

Lemma filter_split key w l1 l2 :
  Forall (λ e : K * Z, klt e.1 key) l1 → Forall (λ e : K * Z, klt key e.1) l2 →
  List.filter (λ e, negb (key_eqb e.1 key)) (l1 ++ (key, w) :: l2) = l1 ++ l2.
Proof.
  intros H1 H2. rewrite List.filter_app. cbn [List.filter fst].
  rewrite (proj2 (key_eqb_spec key key) eq_refl). cbn [negb]. f_equal; apply filter_keep.
  - eapply Forall_impl; [exact H1|]. intros e. apply klt_neq.
  - eapply Forall_impl; [exact H2|]. intros e He <-. by apply klt_irrefl in He.
Qed.

(** Removal of a key from a leaf always returns; it reports whether the key was
    there, and leaves the other entries. *)
Theorem leaf_remove n key :
  node_ok n → isLeaf n = true →
  ∃ n' b, removeKey key n = Some (n', b) ∧ node_ok n' ∧ isLeaf n' = true ∧
    (b = true ↔ key ∈ node_keys n) ∧
    entries n' = List.filter (λ e, negb (key_eqb e.1 key)) (entries n).
Proof.
  intros Hn Hleaf. unfold removeKey.
  destruct (findKeyIndex_position n key Hn) as (p & Hf & [[Hp Hk]|(Hp & Hlo & Hhi)]);
    rewrite length_node_keys in Hp by done; rewrite Hf; cbn [mbind option_bind].
  - pose proof Hk as Hk'. unfold node_keys in Hk'. rewrite lookup_take_lt in Hk' by lia.
    rewrite (proj2 (Z.ltb_ge _ _)), (proj2 (Z.leb_gt _ _)), Hk' by lia. cbn [orb mbind option_bind].
    rewrite (proj2 (key_eqb_spec key key) eq_refl). cbn [negb].
    destruct (removeAt_leaf n (Z.to_nat p)) as (n' & Hr & Hl' & Hkl & Hvl & Hc & Hcnt & Hnk & He);
      [done|done|lia|].
    destruct (found_split n key (Z.to_nat p) Hn Hk) as (w & Hsp & H1 & H2).
    exists n', true. split_and!; [done| |done| |].
    + constructor; [done|done|by rewrite Hc; apply no_children| |].
      * rewrite Hcnt. pose proof (no_count _ Hn). lia.
      * fold (node_keys n'). rewrite Hnk. apply keys_sorted_iff.
        pose proof (proj1 (keys_sorted_iff _) (no_sorted _ Hn)) as Hs. fold (node_keys n) in Hs.
        rewrite delete_take_drop. rewrite <- (take_drop_middle _ _ _ Hk) in Hs.
        apply StronglySorted_app in Hs as (Hx & Ha & Hb).
        apply StronglySorted_cons in Hb as [_ Hb]. apply StronglySorted_app. split; [|done].
        intros x1 x2 H1' H2'. apply Hx; [done|by apply elem_of_cons; right].
    + split; [|done]. intros _. by eapply list_elem_of_lookup_2.
    + rewrite He, delete_take_drop. etransitivity; [|by rewrite Hsp].
      symmetry. apply (filter_split key w _ _ H1 H2).
  - pose proof (position_absent n key p Hn Hlo Hhi) as Habs. exists n, false.
    assert (List.filter (λ e, negb (key_eqb e.1 key)) (entries n) = entries n) as ->.
    { apply filter_keep, Forall_forall. intros e Hin He. apply Habs.
      rewrite <- entries_keys, <- He by done. by apply list_elem_of_fmap_2. }
    split; [|naive_solver].
    destruct (Z.ltb_spec p 0); [done|]. rewrite (proj2 (Z.leb_gt _ _)) by lia. cbn [orb].
    destruct (node_keys n !! Z.to_nat p) as [k|] eqn:Hk.
    2:{ apply lookup_ge_None in Hk. rewrite length_node_keys in Hk by done. lia. }
    pose proof (Hlo _ _ Hk ltac:(lia)) as Hlt. unfold node_keys in Hk.
    rewrite lookup_take_lt in Hk by lia. rewrite Hk. cbn [mbind option_bind].
    replace (key_eqb k key) with false; [done|].
    symmetry. apply not_true_iff_false. intros ->%key_eqb_spec. by apply klt_irrefl in Hlt.
Qed.

(** ** Split and merge *)

Lemma keys_sorted_app (l1 l2 : list K) : keys_sorted (l1 ++ l2) → keys_sorted l1 ∧ keys_sorted l2.
Proof. rewrite !keys_sorted_iff, StronglySorted_app. tauto. Qed.

Lemma entries_split n mid :
  node_ok n → (mid < key_count (nheader n))%nat →
  ∃ m, entries n = take mid (entries n) ++ m :: drop (mid + 1) (entries n).
Proof.
  intros Hn Hm. destruct (lookup_lt_is_Some_2 (entries n) mid) as [m Hl].
  { by rewrite length_entries. }
  exists m. symmetry. rewrite Nat.add_1_r. by apply take_drop_middle.
Qed.

(** The entry in the middle of a leaf is in neither half: the leaf keeps the
    entries below it and the new node has the ones above it; the lower half loses
    its link to the next leaf. *)
Theorem leaf_split n :
  node_ok n → isLeaf n = true → (0 < key_count (nheader n))%nat →
  ∃ l r m, split n = Some (l, r) ∧ node_ok l ∧ node_ok r ∧ isLeaf l = true ∧ isLeaf r = true ∧
    entries n = entries l ++ m :: entries r ∧
    next_id (nheader l) = INVALID_PAGE_ID ∧ next_id (nheader r) = next_id (nheader n) ∧
    prev_id (nheader r) = node_id n.
Proof.
  intros Hn Hleaf Hpos. pose proof Hn as [Hk Hv Hc Hcnt Hs]. unfold split. rewrite Hleaf.
  set (kc := key_count (nheader n)) in *. set (mid := Nat.div kc 2).
  assert (mid < kc)%nat as Hmid by (apply Nat.div_lt; lia).
  clearbody mid.
  set (fresh := setLevel _ _).
  assert (length (keys fresh) = MAX_KEYS) as Hfk by apply length_replicate.
  assert (length (values fresh) = MAX_KEYS) as Hfv by apply length_replicate.
  assert (length (children fresh) = ORDER) as Hfc by apply length_replicate.
  destruct (copy_range_lookup (kc - (mid + 1)) (keys n) (mid + 1) (keys fresh) 0)
    as (ks & Hks & Hkl & _); [lia|lia|].
  destruct (copy_range_lookup (kc - (mid + 1)) (values n) (mid + 1) (values fresh) 0)
    as (vs & Hvs & Hvl & _); [lia|lia|].
  rewrite Hks, Hvs. cbn [mbind option_bind].
  apply copy_range_take in Hks; [|lia..]. apply copy_range_take in Hvs; [|lia..].
  rewrite Nat.add_0_l, take_0, app_nil_l, <- skipn_firstn_comm in Hks.
  rewrite Nat.add_0_l, take_0, app_nil_l, <- skipn_firstn_comm in Hvs.
  assert (sub16 kc (mid + 1) = kc - (mid + 1))%nat as Hsub.
  { apply sub16_small; [lia|]. unfold MAX_KEYS, ORDER in Hcnt. lia. }
  destruct (entries_split n mid Hn Hmid) as [m Hm]. rewrite Hsub.
  eexists _, _, m. split; [reflexivity|].
  pose proof (no_sorted _ Hn) as Hs'. fold kc in Hs'.
  rewrite <- (take_drop mid (take kc (keys n))) in Hs'. apply keys_sorted_app in Hs' as [Hs1 Hs2].
  rewrite take_take, Nat.min_l in Hs1 by lia.
  split_and!; try done.
  - constructor; cbn -[MAX_KEYS ORDER]; [done|done|done|lia|exact Hs1].
  - constructor; cbn -[MAX_KEYS ORDER]; [lia|lia|done|lia|]. rewrite Hks.
    rewrite <- (take_drop 1 (drop mid _)), drop_drop in Hs2. by apply keys_sorted_app in Hs2 as [_ ?].
  - rewrite Hm at 1. f_equal; [|f_equal]; unfold entries, node_keys; cbn; fold kc.
    + rewrite zip_with_take. by rewrite !take_take, Nat.min_l by lia.
    + rewrite Hks, Hvs. by rewrite zip_with_drop.
Qed.

(** Merging a leaf with its right neighbour: refused when their types or levels
    differ, and otherwise the entries of the two, when they fit. *)
Theorem leaf_merge n right :
  node_ok n → node_ok right → isLeaf n = true → isLeaf right = true →
  (key_count (nheader n) + key_count (nheader right) ≤ MAX_KEYS)%nat →
  ∃ n' b, merge n right = Some (n', b) ∧ b = bool_decide (level (nheader n) = level (nheader right)) ∧
    entries n' = (if b then entries n ++ entries right else entries n) ∧
    next_id (nheader n') = (if b then next_id (nheader right) else next_id (nheader n)) ∧
    (Forall (λ e, Forall (λ e', klt e.1 e'.1) (entries right)) (entries n) → node_ok n').
Proof.
  intros Hn Hr Hl Hlr Hsz. pose proof Hn as [Hk Hv Hc Hcnt Hs]. pose proof Hr as [Hk' Hv' Hc' Hcnt' Hs'].
  unfold merge. rewrite Hl.
  pose proof (proj1 (bool_decide_eq_true _) Hl) as Ht. pose proof (proj1 (bool_decide_eq_true _) Hlr) as Htr.
  destruct (decide (level (nheader n) = level (nheader right))) as [He|He].
  2:{ rewrite (bool_decide_false _) by naive_solver. exists n, false. cbn [negb].
      split_and!; try done. by rewrite bool_decide_false. }
  rewrite (bool_decide_true _) by (split; congruence). cbn [negb].
  set (kc := key_count (nheader n)) in *. set (kr := key_count (nheader right)) in *.
  destruct (copy_range_lookup kr (keys right) 0 (keys n) kc) as (ks & Hks & Hkl & _); [lia|lia|].
  destruct (copy_range_lookup kr (values right) 0 (values n) kc) as (vs & Hvs & Hvl & _); [lia|lia|].
  rewrite Hks, Hvs. cbn [mbind option_bind].
  apply copy_range_take in Hks; [|lia..]. apply copy_range_take in Hvs; [|lia..].
  rewrite drop_0 in Hks. rewrite drop_0 in Hvs. eexists _, true. split; [reflexivity|].
  split; [by rewrite bool_decide_true|]. split; [|split; [done|]].
  - unfold entries, node_keys. cbn. fold kc kr. rewrite Hks, Hvs.
    rewrite zip_with_app; [done|]. rewrite !length_take. lia.
  - intros Hlt. constructor; cbn -[MAX_KEYS ORDER]; fold kc kr; [lia|lia|done|lia|]. rewrite Hks.
    apply keys_sorted_iff, StronglySorted_app. rewrite <- !keys_sorted_iff. split_and!; [|done..].
    change (take kc (keys n)) with (node_keys n).
    change (take kr (keys right)) with (node_keys right). rewrite <- !entries_keys by done.
    intros k1 k2 (e1 & -> & H1)%list_elem_of_fmap (e2 & -> & H2)%list_elem_of_fmap.
    rewrite Forall_forall in Hlt. specialize (Hlt _ H1). rewrite Forall_forall in Hlt. auto.
Qed.

(** ** Object representation *)

Lemma decode_array_concat {A} (enc : A → list Z) (dec : list Z → A) size l rest :
  (∀ x, length (enc x) = size) → Forall (λ x, dec (enc x) = x) l →
  decode_array dec size (length l) (concat (map enc l) ++ rest) = l.
Proof.
  intros Hsz. induction 1 as [|x l Hx Hl IH]; cbn; [done|].
  rewrite <- app_assoc. rewrite take_app_length' by done. rewrite drop_app_length' by done.
  by rewrite Hx, IH.
Qed.

Lemma length_concat_map {A} (enc : A → list Z) size l :
  (∀ x, length (enc x) = size) → length (concat (map enc l)) = (length l * size)%nat.
Proof.
  intros Hsz. induction l as [|x l IH]; cbn; [done|]. by rewrite length_app, Hsz, IH.
Qed.

Record header_ok (h : BTreeNodeHeader) : Prop := mk_header_ok {
  ho_type : ntype h ∈ [BTreeNodeType.LEAF; BTreeNodeType.INTERNAL; BTreeNodeType.ROOT];
  ho_keys : (key_count h ≤ MAX_KEYS)%nat;
  ho_children : (child_count h ≤ ORDER)%nat;
  ho_parent : fits 64 (parent_id h);
  ho_next : fits 64 (next_id h);
  ho_prev : fits 64 (prev_id h);
  ho_level : fits 32 (level h)
}.

Lemma length_node_header h pad : length pad = 4%nat → length (node_header_bytes h pad) = 40%nat.
Proof. intros Hp. unfold node_header_bytes. rewrite !length_app, !length_le_bytes, Hp. done. Qed.

Lemma node_header_roundtrip h pad rest :
  header_ok h → bytes_node_header (node_header_bytes h pad ++ rest) = h.
Proof.
  destruct h as [t kc cc pa nx pv lv]. intros [Ht Hk Hc ? ? ? ?]. cbn in *.
  unfold bytes_node_header.
  change (field (node_header_bytes ?h pad ++ rest) 0 4)
    with (le_value (le_bytes 4 (node_type_code t))).
  change (field _ 4 2) with (le_value (le_bytes 2 (Z.of_nat kc))).
  change (field _ 6 2) with (le_value (le_bytes 2 (Z.of_nat cc))).
  change (field _ 8 8) with (le_value (le_bytes 8 pa)).
  change (field _ 16 8) with (le_value (le_bytes 8 nx)).
  change (field _ 24 8) with (le_value (le_bytes 8 pv)).
  change (field _ 32 4) with (le_value (le_bytes 4 lv)).
  unfold MAX_KEYS, ORDER in *.
  rewrite !le_value_bytes_fits by (done || (unfold fits; lia) ||
    (repeat (apply elem_of_cons in Ht as [->|Ht]; [done|]); by apply elem_of_nil in Ht)).
  rewrite !Nat2Z.id. f_equal.
  repeat (apply elem_of_cons in Ht as [->|Ht]; [done|]). by apply elem_of_nil in Ht.
Qed.

(** Reading back a node written to a buffer gives its header, its keys and, for a
    leaf, its values or, for another node, its children. *)
Theorem node_roundtrip n pad rest m :
  node_ok n → header_ok (nheader n) → Forall kok (keys n) → Forall (fits 64) (values n) →
  Forall (fits 64) (children n) → length pad = 4%nat →
  node_deserialize (node_serialize n pad ++ rest) m =
  mkNode (node_id m) (nheader n) (keys n) (if isLeaf n then values n else values m)
    (if isLeaf n then children m else children n) false.
Proof.
  intros [Hk Hv Hc Hcnt Hs] Hh Hkk Hvv Hcc Hp. unfold node_deserialize, node_serialize.
  rewrite <- app_assoc, node_header_roundtrip by done. fold (isLeaf n).
  rewrite <- app_assoc. set (arr := if isLeaf n then _ else _).
  rewrite drop_app_length' by (by rewrite length_node_header).
  rewrite <- drop_drop, drop_app_length' by (by rewrite length_node_header).
  rewrite drop_app_length' by (rewrite (length_concat_map kencode ksize) by apply kencode_length; lia).
  f_equal.
  - rewrite <- Hk. apply decode_array_concat; [apply kencode_length|].
    eapply Forall_impl; [exact Hkk|]. intros x. apply kdecode_encode.
  - unfold arr. destruct (isLeaf n); [|done]. rewrite <- Hv.
    apply decode_array_concat; [intros; apply length_le_bytes|].
    eapply Forall_impl; [exact Hvv|]. intros x. apply (le_value_bytes_fits 8).
  - unfold arr. destruct (isLeaf n); [done|]. rewrite <- Hc.
    apply decode_array_concat; [intros; apply length_le_bytes|].
    eapply Forall_impl; [exact Hcc|]. intros x. apply (le_value_bytes_fits 8).
Qed.

End Leaf.

(** ** Witnesses *)

#[local] Instance int_key4 : Key Z := int_key 4.
#[local] Instance int_key4_laws : KeyLaws Z.
Proof. apply int_key_laws. lia. Defined.

(** A leaf with one entry. *)
Definition leaf1 (k v : Z) : BTreeNode Z :=
  match insert k v INVALID_PAGE_ID (BTreeNode_new 7 BTreeNodeType.LEAF) with
  | Some (n, _) => n
  | None => BTreeNode_new 7 BTreeNodeType.LEAF
  end.

Lemma keys_sorted_single (k : Z) : keys_sorted [k].
Proof. apply keys_sorted_iff. repeat constructor. Qed.

Lemma leaf1_ok k v : node_ok (leaf1 k v).
Proof.
  constructor; [reflexivity..| |].
  - apply Nat.leb_le. reflexivity.
  - exact (keys_sorted_single k).
Qed.

Lemma leaf_insert_witness :
  ∃ n' b, insert 3 9 INVALID_PAGE_ID (leaf1 5 6) = Some (n', b) ∧ node_ok n' ∧ isLeaf n' = true ∧
    (b = false ↔ isFull (leaf1 5 6) = true ∧ 3 ∉ node_keys (leaf1 5 6)) ∧
    entries n' = if b then ins 3 9 (entries (leaf1 5 6)) else entries (leaf1 5 6).
Proof. exact (leaf_insert (leaf1 5 6) 3 9 INVALID_PAGE_ID (leaf1_ok 5 6) eq_refl). Defined.

Lemma leaf_remove_witness :
  ∃ n' b, removeKey 5 (leaf1 5 6) = Some (n', b) ∧ node_ok n' ∧ isLeaf n' = true ∧
    (b = true ↔ 5 ∈ node_keys (leaf1 5 6)) ∧
    entries n' = List.filter (λ e, negb (key_eqb e.1 5)) (entries (leaf1 5 6)).
Proof. exact (leaf_remove (leaf1 5 6) 5 (leaf1_ok 5 6) eq_refl). Defined.

Lemma leaf_split_witness :
  ∃ l r m, split (leaf1 5 6) = Some (l, r) ∧ node_ok l ∧ node_ok r ∧ isLeaf l = true ∧
    isLeaf r = true ∧ entries (leaf1 5 6) = entries l ++ m :: entries r ∧
    next_id (nheader l) = INVALID_PAGE_ID ∧
    next_id (nheader r) = next_id (nheader (leaf1 5 6)) ∧
    prev_id (nheader r) = node_id (leaf1 5 6).
Proof.
  exact (leaf_split (leaf1 5 6) (leaf1_ok 5 6) eq_refl (proj1 (Nat.ltb_lt 0 1) eq_refl)).
Defined.

Lemma leaf_merge_witness :
  ∃ n' b, merge (leaf1 5 6) (leaf1 7 8) = Some (n', b) ∧
    b = bool_decide (level (nheader (leaf1 5 6)) = level (nheader (leaf1 7 8))) ∧
    entries n' = (if b then entries (leaf1 5 6) ++ entries (leaf1 7 8) else entries (leaf1 5 6)) ∧
    next_id (nheader n') =
      (if b then next_id (nheader (leaf1 7 8)) else next_id (nheader (leaf1 5 6))) ∧
    (Forall (λ e, Forall (λ e', klt e.1 e'.1) (entries (leaf1 7 8))) (entries (leaf1 5 6)) →
     node_ok n').
Proof.
  exact (leaf_merge (leaf1 5 6) (leaf1 7 8) (leaf1_ok 5 6) (leaf1_ok 7 8) eq_refl eq_refl
           (proj1 (Nat.leb_le 2 MAX_KEYS) eq_refl)).
Defined.

Lemma leaf1_header_ok : header_ok (nheader (leaf1 5 6)).
Proof.
  constructor; [apply elem_of_cons; left; reflexivity|apply Nat.leb_le; reflexivity
    |apply Nat.leb_le; reflexivity|..]; (split; [apply Z.leb_le|apply Z.ltb_lt]); reflexivity.
Qed.

Lemma Forall_small hi l :
  forallb (λ z, (0 <=? z) && (z <=? hi)) l = true → Forall (λ z, 0 ≤ z ≤ hi) l.
Proof.
  rewrite forallb_forall, Forall_forall. intros Hl z Hz%list_elem_of_In.
  apply Hl, andb_true_iff in Hz. lia.
Qed.

Lemma node_roundtrip_witness :
  node_deserialize (node_serialize (leaf1 5 6) [0; 0; 0; 0] ++ []) (leaf1 1 1) =
  mkNode 7 (nheader (leaf1 5 6)) (keys (leaf1 5 6)) (values (leaf1 5 6))
    (children (leaf1 1 1)) false.
Proof.
  apply (node_roundtrip (leaf1 5 6) [0; 0; 0; 0] [] (leaf1 1 1)).
  - apply leaf1_ok.
  - apply leaf1_header_ok.
  - eapply Forall_impl; [exact (Forall_small 5 (keys (leaf1 5 6)) eq_refl)|].
    intros z Hz. simpl in Hz. change (- 2 ^ 31 ≤ z < 2 ^ 31). lia.
  - eapply Forall_impl; [exact (Forall_small 6 (values (leaf1 5 6)) eq_refl)|].
    intros z Hz. simpl in Hz. unfold fits. lia.
  - apply Forall_replicate. split; [apply Z.leb_le|apply Z.ltb_lt]; reflexivity.
  - reflexivity.
Defined.
