(* ===== verification/BTree.v ===== *)
(** * BTree: the index over its nodes (src/index/btree.h, btree.cpp)

    The tree reaches its nodes through [getNode], which reads a copy of a node, and
    [releaseNode], which writes it back if it was changed and deletes the copy.  The
    algorithms are written against [NodeStore], the interface of the store of nodes;
    [PoolNodes] is the store of the source, over the buffer pool.
    [Page::getData] is used there but declared nowhere: it is a parameter of that
    part.  A call is a function of the monad [M]; it gives [None] when it does not
    return normally: undefined behaviour, such as the use of a node after its
    deletion, an exception, or a descent that does not end.  The fuel of a descent
    is the height of the tree, that of a walk its number of nodes.  [dump] is output;
    the copies of iterators and of the neighbours passed to [merge] and
    [redistribute] do not compile and are modelled as they are meant, except for the
    postfix increment. *)

From stdpp Require Import gmap list.
From Stdlib Require Import SpecFloat.
From S2P Require Import Prelude CxxString Types Doubles Page FileManager BufferPool BTreeNode.

Open Scope Z_scope.

(** ** Interfaces *)

(** [ns_load] is the part of [getNode] after its test, [ns_save] that of
    [releaseNode] for a changed node, [ns_create] the creation of a page for a node. *)
Class NodeStore (K T : Type) := {
  ns_load : Z → T → option (T * option (BTreeNode K));
  ns_save : BTreeNode K → T → option T;
  ns_create : T → option (T * Z)
}.

(** [remove(pos)] with an [int]: the overload depends on the type of the keys. *)
Class IntRemove (K : Type) `{Key K} := {
  removeInt : Z → BTreeNode K → option (BTreeNode K * bool)
}.

(** For [int32_t] the exact match is [remove(const K&)]. *)
Definition int32_remove : @IntRemove Z (int_key 4) :=
  {| removeInt pos n := @removeKey Z (int_key 4) pos n |}.
(** For the other types the intention, [remove(uint16_t)]. *)
Definition index_remove {K} `{Key K} : IntRemove K :=
  {| removeInt pos n := removeAt (Z.to_nat pos) n |}.

Record IndexConfig := mkIndexConfig {
  cfg_unique : bool;
  allow_duplicates : bool;
  fill_factor : Z;
  auto_vacuum : bool
}.
Definition IndexConfig_default : IndexConfig := mkIndexConfig false true 70 true.

Record IndexStats := mkIndexStats {
  total_keys : Z;
  total_nodes : Z;
  leaf_nodes : Z;
  internal_nodes : Z;
  height : Z;
  cache_hits : Z;
  cache_misses : Z;
  avg_fill_factor : spec_float
}.
Definition IndexStats_zero : IndexStats := mkIndexStats 0 0 0 0 0 0 0 (S754_zero false).

(** The counters are [size_t]. *)
Definition add_keys (d : Z) (s : IndexStats) : IndexStats :=
  mkIndexStats (wrap 64 (total_keys s + d)) (total_nodes s) (leaf_nodes s) (internal_nodes s)
    (height s) (cache_hits s) (cache_misses s) (avg_fill_factor s).
Definition add_nodes (total leaf internal : Z) (s : IndexStats) : IndexStats :=
  mkIndexStats (total_keys s) (wrap 64 (total_nodes s + total)) (wrap 64 (leaf_nodes s + leaf))
    (wrap 64 (internal_nodes s + internal)) (height s) (cache_hits s) (cache_misses s)
    (avg_fill_factor s).
Definition set_height (h : Z) (s : IndexStats) : IndexStats :=
  mkIndexStats (total_keys s) (total_nodes s) (leaf_nodes s) (internal_nodes s)
    (wrap 64 h) (cache_hits s) (cache_misses s) (avg_fill_factor s).
Definition add_cache (hit miss : Z) (s : IndexStats) : IndexStats :=
  mkIndexStats (total_keys s) (total_nodes s) (leaf_nodes s) (internal_nodes s)
    (height s) (wrap 64 (cache_hits s + hit)) (wrap 64 (cache_misses s + miss)) (avg_fill_factor s).
Definition set_fill (f : spec_float) (s : IndexStats) : IndexStats :=
  mkIndexStats (total_keys s) (total_nodes s) (leaf_nodes s) (internal_nodes s)
    (height s) (cache_hits s) (cache_misses s) f.

Section Tree.
Context {K : Type} `{Key K} {T : Type} `{NodeStore K T} `{!IntRemove K}.

Record BTree := mkBTree {
  bt_store : T;
  root_page_id : Z;
  bt_config : IndexConfig;
  bt_stats : IndexStats
}.

Definition set_bt_store (s : T) (t : BTree) : BTree :=
  mkBTree s (root_page_id t) (bt_config t) (bt_stats t).

(** ** The monad of a call *)

Definition M (A : Type) : Type := BTree → option (BTree * A).

#[export] Instance M_ret : MRet M := λ A a t, Some (t, a).
#[export] Instance M_bind : MBind M := λ A B f m t,
  match m t with Some (t', a) => f a t' | None => None end.

Definition undefined {A} : M A := λ _, None.
Definition lift {A} (o : option A) : M A := λ t, match o with Some a => Some (t, a) | None => None end.
Definition count (f : IndexStats → IndexStats) : M () := λ t,
  Some (mkBTree (bt_store t) (root_page_id t) (bt_config t) (f (bt_stats t)), ()).
Definition get_tree : M BTree := λ t, Some (t, t).
Definition set_root (pid : Z) : M () := λ t,
  Some (mkBTree (bt_store t) pid (bt_config t) (bt_stats t), ()).

(** ** Nodes *)

Definition getNode (pid : Z) : M (option (BTreeNode K)) := λ t,
  if decide (pid = INVALID_PAGE_ID) then Some (t, None)
  else
    match ns_load pid (bt_store t) with
    | Some (s, n) => Some (set_bt_store s t, n)
    | None => None
    end.

Definition releaseNode (n : BTreeNode K) : M () := λ t,
  if ndirty n then
    match ns_save n (bt_store t) with
    | Some s => Some (set_bt_store s t, ())
    | None => None
    end
  else Some (t, ()).

(** [releaseNode] of a pointer that may be null. *)
Definition releaseMaybe (n : option (BTreeNode K)) : M () :=
  match n with Some n => releaseNode n | None => mret () end.

Definition mark_node_dirty (n : BTreeNode K) : BTreeNode K :=
  mkNode (node_id n) (nheader n) (keys n) (values n) (children n) true.

Definition new_page : M Z := λ t,
  match ns_create (bt_store t) with
  | Some (s, pid) => Some (set_bt_store s t, pid)
  | None => None
  end.

Definition createNode (type : BTreeNodeType) : M Z :=
  pid ← new_page;
  releaseNode (mark_node_dirty (BTreeNode_new pid type)) ;;
  (if decide (type = BTreeNodeType.LEAF) then count (add_nodes 1 1 0) else count (add_nodes 1 0 1)) ;;
  mret pid.

Definition deleteNode (pid : Z) : M () := count (add_nodes (-1) 0 0).

(** [BTree::BTree]; page 0 is taken for the root. *)
Definition BTree_open (config : IndexConfig) (s : T) : option (BTree * ()) :=
  (root ← getNode 0;
   match root with
   | Some _ => count (set_height 1)
   | None =>
       pid ← createNode BTreeNodeType.LEAF;
       set_root pid ;;
       root ← getNode pid;
       match root with
       | Some root => releaseNode (setNodeType BTreeNodeType.ROOT root)
       | None => mret ()
       end ;;
       count (set_height 1)
   end) (mkBTree s 0 config IndexStats_zero).

(** ** Search *)

(** [pos >= 0 && pos < getKeyCount() && getKey(pos) == key] *)
Definition key_at (n : BTreeNode K) (pos : Z) (key : K) : bool :=
  (0 <=? pos) && (pos <? Z.of_nat (key_count (nheader n)))
  && match keys n !! Z.to_nat pos with Some k => key_eqb k key | None => false end.

Fixpoint findLeaf_loop (fuel : nat) (key : K) (node : option (BTreeNode K))
  : M (option (BTreeNode K)) :=
  match node with
  | None => mret None
  | Some n =>
      if isLeaf n then mret (Some n)
      else
        match fuel with
        | O => undefined
        | S fuel' =>
            child_index ← lift (findChildIndex n key);
            child ← getNode (getChild n (Z.to_nat child_index));
            releaseNode n ;;
            findLeaf_loop fuel' key child
        end
  end.

Definition findLeaf (fuel : nat) (key : K) : M (option (BTreeNode K)) :=
  t ← get_tree;
  node ← getNode (root_page_id t);
  findLeaf_loop fuel key node.

(** The value is the reference argument, set when the status is [OK]. *)
Definition btree_find (fuel : nat) (key : K) : M (StatusCode * option Z) :=
  node ← findLeaf fuel key;
  match node with
  | None => mret (StatusCode.NOT_FOUND, None)
  | Some node =>
      pos ← lift (findKeyIndex node key);
      if key_at node pos key then
        v ← lift (getValue node (Z.to_nat pos));
        releaseNode node ;;
        count (add_cache 1 0) ;;
        mret (StatusCode.OK, Some v)
      else
        releaseNode node ;;
        count (add_cache 0 1) ;;
        mret (StatusCode.NOT_FOUND, None)
  end.

(** The values from [pos] on whose key is [key], and where they stop. *)
Fixpoint collect_equal (fuel : nat) (n : BTreeNode K) (pos : Z) (key : K) : M (list Z * Z) :=
  if key_at n pos key then
    match fuel with
    | O => undefined
    | S fuel' =>
        v ← lift (getValue n (Z.to_nat pos));
        rest ← collect_equal fuel' n (pos + 1) key;
        mret (v :: rest.1, rest.2)
    end
  else mret ([], pos).

(** The following leaves that begin with the key; one turn per leaf. *)
Fixpoint collect_leaves (fuel : nat) (next : Z) (key : K) : M (list Z) :=
  if decide (next = INVALID_PAGE_ID) then mret []
  else
    match fuel with
    | O => undefined
    | S fuel' =>
        node ← getNode next;
        match node with
        | None => mret []
        | Some n =>
            if key_at n 0 key then
              vs ← collect_equal (key_count (nheader n)) n 0 key;
              releaseNode n ;;
              rest ← collect_leaves fuel' (next_id (nheader n)) key;
              mret (vs.1 ++ rest)
            else releaseNode n ;; mret []
        end
    end.

Definition findMany (fuel : nat) (key : K) : M (list Z) :=
  node ← findLeaf fuel key;
  match node with
  | None => mret []
  | Some n =>
      pos ← lift (findKeyIndex n key);
      vs ← collect_equal (key_count (nheader n)) n pos key;
      if Z.of_nat (key_count (nheader n)) <=? vs.2 then
        releaseNode n ;;
        rest ← collect_leaves fuel (next_id (nheader n)) key;
        mret (vs.1 ++ rest)
      else releaseNode n ;; mret vs.1
  end.

(** ** Splitting *)

(** The keys, and the values of a leaf, of the node that [split] made. *)
Fixpoint copy_entries (steps i : nat) (leaf : bool) (src dst : BTreeNode K) : option (BTreeNode K) :=
  match steps with
  | O => Some dst
  | S steps' =>
      k ← getKey src i;
      let dst := setKey i k dst in
      if leaf then v ← getValue src i; copy_entries steps' (1 + i) leaf src (setValue i v dst)
      else copy_entries steps' (1 + i) leaf src dst
  end.

Fixpoint copy_children (steps i : nat) (src dst : BTreeNode K) : BTreeNode K :=
  match steps with
  | O => dst
  | S steps' => copy_children steps' (1 + i) src (setChild i (getChild src i) dst)
  end.

(** [splitChild] up to its last statement; the flag tells that it was reached. *)
Definition splitChild_work (parent : BTreeNode K) (child_index : nat) : M (BTreeNode K * bool) :=
  child ← getNode (getChild parent child_index);
  match child with
  | None => mret (parent, false)
  | Some child =>
      if negb (isFull child) then releaseNode child ;; mret (parent, false)
      else
        new_child_page ← createNode (ntype (nheader child));
        new_child ← getNode new_child_page;
        match new_child with
        | None => releaseNode child ;; mret (parent, false)
        | Some new_child =>
            mid_key ← lift (keys child !! Nat.div (key_count (nheader child)) 2);
            halves ← lift (split child);
            let child := halves.1 in
            let split_node := halves.2 in
            let leaf := isLeaf child in
            let n := key_count (nheader split_node) in
            new_child ← lift (copy_entries n 0 leaf split_node new_child);
            let new_child := if leaf then new_child
                             else copy_children (n + 1) 0 split_node new_child in
            up ← lift (insertAt child_index mid_key 0 new_child_page parent);
            let parent := up.1 in
            let new_child := if leaf then setPrevId (node_id child)
                                            (setNextId (next_id (nheader child)) new_child)
                             else new_child in
            let child := if leaf then setNextId new_child_page child else child in
            releaseNode (setParentId (node_id parent) child) ;;
            releaseNode (setParentId (node_id parent) new_child) ;;
            count (add_nodes 0 0 1) ;;
            mret (parent, true)
        end
  end.

(** The last statement reads [child->isLeaf()] after [child] was deleted. *)
Definition splitChild (parent : BTreeNode K) (child_index : nat) : M (BTreeNode K) :=
  r ← splitChild_work parent child_index;
  if (r.2 : bool) then undefined else mret r.1.

(** ** Insertion *)

(** The fuel is the height: one call per level. *)
Fixpoint insertInternal (fuel : nat) (key : K) (value : Z) (node_page : Z) : M StatusCode :=
  node ← getNode node_page;
  match node with
  | None => mret StatusCode.ERROR
  | Some node =>
      pos ← lift (findKeyIndex node key);
      if isLeaf node then
        t ← get_tree;
        if cfg_unique (bt_config t) && key_at node pos key then
          releaseNode node ;; mret StatusCode.ALREADY_EXISTS
        else
          r ← lift (insert key value INVALID_PAGE_ID node);
          releaseNode r.1 ;;
          mret (if (r.2 : bool) then StatusCode.OK else StatusCode.ERROR)
      else
        ci ← lift (findChildIndex node key);
        let child_index := Z.to_nat ci in
        child ← getNode (getChild node child_index);
        match child with
        | None => releaseNode node ;; mret StatusCode.ERROR
        | Some child =>
            r ← (if isFull child then
                   node ← splitChild node child_index;
                   k ← lift (getKey node child_index);
                   let child_page := if key_ltb k key then getChild node (child_index + 1)
                                     else getChild node child_index in
                   releaseNode child ;;
                   child ← getNode child_page;
                   mret (node, child_page, child)
                 else mret (node, getChild node child_index, Some child));
            let '(node, child_page, child) := r in
            match fuel with
            | O => undefined
            | S fuel' =>
                status ← insertInternal fuel' key value child_page;
                releaseNode node ;;
                releaseMaybe child ;;
                mret status
            end
        end
  end.

Definition btree_insert (fuel : nat) (key : K) (value : Z) : M StatusCode :=
  count (add_keys 1) ;;
  t ← get_tree;
  root ← getNode (root_page_id t);
  match root with
  | None => mret StatusCode.ERROR
  | Some root =>
      r ← (if isFull root then
             new_root_id ← createNode BTreeNodeType.INTERNAL;
             new_root ← getNode new_root_id;
             match new_root with
             | None => releaseNode root ;; mret None
             | Some new_root =>
                 let new_root := setChild 0 (root_page_id t)
                                   (setNodeType BTreeNodeType.ROOT new_root) in
                 releaseNode (setNodeType BTreeNodeType.INTERNAL (setParentId new_root_id root)) ;;
                 new_root ← splitChild new_root 0;
                 set_root new_root_id ;;
                 t ← get_tree;
                 count (set_height (height (bt_stats t) + 1)) ;;
                 mret (Some new_root)
             end
           else mret (Some root));
      match r with
      | None => mret StatusCode.ERROR
      | Some root =>
          t ← get_tree;
          status ← insertInternal fuel key value (root_page_id t);
          releaseNode root ;;
          mret status
      end
  end.

(** ** Removal *)

Definition mergeNodes (parent : BTreeNode K) (index : nat) : M (BTreeNode K * bool) :=
  let right_page := getChild parent (index + 1) in
  left_node ← getNode (getChild parent index);
  right_node ← getNode right_page;
  match left_node, right_node with
  | Some left_node, Some right_node =>
      left_node ← (if negb (isLeaf left_node) then
                k ← lift (getKey parent index);
                mret (setChild (child_count (nheader left_node)) (getChild right_node 0)
                        (setKey (key_count (nheader left_node)) k left_node))
              else mret left_node);
      m ← lift (merge left_node right_node);
      let left_node := if isLeaf m.1 then setNextId (next_id (nheader right_node)) m.1 else m.1 in
      p ← lift (removeInt (Z.of_nat index) parent);
      deleteNode right_page ;;
      releaseNode left_node ;;
      releaseNode right_node ;;
      mret (p.1, true)
  | _, _ => releaseMaybe left_node ;; releaseMaybe right_node ;; mret (parent, false)
  end.

Definition tree_redistribute (parent : BTreeNode K) (index : nat) (from_left : bool)
  : M (BTreeNode K) :=
  if from_left then
    left_node ← getNode (getChild parent (index - 1));
    right_node ← getNode (getChild parent index);
    match left_node, right_node with
    | Some left_node, Some right_node =>
        r ← lift (redistribute right_node left_node true);
        let '(right_node, left_node) := r in
        parent ← (if negb (isLeaf right_node) then
                    k ← lift (getKey left_node (key_count (nheader left_node) - 1));
                    mret (setKey (index - 1) k parent)
                  else mret parent);
        releaseNode left_node ;;
        releaseNode right_node ;;
        mret parent
    | _, _ => mret parent
    end
  else
    left_node ← getNode (getChild parent index);
    right_node ← getNode (getChild parent (index + 1));
    match left_node, right_node with
    | Some left_node, Some right_node =>
        r ← lift (redistribute left_node right_node false);
        let '(left_node, right_node) := r in
        parent ← (if negb (isLeaf left_node) then
                    k ← lift (getKey right_node 0);
                    mret (setKey index k parent)
                  else mret parent);
        releaseNode left_node ;;
        releaseNode right_node ;;
        mret parent
    | _, _ => mret parent
    end.

(** A sibling with keys to spare. *)
Definition can_lend (n : option (BTreeNode K)) : bool :=
  match n with Some n => bool_decide (MIN_KEYS < key_count (nheader n))%nat | None => false end.

(** The two attempts and the merge, each on the parent as it was read. *)
Definition handleUnderflow (parent_page : Z) (index_in_parent : nat) : M () :=
  parent ← getNode parent_page;
  match parent with
  | None => mret ()
  | Some parent =>
      left_done ← (if decide (0 < index_in_parent)%nat then
                     left_sibling ← getNode (getChild parent (index_in_parent - 1));
                     if can_lend left_sibling then
                       parent ← tree_redistribute parent index_in_parent true;
                       releaseMaybe left_sibling ;;
                       releaseNode parent ;;
                       mret true
                     else releaseMaybe left_sibling ;; mret false
                   else mret false);
      if (left_done : bool) then mret ()
      else
        right_done ← (if decide (Z.of_nat index_in_parent < Z.of_nat (child_count (nheader parent)) - 1)
                      then
                        right_sibling ← getNode (getChild parent (index_in_parent + 1));
                        if can_lend right_sibling then
                          parent ← tree_redistribute parent index_in_parent false;
                          releaseMaybe right_sibling ;;
                          releaseNode parent ;;
                          mret true
                        else releaseMaybe right_sibling ;; mret false
                      else mret false);
        if (right_done : bool) then mret ()
        else
          m ← mergeNodes parent (if decide (0 < index_in_parent)%nat then index_in_parent - 1
                                 else index_in_parent)%nat;
          releaseNode m.1
  end.

(** A key of an inner node is replaced by its neighbour in a leaf, unless both
    children are small.  The loops for the neighbour delete the child they start
    from, or it is deleted after them, and the child is released again at the end. *)
Fixpoint removeInternal (fuel : nat) (key : K) (node_page : Z) : M StatusCode :=
  node ← getNode node_page;
  match node with
  | None => mret StatusCode.ERROR
  | Some node =>
      pos ← lift (findKeyIndex node key);
      if isLeaf node then
        if key_at node pos key then
          r ← lift (removeInt pos node);
          releaseNode r.1 ;;
          mret StatusCode.OK
        else releaseNode node ;; mret StatusCode.NOT_FOUND
      else if key_at node pos key then
        left_child ← getNode (getChild node (Z.to_nat pos));
        right_child ← getNode (getChild node (Z.to_nat pos + 1));
        match left_child, right_child with
        | Some left_child, Some right_child =>
            if decide (MIN_KEYS + 1 ≤ key_count (nheader left_child))%nat then undefined
            else if decide (MIN_KEYS + 1 ≤ key_count (nheader right_child))%nat then undefined
            else
              m ← mergeNodes node (Z.to_nat pos);
              match fuel with
              | O => undefined
              | S fuel' =>
                  removeInternal fuel' key (getChild m.1 (Z.to_nat pos)) ;;
                  releaseNode left_child ;;
                  releaseNode right_child ;;
                  releaseNode m.1 ;;
                  mret StatusCode.OK
              end
        | _, _ =>
            releaseNode node ;; releaseMaybe left_child ;; releaseMaybe right_child ;;
            mret StatusCode.ERROR
        end
      else
        ci ← lift (findChildIndex node key);
        let child_index := Z.to_nat ci in
        let child_page := getChild node child_index in
        child ← getNode child_page;
        match child with
        | None => releaseNode node ;; mret StatusCode.ERROR
        | Some child =>
            child ← (if isUnderflow child then
                       handleUnderflow node_page child_index ;;
                       releaseNode child ;;
                       getNode child_page
                     else mret (Some child));
            match child with
            | None => releaseNode node ;; mret StatusCode.ERROR
            | Some child =>
                match fuel with
                | O => undefined
                | S fuel' =>
                    status ← removeInternal fuel' key child_page;
                    releaseNode node ;;
                    releaseNode child ;;
                    mret status
                end
            end
        end
  end.

(** After a removal: a root without keys that is not a leaf gives way to its child. *)
Definition shrink_root : M () :=
  count (add_keys (-1)) ;;
  t ← get_tree;
  root ← getNode (root_page_id t);
  match root with
  | Some root =>
      (if decide (key_count (nheader root) = 0%nat) then
         if negb (isLeaf root) then
           let old_root := root_page_id t in
           set_root (getChild root 0) ;;
           new_root ← getNode (getChild root 0);
           match new_root with
           | Some new_root =>
               releaseNode (setParentId INVALID_PAGE_ID (setNodeType BTreeNodeType.ROOT new_root))
           | None => mret ()
           end ;;
           deleteNode old_root ;;
           t ← get_tree;
           count (set_height (height (bt_stats t) - 1))
         else mret ()
       else mret ()) ;;
      releaseNode root
  | None => mret ()
  end.

Definition btree_remove (fuel : nat) (key : K) : M StatusCode :=
  t ← get_tree;
  status ← removeInternal fuel key (root_page_id t);
  (if decide (status = StatusCode.OK) then shrink_root else mret ()) ;;
  mret status.

(** ** Iterators *)

Record Iterator := mkIterator {
  it_page : Z;
  it_slot : Z;
  is_end : bool;
  it_node : option (BTreeNode K)
}.

Definition loadCurrentNode (it : Iterator) : M Iterator :=
  if decide (it_page it ≠ INVALID_PAGE_ID) then
    n ← getNode (it_page it);
    mret (mkIterator (it_page it) (it_slot it) (is_end it) n)
  else mret it.

(** The slot is a [uint16_t]. *)
Definition it_advance (it : Iterator) : M Iterator :=
  it ← match it_node it with Some _ => mret it | None => loadCurrentNode it end;
  match it_node it with
  | None => mret (mkIterator (it_page it) (it_slot it) true None)
  | Some n =>
      let slot := wrap 16 (it_slot it + 1) in
      if Z.of_nat (key_count (nheader n)) <=? slot then
        let page := next_id (nheader n) in
        if decide (page = INVALID_PAGE_ID) then mret (mkIterator page 0 true None)
        else loadCurrentNode (mkIterator page 0 (is_end it) None)
      else mret (mkIterator (it_page it) slot (is_end it) (Some n))
  end.

Fixpoint leftmost (fuel : nat) (node : option (BTreeNode K)) : M (option (BTreeNode K)) :=
  match node with
  | None => mret None
  | Some n =>
      if isLeaf n then mret (Some n)
      else
        match fuel with
        | O => undefined
        | S fuel' =>
            releaseNode n ;;
            child ← getNode (getChild n 0);
            leftmost fuel' child
        end
  end.

Definition tree_end : Iterator := mkIterator INVALID_PAGE_ID 0 true None.

Definition tree_begin (fuel : nat) : M Iterator :=
  t ← get_tree;
  root ← getNode (root_page_id t);
  match root with
  | None => mret (mkIterator INVALID_PAGE_ID 0 false None)
  | Some root =>
      node ← leftmost fuel (Some root);
      match node with
      | Some n =>
          let it := mkIterator (node_id n) 0 false (Some n) in
          if decide (key_count (nheader n) = 0%nat) then it_advance it else mret it
      | None => mret (mkIterator INVALID_PAGE_ID 0 true None)
      end
  end.

Definition it_ne (a b : Iterator) : bool :=
  negb (Bool.eqb (is_end a) (is_end b)) || negb (it_page a =? it_page b)
  || negb (it_slot a =? it_slot b).

(** [None] is the exception. *)
Definition it_deref (it : Iterator) : option (K * Z) :=
  if is_end it then None
  else
    n ← it_node it;
    k ← getKey n (Z.to_nat (it_slot it));
    v ← getValue n (Z.to_nat (it_slot it));
    Some (k, v).

(** [while (pos < getKeyCount() && getKey(pos) < key) pos++;] *)
Fixpoint skip_less (steps : nat) (n : BTreeNode K) (pos : nat) (key : K) : nat :=
  match steps with
  | O => pos
  | S steps' =>
      match getKey n pos with
      | Some k => if key_ltb k key then skip_less steps' n (1 + pos) key else pos
      | None => pos
      end
  end.

(** A null [current_node_] is dereferenced: undefined. *)
Definition findFirst (fuel : nat) (key : K) : M Iterator :=
  node ← findLeaf fuel key;
  match node with
  | None => mret tree_end
  | Some n =>
      p ← lift (findKeyIndex n key);
      let pos := skip_less (key_count (nheader n)) n (Z.to_nat p) key in
      releaseNode n ;;
      it ← tree_begin fuel;
      it ← loadCurrentNode (mkIterator (node_id n) (Z.of_nat pos) (is_end it) (it_node it));
      match it_node it with
      | None => undefined
      | Some m =>
          if Z.of_nat (key_count (nheader m)) <=? it_slot it then it_advance it else mret it
      end
  end.

(** [while (pos >= 0 && getKey(pos) > key) pos--;] from [pos - 1]; -1 is converted to
    the type of a slot. *)
Fixpoint skip_greater (n : BTreeNode K) (pos : nat) (key : K) : option Z :=
  match pos with
  | O => Some (-1)
  | S pos' =>
      k ← getKey n pos';
      if key_ltb key k then skip_greater n pos' key else Some (Z.of_nat pos')
  end.

Definition findLast (fuel : nat) (key : K) : M Iterator :=
  node ← findLeaf fuel key;
  match node with
  | None => mret tree_end
  | Some n =>
      p ← lift (findKeyIndex n key);
      let p := if Z.of_nat (key_count (nheader n)) <=? p
               then Z.of_nat (key_count (nheader n)) - 1 else p in
      pos ← lift (skip_greater n (Z.to_nat (p + 1)) key);
      releaseNode n ;;
      it ← tree_begin fuel;
      loadCurrentNode (mkIterator (node_id n) (wrap 16 pos) (is_end it) (it_node it))
  end.

(** ** Ranges *)

(** One turn per entry. *)
Fixpoint range_loop (fuel : nat) (it : Iterator) (last : K) : M (list (K * Z)) :=
  if it_ne it tree_end then
    match fuel with
    | O => undefined
    | S fuel' =>
        e ← lift (it_deref it);
        if key_ltb last e.1 then mret []
        else
          it ← it_advance it;
          rest ← range_loop fuel' it last;
          mret (e :: rest)
    end
  else mret [].

Definition rangeQueryWithKeys (fuel : nat) (start last : K) : M (list (K * Z)) :=
  it ← findFirst fuel start; range_loop fuel it last.

Definition rangeQuery (fuel : nat) (start last : K) : M (list Z) :=
  r ← rangeQueryWithKeys fuel start last; mret r.*2.

(** ** Batches *)

Fixpoint bulk_insert_loop (fuel : nat) (entries : list (K * Z)) (status : StatusCode) : M StatusCode :=
  match entries with
  | [] => mret status
  | e :: entries' =>
      status ← btree_insert fuel e.1 e.2;
      if decide (status ≠ StatusCode.OK ∧ status ≠ StatusCode.ALREADY_EXISTS) then mret status
      else bulk_insert_loop fuel entries' status
  end.

(** [std::sort] is an argument: the order of equal keys is not specified. *)
Definition bulkInsert (sort : (K * Z → K * Z → bool) → list (K * Z) → list (K * Z))
    (fuel : nat) (entries : list (K * Z)) : M StatusCode :=
  bulk_insert_loop fuel (sort (λ a b, key_ltb a.1 b.1) entries) StatusCode.OK.

Fixpoint bulkDelete (fuel : nat) (ks : list K) : M nat :=
  match ks with
  | [] => mret 0%nat
  | k :: ks' =>
      status ← btree_remove fuel k;
      n ← bulkDelete fuel ks';
      mret (if decide (status = StatusCode.OK) then 1 + n else n)%nat
  end.

(** ** Walks *)

(** The children up to the number of keys that are not [INVALID_PAGE_ID]. *)
Definition child_pages (n : BTreeNode K) : list Z :=
  filter (λ c, c ≠ INVALID_PAGE_ID) (getChild n <$> seq 0 (key_count (nheader n) + 1)).

(** [getKey] and [getValue] of all the slots of a leaf *)
Fixpoint leaf_entries (steps i : nat) (n : BTreeNode K) : option (list (K * Z)) :=
  match steps with
  | O => Some []
  | S steps' =>
      k ← getKey n i; v ← getValue n i; rest ← leaf_entries steps' (1 + i) n; Some ((k, v) :: rest)
  end.

(** The stack, its top first; one turn per node. *)
Fixpoint traverse_loop (fuel : nat) (stack : list Z) : M (list (K * Z)) :=
  match stack with
  | [] => mret []
  | current :: stack =>
      match fuel with
      | O => undefined
      | S fuel' =>
          node ← getNode current;
          match node with
          | None => traverse_loop fuel' stack
          | Some n =>
              if isLeaf n then
                es ← lift (leaf_entries (key_count (nheader n)) 0 n);
                releaseNode n ;;
                rest ← traverse_loop fuel' stack;
                mret (es ++ rest)
              else
                releaseNode n ;;
                traverse_loop fuel' (child_pages n ++ stack)
          end
      end
  end.

(** The calls of the function, in order. *)
Definition traverse (fuel : nat) : M (list (K * Z)) :=
  t ← get_tree;
  node ← getNode (root_page_id t);
  match node with
  | None => mret []
  | Some _ => traverse_loop fuel [root_page_id t]
  end.

Definition rebuild sort (fuel : nat) : M StatusCode :=
  entries ← traverse fuel; bulkInsert sort fuel entries.

Definition vacuum sort (fuel : nat) : M StatusCode :=
  traverse fuel ;; rebuild sort fuel.

(** The queue, its front first. *)
Fixpoint stats_loop (fuel : nat) (queue : list Z) (total_fill node_count : Z) : M (Z * Z) :=
  match queue with
  | [] => mret (total_fill, node_count)
  | current :: queue =>
      match fuel with
      | O => undefined
      | S fuel' =>
          node ← getNode current;
          match node with
          | None => stats_loop fuel' queue total_fill node_count
          | Some n =>
              releaseNode n ;;
              stats_loop fuel' (if isLeaf n then queue else queue ++ child_pages n)
                (wrap 64 (total_fill + (Z.of_nat (key_count (nheader n)) * 100) ÷ Z.of_nat MAX_KEYS))
                (wrap 64 (node_count + 1))
          end
      end
  end.

Definition btree_getStats (fuel : nat) : M IndexStats :=
  count (set_fill (S754_zero false)) ;;
  t ← get_tree;
  r ← stats_loop fuel [root_page_id t] 0 0;
  (if 0 <? r.2 then count (set_fill (SFdiv 53 1024 (double_of_int r.1) (double_of_int r.2)))
   else mret ()) ;;
  t ← get_tree;
  mret (bt_stats t).

(** [getKey(i) < getKey(i - 1)] for some [i] *)
Fixpoint keys_in_order (ks : list K) : bool :=
  match ks with
  | k :: (k' :: _) as ks' => negb (key_ltb k' k) && keys_in_order ks'
  | _ => true
  end.

Fixpoint validateNode (fuel : nat) (n : BTreeNode K) (min_key max_key : K) : M bool :=
  let kc := key_count (nheader n) in
  let ks := take kc (keys n) in
  if decide (MAX_KEYS < kc)%nat then mret false
  else if negb (isRoot n) && bool_decide (kc < MIN_KEYS)%nat then mret false
  else if negb (keys_in_order ks) then mret false
  else if match head ks with Some k => key_ltb k min_key | None => false end then mret false
  else if match last ks with Some k => key_ltb max_key k | None => false end then mret false
  else if isLeaf n then mret true
  else
    match fuel with
    | O => undefined
    | S fuel' =>
        (fix children_ok (l : list nat) : M bool :=
           match l with
           | [] => mret true
           | i :: l' =>
               child ← getNode (getChild n i);
               match child with
               | None => mret false
               | Some child =>
                   let child_min := if decide (i = 0%nat) then min_key
                                    else default min_key (ks !! (i - 1)%nat) in
                   let child_max := if decide (i = kc) then max_key else default max_key (ks !! i) in
                   ok ← validateNode fuel' child child_min child_max;
                   releaseNode child ;;
                   if (ok : bool) then children_ok l' else mret false
               end
           end) (seq 0 (kc + 1))
    end.

(** The result of the check is only printed. *)
Definition btree_validate (fuel : nat) : M () :=
  t ← get_tree;
  root ← getNode (root_page_id t);
  match root with
  | Some root => validateNode fuel root kdefault kdefault ;; releaseNode root
  | None => mret ()
  end.

End Tree.
Arguments BTree T : clear implicits.
Arguments Iterator K : clear implicits.

(** ** The store of nodes over the buffer pool *)

Section PoolNodes.
Context {K : Type} `{Key K} {St : Type} `{PageStore St}.
(** [id_], and [Page::getData] as the bytes it gives and their replacement. *)
Variable id : Z.
Variable page_bytes : Page → list Z.
Variable set_page_bytes : list Z → Page → Page.

(** The bytes of a node in memory. *)
Definition node_size (leaf : bool) : nat :=
  40 + MAX_KEYS * ksize + (if leaf then MAX_KEYS * 8 else ORDER * 8).

(** Reading a node that extends past the bytes of the page is undefined. *)
Definition pool_load (pid : Z) (p : BufferPool St) : option (BufferPool St * option (BTreeNode K)) :=
  r ← fetchPage id pid FetchMode.READ p;
  match r.2 with
  | None => Some (r.1, None)
  | Some key =>
      f ← frames r.1 !! key;
      let bytes := page_bytes (fpage f) in
      let n := node_deserialize bytes (BTreeNode_new pid BTreeNodeType.LEAF) in
      if decide (length bytes < node_size (isLeaf n))%nat then None
      else Some (unpinPage pid false r.1, Some n)
  end.

(** A node that does not fit the buffer of [PAGE_SIZE] bytes is undefined; the rest of
    the buffer, which is indeterminate, is zero here. *)
Definition pool_save (n : BTreeNode K) (p : BufferPool St) : option (BufferPool St) :=
  let bytes := node_serialize n (replicate 4 0) in
  if decide (Z.to_nat PAGE_SIZE < length bytes)%nat then None
  else
    let buffer := bytes ++ replicate (Z.to_nat PAGE_SIZE - length bytes) 0 in
    r ← fetchPage id (node_id n) FetchMode.WRITE p;
    match r.2 with
    | None => Some r.1
    | Some key =>
        f ← frames r.1 !! key;
        Some (unpinPage (node_id n) true (with_page key (set_page_bytes buffer) r.1))
    end.

Definition pool_create (p : BufferPool St) : option (BufferPool St * Z) :=
  c ← createNewPage id PageType.INDEX_PAGE p;
  f ← frames c.1 !! c.2;
  let pid := page_id (header (fpage f)) in
  Some (unpinPage pid true c.1, pid).

Definition PoolNodes : NodeStore K (BufferPool St) :=
  {| ns_load := pool_load; ns_save := pool_save; ns_create := pool_create |}.

End PoolNodes.
