(* ===== verification/BTreeProofs.v ===== *)
(** * BTreeProofs: searching and inserting in an index

    [NodeStoreLaws] is what the tree needs of the store of its nodes.  [holds] says
    that the nodes under a page form a search tree with given entries; search finds
    exactly these, and an insertion that meets no full node inserts into them. *)

From stdpp Require Import gmap list.
From S2P Require Import Prelude CxxString Types Page PageProofs FileManager BufferPool BufferPoolProofs TableProofs BTreeNode BTreeNodeProofs BTree.

Open Scope Z_scope.

(** ** Laws of the store of nodes *)

(** A node that can be written and read back. *)
Record storable {K} `{Key K} (n : BTreeNode K) : Prop := mk_storable {
  st_node : node_ok n;
  st_header : header_ok (nheader n);
  st_keys : Forall kok (keys n);
  st_values : Forall (fits 64) (values n);
  st_children : Forall (fits 64) (children n)
}.

(** What is read back: the array that the type of the node does not use is reset. *)
Definition stored_node {K} `{Key K} (n : BTreeNode K) : BTreeNode K :=
  mkNode (node_id n) (nheader n) (keys n)
    (if isLeaf n then values n else replicate MAX_KEYS 0)
    (if isLeaf n then replicate ORDER INVALID_PAGE_ID else children n) false.

Class NodeStoreLaws (K T : Type) `{Key K} `{NodeStore K T} := {
  ns_ok : T → Prop;
  ns_nodes : T → gmap Z (BTreeNode K);
  (** there is room for one more page *)
  ns_room : T → Prop;
  ns_load_law s pid n :
    ns_ok s → ns_nodes s !! pid = Some n →
    ∃ s', ns_load pid s = Some (s', Some n) ∧ ns_ok s' ∧ ns_nodes s' = ns_nodes s;
  ns_save_law s n :
    ns_ok s → storable n → is_Some (ns_nodes s !! node_id n) →
    ∃ s', ns_save n s = Some s' ∧ ns_ok s' ∧ ns_nodes s' = <[node_id n := stored_node n]> (ns_nodes s);
  ns_create_law s :
    ns_ok s → ns_room s →
    ∃ s' pid n, ns_create s = Some (s', pid) ∧ ns_ok s' ∧ pid ≠ INVALID_PAGE_ID ∧
      ns_nodes s !! pid = None ∧ ns_nodes s' = <[pid := n]> (ns_nodes s)
}.

Lemma elem_of_concat {A} (x : A) ls : x ∈ concat ls ↔ ∃ l, l ∈ ls ∧ x ∈ l.
Proof.
  induction ls as [|l ls IH]; cbn [concat]; [set_solver|].
  rewrite elem_of_app, IH. set_solver.
Qed.

Section Tree.
Context {K : Type} `{HK : Key K} `{HL : !KeyLaws K} {T : Type} `{HN : NodeStore K T}.
Context `{HNL : !NodeStoreLaws K T} `{HR : !IntRemove K}.
Implicit Types (t : BTree T) (n : BTreeNode K) (m : gmap Z (BTreeNode K)) (key : K).

(** The store of [t] holds the nodes [m]. *)
Definition at_nodes t m : Prop := ns_ok (bt_store t) ∧ ns_nodes (bt_store t) = m.

(** Only the store and the statistics may differ. *)
Definition same_tree t t' : Prop :=
  root_page_id t' = root_page_id t ∧ bt_config t' = bt_config t.

Lemma same_tree_trans t1 t2 t3 : same_tree t1 t2 → same_tree t2 t3 → same_tree t1 t3.
Proof. unfold same_tree. intros [-> ->] [-> ->]. done. Qed.

Lemma getNode_at t m pid n :
  at_nodes t m → m !! pid = Some n → pid ≠ INVALID_PAGE_ID →
  ∃ t', getNode pid t = Some (t', Some n) ∧ at_nodes t' m ∧ same_tree t t' ∧ bt_stats t' = bt_stats t.
Proof.
  intros [Hok <-] Hn Hpid. destruct (ns_load_law _ _ _ Hok Hn) as (s & Hl & Hok' & Hm).
  exists (set_bt_store s t). unfold getNode. rewrite decide_False, Hl by done. done.
Qed.

Lemma releaseNode_clean n t : ndirty n = false → releaseNode n t = Some (t, ()).
Proof. unfold releaseNode. by intros ->. Qed.

Lemma releaseNode_dirty t m n :
  at_nodes t m → ndirty n = true → storable n → is_Some (m !! node_id n) →
  ∃ t', releaseNode n t = Some (t', ()) ∧ at_nodes t' (<[node_id n := stored_node n]> m) ∧
    same_tree t t' ∧ bt_stats t' = bt_stats t.
Proof.
  intros [Hok <-] Hd Hs Hin. destruct (ns_save_law _ _ Hok Hs Hin) as (s & Hl & Hok' & Hm).
  exists (set_bt_store s t). unfold releaseNode. rewrite Hd, Hl. done.
Qed.

Lemma M_bind_eq {A B} (f : A → M B) (c : M A) t t' a :
  c t = Some (t', a) → mbind f c t = (f a t' : option (BTree T * B)).
Proof. unfold mbind, M_bind. by intros ->. Qed.

Lemma lift_some {A} (a : A) t : lift (Some a) t = Some (t, a).
Proof. done. Qed.

(** ** Search trees *)

Definition in_range (lo hi : option K) (k : K) : Prop :=
  (∀ l, lo = Some l → ¬ klt k l) ∧ (∀ u, hi = Some u → klt k u).

(** The bounds of child [i]. *)
Definition child_lo n (i : nat) (lo : option K) : option K :=
  match i with O => lo | S j => node_keys n !! j end.
Definition child_hi n (i : nat) (hi : option K) : option K :=
  if decide (i = key_count (nheader n)) then hi else node_keys n !! i.

(** Under page [pid] there is a tree of height [h] on the pages [pids] with the
    entries [es], whose keys are in the bounds. *)
Fixpoint holds m (h : nat) (pid : Z) (lo hi : option K) (es : list (K * Z)) (pids : list Z) : Prop :=
  ∃ n, m !! pid = Some n ∧ pid ≠ INVALID_PAGE_ID ∧ storable n ∧ ndirty n = false ∧ node_id n = pid ∧
  match h with
  | O => isLeaf n = true ∧ es = entries n ∧ pids = [pid] ∧ Forall (in_range lo hi) es.*1
  | S h' =>
      isLeaf n = false ∧ child_count (nheader n) = S (key_count (nheader n)) ∧
      Forall (in_range lo hi) (node_keys n) ∧
      ∃ kids : list (list (K * Z) * list Z),
        length kids = S (key_count (nheader n)) ∧ es = concat kids.*1 ∧ pids = pid :: concat kids.*2 ∧
        ∀ i kid, kids !! i = Some kid →
          holds m h' (getChild n i) (child_lo n i lo) (child_hi n i hi) kid.1 kid.2
  end.

Definition kle (a b : K) : Prop := ¬ klt b a.

Lemma kle_klt_trans (a b c : K) : kle a b → klt b c → klt a c.
Proof.
  intros Hab Hbc. destruct (klt_trichotomy a b) as [?|[->|?]]; [by eapply kcmp_trans|done|].
  by destruct Hab.
Qed.
Lemma klt_kle_trans (a b c : K) : klt a b → kle b c → klt a c.
Proof.
  intros Hab Hbc. destruct (klt_trichotomy b c) as [?|[->|?]]; [by eapply kcmp_trans|done|].
  by destruct Hbc.
Qed.
Lemma klt_kle (a b : K) : klt a b → kle a b.
Proof. intros ? ?. by eapply klt_asym. Qed.
Lemma kle_trans (a b c : K) : kle a b → kle b c → kle a c.
Proof. intros Hab Hbc Hca. apply Hab. eapply kle_klt_trans; done. Qed.
Lemma kle_refl (a : K) : kle a a.
Proof. apply klt_irrefl. Qed.

(** The keys of a tree are in its bounds. *)
Lemma holds_range m h : ∀ pid lo hi es pids,
  holds m h pid lo hi es pids → Forall (in_range lo hi) es.*1.
Proof.
  induction h as [|h IH]; intros pid lo hi es pids (n & _ & _ & Hst & _ & _ & Hrest).
  { destruct Hrest as (_ & -> & _ & ?). done. }
  destruct Hrest as (_ & _ & Hks & kids & Hlen & -> & _ & Hkids).
  rewrite Forall_fmap, Forall_concat, Forall_fmap, Forall_lookup. intros i kid Hi.
  pose proof (lookup_lt_Some _ _ _ Hi) as Hlt. rewrite Hlen in Hlt.
  pose proof (IH _ _ _ _ _ (Hkids i kid Hi)) as Hr. rewrite Forall_fmap in Hr.
  pose proof (length_node_keys n (st_node _ Hst)) as Hlk. rewrite Forall_lookup in Hks.
  eapply Forall_impl; [exact Hr|]. intros e [Hlo Hhi]. split.
  - intros l ->. destruct i as [|i]; [by apply Hlo|]. cbn [child_lo] in Hlo.
    destruct (lookup_lt_is_Some_2 (node_keys n) i) as [k Hk]; [lia|].
    destruct (Hks i k Hk) as [Hlk' _]. specialize (Hlk' l eq_refl). specialize (Hlo k Hk).
    cbn in *. intros Hlt'. apply Hlk'. eapply kle_klt_trans; [|exact Hlt']. done.
  - intros u ->. unfold child_hi in Hhi. case_decide as Hd; [by apply Hhi|].
    destruct (lookup_lt_is_Some_2 (node_keys n) i) as [k Hk]; [lia|].
    destruct (Hks i k Hk) as [_ Hku]. specialize (Hku u eq_refl). specialize (Hhi k Hk).
    cbn in *. by eapply kcmp_trans.
Qed.

(** ** The child of a key *)

(** Child [i] of [n] is the one for [key]. *)
Definition child_for n key (i : nat) : Prop :=
  (i ≤ key_count (nheader n))%nat ∧
  (∀ j a, (j < i)%nat → node_keys n !! j = Some a → kle a key) ∧
  (∀ j a, (i ≤ j)%nat → node_keys n !! j = Some a → klt key a).

Lemma findChildIndex_spec n key :
  node_ok n → isLeaf n = false → ∃ i, findChildIndex n key = Some (Z.of_nat i) ∧ child_for n key i.
Proof.
  intros Hn Hl. destruct (findKeyIndex_position n key Hn) as (p & Hp & Hpos).
  pose proof (length_node_keys n Hn) as Hlen. unfold position_of in Hpos. rewrite Hlen in Hpos.
  unfold findChildIndex. rewrite Hl, Hp. cbn [mbind option_bind].
  assert (∀ q a, node_keys n !! q = Some a → (q < key_count (nheader n))%nat ∧ keys n !! q = Some a)
    as Harr.
  { intros q a Hq. pose proof (lookup_lt_Some _ _ _ Hq). unfold node_keys in Hq.
    rewrite lookup_take_lt in Hq by lia. split; [lia|done]. }
  destruct Hpos as [[Hr Hk]|(Hr & Hlo & Hhi)].
  - (* the key is in the node *)
    rewrite (proj2 (Z.ltb_ge _ _)) by lia. rewrite (proj2 (Z.ltb_lt _ _)) by lia.
    rewrite (proj2 (Harr _ _ Hk)). cbn [mbind option_bind].
    rewrite (proj2 (key_eqb_spec key key) eq_refl), orb_true_r.
    exists (S (Z.to_nat p)). split; [f_equal; lia|]. split; [lia|]. pose proof (no_sorted _ Hn) as Hs.
    fold (node_keys n) in Hs. split; intros j a Hj Ha.
    + destruct (decide (j = Z.to_nat p)) as [->|]; [simplify_eq; apply kle_refl|].
      apply klt_kle. apply (Hs j (Z.to_nat p)); [lia|done..].
    + apply (Hs (Z.to_nat p) j); [lia|done..].
  - (* it is between two keys *)
    exists (Z.to_nat (p + 1)). split.
    + destruct (Z.ltb_spec p 0); [f_equal; lia|]. rewrite (proj2 (Z.ltb_lt _ _)) by lia.
      destruct (lookup_lt_is_Some_2 (node_keys n) (Z.to_nat p)) as [k Hk]; [lia|].
      rewrite (proj2 (Harr _ _ Hk)). cbn [mbind option_bind].
      rewrite (proj2 (key_ltb_spec k key)) by (apply (Hlo _ _ Hk); lia). cbn. f_equal. lia.
    + split; [lia|]. split; intros j a Hj Ha; [apply klt_kle, (Hlo j a Ha); lia|apply (Hhi j a Ha); lia].
Qed.

Lemma child_for_range n key i lo hi :
  child_for n key i → in_range lo hi key →
  in_range (child_lo n i lo) (child_hi n i hi) key.
Proof.
  intros (Hi & Hlo & Hhi) [Hl Hu]. split.
  - intros l. destruct i as [|i]; cbn [child_lo]; [by apply Hl|]. intros Hk. apply (Hlo i); [lia|done].
  - intros u. unfold child_hi. case_decide; [by apply Hu|]. intros Hk. by apply (Hhi i).
Qed.

(** The entries of the children before the one for [key] are below it, those of the
    children after it above. *)
Lemma kids_split m h n key i lo hi (kids : list (list (K * Z) * list Z)) :
  node_ok n → child_for n key i → length kids = S (key_count (nheader n)) →
  (∀ i kid, kids !! i = Some kid →
     holds m h (getChild n i) (child_lo n i lo) (child_hi n i hi) kid.1 kid.2) →
  ∃ kid, kids !! i = Some kid ∧
    kids = take i kids ++ kid :: drop (S i) kids ∧
    Forall (λ e, klt e.1 key) (concat (take i kids).*1) ∧
    Forall (λ e, klt key e.1) (concat (drop (S i) kids).*1).
Proof.
  intros Hn (Hi & Hlo & Hhi) Hlen Hkids. pose proof (length_node_keys n Hn) as Hlk.
  destruct (lookup_lt_is_Some_2 kids i) as [kid Hkid]; [lia|]. exists kid.
  split; [done|]. split; [by rewrite take_drop_middle|].
  rewrite !Forall_concat, !Forall_fmap, !Forall_lookup. split.
  - intros j k [Hj Hji]%lookup_take_Some. pose proof (holds_range _ _ _ _ _ _ _ (Hkids j k Hj)) as Hr.
    rewrite Forall_fmap in Hr. eapply Forall_impl; [exact Hr|]. intros e [_ Hu]. cbn in *.
    unfold child_hi in Hu. rewrite decide_False in Hu by lia.
    destruct (lookup_lt_is_Some_2 (node_keys n) j) as [a Ha]; [lia|].
    eapply klt_kle_trans; [by apply Hu|]. apply (Hlo j); [lia|done].
  - intros j k Hj. rewrite lookup_drop in Hj. pose proof (lookup_lt_Some _ _ _ Hj) as Hjlt.
    pose proof (holds_range _ _ _ _ _ _ _ (Hkids _ k Hj)) as Hr.
    rewrite Forall_fmap in Hr. eapply Forall_impl; [exact Hr|]. intros e [Hl _]. cbn in *.
    destruct (lookup_lt_is_Some_2 (node_keys n) (i + j)%nat) as [a Ha]; [lia|].
    eapply klt_kle_trans; [apply (Hhi (i + j)%nat a); [lia|done]|]. by apply Hl.
Qed.

Lemma getChild_holds m h n i lo hi es pids :
  holds m h (getChild n i) lo hi es pids → ∃ c, m !! getChild n i = Some c ∧ getChild n i ≠ INVALID_PAGE_ID ∧
    ndirty c = false ∧ node_id c = getChild n i ∧ storable c.
Proof. destruct h; intros (c & ? & ? & ? & ? & ? & _); eauto 10. Qed.

(** ** Leaves *)

(** The leaves under a page, from left to right. *)
Fixpoint tree_leaves m (h : nat) (pid : Z) : list (BTreeNode K) :=
  match m !! pid with
  | None => []
  | Some n =>
      match h with
      | O => [n]
      | S h' => concat ((λ i, tree_leaves m h' (getChild n i)) <$> seq 0 (S (key_count (nheader n))))
      end
  end.

Definition leaves_entries (l : list (BTreeNode K)) : list (K * Z) := concat (entries <$> l).

Lemma leaves_entries_app l1 l2 : leaves_entries (l1 ++ l2) = leaves_entries l1 ++ leaves_entries l2.
Proof. unfold leaves_entries. by rewrite fmap_app, concat_app. Qed.

Lemma leaves_entries_concat ls : leaves_entries (concat ls) = concat (leaves_entries <$> ls).
Proof. induction ls as [|l ls IH]; [done|]. cbn [concat fmap list_fmap]. by rewrite leaves_entries_app, IH. Qed.

(** The entries of the children are those of the leaves under them. *)
Lemma kids_leaves m h n (kids : list (list (K * Z) * list Z)) :
  length kids = S (key_count (nheader n)) →
  (∀ i kid, kids !! i = Some kid → kid.1 = leaves_entries (tree_leaves m h (getChild n i))) →
  kids.*1 = (λ i, leaves_entries (tree_leaves m h (getChild n i))) <$> seq 0 (S (key_count (nheader n))).
Proof.
  intros Hlen Hk. rewrite <- Hlen. apply list_eq. intros i. rewrite !list_lookup_fmap.
  destruct (kids !! i) as [kid|] eqn:Hi.
  - pose proof (lookup_lt_Some _ _ _ Hi). rewrite lookup_seq_lt by done. cbn. f_equal. by apply Hk.
  - apply lookup_ge_None in Hi. by rewrite lookup_seq_ge.
Qed.

Lemma holds_leaves m h : ∀ pid lo hi es pids,
  holds m h pid lo hi es pids → es = leaves_entries (tree_leaves m h pid).
Proof.
  induction h as [|h IH]; intros pid lo hi es pids (n & Hn & _ & _ & _ & _ & Hrest);
    cbn [tree_leaves]; rewrite Hn.
  { destruct Hrest as (_ & -> & _). unfold leaves_entries. cbn. by rewrite app_nil_r. }
  destruct Hrest as (_ & _ & _ & kids & Hlen & -> & _ & Hkids).
  rewrite (kids_leaves m h n kids Hlen) by (intros i kid Hi; by eapply IH, Hkids).
  by rewrite leaves_entries_concat, <- list_fmap_compose.
Qed.

(** ** Finding the leaf *)

(** [n] is the leaf for [key] among the leaves [l]: the entries of the leaves before it
    are below the key, and those of the leaves after it above. *)
Definition leaf_for m key (l : list (BTreeNode K)) n : Prop :=
  m !! node_id n = Some n ∧ node_id n ≠ INVALID_PAGE_ID ∧ storable n ∧ ndirty n = false ∧
  isLeaf n = true ∧ ∃ l1 l2, l = l1 ++ n :: l2 ∧
    Forall (λ e, klt e.1 key) (leaves_entries l1) ∧ Forall (λ e, klt key e.1) (leaves_entries l2).

Lemma leaf_for_entries m key l n :
  leaf_for m key l n → ∃ l1 l2, leaves_entries l = l1 ++ entries n ++ l2 ∧
    Forall (λ e, klt e.1 key) l1 ∧ Forall (λ e, klt key e.1) l2.
Proof.
  intros (_ & _ & _ & _ & _ & l1 & l2 & -> & H1 & H2). exists (leaves_entries l1), (leaves_entries l2).
  split; [|done]. rewrite leaves_entries_app. done.
Qed.

Lemma findLeaf_loop_spec m key h : ∀ pid lo hi es pids n t fuel,
  holds m h pid lo hi es pids → m !! pid = Some n → at_nodes t m → (h ≤ fuel)%nat →
  ∃ t' n', findLeaf_loop fuel key (Some n) t = Some (t', Some n') ∧ at_nodes t' m ∧ same_tree t t' ∧
    bt_stats t' = bt_stats t ∧ leaf_for m key (tree_leaves m h pid) n'.
Proof.
  induction h as [|h IH]; intros pid lo hi es pids n t fuel (n0 & Hn & Hpid & Hst & Hd & Hid & Hrest) Hn0 Ht Hf;
    assert (n0 = n) as -> by congruence; clear Hn0.
  { destruct Hrest as (Hl & -> & _). exists t, n.
    split; [destruct fuel; cbn [findLeaf_loop]; by rewrite Hl|].
    split; [done|]. split; [done|]. split; [done|]. rewrite <- Hid in Hn, Hpid.
    cbn [tree_leaves]. rewrite Hid in Hn. rewrite Hn, <- Hid in *.
    split_and!; try done. by exists [], []. }
  destruct Hrest as (Hl & Hcc & _ & kids & Hlen & -> & _ & Hkids).
  destruct fuel as [|fuel]; [lia|]. cbn [findLeaf_loop]. rewrite Hl.
  destruct (findChildIndex_spec n key (st_node _ Hst) Hl) as (i & Hci & Hfor).
  destruct (kids_split m h n key i lo hi kids (st_node _ Hst) Hfor Hlen Hkids)
    as (kid & Hkid & Hsplit & H1 & H2).
  rewrite Hci. rewrite (M_bind_eq _ _ _ _ _ (lift_some _ t)). rewrite Nat2Z.id.
  pose proof (Hkids i kid Hkid) as Hch. destruct (getChild_holds _ _ _ _ _ _ _ _ Hch) as (c & Hc & Hcp & _).
  destruct (getNode_at t m _ c Ht Hc Hcp) as (t1 & Hg & Ht1 & Hs1 & Hst1).
  rewrite (M_bind_eq _ _ _ _ _ Hg). rewrite (M_bind_eq _ _ _ _ _ (releaseNode_clean n t1 Hd)).
  destruct (IH _ _ _ _ _ c t1 fuel Hch Hc Ht1 ltac:(lia)) as (t2 & n' & Hfl & Ht2 & Hs2 & Hst2 & Hleaf).
  exists t2, n'. split; [done|]. split; [done|]. split; [by eapply same_tree_trans|].
  split; [congruence|]. destruct Hleaf as (? & ? & ? & ? & ? & l1 & l2 & Hes & Hl1 & Hl2).
  split_and!; try done. cbn [tree_leaves]. rewrite Hn.
  set (f := λ i, tree_leaves m h (getChild n i)) in *.
  assert (∀ ks, leaves_entries (concat (f <$> ks)) = concat ((λ i, leaves_entries (f i)) <$> ks)) as Hle
    by (intros ks; by rewrite leaves_entries_concat, <- list_fmap_compose).
  assert (kids.*1 = (λ i, leaves_entries (f i)) <$> seq 0 (S (key_count (nheader n)))) as Hk1
    by exact (kids_leaves m h n kids Hlen (λ j k Hj, holds_leaves _ _ _ _ _ _ _ (Hkids j k Hj))).
  destruct Hfor as [Hik _].
  assert (seq 0 (S (key_count (nheader n))) = seq 0 i ++ i :: seq (S i) (key_count (nheader n) - i)) as Hseq.
  { replace (S (key_count (nheader n))) with (i + S (key_count (nheader n) - i))%nat by lia.
    by rewrite seq_app. }
  exists (concat (f <$> seq 0 i) ++ l1), (l2 ++ concat (f <$> seq (S i) (key_count (nheader n) - i))).
  rewrite Hseq, fmap_app, fmap_cons, concat_app. cbn [concat].
  assert (f i = l1 ++ n' :: l2) as Hfi by exact Hes. rewrite Hfi. split; [by rewrite <- !app_assoc|].
  rewrite !leaves_entries_app, !Forall_app, !Hle.
  rewrite Hseq, fmap_app, fmap_cons in Hk1.
  rewrite <- (take_drop_middle _ _ _ Hkid), fmap_app, fmap_cons in Hk1.
  apply app_inj_1 in Hk1 as [Hk1 Hk2]; [|rewrite !length_fmap, length_take, length_seq; lia].
  injection Hk2 as _ Hk2. rewrite <- Hk1, <- Hk2. done.
Qed.

Lemma findLeaf_spec m key h lo hi es pids t fuel :
  holds m h (root_page_id t) lo hi es pids → at_nodes t m → (h ≤ fuel)%nat →
  ∃ t' n', findLeaf fuel key t = Some (t', Some n') ∧ at_nodes t' m ∧ same_tree t t' ∧
    bt_stats t' = bt_stats t ∧ leaf_for m key (tree_leaves m h (root_page_id t)) n'.
Proof.
  intros Hh Ht Hf. assert (∃ n, m !! root_page_id t = Some n ∧ root_page_id t ≠ INVALID_PAGE_ID)
    as (n & Hn & Hpid) by (destruct h; destruct Hh as (n & ? & ? & _); eauto).
  unfold findLeaf. rewrite (M_bind_eq _ get_tree _ _ _ eq_refl).
  destruct (getNode_at t m _ n Ht Hn Hpid) as (t1 & Hg & Ht1 & Hs1 & Hst1).
  rewrite (M_bind_eq _ _ _ _ _ Hg).
  destruct (findLeaf_loop_spec m key h _ _ _ _ _ n t1 fuel Hh Hn Ht1 Hf)
    as (t2 & n' & Hfl & Ht2 & Hs2 & Hst2 & Hleaf).
  exists t2, n'. split; [done|]. split; [done|]. split; [by eapply same_tree_trans|].
  split; [congruence|done].
Qed.

(** ** Entries as a map *)

Fixpoint assoc key (es : list (K * Z)) : option Z :=
  match es with
  | [] => None
  | (k, v) :: es' => if key_eqb k key then Some v else assoc key es'
  end.

Lemma key_eqb_lt (a b : K) : klt a b → key_eqb a b = false.
Proof. intros Hl. apply not_true_iff_false. intros ->%key_eqb_spec. by eapply klt_irrefl. Qed.
Lemma key_eqb_gt (a b : K) : klt b a → key_eqb a b = false.
Proof. intros Hl. apply not_true_iff_false. intros ->%key_eqb_spec. by eapply klt_irrefl. Qed.

Lemma assoc_below key l1 l2 : Forall (λ e, klt e.1 key) l1 → assoc key (l1 ++ l2) = assoc key l2.
Proof. induction 1 as [|[k v] l1 Hk _ IH]; [done|]. cbn in *. by rewrite key_eqb_lt. Qed.

Lemma assoc_above key l : Forall (λ e, klt key e.1) l → assoc key l = None.
Proof. induction 1 as [|[k v] l Hk _ IH]; [done|]. cbn in *. by rewrite key_eqb_gt. Qed.

Lemma assoc_app_above key l1 l2 : Forall (λ e, klt key e.1) l2 → assoc key (l1 ++ l2) = assoc key l1.
Proof.
  intros H2. induction l1 as [|[k v] l1 IH]; cbn; [by apply assoc_above|]. by rewrite IH.
Qed.

Lemma assoc_ins key v es k :
  assoc k (ins key v es) = if key_eqb key k then Some v else assoc k es.
Proof.
  induction es as [|[a w] es IH]; cbn [ins assoc]; [done|].
  destruct (kcmp key a) eqn:Hc; cbn [assoc].
  - apply kcmp_eq in Hc as ->. by destruct (key_eqb a k).
  - done.
  - rewrite IH. destruct (key_eqb a k) eqn:Ha; [|done]. apply key_eqb_spec in Ha as ->.
    destruct (key_eqb key k) eqn:Hk; [|done]. apply key_eqb_spec in Hk as ->.
    by rewrite (proj2 (kcmp_eq k k) eq_refl) in Hc.
Qed.

(** The lookup in a leaf. *)
Lemma leaf_lookup n key :
  node_ok n → isLeaf n = true →
  ∃ pos, findKeyIndex n key = Some pos ∧
    ((key_at n pos key = true ∧
      ∃ v, getValue n (Z.to_nat pos) = Some v ∧ assoc key (entries n) = Some v) ∨
     (key_at n pos key = false ∧ assoc key (entries n) = None)).
Proof.
  intros Hn Hl. destruct (findKeyIndex_position n key Hn) as (p & Hp & Hpos). exists p. split; [done|].
  pose proof (length_node_keys n Hn) as Hlen. unfold position_of in Hpos. rewrite Hlen in Hpos.
  unfold key_at. destruct Hpos as [[Hr Hk]|(Hr & Hlo & Hhi)]; [left|right].
  - destruct (found_split n key (Z.to_nat p) Hn Hk) as (w & He & H1 & _).
    destruct (entries_lookup n _ _ Hn Hk) as [v Hv].
    pose proof Hk as Hk'. unfold node_keys in Hk'. rewrite lookup_take_lt in Hk' by lia.
    rewrite Hk', (proj2 (Z.leb_le _ _)), (proj2 (Z.ltb_lt _ _)) by lia.
    rewrite (proj2 (key_eqb_spec key key) eq_refl). split; [done|]. exists w.
    rewrite He, (assoc_below key _ _ H1). cbn [assoc]. rewrite (proj2 (key_eqb_spec key key) eq_refl).
    split; [|done]. unfold getValue. rewrite Hl, bool_decide_false by lia. cbn [negb orb].
    assert (entries n !! Z.to_nat p = Some (key, w)) as Hw.
    { rewrite He. apply list_lookup_middle. rewrite length_take, length_entries by done. lia. }
    apply lookup_zip_with_Some in Hw as (a & b & Heq & _ & Hb). simplify_eq.
    by rewrite lookup_take_lt in Hb by lia.
  - destruct (position_split n key p Hn Hr Hlo Hhi) as [H1 H2].
    assert (assoc key (entries n) = None) as ->.
    { rewrite <- (take_drop (Z.to_nat (p + 1)) (entries n)), (assoc_below key _ _ H1).
      by apply assoc_above. }
    split; [|done]. destruct (Z.leb_spec 0 p) as [H0|]; [|done].
    destruct (lookup_lt_is_Some_2 (node_keys n) (Z.to_nat p)) as [k Hk]; [lia|].
    pose proof Hk as Hk'. unfold node_keys in Hk'. rewrite lookup_take_lt in Hk' by lia. rewrite Hk'.
    rewrite key_eqb_lt by (apply (Hlo _ _ Hk); lia). by rewrite andb_false_r.
Qed.

(** (C5) Search: on a tree whose nodes form a search tree, [find] returns [OK] with the
    value of the key if the tree has the key, and [NOT_FOUND] otherwise; the
    fuel that is enough is the height of the tree, and no node changes. *)
Theorem btree_find_spec m key h lo hi es pids t fuel :
  holds m h (root_page_id t) lo hi es pids → at_nodes t m → (h ≤ fuel)%nat →
  ∃ t', at_nodes t' m ∧ same_tree t t' ∧
    btree_find fuel key t =
    Some (t', match assoc key es with
              | Some v => (StatusCode.OK, Some v)
              | None => (StatusCode.NOT_FOUND, None)
              end).
Proof.
  intros Hh Ht Hf. destruct (findLeaf_spec m key h lo hi es pids t fuel Hh Ht Hf)
    as (t1 & n & Hfl & Ht1 & Hs1 & _ & Hleaf).
  pose proof Hleaf as (_ & _ & Hst & Hd & Hl & _).
  destruct (leaf_for_entries _ _ _ _ Hleaf) as (l1 & l2 & Hes & H1 & H2).
  rewrite <- (holds_leaves _ _ _ _ _ _ _ Hh) in Hes. rewrite Hes.
  rewrite assoc_below, assoc_app_above by done.
  unfold btree_find. rewrite (M_bind_eq _ _ _ _ _ Hfl).
  destruct (leaf_lookup n key (st_node _ Hst) Hl) as (pos & Hpos & Hcase). rewrite Hpos.
  rewrite (M_bind_eq _ _ _ _ _ (lift_some _ t1)).
  destruct Hcase as [(Hka & v & Hv & ->)|[Hka ->]]; rewrite Hka.
  - rewrite Hv. rewrite (M_bind_eq _ _ _ _ _ (lift_some _ t1)).
    rewrite (M_bind_eq _ _ _ _ _ (releaseNode_clean n t1 Hd)).
    rewrite (M_bind_eq _ _ _ _ _ eq_refl). eexists. split; [|split; [|reflexivity]]; done.
  - rewrite (M_bind_eq _ _ _ _ _ (releaseNode_clean n t1 Hd)).
    rewrite (M_bind_eq _ _ _ _ _ eq_refl). eexists. split; [|split; [|reflexivity]]; done.
Qed.

(** ** Insertion into a leaf, with what is stored *)

Lemma arr_set_Forall {A} (P : A → Prop) a i x a' :
  arr_set a i x = Some a' → Forall P a → P x → Forall P a'.
Proof. intros [Hi ->]%arr_set_Some Ha Hx. by apply Forall_insert. Qed.

Lemma shift_right_Forall {A} (P : A → Prop) start i : ∀ a a',
  shift_right start a i = Some a' → Forall P a → Forall P a'.
Proof.
  induction i as [|i IH]; intros a a'; cbn [shift_right]; [by intros [= ->]|].
  case_decide; [|by intros [= ->]]. intros (x & Hx & (b & Hb & Hr)%bind_Some)%bind_Some Ha.
  eapply IH; [exact Hr|]. eapply arr_set_Forall; [exact Hb|done|].
  rewrite Forall_lookup in Ha. by eapply Ha.
Qed.

(** The parts of a leaf that an insertion keeps. *)
Lemma insertAt_fields index key v c n n' :
  isLeaf n = true → insertAt index key v c n = Some (n', true) →
  Forall kok (keys n) → Forall (fits 64) (values n) → kok key → fits 64 v →
  Forall kok (keys n') ∧ Forall (fits 64) (values n') ∧ children n' = children n ∧
  node_id n' = node_id n ∧ ndirty n' = true ∧
  nheader n' = set_counts (key_count (nheader n) + 1) (child_count (nheader n)) (nheader n).
Proof.
  intros Hl. unfold insertAt. destruct (isFull n); [done|]. unfold shiftRight. rewrite Hl.
  intros (n1 & (ks & Hks & (vs & Hvs & Heq)%bind_Some)%bind_Some & Hr)%bind_Some Hk Hv Hkk Hvv.
  cbn [mbind option_bind] in Heq. simplify_eq. cbn [keys values children nheader] in Hr.
  assert (isLeaf (mkNode (node_id n) (nheader n) ks vs (children n) (ndirty n)) = true) as Hl1 by done.
  rewrite Hl1 in Hr. apply bind_Some in Hr as (ks' & Hks' & (vs' & Hvs' & Hr)%bind_Some).
  cbn [mbind option_bind] in Hr. simplify_eq. cbn [keys values children node_id ndirty nheader].
  split_and!; try done.
  - eapply arr_set_Forall; [exact Hks'| |done]. by eapply shift_right_Forall.
  - eapply arr_set_Forall; [exact Hvs'| |done]. by eapply shift_right_Forall.
Qed.

Lemma leaf_insert_stored n key v :
  storable n → isLeaf n = true → kok key → fits 64 v → isFull n = false →
  ∃ n', insert key v INVALID_PAGE_ID n = Some (n', true) ∧ storable n' ∧ isLeaf n' = true ∧
    node_id n' = node_id n ∧ ndirty n' = true ∧ entries n' = ins key v (entries n) ∧
    next_id (nheader n') = next_id (nheader n).
Proof.
  intros [Hn Hh Hk Hv Hc] Hl Hkk Hvv Hfull.
  destruct (findKeyIndex_position n key Hn) as (p & Hf & [[Hp Hkey]|(Hp & Hlo & Hhi)]).
  - rewrite length_node_keys in Hp by done.
    destruct (insert_found n key v INVALID_PAGE_ID (Z.to_nat p)) as (n' & Hi & Hn' & Hl' & He);
      [done|done|rewrite Hf; f_equal; lia|done|].
    exists n'. split; [done|]. unfold insert in Hi. rewrite Hf in Hi. cbn [mbind option_bind] in Hi.
    pose proof Hkey as Hk'. unfold node_keys in Hk'. rewrite lookup_take_lt in Hk' by lia.
    rewrite Hk', (proj2 (key_eqb_spec key key) eq_refl), Hl in Hi.
    rewrite (proj2 (Z.leb_le _ _)), (proj2 (Z.ltb_lt _ _)) in Hi by lia. cbn [andb] in Hi.
    apply bind_Some in Hi as (vs & Hvs & Hi). simplify_eq.
    split_and!; try done. constructor; cbn [nheader keys values children]; try done.
    by eapply arr_set_Forall.
  - rewrite length_node_keys in Hp by done.
    rewrite (insert_at_position n key v INVALID_PAGE_ID p Hn Hf Hp Hlo).
    destruct (insertAt_ok n key v INVALID_PAGE_ID p) as (n' & Hi & Hn' & Hl' & He); [done..|].
    destruct (insertAt_fields _ _ _ _ _ _ Hl Hi Hk Hv Hkk Hvv) as (Hk' & Hv' & Hc' & Hid & Hd & Hh').
    exists n'. split_and!; try done; [|by rewrite Hh']. constructor; [done| |done..|by rewrite Hc'].
    apply bool_decide_eq_false in Hfull. rewrite Hh'. destruct Hh.
    constructor; cbn [set_counts ntype key_count child_count parent_id next_id prev_id level]; done || lia.
Qed.

Lemma stored_node_leaf n :
  storable n → isLeaf n = true →
  storable (stored_node n) ∧ isLeaf (stored_node n) = true ∧ entries (stored_node n) = entries n.
Proof.
  intros [[] Hh Hk Hv Hc] Hl. unfold stored_node. rewrite Hl. split; [|done].
  constructor; cbn [nheader keys values children]; try done.
  apply Forall_replicate. unfold fits, INVALID_PAGE_ID. lia.
Qed.

(** ** Insertion into a tree *)

(** Nodes outside the pages of a tree do not matter. *)
Lemma holds_frame m m' h : ∀ pid lo hi es pids,
  holds m h pid lo hi es pids → (∀ q, q ∈ pids → m' !! q = m !! q) → holds m' h pid lo hi es pids.
Proof.
  induction h as [|h IH]; intros pid lo hi es pids (n & Hn & Hpid & Hst & Hd & Hid & Hrest) Hfr;
    exists n; (split; [rewrite Hfr; [done|]|]).
  - destruct Hrest as (_ & _ & -> & _). by left.
  - done.
  - destruct Hrest as (_ & _ & _ & kids & _ & _ & -> & _). by left.
  - do 4 (split; [done|]). destruct Hrest as (Hl & Hcc & Hks & kids & Hlen & Hes & -> & Hkids).
    do 3 (split; [done|]). exists kids. do 3 (split; [done|]). intros i kid Hi.
    apply IH; [by apply Hkids|]. intros q Hq. apply Hfr. right. apply elem_of_concat.
    apply list_elem_of_lookup_2 in Hi. exists kid.2. split; [|done]. apply list_elem_of_fmap. eauto.
Qed.

(** Every node on the way to the leaf for [key] has room. *)
Fixpoint path_free m (h : nat) (pid : Z) key : Prop :=
  match m !! pid with
  | None => False
  | Some n =>
      isFull n = false ∧
      match h with
      | O => True
      | S h' =>
          match findChildIndex n key with
          | Some i => path_free m h' (getChild n (Z.to_nat i)) key
          | None => False
          end
      end
  end.

Lemma ins_below key v l1 l : Forall (λ e, klt e.1 key) l1 → ins key v (l1 ++ l) = l1 ++ ins key v l.
Proof. induction 1 as [|[k w] l1 Hk _ IH]; [done|]. cbn in *. by rewrite (klt_gt _ _ Hk), IH. Qed.

Lemma ins_above key v l l2 : Forall (λ e, klt key e.1) l2 → ins key v (l ++ l2) = ins key v l ++ l2.
Proof.
  intros H2. induction l as [|[k w] l IH]; cbn.
  - destruct H2 as [|[k w] l2 Hk _]; [done|]. cbn in *. by rewrite Hk.
  - by destruct (kcmp key k); [| |rewrite IH].
Qed.

Lemma ins_range lo hi key v es :
  in_range lo hi key → Forall (in_range lo hi) es.*1 → Forall (in_range lo hi) (ins key v es).*1.
Proof.
  intros Hk. induction es as [|[k w] es IH]; cbn; [by constructor|]. intros Hes.
  apply Forall_cons in Hes as [He Hes]. destruct (kcmp key k); cbn; auto.
Qed.

(** The leaf at the end of an insertion. *)
Lemma insertInternal_leaf m key v pid lo hi es pids t fuel :
  holds m 0 pid lo hi es pids → at_nodes t m → in_range lo hi key → path_free m 0 pid key →
  kok key → fits 64 v → (cfg_unique (bt_config t) = true → assoc key es = None) →
  ∃ t' m', insertInternal fuel key v pid t = Some (t', StatusCode.OK) ∧ at_nodes t' m' ∧
    same_tree t t' ∧ bt_stats t' = bt_stats t ∧ holds m' 0 pid lo hi (ins key v es) pids ∧
    (∀ q, q ∉ pids → m' !! q = m !! q) ∧
    ((λ n, next_id (nheader n)) <$> m' !! pid) = ((λ n, next_id (nheader n)) <$> m !! pid).
Proof.
  intros (n & Hn & Hpid & Hst & Hd & Hid & Hl & -> & -> & Hes) Ht Hr Hfree Hkk Hvv Huniq.
  cbn [path_free] in Hfree. rewrite Hn in Hfree. destruct Hfree as [Hfull _].
  destruct (getNode_at t m _ n Ht Hn Hpid) as (t1 & Hg & Ht1 & Hs1 & Hst1).
  destruct (leaf_lookup n key (st_node _ Hst) Hl) as (pos & Hpos & Hcase).
  destruct (leaf_insert_stored n key v Hst Hl Hkk Hvv Hfull)
    as (n' & Hi & Hst' & Hl' & Hid' & Hd' & He' & Hnext).
  destruct (releaseNode_dirty t1 m n' Ht1 Hd' Hst') as (t2 & Hrel & Ht2 & Hs2 & Hst2);
    [rewrite Hid', Hid; eauto|].
  exists t2, (<[pid := stored_node n']> m). split.
  { assert (cfg_unique (bt_config t1) && key_at n pos key = false) as Hnd.
    { destruct Hs1 as [_ Hc1]. rewrite Hc1. destruct (cfg_unique (bt_config t)); [|done].
      destruct Hcase as [(_ & w & _ & Hw)|[-> _]]; [|done]. rewrite Huniq in Hw; done. }
    destruct fuel; cbn [insertInternal]; rewrite (M_bind_eq _ _ _ _ _ Hg), Hpos;
      rewrite (M_bind_eq _ _ _ _ _ (lift_some _ t1)), Hl;
      rewrite (M_bind_eq _ get_tree _ _ _ eq_refl), Hnd, Hi;
      rewrite (M_bind_eq _ _ _ _ _ (lift_some _ t1)); cbn [fst snd];
      rewrite (M_bind_eq _ _ _ _ _ Hrel); done. }
  rewrite Hid', Hid in Ht2. split; [done|]. split; [by eapply same_tree_trans|].
  split; [congruence|]. destruct (stored_node_leaf n' Hst' Hl') as (Hsst & Hsl & Hse).
  split; [|split; [|rewrite Hn, lookup_insert_eq; cbn; by rewrite Hnext]].
  - exists (stored_node n'). rewrite lookup_insert_eq, Hse, He'. split_and!; try done.
    + cbn. congruence.
    + by apply ins_range.
  - intros q Hq. rewrite lookup_insert_ne; [done|]. intros ->. apply Hq. by left.
Qed.

(** The children of a node after the tree under child [i] has changed. *)
Lemma holds_update m m' h n i lo hi (kids : list (list (K * Z) * list Z)) kid es' :
  kids !! i = Some kid → NoDup (concat kids.*2) →
  (∀ i kid, kids !! i = Some kid →
     holds m h (getChild n i) (child_lo n i lo) (child_hi n i hi) kid.1 kid.2) →
  holds m' h (getChild n i) (child_lo n i lo) (child_hi n i hi) es' kid.2 →
  (∀ q, q ∉ kid.2 → m' !! q = m !! q) →
  ∀ j kid', <[i := (es', kid.2)]> kids !! j = Some kid' →
    holds m' h (getChild n j) (child_lo n j lo) (child_hi n j hi) kid'.1 kid'.2.
Proof.
  intros Hi Hnd Hkids Hh Hfr j kid' Hj.
  destruct (decide (j = i)) as [->|Hne].
  { rewrite list_lookup_insert_eq in Hj by (by eapply lookup_lt_Some). by simplify_eq. }
  rewrite list_lookup_insert_ne in Hj by done.
  eapply holds_frame; [by apply Hkids|]. intros q Hq. apply Hfr. intros Hq'.
  (* two positions of [kids] with a common page *)
  clear Hkids Hh Hfr. revert i j Hi Hj Hne. induction kids as [|k kids IH]; intros i j Hi Hj Hne; [done|].
  cbn [fmap list_fmap concat] in Hnd. apply NoDup_app in Hnd as (_ & Hdisj & Hnd).
  assert (∀ r z, kids !! r = Some z → q ∈ z.2 → q ∈ concat kids.*2) as Hin.
  { intros r z Hr Hz. apply elem_of_concat. exists z.2. split; [|done].
    apply list_elem_of_fmap. exists z. split; [done|]. by eapply list_elem_of_lookup_2. }
  destruct i as [|i], j as [|j]; simplify_eq/=; [by eapply Hdisj, Hin..|].
  apply (IH Hnd i j); [done|done|lia].
Qed.

Lemma insertInternal_spec m key v h : ∀ pid lo hi es pids t fuel,
  holds m h pid lo hi es pids → NoDup pids → at_nodes t m → in_range lo hi key →
  path_free m h pid key → kok key → fits 64 v →
  (cfg_unique (bt_config t) = true → assoc key es = None) → (h ≤ fuel)%nat →
  ∃ t' m', insertInternal fuel key v pid t = Some (t', StatusCode.OK) ∧ at_nodes t' m' ∧
    same_tree t t' ∧ bt_stats t' = bt_stats t ∧ holds m' h pid lo hi (ins key v es) pids ∧
    (∀ q, q ∉ pids → m' !! q = m !! q).
Proof.
  induction h as [|h IH]; intros pid lo hi es pids t fuel Hh Hnd Ht Hr Hfree Hkk Hvv Huniq Hf.
  { destruct (insertInternal_leaf m key v pid lo hi es pids t fuel) as (t' & m' & Hi); try done.
    exists t', m'. tauto. }
  destruct Hh as (n & Hn & Hpid & Hst & Hd & Hid & Hl & Hcc & Hks & kids & Hlen & -> & -> & Hkids).
  destruct (findChildIndex_spec n key (st_node _ Hst) Hl) as (i & Hci & Hfor).
  destruct (kids_split m h n key i lo hi kids (st_node _ Hst) Hfor Hlen Hkids)
    as (kid & Hkid & Hsplit & H1 & H2).
  cbn [path_free] in Hfree. rewrite Hn, Hci, Nat2Z.id in Hfree. destruct Hfree as [_ Hfree].
  pose proof (Hkids i kid Hkid) as Hch.
  destruct (getChild_holds _ _ _ _ _ _ _ _ Hch) as (c & Hc & Hcp & Hcd & Hcid & _).
  assert (isFull c = false) as Hcf by (destruct h; cbn [path_free] in Hfree; rewrite Hc in Hfree; apply Hfree).
  destruct (getNode_at t m _ n Ht Hn Hpid) as (t1 & Hg1 & Ht1 & Hs1 & Hst1).
  destruct (getNode_at t1 m _ c Ht1 Hc Hcp) as (t2 & Hg2 & Ht2 & Hs2 & Hst2).
  destruct (findKeyIndex_position n key (st_node _ Hst)) as (p & Hp & _).
  apply NoDup_cons in Hnd as [Hpn Hnd].
  assert (concat kids.*1 = concat (take i kids).*1 ++ kid.1 ++ concat (drop (S i) kids).*1) as Hes.
  { rewrite Hsplit at 1. by rewrite fmap_app, fmap_cons, concat_app. }
  assert (concat kids.*2 = concat (take i kids).*2 ++ kid.2 ++ concat (drop (S i) kids).*2) as Hps.
  { rewrite Hsplit at 1. by rewrite fmap_app, fmap_cons, concat_app. }
  destruct fuel as [|fuel]; [lia|].
  destruct (IH (getChild n i) _ _ kid.1 kid.2 t2 fuel Hch) as (t3 & m' & Hi & Ht3 & Hs3 & Hst3 & Hh' & Hfr).
  { rewrite Hps in Hnd. apply NoDup_app in Hnd as (_ & _ & Hnd). by apply NoDup_app in Hnd as [? _]. }
  { done. } { by apply child_for_range. } { done. } { done. } { done. }
  { intros Hu. destruct (same_tree_trans _ _ _ Hs1 Hs2) as [_ Hcfg]. rewrite Hcfg in Hu.
    specialize (Huniq Hu). rewrite Hes, assoc_below, assoc_app_above in Huniq by done. done. }
  { lia. }
  exists t3, m'. split; [|split; [done|split; [|split; [congruence|split]]]].
  - cbn [insertInternal]. rewrite (M_bind_eq _ _ _ _ _ Hg1), Hp.
    rewrite (M_bind_eq _ _ _ _ _ (lift_some _ t1)), Hl, Hci.
    rewrite (M_bind_eq _ _ _ _ _ (lift_some _ t1)), Nat2Z.id.
    rewrite (M_bind_eq _ _ _ _ _ Hg2), Hcf. rewrite (M_bind_eq _ _ _ _ _ eq_refl).
    rewrite (M_bind_eq _ _ _ _ _ Hi), (M_bind_eq _ _ _ _ _ (releaseNode_clean n t3 Hd)).
    cbn [releaseMaybe]. by rewrite (M_bind_eq _ _ _ _ _ (releaseNode_clean c t3 Hcd)).
  - by eapply same_tree_trans, same_tree_trans.
  - exists n. split.
    { rewrite Hfr; [done|]. intros Hin. apply Hpn. rewrite Hps. set_solver. }
    do 7 (split; [done|]). exists (<[i := (ins key v kid.1, kid.2)]> kids).
    pose proof (lookup_lt_Some _ _ _ Hkid) as Hilt.
    split; [by rewrite length_insert|]. split; [|split].
    + rewrite insert_take_drop, fmap_app, fmap_cons, concat_app by done. cbn [concat fst].
      by rewrite Hes, ins_below, ins_above.
    + rewrite list_fmap_insert. cbn [snd]. rewrite list_insert_id; [done|].
      by rewrite list_lookup_fmap, Hkid.
    + by eapply holds_update.
  - intros q Hq. apply Hfr. intros Hin. apply Hq. right. rewrite Hps. set_solver.
Qed.

(** A root with room: the insertion is the one below the root. *)
Lemma btree_insert_root m n key v t fuel :
  at_nodes t m → m !! root_page_id t = Some n → root_page_id t ≠ INVALID_PAGE_ID →
  isFull n = false → ndirty n = false →
  ∃ t1, at_nodes t1 m ∧ same_tree t t1 ∧
    ∀ t2 status, insertInternal fuel key v (root_page_id t) t1 = Some (t2, status) →
      btree_insert fuel key v t = Some (t2, status).
Proof.
  intros Ht Hn Hpid Hfull Hd.
  set (t0 := mkBTree (bt_store t) (root_page_id t) (bt_config t) (add_keys 1 (bt_stats t))).
  destruct (getNode_at t0 m _ n Ht Hn Hpid) as (t1 & Hg & Ht1 & Hs1 & Hst1).
  exists t1. split; [done|]. split; [done|]. intros t2 status Hi.
  unfold btree_insert. rewrite (M_bind_eq _ (count (add_keys 1)) t t0 () eq_refl).
  rewrite (M_bind_eq _ get_tree _ _ _ eq_refl). change (root_page_id t0) with (root_page_id t).
  rewrite (M_bind_eq _ _ _ _ _ Hg), Hfull. rewrite (M_bind_eq _ _ _ _ _ eq_refl).
  rewrite (M_bind_eq _ get_tree _ _ _ eq_refl). destruct Hs1 as [Hr1 _]. rewrite Hr1.
  change (root_page_id t0) with (root_page_id t). rewrite (M_bind_eq _ _ _ _ _ Hi).
  by rewrite (M_bind_eq _ _ _ _ _ (releaseNode_clean n t2 Hd)).
Qed.


End Tree.

(** ** The buffer pool as a store of nodes *)

Section Pool.
Context {K : Type} `{HK : Key K} `{HL : !KeyLaws K} {St : Type} `{HP : PageStore St}.
Variable id : Z.
Variable page_bytes : Page → list Z.
Variable set_page_bytes : list Z → Page → Page.
(** What the source takes [Page::getData] to be: [PAGE_SIZE] bytes that are read as they
    were written. *)
Hypothesis page_bytes_length : ∀ pg, length (page_bytes pg) = Z.to_nat PAGE_SIZE.
Hypothesis page_bytes_set : ∀ pg bs, length bs = Z.to_nat PAGE_SIZE → page_bytes (set_page_bytes bs pg) = bs.
(** A node fits a page; [std::string] keys do not. *)
Hypothesis small_keys : (ksize ≤ 23)%nat.
Implicit Types p : BufferPool St.

#[local] Instance pool_nodes : NodeStore K (BufferPool St) := PoolNodes id page_bytes set_page_bytes.

(** The node on a page. *)
Definition node_of (pid : Z) (f : BufferFrame) : BTreeNode K :=
  node_deserialize (page_bytes (fpage f)) (BTreeNode_new pid BTreeNodeType.LEAF).

Definition nodes_of p : gmap Z (BTreeNode K) := map_imap (λ pid f, Some (node_of pid f)) (frames p).

Lemma nodes_of_lookup p pid : nodes_of p !! pid = node_of pid <$> frames p !! pid.
Proof. unfold nodes_of. rewrite map_lookup_imap. by destruct (frames p !! pid). Qed.

Lemma nodes_of_insert p p' pid f :
  frames p' = <[pid := f]> (frames p) → nodes_of p' = <[pid := node_of pid f]> (nodes_of p).
Proof.
  intros Hf. apply map_eq. intros q. rewrite nodes_of_lookup, Hf.
  destruct (decide (q = pid)) as [->|].
  - by rewrite !lookup_insert_eq.
  - by rewrite !lookup_insert_ne, nodes_of_lookup.
Qed.

Lemma length_node_serialize (n : BTreeNode K) pad :
  node_ok n → length pad = 4%nat →
  length (node_serialize n pad) = node_size (isLeaf n).
Proof.
  intros [Hk Hv Hc _ _] Hp. unfold node_serialize, node_size.
  rewrite !length_app, length_node_header, (length_concat_map kencode ksize) by
    (done || apply kencode_length). rewrite Hk.
  destruct (isLeaf n); rewrite (length_concat_map (le_bytes 8) 8) by (intros; apply length_le_bytes);
    rewrite ?Hv, ?Hc; lia.
Qed.

Lemma node_size_page leaf : (node_size leaf ≤ Z.to_nat PAGE_SIZE)%nat.
Proof.
  unfold node_size, PAGE_SIZE, MAX_KEYS, ORDER. change (Z.to_nat 4096) with 4096%nat.
  destruct leaf; lia.
Qed.

Lemma unpinPage_frame pid d p f :
  frames p !! pid = Some f →
  ∃ f', frames (unpinPage pid d p) = <[pid := f']> (frames p) ∧ fpage f' = fpage f.
Proof.
  intros Hf. unfold unpinPage. rewrite Hf. eexists. split; [reflexivity|].
  unfold unpin. by destruct d, (0 <? pin_count f).
Qed.

Lemma fetch_hit_write table pid p f :
  pool_ok p → frames p !! pid = Some f →
  ∃ p' f', fetchPage table pid FetchMode.WRITE p = Some (p', Some pid) ∧ pool_ok p' ∧
    frames p' = <[pid := f']> (frames p) ∧ fpage f' = fpage f.
Proof.
  intros Hok Hf. pose proof (ok_latch _ Hok _ _ Hf) as Hl.
  assert (∃ p' f', fetchPage table pid FetchMode.WRITE p = Some (p', Some pid) ∧
    frames p' = <[pid := f']> (frames p) ∧ fpage f' = fpage f) as (p' & f' & Hp' & Hfr & Hpg).
  { unfold fetchPage. rewrite Hf, Hl. eexists _, _. split; [reflexivity|].
    destruct (updateLRU_same pid (set_stats count_hit p)) as (H1 & _). cbn -[updateLRU].
    rewrite H1. cbn -[updateLRU]. split; reflexivity. }
  exists p', f'. split_and!; try done. by eapply fetchPage_ok.
Qed.

(** There is room for a page, and its number is not taken. *)
Definition pool_room p : Prop :=
  (size (frames p) < pool_size p)%nat ∧ fits 64 (BufferPool.next_page_id p + 1) ∧
  frames p !! BufferPool.next_page_id p = None.

#[export] Program Instance pool_nodes_laws : NodeStoreLaws K (BufferPool St) := {|
  ns_ok := pool_ok;
  ns_nodes := nodes_of;
  ns_room := pool_room
|}.
Next Obligation.
  intros p pid n Hok Hn. rewrite nodes_of_lookup in Hn. apply fmap_Some in Hn as (f & Hf & ->).
  destruct (fetch_hit id pid p f Hok Hf) as (q & Hq & Hk).
  destruct (unpinPage_frame pid false q f) as (f' & Hfr & Hpg); [by rewrite (kept_frames _ _ Hk)|].
  exists (unpinPage pid false q). split; [|split; [apply unpinPage_ok, Hk|]].
  - cbn [ns_load pool_nodes PoolNodes]. unfold pool_load. rewrite Hq. cbn [mbind option_bind fst snd].
    rewrite (kept_frames _ _ Hk), Hf. cbn [mbind option_bind].
    rewrite decide_False; [done|]. rewrite page_bytes_length.
    pose proof (node_size_page (isLeaf (node_of pid f))). unfold node_of in *. lia.
  - rewrite (nodes_of_insert _ _ _ _ Hfr). rewrite (kept_frames _ _ Hk) in Hfr.
    apply map_eq. intros r. destruct (decide (r = pid)) as [->|].
    + rewrite lookup_insert_eq, nodes_of_lookup, Hf. cbn. unfold node_of. by rewrite Hpg.
    + rewrite lookup_insert_ne by done. rewrite !nodes_of_lookup. by rewrite (kept_frames _ _ Hk).
Qed.
Next Obligation.
  intros p n Hok [Hn Hh Hk Hv Hc] [n0 Hn0]. rewrite nodes_of_lookup in Hn0.
  apply fmap_Some in Hn0 as (f & Hf & _).
  destruct (fetch_hit_write id (node_id n) p f Hok Hf) as (q & f1 & Hq & Hokq & Hfr & Hpg).
  pose proof (length_node_serialize n (replicate 4 0) Hn eq_refl) as Hlen.
  pose proof (node_size_page (isLeaf n)) as Hsz.
  cbn [ns_save pool_nodes PoolNodes]. unfold pool_save. rewrite decide_False by lia. rewrite Hq.
  cbn [mbind option_bind fst snd]. rewrite Hfr, lookup_insert_eq. cbn [mbind option_bind].
  set (buffer := node_serialize n (replicate 4 0) ++ _).
  assert (length buffer = Z.to_nat PAGE_SIZE) as Hbuf
    by (unfold buffer; rewrite length_app, length_replicate; lia).
  set (q' := with_page (node_id n) (set_page_bytes buffer) q).
  assert (frames q' = <[node_id n := set_fpage (set_page_bytes buffer (fpage f1)) f1]> (frames p)) as Hq'.
  { unfold q', with_page. rewrite Hfr, lookup_insert_eq. cbn. by rewrite insert_insert_eq. }
  destruct (unpinPage_frame (node_id n) true q' (set_fpage (set_page_bytes buffer (fpage f1)) f1))
    as (f2 & Hf2 & Hpg2); [rewrite Hq'; apply lookup_insert_eq|].
  eexists. split; [reflexivity|]. split; [apply unpinPage_ok, with_page_ok, Hokq|].
  rewrite Hq', insert_insert_eq in Hf2. rewrite (nodes_of_insert _ _ _ _ Hf2). f_equal.
  unfold node_of. rewrite Hpg2. cbn [fpage set_fpage]. rewrite page_bytes_set by done.
  unfold buffer. by rewrite (node_roundtrip n (replicate 4 0)).
Qed.
Next Obligation.
  intros p Hok (Hs & Hfit & Hnone).
  assert (∃ p' f, createNewPage id PageType.INDEX_PAGE p = Some (p', BufferPool.next_page_id p) ∧
    frames p' = <[BufferPool.next_page_id p := f]> (frames p) ∧
    fpage f = setType PageType.INDEX_PAGE (Page_new (BufferPool.next_page_id p) id))
    as (p' & f & Hc & Hfr & Hf).
  { unfold createNewPage. rewrite make_room_enough by done. cbn [mbind option_bind].
    eexists _, _. split; [reflexivity|]. cbn -[Page_new setType].
    rewrite insert_insert_eq. split; reflexivity. }
  assert (frames p' !! BufferPool.next_page_id p = Some f) as Hf' by (rewrite Hfr; apply lookup_insert_eq).
  destruct (unpinPage_frame (BufferPool.next_page_id p) true p' f Hf') as (f' & Hfr' & _).
  exists (unpinPage (BufferPool.next_page_id p) true p'), (BufferPool.next_page_id p),
    (node_of (BufferPool.next_page_id p) f').
  split_and!.
  - cbn [ns_create pool_nodes PoolNodes]. unfold pool_create. rewrite Hc.
    cbn [mbind option_bind fst snd]. rewrite Hf'. cbn [mbind option_bind]. by rewrite Hf.
  - apply unpinPage_ok. by eapply createNewPage_ok.
  - unfold fits, INVALID_PAGE_ID in *. lia.
  - by rewrite nodes_of_lookup, Hnone.
  - rewrite Hfr, insert_insert_eq in Hfr'. by apply nodes_of_insert.
Qed.

End Pool.
