(* ===== verification/BTreeQueries.v ===== *)
(** * BTreeQueries: range queries, and where an index does not work

    Range queries on a search tree with linked leaves, the index that the constructor
    makes, and removal from an index on 32-bit integers. *)

From stdpp Require Import gmap list sorting.
From S2P Require Import Prelude CxxString Types Page PageProofs FileManager BufferPool BufferPoolProofs TableProofs BTreeNode BTreeNodeProofs BTree BTreeProofs.

Open Scope Z_scope.

Section Range.
Context {K : Type} `{HK : Key K} `{HL : !KeyLaws K} {T : Type} `{HN : NodeStore K T}.
Context `{HNL : !NodeStoreLaws K T}.
Implicit Types (t : BTree T) (n : BTreeNode K) (m : gmap Z (BTreeNode K)) (key : K) (l : list (BTreeNode K)).

(** ** Linked leaves *)

(** Every leaf has an entry and is linked to the next one. *)
Fixpoint linked m l : Prop :=
  match l with
  | [] => True
  | n :: l' =>
      m !! node_id n = Some n ∧ node_id n ≠ INVALID_PAGE_ID ∧ node_ok n ∧ isLeaf n = true ∧
      (0 < key_count (nheader n))%nat ∧
      next_id (nheader n) = match l' with [] => INVALID_PAGE_ID | n' :: _ => node_id n' end ∧
      linked m l'
  end.

Lemma linked_app m l1 l2 : linked m (l1 ++ l2) → linked m l2.
Proof. induction l1 as [|n l1 IH]; [done|]. intros (_ & _ & _ & _ & _ & _ & ?). auto. Qed.

(** ** Positions of an iterator *)

(** [it] is at the first of the entries [es]. *)
Definition stands m (it : Iterator K) (es : list (K * Z)) : Prop :=
  (es = [] ∧ it = tree_end) ∨
  ∃ n l s, linked m (n :: l) ∧ (s < key_count (nheader n))%nat ∧
    it = mkIterator (node_id n) (Z.of_nat s) false (Some n) ∧
    es = drop s (entries n) ++ leaves_entries l.

(** The iterator at slot [s] of the first leaf, or past its slots. *)
Lemma leaf_entry n s :
  node_ok n → isLeaf n = true → (s < key_count (nheader n))%nat →
  ∃ e, entries n !! s = Some e ∧ getKey n s = Some e.1 ∧ getValue n s = Some e.2.
Proof.
  intros Hn Hl Hs. destruct (lookup_lt_is_Some_2 (entries n) s) as [e He];
    [by rewrite length_entries|]. exists e. split; [done|].
  unfold entries in He. apply lookup_zip_with_Some in He as (k & v & -> & Hk & Hv). cbn.
  unfold node_keys in Hk. rewrite lookup_take_lt in Hk by lia. rewrite lookup_take_lt in Hv by lia.
  unfold getKey, getValue. rewrite decide_False, Hl, bool_decide_false by lia. done.
Qed.

Lemma load_leaf t m l n (it : Iterator K) :
  at_nodes t m → linked m (n :: l) → it_page it = node_id n →
  ∃ t', loadCurrentNode it t = Some (t', mkIterator (node_id n) (it_slot it) (is_end it) (Some n)) ∧
    at_nodes t' m ∧ same_tree t t'.
Proof.
  intros Ht (Hn & Hpid & _) Hp. unfold loadCurrentNode. rewrite Hp. rewrite decide_True by done.
  destruct (getNode_at t m _ n Ht Hn Hpid) as (t' & Hg & Ht' & Hs & _).
  rewrite (M_bind_eq _ _ _ _ _ Hg). by exists t'.
Qed.

(** [it_advance] from the slot [s] of a leaf, which may be past its last one. *)
Lemma advance_stands t m n l s :
  at_nodes t m → linked m (n :: l) → (s ≤ key_count (nheader n))%nat →
  ∃ t' it', it_advance (mkIterator (node_id n) (Z.of_nat s) false (Some n)) t = Some (t', it') ∧
    at_nodes t' m ∧ same_tree t t' ∧ stands m it' (drop (S s) (entries n) ++ leaves_entries l).
Proof.
  intros Ht Hlk Hs. pose proof Hlk as (Hn & Hpid & Hok & Hl & Hpos & Hnext & Hlk').
  pose proof (no_count _ Hok) as Hc. unfold MAX_KEYS, ORDER in Hc.
  unfold it_advance. cbn [it_node]. rewrite (M_bind_eq _ _ _ _ _ eq_refl). cbn [it_node it_slot is_end it_page].
  rewrite wrap_small by (unfold fits; lia).
  destruct (Z.leb_spec (Z.of_nat (key_count (nheader n))) (Z.of_nat s + 1)) as [Hge|Hlt].
  - rewrite drop_ge by (rewrite length_entries by done; lia). cbn [app].
    destruct l as [|n' l]; rewrite Hnext.
    + rewrite decide_True by done. eexists _, _. split; [reflexivity|]. split; [done|].
      split; [done|]. left. done.
    + pose proof Hlk' as (_ & Hpid' & _ & _ & Hpos' & _). rewrite decide_False by done.
      destruct (load_leaf t m l n' (mkIterator (node_id n') 0 false None) Ht Hlk' eq_refl)
        as (t' & Hload & Ht' & Hs').
      exists t', (mkIterator (node_id n') 0 false (Some n')). split; [done|]. split; [done|].
      split; [done|]. right. exists n', l, 0%nat. done.
  - eexists _, _. split; [reflexivity|]. split; [done|]. split; [done|]. right.
    exists n, l, (S s). split; [done|]. split; [lia|]. split; [|done]. f_equal. lia.
Qed.

(** ** The loop of a range query *)

(** The entries up to [last]. *)
Fixpoint take_upto (last : K) (es : list (K * Z)) : list (K * Z) :=
  match es with
  | [] => []
  | e :: es' => if key_ltb last e.1 then [] else e :: take_upto last es'
  end.

Lemma range_loop_spec m last es : ∀ it t fuel,
  stands m it es → at_nodes t m → (length es < fuel)%nat →
  ∃ t', range_loop fuel it last t = Some (t', take_upto last es) ∧ at_nodes t' m ∧ same_tree t t'.
Proof.
  induction es as [|e es IH]; intros it t fuel Hst Ht Hf; (destruct fuel as [|fuel]; [lia|]);
    cbn [range_loop].
  { destruct Hst as [[_ ->]|(n & l & s & Hlk & Hs & _ & Hes)].
    - exists t. done.
    - exfalso. pose proof Hlk as (_ & _ & Hok & Hl & _). symmetry in Hes. apply app_nil in Hes as [Hes _].
      apply (f_equal length) in Hes. rewrite length_drop, length_entries in Hes by done. cbn in Hes. lia. }
  destruct Hst as [[? _]|(n & l & s & Hlk & Hs & -> & Hes)]; [done|].
  pose proof Hlk as (_ & Hpid & Hok & Hl & _).
  destruct (leaf_entry n s Hok Hl Hs) as (e' & He & Hk & Hv).
  rewrite (drop_S _ _ _ He) in Hes. injection Hes as -> ->.
  assert (it_ne (mkIterator (node_id n) (Z.of_nat s) false (Some n)) tree_end = true) as -> by done.
  assert (it_deref (mkIterator (node_id n) (Z.of_nat s) false (Some n)) = Some e') as ->.
  { unfold it_deref. cbn [is_end it_node it_slot mbind option_bind]. rewrite Nat2Z.id, Hk, Hv.
    by destruct e'. }
  rewrite (M_bind_eq _ _ _ _ _ (lift_some _ t)). cbn [take_upto].
  destruct (key_ltb last e'.1); [by exists t|].
  destruct (advance_stands t m n l s Ht Hlk ltac:(lia)) as (t1 & it1 & Hadv & Ht1 & Hs1 & Hst1).
  rewrite (M_bind_eq _ _ _ _ _ Hadv).
  destruct (IH it1 t1 fuel Hst1 Ht1) as (t2 & Hr & Ht2 & Hs2); [cbn in Hf; lia|].
  rewrite (M_bind_eq _ _ _ _ _ Hr). exists t2. split; [done|]. split; [done|by eapply same_tree_trans].
Qed.

(** ** The start of a range *)

(** The entries from [start] on. *)
Fixpoint drop_below (start : K) (es : list (K * Z)) : list (K * Z) :=
  match es with
  | [] => []
  | e :: es' => if key_ltb e.1 start then drop_below start es' else es
  end.

Lemma drop_below_app start (l1 l2 : list (K * Z)) :
  Forall (λ e, klt e.1 start) l1 → drop_below start (l1 ++ l2) = drop_below start l2.
Proof. induction 1 as [|e l1 He _ IH]; [done|]. cbn. by rewrite (proj2 (key_ltb_spec _ _) He). Qed.

Lemma drop_below_above start (l : list (K * Z)) : Forall (λ e, klt start e.1) l → drop_below start l = l.
Proof.
  destruct 1 as [|e l He _]; [done|]. cbn. destruct (key_ltb e.1 start) eqn:Hl; [|done].
  apply key_ltb_spec in Hl. by destruct (klt_asym _ _ He Hl).
Qed.

(** [skip_less] stops at the first key that is not below. *)
Lemma skip_less_spec n start :
  node_ok n → isLeaf n = true → ∀ steps pos,
  (pos + steps = key_count (nheader n))%nat → ∃ q, skip_less steps n pos start = q ∧ (pos ≤ q)%nat ∧
    (q ≤ key_count (nheader n))%nat ∧ drop_below start (drop pos (entries n)) = drop q (entries n).
Proof.
  intros Hn Hl. induction steps as [|steps IH]; intros pos Hp; cbn [skip_less].
  { exists pos. split; [done|]. split; [lia|]. split; [lia|].
    by rewrite drop_ge by (rewrite length_entries by done; lia). }
  destruct (leaf_entry n pos Hn Hl ltac:(lia)) as (e & He & Hk & _). rewrite Hk.
  rewrite (drop_S _ _ _ He). cbn [drop_below].
  destruct (key_ltb e.1 start).
  - destruct (IH (1 + pos)%nat ltac:(lia)) as (q & Hq & ? & ? & Hd). exists q. split_and!; [done|lia|done|done].
  - exists pos. split_and!; [done|lia|lia|]. by rewrite (drop_S _ _ _ He).
Qed.

(** More steps change nothing. *)
Lemma skip_less_steps n start : ∀ steps pos,
  (key_count (nheader n) - pos ≤ steps)%nat →
  skip_less steps n pos start = skip_less (key_count (nheader n) - pos) n pos start.
Proof.
  induction steps as [|steps IH]; intros pos Hs.
  { by replace (key_count (nheader n) - pos)%nat with 0%nat by lia. }
  destruct (decide (key_count (nheader n) ≤ pos)%nat) as [Hge|Hlt].
  { replace (key_count (nheader n) - pos)%nat with 0%nat by lia. cbn [skip_less].
    unfold getKey. by rewrite decide_True. }
  replace (key_count (nheader n) - pos)%nat with (S (key_count (nheader n) - S pos)) by lia.
  cbn [skip_less]. destruct (getKey n pos) as [k|]; [|done]. destruct (key_ltb k start); [|done].
  rewrite (IH (1 + pos)%nat) by lia. done.
Qed.

(** The slot that [findFirst] computes in the leaf. *)
Lemma first_slot n start p :
  node_ok n → isLeaf n = true → findKeyIndex n start = Some p →
  ∃ q, skip_less (key_count (nheader n)) n (Z.to_nat p) start = q ∧ (q ≤ key_count (nheader n))%nat ∧
    drop_below start (entries n) = drop q (entries n).
Proof.
  intros Hn Hl Hp. destruct (findKeyIndex_position n start Hn) as (p' & Hp' & Hpos).
  rewrite Hp in Hp'. simplify_eq. pose proof (length_node_keys n Hn) as Hlen.
  unfold position_of in Hpos. rewrite Hlen in Hpos.
  assert (Z.to_nat p' ≤ key_count (nheader n))%nat as Hle by lia.
  assert (Forall (λ e, klt e.1 start) (take (Z.to_nat p') (entries n))) as Hbelow.
  { destruct Hpos as [[Hr Hk]|(Hr & Hlo & Hhi)].
    - by destruct (found_split n start (Z.to_nat p') Hn Hk) as (w & _ & H1 & _).
    - destruct (position_split n start p' Hn Hr Hlo Hhi) as [H1 _].
      eapply (Forall_take _ (Z.to_nat p')) in H1. rewrite take_take in H1.
      by rewrite Nat.min_l in H1 by lia. }
  rewrite skip_less_steps by lia.
  destruct (skip_less_spec n start Hn Hl (key_count (nheader n) - Z.to_nat p') (Z.to_nat p'))
    as (q & Hq & _ & Hqk & Hd); [lia|].
  exists q. split; [done|]. split; [done|].
  rewrite <- (take_drop (Z.to_nat p') (entries n)) at 1. by rewrite drop_below_app.
Qed.

(** ** The first leaf *)

Lemma leftmost_spec m h : ∀ pid lo hi es pids n t fuel,
  holds m h pid lo hi es pids → m !! pid = Some n → at_nodes t m → (h ≤ fuel)%nat →
  ∃ t' n0, leftmost fuel (Some n) t = Some (t', Some n0) ∧ at_nodes t' m ∧ same_tree t t' ∧
    n0 ∈ tree_leaves m h pid.
Proof.
  induction h as [|h IH]; intros pid lo hi es pids n t fuel (n0 & Hn & Hpid & Hst & Hd & Hid & Hrest) Hn0 Ht Hf;
    assert (n0 = n) as -> by congruence; clear Hn0; cbn [tree_leaves]; rewrite Hn.
  { destruct Hrest as (Hl & _). exists t, n.
    split; [destruct fuel; cbn [leftmost]; by rewrite Hl|]. split_and!; try done. by left. }
  destruct Hrest as (Hl & Hcc & _ & kids & Hlen & _ & _ & Hkids).
  destruct fuel as [|fuel]; [lia|]. cbn [leftmost]. rewrite Hl.
  rewrite (M_bind_eq _ _ _ _ _ (releaseNode_clean n t Hd)).
  destruct (lookup_lt_is_Some_2 kids 0) as [kid Hkid]; [lia|]. pose proof (Hkids 0%nat kid Hkid) as Hch.
  destruct (getChild_holds _ _ _ _ _ _ _ _ Hch) as (c & Hc & Hcp & _).
  destruct (getNode_at t m _ c Ht Hc Hcp) as (t1 & Hg & Ht1 & Hs1 & _).
  rewrite (M_bind_eq _ _ _ _ _ Hg).
  destruct (IH _ _ _ _ _ c t1 fuel Hch Hc Ht1 ltac:(lia)) as (t2 & n0 & Hlm & Ht2 & Hs2 & Hin).
  exists t2, n0. split; [done|]. split; [done|]. split; [by eapply same_tree_trans|].
  cbn [seq fmap list_fmap concat]. apply elem_of_app. by left.
Qed.

Lemma linked_elem m l n : linked m l → n ∈ l → (0 < key_count (nheader n))%nat.
Proof.
  induction l as [|n' l IH]; [by intros _ ?%elem_of_nil|].
  intros (_ & _ & _ & _ & Hpos & _ & Hlk) [->|Hin]%elem_of_cons; auto.
Qed.

Lemma tree_begin_spec m h lo hi es pids t fuel :
  holds m h (root_page_id t) lo hi es pids → linked m (tree_leaves m h (root_page_id t)) →
  at_nodes t m → (h ≤ fuel)%nat →
  ∃ t' it, tree_begin fuel t = Some (t', it) ∧ at_nodes t' m ∧ same_tree t t' ∧ is_end it = false.
Proof.
  intros Hh Hlk Ht Hf. assert (∃ n, m !! root_page_id t = Some n ∧ root_page_id t ≠ INVALID_PAGE_ID)
    as (n & Hn & Hpid) by (destruct h; destruct Hh as (n & ? & ? & _); eauto).
  unfold tree_begin. rewrite (M_bind_eq _ get_tree _ _ _ eq_refl).
  destruct (getNode_at t m _ n Ht Hn Hpid) as (t1 & Hg & Ht1 & Hs1 & _).
  rewrite (M_bind_eq _ _ _ _ _ Hg).
  destruct (leftmost_spec m h _ _ _ _ _ n t1 fuel Hh Hn Ht1 Hf) as (t2 & n0 & Hlm & Ht2 & Hs2 & Hin).
  rewrite (M_bind_eq _ _ _ _ _ Hlm). pose proof (linked_elem _ _ _ Hlk Hin).
  rewrite decide_False by lia. exists t2. eexists. split; [reflexivity|].
  split; [done|]. split; [by eapply same_tree_trans|done].
Qed.

Lemma drop_below_nil start (l : list (K * Z)) : drop_below start l = [] → Forall (λ e, klt e.1 start) l.
Proof.
  induction l as [|e l IH]; cbn; [by constructor|]. destruct (key_ltb e.1 start) eqn:He; [|done].
  intros Hl. constructor; [by apply key_ltb_spec|by apply IH].
Qed.

Lemma drop_below_cons start (l x : list (K * Z)) :
  drop_below start l ≠ [] → drop_below start (l ++ x) = drop_below start l ++ x.
Proof.
  induction l as [|e l IH]; cbn; [done|]. by destruct (key_ltb e.1 start).
Qed.

Lemma findFirst_spec m h lo hi es pids start t fuel :
  holds m h (root_page_id t) lo hi es pids → linked m (tree_leaves m h (root_page_id t)) →
  at_nodes t m → (h ≤ fuel)%nat →
  ∃ t' it, findFirst fuel start t = Some (t', it) ∧ at_nodes t' m ∧ same_tree t t' ∧
    stands m it (drop_below start es).
Proof.
  intros Hh Hlk Ht Hf. destruct (findLeaf_spec m start h lo hi es pids t fuel Hh Ht Hf)
    as (t1 & n & Hfl & Ht1 & Hs1 & _ & (_ & Hpid & Hst & Hd & Hl & l1 & l2 & Hsplit & H1 & H2)).
  pose proof (holds_leaves _ _ _ _ _ _ _ Hh) as Hes.
  rewrite Hsplit, leaves_entries_app in Hes. change (leaves_entries (n :: l2)) with (entries n ++ leaves_entries l2) in Hes.
  pose proof Hlk as Hlk2. rewrite Hsplit in Hlk2. apply linked_app in Hlk2.
  pose proof (st_node _ Hst) as Hok. destruct (findKeyIndex_position n start Hok) as (p & Hp & _).
  destruct (first_slot n start p Hok Hl Hp) as (q & Hq & Hqk & Hdrop).
  unfold findFirst. rewrite (M_bind_eq _ _ _ _ _ Hfl), Hp, (M_bind_eq _ _ _ _ _ (lift_some _ t1)).
  cbv zeta. rewrite Hq, (M_bind_eq _ _ _ _ _ (releaseNode_clean n t1 Hd)).
  destruct (tree_begin_spec m h lo hi es pids t1 fuel) as (t2 & it0 & Hb & Ht2 & Hs2 & Hend);
    [destruct Hs1 as [Hr1 _]; by rewrite Hr1..|done|done|].
  rewrite (M_bind_eq _ _ _ _ _ Hb), Hend.
  destruct (load_leaf t2 m l2 n (mkIterator (node_id n) (Z.of_nat q) false (it_node it0)) Ht2 Hlk2 eq_refl)
    as (t3 & Hload & Ht3 & Hs3).
  rewrite (M_bind_eq _ _ _ _ _ Hload). cbn [it_node it_slot is_end].
  assert (same_tree t t3) as Hs by (by eapply same_tree_trans, same_tree_trans).
  rewrite Hes, drop_below_app by done.
  destruct (Z.leb_spec (Z.of_nat (key_count (nheader n))) (Z.of_nat q)) as [Hge|Hlt].
  - assert (q = key_count (nheader n)) as -> by lia.
    rewrite drop_ge in Hdrop by (rewrite length_entries by done; lia).
    rewrite drop_below_app by (by apply drop_below_nil). rewrite drop_below_above by done.
    destruct (advance_stands t3 m n l2 _ Ht3 Hlk2 Hqk) as (t4 & it & Hadv & Ht4 & Hs4 & Hstands).
    rewrite drop_ge in Hstands by (rewrite length_entries by done; lia). cbn [app] in Hstands.
    exists t4, it. split; [done|]. split; [done|]. split; [by eapply same_tree_trans|done].
  - exists t3. eexists. split; [reflexivity|]. split; [done|]. split; [done|]. right.
    exists n, l2, q. split; [done|]. split; [lia|]. split; [done|].
    rewrite drop_below_cons; [by rewrite Hdrop|]. rewrite Hdrop. intros Hnil.
    apply (f_equal length) in Hnil. rewrite length_drop, length_entries in Hnil by done. cbn in Hnil. lia.
Qed.

(** ** Sorted entries *)

Lemma sorted_concat (ls : list (list (K * Z))) :
  (∀ i (l : list (K * Z)), ls !! i = Some l → StronglySorted klt l.*1) →
  (∀ i j (l l' : list (K * Z)) a b, (i < j)%nat → ls !! i = Some l → ls !! j = Some l' → a ∈ l → b ∈ l' → klt a.1 b.1) →
  StronglySorted klt (concat ls).*1.
Proof.
  induction ls as [|l ls IH]; intros Hs Hlt; [constructor|]. cbn [concat]. rewrite fmap_app.
  apply StronglySorted_app. split; [|split].
  - intros x1 x2 (a & -> & Ha)%list_elem_of_fmap (b & -> & Hb)%list_elem_of_fmap.
    apply elem_of_concat in Hb as (l' & [j Hj]%list_elem_of_lookup & Hb).
    apply (Hlt 0%nat (S j) l l' a b); [lia|done..].
  - by apply (Hs 0%nat).
  - apply IH; [intros i l' Hi; by apply (Hs (S i))|].
    intros i j l1 l2 a b Hij Hi Hj. apply (Hlt (S i) (S j)); [lia|done..].
Qed.

Lemma holds_sorted m h : ∀ pid lo hi es pids,
  holds m h pid lo hi es pids → StronglySorted klt es.*1.
Proof.
  induction h as [|h IH]; intros pid lo hi es pids (n & _ & _ & Hst & _ & _ & Hrest).
  { destruct Hrest as (_ & -> & _). rewrite entries_keys by apply Hst.
    apply keys_sorted_iff, no_sorted, Hst. }
  destruct Hrest as (_ & _ & _ & kids & Hlen & -> & _ & Hkids).
  pose proof (length_node_keys n (st_node _ Hst)) as Hlk. apply sorted_concat.
  - intros i l Hi. rewrite list_lookup_fmap in Hi. apply fmap_Some in Hi as (kid & Hi & ->).
    by eapply IH, Hkids.
  - intros i j l l' a b Hij Hi Hj Ha Hb. rewrite list_lookup_fmap in Hi. rewrite list_lookup_fmap in Hj.
    apply fmap_Some in Hi as (ki & Hi & ->). apply fmap_Some in Hj as (kj & Hj & ->).
    pose proof (lookup_lt_Some _ _ _ Hj) as Hjl.
    pose proof (holds_range _ _ _ _ _ _ _ (Hkids i ki Hi)) as Hri.
    pose proof (holds_range _ _ _ _ _ _ _ (Hkids j kj Hj)) as Hrj.
    rewrite Forall_fmap, Forall_forall in Hri, Hrj.
    destruct (Hri a Ha) as [_ Hau]. destruct (Hrj b Hb) as [Hbl _]. cbn in Hau, Hbl.
    destruct j as [|j]; [lia|]. cbn [child_lo] in Hbl. unfold child_hi in Hau.
    rewrite decide_False in Hau by lia.
    destruct (lookup_lt_is_Some_2 (node_keys n) i) as [u Hu]; [lia|].
    destruct (lookup_lt_is_Some_2 (node_keys n) j) as [w Hw]; [lia|].
    specialize (Hau u Hu). specialize (Hbl w Hw). eapply klt_kle_trans; [exact Hau|].
    destruct (decide (i = j)) as [->|]; [simplify_eq; done|].
    apply klt_kle. eapply klt_kle_trans; [|exact Hbl].
    apply (no_sorted _ (st_node _ Hst) i j); [lia|done..].
Qed.

(** Whether a key is in the range. *)
Definition in_interval (start last : K) (e : K * Z) : bool :=
  negb (key_ltb e.1 start) && negb (key_ltb last e.1).

Lemma take_upto_filter start last es :
  StronglySorted klt es.*1 → Forall (λ e, ¬ klt e.1 start) es →
  take_upto last es = List.filter (in_interval start last) es.
Proof.
  induction es as [|e es IH]; intros Hs Hf; [done|]. apply Forall_cons in Hf as [He Hf].
  cbn [fmap list_fmap] in Hs. apply StronglySorted_cons in Hs as [Hall Hs]. cbn [take_upto List.filter].
  unfold in_interval at 1. assert (key_ltb e.1 start = false) as ->
    by (apply not_true_iff_false; by rewrite key_ltb_spec).
  destruct (key_ltb last e.1) eqn:Hl; cbn [negb andb]; [|by rewrite IH].
  apply key_ltb_spec in Hl. symmetry. clear IH Hs Hf He. induction es as [|e' es IH]; [done|].
  apply Forall_cons in Hall as [He' Hall]. cbn [List.filter]. unfold in_interval at 1.
  assert (klt last e'.1) as Hlt%key_ltb_spec by (by eapply kcmp_trans).
  rewrite Hlt, andb_false_r. by apply IH.
Qed.

Lemma range_filter start last es :
  StronglySorted klt es.*1 →
  take_upto last (drop_below start es) = List.filter (in_interval start last) es.
Proof.
  induction es as [|e es IH]; intros Hs; [done|]. cbn [drop_below].
  destruct (key_ltb e.1 start) eqn:He.
  - cbn [List.filter]. unfold in_interval at 1. rewrite He. cbn [negb andb].
    apply IH. cbn in Hs. by apply StronglySorted_cons in Hs as [_ Hs].
  - apply take_upto_filter; [done|]. cbn in Hs. apply StronglySorted_cons in Hs as [Hall _].
    assert (¬ klt e.1 start) as Hn by (rewrite <- key_ltb_spec; by rewrite He).
    constructor; [done|]. rewrite Forall_fmap in Hall. eapply Forall_impl; [exact Hall|].
    intros e' Hlt Hc. apply Hn. by eapply kcmp_trans.
Qed.

Lemma range_entries m h lo hi es pids start last t fuel :
  holds m h (root_page_id t) lo hi es pids → linked m (tree_leaves m h (root_page_id t)) →
  at_nodes t m → (h ≤ fuel)%nat → (length es < fuel)%nat →
  ∃ t', at_nodes t' m ∧ same_tree t t' ∧
    rangeQueryWithKeys fuel start last t = Some (t', List.filter (in_interval start last) es).
Proof.
  intros Hh Hlk Ht Hf Hlen.
  destruct (findFirst_spec m h lo hi es pids start t fuel Hh Hlk Ht Hf) as (t1 & it & Hff & Ht1 & Hs1 & Hst).
  assert (length (drop_below start es) ≤ length es)%nat as Hle
    by (clear; induction es as [|e es IH]; cbn; [lia|destruct (key_ltb e.1 start); cbn; lia]).
  destruct (range_loop_spec m last _ it t1 fuel Hst Ht1) as (t2 & Hr & Ht2 & Hs2); [lia|].
  rewrite range_filter in Hr by (by eapply holds_sorted).
  exists t2. split; [done|]. split; [by eapply same_tree_trans|].
  unfold rangeQueryWithKeys. by rewrite (M_bind_eq _ _ _ _ _ Hff).
Qed.


End Range.

(** ** The index that the constructor makes *)

Section NewTree.
Context {K : Type} `{HK : Key K} `{HL : !KeyLaws K} {T : Type} `{HN : NodeStore K T}.
Context `{HNL : !NodeStoreLaws K T} `{HR : !IntRemove K}.
Implicit Types (t : BTree T) (n : BTreeNode K) (m : gmap Z (BTreeNode K)) (key : K).
Hypothesis default_ok : kok kdefault.

(** The root has no keys and no children, and is not a leaf. *)
Definition empty_root t m : Prop :=
  at_nodes t m ∧ root_page_id t ≠ INVALID_PAGE_ID ∧
  ∃ n, m !! root_page_id t = Some n ∧ ndirty n = false ∧ isLeaf n = false ∧
    key_count (nheader n) = 0%nat ∧ child_count (nheader n) = 0%nat.

Lemma storable_new pid type :
  type ∈ [BTreeNodeType.LEAF; BTreeNodeType.INTERNAL; BTreeNodeType.ROOT] →
  storable (mark_node_dirty (BTreeNode_new pid type)).
Proof.
  intros Ht. assert (fits 64 INVALID_PAGE_ID) as Hi by (unfold fits, INVALID_PAGE_ID; lia).
  constructor; cbn [mark_node_dirty BTreeNode_new keys values children nheader].
  - constructor; cbn [mark_node_dirty BTreeNode_new keys values children nheader key_count];
      rewrite ?length_replicate; try done; try lia.
  - constructor; cbn; [done|lia|lia|done..|unfold fits; lia].
  - by apply Forall_replicate.
  - apply Forall_replicate. unfold fits. lia.
  - by apply Forall_replicate.
Qed.

(** The root that is made of a new leaf. *)
Lemma new_root_storable pid :
  storable (setNodeType BTreeNodeType.ROOT (stored_node (mark_node_dirty (BTreeNode_new pid BTreeNodeType.LEAF)))).
Proof.
  destruct (storable_new pid BTreeNodeType.LEAF) as [[Hk Hv Hc Hcnt Hs] [] Hkk Hvv Hcc]; [by left|].
  constructor; [by constructor| |done..].
  constructor; try done. cbn. right. right. by left.
Qed.

Lemma BTree_open_new config s s0 :
  ns_load 0 s = Some (s0, None) → ns_ok s0 → ns_room s0 →
  ∃ t m, BTree_open config s = Some (t, ()) ∧ empty_root t m ∧ bt_config t = config.
Proof.
  intros Hload Hok Hroom.
  destruct (ns_create_law s0 Hok Hroom) as (s1 & pid & n0 & Hc & Hok1 & Hpid & _ & Hm1).
  set (t0 := mkBTree s 0 config IndexStats_zero).
  set (t1 := set_bt_store s1 (set_bt_store s0 t0)).
  assert (at_nodes t1 (<[pid := n0]> (ns_nodes s0))) as Ht1 by done.
  destruct (releaseNode_dirty t1 _ (mark_node_dirty (BTreeNode_new pid BTreeNodeType.LEAF)) Ht1 eq_refl)
    as (t2 & Hr2 & Ht2 & [_ Hcfg2] & _); [apply storable_new; by left|cbn; rewrite lookup_insert_eq; eauto|].
  cbn [node_id mark_node_dirty BTreeNode_new] in Ht2. rewrite insert_insert_eq in Ht2.
  set (n1 := stored_node _) in Ht2.
  set (t3 := mkBTree (bt_store t2) pid (bt_config t2) (add_nodes 1 1 0 (bt_stats t2))).
  assert (at_nodes t3 (<[pid := n1]> (ns_nodes s0))) as Ht3 by done.
  destruct (getNode_at t3 _ pid n1 Ht3) as (t4 & Hg4 & Ht4 & [Hroot4 Hcfg4] & _);
    [apply lookup_insert_eq|done|].
  destruct (releaseNode_dirty t4 _ (setNodeType BTreeNodeType.ROOT n1) Ht4 eq_refl)
    as (t5 & Hr5 & Ht5 & [Hroot5 Hcfg5] & _); [apply new_root_storable|cbn; rewrite lookup_insert_eq; eauto|].
  cbn [node_id setNodeType n1 stored_node mark_node_dirty BTreeNode_new] in Ht5.
  rewrite insert_insert_eq in Ht5.
  eexists (mkBTree (bt_store t5) (root_page_id t5) (bt_config t5) (set_height 1 (bt_stats t5))), _.
  split; [|split].
  - unfold BTree_open.
    assert (getNode 0 t0 = Some (set_bt_store s0 t0, None)) as Hg0.
    { unfold getNode. rewrite decide_False by done. change (bt_store t0) with s. by rewrite Hload. }
    rewrite (M_bind_eq _ _ _ _ _ Hg0). unfold createNode.
    assert (new_page (set_bt_store s0 t0) = Some (t1, pid)) as Hnp.
    { unfold new_page. change (bt_store (set_bt_store s0 t0)) with s0. by rewrite Hc. }
    assert ((pid ← new_page; releaseNode (mark_node_dirty (BTreeNode_new pid BTreeNodeType.LEAF)) ;;
      (if decide (BTreeNodeType.LEAF = BTreeNodeType.LEAF) then count (add_nodes 1 1 0)
       else count (add_nodes 1 0 1)) ;; mret pid) (set_bt_store s0 t0) =
      Some (mkBTree (bt_store t2) (root_page_id t2) (bt_config t2) (add_nodes 1 1 0 (bt_stats t2)), pid))
      as Hcn.
    { rewrite (M_bind_eq _ _ _ _ _ Hnp), (M_bind_eq _ _ _ _ _ Hr2). done. }
    rewrite (M_bind_eq _ _ _ _ _ Hcn). 
    rewrite (M_bind_eq _ (set_root pid) (mkBTree (bt_store t2) (root_page_id t2) (bt_config t2)
      (add_nodes 1 1 0 (bt_stats t2))) t3 () eq_refl).
    rewrite (M_bind_eq _ _ _ _ _ Hg4). rewrite (M_bind_eq _ _ _ _ _ Hr5). done.
  - split; [exact Ht5|]. cbn [root_page_id]. rewrite Hroot5, Hroot4. cbn [t3 root_page_id].
    split; [done|]. eexists. split; [apply lookup_insert_eq|]. done.
  - cbn [bt_config]. rewrite Hcfg5, Hcfg4. cbn [t3 bt_config]. by rewrite Hcfg2.
Qed.

(** Insertions of a list of entries, with their statuses. *)
Fixpoint insert_list (fuel : nat) (l : list (K * Z)) : M (list StatusCode) :=
  match l with
  | [] => mret []
  | e :: l' =>
      status ← btree_insert fuel e.1 e.2;
      rest ← insert_list fuel l';
      mret (status :: rest)
  end.

Lemma empty_root_child n key :
  isLeaf n = false → key_count (nheader n) = 0%nat → child_count (nheader n) = 0%nat →
  findKeyIndex n key = Some (-1) ∧ findChildIndex n key = Some 0 ∧ getChild n 0 = INVALID_PAGE_ID.
Proof.
  intros Hl Hk Hc.
  assert (findKeyIndex n key = Some (-1)) as Hf by (unfold findKeyIndex; by rewrite Hk).
  split; [done|]. unfold findChildIndex, getChild. rewrite Hl, Hf, Hc. done.
Qed.

Lemma empty_root_insert t m fuel key v :
  empty_root t m →
  ∃ t', btree_insert fuel key v t = Some (t', StatusCode.ERROR) ∧ empty_root t' m ∧ same_tree t t'.
Proof.
  intros (Ht & Hpid & n & Hn & Hd & Hl & Hk & Hc).
  destruct (empty_root_child n key Hl Hk Hc) as (Hf & Hci & Hch).
  destruct (btree_insert_root m n key v t fuel Ht Hn Hpid) as (t1 & Ht1 & Hs1 & Hroot);
    [unfold isFull; rewrite bool_decide_false; [done|rewrite Hk; unfold MAX_KEYS, ORDER; lia]|done|].
  destruct (getNode_at t1 m _ n Ht1 Hn Hpid) as (t2 & Hg2 & Ht2 & Hs2 & _).
  assert (same_tree t t2) as Hs by (by eapply same_tree_trans).
  exists t2. split; [apply Hroot|split; [|done]].
  - destruct fuel; cbn [insertInternal]; rewrite (M_bind_eq _ _ _ _ _ Hg2), Hf;
      rewrite (M_bind_eq _ _ _ _ _ (lift_some _ t2)), Hl, Hci;
      rewrite (M_bind_eq _ _ _ _ _ (lift_some _ t2)); change (Z.to_nat 0) with 0%nat; rewrite Hch;
      rewrite (M_bind_eq _ (getNode INVALID_PAGE_ID) t2 t2 None eq_refl);
      by rewrite (M_bind_eq _ _ _ _ _ (releaseNode_clean n t2 Hd)).
  - destruct Hs as [Hr _]. split; [done|]. rewrite Hr. split; [done|]. by exists n.
Qed.

Lemma empty_root_findLeaf t m fuel key :
  empty_root t m → (0 < fuel)%nat → ∃ t', findLeaf fuel key t = Some (t', None) ∧ empty_root t' m.
Proof.
  intros (Ht & Hpid & n & Hn & Hd & Hl & Hk & Hc) Hfuel.
  destruct (empty_root_child n key Hl Hk Hc) as (Hf & Hci & Hch).
  destruct (getNode_at t m _ n Ht Hn Hpid) as (t1 & Hg & Ht1 & [Hr _] & _).
  exists t1. split.
  - unfold findLeaf. rewrite (M_bind_eq _ get_tree _ _ _ eq_refl), (M_bind_eq _ _ _ _ _ Hg).
    destruct fuel as [|fuel]; [lia|]. cbn [findLeaf_loop]. rewrite Hl, Hci.
    rewrite (M_bind_eq _ _ _ _ _ (lift_some _ t1)). change (Z.to_nat 0) with 0%nat. rewrite Hch.
    rewrite (M_bind_eq _ (getNode INVALID_PAGE_ID) t1 t1 None eq_refl).
    rewrite (M_bind_eq _ _ _ _ _ (releaseNode_clean n t1 Hd)). by destruct fuel.
  - split; [done|]. rewrite Hr. split; [done|]. by exists n.
Qed.

Lemma empty_root_find t m fuel key :
  empty_root t m → (0 < fuel)%nat →
  ∃ t', btree_find fuel key t = Some (t', (StatusCode.NOT_FOUND, None)) ∧ empty_root t' m.
Proof.
  intros He Hfuel. destruct (empty_root_findLeaf t m fuel key He Hfuel) as (t1 & Hfl & He1).
  exists t1. split; [|done]. unfold btree_find. by rewrite (M_bind_eq _ _ _ _ _ Hfl).
Qed.

Lemma empty_root_range t m fuel start last :
  empty_root t m → (0 < fuel)%nat → ∃ t', rangeQuery fuel start last t = Some (t', []) ∧ empty_root t' m.
Proof.
  intros He Hfuel. destruct (empty_root_findLeaf t m fuel start He Hfuel) as (t1 & Hfl & He1).
  exists t1. split; [|done].
  assert (findFirst fuel start t = Some (t1, tree_end)) as Hff
    by (unfold findFirst; by rewrite (M_bind_eq _ _ _ _ _ Hfl)).
  assert (rangeQueryWithKeys fuel start last t = Some (t1, [])) as Hq.
  { unfold rangeQueryWithKeys. rewrite (M_bind_eq _ _ _ _ _ Hff). by destruct fuel. }
  unfold rangeQuery. by rewrite (M_bind_eq _ _ _ _ _ Hq).
Qed.

(** A new index never stores an entry: when page 0 cannot be read, the constructor makes a
    root of type [ROOT], which is neither a leaf nor has children; every insertion then
    returns [ERROR], whatever the entries, and every search [NOT_FOUND]. *)
Theorem new_index_never_stores config s s0 l fuel :
  ns_load 0 s = Some (s0, None) → ns_ok s0 → ns_room s0 → (0 < fuel)%nat →
  ∃ t t', BTree_open config s = Some (t, ()) ∧
    insert_list fuel l t = Some (t', replicate (length l) StatusCode.ERROR) ∧
    ∀ key, ∃ t'', btree_find fuel key t' = Some (t'', (StatusCode.NOT_FOUND, None)).
Proof.
  intros Hload Hok Hroom Hfuel. destruct (BTree_open_new config s s0 Hload Hok Hroom) as (t & m & Ho & He & _).
  assert (∃ t', insert_list fuel l t = Some (t', replicate (length l) StatusCode.ERROR) ∧ empty_root t' m)
    as (t' & Hi & He').
  { clear Ho. revert t He. induction l as [|e l IH]; intros t He; [by exists t|]. cbn [insert_list].
    destruct (empty_root_insert t m fuel e.1 e.2 He) as (t1 & Hi & He1 & _).
    destruct (IH t1 He1) as (t2 & Hl & He2). exists t2. split; [|done].
    by rewrite (M_bind_eq _ _ _ _ _ Hi), (M_bind_eq _ _ _ _ _ Hl). }
  exists t, t'. split; [done|]. split; [done|]. intros key.
  destruct (empty_root_find t' m fuel key He' Hfuel) as (t2 & Hf & _). by exists t2.
Qed.

End NewTree.

(** ** An index with one leaf *)

Section LeafTree.
Context {K : Type} `{HK : Key K} `{HL : !KeyLaws K} {T : Type} `{HN : NodeStore K T}.
Context `{HNL : !NodeStoreLaws K T}.
Implicit Types (t : BTree T) (m : gmap Z (BTreeNode K)) (key : K).

(** The root is a leaf with these entries and no next leaf. *)
Definition leaf_root t m (es : list (K * Z)) : Prop :=
  at_nodes t m ∧ holds m 0 (root_page_id t) None None es [root_page_id t] ∧
  ((λ n, next_id (nheader n)) <$> m !! root_page_id t) = Some INVALID_PAGE_ID.

Lemma leaf_root_insert t m es fuel key v :
  leaf_root t m es → (length es < MAX_KEYS)%nat → kok key → fits 64 v → cfg_unique (bt_config t) = false →
  ∃ t' m', btree_insert fuel key v t = Some (t', StatusCode.OK) ∧ leaf_root t' m' (ins key v es) ∧ same_tree t t'.
Proof.
  intros (Ht & Hh & Hnx) Hlen Hk Hv Hu.
  pose proof Hh as (n & Hn & Hpid & Hst & Hd & Hid & Hl & Hes & _ & _).
  assert (isFull n = false) as Hfull.
  { unfold isFull. apply bool_decide_false. rewrite Hes, length_entries in Hlen by apply Hst. lia. }
  destruct (btree_insert_root m n key v t fuel Ht Hn Hpid Hfull Hd) as (t1 & Ht1 & Hs1 & Hroot).
  destruct (insertInternal_leaf m key v (root_page_id t) None None es [root_page_id t] t1 fuel)
    as (t2 & m' & Hi & Ht2 & Hs2 & _ & Hh' & _ & Hnx'); try done.
  - cbn [path_free]. by rewrite Hn.
  - destruct Hs1 as [_ Hc]. rewrite Hc, Hu. done.
  - assert (same_tree t t2) as Hs by (by eapply same_tree_trans). pose proof Hs as [Hr _].
    exists t2, m'. split; [by apply Hroot|]. split; [|done]. unfold leaf_root. rewrite Hr.
    split; [done|]. split; [done|]. by rewrite Hnx'.
Qed.

Lemma leaf_root_range t m es fuel start last :
  leaf_root t m es → es ≠ [] → (length es < fuel)%nat →
  ∃ t', rangeQuery fuel start last t = Some (t', (List.filter (in_interval start last) es).*2).
Proof.
  intros (Ht & Hh & Hnx) Hne Hf. pose proof Hh as (n & Hn & Hpid & Hst & Hd & Hid & Hl & Hes & _ & _).
  destruct (range_entries m 0 None None es [root_page_id t] start last t fuel Hh) as (t' & _ & _ & Hq);
    [|done|lia|done|].
  - cbn [tree_leaves]. rewrite Hn. cbn [linked]. rewrite Hid. split_and!; try done.
    + apply Hst.
    + rewrite <- length_entries, <- Hes by apply Hst. destruct es; [done|cbn; lia].
    + rewrite Hn in Hnx. cbn in Hnx. congruence.
  - exists t'. unfold rangeQuery. by rewrite (M_bind_eq _ _ _ _ _ Hq).
Qed.

End LeafTree.

(** ** Removal from an index on 32-bit integers *)

Section IntRemoval.
Context {T : Type}.
#[local] Instance key4 : Key Z := int_key 4.
#[local] Instance key4_laws : KeyLaws Z.
Proof. apply int_key_laws. lia. Defined.
#[local] Instance remove4 : IntRemove Z := int32_remove.
Context `{HN : NodeStore Z T} `{HNL : !NodeStoreLaws Z T}.
Implicit Types (t : BTree T) (n : BTreeNode Z) (m : gmap Z (BTreeNode Z)).

Lemma removeKey_absent n key :
  node_ok n → key ∉ node_keys n → removeKey key n = Some (n, false).
Proof.
  intros Hn Habs. destruct (findKeyIndex_position n key Hn) as (p & Hp & Hpos).
  unfold removeKey. rewrite Hp. cbn [mbind option_bind].
  destruct ((p <? 0) || (Z.of_nat (key_count (nheader n)) <=? p)) eqn:Hr; [done|].
  apply orb_false_iff in Hr as [Hr1%Z.ltb_ge Hr2%Z.leb_gt].
  pose proof (length_node_keys n Hn) as Hlen.
  destruct (lookup_lt_is_Some_2 (node_keys n) (Z.to_nat p)) as [k Hk]; [lia|].
  pose proof Hk as Hk'. unfold node_keys in Hk'. rewrite lookup_take_lt in Hk' by lia. rewrite Hk'.
  cbn [mbind option_bind]. destruct (key_eqb k key) eqn:He; [|done].
  apply key_eqb_spec in He as ->. destruct Habs. by eapply list_elem_of_lookup_2.
Qed.

(** Removal from an index on [int32_t] keys with one leaf: when the index has the key, but no
    key equal to the position of the key in the leaf, [remove] returns [OK] and counts
    one key less, and nothing is removed: the call [node->remove(pos)] selects the
    overload that takes a key. *)
Theorem int_remove_keeps_key m t key v es pids lo hi fuel :
  holds m 0 (root_page_id t) lo hi es pids → at_nodes t m →
  assoc key es = Some v → (∀ i w, es !! i = Some (key, w) → ∀ u, (Z.of_nat i, u) ∉ es) →
  ∃ t', btree_remove fuel key t = Some (t', StatusCode.OK) ∧ at_nodes t' m ∧ same_tree t t' ∧
    total_keys (bt_stats t') = wrap 64 (total_keys (bt_stats t) - 1).
Proof.
  intros (n & Hn & Hpid & Hst & Hd & Hid & Hl & -> & -> & Hes) Ht Hv Hno.
  pose proof (st_node _ Hst) as Hok.
  destruct (leaf_lookup n key Hok Hl) as (pos & Hpos & [(Hka & _)|[_ Hnone]]); [|congruence].
  unfold key_at in Hka. apply andb_true_iff in Hka as [[Hr1%Z.leb_le Hr2%Z.ltb_lt]%andb_true_iff Hk].
  assert (removeKey pos n = Some (n, false)) as Hrm.
  { apply removeKey_absent; [done|]. intros Hin. rewrite <- entries_keys in Hin by done.
    apply list_elem_of_fmap in Hin as ([k u] & Hku & Hin). cbn in Hku. subst k.
    destruct (leaf_entry n (Z.to_nat pos) Hok Hl ltac:(lia)) as ([k w] & He & Hgk & _).
    unfold getKey in Hgk. rewrite decide_False in Hgk by lia. cbn in Hgk. rewrite Hgk in Hk.
    apply key_eqb_spec in Hk as ->. apply (Hno _ _ He u). by rewrite Z2Nat.id by done. }
  destruct (getNode_at t m _ n Ht Hn Hpid) as (t1 & Hg & Ht1 & Hs1 & Hst1).
  assert (removeInternal fuel key (root_page_id t) t = Some (t1, StatusCode.OK)) as Hri.
  { destruct fuel; cbn [removeInternal]; rewrite (M_bind_eq _ _ _ _ _ Hg), Hpos;
      rewrite (M_bind_eq _ _ _ _ _ (lift_some _ t1)), Hl; unfold key_at;
      rewrite (proj2 (Z.leb_le _ _) Hr1), (proj2 (Z.ltb_lt _ _) Hr2), Hk; cbn [andb]; change (removeInt pos n) with (removeKey pos n);
      rewrite Hrm, (M_bind_eq _ _ _ _ _ (lift_some _ t1)); cbn [fst];
      by rewrite (M_bind_eq _ _ _ _ _ (releaseNode_clean n t1 Hd)). }
  set (t2 := mkBTree (bt_store t1) (root_page_id t1) (bt_config t1) (add_keys (-1) (bt_stats t1))).
  destruct (getNode_at t2 m (root_page_id t) n) as (t3 & Hg3 & Ht3 & Hs3 & Hst3); [done..|].
  exists t3. split; [|split; [done|split; [by eapply same_tree_trans|]]].
  - unfold btree_remove. rewrite (M_bind_eq _ get_tree _ _ _ eq_refl), (M_bind_eq _ _ _ _ _ Hri).
    rewrite decide_True by done.
    assert (root_page_id t2 = root_page_id t) as Hroot by apply Hs1.
    assert (shrink_root t1 = Some (t3, ())) as Hend.
    { unfold shrink_root. rewrite (M_bind_eq _ (count (add_keys (-1))) t1 t2 () eq_refl).
      rewrite (M_bind_eq _ get_tree _ _ _ eq_refl), Hroot, (M_bind_eq _ _ _ _ _ Hg3).
      rewrite decide_False by lia. rewrite (M_bind_eq _ (mret ()) t3 t3 () eq_refl).
      by apply releaseNode_clean. }
    by rewrite (M_bind_eq _ _ _ _ _ Hend).
  - rewrite Hst3. cbn [t2 bt_stats]. rewrite Hst1. done.
Qed.

End IntRemoval.

(** ** Examples *)

(** [Page::getData] as a view of the data of the page. *)
Definition bytes0 (pg : Page) : list Z := take 4096 (pdata pg ++ replicate 4096 0).
Definition set_bytes0 (bs : list Z) (pg : Page) : Page := mkPage (header pg) bs.

Lemma bytes0_length pg : length (bytes0 pg) = Z.to_nat PAGE_SIZE.
Proof.
  unfold bytes0, PAGE_SIZE. change (Z.to_nat 4096) with 4096%nat.
  rewrite length_take, length_app, length_replicate. lia.
Qed.

Lemma bytes0_set pg bs : length bs = Z.to_nat PAGE_SIZE → bytes0 (set_bytes0 bs pg) = bs.
Proof.
  intros Hl. unfold bytes0, set_bytes0. cbn [pdata]. unfold PAGE_SIZE in Hl.
  change (Z.to_nat 4096) with 4096%nat in Hl. by rewrite take_app_length' by done.
Qed.

#[local] Instance key4' : Key Z := int_key 4.
#[local] Instance key4_laws' : KeyLaws Z.
Proof. apply int_key_laws. lia. Defined.
#[local] Instance remove4' : IntRemove Z := int32_remove.
#[local] Instance store0 : PageStore FileManager := FileManager_store env0.
#[local] Instance nodes0 : NodeStore Z (BufferPool FileManager) := PoolNodes 1 bytes0 set_bytes0.

Lemma small_key4 : (ksize ≤ 23)%nat.
Proof. apply Nat.leb_le. reflexivity. Qed.

#[local] Instance nodes0_laws : NodeStoreLaws Z (BufferPool FileManager) :=
  pool_nodes_laws 1 bytes0 set_bytes0 bytes0_length bytes0_set small_key4.

(** Page 1 with the leaf of one entry. *)
Definition leaf_bytes : list Z :=
  let bs := node_serialize (leaf1 5 6) (replicate 4 0) in bs ++ replicate (4096 - length bs) 0.
Definition leaf_frame : BufferFrame := mkFrame (set_bytes0 leaf_bytes (Page_new 1 1)) 0 false false.
Definition tree1 : BTree (BufferPool FileManager) :=
  mkBTree (pool_one leaf_frame) 1 IndexConfig_default IndexStats_zero.
Definition root1 : BTreeNode Z :=
  mkNode 1 (nheader (leaf1 5 6)) (keys (leaf1 5 6)) (values (leaf1 5 6))
    (replicate ORDER INVALID_PAGE_ID) false.

Lemma leaf1_storable : storable (leaf1 5 6).
Proof.
  constructor; [apply leaf1_ok|apply leaf1_header_ok|..].
  - eapply Forall_impl; [exact (Forall_small 5 (keys (leaf1 5 6)) eq_refl)|].
    intros z Hz. simpl in Hz. change (- 2 ^ 31 ≤ z < 2 ^ 31). lia.
  - eapply Forall_impl; [exact (Forall_small 6 (values (leaf1 5 6)) eq_refl)|].
    intros z Hz. simpl in Hz. unfold fits. lia.
  - change (children (leaf1 5 6)) with (replicate ORDER INVALID_PAGE_ID).
    apply Forall_replicate. unfold fits, INVALID_PAGE_ID. lia.
Qed.

Lemma root1_node : node_of bytes0 1 leaf_frame = root1.
Proof.
  unfold node_of, leaf_frame. cbn [fpage]. unfold root1.
  assert (length leaf_bytes = Z.to_nat PAGE_SIZE) as Hl by (vm_compute; reflexivity).
  rewrite bytes0_set by exact Hl. unfold leaf_bytes. cbv zeta.
  rewrite (node_roundtrip (leaf1 5 6) (replicate 4 0)); [|apply leaf1_storable..|done].
  reflexivity.
Qed.

Lemma root1_storable : storable root1.
Proof.
  destruct leaf1_storable as [[] Hh Hk Hv _]. constructor; cbn [root1 nheader keys values children]; try done.
  apply Forall_replicate. unfold fits, INVALID_PAGE_ID. lia.
Qed.

Definition nodes1 : gmap Z (BTreeNode Z) := nodes_of bytes0 (pool_one leaf_frame).

Lemma nodes1_root : nodes1 !! 1 = Some root1.
Proof.
  unfold nodes1. rewrite nodes_of_lookup. cbn [frames pool_one]. rewrite lookup_singleton_eq.
  cbn [fmap option_fmap option_map]. by rewrite root1_node.
Qed.

Lemma tree1_at : at_nodes tree1 nodes1.
Proof. split; [apply (pool_one_ok leaf_frame); reflexivity|reflexivity]. Qed.

Lemma root1_entries : entries root1 = [(5, 6)].
Proof. reflexivity. Qed.

Lemma tree1_holds : holds nodes1 0 (root_page_id tree1) None None [(5, 6)] [1].
Proof.
  exists root1. cbn [root_page_id tree1]. split; [apply nodes1_root|]. split; [done|].
  split; [apply root1_storable|]. split; [done|]. split; [done|]. split; [reflexivity|].
  split; [by rewrite root1_entries|]. split; [done|]. by repeat constructor.
Qed.

Lemma btree_find_spec_witness :
  ∃ t', btree_find 0 5 tree1 = Some (t', (StatusCode.OK, Some 6)).
Proof.
  destruct (btree_find_spec nodes1 5 0 None None [(5, 6)] [1] tree1 0 tree1_holds tree1_at)
    as (t' & _ & _ & Hf); [lia|]. exists t'. exact Hf.
Defined.



Lemma default4_ok : kok (kdefault : Z).
Proof. change (- 2 ^ 31 ≤ 0 < 2 ^ 31). lia. Qed.

Lemma new_index_never_stores_witness :
  ∃ t t', BTree_open IndexConfig_default (BufferPool_new 8 fm_nofile) = Some (t, ()) ∧
    insert_list 1 [(5, 6); (7, 8)] t = Some (t', [StatusCode.ERROR; StatusCode.ERROR]).
Proof.
  assert (∃ s0, ns_load 0 (BufferPool_new 8 fm_nofile) = Some (s0, @None (BTreeNode Z)) ∧ ns_ok s0 ∧ ns_room s0)
    as (s0 & Hload & Hok & Hroom).
  { destruct (ps_read fm_nofile (table_file 1) 0) as [s r] eqn:Hread.
    assert (r = None) as -> by (vm_compute in Hread; congruence).
    assert (fetchPage 1 0 FetchMode.READ (BufferPool_new 8 fm_nofile) =
      Some (set_store s (set_stats count_miss (BufferPool_new 8 fm_nofile)), None)) as Hf.
    { unfold fetchPage. cbn [frames BufferPool_new]. rewrite lookup_empty.
      rewrite new_pool_room by lia. cbn [mbind option_bind]. unfold readFromDisk.
      cbn [file_manager set_stats BufferPool_new]. by rewrite Hread. }
    eexists. split; [cbn [ns_load nodes0 PoolNodes]; unfold pool_load; rewrite Hf; reflexivity|].
    split; [apply pool_ok_store, pool_ok_stats, BufferPool_new_ok|].
    split; [vm_compute; lia|]. split; [unfold fits; cbn; lia|done]. }
  destruct (new_index_never_stores default4_ok IndexConfig_default _ s0 [(5, 6); (7, 8)] 1
    Hload Hok Hroom) as (t & t' & Ho & Hi & _); [lia|]. exists t, t'. split; [exact Ho|exact Hi].
Defined.

Lemma int_remove_keeps_key_witness :
  ∃ t', btree_remove 0 5 tree1 = Some (t', StatusCode.OK) ∧ at_nodes t' nodes1.
Proof.
  destruct (int_remove_keeps_key nodes1 tree1 5 6 [(5, 6)] [1] None None 0 tree1_holds tree1_at eq_refl)
    as (t' & Hr & Ht & _).
  - intros [|[|i]] w Hi; simplify_eq/=. intros u Hu. by apply list_elem_of_singleton in Hu.
  - exists t'. split; [exact Hr|exact Ht].
Defined.
