(* ===== verification/BTreeWalks.v ===== *)
(** * BTreeWalks: walks over the nodes of a B-tree

    The traversal of the entries, the count of the nodes and the dump (src/index/btree.cpp,
    [BTreeNode::dump] of src/index/btree_node.cpp) on a search tree: each walks a stack or a
    queue of pages, and visits every page of the tree once.  The text of a key is a
    parameter. *)

From Stdlib Require Import SpecFloat.
From stdpp Require Import gmap list sorting.
From S2P Require Import Prelude CxxString Types Doubles Page PageProofs FileManager BufferPool BufferPoolProofs TableProofs BTreeNode BTreeNodeProofs BTree BTreeProofs BTreeQueries.

Open Scope Z_scope.

(** ** Dumping *)

Section Dump.
Context {K : Type} `{HK : Key K} {T : Type} `{HN : NodeStore K T}.
Variable show_key : K → string.

(** The texts with a comma between them. *)
Definition comma_texts (l : list string) : string := String.concat ", " l.

(** [BTreeNode::dump]: the text; a key out of range is undefined. *)
Definition node_dump (lvl : nat) (n : BTreeNode K) : option string :=
  let indent := String.concat "" (replicate (lvl * 2) " "%string) in
  ks ← mapM (λ i, keys n !! i) (seq 0 (key_count (nheader n)));
  cs ← (if isLeaf n then Some [] else mapM (λ i, children n !! i) (seq 0 (key_count (nheader n) + 1)));
  Some (indent +:+ "Node " +:+ to_string (node_id n) +:+ " (" +:+ (if isLeaf n then "Leaf" else "Internal") +:+
    ", keys=" +:+ to_string (Z.of_nat (key_count (nheader n))) +:+
    ", level=" +:+ to_string (level (nheader n)) +:+ ")" +:+ endl +:+
    indent +:+ "Keys: [" +:+ comma_texts (show_key <$> ks) +:+ "]" +:+ endl +:+
    (if isLeaf n then "" else indent +:+ "Children: [" +:+ comma_texts (to_string <$> cs) +:+ "]" +:+ endl)).

(** One turn of the loop over the queue: a node and its level.  The text of the nodes from here
    on, and the pages in the order they were visited. *)
Fixpoint dump_loop (fuel : nat) (queue : list (Z * nat)) (current_level : nat) : M (T := T) (string * list Z) :=
  match queue with
  | [] => mret (""%string, [])
  | (page, lvl) :: queue =>
      match fuel with
      | O => undefined
      | S fuel' =>
          let line := if (current_level <? lvl)%nat then endl else ""%string in
          let current_level := if (current_level <? lvl)%nat then lvl else current_level in
          node ← getNode page;
          match node with
          | None => rest ← dump_loop fuel' queue current_level; mret (line +:+ rest.1, rest.2)
          | Some n =>
              text ← lift (node_dump lvl n);
              releaseNode n ;;
              rest ← dump_loop fuel'
                (queue ++ (if isLeaf n then [] else (λ c, (c, S lvl)) <$> child_pages n)) current_level;
              mret (line +:+ text +:+ rest.1, page :: rest.2)
          end
      end
  end.

Definition btree_dump (id : Z) (fuel : nat) : M (string * list Z) :=
  t ← get_tree;
  let s := bt_stats t in
  rest ← dump_loop fuel [(root_page_id t, 0%nat)] 0;
  mret ("B-Tree Index (id=" +:+ to_string id +:+ ")" +:+ endl +:+
        "Height: " +:+ to_string (height s) +:+ endl +:+
        "Total keys: " +:+ to_string (total_keys s) +:+ endl +:+
        "Total nodes: " +:+ to_string (total_nodes s) +:+ endl +:+
        "  Leaf nodes: " +:+ to_string (leaf_nodes s) +:+ endl +:+
        "  Internal nodes: " +:+ to_string (internal_nodes s) +:+ endl +:+ endl +:+
        rest.1 +:+ endl, rest.2).

(** ** Compaction of a node *)

(** [keys_[i].is_deleted], which no type of keys has *)
Variable is_deleted : K → bool.

(** [for (read_pos ...)], with the next place to write. *)
Fixpoint compact_loop (steps read_pos write_pos : nat) (n : BTreeNode K) : option (BTreeNode K * nat) :=
  match steps with
  | O => Some (n, write_pos)
  | S steps' =>
      k ← keys n !! read_pos;
      if is_deleted k then compact_loop steps' (S read_pos) write_pos n
      else
        n' ← (if decide (write_pos = read_pos) then Some n
              else
                vs ← (if isLeaf n then v ← values n !! read_pos; Some (<[write_pos := v]> (values n))
                      else Some (values n));
                Some (mkNode (node_id n) (nheader n) (<[write_pos := k]> (keys n)) vs (children n) (ndirty n)));
        compact_loop steps' (S read_pos) (S write_pos) n'
  end.

Definition compact (n : BTreeNode K) : option (BTreeNode K) :=
  r ← compact_loop (key_count (nheader n)) 0 0 n;
  let '(n', write_pos) := r in
  Some (mkNode (node_id n') (set_counts write_pos (child_count (nheader n')) (nheader n'))
          (keys n') (values n') (children n') true).

End Dump.

(** ** A forest of search trees *)

Section Walks.
Context {K : Type} `{HK : Key K} `{HL : !KeyLaws K} {T : Type} `{HN : NodeStore K T}.
Context `{HNL : !NodeStoreLaws K T}.
Implicit Types (t : BTree T) (n : BTreeNode K) (m : gmap Z (BTreeNode K)).

(** The pages of a queue are the roots of search trees with these entries and pages. *)
Definition forest m (queue : list Z) (trees : list (list (K * Z) * list Z)) : Prop :=
  Forall2 (λ pid x, ∃ h lo hi, holds m h pid lo hi x.1 x.2) queue trees.

Definition forest_entries (trees : list (list (K * Z) * list Z)) : list (K * Z) := concat trees.*1.
Definition forest_pages (trees : list (list (K * Z) * list Z)) : list Z := concat trees.*2.

Lemma filter_all {A} (P : A → Prop) `{!∀ x, Decision (P x)} (l : list A) : Forall P l → filter P l = l.
Proof. induction 1 as [|x l Hx _ IH]; [done|]. by rewrite filter_cons_True, IH. Qed.

(** The first page of a queue: a leaf, or the root of the trees of its children. *)
Lemma forest_pop m pid queue tr trees :
  forest m (pid :: queue) (tr :: trees) →
  ∃ n kids, m !! pid = Some n ∧ pid ≠ INVALID_PAGE_ID ∧ ndirty n = false ∧ storable n ∧
    tr.2 = pid :: forest_pages kids ∧ forest m queue trees ∧
    (if isLeaf n then kids = [] ∧ tr.1 = entries n
     else forest m (child_pages n) kids ∧ tr.1 = forest_entries kids).
Proof.
  intros Hf. inversion_clear Hf as [|? ? ? ? (h & lo & hi & Hh) Hrest]. destruct tr as [es pids]. cbn [fst snd] in *.
  destruct h as [|h]; destruct Hh as (n & Hn & Hpid & Hst & Hd & Hid & Hh).
  - destruct Hh as (Hl & -> & -> & _). exists n, []. rewrite Hl. by split_and!.
  - destruct Hh as (Hl & Hcc & _ & kids & Hlen & -> & -> & Hkids). exists n, kids. rewrite Hl.
    split_and!; try done.
    assert (Forall2 (λ pid x, ∃ h lo hi, holds m h pid lo hi x.1 x.2)
      (getChild n <$> seq 0 (key_count (nheader n) + 1)) kids) as Hall.
    { apply Forall2_same_length_lookup. split; [rewrite length_fmap, length_seq; lia|].
      intros i cid kid Hi Hk. rewrite list_lookup_fmap in Hi.
      apply fmap_Some in Hi as (j & Hj & ->). apply lookup_seq in Hj as [-> _]. eauto. }
    unfold forest, child_pages. rewrite filter_all; [done|].
    eapply Forall2_Forall_l; [exact Hall|]. apply Forall_forall. intros kid _ cid (h' & lo' & hi' & Hh').
    destruct h'; by destruct Hh' as (? & _ & ? & _).
Qed.

(** A walk visits the first page of its queue. *)
Lemma visit_node t m pid n :
  at_nodes t m → m !! pid = Some n → pid ≠ INVALID_PAGE_ID → ndirty n = false →
  ∃ t', getNode pid t = Some (t', Some n) ∧ releaseNode n t' = Some (t', ()) ∧ at_nodes t' m ∧ same_tree t t' ∧
    bt_stats t' = bt_stats t.
Proof.
  intros Ht Hn Hpid Hd. destruct (getNode_at t m pid n Ht Hn Hpid) as (t' & Hg & Ht' & Hs & Hst).
  exists t'. split_and!; try done. by apply releaseNode_clean.
Qed.

Lemma leaf_entries_spec n : node_ok n → isLeaf n = true → ∀ steps i,
  (i + steps = key_count (nheader n))%nat → leaf_entries steps i n = Some (drop i (entries n)).
Proof.
  intros Hn Hl. induction steps as [|steps IH]; intros i Hi; cbn [leaf_entries].
  - rewrite drop_ge; [done|]. rewrite length_entries by done. lia.
  - destruct (leaf_entry n i Hn Hl ltac:(lia)) as ([k v] & He & Hk & Hv). rewrite Hk, Hv.
    cbn [mbind option_bind]. rewrite (IH (1 + i)%nat) by lia. cbn [mbind option_bind].
    by rewrite (drop_S _ _ _ He).
Qed.

Lemma traverse_loop_spec m fuel : ∀ stack trees t,
  forest m stack trees → at_nodes t m → (length (forest_pages trees) ≤ fuel)%nat →
  ∃ t', traverse_loop fuel stack t = Some (t', forest_entries trees) ∧ at_nodes t' m ∧ same_tree t t' ∧ bt_stats t' = bt_stats t.
Proof.
  induction fuel as [|fuel IH]; intros stack trees t Hf Ht Hlen;
    (destruct stack as [|pid stack]; [inversion Hf; subst; by exists t|]);
    destruct trees as [|tr trees]; try (by inversion Hf);
    destruct (forest_pop _ _ _ _ _ Hf) as (n & kids & Hn & Hpid & Hd & Hst & Hp & Hrest & Hcase);
    unfold forest_pages in Hlen; cbn [fmap list_fmap concat] in Hlen; rewrite Hp in Hlen; cbn [app length] in Hlen; [lia|].
  destruct (visit_node t m pid n Ht Hn Hpid Hd) as (t1 & Hg & Hr & Ht1 & Hs1 & Hst1).
  cbn [traverse_loop]. rewrite (M_bind_eq _ _ _ _ _ Hg). fold (forest_pages trees) in Hlen. rewrite length_app in Hlen.
  destruct (isLeaf n) eqn:Hl.
  - destruct Hcase as [-> He]. destruct (IH stack trees t1 Hrest Ht1) as (t2 & Htr & Ht2 & Hs2 & Hst2); [lia|].
    exists t2. split; [|split; [done|split; [by eapply same_tree_trans|congruence]]].
    rewrite leaf_entries_spec by (done || apply Hst). rewrite (M_bind_eq _ _ _ _ _ (lift_some _ t1)), (M_bind_eq _ _ _ _ _ Hr).
    rewrite (M_bind_eq _ _ _ _ _ Htr). unfold forest_entries. cbn [fmap list_fmap concat]. by rewrite He, drop_0.
  - destruct Hcase as [Hkids He]. destruct (IH (child_pages n ++ stack) (kids ++ trees) t1) as (t2 & Htr & Ht2 & Hs2 & Hst2).
    + by apply Forall2_app.
    + done.
    + unfold forest_pages. rewrite fmap_app, concat_app, length_app. fold (forest_pages kids) (forest_pages trees). lia.
    + exists t2. split; [|split; [done|split; [by eapply same_tree_trans|congruence]]].
      rewrite (M_bind_eq _ _ _ _ _ Hr), Htr. unfold forest_entries. cbn [fmap list_fmap concat].
      by rewrite fmap_app, concat_app, He.
Qed.

(** (C14) Traversal: on a search tree [traverse] calls its function on every entry exactly once,
    in the order of the keys, visits each page once, which is the fuel that is enough, and
    changes nothing; [vacuum] and [rebuild] start from this list. *)
Theorem traverse_spec m h es pids t fuel :
  holds m h (root_page_id t) None None es pids → at_nodes t m → (length pids ≤ fuel)%nat →
  ∃ t', traverse fuel t = Some (t', es) ∧ at_nodes t' m ∧ same_tree t t' ∧
    StronglySorted klt es.*1.
Proof.
  intros Hh Ht Hlen.
  assert (forest m [root_page_id t] [(es, pids)]) as Hf by (constructor; [by exists h, None, None|constructor]).
  destruct (forest_pop _ _ _ _ _ Hf) as (n & _ & Hn & Hpid & Hd & _).
  destruct (visit_node t m _ n Ht Hn Hpid Hd) as (t1 & Hg & _ & Ht1 & Hs1 & _).
  destruct (traverse_loop_spec m fuel [root_page_id t] [(es, pids)] t1 Hf Ht1) as (t2 & Htr & Ht2 & Hs2 & _).
  { unfold forest_pages. cbn. by rewrite app_nil_r. }
  exists t2. split; [|split; [done|split; [by eapply same_tree_trans|by eapply holds_sorted]]].
  unfold traverse. rewrite (M_bind_eq _ get_tree _ _ _ eq_refl), (M_bind_eq _ _ _ _ _ Hg), Htr.
  unfold forest_entries. cbn. by rewrite app_nil_r.
Qed.

(** ** The dump *)

Variable show_key : K → string.

Lemma node_dump_some lvl n : node_ok n → ∃ text, node_dump show_key lvl n = Some text.
Proof.
  intros Hn. unfold node_dump.
  assert (∀ (A : Type) (l : list A) k, (k ≤ length l)%nat → ∃ xs, mapM (λ i, l !! i) (seq 0 k) = Some xs) as Hm.
  { intros A l k Hk. apply mapM_is_Some. apply Forall_seq. intros i Hi. apply lookup_lt_is_Some. lia. }
  destruct (Hm _ (keys n) (key_count (nheader n))) as [ks ->]; [destruct Hn; lia|]. cbn [mbind option_bind].
  destruct (isLeaf n); [by eexists|].
  destruct (Hm _ (children n) (key_count (nheader n) + 1)%nat) as [cs ->]; [|by eexists].
  destruct Hn. unfold MAX_KEYS, ORDER in *. lia.
Qed.

Lemma dump_loop_spec m fuel : ∀ queue trees lvl t,
  forest m queue.*1 trees → at_nodes t m → (length (forest_pages trees) ≤ fuel)%nat →
  ∃ t' text visited, dump_loop show_key fuel queue lvl t = Some (t', (text, visited)) ∧ visited ≡ₚ forest_pages trees ∧
    at_nodes t' m ∧ same_tree t t' ∧ bt_stats t' = bt_stats t.
Proof.
  induction fuel as [|fuel IH]; intros queue trees lvl t Hf Ht Hlen;
    (destruct queue as [|[pid k] queue]; [inversion Hf; subst; by exists t, ""%string, []|]);
    destruct trees as [|tr trees]; try (by inversion Hf);
    destruct (forest_pop _ _ _ _ _ Hf) as (n & kids & Hn & Hpid & Hd & Hst & Hp & Hrest & Hcase);
    unfold forest_pages in *; cbn [fmap list_fmap concat] in *; rewrite Hp in *; cbn [app length] in Hlen; [lia|].
  destruct (visit_node t m pid n Ht Hn Hpid Hd) as (t1 & Hg & Hr & Ht1 & Hs1 & Hst1).
  destruct (node_dump_some k n) as [text Htext]; [apply Hst|].
  set (queue' := queue ++ (if isLeaf n then [] else (λ c, (c, S k)) <$> child_pages n)).
  set (lvl' := if (lvl <? k)%nat then k else lvl).
  destruct (IH queue' (trees ++ kids) lvl' t1) as (t2 & text2 & visited & Hl & Hperm & Ht2 & Hs2 & Hst2).
  - unfold queue'. rewrite fmap_app. apply Forall2_app; [done|]. destruct (isLeaf n).
    + destruct Hcase as [-> _]. constructor.
    + destruct Hcase as [Hk _]. rewrite <- list_fmap_compose. cbn. by rewrite list_fmap_id.
  - done.
  - rewrite fmap_app, concat_app, length_app in *. lia.
  - eexists t2, _, (pid :: visited). cbn [dump_loop]. rewrite (M_bind_eq _ _ _ _ _ Hg), Htext.
    rewrite (M_bind_eq _ _ _ _ _ (lift_some _ t1)), (M_bind_eq _ _ _ _ _ Hr).
    fold queue' lvl'. rewrite (M_bind_eq _ _ _ _ _ Hl). split; [done|].
    split; [|split; [done|split; [by eapply same_tree_trans|congruence]]].
    rewrite Hperm, fmap_app, concat_app. constructor. apply Permutation_app_comm.
Qed.

(** The dump of a search tree ends: it prints every page of the tree once, level by level, and
    changes nothing. *)
Theorem btree_dump_spec m h es pids t id fuel :
  holds m h (root_page_id t) None None es pids → at_nodes t m → (length pids ≤ fuel)%nat →
  ∃ t' text visited, btree_dump show_key id fuel t = Some (t', (text, visited)) ∧ visited ≡ₚ pids ∧
    at_nodes t' m ∧ same_tree t t' ∧ bt_stats t' = bt_stats t.
Proof.
  intros Hh Ht Hlen.
  assert (forest m [(root_page_id t, 0%nat)].*1 [(es, pids)]) as Hf by (constructor; [by exists h, None, None|constructor]).
  destruct (dump_loop_spec m fuel _ _ 0 t Hf Ht) as (t1 & text & visited & Hl & Hperm & Hend).
  { unfold forest_pages. cbn. by rewrite app_nil_r. }
  eexists t1, _, visited. unfold btree_dump. rewrite (M_bind_eq _ get_tree _ _ _ eq_refl), (M_bind_eq _ _ _ _ _ Hl).
  split; [done|]. unfold forest_pages in Hperm. cbn in Hperm. by rewrite app_nil_r in Hperm.
Qed.

(** ** Compaction *)

Variable is_deleted : K → bool.

(** Keys with their values, the unused slots too. *)
Definition slots n : list (K * Z) := zip (keys n) (values n).

Lemma entries_slots n : entries n = take (key_count (nheader n)) (slots n).
Proof. unfold entries, node_keys, slots. by rewrite zip_with_take. Qed.

Lemma compact_loop_spec n0 : isLeaf n0 = true → length (keys n0) = length (values n0) → ∀ steps r w n,
  (w ≤ r)%nat → (r + steps ≤ length (slots n0))%nat → length (keys n) = length (keys n0) →
  length (values n) = length (values n0) → nheader n = nheader n0 → node_id n = node_id n0 →
  ∃ n' w', compact_loop is_deleted steps r w n = Some (n', w') ∧
    take w' (slots n') = take w (slots n) ++ filter (λ e, is_deleted e.1 = false) (take steps (drop r (slots n))) ∧
    (w' ≤ r + steps)%nat ∧ length (slots n') = length (slots n0) ∧ nheader n' = nheader n0 ∧ node_id n' = node_id n0.
Proof.
  intros Hl Hkv. assert (∀ n, length (keys n) = length (keys n0) → length (values n) = length (values n0) →
    length (slots n) = length (slots n0)) as Hsl.
  { intros n Hk Hv. unfold slots. rewrite !length_zip_with. lia. }
  induction steps as [|steps IH]; intros r w n Hw Hr Hk Hv Hh Hid; cbn [compact_loop].
  { exists n, w. cbn [take filter]. rewrite app_nil_r. split_and!; try done; [lia|by apply Hsl]. }
  pose proof (Hsl n Hk Hv) as Hlen.
  destruct (lookup_lt_is_Some_2 (slots n) r) as [[k v] He]; [lia|].
  pose proof He as He'. unfold slots in He'. apply lookup_zip_with_Some in He' as (k' & v' & Heq & Hrk & Hrv).
  injection Heq as <- <-. rewrite Hrk. cbn [mbind option_bind].
  rewrite (drop_S _ _ _ He). cbn [take].
  destruct (is_deleted k) eqn:Hdel.
  - rewrite filter_cons_False by (cbn; by rewrite Hdel). destruct (IH (S r) w n) as (n' & w' & H1 & H2 & H3 & H4); try done; [lia..|].
    exists n', w'. split; [done|]. split; [done|]. split; [lia|done].
  - rewrite filter_cons_True by done.
    assert (∃ n1, (if decide (w = r) then Some n
              else
                vs ← (if isLeaf n then v ← values n !! r; Some (<[w := v]> (values n)) else Some (values n));
                Some (mkNode (node_id n) (nheader n) (<[w := k]> (keys n)) vs (children n) (ndirty n))) = Some n1 ∧
      slots n1 = <[w := (k, v)]> (slots n) ∧ length (keys n1) = length (keys n0) ∧
      length (values n1) = length (values n0) ∧ nheader n1 = nheader n0 ∧ node_id n1 = node_id n0)
      as (n1 & -> & Hs1 & Hk1 & Hv1 & Hh1 & Hid1).
    { case_decide as Hwr.
      - subst w. exists n. split; [done|]. split; [by rewrite list_insert_id|done].
      - assert (isLeaf n = true) as -> by (unfold isLeaf; by rewrite Hh). rewrite Hrv. cbn [mbind option_bind].
        eexists. split; [done|]. unfold slots. cbn [keys values nheader node_id]. rewrite !length_insert.
        split; [|done]. by rewrite insert_zip_with. }
    cbn [mbind option_bind]. destruct (IH (S r) (S w) n1) as (n' & w' & H1 & H2 & H3 & H4); try done; [lia..|].
    exists n', w'. split; [done|]. split; [|split; [lia|done]]. rewrite H2, Hs1.
    rewrite drop_insert_lt by lia. rewrite (take_S_r _ _ (k, v)) by (apply list_lookup_insert_eq; lia).
    rewrite take_insert_ge by lia. by rewrite <- app_assoc.
Qed.

(** Compacting a leaf keeps the entries whose key is not deleted, in order. *)
Theorem compact_leaf n :
  node_ok n → isLeaf n = true →
  ∃ n', compact is_deleted n = Some n' ∧ entries n' = filter (λ e, is_deleted e.1 = false) (entries n) ∧
    node_id n' = node_id n ∧ ndirty n' = true.
Proof.
  intros Hn Hl. pose proof Hn as [Hk Hv _ Hc _].
  assert (length (slots n) = MAX_KEYS) as Hlen by (unfold slots; rewrite length_zip_with; lia).
  destruct (compact_loop_spec n Hl ltac:(congruence) (key_count (nheader n)) 0 0 n)
    as (n' & w' & Hloop & Ht & Hw & Hlen' & Hh & Hid); try done; [lia|].
  unfold compact. rewrite Hloop. cbn [mbind option_bind]. eexists. split; [done|]. split; [|done].
  rewrite !entries_slots. cbn [nheader key_count set_counts]. cbn [app] in Ht. by rewrite drop_0 in Ht.
Qed.

End Walks.

(** ** Examples *)

#[local] Instance walk_key : Key Z := int_key 4.
#[local] Instance walk_key_laws : KeyLaws Z.
Proof. apply int_key_laws. lia. Defined.
#[local] Instance walk_store : PageStore FileManager := FileManager_store env0.
#[local] Instance walk_nodes : NodeStore Z (BufferPool FileManager) := PoolNodes 1 bytes0 set_bytes0.
#[local] Instance walk_nodes_laws : NodeStoreLaws Z (BufferPool FileManager) :=
  pool_nodes_laws 1 bytes0 set_bytes0 bytes0_length bytes0_set small_key4.

Lemma traverse_spec_witness : ∃ t', traverse 1 tree1 = Some (t', [(5, 6)]).
Proof.
  destruct (traverse_spec nodes1 0 [(5, 6)] [1] tree1 1 tree1_holds tree1_at) as (t' & Ht & _); [cbn; lia|].
  exists t'. exact Ht.
Defined.
