(* ===== verification/Lexer.v ===== *)
(** * Lexer: the tokens of SQL (src/parser/lexer.cpp, src/parser/sql_parser.h)

    The lexer keeps the whole input and a position in it.  Every loop of the
    source advances the position, so the number of characters left is enough fuel;
    lines and columns are not bounded.  The characters above 127, whose
    classification depends on the locale, count as neither letters nor digits. *)

From stdpp Require Import list gmap strings.
From S2P Require Import Prelude CxxString.

Open Scope Z_scope.

(** ** Tokens *)

Module TokenType.
Inductive TokenType :=
  | SELECT | INSERT | UPDATE | DELETE | CREATE | DROP | ALTER
  | TABLE | INDEX | VIEW | TRIGGER | FUNCTION | PROCEDURE
  | FROM | WHERE | JOIN | INNER | LEFT | RIGHT | OUTER | FULL | CROSS
  | ON | USING | AND | OR | NOT | NULL | IS | IN | BETWEEN | LIKE
  | ORDER | BY | GROUP | HAVING | LIMIT | OFFSET
  | UNION | INTERSECT | EXCEPT | ALL | DISTINCT
  | AS | ASC | DESC
  | INTO | VALUES | SET
  | PRIMARY | FOREIGN | KEY | REFERENCES | CONSTRAINT
  | DEFAULT | AUTO_INCREMENT | UNIQUE | CHECK
  | BEGIN | COMMIT | ROLLBACK | TRANSACTION | SAVEPOINT
  | CASE | WHEN | THEN | ELSE | END
  | EXISTS | ANY | SOME
  | IDENTIFIER | STRING | INTEGER | FLOAT | BOOLEAN
  | PLUS | MINUS | STAR | SLASH | PERCENT
  | EQ | NE | LT | LE | GT | GE
  | ASSIGN | CONCAT
  | LPAREN | RPAREN | COMMA | DOT | SEMICOLON
  | END_OF_FILE | UNKNOWN.

(** The constructors in order; a position in this list identifies one. *)
Definition all : list TokenType :=
  [SELECT; INSERT; UPDATE; DELETE; CREATE; DROP; ALTER; TABLE; INDEX; VIEW; TRIGGER; FUNCTION;
   PROCEDURE; FROM; WHERE; JOIN; INNER; LEFT; RIGHT; OUTER; FULL; CROSS; ON; USING; AND; OR; NOT;
   NULL; IS; IN; BETWEEN; LIKE; ORDER; BY; GROUP; HAVING; LIMIT; OFFSET; UNION; INTERSECT; EXCEPT;
   ALL; DISTINCT; AS; ASC; DESC; INTO; VALUES; SET; PRIMARY; FOREIGN; KEY; REFERENCES; CONSTRAINT;
   DEFAULT; AUTO_INCREMENT; UNIQUE; CHECK; BEGIN; COMMIT; ROLLBACK; TRANSACTION; SAVEPOINT; CASE;
   WHEN; THEN; ELSE; END; EXISTS; ANY; SOME; IDENTIFIER; STRING; INTEGER; FLOAT; BOOLEAN; PLUS;
   MINUS; STAR; SLASH; PERCENT; EQ; NE; LT; LE; GT; GE; ASSIGN; CONCAT; LPAREN; RPAREN; COMMA; DOT;
   SEMICOLON; END_OF_FILE; UNKNOWN].

Definition code (t : TokenType) : nat :=
  match t with
  | SELECT => 0 | INSERT => 1 | UPDATE => 2 | DELETE => 3 | CREATE => 4 | DROP => 5 | ALTER => 6
  | TABLE => 7 | INDEX => 8 | VIEW => 9 | TRIGGER => 10 | FUNCTION => 11 | PROCEDURE => 12
  | FROM => 13 | WHERE => 14 | JOIN => 15 | INNER => 16 | LEFT => 17 | RIGHT => 18 | OUTER => 19
  | FULL => 20 | CROSS => 21 | ON => 22 | USING => 23 | AND => 24 | OR => 25 | NOT => 26
  | NULL => 27 | IS => 28 | IN => 29 | BETWEEN => 30 | LIKE => 31 | ORDER => 32 | BY => 33
  | GROUP => 34 | HAVING => 35 | LIMIT => 36 | OFFSET => 37 | UNION => 38 | INTERSECT => 39
  | EXCEPT => 40 | ALL => 41 | DISTINCT => 42 | AS => 43 | ASC => 44 | DESC => 45 | INTO => 46
  | VALUES => 47 | SET => 48 | PRIMARY => 49 | FOREIGN => 50 | KEY => 51 | REFERENCES => 52
  | CONSTRAINT => 53 | DEFAULT => 54 | AUTO_INCREMENT => 55 | UNIQUE => 56 | CHECK => 57
  | BEGIN => 58 | COMMIT => 59 | ROLLBACK => 60 | TRANSACTION => 61 | SAVEPOINT => 62 | CASE => 63
  | WHEN => 64 | THEN => 65 | ELSE => 66 | END => 67 | EXISTS => 68 | ANY => 69 | SOME => 70
  | IDENTIFIER => 71 | STRING => 72 | INTEGER => 73 | FLOAT => 74 | BOOLEAN => 75 | PLUS => 76
  | MINUS => 77 | STAR => 78 | SLASH => 79 | PERCENT => 80 | EQ => 81 | NE => 82 | LT => 83
  | LE => 84 | GT => 85 | GE => 86 | ASSIGN => 87 | CONCAT => 88 | LPAREN => 89 | RPAREN => 90
  | COMMA => 91 | DOT => 92 | SEMICOLON => 93 | END_OF_FILE => 94 | UNKNOWN => 95
  end.

Lemma all_code t : all !! code t = Some t.
Proof. by destruct t. Qed.

#[export] Instance TokenType_eq_dec : EqDecision TokenType.
Proof.
  intros a b. destruct (decide (code a = code b)) as [He|Hne]; [left|right; congruence].
  apply (inj Some). by rewrite <- !all_code, He.
Defined.
End TokenType.
Export (hints) TokenType.
Abbreviation TokenType := TokenType.TokenType.

Record Token := mkToken {
  ttype : TokenType;
  ttext : string;
  tline : Z;
  tcolumn : Z
}.

Definition keywords_list : list (string * TokenType) :=
  [("SELECT", TokenType.SELECT); ("INSERT", TokenType.INSERT); ("UPDATE", TokenType.UPDATE);
   ("DELETE", TokenType.DELETE); ("FROM", TokenType.FROM); ("WHERE", TokenType.WHERE);
   ("JOIN", TokenType.JOIN); ("INNER", TokenType.INNER); ("LEFT", TokenType.LEFT);
   ("RIGHT", TokenType.RIGHT); ("OUTER", TokenType.OUTER); ("FULL", TokenType.FULL);
   ("CROSS", TokenType.CROSS); ("ON", TokenType.ON); ("USING", TokenType.USING);
   ("AND", TokenType.AND); ("OR", TokenType.OR); ("NOT", TokenType.NOT);
   ("NULL", TokenType.NULL); ("IS", TokenType.IS); ("IN", TokenType.IN);
   ("BETWEEN", TokenType.BETWEEN); ("LIKE", TokenType.LIKE); ("ORDER", TokenType.ORDER);
   ("BY", TokenType.BY); ("GROUP", TokenType.GROUP); ("HAVING", TokenType.HAVING);
   ("LIMIT", TokenType.LIMIT); ("OFFSET", TokenType.OFFSET); ("UNION", TokenType.UNION);
   ("INTERSECT", TokenType.INTERSECT); ("EXCEPT", TokenType.EXCEPT); ("ALL", TokenType.ALL);
   ("DISTINCT", TokenType.DISTINCT); ("AS", TokenType.AS); ("ASC", TokenType.ASC);
   ("DESC", TokenType.DESC); ("INTO", TokenType.INTO); ("VALUES", TokenType.VALUES);
   ("SET", TokenType.SET);
   ("CREATE", TokenType.CREATE); ("DROP", TokenType.DROP); ("ALTER", TokenType.ALTER);
   ("TABLE", TokenType.TABLE); ("INDEX", TokenType.INDEX); ("VIEW", TokenType.VIEW);
   ("PRIMARY", TokenType.PRIMARY); ("FOREIGN", TokenType.FOREIGN); ("KEY", TokenType.KEY);
   ("REFERENCES", TokenType.REFERENCES); ("CONSTRAINT", TokenType.CONSTRAINT);
   ("DEFAULT", TokenType.DEFAULT); ("AUTO_INCREMENT", TokenType.AUTO_INCREMENT);
   ("UNIQUE", TokenType.UNIQUE); ("CHECK", TokenType.CHECK);
   ("BEGIN", TokenType.BEGIN); ("COMMIT", TokenType.COMMIT); ("ROLLBACK", TokenType.ROLLBACK);
   ("TRANSACTION", TokenType.TRANSACTION); ("SAVEPOINT", TokenType.SAVEPOINT);
   ("CASE", TokenType.CASE); ("WHEN", TokenType.WHEN); ("THEN", TokenType.THEN);
   ("ELSE", TokenType.ELSE); ("END", TokenType.END); ("EXISTS", TokenType.EXISTS);
   ("ANY", TokenType.ANY); ("SOME", TokenType.SOME);
   ("TRUE", TokenType.BOOLEAN); ("FALSE", TokenType.BOOLEAN)].

Definition keywords : gmap string TokenType := list_to_map keywords_list.

(** ** The lexer *)

Record Lexer := mkLexer {
  input : list ascii;
  lpos : nat;
  lline : Z;
  lcolumn : Z
}.

Definition Lexer_new (s : list ascii) : Lexer := mkLexer (map toupper s) 0 1 1.

Definition nul : ascii := Ascii.zero.
Definition newline : ascii := byte_ascii 10.
Definition squote : ascii := byte_ascii 39.
Definition dquote : ascii := byte_ascii 34.
Definition backslash : ascii := byte_ascii 92.

Definition peek (lx : Lexer) : ascii := default nul (input lx !! lpos lx).

Definition advance (lx : Lexer) : Lexer * ascii :=
  match input lx !! lpos lx with
  | None => (lx, nul)
  | Some c =>
      (if decide (c = newline) then mkLexer (input lx) (S (lpos lx)) (lline lx + 1) 1
       else mkLexer (input lx) (S (lpos lx)) (lline lx) (lcolumn lx + 1), c)
  end.

(** The characters that are left. *)
Definition rest (lx : Lexer) : list ascii := drop (lpos lx) (input lx).

(** [while (P(peek())) text += advance();] *)
Fixpoint read_while (fuel : nat) (P : ascii → bool) (lx : Lexer) (text : list ascii)
  : Lexer * list ascii :=
  match fuel with
  | O => (lx, text)
  | S fuel' =>
      if P (peek lx) then
        let '(lx, c) := advance lx in read_while fuel' P lx (text ++ [c])
      else (lx, text)
  end.

(** [while (pos_ < input_.length() && P(input_[pos_])) advance();] *)
Fixpoint skip_while (fuel : nat) (P : ascii → bool) (lx : Lexer) : Lexer :=
  match fuel with
  | O => lx
  | S fuel' =>
      match input lx !! lpos lx with
      | Some c => if P c then skip_while fuel' P (advance lx).1 else lx
      | None => lx
      end
  end.

Definition skipWhitespace (lx : Lexer) : Lexer := skip_while (length (rest lx)) isspace lx.

(** The loop of a comment between slash-star and star-slash, after its start. *)
Fixpoint skip_block (fuel : nat) (lx : Lexer) : Lexer :=
  match fuel with
  | O => lx
  | S fuel' =>
      match input lx !! lpos lx, input lx !! S (lpos lx) with
      | Some a, Some b =>
          if decide (a = "*"%char ∧ b = "/"%char) then (advance (advance lx).1).1
          else skip_block fuel' (advance lx).1
      | _, _ => lx
      end
  end.

Definition in_line (c : ascii) : bool := bool_decide (c ≠ newline).

Definition skipComment (lx : Lexer) : Lexer :=
  match input lx !! lpos lx, input lx !! S (lpos lx) with
  | Some a, Some b =>
      if decide ((a = "-"%char ∧ b = "-"%char) ∨ (a = "/"%char ∧ b = "/"%char)) then
        skip_while (length (rest lx)) in_line lx
      else if decide (a = "/"%char ∧ b = "*"%char) then
        skip_block (length (rest lx)) (advance (advance lx).1).1
      else lx
  | _, _ => lx
  end.

Definition is_word_char (c : ascii) : bool :=
  isalnum c || bool_decide (c = "_"%char) || bool_decide (c = "$"%char).

Definition readIdentifier (lx : Lexer) : Lexer * Token :=
  let '(lx', text) := read_while (length (rest lx)) is_word_char lx [] in
  let text := String.string_of_list_ascii text in
  match keywords !! text with
  | Some t => (lx', mkToken t text (lline lx) (lcolumn lx))
  | None => (lx', mkToken TokenType.IDENTIFIER text (lline lx) (lcolumn lx))
  end.

Definition read_digits (lx : Lexer) (text : list ascii) : Lexer * list ascii :=
  read_while (length (rest lx)) isdigit lx text.

(** The decimal part. *)
Definition read_fraction (lx : Lexer) (text : list ascii) : Lexer * list ascii * bool :=
  if decide (peek lx = "."%char) then
    let '(lx, c) := advance lx in
    let '(lx, text) := read_digits lx (text ++ [c]) in (lx, text, true)
  else (lx, text, false).

(** The scientific notation. *)
Definition read_exponent (lx : Lexer) (text : list ascii) (is_float : bool)
  : Lexer * list ascii * bool :=
  if decide (peek lx = "e"%char ∨ peek lx = "E"%char) then
    let '(lx, c) := advance lx in
    let text := text ++ [c] in
    let '(lx, text) :=
      if decide (peek lx = "+"%char ∨ peek lx = "-"%char) then
        let '(lx, c) := advance lx in (lx, text ++ [c])
      else (lx, text) in
    let '(lx, text) := read_digits lx text in (lx, text, true)
  else (lx, text, is_float).

Definition readNumber (lx : Lexer) : Lexer * Token :=
  let start := lx in
  let '(lx, text) := read_digits lx [] in
  let '(lx, text, is_float) := read_fraction lx text in
  let '(lx, text, is_float) := read_exponent lx text is_float in
  (lx, mkToken (if (is_float : bool) then TokenType.FLOAT else TokenType.INTEGER)
         (String.string_of_list_ascii text) (lline start) (lcolumn start)).

Fixpoint read_string_loop (fuel : nat) (quote : ascii) (lx : Lexer) (text : list ascii)
  : Lexer * list ascii :=
  match fuel with
  | O => (lx, text)
  | S fuel' =>
      if decide (lpos lx < length (input lx))%nat then
        let '(lx, c) := advance lx in
        if decide (c = quote) then (lx, text)
        else if decide (c = backslash) then
          if decide (lpos lx < length (input lx))%nat then
            let '(lx, c) := advance lx in read_string_loop fuel' quote lx (text ++ [c])
          else read_string_loop fuel' quote lx text
        else read_string_loop fuel' quote lx (text ++ [c])
      else (lx, text)
  end.

(** The position of the token is the one after the opening quote. *)
Definition readString (lx : Lexer) : Lexer * Token :=
  let '(lx, quote) := advance lx in
  let '(lx', text) := read_string_loop (length (rest lx)) quote lx [] in
  (lx', mkToken TokenType.STRING (String.string_of_list_ascii text) (lline lx) (lcolumn lx)).

(** The two-character operators, by their first and second characters. *)
Definition two_chars : list (ascii * ascii * TokenType) :=
  [("=", "=", TokenType.EQ); ("!", "=", TokenType.NE); ("<", "=", TokenType.LE);
   (">", "=", TokenType.GE); ("|", "|", TokenType.CONCAT); (":", "=", TokenType.ASSIGN)]%char.

Definition one_char : list (ascii * TokenType) :=
  [("+", TokenType.PLUS); ("-", TokenType.MINUS); ("*", TokenType.STAR); ("/", TokenType.SLASH);
   ("%", TokenType.PERCENT); ("=", TokenType.ASSIGN); ("<", TokenType.LT); (">", TokenType.GT);
   ("(", TokenType.LPAREN); (")", TokenType.RPAREN); (",", TokenType.COMMA); (".", TokenType.DOT);
   (";", TokenType.SEMICOLON)]%char.

Definition find_two (a b : ascii) : option TokenType :=
  snd <$> find (λ e, bool_decide (e.1 = (a, b))) two_chars.
Definition find_one (a : ascii) : option TokenType :=
  snd <$> find (λ e, bool_decide (e.1 = a)) one_char.

Definition readOperator (lx : Lexer) : Lexer * Token :=
  let '(lx, c) := advance lx in
  match find_two c (peek lx) with
  | Some t =>
      ((advance lx).1, mkToken t (String.string_of_list_ascii [c; peek lx]) (lline lx) (lcolumn lx))
  | None =>
      (lx, mkToken (default TokenType.UNKNOWN (find_one c)) (String.string_of_list_ascii [c])
             (lline lx) (lcolumn lx))
  end.

Definition nextToken (lx : Lexer) : Lexer * Token :=
  let lx := skipComment (skipWhitespace lx) in
  if decide (length (input lx) ≤ lpos lx)%nat then
    (lx, mkToken TokenType.END_OF_FILE "" (lline lx) (lcolumn lx))
  else
    let c := peek lx in
    if isalpha c || bool_decide (c = "_"%char) then readIdentifier lx
    else if isdigit c then readNumber lx
    else if decide (c = squote ∨ c = dquote) then readString lx
    else readOperator lx.

Definition peekToken (lx : Lexer) : Lexer * Token :=
  let '(lx', t) := nextToken lx in
  (mkLexer (input lx') (lpos lx) (lline lx) (lcolumn lx), t).

Definition hasMoreTokens (lx : Lexer) : bool := bool_decide (lpos lx < length (input lx))%nat.

Definition lexer_reset (lx : Lexer) : Lexer := mkLexer (input lx) 0 1 1.

Definition getPosition (lx : Lexer) : string :=
  "line " +:+ to_string (lline lx) +:+ ", column " +:+ to_string (lcolumn lx).

(** What a client sees: the tokens up to the end of the input. *)
Fixpoint token_stream (fuel : nat) (lx : Lexer) : option (list Token * Lexer) :=
  match fuel with
  | O => None
  | S fuel' =>
      let '(lx, t) := nextToken lx in
      if decide (ttype t = TokenType.END_OF_FILE) then Some ([t], lx)
      else '(ts, lx) ← token_stream fuel' lx; Some (t :: ts, lx)
  end.
