(* ===== verification/LexerProofs.v ===== *)
(** * LexerProofs: correctness of the lexer

    The lexer terminates on every input and tracks lines and columns; printing a
    list of lexemes and lexing the text gives the lexemes back, in upper case. *)

From stdpp Require Import list gmap strings relations.
From S2P Require Import Prelude CxxString Lexer.

Open Scope Z_scope.

(** ** Reference functions on lists *)

Fixpoint take_while (P : ascii → bool) (l : list ascii) : list ascii :=
  match l with
  | c :: l' => if P c then c :: take_while P l' else []
  | [] => []
  end.

Fixpoint drop_while (P : ascii → bool) (l : list ascii) : list ascii :=
  match l with
  | c :: l' => if P c then drop_while P l' else l
  | [] => []
  end.

(** [r] does not continue a run of [P]. *)
Definition stops (P : ascii → bool) (r : list ascii) : Prop :=
  match r with c :: _ => P c = false | [] => True end.

Lemma span_while P w r :
  Forall (λ c, P c = true) w → stops P r →
  take_while P (w ++ r) = w ∧ drop_while P (w ++ r) = r.
Proof.
  intros Hw Hr. induction Hw as [|c w Hc Hw [IH1 IH2]]; cbn.
  - destruct r as [|c r]; cbn in *; [done|]. by rewrite Hr.
  - by rewrite Hc, IH1, IH2.
Qed.

Lemma length_drop_while P l : (length (drop_while P l) ≤ length l)%nat.
Proof. induction l as [|c l IH]; cbn; [done|]. case_match; cbn; lia. Qed.

(** ** Steps of the lexer *)

Lemma rest_cons lx c r :
  rest lx = c :: r → input lx !! lpos lx = Some c ∧ drop (S (lpos lx)) (input lx) = r.
Proof.
  unfold rest. intros Hr. split.
  - rewrite <- (Nat.add_0_r (lpos lx)), <- lookup_drop, Hr. done.
  - rewrite <- Nat.add_1_r, <- drop_drop, Hr. done.
Qed.

Lemma rest_nil lx : rest lx = [] ↔ input lx !! lpos lx = None.
Proof.
  unfold rest. rewrite lookup_ge_None. split; [|apply drop_ge].
  intros Hr%(f_equal length). rewrite length_drop in Hr. cbn in Hr. lia.
Qed.

Lemma rest_lookup lx : input lx !! lpos lx = head (rest lx).
Proof.
  destruct (rest lx) as [|c r] eqn:Hr; [by apply rest_nil|].
  by apply rest_cons in Hr as [-> _].
Qed.

Lemma rest_lookup_S lx : input lx !! S (lpos lx) = rest lx !! 1%nat.
Proof. unfold rest. rewrite lookup_drop. f_equal. lia. Qed.

Lemma peek_rest lx : peek lx = default nul (head (rest lx)).
Proof. unfold peek. by rewrite rest_lookup. Qed.

Lemma at_end lx : (length (input lx) ≤ lpos lx)%nat ↔ rest lx = [].
Proof. rewrite rest_nil, lookup_ge_None. done. Qed.

(** One character is consumed. *)
Definition step (a b : Lexer) : Prop := b = (advance a).1.
Definition moves : Lexer → Lexer → Prop := rtc step.

Lemma advance_cons lx c r :
  rest lx = c :: r → ∃ lx', advance lx = (lx', c) ∧ rest lx' = r ∧ step lx lx'.
Proof.
  intros Hr. destruct (rest_cons _ _ _ Hr) as [Hc Hd].
  assert ((advance lx).2 = c ∧ rest (advance lx).1 = r) as [H1 H2].
  { unfold advance, rest. rewrite Hc. cbn. by case_decide. }
  exists (advance lx).1. split; [|done]. rewrite <- H1. by destruct (advance lx).
Qed.

Lemma moves_step a b : step a b → moves a b.
Proof. apply rtc_once. Qed.

Lemma read_while_spec fuel P lx text :
  P nul = false → (length (rest lx) ≤ fuel)%nat →
  ∃ lx', read_while fuel P lx text = (lx', text ++ take_while P (rest lx)) ∧
    rest lx' = drop_while P (rest lx) ∧ moves lx lx'.
Proof.
  intros Hn. revert lx text. induction fuel as [|fuel IH]; intros lx text Hf; cbn [read_while].
  { destruct (rest lx) as [|c r] eqn:Hr; [|cbn in Hf; lia].
    exists lx. cbn. by rewrite app_nil_r. }
  rewrite peek_rest. destruct (rest lx) as [|c r] eqn:Hr; cbn.
  { rewrite Hn, app_nil_r. by exists lx. }
  destruct (P c) eqn:HP; [|rewrite app_nil_r; by exists lx].
  destruct (advance_cons _ _ _ Hr) as (lx1 & -> & Hr1 & Hs).
  destruct (IH lx1 (text ++ [c])) as (lx2 & -> & Hr2 & Hm); [rewrite Hr1; cbn in Hf; lia|].
  exists lx2. rewrite Hr1, <- app_assoc in *. split_and!; [done|done|by eapply rtc_l].
Qed.

Lemma skip_while_spec fuel P lx :
  (length (rest lx) ≤ fuel)%nat →
  rest (skip_while fuel P lx) = drop_while P (rest lx) ∧ moves lx (skip_while fuel P lx).
Proof.
  revert lx. induction fuel as [|fuel IH]; intros lx Hf; cbn [skip_while].
  { destruct (rest lx); [done|cbn in Hf; lia]. }
  rewrite rest_lookup. destruct (rest lx) as [|c r] eqn:Hr; cbn; [done|].
  destruct (P c); [|done].
  destruct (advance_cons _ _ _ Hr) as (lx1 & -> & Hr1 & Hs). cbn [fst].
  destruct (IH lx1) as [H1 H2]; [rewrite Hr1; cbn in Hf; lia|].
  rewrite H1, Hr1. split; [done|by eapply rtc_l].
Qed.

Lemma skip_block_moves fuel lx : moves lx (skip_block fuel lx).
Proof.
  revert lx. induction fuel as [|fuel IH]; intros lx; cbn [skip_block]; [done|].
  case_match; [|done]. case_match; [|done]. case_decide.
  - eapply rtc_l; [done|by apply rtc_once].
  - eapply rtc_l; [done|apply IH].
Qed.

Lemma skipComment_moves lx : moves lx (skipComment lx).
Proof.
  unfold skipComment. case_match; [|done]. case_match; [|done]. case_decide.
  - by apply skip_while_spec.
  - case_decide; [|done]. eapply rtc_l; [done|]. eapply rtc_l; [done|apply skip_block_moves].
Qed.

Lemma read_string_moves fuel q lx text : moves lx (read_string_loop fuel q lx text).1.
Proof.
  revert lx text. induction fuel as [|fuel IH]; intros lx text; cbn [read_string_loop]; [done|].
  case_decide; [|done]. destruct (advance lx) as [lx1 c] eqn:H1.
  assert (step lx lx1) as Hs1 by (unfold step; by rewrite H1).
  case_decide; [by apply rtc_once|]. case_decide; [|eapply rtc_l; [done|apply IH]].
  case_decide; [|eapply rtc_l; [done|apply IH]]. destruct (advance lx1) as [lx2 c'] eqn:Hadv.
  eapply rtc_l; [done|]. eapply rtc_l; [|apply IH]. unfold step. by rewrite Hadv.
Qed.

(** ** Lines and columns *)

Definition next_position (p : Z * Z) (c : ascii) : Z * Z :=
  if decide (c = newline) then (p.1 + 1, 1) else (p.1, p.2 + 1).

(** The line and the column after the characters [l]. *)
Definition position (l : list ascii) : Z * Z := fold_left next_position l (1, 1).

Record lexer_ok (lx : Lexer) : Prop := mk_lexer_ok {
  lo_pos : (lpos lx ≤ length (input lx))%nat;
  lo_position : (lline lx, lcolumn lx) = position (take (lpos lx) (input lx))
}.

Lemma advance_ok lx : lexer_ok lx → lexer_ok (advance lx).1 ∧ input (advance lx).1 = input lx.
Proof.
  intros [Hp Hq]. unfold advance. destruct (input lx !! lpos lx) as [c|] eqn:Hc; [|done].
  pose proof (lookup_lt_Some _ _ _ Hc) as Hlt.
  assert (position (take (S (lpos lx)) (input lx)) = next_position (lline lx, lcolumn lx) c) as Hn.
  { rewrite (take_S_r _ _ _ Hc). unfold position. by rewrite fold_left_app, Hq. }
  unfold next_position in Hn. cbn [fst].
  case_decide; (split; [|done]); (constructor; cbn [lpos input lline lcolumn]; [lia|by rewrite Hn]).
Qed.

Lemma moves_ok a b : moves a b → lexer_ok a → lexer_ok b ∧ input b = input a ∧ (lpos a ≤ lpos b)%nat.
Proof.
  induction 1 as [|a b c Hs Hm IH]; [done|]. intros Ha. unfold step in Hs. subst b.
  destruct (advance_ok a Ha) as [Hb Hi]. destruct (IH Hb) as (Hc & Hci & Hcp).
  split_and!; [done|congruence|]. etransitivity; [|exact Hcp].
  unfold advance. case_match; [case_decide; cbn; lia|done].
Qed.

(** ** Every token moves forward *)

Lemma advance_moves lx lx' c : advance lx = (lx', c) → moves lx lx'.
Proof. intros H. apply rtc_once. unfold step. by rewrite H. Qed.

Lemma read_while_moves fuel P lx text lx' t : read_while fuel P lx text = (lx', t) → moves lx lx'.
Proof.
  revert lx text. induction fuel as [|fuel IH]; intros lx text; cbn [read_while].
  - by intros; simplify_eq.
  - case_match; [|by intros; simplify_eq]. destruct (advance lx) as [lx1 c] eqn:H1. intros H2%IH.
    etransitivity; [by eapply advance_moves|done].
Qed.

Lemma read_fraction_moves lx text lx' t b : read_fraction lx text = (lx', t, b) → moves lx lx'.
Proof.
  unfold read_fraction. case_decide; [|by intros; simplify_eq].
  destruct (advance lx) as [lx1 c] eqn:H1. destruct (read_digits lx1 _) as [lx2 t2] eqn:H2.
  intros; simplify_eq. etransitivity; [by eapply advance_moves|by eapply read_while_moves].
Qed.

Lemma read_exponent_moves lx text f lx' t b : read_exponent lx text f = (lx', t, b) → moves lx lx'.
Proof.
  unfold read_exponent. case_decide; [|by intros; simplify_eq].
  destruct (advance lx) as [lx1 c1] eqn:H1. cbn zeta. apply advance_moves in H1.
  intros Hres. etransitivity; [exact H1|]. case_decide.
  - destruct (advance lx1) as [lx2 c2] eqn:H2. destruct (read_digits lx2 _) as [lx3 t3] eqn:H3.
    simplify_eq. etransitivity; [by eapply advance_moves|by eapply read_while_moves].
  - destruct (read_digits lx1 _) as [lx3 t3] eqn:H3. simplify_eq. by eapply read_while_moves.
Qed.

Lemma readNumber_moves lx : moves lx (readNumber lx).1.
Proof.
  unfold readNumber. destruct (read_digits _ _) as [lx1 t1] eqn:H1.
  destruct (read_fraction _ _) as [[lx2 t2] b2] eqn:H2.
  destruct (read_exponent _ _ _) as [[lx3 t3] b3] eqn:H3. cbn.
  apply read_while_moves in H1. apply read_fraction_moves in H2. apply read_exponent_moves in H3.
  by do 2 (etransitivity; [eassumption|]).
Qed.

Lemma step_length a b : step a b → (length (rest b) ≤ length (rest a))%nat.
Proof.
  intros Hs. destruct (rest a) as [|c r] eqn:Hr.
  - unfold step, advance in Hs. apply rest_nil in Hr as Hn. rewrite Hn in Hs. cbn in Hs. subst.
    by rewrite Hr.
  - destruct (advance_cons _ _ _ Hr) as (a' & Ha & Hr' & Hs'). unfold step in *.
    rewrite Hs, <- Hs', Hr'. cbn. lia.
Qed.

Lemma moves_length a b : moves a b → (length (rest b) ≤ length (rest a))%nat.
Proof. induction 1 as [|a b c Hs%step_length Hm IH]; [done|lia]. Qed.

Lemma find_two_type a b t : find_two a b = Some t → t ≠ TokenType.END_OF_FILE.
Proof.
  unfold find_two. destruct (find _ two_chars) as [[[x y] t']|] eqn:Hf; cbn; [|done].
  intros [= ->] ->. apply find_some in Hf as [Hin _]. cbn in Hin. naive_solver.
Qed.

Lemma find_one_type a : default TokenType.UNKNOWN (find_one a) ≠ TokenType.END_OF_FILE.
Proof.
  unfold find_one. destruct (find _ one_char) as [[x t']|] eqn:Hf; cbn; [|done].
  intros ->. apply find_some in Hf as [Hin _]. cbn in Hin. naive_solver.
Qed.

Lemma keyword_type text t : keywords !! text = Some t → t ≠ TokenType.END_OF_FILE.
Proof.
  intros Hk%elem_of_list_to_map_2 ->.
  assert (Forall (λ e : string * TokenType, e.2 ≠ TokenType.END_OF_FILE) keywords_list) as Hf.
  { unfold keywords_list. repeat constructor; discriminate. }
  rewrite Forall_forall in Hf. by apply (Hf _ Hk).
Qed.

(** A reader consumes characters and does not return the end of the input. *)
Definition reads (lx : Lexer) (r : Lexer * Token) : Prop :=
  moves lx r.1 ∧ (length (rest r.1) < length (rest lx))%nat ∧ ttype r.2 ≠ TokenType.END_OF_FILE.

Lemma read_run P lx c r :
  P nul = false → rest lx = c :: r → P c = true →
  ∃ lx' w, read_while (length (rest lx)) P lx [] = (lx', w) ∧ moves lx lx' ∧
    (length (rest lx') < length (rest lx))%nat.
Proof.
  intros Hn Hr Hc. destruct (read_while_spec (length (rest lx)) P lx []) as (lx' & Hw & Hr' & Hm);
    [done|lia|]. exists lx'. eexists. split; [exact Hw|]. split; [done|].
  rewrite Hr', Hr. cbn. rewrite Hc. pose proof (length_drop_while P r). lia.
Qed.

Lemma readIdentifier_reads lx c r :
  rest lx = c :: r → is_word_char c = true → reads lx (readIdentifier lx).
Proof.
  intros Hr Hc. unfold readIdentifier.
  destruct (read_run is_word_char lx c r) as (lx' & w & -> & Hm & Hl); [done..|].
  destruct (keywords !! _) as [t|] eqn:Hk; split_and!; try done. by eapply keyword_type.
Qed.

Lemma readNumber_reads lx c r : rest lx = c :: r → isdigit c = true → reads lx (readNumber lx).
Proof.
  intros Hr Hc. pose proof (readNumber_moves lx) as Hm. split; [done|].
  unfold readNumber, read_digits. destruct (read_run isdigit lx c r) as (lx' & w & -> & Hm' & Hl); [done..|].
  destruct (read_fraction _ _) as [[lx2 t2] b2] eqn:H2. apply read_fraction_moves, moves_length in H2.
  destruct (read_exponent _ _ _) as [[lx3 t3] b3] eqn:H3. apply read_exponent_moves, moves_length in H3.
  cbn. split; [lia|]. by destruct b3.
Qed.

Lemma readString_reads lx c r : rest lx = c :: r → reads lx (readString lx).
Proof.
  intros Hr. unfold readString. destruct (advance_cons _ _ _ Hr) as (lx1 & -> & Hr1 & Hs).
  pose proof (read_string_moves (length (rest lx1)) c lx1 []) as Hm.
  destruct (read_string_loop _ _ _ _) as [lx2 t2]. cbn in Hm. split_and!; [by eapply rtc_l| |done].
  apply moves_length in Hm. cbn. rewrite Hr. cbn. rewrite Hr1 in Hm. lia.
Qed.

Lemma readOperator_reads lx c r : rest lx = c :: r → reads lx (readOperator lx).
Proof.
  intros Hr. unfold readOperator. destruct (advance_cons _ _ _ Hr) as (lx1 & -> & Hr1 & Hs).
  destruct (find_two c (peek lx1)) as [t|] eqn:Hf; split_and!; cbn.
  - eapply rtc_l; [done|by apply rtc_once].
  - pose proof (step_length lx1 _ eq_refl) as Hl. rewrite Hr. cbn. rewrite Hr1 in Hl. lia.
  - by eapply find_two_type.
  - by apply rtc_once.
  - rewrite Hr1, Hr. cbn. lia.
  - apply find_one_type.
Qed.

Lemma skip_moves lx : moves lx (skipComment (skipWhitespace lx)).
Proof.
  etransitivity; [|apply skipComment_moves]. by apply skip_while_spec.
Qed.

(** [nextToken] is at the end of the input after the blanks, or reads a token. *)
Lemma nextToken_cases lx :
  let lx1 := skipComment (skipWhitespace lx) in
  (rest lx1 = [] ∧
   nextToken lx = (lx1, mkToken TokenType.END_OF_FILE "" (lline lx1) (lcolumn lx1))) ∨
  reads lx1 (nextToken lx).
Proof.
  intros lx1. unfold nextToken. fold lx1. case_decide as Hend.
  { left. split; [by apply at_end|done]. }
  right. assert (∃ c r, rest lx1 = c :: r) as (c & r & Hr).
  { destruct (rest lx1) eqn:Hr; [by apply at_end in Hr|eauto]. }
  rewrite peek_rest, Hr. change (default nul (head (c :: r))) with c.
  destruct (isalpha c || bool_decide (c = "_"%char)) eqn:Ha.
  { apply (readIdentifier_reads lx1 c r Hr). unfold is_word_char, isalnum.
    apply orb_true_iff in Ha as [->| ->]; [done|]. by rewrite orb_true_r. }
  destruct (isdigit c) eqn:Hd; [by apply (readNumber_reads lx1 c r)|].
  destruct (decide (c = squote ∨ c = dquote)); [by apply (readString_reads lx1 c r)|by apply (readOperator_reads lx1 c r)].
Qed.

Lemma nextToken_progress lx lx' t :
  nextToken lx = (lx', t) →
  moves lx lx' ∧
  if decide (ttype t = TokenType.END_OF_FILE)
  then rest lx' = [] ∧ t = mkToken TokenType.END_OF_FILE "" (lline lx') (lcolumn lx')
  else (length (rest lx') < length (rest lx))%nat.
Proof.
  intros Hn. pose proof (skip_moves lx) as Hm. pose proof (moves_length _ _ Hm) as Hl.
  destruct (nextToken_cases lx) as [[Hr He]|(H1 & H2 & H3)]; rewrite Hn in *; simplify_eq/=.
  - done.
  - split; [by etransitivity|]. rewrite decide_False by done. lia.
Qed.

Lemma token_stream_total fuel lx :
  (length (rest lx) < fuel)%nat →
  ∃ ts lx', token_stream fuel lx = Some (ts, lx') ∧ moves lx lx' ∧ rest lx' = [] ∧
    (length ts ≤ S (length (rest lx)))%nat ∧
    ∃ ts', ts = ts' ++ [mkToken TokenType.END_OF_FILE "" (lline lx') (lcolumn lx')] ∧
      Forall (λ t, ttype t ≠ TokenType.END_OF_FILE) ts'.
Proof.
  revert lx. induction fuel as [|fuel IH]; intros lx Hf; [lia|]. cbn [token_stream].
  destruct (nextToken lx) as [lx1 t] eqn:Hn. pose proof (nextToken_progress _ _ _ Hn) as [Hm Hp].
  case_decide as Ht.
  - exists [t], lx1. split_and!; [done|done|apply Hp|cbn; lia|]. exists [].
    destruct Hp as [_ Hp]. by rewrite Hp at 1.
  - destruct (IH lx1) as (ts & lx2 & -> & Hm2 & Hr2 & Hl & ts' & -> & Hts); [lia|].
    exists (t :: ts' ++ [mkToken TokenType.END_OF_FILE "" (lline lx2) (lcolumn lx2)]), lx2.
    split_and!; [done|etransitivity; [exact Hm|exact Hm2]|done|cbn in *; lia|]. exists (t :: ts'). split; [done|by constructor].
Qed.

Lemma Lexer_new_ok s : lexer_ok (Lexer_new s).
Proof. constructor; [apply Nat.le_0_l|done]. Qed.

(** The lexer terminates on every input: at most one token per character comes
    before the end of the input, which is reported once and at the line and column
    of the last character. *)
Theorem lexer_terminates s :
  ∃ ts lx, token_stream (S (length s)) (Lexer_new s) =
      Some (ts ++ [mkToken TokenType.END_OF_FILE "" (lline lx) (lcolumn lx)], lx) ∧
    Forall (λ t, ttype t ≠ TokenType.END_OF_FILE) ts ∧ (length ts ≤ length s)%nat ∧
    lpos lx = length s ∧ (lline lx, lcolumn lx) = position (map toupper s).
Proof.
  assert (length (rest (Lexer_new s)) = length s) as Hlen.
  { unfold rest. cbn. by rewrite drop_0, length_map. }
  destruct (token_stream_total (S (length s)) (Lexer_new s))
    as (ts & lx & Hs & Hm & Hr & Hl & ts' & -> & Hts); [lia|].
  destruct (moves_ok _ _ Hm (Lexer_new_ok s)) as ([Hp Hq] & Hi & _).
  rewrite Hi in Hp, Hq. cbn in Hp, Hq. rewrite length_map in Hp.
  apply at_end in Hr. rewrite Hi in Hr. cbn in Hr. rewrite length_map in Hr.
  exists ts', lx. split_and!; [done|done| |lia|].
  - rewrite length_app, Hlen in Hl. cbn in Hl. lia.
  - by rewrite Hq, take_ge by (rewrite length_map; lia).
Qed.

(** ** Lexemes and their text *)

Definition space : ascii := byte_ascii 32.

Inductive Lexeme :=
  | Word (c : ascii) (w : list ascii)
  | Number (d : ascii) (w : list ascii) (frac : option (list ascii))
  | Text (s : list ascii)
  | Op1 (c : ascii)
  | Op2 (a b : ascii).

Definition starts_word (c : ascii) : bool := isalpha c || bool_decide (c = "_"%char).

Definition all_of (P : ascii → bool) (w : list ascii) : Prop := Forall (λ c, P c = true) w.

Definition lexeme_ok (l : Lexeme) : Prop :=
  match l with
  | Word c w => starts_word c = true ∧ all_of is_word_char w
  | Number d w f =>
      isdigit d = true ∧ all_of isdigit w ∧ match f with Some g => all_of isdigit g | None => True end
  | Text s => True
  | Op1 c => is_Some (find_one c)
  | Op2 a b => is_Some (find_two a b)
  end.

Definition escape (s : list ascii) : list ascii :=
  concat (map (λ c, if decide (c = squote ∨ c = backslash) then [backslash; c] else [c]) s).

Definition print_lexeme (l : Lexeme) : list ascii :=
  match l with
  | Word c w => c :: w
  | Number d w f => d :: w ++ match f with Some g => "."%char :: g | None => [] end
  | Text s => squote :: escape s ++ [squote]
  | Op1 c => [c]
  | Op2 a b => [a; b]
  end.

Definition print_all (ls : list Lexeme) : list ascii :=
  concat (map (λ l, print_lexeme l ++ [space]) ls).

(** The token of a lexeme that is read as it is. *)
Definition lexeme_token (l : Lexeme) : TokenType * string :=
  match l with
  | Word c w =>
      let text := String.string_of_list_ascii (c :: w) in
      (default TokenType.IDENTIFIER (keywords !! text), text)
  | Number d w f =>
      (match f with Some _ => TokenType.FLOAT | None => TokenType.INTEGER end,
       String.string_of_list_ascii (print_lexeme l))
  | Text s => (TokenType.STRING, String.string_of_list_ascii s)
  | Op1 c => (default TokenType.UNKNOWN (find_one c), String.string_of_list_ascii [c])
  | Op2 a b => (default TokenType.UNKNOWN (find_two a b), String.string_of_list_ascii [a; b])
  end.

Definition upper_lexeme (l : Lexeme) : Lexeme :=
  match l with
  | Word c w => Word (toupper c) (map toupper w)
  | Number d w f => Number d w f
  | Text s => Text (map toupper s)
  | Op1 c => Op1 c
  | Op2 a b => Op2 a b
  end.

(** *** Facts about characters, by evaluation *)

Ltac by_char c :=
  destruct c as [[] [] [] [] [] [] [] []]; vm_compute; intros; try done; auto; naive_solver.

Lemma word_start_char c :
  starts_word c = true → isspace c = false ∧ c ≠ "-"%char ∧ c ≠ "/"%char ∧ is_word_char c = true.
Proof. by_char c. Qed.

Lemma digit_char_facts c :
  isdigit c = true →
  isspace c = false ∧ c ≠ "-"%char ∧ c ≠ "/"%char ∧ starts_word c = false ∧ toupper c = c ∧
  isalpha c = false.
Proof. by_char c. Qed.

Lemma op1_facts c :
  is_Some (find_one c) →
  isspace c = false ∧ starts_word c = false ∧ isdigit c = false ∧ c ≠ squote ∧ c ≠ dquote ∧
  toupper c = c ∧ find_two c space = None.
Proof. by_char c. Qed.

Lemma op2_facts a b :
  is_Some (find_two a b) →
  isspace a = false ∧ a ≠ "-"%char ∧ a ≠ "/"%char ∧ starts_word a = false ∧ isdigit a = false ∧
  a ≠ squote ∧ a ≠ dquote ∧ toupper a = a ∧ toupper b = b.
Proof.
  unfold find_two. intros [t Ht]. destruct (find _ two_chars) as [[[x y] t']|] eqn:Hf; [|done].
  apply find_some in Hf as [Hin Heq%bool_decide_eq_true]. simplify_eq/=.
  repeat (destruct Hin as [Hin|Hin]; [simplify_eq; by vm_compute|]). done.
Qed.

Lemma upper_facts c :
  (starts_word c = true → starts_word (toupper c) = true) ∧
  (is_word_char c = true → is_word_char (toupper c) = true) ∧
  (toupper c = squote ↔ c = squote) ∧ (toupper c = backslash ↔ c = backslash).
Proof. by_char c. Qed.

(** *** Reading a lexeme *)

Lemma skipWhitespace_rest lx sp c r :
  rest lx = sp ++ c :: r → all_of isspace sp → isspace c = false →
  rest (skipWhitespace lx) = c :: r.
Proof.
  intros Hr Hsp Hc. unfold skipWhitespace.
  destruct (skip_while_spec (length (rest lx)) isspace lx) as [-> _]; [lia|].
  rewrite Hr. by apply span_while.
Qed.

(** No comment starts at [c], followed by [b]. *)
Definition no_comment (c b : ascii) : Prop :=
  (c = "-"%char → b ≠ "-"%char) ∧ (c = "/"%char → b ≠ "/"%char ∧ b ≠ "*"%char).

Lemma skipComment_none lx c b r :
  rest lx = c :: b :: r → no_comment c b → skipComment lx = lx.
Proof.
  intros Hr [H1 H2]. unfold skipComment. rewrite rest_lookup, rest_lookup_S, Hr. cbn.
  rewrite !decide_False; [done|naive_solver..].
Qed.

(** The reader that [nextToken] chooses for a first character. *)
Definition reader (c : ascii) : Lexer → Lexer * Token :=
  if isalpha c || bool_decide (c = "_"%char) then readIdentifier
  else if isdigit c then readNumber
  else if decide (c = squote ∨ c = dquote) then readString else readOperator.

Lemma nextToken_reader lx sp c b r :
  rest lx = sp ++ c :: b :: r → all_of isspace sp → isspace c = false → no_comment c b →
  ∃ lx1, nextToken lx = reader c lx1 ∧ rest lx1 = c :: b :: r.
Proof.
  intros Hr Hsp Hc Hn. pose proof (skipWhitespace_rest _ _ _ _ Hr Hsp Hc) as Hr1.
  exists (skipWhitespace lx). split; [|done]. unfold nextToken.
  rewrite (skipComment_none _ _ _ _ Hr1 Hn).
  rewrite decide_False by (rewrite at_end, Hr1; done).
  rewrite peek_rest, Hr1. change (default nul (head (c :: b :: r))) with c. unfold reader.
  destruct (isalpha c || _); [done|]. destruct (isdigit c); [done|]. by case_decide.
Qed.

Lemma read_while_run P lx w r text :
  P nul = false → rest lx = w ++ r → all_of P w → stops P r →
  ∃ lx', read_while (length (rest lx)) P lx text = (lx', text ++ w) ∧ rest lx' = r.
Proof.
  intros Hn Hr Hw Hs. destruct (read_while_spec (length (rest lx)) P lx text) as (lx' & H1 & H2 & _);
    [done|lia|]. exists lx'. destruct (span_while P w r Hw Hs) as [E1 E2].
  by rewrite H1, H2, Hr, E1, E2.
Qed.

Lemma read_word lx c w r :
  rest lx = c :: w ++ space :: r → starts_word c = true → all_of is_word_char w →
  ∃ lx' t, readIdentifier lx = (lx', t) ∧ rest lx' = space :: r ∧
    (ttype t, ttext t) = lexeme_token (Word c w).
Proof.
  intros Hr Hc Hw. unfold readIdentifier.
  destruct (read_while_run is_word_char lx (c :: w) (space :: r) []) as (lx' & -> & Hr');
    [done|done|constructor; [by apply word_start_char|done]|done|].
  cbn [app lexeme_token]. destruct (keywords !! _) as [t|]; by eexists _, _.
Qed.

Lemma read_fraction_spec lx f r text :
  rest lx = match f with Some g => "."%char :: g | None => [] end ++ space :: r →
  match f with Some g => all_of isdigit g | None => True end →
  ∃ lx', read_fraction lx text =
      (lx', text ++ match f with Some g => "."%char :: g | None => [] end, bool_decide (is_Some f)) ∧
    rest lx' = space :: r.
Proof.
  intros Hr Hf. unfold read_fraction. rewrite peek_rest, Hr. destruct f as [g|]; cbn [app] in *.
  - rewrite decide_True by done. destruct (advance_cons _ _ _ Hr) as (lx1 & -> & Hr1 & _).
    destruct (read_while_run isdigit lx1 g (space :: r) (text ++ ["."%char])) as (lx2 & H2 & Hr2);
      [done..|]. unfold read_digits. rewrite H2. exists lx2. by rewrite <- app_assoc.
  - rewrite decide_False by done. exists lx. by rewrite app_nil_r.
Qed.

Lemma read_number lx d w f r :
  rest lx = (d :: w ++ match f with Some g => "."%char :: g | None => [] end) ++ space :: r →
  lexeme_ok (Number d w f) →
  ∃ lx' t, readNumber lx = (lx', t) ∧ rest lx' = space :: r ∧
    (ttype t, ttext t) = lexeme_token (Number d w f).
Proof.
  intros Hr (Hd & Hw & Hf). unfold readNumber, read_digits.
  set (fr := match f with Some g => "."%char :: g | None => [] end) in *.
  destruct (read_while_run isdigit lx (d :: w) (fr ++ space :: r) []) as (lx1 & -> & Hr1).
  - done.
  - rewrite Hr. cbn. by rewrite <- app_assoc.
  - by constructor.
  - by destruct f.
  - cbn [app]. destruct (read_fraction_spec lx1 f r (d :: w) Hr1 Hf) as (lx2 & -> & Hr2).
    unfold read_exponent. rewrite peek_rest, Hr2, decide_False by (intros [?|?]; done).
    eexists _, _. split; [done|]. split; [done|]. cbn. by destruct f.
Qed.

Lemma escape_cons c s :
  escape (c :: s) =
  (if decide (c = squote ∨ c = backslash) then [backslash; c] else [c]) ++ escape s.
Proof. done. Qed.

Lemma read_string_spec fuel lx s r text :
  rest lx = escape s ++ squote :: r → (length (rest lx) ≤ fuel)%nat →
  ∃ lx', read_string_loop fuel squote lx text = (lx', text ++ s) ∧ rest lx' = r.
Proof.
  revert fuel lx text. induction s as [|c s IH]; intros fuel lx text Hr Hf;
    (destruct fuel as [|fuel]; [rewrite Hr, length_app in Hf; cbn [length] in Hf; lia|]);
    cbn [read_string_loop].
  - change (rest lx = squote :: r) in Hr. destruct (advance_cons _ _ _ Hr) as (lx1 & -> & Hr1 & _).
    rewrite decide_True by (apply Nat.nle_gt; by rewrite at_end, Hr).
    rewrite decide_True by done. exists lx1. by rewrite app_nil_r.
  - rewrite escape_cons, <- app_assoc in Hr.
    rewrite decide_True by (apply Nat.nle_gt; rewrite at_end, Hr; by case_decide).
    destruct (decide (c = squote ∨ c = backslash)) as [Hc|Hc]; cbn [app] in Hr;
      destruct (advance_cons _ _ _ Hr) as (lx1 & -> & Hr1 & _).
    + rewrite (decide_False (P := backslash = squote)) by done. rewrite decide_True by done.
      rewrite decide_True by (apply Nat.nle_gt; by rewrite at_end, Hr1).
      destruct (advance_cons _ _ _ Hr1) as (lx2 & -> & Hr2 & _).
      destruct (IH fuel lx2 (text ++ [c])) as (lx3 & -> & Hr3); [done| |].
      { rewrite Hr in Hf. rewrite Hr2. cbn [length] in Hf. lia. }
      exists lx3. by rewrite <- app_assoc.
    + rewrite !decide_False by tauto.
      destruct (IH fuel lx1 (text ++ [c])) as (lx3 & -> & Hr3); [done| |].
      { rewrite Hr in Hf. rewrite Hr1. cbn [length] in Hf. lia. }
      exists lx3. by rewrite <- app_assoc.
Qed.

Lemma read_text lx s r :
  rest lx = squote :: escape s ++ squote :: r →
  ∃ lx' t, readString lx = (lx', t) ∧ rest lx' = r ∧ (ttype t, ttext t) = lexeme_token (Text s).
Proof.
  intros Hr. unfold readString. destruct (advance_cons _ _ _ Hr) as (lx1 & -> & Hr1 & _).
  destruct (read_string_spec (length (rest lx1)) lx1 s r []) as (lx2 & -> & Hr2); [done|lia|].
  by eexists _, _.
Qed.

Lemma read_op1 lx c r :
  rest lx = c :: space :: r → is_Some (find_one c) →
  ∃ lx' t, readOperator lx = (lx', t) ∧ rest lx' = space :: r ∧
    (ttype t, ttext t) = lexeme_token (Op1 c).
Proof.
  intros Hr Hc. destruct (op1_facts c Hc) as (_ & _ & _ & _ & _ & _ & H2).
  unfold readOperator. destruct (advance_cons _ _ _ Hr) as (lx1 & -> & Hr1 & _).
  rewrite peek_rest, Hr1. cbn [head]. change (default nul (Some space)) with space. rewrite H2.
  by eexists _, _.
Qed.

Lemma read_op2 lx a b r :
  rest lx = a :: b :: r → is_Some (find_two a b) →
  ∃ lx' t, readOperator lx = (lx', t) ∧ rest lx' = r ∧ (ttype t, ttext t) = lexeme_token (Op2 a b).
Proof.
  intros Hr [t Ht]. unfold readOperator. destruct (advance_cons _ _ _ Hr) as (lx1 & -> & Hr1 & _).
  rewrite peek_rest, Hr1. change (default nul (head (b :: r))) with b. rewrite Ht.
  destruct (advance_cons _ _ _ Hr1) as (lx2 & -> & Hr2 & _). eexists _, _.
  split; [done|]. split; [done|].
  cbn [ttype ttext lexeme_token]. by rewrite Ht.
Qed.

Lemma no_comment_other c b : c ≠ "-"%char → c ≠ "/"%char → no_comment c b.
Proof. intros H1 H2. split; intros; contradiction. Qed.

(** The first two characters of a printed lexeme start no comment. *)
Lemma lexeme_first l r :
  lexeme_ok l →
  ∃ c b r', print_lexeme l ++ space :: r = c :: b :: r' ∧ isspace c = false ∧ no_comment c b ∧
    reader c = match l with
               | Word _ _ => readIdentifier | Number _ _ _ => readNumber | Text _ => readString
               | _ => readOperator
               end.
Proof.
  assert (∀ c (w : list ascii), ∃ b r', c :: w ++ space :: r = c :: b :: r') as Hcons.
  { intros c [|b w]; cbn [app]; eauto. }
  unfold reader. destruct l as [c w|d w f|s|c|a b]; cbn [print_lexeme lexeme_ok].
  - intros [Hc _]. destruct (word_start_char c Hc) as (H1 & H2 & H3 & _). unfold starts_word in Hc.
    destruct (Hcons c w) as (b & r' & Hb). exists c, b, r'. rewrite Hc.
    split_and!; auto using no_comment_other.
  - intros (Hd & _). destruct (digit_char_facts d Hd) as (H1 & H2 & H3 & H4 & _).
    destruct (Hcons d (w ++ match f with Some g => "."%char :: g | None => [] end)) as (b & r' & Hb).
    exists d, b, r'. unfold starts_word in H4. rewrite H4, Hd.
    split_and!; auto using no_comment_other.
  - intros _. destruct (Hcons squote (escape s ++ [squote])) as (b & r' & Hb).
    exists squote, b, r'. split_and!; [done|done|by apply no_comment_other|done].
  - intros Hc. destruct (op1_facts c Hc) as (H1 & H2 & H3 & H4 & H5 & _).
    exists c, space, r. unfold starts_word in H2. rewrite H2, H3, decide_False by tauto. done.
  - intros Ha. destruct (op2_facts a b Ha) as (H1 & H2 & H3 & H4 & H5 & H6 & H7 & _).
    exists a, b, (space :: r). unfold starts_word in H4. rewrite H4, H5, decide_False by tauto.
    split_and!; auto using no_comment_other.
Qed.

Lemma nextToken_lexeme lx sp l r :
  rest lx = sp ++ print_lexeme l ++ space :: r → all_of isspace sp → lexeme_ok l →
  ∃ lx' t, nextToken lx = (lx', t) ∧ rest lx' = space :: r ∧ (ttype t, ttext t) = lexeme_token l.
Proof.
  intros Hr Hsp Hl. destruct (lexeme_first l r Hl) as (c & b & r' & Hp & Hc & Hn & Hrd).
  rewrite Hp in Hr. destruct (nextToken_reader _ _ _ _ _ Hr Hsp Hc Hn) as (lx1 & -> & Hr1).
  rewrite <- Hp in Hr1. rewrite Hrd. destruct l as [c' w|d w f|s|c'|a' b']; cbn [print_lexeme lexeme_ok] in *.
  - destruct Hl. by apply read_word.
  - by apply read_number.
  - apply read_text. rewrite Hr1. cbn [app]. by rewrite <- app_assoc.
  - by apply read_op1.
  - by apply (read_op2 lx1 a' b').
Qed.

Lemma lexeme_type_end l : lexeme_ok l → (lexeme_token l).1 ≠ TokenType.END_OF_FILE.
Proof.
  destruct l as [c w|d w f|s|c|a b]; cbn [lexeme_token lexeme_ok fst].
  - intros _. destruct (keywords !! _) eqn:Hk; [by eapply keyword_type|done].
  - by destruct f.
  - done.
  - intros _. apply find_one_type.
  - intros [t Ht]. rewrite Ht. by eapply find_two_type.
Qed.

Lemma nextToken_blank lx sp :
  rest lx = sp → all_of isspace sp →
  ∃ lx' t, nextToken lx = (lx', t) ∧ (ttype t, ttext t) = (TokenType.END_OF_FILE, "").
Proof.
  intros Hr Hsp. unfold nextToken.
  assert (rest (skipWhitespace lx) = []) as Hr1.
  { unfold skipWhitespace. destruct (skip_while_spec (length (rest lx)) isspace lx) as [-> _]; [lia|].
    rewrite Hr, <- (app_nil_r sp). by apply span_while. }
  assert (skipComment (skipWhitespace lx) = skipWhitespace lx) as ->.
  { unfold skipComment. by rewrite rest_lookup, Hr1. }
  rewrite decide_True by (by apply at_end). by eexists _, _.
Qed.

Lemma token_stream_lexemes ls lx sp fuel :
  rest lx = sp ++ print_all ls → all_of isspace sp → Forall lexeme_ok ls → (length ls < fuel)%nat →
  ∃ ts lx', token_stream fuel lx = Some (ts, lx') ∧
    map (λ t, (ttype t, ttext t)) ts = map lexeme_token ls ++ [(TokenType.END_OF_FILE, "")].
Proof.
  intros Hr Hsp Hls. revert lx sp fuel Hr Hsp.
  induction Hls as [|l ls Hl Hls IH]; intros lx sp fuel Hr Hsp Hf;
    (destruct fuel as [|fuel]; [cbn in Hf; lia|]); cbn [token_stream].
  - unfold print_all in Hr. cbn in Hr. rewrite app_nil_r in Hr.
    destruct (nextToken_blank lx sp Hr Hsp) as (lx' & t & -> & Ht). injection Ht as Ht Hx.
    rewrite decide_True by done. eexists _, _. split; [done|]. cbn. by rewrite Ht, Hx.
  - change (print_all (l :: ls)) with ((print_lexeme l ++ [space]) ++ print_all ls) in Hr.
    rewrite <- app_assoc in Hr. cbn [app] in Hr.
    destruct (nextToken_lexeme lx sp l _ Hr Hsp Hl) as (lx1 & t & -> & Hr1 & Ht).
    pose proof (lexeme_type_end l Hl) as Hne. rewrite <- Ht in Hne. cbn in Hne.
    rewrite decide_False by done.
    destruct (IH lx1 [space] fuel) as (ts & lx2 & -> & Hts); [done|by constructor|cbn in Hf; lia|].
    eexists _, _. split; [done|]. cbn. by rewrite Ht, Hts.
Qed.

(** *** Upper case *)

Lemma map_escape s : map toupper (escape s) = escape (map toupper s).
Proof.
  induction s as [|c s IH]; [done|]. cbn [map]. rewrite !escape_cons, map_app, IH. f_equal.
  destruct (upper_facts c) as (_ & _ & H1 & H2).
  destruct (decide (c = squote ∨ c = backslash)) as [Hc|Hc].
  - rewrite decide_True by tauto. done.
  - rewrite decide_False by tauto. done.
Qed.

Lemma map_digits w : all_of isdigit w → map toupper w = w.
Proof.
  induction 1 as [|c w Hc Hw IH]; [done|]. cbn. rewrite IH. f_equal. by apply digit_char_facts.
Qed.

Lemma map_print l : lexeme_ok l → map toupper (print_lexeme l) = print_lexeme (upper_lexeme l).
Proof.
  destruct l as [c w|d w f|s|c|a b]; cbn [print_lexeme upper_lexeme lexeme_ok map].
  - done.
  - intros (Hd & Hw & Hf). rewrite map_app, map_digits by done. f_equal; [by apply digit_char_facts|].
    f_equal. destruct f as [g|]; [|done]. cbn [map]. by rewrite map_digits.
  - intros _. rewrite map_app, map_escape. done.
  - intros Hc. do 2 f_equal. by apply op1_facts.
  - intros Ha. destruct (op2_facts a b Ha) as (_ & _ & _ & _ & _ & _ & _ & -> & ->). done.
Qed.

Lemma upper_ok l : lexeme_ok l → lexeme_ok (upper_lexeme l).
Proof.
  destruct l as [c w|d w f|s|c|a b]; cbn [upper_lexeme lexeme_ok]; [|done..].
  intros [Hc Hw]. split; [by apply upper_facts|]. apply Forall_map.
  eapply Forall_impl; [exact Hw|]. intros x Hx. by apply upper_facts.
Qed.

Lemma map_print_all ls :
  Forall lexeme_ok ls → map toupper (print_all ls) = print_all (map upper_lexeme ls).
Proof.
  induction 1 as [|l ls Hl Hls IH]; [done|].
  change (print_all (l :: ls)) with ((print_lexeme l ++ [space]) ++ print_all ls).
  cbn [map]. rewrite !map_app, IH, map_print by done. done.
Qed.

(** (C36) Lexing is a left inverse of printing: the text of any words, numbers,
    string literals and operators, separated by blanks, is read as the tokens of
    these lexemes and the end of the input.  The tokens are the ones of the lexemes
    in upper case, also the texts of string literals. *)
Theorem lex_print_roundtrip ls :
  Forall lexeme_ok ls →
  ∃ ts lx, token_stream (S (length ls)) (Lexer_new (print_all ls)) = Some (ts, lx) ∧
    map (λ t, (ttype t, ttext t)) ts =
    map (λ l, lexeme_token (upper_lexeme l)) ls ++ [(TokenType.END_OF_FILE, "")].
Proof.
  intros Hls. destruct (token_stream_lexemes (map upper_lexeme ls) (Lexer_new (print_all ls)) []
    (S (length ls))) as (ts & lx & Hs & Ht).
  - unfold rest. cbn [input lpos Lexer_new app]. by rewrite drop_0, map_print_all.
  - constructor.
  - apply Forall_map. eapply Forall_impl; [exact Hls|]. apply upper_ok.
  - rewrite length_map. lia.
  - exists ts, lx. split; [done|]. by rewrite Ht, map_map.
Qed.

(** A comment to the end of a line is not blank space: the newline after it is
    read as an UNKNOWN token, because blanks are skipped before the comment only. *)
Theorem line_comment_token lx sp dash body r :
  rest lx = sp ++ [dash; dash] ++ body ++ newline :: r → all_of isspace sp →
  dash = "-"%char ∨ dash = "/"%char → newline ∉ body →
  ∃ lx' t, nextToken lx = (lx', t) ∧ ttype t = TokenType.UNKNOWN ∧
    ttext t = String.string_of_list_ascii [newline] ∧ rest lx' = r.
Proof.
  intros Hr Hsp Hdash Hbody. cbn [app] in Hr.
  assert (isspace dash = false ∧ dash ≠ newline) as [Hd Hdn] by (destruct Hdash as [->| ->]; done).
  pose proof (skipWhitespace_rest _ _ _ _ Hr Hsp Hd) as Hr1. unfold nextToken.
  assert (rest (skipComment (skipWhitespace lx)) = newline :: r) as Hr2.
  { unfold skipComment. rewrite rest_lookup, rest_lookup_S, Hr1. cbn [head lookup list_lookup].
    rewrite decide_True by (destruct Hdash as [->| ->]; auto).
    rewrite (λ n Hn, proj1 (skip_while_spec n in_line (skipWhitespace lx) Hn)) by (by rewrite Hr1).
    rewrite Hr1. apply (span_while _ (dash :: dash :: body) (newline :: r)); [|done].
    assert (∀ c, c ≠ newline → in_line c = true) as Hb
      by (intros; by apply bool_decide_eq_true).
    repeat constructor; [by apply Hb..|]. apply Forall_forall. intros c Hc. apply Hb. congruence. }
  rewrite decide_False by (rewrite at_end, Hr2; done).
  rewrite peek_rest, Hr2. cbn [head]. change (default nul (Some newline)) with newline.
  change (isalpha newline || bool_decide (newline = "_"%char)) with false.
  change (isdigit newline) with false. rewrite decide_False by (intros [?|?]; done).
  unfold readOperator. destruct (advance_cons _ _ _ Hr2) as (lx2 & -> & Hr3 & _).
  change (find_two newline (peek lx2)) with (@None TokenType).
  by eexists _, _.
Qed.

(** ** Witnesses *)

Definition lexemes0 : list Lexeme :=
  [Word "s" ["e"; "l"; "e"; "c"; "t"]; Word "x" []; Op2 ">" "="; Number "1" ["0"] (Some ["5"]);
   Op1 ","; Text ["i"; "t"; "'"; "s"]]%char.

Lemma lex_print_roundtrip_witness :
  ∃ ts lx, token_stream (S (length lexemes0)) (Lexer_new (print_all lexemes0)) = Some (ts, lx) ∧
    map (λ t, (ttype t, ttext t)) ts =
    [(TokenType.SELECT, "SELECT"); (TokenType.IDENTIFIER, "X"); (TokenType.GE, ">=");
     (TokenType.FLOAT, "10.5"); (TokenType.COMMA, ","); (TokenType.STRING, "IT'S");
     (TokenType.END_OF_FILE, "")].
Proof. apply (lex_print_roundtrip lexemes0). repeat constructor; eexists; reflexivity. Defined.

Lemma line_comment_token_witness :
  ∃ lx' t, nextToken (Lexer_new ["-"; "-"; "a"; newline; "b"]%char) = (lx', t) ∧
    ttype t = TokenType.UNKNOWN ∧ ttext t = String.string_of_list_ascii [newline] ∧
    rest lx' = ["B"%char].
Proof.
  apply (line_comment_token _ [] "-" ["A"%char] ["B"%char]); [reflexivity|constructor|by left|].
  rewrite list_elem_of_singleton. discriminate.
Defined.
