(* ===== verification/TransactionManager.v ===== *)
(** * TransactionManager: transactions over the pool, the log and the locks
    (src/transaction/transaction_manager.h, transaction_manager.cpp)

    Transactions are owned by the maps of active and completed transactions, so a
    [Transaction*] is the id of its transaction, and [None] the null pointer.
    [mutex_] is a flag: a [lock_guard] on a mutex that the call already holds
    never returns, and the call is [None]; so is a call that reads a transaction
    that has been destroyed or writes outside a buffer.  Maps are iterated in the
    order of [map_to_list], the log that recovery reads in any order.  The status
    [Status::OK] is read as the code OK and [Status::ERROR] as ERROR; the average
    time of a transaction is not modelled. *)

From stdpp Require Import gmap strings list sorting.
From S2P Require Import Prelude CxxString Types Page FileManager BufferPool LockManager LogManager.

Open Scope Z_scope.

(** ** Transactions *)

Module TransactionState.
Inductive TransactionState := ACTIVE | PREPARED | COMMITTED | ABORTED | ROLLBACK.

#[export] Instance TransactionState_eq_dec : EqDecision TransactionState.
Proof. solve_decision. Defined.
End TransactionState.
Export (hints) TransactionState.
Abbreviation TransactionState := TransactionState.TransactionState.

Module AccessMode.
Inductive AccessMode := READ_ONLY | READ_WRITE.
End AccessMode.
Abbreviation AccessMode := AccessMode.AccessMode.

Module IsolationLevel.
Inductive IsolationLevel := READ_UNCOMMITTED | READ_COMMITTED | REPEATABLE_READ | SERIALIZABLE.
End IsolationLevel.
Abbreviation IsolationLevel := IsolationLevel.IsolationLevel.

Module TransactionPriority.
Inductive TransactionPriority := LOW | NORMAL | HIGH | CRITICAL.
End TransactionPriority.
Abbreviation TransactionPriority := TransactionPriority.TransactionPriority.

Definition priority_code (p : TransactionPriority) : Z :=
  match p with
  | TransactionPriority.LOW => 0 | TransactionPriority.NORMAL => 1
  | TransactionPriority.HIGH => 2 | TransactionPriority.CRITICAL => 3
  end.

(** [before_images] is never filled. *)
Record Savepoint := mkSavepoint {
  sp_name : string;
  log_position : Z;
  before_images : gmap Z (list Value)
}.

Record Transaction := mkTransaction {
  tx_id : Z;
  tx_state : TransactionState;
  isolation : IsolationLevel;
  access_mode : AccessMode;
  priority : TransactionPriority;
  start_time : Z;
  last_access : Z;
  last_lsn : Z;
  modified_pages : gmap Z Z;
  savepoints : list Savepoint
}.

Definition Transaction_new (id : Z) (iso : IsolationLevel) (m : AccessMode) (now : Z) : Transaction :=
  mkTransaction id TransactionState.ACTIVE iso m TransactionPriority.NORMAL now now 0 ∅ [].

Definition setState (s : TransactionState) (t : Transaction) : Transaction :=
  mkTransaction (tx_id t) s (isolation t) (access_mode t) (priority t) (start_time t)
    (last_access t) (last_lsn t) (modified_pages t) (savepoints t).
Definition setPriority (p : TransactionPriority) (t : Transaction) : Transaction :=
  mkTransaction (tx_id t) (tx_state t) (isolation t) (access_mode t) p (start_time t)
    (last_access t) (last_lsn t) (modified_pages t) (savepoints t).
Definition updateAccessTime (now : Z) (t : Transaction) : Transaction :=
  mkTransaction (tx_id t) (tx_state t) (isolation t) (access_mode t) (priority t) (start_time t)
    now (last_lsn t) (modified_pages t) (savepoints t).
Definition setLastLSN (lsn : Z) (t : Transaction) : Transaction :=
  mkTransaction (tx_id t) (tx_state t) (isolation t) (access_mode t) (priority t) (start_time t)
    (last_access t) lsn (modified_pages t) (savepoints t).
(** The LSN of a page is a [uint32_t]. *)
Definition addModifiedPage (page lsn : Z) (t : Transaction) : Transaction :=
  mkTransaction (tx_id t) (tx_state t) (isolation t) (access_mode t) (priority t) (start_time t)
    (last_access t) (last_lsn t) (<[page := wrap 32 lsn]> (modified_pages t)) (savepoints t).
Definition set_savepoints (l : list Savepoint) (t : Transaction) : Transaction :=
  mkTransaction (tx_id t) (tx_state t) (isolation t) (access_mode t) (priority t) (start_time t)
    (last_access t) (last_lsn t) (modified_pages t) l.

Definition createSavepoint (name : string) (t : Transaction) : Transaction :=
  set_savepoints (savepoints t ++ [mkSavepoint name (last_lsn t) ∅]) t.

(** The savepoints before the first one of that name, and the ones after it. *)
Fixpoint find_savepoint (name : string) (l : list Savepoint)
  : option (list Savepoint * list Savepoint) :=
  match l with
  | [] => None
  | sp :: l' =>
      if decide (sp_name sp = name) then Some ([], l')
      else '(before, after) ← find_savepoint name l'; Some (sp :: before, after)
  end.

(** The savepoints after it are erased, and then the last one is popped. *)
Definition tx_rollbackToSavepoint (name : string) (t : Transaction) : Transaction :=
  match find_savepoint name (savepoints t) with
  | Some (before, _) => set_savepoints before t
  | None => t
  end.

Definition tx_releaseSavepoint (name : string) (t : Transaction) : Transaction :=
  match find_savepoint name (savepoints t) with
  | Some (before, after) => set_savepoints (before ++ after) t
  | None => t
  end.

(** [elapsed > timeout_ms] compares as [uint64_t]; times in nanoseconds. *)
Definition isExpired (timeout_ms now : Z) (t : Transaction) : bool :=
  timeout_ms <? wrap 64 ((now - last_access t) ÷ 1000000).

(** ** The analysis of the log *)

(** The last checkpoint of the log. *)
Definition last_checkpoint_lsn (logs : list (Z * LogRecord)) : Z :=
  foldl (λ c kr, if decide (rec_type kr.2 = LogRecordType.CHECKPOINT) then Z.max c kr.1 else c) 0 logs.

(** The result of the analysis. *)
Record Analysis := mkAnalysis {
  tx_states : gmap Z TransactionState;
  tx_last_lsn : gmap Z Z;
  page_lsns : gmap Z Z
}.

Definition analyse (a : Analysis) (kr : Z * LogRecord) : Analysis :=
  let '(lsn, r) := kr in
  let tx := rec_tx r in
  match rec_type r with
  | LogRecordType.BEGIN =>
      mkAnalysis (<[tx := TransactionState.ACTIVE]> (tx_states a)) (<[tx := lsn]> (tx_last_lsn a))
        (page_lsns a)
  | LogRecordType.COMMIT =>
      mkAnalysis (<[tx := TransactionState.COMMITTED]> (tx_states a)) (tx_last_lsn a) (page_lsns a)
  | LogRecordType.ABORT =>
      mkAnalysis (<[tx := TransactionState.ABORTED]> (tx_states a)) (tx_last_lsn a) (page_lsns a)
  | LogRecordType.INSERT | LogRecordType.UPDATE | LogRecordType.DELETE =>
      mkAnalysis (tx_states a) (<[tx := lsn]> (tx_last_lsn a))
        (if decide (rec_page r = INVALID_PAGE_ID) then page_lsns a
         else <[rec_page r := lsn]> (page_lsns a))
  | _ => a
  end.

Definition since (c : Z) (logs : list (Z * LogRecord)) : list (Z * LogRecord) :=
  filter (λ kr, c ≤ kr.1) logs.

Definition analysis_of (logs : list (Z * LogRecord)) : Analysis :=
  foldl analyse (mkAnalysis ∅ ∅ ∅) (since (last_checkpoint_lsn logs) logs).

(** Whether the record is redone. *)
Definition redoes (a : Analysis) (kr : Z * LogRecord) : bool :=
  bool_decide (tx_states a !! rec_tx kr.2 = Some TransactionState.COMMITTED)
  && match page_lsns a !! rec_page kr.2 with Some l => l <? kr.1 | None => true end.

Definition redoTransaction (r : LogRecord) : bool :=
  match rec_type r with
  | LogRecordType.INSERT | LogRecordType.UPDATE | LogRecordType.DELETE => true
  | _ => false
  end.

(** The redo pass: the records that [redoTransaction] is called with, which changes
    nothing itself. *)
Definition redo_pass (a : Analysis) (logs : list (Z * LogRecord)) : list (Z * LogRecord) :=
  filter (λ kr, redoes a kr = true) (since (last_checkpoint_lsn logs) logs).

Definition later_lsn (a : Analysis) (x y : Z) : Prop :=
  default 0 (tx_last_lsn a !! y) ≤ default 0 (tx_last_lsn a !! x).
#[export] Instance later_lsn_dec a : RelDecision (later_lsn a).
Proof. unfold later_lsn. solve_decision. Defined.

(** The transactions to undo, the one with the last LSN first. *)
Definition undo_list (a : Analysis) : list Z :=
  merge_sort (later_lsn a)
    (filter (λ kr, kr.2 = TransactionState.ACTIVE) (map_to_list (tx_states a))).*1.

(** ** The manager *)

Record TransactionManagerStats := mkTMStats {
  st_active : Z;
  st_committed : Z;
  st_aborted : Z;
  st_deadlock : Z;
  st_max_concurrent : Z
}.
Definition TMStats_zero : TransactionManagerStats := mkTMStats 0 0 0 0 0.

Section Manager.
Context {St : Type} `{PageStore St}.

Record TransactionManager := mkTM {
  tm_pool : BufferPool St;
  tm_log : LogManager;
  tm_locks : LockManager;
  active : gmap Z Transaction;
  completed : gmap Z Transaction;
  next_tx_id : Z;
  max_transactions : Z;
  default_isolation : IsolationLevel;
  tm_mutex : bool;
  deadlock_timeout_ms : Z;
  deadlock_detection_interval_ms : Z;
  tm_stats : TransactionManagerStats
}.

Definition TransactionManager_new (pool : BufferPool St) (log : LogManager)
  : TransactionManager :=
  mkTM pool log LockManager_new ∅ ∅ 1 1000 IsolationLevel.REPEATABLE_READ false 5000 1000 TMStats_zero.

Definition set_pool (p : BufferPool St) (m : TransactionManager) : TransactionManager :=
  mkTM p (tm_log m) (tm_locks m) (active m) (completed m) (next_tx_id m) (max_transactions m)
    (default_isolation m) (tm_mutex m) (deadlock_timeout_ms m) (deadlock_detection_interval_ms m)
    (tm_stats m).
Definition set_log (l : LogManager) (m : TransactionManager) : TransactionManager :=
  mkTM (tm_pool m) l (tm_locks m) (active m) (completed m) (next_tx_id m) (max_transactions m)
    (default_isolation m) (tm_mutex m) (deadlock_timeout_ms m) (deadlock_detection_interval_ms m)
    (tm_stats m).
Definition set_locks (l : LockManager) (m : TransactionManager) : TransactionManager :=
  mkTM (tm_pool m) (tm_log m) l (active m) (completed m) (next_tx_id m) (max_transactions m)
    (default_isolation m) (tm_mutex m) (deadlock_timeout_ms m) (deadlock_detection_interval_ms m)
    (tm_stats m).
Definition set_txs (a c : gmap Z Transaction) (m : TransactionManager) : TransactionManager :=
  mkTM (tm_pool m) (tm_log m) (tm_locks m) a c (next_tx_id m) (max_transactions m)
    (default_isolation m) (tm_mutex m) (deadlock_timeout_ms m) (deadlock_detection_interval_ms m)
    (tm_stats m).
Definition set_next_tx (n : Z) (m : TransactionManager) : TransactionManager :=
  mkTM (tm_pool m) (tm_log m) (tm_locks m) (active m) (completed m) n (max_transactions m)
    (default_isolation m) (tm_mutex m) (deadlock_timeout_ms m) (deadlock_detection_interval_ms m)
    (tm_stats m).
Definition set_mutex (b : bool) (m : TransactionManager) : TransactionManager :=
  mkTM (tm_pool m) (tm_log m) (tm_locks m) (active m) (completed m) (next_tx_id m)
    (max_transactions m) (default_isolation m) b (deadlock_timeout_ms m)
    (deadlock_detection_interval_ms m) (tm_stats m).
Definition upd_tm_stats (f : TransactionManagerStats → TransactionManagerStats)
    (m : TransactionManager) : TransactionManager :=
  mkTM (tm_pool m) (tm_log m) (tm_locks m) (active m) (completed m) (next_tx_id m)
    (max_transactions m) (default_isolation m) (tm_mutex m) (deadlock_timeout_ms m)
    (deadlock_detection_interval_ms m) (f (tm_stats m)).

Definition setMaxTransactions (n : Z) (m : TransactionManager) : TransactionManager :=
  mkTM (tm_pool m) (tm_log m) (tm_locks m) (active m) (completed m) (next_tx_id m) n
    (default_isolation m) (tm_mutex m) (deadlock_timeout_ms m) (deadlock_detection_interval_ms m)
    (tm_stats m).
Definition setDefaultIsolation (l : IsolationLevel) (m : TransactionManager) : TransactionManager :=
  mkTM (tm_pool m) (tm_log m) (tm_locks m) (active m) (completed m) (next_tx_id m)
    (max_transactions m) l (tm_mutex m) (deadlock_timeout_ms m) (deadlock_detection_interval_ms m)
    (tm_stats m).
Definition setDeadlockTimeout (ms : Z) (m : TransactionManager) : TransactionManager :=
  mkTM (tm_pool m) (tm_log m) (tm_locks m) (active m) (completed m) (next_tx_id m)
    (max_transactions m) (default_isolation m) (tm_mutex m) ms (deadlock_detection_interval_ms m)
    (tm_stats m).
Definition setDeadlockDetectionInterval (ms : Z) (m : TransactionManager) : TransactionManager :=
  mkTM (tm_pool m) (tm_log m) (tm_locks m) (active m) (completed m) (next_tx_id m)
    (max_transactions m) (default_isolation m) (tm_mutex m) (deadlock_timeout_ms m) ms (tm_stats m).
Definition resetStats (m : TransactionManager) : TransactionManager :=
  upd_tm_stats (λ _, TMStats_zero) m.

(** [std::lock_guard<std::mutex> lock(mutex_);] around [f]. *)
Definition with_mutex {A} (f : TransactionManager → option (TransactionManager * A))
    (m : TransactionManager) : option (TransactionManager * A) :=
  if tm_mutex m then None
  else '(m, a) ← f (set_mutex true m); Some (set_mutex false m, a).

(** The object a pointer designates. *)
Definition deref (id : Z) (m : TransactionManager) : option Transaction :=
  match active m !! id with Some t => Some t | None => completed m !! id end.

(** A change made through a pointer. *)
Definition with_tx (id : Z) (f : Transaction → Transaction) (m : TransactionManager)
  : TransactionManager :=
  match active m !! id with
  | Some t => set_txs (<[id := f t]> (active m)) (completed m) m
  | None =>
      match completed m !! id with
      | Some t => set_txs (active m) (<[id := f t]> (completed m)) m
      | None => m
      end
  end.

(** [log_manager_->appendLogRecord(record)] *)
Definition log_append (now : Z) (r : LogRecord) (m : TransactionManager) : TransactionManager * Z :=
  let '(l, lsn) := appendRecord now r (tm_log m) in (set_log l m, lsn).

(** A record with its type and transaction set. *)
Definition tx_record (type : LogRecordType) (id : Z) : LogRecord :=
  mkLogRecord 0 type id INVALID_PAGE_ID 0 0 None 0 0.

(** The text and its terminating zero in a buffer of [data_length] bytes, a
    [uint16_t]; [None] when it does not fit. *)
Definition text_record (type : LogRecordType) (id : Z) (s : string) : option LogRecord :=
  let bs := string_bytes s ++ [0] in
  let len := wrap 16 (Z.of_nat (length bs)) in
  if decide (Z.of_nat (length bs) ≤ len)
  then Some (mkLogRecord 0 type id INVALID_PAGE_ID 0 len (Some bs) 0 0) else None.

Definition generateTransactionId (m : TransactionManager) : TransactionManager * Z :=
  (set_next_tx (wrap 64 (next_tx_id m + 1)) m, next_tx_id m).

Definition count_begin (s : TransactionManagerStats) : TransactionManagerStats :=
  let a := wrap 64 (st_active s + 1) in
  mkTMStats a (st_committed s) (st_aborted s) (st_deadlock s) (Z.max (st_max_concurrent s) a).
Definition count_commit (s : TransactionManagerStats) : TransactionManagerStats :=
  mkTMStats (wrap 64 (st_active s - 1)) (wrap 64 (st_committed s + 1)) (st_aborted s)
    (st_deadlock s) (st_max_concurrent s).
Definition count_abort (s : TransactionManagerStats) : TransactionManagerStats :=
  mkTMStats (wrap 64 (st_active s - 1)) (st_committed s) (wrap 64 (st_aborted s + 1))
    (st_deadlock s) (st_max_concurrent s).
Definition count_deadlock (s : TransactionManagerStats) : TransactionManagerStats :=
  mkTMStats (st_active s) (st_committed s) (st_aborted s) (wrap 64 (st_deadlock s + 1))
    (st_max_concurrent s).

Definition begin (now : Z) (iso : IsolationLevel) (mode : AccessMode)
  : TransactionManager → option (TransactionManager * option Z) :=
  with_mutex (λ m,
    if max_transactions m <=? Z.of_nat (size (active m)) then Some (m, None)
    else
      let '(m, id) := generateTransactionId m in
      let tx := Transaction_new id iso mode now in
      let '(m, lsn) := log_append now (tx_record LogRecordType.BEGIN id) m in
      let tx := setLastLSN lsn tx in
      let m := set_txs (<[id := tx]> (active m)) (completed m) m in
      Some (upd_tm_stats count_begin m, Some id)).

(** [std::min_element] with a strict comparison: the first smallest element. *)
Definition min_element {A} (less : A → A → bool) (l : list A) : option A :=
  match l with
  | [] => None
  | x :: l' => Some (foldl (λ best y, if less y best then y else best) x l')
  end.

Definition MAX_COMPLETED : Z := 10000.

Definition archiveCompletedTransaction (tx : Transaction) (m : TransactionManager)
  : TransactionManager :=
  let c := <[tx_id tx := tx]> (completed m) in
  let c :=
    if MAX_COMPLETED <? Z.of_nat (size c) then
      match min_element (λ a b, start_time a.2 <? start_time b.2) (map_to_list c) with
      | Some (oldest, _) => delete oldest c
      | None => c
      end
    else c in
  set_txs (active m) c m.

(** The end of a transaction: its record, its locks, its state, its archive. *)
Definition finish (now : Z) (id : Z) (type : LogRecordType) (s : TransactionState)
    (m : TransactionManager) : TransactionManager :=
  let '(m, lsn) := log_append now (tx_record type id) m in
  let m := with_tx id (setLastLSN lsn) m in
  let m := set_locks (releaseAllLocks id (tm_locks m)).1 m in
  let m := with_tx id (setState s) m in
  match active m !! id with
  | Some tx =>
      let m := archiveCompletedTransaction tx m in
      set_txs (delete id (active m)) (completed m) m
  | None => m
  end.

(** The modified pages of a transaction, flushed. *)
Definition flush_modified (t : Transaction) (p : BufferPool St) : BufferPool St :=
  foldl (λ p pid, flushPage pid p) p (map_to_list (modified_pages t)).*1.

(** The block of [commit] that holds the mutex. *)
Definition commit_locked (now id : Z) (m : TransactionManager) : option (TransactionManager * unit) :=
  t ← deref id m;
  let m := set_pool (flush_modified t (tm_pool m)) m in
  let m := finish now id LogRecordType.COMMIT TransactionState.COMMITTED m in
  Some (upd_tm_stats count_commit m, tt).

(** The statistics read the transaction once more at the end. *)
Definition commit (now : Z) (tx : option Z) (m : TransactionManager)
  : option (TransactionManager * StatusCode) :=
  match tx with
  | None => Some (m, StatusCode.ERROR)
  | Some id =>
      t ← deref id m;
      if decide (tx_state t = TransactionState.ACTIVE) then
        '(m, _) ← with_mutex (commit_locked now id) m;
        _ ← deref id m;
        Some (m, StatusCode.OK)
      else Some (m, StatusCode.ERROR)
  end.

Definition getTransaction (now id : Z) : TransactionManager → option (TransactionManager * option Z) :=
  with_mutex (λ m,
    match active m !! id with
    | Some t => Some (set_txs (<[id := updateAccessTime now t]> (active m)) (completed m) m, Some id)
    | None => Some (m, None)
    end).

(** The loop over the records of the transaction does nothing. *)
Definition undoTransaction (now id : Z) (m : TransactionManager)
  : option (TransactionManager * bool) :=
  '(m, tx) ← getTransaction now id m;
  match tx with
  | None => Some (m, false)
  | Some _ => Some (m, true)
  end.

Definition abort (now : Z) (tx : option Z) (m : TransactionManager)
  : option (TransactionManager * StatusCode) :=
  match tx with
  | None => Some (m, StatusCode.ERROR)
  | Some id =>
      t ← deref id m;
      if decide (tx_state t = TransactionState.ACTIVE) then
        with_mutex (λ m,
          '(m, undone) ← undoTransaction now id m;
          if negb undone then Some (m, StatusCode.ERROR)
          else
            let m := finish now id LogRecordType.ABORT TransactionState.ABORTED m in
            Some (upd_tm_stats count_abort m, StatusCode.OK)) m
      else Some (m, StatusCode.ERROR)
  end.

Definition rollback (now : Z) (tx : option Z) (m : TransactionManager)
  : option (TransactionManager * StatusCode) := abort now tx m.

(** The operations on savepoints do not take the mutex. *)
Definition on_active (tx : option Z) (m : TransactionManager)
    (f : Z → TransactionManager → option TransactionManager)
  : option (TransactionManager * StatusCode) :=
  match tx with
  | None => Some (m, StatusCode.ERROR)
  | Some id =>
      t ← deref id m;
      if decide (tx_state t = TransactionState.ACTIVE) then
        m ← f id m; Some (m, StatusCode.OK)
      else Some (m, StatusCode.ERROR)
  end.

Definition savepoint (now : Z) (tx : option Z) (name : string) (m : TransactionManager)
  : option (TransactionManager * StatusCode) :=
  on_active tx m (λ id m,
    let m := with_tx id (createSavepoint name) m in
    r ← text_record LogRecordType.SAVEPOINT id name;
    Some (log_append now r m).1).

Definition rollbackToSavepoint (now : Z) (tx : option Z) (name : string) (m : TransactionManager)
  : option (TransactionManager * StatusCode) :=
  on_active tx m (λ id m,
    let m := with_tx id (tx_rollbackToSavepoint name) m in
    r ← text_record LogRecordType.ROLLBACK_SAVEPOINT id name;
    Some (log_append now r m).1).

Definition releaseSavepoint (tx : option Z) (name : string) (m : TransactionManager)
  : option (TransactionManager * StatusCode) :=
  on_active tx m (λ id m, Some (with_tx id (tx_releaseSavepoint name) m)).

Definition getActiveTransactions (m : TransactionManager) : option (list Z) :=
  if tm_mutex m then None else Some (map_to_list (active m)).*1.

Definition validateTransaction (now : Z) (tx : option Z) (m : TransactionManager) : option bool :=
  match tx with
  | None => Some false
  | Some id =>
      t ← deref id m;
      Some (bool_decide (tx_state t = TransactionState.ACTIVE)
            && negb (isExpired (deadlock_timeout_ms m) now t))
  end.

(** ** Checkpoint and recovery *)

(** The ids of the active transactions, with commas. *)
Definition active_list (ids : list Z) : string :=
  foldl (λ s id, (if decide (s = "") then s else s +:+ ",") +:+ to_string id) "" ids.

Definition checkpoint (now : Z) : TransactionManager → option (TransactionManager * StatusCode) :=
  with_mutex (λ m,
    let m := set_pool (BufferPool.flushAll (tm_pool m)) m in
    r ← text_record LogRecordType.CHECKPOINT 0 (active_list (map_to_list (active m)).*1);
    let '(m, _) := log_append now r m in
    Some (set_log (LogManager.flushAll (tm_log m)) m, StatusCode.OK)).

Fixpoint undo_all (now : Z) (ids : list Z) (m : TransactionManager) : option TransactionManager :=
  match ids with
  | [] => Some m
  | id :: ids' => '(m, _) ← undoTransaction now id m; undo_all now ids' m
  end.

(** [order] is the iteration order of the map that [getLogs] returns; the result
    has the records of the redo pass with the status. *)
Definition recover (now : Z) (order : list (Z * LogRecord))
  : TransactionManager → option (TransactionManager * (StatusCode * list (Z * LogRecord))) :=
  with_mutex (λ m,
    let a := analysis_of order in
    let redone := redo_pass a order in
    m ← undo_all now (undo_list a) m; Some (m, (StatusCode.OK, redone))).

(** ** Deadlock detection *)

(** [visited] is the path; it is left as it is when a cycle is found. *)
Fixpoint checkDeadlock (fuel : nat) (lm : LockManager) (start : Z) (visited : list Z)
  : option (bool * list Z) :=
  if decide (start ∈ visited) then Some (true, visited)
  else
    match fuel with
    | O => None
    | S fuel' =>
        (fix visit (ws : list Z) : option (bool * list Z) :=
           match ws with
           | [] => Some (false, visited)
           | w :: ws' =>
               r ← checkDeadlock fuel' lm w (visited ++ [start]);
               if (r.1 : bool) then Some r else visit ws'
           end) (getWaitingTransactions lm start)
    end.

(** The victim of a cycle; [None] when a transaction of the path is not active. *)
Definition choose_victim (visited : list Z) (m : TransactionManager) : option Z :=
  ps ← mapM (λ id, t ← active m !! id; Some (id, priority_code (priority t))) visited;
  fst <$> min_element (λ a b, a.2 <? b.2) ps.

(** One turn of the detector over the active transactions; it holds the mutex. *)
Fixpoint detect (now : Z) (ids : list Z) (m : TransactionManager) : option TransactionManager :=
  match ids with
  | [] => Some m
  | id :: ids' =>
      r ← checkDeadlock (S (size (waiting_for (tm_locks m)))) (tm_locks m) id [];
      if (r.1 : bool) then
        victim ← choose_victim r.2 m;
        '(m, _) ← abort now (Some victim) m;
        detect now ids' (upd_tm_stats count_deadlock m)
      else detect now ids' m
  end.

Fixpoint cleanup (now : Z) (ids : list Z) (m : TransactionManager) : option TransactionManager :=
  match ids with
  | [] => Some m
  | id :: ids' =>
      t ← active m !! id;
      if isExpired (deadlock_timeout_ms m) now t then
        '(m, _) ← abort now (Some id) m;
        cleanup now ids' (set_txs (delete id (active m)) (completed m) m)
      else cleanup now ids' m
  end.

Definition cleanupExpiredTransactions (now : Z) (m : TransactionManager) : option TransactionManager :=
  cleanup now (map_to_list (active m)).*1 m.

(** One turn of the loop of the detector's thread. *)
Definition detectDeadlocks (now : Z) : TransactionManager → option (TransactionManager * unit) :=
  with_mutex (λ m,
    m ← detect now (map_to_list (active m)).*1 m;
    m ← cleanupExpiredTransactions now m; Some (m, tt)).

(** The destructor aborts the transactions that are still active. *)
Fixpoint destroy (now : Z) (ids : list Z) (m : TransactionManager) : option TransactionManager :=
  match ids with
  | [] => Some m
  | id :: ids' =>
      t ← active m !! id;
      if decide (tx_state t = TransactionState.ACTIVE) then
        '(m, _) ← abort now (Some id) m; destroy now ids' m
      else destroy now ids' m
  end.

Definition TransactionManager_destroy (now : Z) (m : TransactionManager) : option TransactionManager :=
  destroy now (map_to_list (active m)).*1 m.

End Manager.
Arguments TransactionManager : clear implicits.
