(* ===== verification/TransactionProofs.v ===== *)
(** * TransactionProofs: correctness of the transaction manager

    The invariant of the maps of transactions, the effect of commit on the log, the
    locks and the maps, the calls that never return, recovery, and the agreement of
    the two deadlock detectors. *)

From stdpp Require Import gmap strings list sorting.
From S2P Require Import Prelude CxxString Types Page FileManager BufferPool BufferPoolProofs.
From S2P Require Import LockManager LogManager LogProofs TransactionManager.

Open Scope Z_scope.

Section Manager.
Context {St : Type} `{PageStore St}.
Implicit Types m : TransactionManager St.

(** ** The invariant *)

(** The transactions of a map under their ids, in one state, with ids given out. *)
Definition txs_ok (s : TransactionState) (next : Z) (txs : gmap Z Transaction) : Prop :=
  map_Forall (λ id t, tx_id t = id ∧ tx_state t = s ∧ 0 < id < next) txs.

Record tm_ok m : Prop := mk_tm_ok {
  ok_mutex : tm_mutex m = false;
  ok_active : txs_ok TransactionState.ACTIVE (next_tx_id m) (active m);
  ok_completed : txs_ok TransactionState.COMMITTED (next_tx_id m) (completed m);
  ok_disjoint : active m ##ₘ completed m;
  ok_next : 0 < next_tx_id m;
  ok_archive : Z.of_nat (size (completed m)) ≤ MAX_COMPLETED
}.

(** The parts of a manager that the invariant is about. *)
Definition same_txs m m' : Prop :=
  active m' = active m ∧ completed m' = completed m ∧ next_tx_id m' = next_tx_id m ∧
  tm_mutex m' = tm_mutex m.

Lemma same_txs_ok m m' : same_txs m m' → tm_ok m → tm_ok m'.
Proof. intros (Ha & Hc & Hn & Hm) []. constructor; rewrite ?Ha, ?Hc, ?Hn, ?Hm; done. Qed.

Lemma log_append_txs now r m m' lsn :
  log_append now r m = (m', lsn) →
  same_txs m m' ∧ tm_pool m' = tm_pool m ∧ tm_locks m' = tm_locks m ∧
  tm_stats m' = tm_stats m ∧ max_transactions m' = max_transactions m ∧
  deadlock_timeout_ms m' = deadlock_timeout_ms m ∧
  (tm_log m', lsn) = appendRecord now r (tm_log m).
Proof.
  unfold log_append. destruct (appendRecord now r (tm_log m)) as [l lsn'].
  intros. by simplify_eq.
Qed.

Lemma with_tx_active id f t m :
  active m !! id = Some t → with_tx id f m = set_txs (<[id := f t]> (active m)) (completed m) m.
Proof. unfold with_tx. by intros ->. Qed.

(** Changes of an active transaction that keep its id and its state. *)
Lemma with_tx_ok id f m :
  (∀ t, tx_id (f t) = tx_id t ∧ tx_state (f t) = tx_state t) → tm_ok m → tm_ok (with_tx id f m).
Proof.
  intros Hf [Hm Ha Hc Hd Hn Hs]. unfold with_tx.
  destruct (active m !! id) as [t|] eqn:Hid; [|destruct (completed m !! id) as [t|] eqn:Hid'; [|done]].
  - constructor; cbn; [done| |done| |done|done].
    + apply map_Forall_insert_2; [|done]. destruct (Hf t) as [-> ->]. by apply (Ha id t).
    + apply map_disjoint_insert_l_2; [|done]. by eapply map_disjoint_Some_l.
  - constructor; cbn; [done|done| | |done|].
    + apply map_Forall_insert_2; [|done]. destruct (Hf t) as [-> ->]. by apply (Hc id t).
    + by apply map_disjoint_insert_r_2.
    + by rewrite map_size_insert_Some by done.
Qed.

Lemma min_element_elem {A} (less : A → A → bool) l x : min_element less l = Some x → x ∈ l.
Proof.
  destruct l as [|y l]; [done|]. cbn [min_element]. intros Hx. apply (inj Some) in Hx as <-. revert y.
  induction l as [|z l IH]; intros y; cbn [foldl]; [apply elem_of_cons; auto|].
  pose proof (IH (if less z y then z else y)) as He. rewrite !elem_of_cons in *.
  destruct He as [He|He]; [|auto]. rewrite He. destruct (less z y); auto.
Qed.

Lemma min_element_Some {A} (less : A → A → bool) l : l ≠ [] → is_Some (min_element less l).
Proof. destruct l; [done|]. cbn. eauto. Qed.

(** The archive of a transaction that has left the map of active ones. *)
Lemma archive_spec tx m :
  let c := completed (archiveCompletedTransaction tx m) in
  same_txs (set_txs (active m) c m) (archiveCompletedTransaction tx m) ∧
  (Z.of_nat (size (completed m)) ≤ MAX_COMPLETED → Z.of_nat (size c) ≤ MAX_COMPLETED) ∧
  (∀ id t, c !! id = Some t → <[tx_id tx := tx]> (completed m) !! id = Some t) ∧
  (Z.of_nat (size (completed m)) < MAX_COMPLETED → c = <[tx_id tx := tx]> (completed m)).
Proof.
  unfold archiveCompletedTransaction. cbn. split; [done|].
  set (c := <[tx_id tx := tx]> (completed m)).
  assert (size c ≤ S (size (completed m)))%nat as Hsz.
  { unfold c. rewrite map_size_insert. destruct (completed m !! tx_id tx); cbn; lia. }
  destruct (Z.ltb_spec MAX_COMPLETED (Z.of_nat (size c))) as [Hgt|Hle].
  2:{ split_and!; [done|done|done]. }
  destruct (min_element_Some (λ a b : Z * Transaction, start_time a.2 <? start_time b.2) (map_to_list c))
    as [[oldest t] Hold].
  { intros He%(f_equal length). rewrite length_map_to_list in He. cbn in He. unfold MAX_COMPLETED in *. lia. }
  rewrite Hold. apply min_element_elem, elem_of_map_to_list in Hold.
  split_and!.
  - intros Hb. rewrite map_size_delete, Hold. cbn. lia.
  - intros id t' Ht. by apply lookup_delete_Some in Ht as [_ Ht].
  - lia.
Qed.

Lemma archive_completed tx m1 m2 :
  completed m1 = completed m2 →
  completed (archiveCompletedTransaction tx m1) = completed (archiveCompletedTransaction tx m2).
Proof. unfold archiveCompletedTransaction. cbn [completed set_txs]. by intros ->. Qed.

(** The end of an active transaction. *)
Lemma finish_active now id type s t m :
  active m !! id = Some t →
  ∃ lsn, let m' := finish now id type s m in
    let t' := setState s (setLastLSN lsn t) in
    active m' = delete id (active m) ∧ completed m' = completed (archiveCompletedTransaction t' m) ∧
    next_tx_id m' = next_tx_id m ∧ tm_mutex m' = tm_mutex m ∧ tm_pool m' = tm_pool m ∧
    tm_locks m' = (releaseAllLocks id (tm_locks m)).1 ∧
    (tm_log m', lsn) = appendRecord now (tx_record type id) (tm_log m).
Proof.
  intros Ht. unfold finish. destruct (log_append now (tx_record type id) m) as [m1 lsn] eqn:Hl.
  apply log_append_txs in Hl as ((Ha & Hc & Hn & Hm) & Hp & Hk & _ & _ & _ & Hlog). exists lsn.
  rewrite <- Ha in Ht. rewrite (with_tx_active _ _ _ _ Ht).
  set (m2 := set_locks _ _).
  assert (active m2 !! id = Some (setLastLSN lsn t)) as Ht2 by apply lookup_insert_eq.
  rewrite (with_tx_active _ _ _ _ Ht2). cbn. rewrite lookup_insert_eq. cbn.
  rewrite !insert_insert_eq, delete_insert_eq, Ha, Hc, Hk. done.
Qed.

Lemma deref_active id t m : active m !! id = Some t → deref id m = Some t.
Proof. unfold deref. by intros ->. Qed.

Lemma set_mutex_ok m b : tm_ok (set_mutex false (set_mutex b m)) ↔ tm_ok (set_mutex false m).
Proof. done. Qed.

Lemma with_mutex_free {A} (f : TransactionManager St → option (TransactionManager St * A)) m m1 a :
  tm_mutex m = false → f (set_mutex true m) = Some (m1, a) →
  with_mutex f m = Some (set_mutex false m1, a).
Proof. unfold with_mutex. by intros -> ->. Qed.

Lemma commit_locked_active now id t m :
  active m !! id = Some t →
  ∃ lsn m', let t' := setState TransactionState.COMMITTED (setLastLSN lsn t) in
    commit_locked now id m = Some (m', tt) ∧
    active m' = delete id (active m) ∧ completed m' = completed (archiveCompletedTransaction t' m) ∧
    next_tx_id m' = next_tx_id m ∧ tm_pool m' = flush_modified t (tm_pool m) ∧
    tm_locks m' = (releaseAllLocks id (tm_locks m)).1 ∧
    (tm_log m', lsn) = appendRecord now (tx_record LogRecordType.COMMIT id) (tm_log m).
Proof.
  intros Ht. unfold commit_locked. rewrite (deref_active _ _ _ Ht). cbn [mbind option_bind].
  set (m0 := set_pool _ m). assert (active m0 !! id = Some t) as Ht0 by exact Ht.
  assert (completed m0 = completed m ∧ active m0 = active m ∧ tm_locks m0 = tm_locks m ∧
    tm_log m0 = tm_log m ∧ next_tx_id m0 = next_tx_id m ∧ tm_pool m0 = flush_modified t (tm_pool m))
    as (E1 & E2 & E3 & E4 & E5 & E6) by done.
  clearbody m0.
  destruct (finish_active now id LogRecordType.COMMIT TransactionState.COMMITTED t m0 Ht0)
    as (lsn & Ha & Hc & Hn & _ & Hp & Hk & Hl).
  rewrite (archive_completed _ _ m E1) in Hc. rewrite E2 in Ha. rewrite E3 in Hk. rewrite E4 in Hl.
  rewrite E5 in Hn. rewrite E6 in Hp.
  set (m1 := finish _ _ _ _ m0) in *. clearbody m1.
  exists lsn, (upd_tm_stats count_commit m1). split; [reflexivity|]. split_and!; assumption.
Qed.

(** What commit does to an active transaction. *)
Lemma commit_active now id t m :
  tm_ok m → active m !! id = Some t →
  ∃ lsn m', let t' := setState TransactionState.COMMITTED (setLastLSN lsn t) in
    commit now (Some id) m = (_ ← completed m' !! id; Some (m', StatusCode.OK)) ∧
    active m' = delete id (active m) ∧ completed m' = completed (archiveCompletedTransaction t' m) ∧
    next_tx_id m' = next_tx_id m ∧ tm_mutex m' = false ∧ tm_pool m' = flush_modified t (tm_pool m) ∧
    tm_locks m' = (releaseAllLocks id (tm_locks m)).1 ∧
    (tm_log m', lsn) = appendRecord now (tx_record LogRecordType.COMMIT id) (tm_log m).
Proof.
  intros Hok Ht. destruct (ok_active _ Hok id t Ht) as (Hid & Hs & _).
  destruct (commit_locked_active now id t (set_mutex true m) Ht)
    as (lsn & m1 & He & Ha & Hc & Hn & Hp & Hk & Hl).
  rewrite (archive_completed _ _ m) in Hc by reflexivity.
  cbn [active tm_pool tm_locks tm_log next_tx_id set_mutex] in Ha, Hn, Hp, Hk, Hl.
  exists lsn, (set_mutex false m1). split; [|split_and!; (reflexivity || assumption)].
  unfold commit. rewrite (deref_active _ _ _ Ht). cbn [mbind option_bind].
  rewrite decide_True by exact Hs.
  rewrite (with_mutex_free _ _ _ _ (ok_mutex _ Hok) He). cbn [mbind option_bind].
  unfold deref. cbn [active completed set_mutex]. by rewrite Ha, lookup_delete_eq.
Qed.

Lemma delete_txs_ok s next id txs : txs_ok s next txs → txs_ok s next (delete id txs).
Proof. intros Ht. by apply map_Forall_delete. Qed.

Lemma commit_ok now tx m m' s : commit now tx m = Some (m', s) → tm_ok m → tm_ok m'.
Proof.
  intros Hcm Hok. destruct tx as [id|]; [|cbn in Hcm; by simplify_eq].
  destruct (active m !! id) as [t|] eqn:Ht.
  - destruct (commit_active now id t m Hok Ht) as (lsn & m1 & He & Ha & Hc & Hn & Hm & _).
    rewrite He in Hcm. destruct (completed m1 !! id); [|done]. cbn in Hcm. simplify_eq.
    destruct (ok_active _ Hok id t Ht) as (Hid & Hs & Hb).
    destruct (archive_spec (setState TransactionState.COMMITTED (setLastLSN lsn t)) m)
      as (_ & Hsz & Hin & _). rewrite <- Hc in Hsz, Hin. cbn in Hin. rewrite Hid in Hin.
    destruct Hok as [Hmx Hac Hcm Hdj Hnx Har].
    constructor; rewrite ?Ha, ?Hn; [done|by apply delete_txs_ok| | |done|by apply Hsz].
    + intros id' t' Ht'%Hin. apply lookup_insert_Some in Ht' as [[<- <-]|[_ Ht']]; [done|].
      by apply (Hcm id' t').
    + apply map_disjoint_spec. intros id' t1 t2 [Hne H1]%lookup_delete_Some H2%Hin.
      rewrite lookup_insert_ne in H2 by done. by eapply map_disjoint_spec.
  - unfold commit, deref in Hcm. rewrite Ht in Hcm. destruct (completed m !! id) as [t|] eqn:Hc; [|done].
    cbn in Hcm. destruct (ok_completed _ Hok id t Hc) as (_ & Hs & _).
    rewrite decide_False in Hcm by congruence. by simplify_eq.
Qed.

Lemma begin_ok now iso mode m m' r :
  next_tx_id m < 2 ^ 64 - 1 → begin now iso mode m = Some (m', r) → tm_ok m → tm_ok m'.
Proof.
  intros Hb Hbg [Hmx Ha Hc Hd Hn Hs]. unfold begin, with_mutex in Hbg. rewrite Hmx in Hbg.
  destruct (Z.leb_spec (max_transactions (set_mutex true m)) (Z.of_nat (size (active (set_mutex true m)))));
    [cbn in Hbg; by simplify_eq|].
  cbn [generateTransactionId] in Hbg.
  destruct (log_append _ _ _) as [m1 lsn] eqn:Hl.
  apply log_append_txs in Hl as ((Ha1 & Hc1 & Hn1 & Hm1) & _). cbn in *. simplify_eq.
  rewrite wrap_small in Hn1 by (unfold fits; lia).
  assert (∀ id t, active m !! id = Some t → id ≠ next_tx_id m) as Hfa.
  { intros id t (_ & _ & ?)%Ha. lia. }
  assert (∀ id t, completed m !! id = Some t → id ≠ next_tx_id m) as Hfc.
  { intros id t (_ & _ & ?)%Hc. lia. }
  constructor; cbn; rewrite ?Ha1, ?Hc1, ?Hn1; [done| | | |lia|done].
  - apply map_Forall_insert_2; [cbn; split_and!; [done|done|lia|lia]|].
    eapply map_Forall_impl; [exact Ha|]. cbn. intros id t (? & ? & ?). split_and!; [done|done|lia|lia].
  - eapply map_Forall_impl; [exact Hc|]. cbn. intros id t (? & ? & ?). split_and!; [done|done|lia|lia].
  - apply map_disjoint_insert_l_2; [|done]. apply eq_None_not_Some. intros [t Ht]. by eapply Hfc.
Qed.

Lemma on_active_ok tx f m m' s :
  (∀ id m1 m2, f id m1 = Some m2 → tm_ok m1 → tm_ok m2) →
  on_active tx m f = Some (m', s) → tm_ok m → tm_ok m'.
Proof.
  intros Hf Ho Hok. unfold on_active in Ho. destruct tx as [id|]; [|by simplify_eq].
  destruct (deref id m) as [t|]; [|done]. cbn [mbind option_bind] in Ho.
  case_decide; [|by simplify_eq]. destruct (f id m) as [m1|] eqn:Hm1; [|done].
  cbn in Ho. simplify_eq. eauto.
Qed.

Lemma log_append_ok now r m : tm_ok m → tm_ok (log_append now r m).1.
Proof.
  destruct (log_append now r m) as [m1 lsn] eqn:Hl. apply log_append_txs in Hl as [Hs _].
  by apply same_txs_ok.
Qed.

Lemma getTransaction_ok now id m m' r : getTransaction now id m = Some (m', r) → tm_ok m → tm_ok m'.
Proof.
  intros Hg Hok. unfold getTransaction, with_mutex in Hg. rewrite (ok_mutex _ Hok) in Hg. cbn in Hg.
  destruct (active m !! id) as [t|] eqn:Ht; cbn in Hg; simplify_eq.
  - pose proof (with_tx_ok id (updateAccessTime now) m (λ t, conj eq_refl eq_refl) Hok) as Hw.
    rewrite (with_tx_active _ _ _ _ Ht) in Hw. destruct Hw. by constructor.
  - destruct Hok. by constructor.
Qed.

Lemma checkpoint_ok now m m' s : checkpoint now m = Some (m', s) → tm_ok m → tm_ok m'.
Proof.
  intros Hc Hok. unfold checkpoint, with_mutex in Hc. rewrite (ok_mutex _ Hok) in Hc.
  destruct (text_record _ _ _) as [r|]; [|done]. cbn [mbind option_bind] in Hc.
  destruct (log_append now r _) as [m1 lsn] eqn:Hl. apply log_append_txs in Hl as [(Ha & Hcc & Hn & Hm) _].
  cbn in *. simplify_eq. destruct Hok.
  constructor; cbn; rewrite ?Ha, ?Hcc, ?Hn; done.
Qed.

(** ** Calls that never return *)

(** [undoTransaction] is called with the mutex held, and takes it again. *)
Lemma undo_blocks now id m : tm_mutex m = true → undoTransaction now id m = None.
Proof. unfold undoTransaction, getTransaction, with_mutex. by intros ->. Qed.

Lemma abort_blocks now id t m :
  deref id m = Some t → tx_state t = TransactionState.ACTIVE → abort now (Some id) m = None.
Proof.
  intros Ht Hs. unfold abort. rewrite Ht. cbn [mbind option_bind]. rewrite decide_True by done.
  unfold with_mutex. destruct (tm_mutex m); [done|]. by rewrite undo_blocks.
Qed.

Definition all_active m : Prop :=
  map_Forall (λ _ t, tx_state t = TransactionState.ACTIVE) (active m).

Lemma tm_ok_all_active m : tm_ok m → all_active m.
Proof. intros Hok id t (_ & Hs & _)%(ok_active _ Hok). done. Qed.

Lemma abort_active now id t m :
  all_active m → active m !! id = Some t → abort now (Some id) m = None.
Proof. intros Ha Ht. eapply abort_blocks; [by apply deref_active|by apply (Ha id t)]. Qed.

Lemma choose_victim_active visited m v : choose_victim visited m = Some v → is_Some (active m !! v).
Proof.
  unfold choose_victim. destruct (mapM _ visited) as [ps|] eqn:Hps; [|done]. cbn.
  destruct (min_element _ ps) as [[v' c]|] eqn:Hmin; [|done]. cbn. intros [= ->].
  apply min_element_elem in Hmin. apply mapM_Some_1 in Hps.
  apply list_elem_of_lookup in Hmin as [i Hi].
  destruct (Forall2_lookup_r _ _ _ _ _ Hps Hi) as (x & _ & Hx).
  destruct (active m !! x) as [t|] eqn:Ht; [|done]. cbn in Hx. simplify_eq. eauto.
Qed.

Lemma detect_unchanged now ids m :
  all_active m → detect now ids m = None ∨ detect now ids m = Some m.
Proof.
  intros Ha. induction ids as [|id ids IH]; cbn [detect]; [by right|].
  destruct (checkDeadlock _ _ _ _) as [[[] v]|]; cbn [mbind option_bind fst snd]; [|done|by left].
  destruct (choose_victim v m) as [w|] eqn:Hw; [|by left].
  apply choose_victim_active in Hw as [t Ht]. left. cbn [mbind option_bind]. by rewrite (abort_active now w t m Ha Ht).
Qed.

Lemma cleanup_expired now ids id t m :
  all_active m → id ∈ ids → active m !! id = Some t →
  isExpired (deadlock_timeout_ms m) now t = true → cleanup now ids m = None.
Proof.
  intros Ha Hin Ht He. induction ids as [|id' ids IH]; [by apply elem_of_nil in Hin|].
  cbn [cleanup]. destruct (active m !! id') as [t'|] eqn:Ht'; [|done]. cbn [mbind option_bind].
  destruct (isExpired _ now t') eqn:He'; [by rewrite (abort_active now _ t' m Ha Ht')|].
  apply elem_of_cons in Hin as [->|Hin]; [congruence|by apply IH].
Qed.

Lemma destroy_blocks now ids id t m :
  all_active m → id ∈ ids → active m !! id = Some t → destroy now ids m = None.
Proof.
  intros Ha Hin Ht. destruct ids as [|id' ids]; [by apply elem_of_nil in Hin|]. cbn [destroy].
  destruct (active m !! id') as [t'|] eqn:Ht'; [|done]. cbn [mbind option_bind].
  rewrite decide_True by (by apply (Ha id' t')).
  by rewrite (abort_active now _ t' m Ha Ht').
Qed.

Lemma active_listed id t m : active m !! id = Some t → id ∈ (map_to_list (active m)).*1.
Proof. intros Ht. apply list_elem_of_fmap. exists (id, t). by rewrite elem_of_map_to_list. Qed.

Lemma detectDeadlocks_expired now id t m :
  all_active m → active m !! id = Some t → isExpired (deadlock_timeout_ms m) now t = true →
  detectDeadlocks now m = None.
Proof.
  intros Hok Ht He. unfold detectDeadlocks, with_mutex. destruct (tm_mutex m); [done|].
  destruct (detect_unchanged now (map_to_list (active (set_mutex true m))).*1 (set_mutex true m) Hok)
    as [->| ->]; [done|]. cbn [mbind option_bind]. unfold cleanupExpiredTransactions.
  by rewrite (cleanup_expired now _ id t (set_mutex true m)) by (done || by eapply active_listed).
Qed.

(** No call that aborts an active transaction returns: abort, rollback and the
    destructor, and the turn of the deadlock detector that finds an active
    transaction expired, wait for a mutex they hold. *)
Theorem abort_never_returns now id t m :
  tm_ok m → active m !! id = Some t →
  abort now (Some id) m = None ∧ rollback now (Some id) m = None ∧
  TransactionManager_destroy now m = None ∧
  (isExpired (deadlock_timeout_ms m) now t = true → detectDeadlocks now m = None).
Proof.
  intros Hok%tm_ok_all_active Ht.
  split_and!; [by eapply abort_active|by eapply abort_active|eapply destroy_blocks; by eauto using active_listed|].
  intros He. by eapply detectDeadlocks_expired.
Qed.

(** ** Recovery *)

(** What a record says of the state of transaction [tx]. *)
Definition status_of (tx : Z) (kr : Z * LogRecord) : option TransactionState :=
  if decide (rec_tx kr.2 = tx) then
    match rec_type kr.2 with
    | LogRecordType.BEGIN => Some TransactionState.ACTIVE
    | LogRecordType.COMMIT => Some TransactionState.COMMITTED
    | LogRecordType.ABORT => Some TransactionState.ABORTED
    | _ => None
    end
  else None.

(** The last state that the records since the last checkpoint give to [tx], in the
    order in which they are visited. *)
Definition last_status (tx : Z) (order : list (Z * LogRecord)) : option TransactionState :=
  last (omap (status_of tx) (since (last_checkpoint_lsn order) order)).

Lemma analyse_status tx a kr :
  tx_states (analyse a kr) !! tx =
  match status_of tx kr with Some s => Some s | None => tx_states a !! tx end.
Proof.
  destruct kr as [lsn r]. unfold status_of, analyse. cbn [fst snd].
  destruct (decide (rec_tx r = tx)) as [He|He].
  - cbn [snd] in He. rewrite He. destruct (rec_type r); cbn [tx_states]; rewrite ?lookup_insert_eq; done.
  - cbn [snd] in He. destruct (rec_type r); cbn [tx_states]; rewrite ?lookup_insert_ne; done.
Qed.

Lemma analysis_status tx order : tx_states (analysis_of order) !! tx = last_status tx order.
Proof.
  unfold analysis_of, last_status. generalize (since (last_checkpoint_lsn order) order). intros l.
  induction l as [|kr l IH] using rev_ind; [done|].
  rewrite foldl_app. cbn [foldl]. rewrite analyse_status, IH, omap_app, last_app. cbn.
  by destruct (status_of tx kr).
Qed.

Lemma undo_list_nil a :
  undo_list a = [] ↔ ∀ tx, tx_states a !! tx ≠ Some TransactionState.ACTIVE.
Proof.
  unfold undo_list. split.
  - intros Hn tx Htx. assert (tx ∈ merge_sort (later_lsn a)
      (filter (λ kr, kr.2 = TransactionState.ACTIVE) (map_to_list (tx_states a))).*1) as Hin.
    { rewrite merge_sort_Permutation. apply list_elem_of_fmap. exists (tx, TransactionState.ACTIVE).
      by rewrite list_elem_of_filter, elem_of_map_to_list. }
    rewrite Hn in Hin. by apply elem_of_nil in Hin.
  - intros Hall. apply Permutation_nil_r. rewrite merge_sort_Permutation.
    destruct (filter _ _) as [|[tx s] l] eqn:Hf; [done|].
    assert ((tx, s) ∈ filter (λ kr, kr.2 = TransactionState.ACTIVE) (map_to_list (tx_states a))) as Hin
      by (rewrite Hf; by left).
    apply list_elem_of_filter in Hin as [Hs Hin%elem_of_map_to_list]. cbn in Hs. subst s.
    by destruct (Hall tx).
Qed.

Lemma set_mutex_same m : tm_mutex m = false → set_mutex false (set_mutex true m) = m.
Proof. destruct m. cbn. by intros ->. Qed.

(** In the order of the LSNs, the LSN noted for a page is that of its last record. *)
Lemma analysis_pages l kr :
  StronglySorted (λ x y : Z * LogRecord, x.1 < y.1) l → kr ∈ l →
  redoTransaction kr.2 = true → rec_page kr.2 ≠ INVALID_PAGE_ID →
  ∃ lsn, page_lsns (foldl analyse (mkAnalysis ∅ ∅ ∅) l) !! rec_page kr.2 = Some lsn ∧ kr.1 ≤ lsn.
Proof.
  intros Hs Hin Hd Hp. induction l as [|x l IH] using rev_ind; [by apply elem_of_nil in Hin|].
  apply StronglySorted_app in Hs as (Hlt & Hs & _). rewrite foldl_app. cbn [foldl].
  set (a := foldl _ _ l) in *. destruct x as [k r]. unfold analyse.
  apply elem_of_app in Hin as [Hin| ->%list_elem_of_singleton].
  - destruct (IH Hs Hin) as (lsn & Hl & Hle).
    pose proof (Hlt kr (k, r) Hin (proj2 (list_elem_of_singleton _ _) eq_refl)) as Hk. cbn in Hk.
    destruct (rec_type r); cbn [page_lsns]; eauto; (destruct (decide _); [by eauto|]);
      (destruct (decide (rec_page r = rec_page kr.2)) as [->|];
       [rewrite lookup_insert_eq; eauto with lia|rewrite lookup_insert_ne by done; eauto]).
  - cbn in *. unfold redoTransaction in Hd.
    destruct (rec_type r); try done; cbn [page_lsns]; rewrite decide_False, lookup_insert_eq by done;
      eauto with lia.
Qed.

Lemma StronglySorted_filter {A} (R : A → A → Prop) (P : A → Prop) `{∀ x, Decision (P x)} l :
  StronglySorted R l → StronglySorted R (filter P l).
Proof.
  induction 1 as [|x l Hl IH Hx]; [constructor|]. rewrite filter_cons. case_decide; [|done].
  constructor; [done|]. rewrite Forall_forall in *. intros y [_ Hy]%list_elem_of_filter. auto.
Qed.

(** In the order of the LSNs, the redo pass redoes no change of a page. *)
Lemma redo_nothing order kr :
  StronglySorted (λ x y : Z * LogRecord, x.1 < y.1) order →
  kr ∈ redo_pass (analysis_of order) order → redoTransaction kr.2 = true →
  rec_page kr.2 = INVALID_PAGE_ID.
Proof.
  intros Hs [Hr Hin]%list_elem_of_filter Hd.
  destruct (decide (rec_page kr.2 = INVALID_PAGE_ID)) as [|Hp]; [done|exfalso].
  assert (StronglySorted (λ x y : Z * LogRecord, x.1 < y.1) (since (last_checkpoint_lsn order) order))
    as Hs' by (by apply StronglySorted_filter).
  destruct (analysis_pages _ _ Hs' Hin Hd Hp) as (lsn & Hl & Hle).
  unfold redoes in Hr. apply andb_true_iff in Hr as [_ Hr]. unfold analysis_of in Hr.
  rewrite Hl in Hr. lia.
Qed.

(** Recovery restores nothing: when some transaction is left active by the
    records since the last checkpoint, in the order in which the map of the log is
    visited, the call never returns; otherwise it returns OK and changes nothing,
    and in the order of the LSNs not even one change of a page is passed to
    [redoTransaction]. *)
Theorem recover_spec now order m :
  tm_mutex m = false →
  ((∀ tx, last_status tx order ≠ Some TransactionState.ACTIVE) →
   ∃ redone, recover now order m = Some (m, (StatusCode.OK, redone)) ∧
     (StronglySorted (λ x y : Z * LogRecord, x.1 < y.1) order →
      ∀ kr, kr ∈ redone → redoTransaction kr.2 = true → rec_page kr.2 = INVALID_PAGE_ID)) ∧
  (∀ tx, last_status tx order = Some TransactionState.ACTIVE → recover now order m = None).
Proof.
  intros Hm. unfold recover, with_mutex. rewrite Hm. split.
  - intros Hall. rewrite (proj2 (undo_list_nil _)).
    + exists (redo_pass (analysis_of order) order). cbn [undo_all mbind option_bind].
      rewrite set_mutex_same by done. split; [done|]. intros Hs kr. by apply redo_nothing.
    + intros tx. by rewrite analysis_status.
  - intros tx Htx. destruct (undo_list (analysis_of order)) as [|id ids] eqn:Hu.
    + rewrite undo_list_nil in Hu. destruct (Hu tx). by rewrite analysis_status.
    + cbn [undo_all]. by rewrite undo_blocks.
Qed.

(** ** Reachable managers *)

(** The calls of the interface; the pool and the lock manager are also used by
    other components, in any way. *)
Inductive tm_step : TransactionManager St → TransactionManager St → Prop :=
  | step_begin now iso mode m m' r :
      next_tx_id m < 2 ^ 64 - 1 → begin now iso mode m = Some (m', r) → tm_step m m'
  | step_commit now tx m m' s : commit now tx m = Some (m', s) → tm_step m m'
  | step_abort now tx m m' s : abort now tx m = Some (m', s) → tm_step m m'
  | step_savepoint now tx name m m' s : savepoint now tx name m = Some (m', s) → tm_step m m'
  | step_rollback_to now tx name m m' s :
      rollbackToSavepoint now tx name m = Some (m', s) → tm_step m m'
  | step_release tx name m m' s : releaseSavepoint tx name m = Some (m', s) → tm_step m m'
  | step_get now id m m' r : getTransaction now id m = Some (m', r) → tm_step m m'
  | step_checkpoint now m m' s : checkpoint now m = Some (m', s) → tm_step m m'
  | step_recover now order m m' s : recover now order m = Some (m', s) → tm_step m m'
  | step_detect now m m' : detectDeadlocks now m = Some (m', tt) → tm_step m m'
  | step_modify id page lsn m : tm_step m (with_tx id (addModifiedPage page lsn) m)
  | step_priority id p m : tm_step m (with_tx id (setPriority p) m)
  | step_max n m : tm_step m (setMaxTransactions n m)
  | step_timeout ms m : tm_step m (setDeadlockTimeout ms m)
  | step_reset m : tm_step m (TransactionManager.resetStats m)
  | step_pool p m : tm_step m (set_pool p m)
  | step_locks l m : tm_step m (set_locks l m).

Lemma abort_ok now tx m m' s : abort now tx m = Some (m', s) → tm_ok m → tm_ok m'.
Proof.
  intros Ha Hok. destruct tx as [id|]; [|cbn in Ha; by simplify_eq].
  destruct (active m !! id) as [t|] eqn:Ht.
  { rewrite (abort_active now id t m (tm_ok_all_active _ Hok) Ht) in Ha. done. }
  unfold abort, deref in Ha. rewrite Ht in Ha. destruct (completed m !! id) as [t|] eqn:Hc; [|done].
  destruct (ok_completed _ Hok id t Hc) as (_ & Hs & _).
  cbn [mbind option_bind] in Ha. rewrite decide_False in Ha by congruence. by simplify_eq.
Qed.

Lemma recover_ok now order m m' s : recover now order m = Some (m', s) → tm_ok m → tm_ok m'.
Proof.
  intros Hr Hok. unfold recover, with_mutex in Hr. rewrite (ok_mutex _ Hok) in Hr.
  destruct (undo_list _) as [|id ids]; cbn [undo_all] in Hr.
  - cbn [mbind option_bind] in Hr. rewrite set_mutex_same in Hr by apply Hok. by simplify_eq.
  - by rewrite undo_blocks in Hr.
Qed.

Lemma cleanup_unchanged now ids m :
  all_active m → cleanup now ids m = None ∨ cleanup now ids m = Some m.
Proof.
  intros Ha. induction ids as [|id ids IH]; [by right|]. cbn [cleanup].
  destruct (active m !! id) as [t|] eqn:Ht; [|by left]. cbn [mbind option_bind].
  destruct (isExpired _ now t); [|done]. left. by rewrite (abort_active now id t m Ha Ht).
Qed.

Lemma detect_ok now m m' : detectDeadlocks now m = Some (m', tt) → tm_ok m → tm_ok m'.
Proof.
  intros Hd Hok. unfold detectDeadlocks, with_mutex in Hd. rewrite (ok_mutex _ Hok) in Hd.
  assert (all_active (set_mutex true m)) as Ha by exact (tm_ok_all_active m Hok).
  destruct (detect_unchanged now (map_to_list (active (set_mutex true m))).*1 _ Ha) as [E|E];
    rewrite E in Hd; [done|]. cbn [mbind option_bind] in Hd. unfold cleanupExpiredTransactions in Hd.
  destruct (cleanup_unchanged now (map_to_list (active (set_mutex true m))).*1 _ Ha) as [E'|E'];
    rewrite E' in Hd; [done|]. cbn [mbind option_bind] in Hd.
  rewrite set_mutex_same in Hd by apply Hok. by simplify_eq.
Qed.

Lemma tm_step_ok m m' : tm_step m m' → tm_ok m → tm_ok m'.
Proof.
  assert (∀ now id type name m1 m2,
    (r ← text_record type id name; Some (log_append now r m1).1) = Some m2 → tm_ok m1 → tm_ok m2) as Hl.
  { intros now id type name m1 m2 Hr Hok. destruct (text_record type id name); [|done].
    cbn in Hr. simplify_eq. by apply log_append_ok. }
  assert (∀ name t, tx_id (tx_rollbackToSavepoint name t) = tx_id t ∧
    tx_state (tx_rollbackToSavepoint name t) = tx_state t) as Hrb.
  { intros name t. unfold tx_rollbackToSavepoint. by destruct (find_savepoint _ _) as [[??]|]. }
  assert (∀ name t, tx_id (tx_releaseSavepoint name t) = tx_id t ∧
    tx_state (tx_releaseSavepoint name t) = tx_state t) as Hrl.
  { intros name t. unfold tx_releaseSavepoint. by destruct (find_savepoint _ _) as [[??]|]. }
  destruct 1; eauto using begin_ok, commit_ok, abort_ok, getTransaction_ok, checkpoint_ok, recover_ok,
    detect_ok, with_tx_ok.
  - eapply on_active_ok; [|eassumption]. intros id m1 m2 H2 Hok. eapply Hl; [exact H2|].
    by apply with_tx_ok.
  - eapply on_active_ok; [|eassumption]. intros id m1 m2 H2 Hok. eapply Hl; [exact H2|].
    by apply with_tx_ok.
  - eapply on_active_ok; [|eassumption]. intros id m1 m2 H2 Hok. cbn beta in H2. simplify_eq. by apply with_tx_ok.
  - by intros [].
  - by intros [].
  - by intros [].
  - by intros [].
  - by intros [].
Qed.

Definition tm_reachable (m : TransactionManager St) : Prop :=
  ∃ pool log, rtc tm_step (TransactionManager_new pool log) m.

Lemma tm_reachable_ok m : tm_reachable m → tm_ok m.
Proof.
  intros (pool & log & Hr). apply (rtc_ind_r tm_ok (TransactionManager_new pool log)) in Hr; [done| |].
  - constructor; [done|apply map_Forall_empty|apply map_Forall_empty|apply map_disjoint_empty_l
      |done|done].
  - intros. by eapply tm_step_ok.
Qed.


(** ** Commit *)


Lemma append_in_buffer now r lm :
  Z.of_nat (length (write_buffer lm)) + (Z.of_nat LOG_RECORD_SIZE + data_length r) ≤ WRITE_BUFFER_SIZE →
  log_file (appendRecord now r lm).1 = log_file lm.
Proof.
  intros Hsz. unfold appendRecord. cbn [fst log_file set_log_stats].
  destruct (decide _); [done|].
  cbn [write_buffer set_log_buffer set_lsns]. destruct (Z.ltb_spec WRITE_BUFFER_SIZE
    (Z.of_nat (length (write_buffer lm)) + (Z.of_nat LOG_RECORD_SIZE + data_length r))); [lia|done].
Qed.

(** A commit that has returned OK is not durable: the log file is what it was
    before the call, as the COMMIT record stays in the buffer of the log. *)
Theorem commit_not_durable now id t m :
  tm_ok m → active m !! id = Some t → Z.of_nat (size (completed m)) < MAX_COMPLETED →
  Z.of_nat (length (write_buffer (tm_log m))) + Z.of_nat LOG_RECORD_SIZE ≤ WRITE_BUFFER_SIZE →
  ∃ m', commit now (Some id) m = Some (m', StatusCode.OK) ∧
    on_disk (tm_log m') = on_disk (tm_log m) ∧ log_file (tm_log m') = log_file (tm_log m).
Proof.
  intros Hok Ht Hsz Hbuf. destruct (ok_active _ Hok id t Ht) as (Hid & _ & _).
  destruct (commit_active now id t m Hok Ht) as (lsn & m' & He & _ & Hc & _ & _ & _ & _ & Hl).
  destruct (archive_spec (setState TransactionState.COMMITTED (setLastLSN lsn t)) m) as (_ & _ & _ & Hins).
  rewrite Hins in Hc by done. cbn [tx_id setState setLastLSN] in Hc. rewrite Hid in Hc.
  assert (log_file (tm_log m') = log_file (tm_log m)) as Hf.
  { rewrite <- (append_in_buffer now (tx_record LogRecordType.COMMIT id) (tm_log m)), <- Hl; [done|].
    cbn [data_length tx_record]. lia. }
  exists m'. split; [rewrite He, Hc, lookup_insert_eq; done|]. split; [|done].
  unfold on_disk. by rewrite Hf.
Qed.

(** ** Savepoints *)

Lemma find_fresh_savepoint name l sp :
  Forall (λ s, sp_name s ≠ name) l → sp_name sp = name →
  find_savepoint name (l ++ [sp]) = Some (l, []).
Proof.
  intros Hl Hsp. induction Hl as [|s l Hs Hl IH]; cbn [find_savepoint app].
  - by rewrite decide_True.
  - rewrite decide_False, IH by done. done.
Qed.

Lemma find_no_savepoint name l : Forall (λ s, sp_name s ≠ name) l → find_savepoint name l = None.
Proof.
  induction 1 as [|s l Hs Hl IH]; cbn [find_savepoint]; [done|]. by rewrite decide_False, IH by done.
Qed.

Lemma text_record_short type id name :
  Z.of_nat (String.length name) < 65535 → ∃ r, text_record type id name = Some r.
Proof.
  intros Hn. unfold text_record. rewrite length_app, length_string_bytes. cbn [length].
  rewrite wrap_small by (unfold fits; lia). rewrite decide_True by lia. eauto.
Qed.

Lemma rollback_create name t :
  Forall (λ s, sp_name s ≠ name) (savepoints t) →
  tx_rollbackToSavepoint name (createSavepoint name t) = t.
Proof.
  intros Hn. unfold tx_rollbackToSavepoint, createSavepoint. cbn [savepoints set_savepoints].
  rewrite find_fresh_savepoint by done. by destruct t.
Qed.

(** Rolling back to a savepoint removes it and restores no page: after a
    savepoint with a new name and a rollback to it the active transactions and the
    pool are what they were before the savepoint, so rolling back to it again has
    nothing to find. *)
Theorem savepoint_rollback now id t name m :
  active m !! id = Some t → tx_state t = TransactionState.ACTIVE →
  Forall (λ s, sp_name s ≠ name) (savepoints t) → Z.of_nat (String.length name) < 65535 →
  ∃ m1 m2, savepoint now (Some id) name m = Some (m1, StatusCode.OK) ∧
    active m1 = <[id := createSavepoint name t]> (active m) ∧
    rollbackToSavepoint now (Some id) name m1 = Some (m2, StatusCode.OK) ∧
    active m2 = active m ∧ tm_pool m2 = tm_pool m ∧ find_savepoint name (savepoints t) = None.
Proof.
  intros Ht Hs Hn Hlen. unfold savepoint, rollbackToSavepoint, on_active.
  rewrite (deref_active _ _ _ Ht). cbn [mbind option_bind]. rewrite decide_True by done.
  rewrite (with_tx_active _ _ _ _ Ht).
  destruct (text_record_short LogRecordType.SAVEPOINT id name Hlen) as [r1 ->]. cbn [mbind option_bind].
  destruct (log_append now r1 _) as [m1 l1] eqn:H1.
  apply log_append_txs in H1 as ((Ha1 & _) & Hp1 & _). cbn in Ha1, Hp1.
  assert (active m1 !! id = Some (createSavepoint name t)) as Ht1 by (rewrite Ha1; apply lookup_insert_eq).
  destruct (text_record_short LogRecordType.ROLLBACK_SAVEPOINT id name Hlen) as [r2 Hr2].
  destruct (log_append now r2 (with_tx id (tx_rollbackToSavepoint name) m1)) as [m2 l2] eqn:H2.
  exists m1, m2. split; [done|]. split; [done|].
  rewrite (deref_active _ _ _ Ht1). cbn [mbind option_bind]. rewrite decide_True by done.
  rewrite Hr2. cbn [mbind option_bind]. rewrite H2. split; [done|].
  apply log_append_txs in H2 as ((Ha2 & _) & Hp2 & _).
  rewrite (with_tx_active _ _ _ _ Ht1), rollback_create, Ha1 in Ha2 by done. cbn in Ha2.
  rewrite (with_tx_active _ _ _ _ Ht1) in Hp2. cbn in Hp2.
  split_and!; [|congruence|by apply find_no_savepoint].
  rewrite Ha2, insert_insert_eq. by apply insert_id.
Qed.

End Manager.

(** ** The two deadlock detectors *)

Lemma checkDeadlock_agree fuel lm start visited :
  fst <$> checkDeadlock fuel lm start visited =
  LockManager.checkDeadlock fuel lm (list_to_set visited) start.
Proof.
  revert start visited. induction fuel as [|fuel IH]; intros start visited;
    cbn [checkDeadlock LockManager.checkDeadlock].
  all: destruct (decide (start ∈ visited)) as [Hin|Hin];
    [rewrite decide_True by (by apply elem_of_list_to_set); done
    |rewrite decide_False by (by rewrite elem_of_list_to_set)].
  - done.
  - induction (getWaitingTransactions lm start) as [|w ws IHws]; [done|].
    specialize (IH w (visited ++ [start])).
    replace (list_to_set (visited ++ [start]) : gset Z) with ({[start]} ∪ list_to_set visited : gset Z)
      in IH by set_solver.
    destruct (checkDeadlock fuel lm w (visited ++ [start])) as [[[] v]|]; cbn in *; rewrite <- IH; done.
Qed.

(** The path of a cycle has no repetition and goes on from [visited] with [start]. *)
Lemma checkDeadlock_path fuel lm start visited v :
  checkDeadlock fuel lm start visited = Some (true, v) → NoDup visited →
  NoDup v ∧ (start ∉ visited → (visited ++ [start]) `prefix_of` v) ∧ visited `prefix_of` v.
Proof.
  revert start visited v. induction fuel as [|fuel IH]; intros start visited v; cbn [checkDeadlock];
    destruct (decide (start ∈ visited)) as [Hin|Hin]; intros Hc Hnd; simplify_eq; [done|done|].
  induction (getWaitingTransactions lm start) as [|w ws IHws]; [done|].
  destruct (checkDeadlock fuel lm w (visited ++ [start])) as [[[] v']|] eqn:Hw; cbn in Hc; [|auto|done].
  simplify_eq. destruct (IH _ _ _ Hw) as (Hv & _ & Hp).
  { apply NoDup_app. split_and!; [done| |apply NoDup_singleton].
    by intros x Hx ->%list_elem_of_singleton. }
  split_and!; [done|done|]. etransitivity; [by apply prefix_app_r|done].
Qed.

(** The detector of the transaction manager and the one of the lock manager
    agree on every state of the locks; the path that a cycle is reported with starts
    at the transaction and has no repetition. *)
Theorem detectors_agree lm tx :
  let found := checkDeadlock (S (size (waiting_for lm))) lm tx [] in
  fst <$> found = hasDeadlock lm tx ∧
  ∀ v, found = Some (true, v) → NoDup v ∧ head v = Some tx.
Proof.
  split; [apply checkDeadlock_agree|]. intros v Hv.
  destruct (checkDeadlock_path _ _ _ _ _ Hv) as (Hnd & Hp & _); [constructor|]. split; [done|].
  destruct (Hp (not_elem_of_nil tx)) as [r ->]. done.
Qed.

(** ** Witnesses *)

#[local] Instance store0 : PageStore FileManager := FileManager_store env0.

Definition tm0 : TransactionManager FileManager :=
  TransactionManager_new (BufferPool_new 1 fm_closed) LogManager_new.

(** One transaction has begun. *)
Definition tm1 : TransactionManager FileManager :=
  match begin 5 IsolationLevel.SERIALIZABLE AccessMode.READ_WRITE tm0 with
  | Some (m, _) => m
  | None => tm0
  end.

Definition t1 : Transaction :=
  setLastLSN 1 (Transaction_new 1 IsolationLevel.SERIALIZABLE AccessMode.READ_WRITE 5).

Lemma tm1_reachable : tm_reachable tm1.
Proof.
  exists (BufferPool_new 1 fm_closed), LogManager_new. apply rtc_once.
  by apply (step_begin 5 IsolationLevel.SERIALIZABLE AccessMode.READ_WRITE _ _ (Some 1)).
Qed.

Lemma tm1_ok : tm_ok tm1.
Proof. apply tm_reachable_ok, tm1_reachable. Qed.


Lemma abort_never_returns_witness :
  abort 6 (Some 1) tm1 = None ∧ detectDeadlocks 6000000000 tm1 = None.
Proof.
  destruct (abort_never_returns 6 1 t1 tm1 tm1_ok eq_refl) as (H1 & _).
  destruct (abort_never_returns 6000000000 1 t1 tm1 tm1_ok eq_refl) as (_ & _ & _ & H2).
  split; [exact H1|]. apply H2. reflexivity.
Defined.


Lemma commit_not_durable_witness :
  ∃ m', commit 7 (Some 1) tm1 = Some (m', StatusCode.OK) ∧
    on_disk (tm_log m') = on_disk (tm_log tm1) ∧ log_file (tm_log m') = log_file (tm_log tm1).
Proof.
  apply (commit_not_durable 7 1 t1 tm1 tm1_ok eq_refl); [reflexivity|].
  apply Z.leb_le. reflexivity.
Defined.

(** The log of a transaction that has begun and committed. *)
Definition begin1 : LogRecord := tx_record LogRecordType.BEGIN 1.
Definition commit1 : LogRecord := tx_record LogRecordType.COMMIT 1.

(** In one order of the visit recovery returns, in the other it never does. *)
Lemma recover_spec_witness :
  (∃ redone, recover 8 [(1, begin1); (2, commit1)] tm0 = Some (tm0, (StatusCode.OK, redone))) ∧
  recover 8 [(2, commit1); (1, begin1)] tm0 = None.
Proof.
  destruct (recover_spec 8 [(1, begin1); (2, commit1)] tm0 eq_refl) as [H1 _].
  destruct (recover_spec 8 [(2, commit1); (1, begin1)] tm0 eq_refl) as [_ H2].
  split; [|apply (H2 1); reflexivity].
  destruct H1 as (redone & H1 & _); [|exists redone; exact H1].
  intros tx. rewrite <- analysis_status.
  change (tx_states _) with (<[1 := TransactionState.COMMITTED]>
    (<[1 := TransactionState.ACTIVE]> (∅ : gmap Z TransactionState))).
  destruct (decide (tx = 1)) as [->|Hne]; [by rewrite lookup_insert_eq|].
  by rewrite !lookup_insert_ne.
Defined.

Lemma savepoint_rollback_witness :
  ∃ m1 m2, savepoint 7 (Some 1) "a" tm1 = Some (m1, StatusCode.OK) ∧
    active m1 = <[1 := createSavepoint "a" t1]> (active tm1) ∧
    rollbackToSavepoint 7 (Some 1) "a" m1 = Some (m2, StatusCode.OK) ∧
    active m2 = active tm1 ∧ tm_pool m2 = tm_pool tm1 ∧ find_savepoint "a" (savepoints t1) = None.
Proof.
  apply (savepoint_rollback 7 1 t1 "a" tm1); [reflexivity|reflexivity|constructor|reflexivity].
Defined.
