(* ===== verification/Detector.v ===== *)
(** * Detector: the thread of the transaction manager that looks for deadlocks

    [startDeadlockDetector], [stopDeadlockDetector] and the loop of [detectDeadlocks]
    (src/transaction/transaction_manager.cpp), with the constructor that starts the thread and
    the destructor that stops it and aborts what is still active, as a step relation.  A turn
    that does not come back leaves the thread stuck with the mutex locked.
    [deadlock_detector_running_] is read and written atomically here. *)

From stdpp Require Import gmap list.
From S2P Require Import Prelude CxxString Types Page FileManager BufferPool BufferPoolProofs LockManager LogManager LogProofs TransactionManager TransactionProofs.

Open Scope Z_scope.

(** Where the thread is: before the test of its loop, asleep, inside a turn that does not
    return, or at its end; [DNone] is not joinable. *)
Inductive detector_thread := DNone | DAtTest | DSleeping | DStuck | DEnded.

(** What the owner of the manager does: use it, wait in [join], abort the transactions, or be
    done. *)
Inductive manager_phase := Alive | Joining | Aborting | Destroyed.

Section Detector.
Context {St : Type} `{PageStore St}.

Record Detector := mkDetector {
  dt_tm : TransactionManager St;
  dt_running : bool;
  dt_thread : detector_thread;
  dt_phase : manager_phase
}.

(** [TransactionManager::TransactionManager] starts the thread. *)
Definition startDeadlockDetector (m : TransactionManager St) : Detector := mkDetector m true DAtTest Alive.

(** The thread goes to the next point of its loop. *)
Definition detector_turn (now : Z) (d : Detector) : option Detector :=
  match dt_thread d with
  | DAtTest => Some (mkDetector (dt_tm d) (dt_running d) (if dt_running d then DSleeping else DEnded) (dt_phase d))
  | DSleeping =>
      match detectDeadlocks now (dt_tm d) with
      | Some (m, _) => Some (mkDetector m (dt_running d) DAtTest (dt_phase d))
      | None => Some (mkDetector (set_mutex true (dt_tm d)) (dt_running d) DStuck (dt_phase d))
      end
  | DNone | DStuck | DEnded => None
  end.

(** [stopDeadlockDetector], which the destructor calls first: the request, and the return of
    [join]. *)
Definition stopDeadlockDetector (d : Detector) : Detector := mkDetector (dt_tm d) false (dt_thread d) Joining.
Definition detector_joined (d : Detector) : option Detector :=
  match dt_thread d with
  | DEnded | DNone => Some (mkDetector (dt_tm d) (dt_running d) DNone Aborting)
  | _ => None
  end.

(** The rest of the destructor. *)
Definition abort_remaining (now : Z) (d : Detector) : option Detector :=
  m ← TransactionManager_destroy now (dt_tm d); Some (mkDetector m (dt_running d) (dt_thread d) Destroyed).

(** While the manager is used its clients act between the turns; once the destructor runs
    there are no clients. *)
Inductive detector_step : Detector → Detector → Prop :=
  | detector_next now d d' : detector_turn now d = Some d' → detector_step d d'
  | detector_client d m' :
      dt_phase d = Alive → tm_step (dt_tm d) m' →
      detector_step d (mkDetector m' (dt_running d) (dt_thread d) Alive)
  | detector_stop d : dt_phase d = Alive → detector_step d (stopDeadlockDetector d)
  | detector_join d d' : dt_phase d = Joining → detector_joined d = Some d' → detector_step d d'
  | detector_abort now d d' : dt_phase d = Aborting → abort_remaining now d = Some d' → detector_step d d'.

(** ** What is proved *)

Lemma detectDeadlocks_active now (m m' : TransactionManager St) :
  all_active m → detectDeadlocks now m = Some (m', tt) → active m' = active m ∧ tm_mutex m' = false.
Proof.
  intros Ha Hd. unfold detectDeadlocks, with_mutex in Hd. destruct (tm_mutex m); [done|].
  destruct (detect_unchanged now (map_to_list (active (set_mutex true m))).*1 (set_mutex true m) Ha) as [E|E];
    rewrite E in Hd; [done|]. cbn [mbind option_bind] in Hd. unfold cleanupExpiredTransactions in Hd.
  destruct (cleanup_unchanged now (map_to_list (active (set_mutex true m))).*1 (set_mutex true m) Ha) as [E'|E'];
    rewrite E' in Hd; [done|]. cbn in Hd. by simplify_eq.
Qed.

Lemma detectDeadlocks_idle now (m : TransactionManager St) :
  active m = ∅ → tm_mutex m = false → ∃ m', detectDeadlocks now m = Some (m', tt) ∧ active m' = ∅ ∧ tm_mutex m' = false.
Proof.
  intros Ha Hm. unfold detectDeadlocks, with_mutex. rewrite Hm.
  assert (active (set_mutex true m) = ∅) as Ha' by done. unfold cleanupExpiredTransactions.
  rewrite Ha', map_to_list_empty. cbn [fmap list_fmap detect mbind option_bind].
  rewrite ?Ha', ?map_to_list_empty. cbn. eexists. split; [done|]. done.
Qed.

(** Nothing changes the transactions once the destructor runs. *)
Lemma destructor_step id t d d' :
  dt_phase d ≠ Alive → dt_phase d ≠ Destroyed → all_active (dt_tm d) → active (dt_tm d) !! id = Some t →
  detector_step d d' →
  dt_phase d' ≠ Alive ∧ dt_phase d' ≠ Destroyed ∧ all_active (dt_tm d') ∧ active (dt_tm d') !! id = Some t.
Proof.
  intros Hal Hde Ha Ht Hstep. destruct Hstep as [now d d' Hn|d m' Hp _|d Hp|d d' Hp Hj|now d d' Hp Hab]; [|done|done|..].
  - unfold detector_turn in Hn. destruct (dt_thread d); simplify_eq/=; [done|].
    destruct (detectDeadlocks now (dt_tm d)) as [[m []]|] eqn:Hd; simplify_eq/=; [|done].
    destruct (detectDeadlocks_active now _ _ Ha Hd) as [Hact _]. unfold all_active. by rewrite Hact.
  - unfold detector_joined in Hj. destruct (dt_thread d); by simplify_eq/=.
  - unfold abort_remaining, TransactionManager_destroy in Hab.
    rewrite (destroy_blocks now _ id t (dt_tm d) Ha) in Hab by (done || by eapply active_listed). done.
Qed.

(** (C15) The destructor of the transaction manager.  With a transaction that is still active it
    never completes: either a turn of the detector finds the transaction expired and waits for
    the mutex it holds, so that [join] never returns, or the destructor itself aborts the
    transaction and waits for its own mutex.  Without active transactions it completes,
    after two turns of the thread at most, and the thread has ended. *)
Theorem manager_destruction d :
  dt_phase d = Alive → tm_ok (dt_tm d) →
  (∀ id t d', active (dt_tm d) !! id = Some t → rtc detector_step (stopDeadlockDetector d) d' →
     dt_phase d' ≠ Destroyed) ∧
  (active (dt_tm d) = ∅ → dt_thread d ∈ [DAtTest; DSleeping] →
     ∃ n d', (n ≤ 4)%nat ∧ relations.nsteps detector_step n (stopDeadlockDetector d) d' ∧
       dt_phase d' = Destroyed ∧ dt_thread d' = DNone).
Proof.
  intros Hp Hok. split.
  - intros id t d' Ht Hsteps.
    assert (dt_phase (stopDeadlockDetector d) ≠ Alive ∧ dt_phase (stopDeadlockDetector d) ≠ Destroyed ∧
      all_active (dt_tm (stopDeadlockDetector d)) ∧ active (dt_tm (stopDeadlockDetector d)) !! id = Some t) as Hinv
      by (split_and!; [done|done|by apply tm_ok_all_active|done]).
    clear Ht Hp Hok. revert Hinv. induction Hsteps as [|d1 d2 d3 Hstep _ IH]; intros (H1 & H2 & H3 & H4); [done|].
    apply IH. by eapply destructor_step.
  - intros Ha Hth. pose proof (ok_mutex _ Hok) as Hm.
    assert (∀ m, active m = ∅ → tm_mutex m = false → ∃ d',
      relations.nsteps detector_step 3 (mkDetector m false DAtTest Joining) d' ∧ dt_phase d' = Destroyed ∧ dt_thread d' = DNone) as Hend.
    { intros m Hma Hmm. exists (mkDetector m false DNone Destroyed). split; [|done].
      eapply relations.nsteps_l; [by apply (detector_next 0)|]. eapply relations.nsteps_l; [by apply detector_join|].
      eapply relations.nsteps_l; [|apply relations.nsteps_O]. apply (detector_abort 0); [done|].
      unfold abort_remaining, TransactionManager_destroy. cbn [dt_tm]. by rewrite Hma, map_to_list_empty. }
    apply elem_of_cons in Hth as [Hth|Hth%list_elem_of_singleton]; unfold stopDeadlockDetector; rewrite Hth.
    + destruct (Hend (dt_tm d) Ha Hm) as (d' & Hs & Hd). exists 3%nat, d'. split; [lia|done].
    + destruct (detectDeadlocks_idle 0 (dt_tm d) Ha Hm) as (m' & Hd & Ha' & Hm').
      destruct (Hend m' Ha' Hm') as (d' & Hs & Hfin). exists 4%nat, d'. split; [lia|]. split; [|done].
      eapply relations.nsteps_l; [|exact Hs]. apply (detector_next 0). unfold detector_turn. cbn [dt_thread dt_tm].
      by rewrite Hd.
Qed.

(** While the manager is used, a transaction that has expired when the thread wakes up stops
    the thread with the mutex locked. *)
Theorem expired_stops_detector now id t d :
  tm_ok (dt_tm d) → dt_thread d = DSleeping → active (dt_tm d) !! id = Some t →
  isExpired (deadlock_timeout_ms (dt_tm d)) now t = true →
  ∃ d', detector_turn now d = Some d' ∧ dt_thread d' = DStuck ∧ tm_mutex (dt_tm d') = true ∧
    ∀ now', detector_turn now' d' = None.
Proof.
  intros Hok Hth Ht He. unfold detector_turn at 1. rewrite Hth.
  rewrite (detectDeadlocks_expired now id t) by (done || by apply tm_ok_all_active). by eexists.
Qed.

End Detector.

#[local] Instance detector_store : PageStore FileManager := FileManager_store env0.

Lemma tm0_ok : tm_ok tm0.
Proof. apply tm_reachable_ok. by exists (BufferPool_new 1 fm_closed), LogManager_new. Qed.

(** One manager with a transaction, and one without. *)
Lemma manager_destruction_witness :
  (∀ d', rtc detector_step (stopDeadlockDetector (mkDetector tm1 true DSleeping Alive)) d' →
     dt_phase d' ≠ Destroyed) ∧
  ∃ n d', (n ≤ 4)%nat ∧
    relations.nsteps detector_step n (stopDeadlockDetector (mkDetector tm0 true DSleeping Alive)) d' ∧
    dt_phase d' = Destroyed ∧ dt_thread d' = DNone.
Proof.
  split.
  - intros d' Hsteps. destruct (manager_destruction (mkDetector tm1 true DSleeping Alive) eq_refl tm1_ok) as [Hn _].
    exact (Hn 1 t1 d' eq_refl Hsteps).
  - destruct (manager_destruction (mkDetector tm0 true DSleeping Alive) eq_refl tm0_ok) as [_ He].
    apply He; [reflexivity|]. right. left.
Defined.
