(* ===== verification/Checkpoint.v ===== *)
(** * Checkpoint: the checkpoint manager (src/transaction/checkpoint.h, checkpoint.cpp)

    The manager holds pointers to the log, to the pool and to the transaction manager.
    The log and the pool are the ones of the transaction manager, so its operations
    change the manager and the transaction manager.  Clock values are inputs, in
    nanoseconds.  One turn of the loop of the thread is modelled, and whether there is a
    thread to join.  The map that [getLogs] returns is a [std::unordered_map], which has
    no reverse iteration: the order in which its records are visited is an argument.  The
    average time of a checkpoint is not modelled. *)

From stdpp Require Import gmap strings list.
From S2P Require Import Prelude CxxString CxxStream Types Page FileManager BufferPool.
From S2P Require Import LockManager LogManager TransactionManager.

Open Scope Z_scope.

(** ** Data *)

Record CheckpointConfig := mkCheckpointConfig {
  interval_seconds : Z;
  min_log_size : Z;
  max_log_size : Z;
  force_on_shutdown : bool;
  incremental : bool
}.
Definition CheckpointConfig_default : CheckpointConfig :=
  mkCheckpointConfig 300 (10 * 1024 * 1024) (100 * 1024 * 1024) true false.

Record CheckpointStats := mkCheckpointStats {
  total_checkpoints : Z;
  full_checkpoints : Z;
  incremental_checkpoints : Z;
  pages_written : Z;
  log_bytes_removed : Z
}.
Definition CheckpointStats_zero : CheckpointStats := mkCheckpointStats 0 0 0 0 0.

Definition count_checkpoint (full : bool) (s : CheckpointStats) : CheckpointStats :=
  mkCheckpointStats (wrap 64 (total_checkpoints s + 1))
    (if full then wrap 64 (full_checkpoints s + 1) else full_checkpoints s)
    (if full then incremental_checkpoints s else wrap 64 (incremental_checkpoints s + 1))
    (pages_written s) (log_bytes_removed s).

Record CheckpointManager := mkCheckpointManager {
  cp_config : CheckpointConfig;
  cp_stats : CheckpointStats;
  last_checkpoint_time : Z;
  last_lsn_ : Z;
  cp_thread : bool;
  cp_running : bool
}.

Definition CheckpointManager_new (now : Z) : CheckpointManager :=
  mkCheckpointManager CheckpointConfig_default CheckpointStats_zero now 0 false false.

Definition cp_setConfig (c : CheckpointConfig) (cm : CheckpointManager) : CheckpointManager :=
  mkCheckpointManager c (cp_stats cm) (last_checkpoint_time cm) (last_lsn_ cm) (cp_thread cm)
    (cp_running cm).
Definition cp_resetStats (cm : CheckpointManager) : CheckpointManager :=
  mkCheckpointManager (cp_config cm) CheckpointStats_zero (last_checkpoint_time cm) (last_lsn_ cm)
    (cp_thread cm) (cp_running cm).
Definition set_last_lsn (lsn : Z) (cm : CheckpointManager) : CheckpointManager :=
  mkCheckpointManager (cp_config cm) (cp_stats cm) (last_checkpoint_time cm) lsn (cp_thread cm)
    (cp_running cm).
Definition set_thread (t running : bool) (cm : CheckpointManager) : CheckpointManager :=
  mkCheckpointManager (cp_config cm) (cp_stats cm) (last_checkpoint_time cm) (last_lsn_ cm) t running.
Definition finish_checkpoint (full : bool) (now : Z) (cm : CheckpointManager) : CheckpointManager :=
  mkCheckpointManager (cp_config cm) (count_checkpoint full (cp_stats cm)) now (last_lsn_ cm)
    (cp_thread cm) (cp_running cm).

Definition getLastCheckpointLSN (cm : CheckpointManager) : Z := last_lsn_ cm.
Definition getLastCheckpointTime (cm : CheckpointManager) : Z := last_checkpoint_time cm.

(** [elapsed], a signed number of seconds, is compared as a [size_t]; the size of the log is
    the constant 0. *)
Definition shouldCreateCheckpoint (now : Z) (cm : CheckpointManager) : bool :=
  let elapsed := (now - last_checkpoint_time cm) ÷ 1000000000 in
  if interval_seconds (cp_config cm) <=? wrap 64 elapsed then true
  else
    let current_log_size := 0 in
    if max_log_size (cp_config cm) <=? current_log_size then true else false.

(** ** The record of a checkpoint *)

Definition newline : ascii := "010"%char.
Definition comma : ascii := ","%char.

(** [if (i > 0) data += ","; data += std::to_string(active_txs[i]);] *)
Fixpoint ids_text (ids : list Z) : string :=
  match ids with
  | [] => EmptyString
  | [id] => to_string id
  | id :: ids' => to_string id +:+ String comma (ids_text ids')
  end.

Definition checkpoint_text (is_full : bool) (ids : list Z) : string :=
  (if is_full then "FULL" else "INCR") +:+ String newline
    ("ACTIVE:" +:+ ids_text ids +:+ String newline ("DIRTY:" +:+ String newline EmptyString)).

(** [std::string data(ptr)]: the bytes before the first zero. *)
Fixpoint c_string (bs : list Z) : option string :=
  match bs with
  | [] => None
  | b :: bs' => if b =? 0 then Some EmptyString else String (byte_ascii b) <$> c_string bs'
  end.

(** The loop over the ids: [start] moves past a comma.  [None] is out of fuel, or an
    exception of [std::stoull]. *)
Fixpoint parse_ids (fuel : nat) (txs : string) : option (list Z) :=
  match txs with
  | EmptyString => Some []
  | _ =>
      match fuel with
      | O => None
      | S fuel' =>
          match split_at comma txs with
          | (a, None) => id ← stoull a; Some [id]
          | (a, Some rest) => id ← stoull a; ids ← parse_ids fuel' rest; Some (id :: ids)
          end
      end
  end.

Definition parse_checkpoint (data : string) : option (list Z) :=
  match find_text "ACTIVE:" data with
  | None => Some []
  | Some (_, rest) =>
      match split_at newline rest with
      | (_, None) => Some []
      | (txs, Some _) => parse_ids (String.length txs) txs
      end
  end.

(** [order] is the sequence of entries from [logs.rbegin()] on.  The result has the LSN of
    the first checkpoint met and its active transactions; [Some None] is [false]. *)
Fixpoint findLastCheckpoint (order : list (Z * LogRecord)) : option (option (Z * list Z)) :=
  match order with
  | [] => Some None
  | (lsn, r) :: order' =>
      if decide (rec_type r = LogRecordType.CHECKPOINT) then
        match rec_data r with
        | None => Some (Some (lsn, []))
        | Some bs => data ← c_string bs; ids ← parse_checkpoint data; Some (Some (lsn, ids))
        end
      else findLastCheckpoint order'
  end.

(** ** Redo *)

Definition committed_map (logs : list LogRecord) : gmap Z bool :=
  foldl (λ m r, if decide (rec_type r = LogRecordType.COMMIT) then <[rec_tx r := true]> m else m) ∅ logs.

Definition is_change (t : LogRecordType) : bool :=
  match t with
  | LogRecordType.INSERT | LogRecordType.UPDATE | LogRecordType.DELETE => true
  | _ => false
  end.

(** The records that reach the place where an operation is to be applied again; nothing is
    applied. *)
Definition redoFromCheckpoint (checkpoint_lsn : Z) (lm : LogManager) : list LogRecord :=
  let logs := getLogsSince checkpoint_lsn lm in
  let committed := committed_map logs in
  filter (λ r, default false (committed !! rec_tx r) = true ∧ is_change (rec_type r) = true) logs.

(** ** Operations *)

Section Manager.
Context {St : Type} `{PageStore St}.

Definition writeDirtyPages (m : TransactionManager St) : TransactionManager St :=
  set_pool (BufferPool.flushAll (tm_pool m)) m.

Definition writeCheckpointRecord (now : Z) (is_full : bool) (ids : list Z) (cm : CheckpointManager)
    (m : TransactionManager St) : CheckpointManager * TransactionManager St :=
  let data := checkpoint_text is_full ids in
  let '(log, lsn) := appendLogRecord now LogRecordType.CHECKPOINT 0 INVALID_PAGE_ID
                       (Some (string_bytes data ++ [0])) (tm_log m) in
  (set_last_lsn lsn cm, set_log (setCheckpoint lsn log) m).

Definition truncateLogs (cm : CheckpointManager) (m : TransactionManager St) : TransactionManager St :=
  set_log (LogManager.truncate (last_lsn_ cm) (tm_log m)) m.

(** [now] is the clock when the record is written, [later] at the end. *)
Definition createCheckpoint (now later : Z) (force_full : bool) (cm : CheckpointManager)
    (m : TransactionManager St) : option (CheckpointManager * TransactionManager St * StatusCode) :=
  active_txs ← getActiveTransactions m;
  tx_ids ← mapM (λ tx, tx_id <$> deref tx m) active_txs;
  let m := writeDirtyPages m in
  let full := force_full || negb (incremental (cp_config cm)) in
  let '(cm, m) := writeCheckpointRecord now full tx_ids cm m in
  let m := truncateLogs cm m in
  Some (finish_checkpoint full later cm, m, StatusCode.OK).

Definition createIncrementalCheckpoint (now later : Z) :=
  createCheckpoint now later false.

(** The records redone with the status; no state changes. *)
Definition recoverFromCheckpoint (order : list (Z * LogRecord)) (m : TransactionManager St)
  : option (StatusCode * list LogRecord) :=
  found ← findLastCheckpoint order;
  match found with
  | None => Some (StatusCode.NOT_FOUND, [])
  | Some (lsn, _) => Some (StatusCode.OK, redoFromCheckpoint lsn (tm_log m))
  end.

(** One turn of the loop of the thread. *)
Definition checkpointLoop (now later : Z) (cm : CheckpointManager) (m : TransactionManager St)
  : option (CheckpointManager * TransactionManager St) :=
  if shouldCreateCheckpoint now cm then
    '(cm, m, _) ← createCheckpoint now later false cm m; Some (cm, m)
  else Some (cm, m).

Definition checkpoint_init (order : list (Z * LogRecord)) (config : CheckpointConfig)
    (cm : CheckpointManager) (m : TransactionManager St) : option CheckpointManager :=
  let cm := cp_setConfig config cm in
  _ ← recoverFromCheckpoint order m;
  Some (set_thread true true cm).

(** Also the destructor. *)
Definition checkpoint_shutdown (now later : Z) (cm : CheckpointManager) (m : TransactionManager St)
  : option (CheckpointManager * TransactionManager St) :=
  let cm := if cp_thread cm then set_thread false false cm else cm in
  if force_on_shutdown (cp_config cm) then
    '(cm, m, _) ← createCheckpoint now later true cm m; Some (cm, m)
  else Some (cm, m).

End Manager.
