(* ===== verification/CheckpointProofs.v ===== *)
(** * CheckpointProofs: what a checkpoint leaves in the pool and in the log

    A checkpoint cleans every frame, is found again with its active transactions, whatever
    the order in which the records are visited, and is the only record left in memory. *)

From stdpp Require Import gmap strings list sorting.
From S2P Require Import Prelude CxxString CxxStream Types Page FileManager BufferPool BufferPoolProofs.
From S2P Require Import LockManager LogManager LogProofs TransactionManager TransactionProofs Checkpoint.

Open Scope Z_scope.

(** ** The text of a checkpoint *)

Lemma no_char_zero s : no_char "000"%char s = true → c_string (string_bytes s ++ [0]) = Some s.
Proof.
  induction s as [|c s IH]; [done|]. cbn [no_char string_bytes app c_string].
  intros [Hc%negb_true_iff%bool_decide_eq_false Hs]%andb_true_iff.
  destruct (Z.eqb_spec (ascii_byte c) 0) as [H0|_].
  { destruct Hc. by apply (ascii_byte_inj c "000"%char). }
  rewrite IH by done. cbn. by rewrite byte_ascii_byte.
Qed.

Lemma ids_text_char c ids :
  isdigit c = false → c ≠ "-"%char → c ≠ comma → no_char c (ids_text ids) = true.
Proof.
  intros Hd Hm Hc. induction ids as [|id [|id' ids] IH]; [done|by apply no_char_to_string|].
  change (ids_text (id :: id' :: ids)) with (to_string id +:+ String comma (ids_text (id' :: ids))).
  rewrite no_char_app, no_char_to_string by done. cbn [no_char].
  rewrite bool_decide_eq_false_2 by congruence. done.
Qed.

Lemma to_string_cons z : ∃ c s, to_string z = String c s.
Proof.
  destruct (to_string z) as [|c s] eqn:Hz; [|eauto].
  pose proof (parse_to_string z) as Hp. by rewrite Hz in Hp.
Qed.

(** The ids are read back as written. *)
Lemma parse_ids_text ids : ∀ fuel,
  Forall (fits 64) ids → (String.length (ids_text ids) ≤ fuel)%nat →
  parse_ids fuel (ids_text ids) = Some ids.
Proof.
  assert (∀ id, no_char comma (to_string id) = true) as Hn by (intros; by apply no_char_to_string).
  induction ids as [|id [|id' ids] IH]; intros fuel Hf Hl; [by destruct fuel| |].
  - apply Forall_cons in Hf as [Hid _]. cbn [ids_text] in *.
    destruct (to_string_cons id) as (c & s & Hs).
    destruct fuel as [|fuel]; [rewrite Hs in Hl; cbn in Hl; lia|].
    cbn [parse_ids]. rewrite split_at_none by done. rewrite stoull_to_string by done. cbn [mbind option_bind].
    by rewrite Hs.
  - apply Forall_cons in Hf as [Hid Hf].
    change (ids_text (id :: id' :: ids)) with (to_string id +:+ String comma (ids_text (id' :: ids))) in *.
    rewrite length_append in Hl. cbn [String.length] in Hl.
    destruct (to_string_cons id) as (c & s & Hs).
    destruct fuel as [|fuel]; [lia|]. cbn [parse_ids].
    rewrite split_at_found by done. rewrite stoull_to_string by done. cbn [mbind option_bind].
    rewrite IH by (try done; lia). rewrite Hs. done.
Qed.

Lemma parse_checkpoint_text full ids :
  Forall (fits 64) ids → parse_checkpoint (checkpoint_text full ids) = Some ids.
Proof.
  intros Hf. unfold parse_checkpoint.
  assert (∃ a, find_text "ACTIVE:" (checkpoint_text full ids) =
    Some (a, ids_text ids +:+ String newline ("DIRTY:" +:+ String newline EmptyString))) as [a ->].
  { by destruct full; eexists. }
  rewrite split_at_found by (by apply ids_text_char). by apply parse_ids_text.
Qed.

Lemma checkpoint_text_zero full ids : no_char "000"%char (checkpoint_text full ids) = true.
Proof.
  assert (no_char "000"%char (ids_text ids) = true) as Hi by (by apply ids_text_char).
  unfold checkpoint_text. rewrite no_char_app. cbn [no_char]. rewrite !no_char_app. cbn [no_char].
  rewrite Hi. by destruct full.
Qed.

Section Manager.
Context {St : Type} `{PageStore St}.
Implicit Types (p : BufferPool St) (m : TransactionManager St).

(** ** The pages *)

Lemma writeToDisk_frames pid f p :
  frames (writeToDisk pid f p) = <[pid := set_fpage (clearDirty (fpage f)) f]> (frames p).
Proof. unfold writeToDisk. by destruct (ps_write _ _ _ _). Qed.

Lemma flushPage_frames pid p :
  (∀ f, frames (flushPage pid p) !! pid = Some f → dirty f = false) ∧
  (∀ k, k ≠ pid → frames (flushPage pid p) !! k = frames p !! k) ∧
  (∀ k, is_Some (frames (flushPage pid p) !! k) ↔ is_Some (frames p !! k)).
Proof.
  unfold flushPage. destruct (frames p !! pid) as [f|] eqn:Hf; [|split_and!; naive_solver].
  destruct (dirty f) eqn:Hd; [|split_and!; naive_solver].
  unfold flush_frame. cbn [frames set_stats set_frames]. rewrite writeToDisk_frames, insert_insert_eq. split_and!.
  - intros f'. rewrite lookup_insert_eq. by intros [= <-].
  - intros k Hk. by rewrite lookup_insert_ne.
  - intros k. rewrite lookup_insert_is_Some. destruct (decide (k = pid)) as [->|]; naive_solver.
Qed.

(** After [flushAll] the same pages are in the pool, and none is dirty. *)
Lemma flushAll_clean p :
  (∀ k f, frames (BufferPool.flushAll p) !! k = Some f → dirty f = false) ∧
  dom (frames (BufferPool.flushAll p)) = dom (frames p).
Proof.
  unfold BufferPool.flushAll.
  assert (∀ ks q, (∀ k f, frames q !! k = Some f → k ∉ ks → dirty f = false) →
    dom (frames q) = dom (frames p) →
    (∀ k f, frames (foldl (λ p pid, flushPage pid p) q ks) !! k = Some f → dirty f = false) ∧
    dom (frames (foldl (λ p pid, flushPage pid p) q ks)) = dom (frames p)) as Hind.
  { induction ks as [|pid ks IH]; intros q Hq Hdom; cbn [foldl].
    - split; [|done]. intros k f Hk. apply (Hq k f Hk). apply not_elem_of_nil.
    - destruct (flushPage_frames pid q) as (H1 & H2 & H3). apply IH.
      + intros k f Hk Hnk. destruct (decide (k = pid)) as [->|Hne]; [by apply H1|].
        rewrite H2 in Hk by done. apply (Hq k f Hk). by rewrite not_elem_of_cons.
      + rewrite <- Hdom. apply set_eq. intros k. by rewrite !elem_of_dom. }
  apply Hind; [|done]. intros k f Hk Hnot. destruct Hnot.
  apply list_elem_of_fmap. exists (k, f). split; [done|]. by apply elem_of_map_to_list.
Qed.

(** ** The log *)

(** The LSNs in memory were given out. *)
Definition lsns_below (lm : LogManager) : Prop :=
  ∀ k r, log_buffer lm !! k = Some r → k < current_lsn lm.

Lemma log_ok_below lm : log_ok lm → lsns_below lm.
Proof. intros Hok k r Hr. apply (lk_dense _ Hok k). eauto. Qed.

(** Only the record appended is left. *)
Lemma truncate_last now r lm lm' lsn :
  lsns_below lm → appendRecord now r lm = (lm', lsn) →
  log_buffer (truncate lsn lm') = {[lsn := logged now r lm]}.
Proof.
  intros Hb Ha. destruct (appendRecord_fields _ _ _ _ _ Ha) as (-> & _ & Hlb & _).
  unfold truncate. cbn [log_buffer set_log_buffer]. rewrite Hlb. apply map_eq. intros k.
  destruct (decide (k = current_lsn lm)) as [->|Hk].
  - rewrite lookup_singleton_eq. apply map_lookup_filter_Some. by rewrite lookup_insert_eq.
  - rewrite lookup_singleton_ne by done. apply map_lookup_filter_None. right.
    intros r'. rewrite lookup_insert_ne by done. intros Hr%Hb. cbn. lia.
Qed.

Lemma appended_file now r lm lm' lsn :
  appendRecord now r lm = (lm', lsn) →
  Z.of_nat (length (write_buffer lm)) + (Z.of_nat LOG_RECORD_SIZE + data_length r) ≤ WRITE_BUFFER_SIZE →
  log_file lm' = log_file lm.
Proof.
  unfold appendRecord. intros [= <- _] Hroom. cbn [log_file set_log_stats].
  destruct (decide _); [done|].
  match goal with |- context [if ?c then _ else _] => destruct c eqn:Hc end; [|done].
  apply Z.ltb_lt in Hc. cbn [write_buffer set_log_buffer set_lsns] in Hc. lia.
Qed.

(** ** A checkpoint *)

Lemma active_ids m :
  tm_ok m → mapM (λ tx, tx_id <$> deref tx m) (map_to_list (active m)).*1 = Some (map_to_list (active m)).*1.
Proof.
  intros Hok. apply mapM_Some_2, Forall_Forall2_diag, Forall_fmap, Forall_forall.
  intros [id t] Hid%elem_of_map_to_list. cbn. unfold deref. rewrite Hid. cbn. f_equal. apply (ok_active _ Hok _ _ Hid).
Qed.

Definition checkpoint_bytes (full : bool) (ids : list Z) : list Z :=
  string_bytes (checkpoint_text full ids) ++ [0].

Definition checkpoint_record (full : bool) (ids : list Z) : LogRecord :=
  mkLogRecord 0 LogRecordType.CHECKPOINT 0 INVALID_PAGE_ID 0
    (wrap 16 (Z.of_nat (length (checkpoint_bytes full ids)))) (Some (checkpoint_bytes full ids)) 0 0.

Lemma append_checkpoint now full ids lm :
  appendLogRecord now LogRecordType.CHECKPOINT 0 INVALID_PAGE_ID (Some (checkpoint_bytes full ids)) lm =
  appendRecord now (checkpoint_record full ids) lm.
Proof.
  unfold appendLogRecord, checkpoint_record.
  destruct (checkpoint_bytes full ids) as [|b bs] eqn:Hb; [|done].
  unfold checkpoint_bytes in Hb. by apply app_eq_nil in Hb as [_ ?].
Qed.

(** What a checkpoint does, when the mutex of the transactions is free. *)
Lemma createCheckpoint_eq now later force cm m :
  tm_ok m →
  let full := force || negb (incremental (cp_config cm)) in
  let ids := (map_to_list (active m)).*1 in
  let '(log, lsn) := appendRecord now (checkpoint_record full ids) (tm_log m) in
  createCheckpoint now later force cm m =
  Some (finish_checkpoint full later (set_last_lsn lsn cm),
        set_log (truncate lsn (setCheckpoint lsn log)) (set_pool (BufferPool.flushAll (tm_pool m)) m),
        StatusCode.OK).
Proof.
  intros Hok full ids. unfold createCheckpoint, getActiveTransactions. rewrite (ok_mutex _ Hok).
  cbn [mbind option_bind]. rewrite active_ids by done. cbn [mbind option_bind].
  unfold writeCheckpointRecord. cbn [tm_log writeDirtyPages set_pool].
  change (string_bytes _ ++ [0]) with (checkpoint_bytes full ids). rewrite append_checkpoint.
  by destruct (appendRecord now _ (tm_log m)) as [log lsn].
Qed.


End Manager.

(** ** Redo and the time of a checkpoint *)

Lemma committed_map_spec logs tx :
  default false (committed_map logs !! tx) = true ↔
  ∃ r, r ∈ logs ∧ rec_type r = LogRecordType.COMMIT ∧ rec_tx r = tx.
Proof.
  unfold committed_map. induction logs as [|r logs IH] using rev_ind.
  { cbn. rewrite lookup_empty. split; [done|]. intros (r & Hr & _). by apply not_elem_of_nil in Hr. }
  rewrite foldl_snoc. setoid_rewrite elem_of_app. setoid_rewrite list_elem_of_singleton.
  case_decide as Hc; [|rewrite IH; naive_solver].
  destruct (decide (rec_tx r = tx)) as [<-|Hne]; [rewrite lookup_insert_eq; naive_solver|].
  rewrite lookup_insert_ne by done. rewrite IH. naive_solver.
Qed.

(** The records selected for redo are the changes after the checkpoint of the transactions that
    committed after it, in the order of their LSNs. *)
Theorem redo_selects lsn lm r :
  (r ∈ redoFromCheckpoint lsn lm ↔
     r ∈ getLogsSince lsn lm ∧ is_change (rec_type r) = true ∧
     ∃ c, c ∈ getLogsSince lsn lm ∧ rec_type c = LogRecordType.COMMIT ∧ rec_tx c = rec_tx r) ∧
  StronglySorted lsn_le (redoFromCheckpoint lsn lm).
Proof.
  unfold redoFromCheckpoint. split.
  - rewrite list_elem_of_filter, committed_map_spec. naive_solver.
  - apply StronglySorted_filter, sorted_logs_spec.
Qed.

(** A checkpoint is due when the interval has passed, when the clock has gone back by a second, or
    always when the maximal size of the log is 0; the log itself never makes one due. *)
Theorem checkpoint_due now cm :
  fits_signed 64 ((now - last_checkpoint_time cm) ÷ 1000000000) →
  0 < interval_seconds (cp_config cm) < 2 ^ 63 → 0 ≤ max_log_size (cp_config cm) →
  shouldCreateCheckpoint now cm = true ↔
  interval_seconds (cp_config cm) * 1000000000 ≤ now - last_checkpoint_time cm ∨
  now - last_checkpoint_time cm ≤ -1000000000 ∨ max_log_size (cp_config cm) = 0.
Proof.
  intros He Hi Hm. unfold shouldCreateCheckpoint. set (d := now - last_checkpoint_time cm) in *.
  set (i := interval_seconds (cp_config cm)) in *. unfold fits, fits_signed in *.
  assert (i ≤ wrap 64 (d ÷ 1000000000) ↔ i * 1000000000 ≤ d ∨ d ≤ -1000000000) as Hw.
  { unfold wrap. destruct (Z.le_gt_cases 0 (d ÷ 1000000000)) as [Hp|Hn].
    - rewrite Z.mod_small by lia. destruct (Z.le_gt_cases 0 d); [|Z.to_euclidean_division_equations; lia].
      Z.to_euclidean_division_equations; lia.
    - rewrite <- (Z_mod_plus_full _ 1), Z.mod_small by lia.
      Z.to_euclidean_division_equations; lia. }
  destruct (Z.leb_spec i (wrap 64 (d ÷ 1000000000))) as [H1|H1]; [naive_solver|].
  destruct (Z.leb_spec (max_log_size (cp_config cm)) 0); [naive_solver lia|].
  split; [done|]. intros [?|[?|?]]; [..|lia]; exfalso; assert (i ≤ wrap 64 (d ÷ 1000000000)) by (apply Hw; auto); lia.
Qed.

(** ** Examples *)

#[local] Existing Instance store0.

Lemma tm1_log_ok : log_ok (tm_log tm1).
Proof.
  destruct (appendRecord 5 (tx_record LogRecordType.BEGIN 1) LogManager_new) as [lm lsn] eqn:Ha.
  assert (tm_log tm1 = lm) as -> by (vm_compute in Ha; vm_compute; congruence).
  eapply appendRecord_ok; [apply log_new_ok| | |exact Ha]; [cbn; lia|done].
Qed.

