(* ===== verification/AST.v ===== *)
(** * AST: the syntax tree of SQL (src/parser/ast.h)

    A node is a constructor of [ASTNode] with the members of the C++ struct; the
    lines and columns of nodes, which the parser leaves at 0, are dropped.  A
    pointer that can be null is an [option].  [ListNode] is the bare [ASTNode] of type
    [LITERAL] that stands for the list of an IN.  The statements other than SELECT
    contain expressions and are not contained in them: they are records of their
    own, joined in [Statement]. *)

From S2P Require Import Prelude Types.

(** ** Enumerations *)

Module ASTNodeType.
Inductive ASTNodeType :=
  | CREATE_TABLE | DROP_TABLE | CREATE_INDEX | DROP_INDEX | ALTER_TABLE
  | SELECT | INSERT | UPDATE | DELETE
  | BEGIN | COMMIT | ROLLBACK
  | BINARY_EXPR | UNARY_EXPR | COLUMN_REF | LITERAL | FUNCTION_CALL
  | WHERE_CLAUSE | JOIN_CLAUSE | ORDER_BY | GROUP_BY | HAVING | LIMIT.

#[export] Instance ASTNodeType_eq_dec : EqDecision ASTNodeType.
Proof. solve_decision. Defined.
End ASTNodeType.
Export (hints) ASTNodeType.
Abbreviation ASTNodeType := ASTNodeType.ASTNodeType.

Module Operator.
Inductive Operator :=
  | PLUS | MINUS | MULTIPLY | DIVIDE | MODULO
  | EQ | NE | LT | LE | GT | GE
  | LIKE | NOT_LIKE | IN | NOT_IN | IS_NULL | IS_NOT_NULL | BETWEEN | NOT_BETWEEN
  | AND | OR | NOT
  | ASSIGN | CONCAT.

#[export] Instance Operator_eq_dec : EqDecision Operator.
Proof. solve_decision. Defined.
End Operator.
Export (hints) Operator.
Abbreviation Operator := Operator.Operator.

Module JoinType.
Inductive JoinType := INNER | LEFT | RIGHT | FULL | CROSS | NATURAL.

#[export] Instance JoinType_eq_dec : EqDecision JoinType.
Proof. solve_decision. Defined.
End JoinType.
Export (hints) JoinType.
Abbreviation JoinType := JoinType.JoinType.

Module SetOperation.
Inductive SetOperation := NONE | UNION | UNION_ALL | INTERSECT | EXCEPT.

#[export] Instance SetOperation_eq_dec : EqDecision SetOperation.
Proof. solve_decision. Defined.
End SetOperation.
Export (hints) SetOperation.
Abbreviation SetOperation := SetOperation.SetOperation.

Definition operatorToString (op : Operator) : string :=
  match op with
  | Operator.PLUS => "+" | Operator.MINUS => "-" | Operator.MULTIPLY => "*"
  | Operator.DIVIDE => "/" | Operator.MODULO => "%"
  | Operator.EQ => "=" | Operator.NE => "!=" | Operator.LT => "<" | Operator.LE => "<="
  | Operator.GT => ">" | Operator.GE => ">="
  | Operator.LIKE => "LIKE" | Operator.NOT_LIKE => "NOT LIKE"
  | Operator.IN => "IN" | Operator.NOT_IN => "NOT IN"
  | Operator.IS_NULL => "IS NULL" | Operator.IS_NOT_NULL => "IS NOT NULL"
  | Operator.BETWEEN => "BETWEEN" | Operator.NOT_BETWEEN => "NOT BETWEEN"
  | Operator.AND => "AND" | Operator.OR => "OR" | Operator.NOT => "NOT"
  | Operator.ASSIGN => ":=" | Operator.CONCAT => "||"
  end.

(** ** Clauses, over the type of expressions *)

Record JoinClause {E : Type} := mkJoinClause {
  join_type : JoinType;
  join_table : string;
  join_alias : string;
  condition : option E;
  using_columns : list string
}.
Arguments JoinClause : clear implicits.

Record OrderItem {E : Type} := mkOrderItem { item_expr : E; ascending : bool }.
Arguments OrderItem : clear implicits.

Record LimitNode := mkLimitNode { limit : Z; offset : Z }.

Record TableRef {S : Type} := mkTableRef {
  table_name : string;
  table_alias : string;
  subquery : option S
}.
Arguments TableRef : clear implicits.

(** ** Expressions and SELECT *)

Inductive ASTNode :=
  | LiteralNode (value : Value)
  | ListNode
  | ColumnRefNode (table column : string)
  | BinaryExprNode (op : Operator) (left : ASTNode) (right : option ASTNode)
  | UnaryExprNode (op : Operator) (expr : ASTNode)
  | FunctionCallNode (name : string) (arguments : list ASTNode) (is_aggregate : bool)
  | Subquery (select : SelectNode)
with SelectNode :=
  | mkSelectNode
      (distinct : bool)
      (select_list : list ASTNode)
      (select_aliases : list string)
      (from_tables : list (TableRef SelectNode))
      (joins : list (JoinClause ASTNode))
      (where_ : option ASTNode)
      (group_by : option (list ASTNode))
      (having : option ASTNode)
      (order_by : option (list (OrderItem ASTNode)))
      (limit : option LimitNode)
      (set_operation : SetOperation)
      (set_operand : option SelectNode).

(** An empty SELECT. *)
Definition SelectNode_new : SelectNode :=
  mkSelectNode false [] [] [] [] None None None None None SetOperation.NONE None.

(** ** The other statements *)

Record InsertNode := mkInsertNode {
  insert_table : string;
  insert_columns : list string;
  insert_values : list (list ASTNode);
  insert_select : option SelectNode
}.

Record Assignment := mkAssignment { assigned_column : string; assigned_value : ASTNode }.

Record UpdateNode := mkUpdateNode {
  update_table : string;
  assignments : list Assignment;
  update_where : option ASTNode
}.

Record DeleteNode := mkDeleteNode { delete_table : string; delete_where : option ASTNode }.

Record ColumnDef := mkColumnDef {
  column_name : string;
  column_type : DataType;
  column_length : Z;
  nullable : bool;
  primary_key : bool;
  unique : bool;
  default_value : option ASTNode;
  check_expr : string
}.

(** The members that [ColumnDef()] sets. *)
Definition ColumnDef_new : ColumnDef :=
  mkColumnDef "" DataType.INTEGER 0 true false false None "".

Inductive ConstraintType := PRIMARY_KEY | FOREIGN_KEY | UNIQUE | CHECK.

Record Constraint := mkConstraint {
  constraint_type : ConstraintType;
  constraint_columns : list string;
  ref_table : string;
  ref_columns : list string;
  constraint_check : string
}.

Record CreateTableNode := mkCreateTableNode {
  create_table_name : string;
  create_columns : list ColumnDef;
  constraints : list Constraint
}.

Record CreateIndexNode := mkCreateIndexNode {
  index_name : string;
  index_table : string;
  index_columns : list string;
  index_unique : bool
}.

Record DropTableNode := mkDropTableNode { drop_table_name : string; if_exists : bool }.

(** [BeginNode], [CommitNode] and [RollbackNode] have the same members. *)
Record SavepointName := mkSavepointName { savepoint_name : string; is_savepoint : bool }.

Inductive Statement :=
  | SelectStmt (n : SelectNode)
  | InsertStmt (n : InsertNode)
  | UpdateStmt (n : UpdateNode)
  | DeleteStmt (n : DeleteNode)
  | CreateTableStmt (n : CreateTableNode)
  | CreateIndexStmt (n : CreateIndexNode)
  | DropTableStmt (n : DropTableNode)
  | BeginStmt (n : SavepointName)
  | CommitStmt (n : SavepointName)
  | RollbackStmt (n : SavepointName).

(** The [type] member of a node. *)
Definition node_type (e : ASTNode) : ASTNodeType :=
  match e with
  | LiteralNode _ | ListNode => ASTNodeType.LITERAL
  | ColumnRefNode _ _ => ASTNodeType.COLUMN_REF
  | BinaryExprNode _ _ _ => ASTNodeType.BINARY_EXPR
  | UnaryExprNode _ _ => ASTNodeType.UNARY_EXPR
  | FunctionCallNode _ _ _ => ASTNodeType.FUNCTION_CALL
  | Subquery _ => ASTNodeType.SELECT
  end.

Definition statement_type (s : Statement) : ASTNodeType :=
  match s with
  | SelectStmt _ => ASTNodeType.SELECT
  | InsertStmt _ => ASTNodeType.INSERT
  | UpdateStmt _ => ASTNodeType.UPDATE
  | DeleteStmt _ => ASTNodeType.DELETE
  | CreateTableStmt _ => ASTNodeType.CREATE_TABLE
  | CreateIndexStmt _ => ASTNodeType.CREATE_INDEX
  | DropTableStmt _ => ASTNodeType.DROP_TABLE
  | BeginStmt _ => ASTNodeType.BEGIN
  | CommitStmt _ => ASTNodeType.COMMIT
  | RollbackStmt _ => ASTNodeType.ROLLBACK
  end.

(** Induction on the expressions directly inside an expression. *)
Lemma expr_ind (P : ASTNode → Prop) :
  (∀ v, P (LiteralNode v)) → P ListNode → (∀ t c, P (ColumnRefNode t c)) →
  (∀ op l r, P l → (∀ e, r = Some e → P e) → P (BinaryExprNode op l r)) →
  (∀ op e, P e → P (UnaryExprNode op e)) →
  (∀ n args a, P (FunctionCallNode n args a)) → (∀ s, P (Subquery s)) → ∀ e, P e.
Proof.
  intros Hl Hi Hc Hb Hu Hf Hs. fix IH 1. intros [v| |t c|op l r|op e|n args a|s].
  - apply Hl.
  - apply Hi.
  - apply Hc.
  - apply Hb; [apply IH|]. destruct r as [r|]; intros e He; [|discriminate].
    injection He as <-. apply IH.
  - apply Hu, IH.
  - apply Hf.
  - apply Hs.
Qed.
