(* ===== verification/Parser.v ===== *)
(** * Parser: from tokens to the syntax tree (src/parser/sql_parser.cpp, sql_parser.h)

    A parsing function takes the parser and returns a result with the new parser, or
    stops: an exception, undefined behaviour, or no return at all.  The functions of
    the source call each other through [parseExpression] and [parseSelect]: here they
    take these two as arguments ([expr] and [select]), and the recursion is closed at
    the end, with fuel for the depth of nesting.  A loop takes as fuel the number of
    tokens left.  [ParserProofs] shows that this is enough unless the token CASE occurs.

    The functions are those of a parser that has a lexer, as [parse] gives it one.
    [SQLParser::peekToken], which is not declared, is [Lexer::peekToken];
    [TokenType::IF] and [TokenType::TO], which are not declared either, are
    a test that fails. *)

From stdpp Require Import list gmap strings.
From S2P Require Import Prelude CxxString Types Lexer AST.
From Stdlib Require Import SpecFloat.

Open Scope Z_scope.

(** ** std::stoi and std::stod with their exceptions *)

Inductive Exn :=
  | runtime_error (what : string)
  | invalid_argument (what : string)
  | out_of_range (what : string).

Definition stoi_exn (s : string) : Exn + Z :=
  match parse_integer s with
  | None => inl (invalid_argument "stoi")
  | Some _ => match stoi s with Some z => inr z | None => inl (out_of_range "stoi") end
  end.

(** The digits at the start: their value after [acc], their number, what follows. *)
Fixpoint span_digits (s : string) (acc n : Z) : Z * Z * string :=
  match s with
  | String c s' =>
      if isdigit c then span_digits s' (10 * acc + (ascii_byte c - 48)) (n + 1) else (acc, n, s)
  | EmptyString => (acc, n, s)
  end.

Definition scan_exponent (s : string) : Z :=
  match s with
  | String c s' =>
      if decide (c = "e"%char ∨ c = "E"%char) then default 0 (parse_integer s') else 0
  | EmptyString => 0
  end.

(** The decimal numbers of [strtod] without sign: mantissa and exponent of ten. *)
Definition scan_decimal (s : string) : option (Z * Z) :=
  let '(m, n, r) := span_digits s 0 0 in
  let '(m, k, r) :=
    match r with
    | String c r' => if decide (c = "."%char) then span_digits r' m 0 else (m, 0, r)
    | EmptyString => (m, 0, r)
    end in
  if n + k =? 0 then None else Some (m, scan_exponent r - k).

(** The nearest double of [m * 10^e].  For a negative [e] the quotient has at least 55
    bits and one more that tells whether it is exact. *)
Definition nearest_double (m e : Z) : spec_float :=
  if 0 <=? e then binary_normalize 53 1024 (m * 10 ^ e) 0 false
  else
    let den := 10 ^ (- e) in
    let k := Z.max 0 (Z.log2 den - Z.log2 m + 56) in
    let num := m * 2 ^ k in
    binary_normalize 53 1024
      (2 * (num / den) + (if num `mod` den =? 0 then 0 else 1)) (- k - 1) false.

(** [strtod] reports a range error for a result that is infinite, or below the normal
    numbers and not exact. *)
Definition range_error (m e : Z) (f : spec_float) : bool :=
  match f with
  | S754_zero _ => negb (m =? 0)
  | S754_finite _ p q =>
      (Z.log2 (Z.pos p) + q <? -1022) && negb (m * 2 ^ (- q) =? Z.pos p * 10 ^ (- e))
  | _ => true
  end.

Definition stod_exn (s : string) : Exn + spec_float :=
  match scan_decimal (skip_spaces s) with
  | None => inl (invalid_argument "stod")
  | Some (m, e) =>
      let f := nearest_double m e in
      if range_error m e f then inl (out_of_range "stod") else inr f
  end.

(** [static_cast<int64_t>] of a double: [None] is undefined behaviour. *)
Definition cast_int64 (f : spec_float) : option Z :=
  match f with
  | S754_zero _ => Some 0
  | S754_finite s p q =>
      let t := if 0 <=? q then Z.pos p * 2 ^ q else Z.pos p / 2 ^ (- q) in
      let t := if s : bool then - t else t in
      if decide (- 2 ^ 63 ≤ t < 2 ^ 63) then Some t else None
  | _ => None
  end.

(** ** The parser and its outcomes *)

Record SQLParser := mkSQLParser {
  lexer : Lexer;
  current_token : Token;
  last_error : string
}.

Inductive Stop :=
  | Throws (e : Exn)
  | Undefined
  | NoReturn.

Inductive Outcome (A : Type) :=
  | Returns (a : A) (st : SQLParser)
  | Stops (s : Stop) (st : SQLParser).
Arguments Returns {A}.
Arguments Stops {A}.

Definition P (A : Type) : Type := SQLParser → Outcome A.

#[export] Instance P_ret : MRet P := λ A a st, Returns a st.
#[export] Instance P_bind : MBind P := λ A B f m st,
  match m st with
  | Returns a st' => f a st'
  | Stops s st' => Stops s st'
  end.

Definition stop {A} (s : Stop) : P A := λ st, Stops s st.
Definition throw {A} (e : Exn) : P A := stop (Throws e).
Definition try_exn {A} (r : Exn + A) : P A :=
  match r with inl e => throw e | inr a => mret a end.

(** A test of the current token chooses what runs. *)
Definition choose {A} (c : SQLParser → bool) (m1 m2 : P A) : P A :=
  λ st, if c st then m1 st else m2 st.
Notation "'If' c 'Then' m1 'Else' m2" := (choose c m1 m2)
  (at level 200, c at level 100, m1 at level 200, m2 at level 200, right associativity).

(** ** Tokens *)

Definition next_token : P unit := λ st,
  let '(lx, t) := nextToken (lexer st) in Returns tt (mkSQLParser lx t (last_error st)).

Definition match_token (t : TokenType) (st : SQLParser) : bool :=
  bool_decide (ttype (current_token st) = t).
Definition matchAny (ts : list TokenType) (st : SQLParser) : bool :=
  existsb (λ t, match_token t st) ts.

(** [match(a) && peekToken().type == b] *)
Definition match_two (a b : TokenType) (st : SQLParser) : bool :=
  match_token a st && bool_decide (ttype (peekToken (lexer st)).2 = b).

(** [match] of an enumerator that is not declared. *)
Definition match_undeclared (st : SQLParser) : bool := false.

Definition error {A} (message : string) : P A := λ st,
  let what := "Erro de sintaxe em " +:+ getPosition (lexer st) +:+ ": " +:+ message in
  Stops (Throws (runtime_error what)) (mkSQLParser (lexer st) (current_token st) what).

Definition expect (t : TokenType) : P unit := λ st,
  if match_token t st then Returns tt st
  else error ("Esperado " +:+ to_string (Z.of_nat (TokenType.code t)) +:+ ", encontrado '" +:+
              ttext (current_token st) +:+ "'") st.

Definition consume (t : TokenType) : P Token := λ st,
  (expect t ;; next_token ;; mret (current_token st)) st.

(** [expect(t); nextToken();] *)
Definition skip (t : TokenType) : P unit := expect t ;; next_token.
(** [consume(TokenType::IDENTIFIER).text] *)
Definition identifier : P string := t ← consume TokenType.IDENTIFIER; mret (ttext t).

(** ** Loops

    [tokens_left] is the number of tokens from the current one to the end. *)

Definition tokens_left (st : SQLParser) : nat :=
  if match_token TokenType.END_OF_FILE st then 0
  else match token_stream (S (length (rest (lexer st)))) (lexer st) with
       | Some (ts, _) => length ts
       | None => 0
       end.

(** [while (c) a = body(a);] *)
Fixpoint while_loop {A} (fuel : nat) (c : SQLParser → bool) (body : A → P A) (a : A) : P A :=
  match fuel with
  | O => stop NoReturn
  | S fuel' => If c Then (a' ← body a; while_loop fuel' c body a') Else mret a
  end.
Definition while_ {A} (c : SQLParser → bool) (body : A → P A) (a : A) : P A :=
  λ st, while_loop (S (tokens_left st)) c body a st.

(** [do { list.push_back(item()); if (!match(COMMA)) break; nextToken(); } while (true);] *)
Fixpoint comma_loop {A} (fuel : nat) (item : P A) : P (list A) :=
  match fuel with
  | O => stop NoReturn
  | S fuel' =>
      x ← item;
      If match_token TokenType.COMMA
      Then (next_token ;; xs ← comma_loop fuel' item; mret (x :: xs))
      Else mret [x]
  end.
Definition comma_list {A} (item : P A) : P (list A) :=
  λ st, comma_loop (S (tokens_left st)) item st.

Definition optional {A} (c : SQLParser → bool) (m : P A) : P (option A) :=
  If c Then (x ← m; mret (Some x)) Else mret None.

Definition parseIdentifierList : P (list string) := comma_list identifier.

(** [expect(LPAREN); nextToken(); m; expect(RPAREN); nextToken();] *)
Definition parenthesized {A} (m : P A) : P A :=
  skip TokenType.LPAREN ;; x ← m; skip TokenType.RPAREN ;; mret x.

(** [if (match(AS)) { nextToken(); a = identifier } else if (match(IDENTIFIER)) a = identifier] *)
Definition parseAlias : P string :=
  If match_token TokenType.AS Then (next_token ;; identifier)
  Else If match_token TokenType.IDENTIFIER Then identifier
  Else mret "".

Definition find_op (ops : list (TokenType * Operator)) (t : TokenType) : option Operator :=
  snd <$> find (λ e, bool_decide (e.1 = t)) ops.

(** The operators of the levels, each list in the order of the tests. *)
Definition or_ops : list (TokenType * Operator) := [(TokenType.OR, Operator.OR)].
Definition and_ops : list (TokenType * Operator) := [(TokenType.AND, Operator.AND)].
Definition equality_ops : list (TokenType * Operator) :=
  [(TokenType.EQ, Operator.EQ); (TokenType.NE, Operator.NE)].
Definition relational_ops : list (TokenType * Operator) :=
  [(TokenType.LT, Operator.LT); (TokenType.LE, Operator.LE); (TokenType.GT, Operator.GT);
   (TokenType.GE, Operator.GE); (TokenType.LIKE, Operator.LIKE)].
Definition additive_ops : list (TokenType * Operator) :=
  [(TokenType.PLUS, Operator.PLUS); (TokenType.MINUS, Operator.MINUS);
   (TokenType.CONCAT, Operator.CONCAT)].
Definition multiplicative_ops : list (TokenType * Operator) :=
  [(TokenType.STAR, Operator.MULTIPLY); (TokenType.SLASH, Operator.DIVIDE);
   (TokenType.PERCENT, Operator.MODULO)].
Definition unary_ops : list (TokenType * Operator) :=
  [(TokenType.PLUS, Operator.PLUS); (TokenType.MINUS, Operator.MINUS);
   (TokenType.NOT, Operator.NOT)].

(** The chain of tests that sets [op]; it is reached when one of them holds. *)
Definition operator_of (ops : list (TokenType * Operator)) : P Operator := λ st,
  match find_op ops (ttype (current_token st)) with
  | Some op => Returns op st
  | None => Stops Undefined st
  end.

(** The body of a loop over operators. *)
Definition binary_step (op : P Operator) (operand : P ASTNode) (left : ASTNode) : P ASTNode :=
  o ← op; next_token ;; right ← operand; mret (BinaryExprNode o left (Some right)).

Definition binary_level (ops : list (TokenType * Operator)) (operand : P ASTNode) : P ASTNode :=
  left ← operand; while_ (matchAny (map fst ops)) (binary_step (operator_of ops) operand) left.

(** ** The grammar *)

Section grammar.
Variable expr : P ASTNode.
Variable select : P SelectNode.

(** *** Expressions *)

Definition parse_literal (v : Exn + Value) : P ASTNode :=
  v ← try_exn v; next_token ;; mret (LiteralNode v).

Definition current_text (st : SQLParser) : string := ttext (current_token st).

Definition parse_integer_literal : P ASTNode := λ st,
  parse_literal (match stoi_exn (current_text st) with
                 | inl e => inl e | inr z => inr (Value_int z) end) st.

Definition parse_float_literal : P ASTNode := λ st,
  match stod_exn (current_text st) with
  | inl e => throw e st
  | inr f =>
      match cast_int64 f with
      | Some z => parse_literal (inr (Value_bigint z)) st
      | None => Stops Undefined st
      end
  end.

Definition parse_column : P ASTNode :=
  first ← identifier;
  If match_token TokenType.DOT
  Then (next_token ;; second ← identifier; mret (ColumnRefNode first second))
  Else mret (ColumnRefNode "" first).

Definition parse_call : P ASTNode :=
  name ← identifier;
  consume TokenType.LPAREN ;;
  args ← If match_token TokenType.RPAREN Then mret [] Else comma_list expr;
  skip TokenType.RPAREN ;;
  mret (FunctionCallNode name args false).

Definition parse_parentheses : P ASTNode :=
  next_token ;;
  If match_token TokenType.SELECT
  Then (s ← select; skip TokenType.RPAREN ;; mret (Subquery s))
  Else (e ← expr; skip TokenType.RPAREN ;; mret e).

(** [while (!match(END)) nextToken();] *)
Definition skip_case : P unit :=
  while_ (λ st, negb (match_token TokenType.END st)) (λ _, next_token) tt.

Definition parse_case : P unit :=
  next_token ;; skip_case ;; skip TokenType.END.

Definition parsePrimary : P ASTNode :=
  If match_token TokenType.INTEGER Then parse_integer_literal
  Else If match_token TokenType.FLOAT Then parse_float_literal
  Else If match_token TokenType.STRING
       Then (λ st, parse_literal (inr (Value_string (current_text st))) st)
  Else If match_token TokenType.BOOLEAN
       Then (λ st, parse_literal (inr (Value_bool (bool_decide (current_text st = "TRUE")))) st)
  Else If match_token TokenType.NULL Then parse_literal (inr Value_null)
  Else If match_token TokenType.IDENTIFIER Then parse_column
  Else If match_two TokenType.IDENTIFIER TokenType.LPAREN Then parse_call
  Else If match_token TokenType.LPAREN Then parse_parentheses
  Else ((If match_token TokenType.CASE Then parse_case Else mret tt) ;;
        error "Expressão inválida").

Fixpoint unary_loop (fuel : nat) : P ASTNode :=
  match fuel with
  | O => stop NoReturn
  | S fuel' =>
      If matchAny (map fst unary_ops)
      Then (o ← operator_of unary_ops; next_token ;; e ← unary_loop fuel';
            mret (UnaryExprNode o e))
      Else parsePrimary
  end.
Definition parseUnary : P ASTNode := λ st, unary_loop (S (tokens_left st)) st.

Definition parseMultiplicative : P ASTNode := binary_level multiplicative_ops parseUnary.
Definition parseAdditive : P ASTNode := binary_level additive_ops parseMultiplicative.

Definition relational_operator : P Operator :=
  If match_token TokenType.NOT
  Then (next_token ;; expect TokenType.LIKE ;; mret Operator.NOT_LIKE)
  Else operator_of relational_ops.

Definition parseRelational : P ASTNode :=
  left ← parseAdditive;
  while_ (matchAny (map fst relational_ops ++ [TokenType.NOT]))
    (binary_step relational_operator parseAdditive) left.

Definition parse_is_null (left : ASTNode) : P ASTNode :=
  next_token ;;
  op ← If match_token TokenType.NOT Then (next_token ;; mret Operator.IS_NOT_NULL)
       Else mret Operator.IS_NULL;
  skip TokenType.NULL ;;
  mret (UnaryExprNode op left).

(** [if (match(NOT)) { negated = true; nextToken(); }] *)
Definition parse_negation (plain negated : Operator) : P Operator :=
  If match_token TokenType.NOT Then (next_token ;; mret negated) Else mret plain.

Definition parse_in (left : ASTNode) : P ASTNode :=
  op ← parse_negation Operator.IN Operator.NOT_IN;
  skip TokenType.IN ;;
  skip TokenType.LPAREN ;;
  right ← If match_token TokenType.SELECT Then (s ← select; mret (Subquery s)) Else mret ListNode;
  skip TokenType.RPAREN ;;
  mret (BinaryExprNode op left (Some right)).

Definition parse_between (left : ASTNode) : P ASTNode :=
  op ← parse_negation Operator.BETWEEN Operator.NOT_BETWEEN;
  skip TokenType.BETWEEN ;;
  lower ← expr;
  skip TokenType.AND ;;
  upper ← expr;
  mret (BinaryExprNode op left None).

(** [match(t) || (match(NOT) && peekToken().type == t)] *)
Definition maybe_negated (t : TokenType) (st : SQLParser) : bool :=
  match_token t st || match_two TokenType.NOT t st.

Definition parseEquality : P ASTNode :=
  left ← binary_level equality_ops parseRelational;
  left ← If match_token TokenType.IS Then parse_is_null left Else mret left;
  left ← If maybe_negated TokenType.IN Then parse_in left Else mret left;
  If maybe_negated TokenType.BETWEEN Then parse_between left Else mret left.

Definition parseLogicalAnd : P ASTNode := binary_level and_ops parseEquality.
Definition parseLogicalOr : P ASTNode := binary_level or_ops parseLogicalAnd.

(** *** Clauses and lists *)

Definition parseWhere : P ASTNode := consume TokenType.WHERE ;; expr.

Definition parse_order_item : P (OrderItem ASTNode) :=
  e ← expr;
  If match_token TokenType.ASC Then (next_token ;; mret (mkOrderItem _ e true))
  Else If match_token TokenType.DESC Then (next_token ;; mret (mkOrderItem _ e false))
  Else mret (mkOrderItem _ e true).

Definition parseOrderBy : P (list (OrderItem ASTNode)) :=
  consume TokenType.ORDER ;; skip TokenType.BY ;; comma_list parse_order_item.

Definition parseGroupBy : P (list ASTNode) :=
  consume TokenType.GROUP ;; skip TokenType.BY ;; comma_list expr.

(** [if (match(INTEGER)) x = stoi(consume(INTEGER).text);] for a [x] that was [z] *)
Definition parse_count (z : Z) : P Z :=
  If match_token TokenType.INTEGER
  Then (t ← consume TokenType.INTEGER; try_exn (stoi_exn (ttext t)))
  Else mret z.

Definition parseLimit : P LimitNode :=
  consume TokenType.LIMIT ;;
  l ← parse_count (-1);
  If match_token TokenType.OFFSET
  Then (next_token ;; o ← parse_count 0; mret (mkLimitNode l o))
  Else If match_token TokenType.COMMA
  Then (next_token ;; l' ← parse_count l; mret (mkLimitNode l' l))
  Else mret (mkLimitNode l 0).

Definition parse_outer (t : JoinType) : P JoinType :=
  next_token ;; (If match_token TokenType.OUTER Then next_token Else mret tt) ;; mret t.

Definition parse_join_type : P JoinType :=
  If match_token TokenType.INNER Then (next_token ;; mret JoinType.INNER)
  Else If match_token TokenType.LEFT Then parse_outer JoinType.LEFT
  Else If match_token TokenType.RIGHT Then parse_outer JoinType.RIGHT
  Else If match_token TokenType.FULL Then parse_outer JoinType.FULL
  Else If match_token TokenType.CROSS Then (next_token ;; mret JoinType.CROSS)
  Else mret JoinType.INNER.

Definition parseJoin : P (JoinClause ASTNode) :=
  t ← parse_join_type;
  skip TokenType.JOIN ;;
  name ← identifier;
  alias ← parseAlias;
  If match_token TokenType.ON
  Then (next_token ;; e ← expr; mret (mkJoinClause _ t name alias (Some e) []))
  Else If match_token TokenType.USING
  Then (next_token ;; cols ← parenthesized parseIdentifierList;
        mret (mkJoinClause _ t name alias None cols))
  Else mret (mkJoinClause _ t name alias None []).

Definition parse_select_item : P ASTNode :=
  If match_token TokenType.STAR
  Then (next_token ;; mret (LiteralNode (Value_string "*")))
  Else (e ← expr; parseAlias ;; mret e).

Definition parseSelectList : P (list ASTNode) := comma_list parse_select_item.
Definition parseExpressionList : P (list ASTNode) := comma_list expr.
Definition parseValuesList : P (list (list ASTNode)) :=
  comma_list (parenthesized parseExpressionList).

(** *** SELECT *)

Definition parse_table_ref : P (TableRef SelectNode) :=
  If match_token TokenType.LPAREN
  Then (next_token ;; s ← select; skip TokenType.RPAREN ;;
        alias ← parseAlias; mret (mkTableRef _ "" alias (Some s)))
  Else (name ← identifier; alias ← parseAlias; mret (mkTableRef _ name alias None)).

Definition join_starts : list TokenType :=
  [TokenType.JOIN; TokenType.INNER; TokenType.LEFT; TokenType.RIGHT; TokenType.FULL;
   TokenType.CROSS].

Definition parse_joins : P (list (JoinClause ASTNode)) :=
  while_ (matchAny join_starts) (λ js, j ← parseJoin; mret (js ++ [j])) [].

Definition parse_distinct : P bool :=
  If match_token TokenType.DISTINCT Then (next_token ;; mret true)
  Else If match_token TokenType.ALL Then (next_token ;; mret false)
  Else mret false.

Definition set_starts : list (TokenType * SetOperation) :=
  [(TokenType.UNION, SetOperation.UNION); (TokenType.INTERSECT, SetOperation.INTERSECT);
   (TokenType.EXCEPT, SetOperation.EXCEPT)].

Definition set_operation_of (st : SQLParser) : SetOperation :=
  if match_token TokenType.UNION st then SetOperation.UNION
  else if match_token TokenType.INTERSECT st then SetOperation.INTERSECT
  else if match_token TokenType.EXCEPT st then SetOperation.EXCEPT
  else SetOperation.NONE.

Definition parse_all (op : SetOperation) : P SetOperation :=
  If match_token TokenType.ALL
  Then (next_token ;;
        mret (if decide (op = SetOperation.UNION) then SetOperation.UNION_ALL else op))
  Else mret op.

Definition parse_set_operation : P (SetOperation * option SelectNode) :=
  If matchAny (map fst set_starts)
  Then (λ st, (next_token ;; op ← parse_all (set_operation_of st);
               s ← select; mret (op, Some s)) st)
  Else mret (SetOperation.NONE, None).

Definition parse_having : P ASTNode := next_token ;; expr.

Definition parse_from : P (list (TableRef SelectNode)) :=
  If match_token TokenType.FROM Then (next_token ;; comma_list parse_table_ref)
  Else error "Esperado FROM após lista de SELECT".

Definition parseSelect_body : P SelectNode :=
  consume TokenType.SELECT ;;
  distinct ← parse_distinct;
  items ← parseSelectList;
  tables ← parse_from;
  joins ← parse_joins;
  where_ ← optional (match_token TokenType.WHERE) parseWhere;
  group ← optional (match_token TokenType.GROUP) parseGroupBy;
  having ← optional (match_token TokenType.HAVING) parse_having;
  order ← optional (match_token TokenType.ORDER) parseOrderBy;
  lim ← optional (match_token TokenType.LIMIT) parseLimit;
  '(op, operand) ← parse_set_operation;
  mret (mkSelectNode distinct items [] tables joins where_ group having order lim op operand).

(** *** INSERT, UPDATE, DELETE *)

Definition parseInsert : P InsertNode :=
  consume TokenType.INSERT ;;
  skip TokenType.INTO ;;
  table ← identifier;
  columns ← If match_token TokenType.LPAREN Then parenthesized parseIdentifierList Else mret [];
  If match_token TokenType.VALUES
  Then (next_token ;; vs ← parseValuesList; mret (mkInsertNode table columns vs None))
  Else If match_token TokenType.SELECT
  Then (s ← select; mret (mkInsertNode table columns [] (Some s)))
  Else error "Esperado VALUES ou SELECT após INSERT".

Definition parse_assignment : P Assignment :=
  c ← identifier; skip TokenType.ASSIGN ;; e ← expr; mret (mkAssignment c e).

Definition parseUpdate : P UpdateNode :=
  consume TokenType.UPDATE ;;
  table ← identifier;
  skip TokenType.SET ;;
  sets ← comma_list parse_assignment;
  w ← optional (match_token TokenType.WHERE) parseWhere;
  mret (mkUpdateNode table sets w).

Definition parseDelete : P DeleteNode :=
  consume TokenType.DELETE ;;
  skip TokenType.FROM ;;
  table ← identifier;
  w ← optional (match_token TokenType.WHERE) parseWhere;
  mret (mkDeleteNode table w).

(** *** CREATE and DROP *)

Definition parse_length : P unit :=
  next_token ;;
  (If match_token TokenType.INTEGER Then next_token Else mret tt) ;;
  skip TokenType.RPAREN.

Definition invalid_type : P DataType := error "Tipo de dado inválido".

Definition parse_type_name (name : string) : P DataType :=
  if decide (name = "INT" ∨ name = "INTEGER") then mret DataType.INTEGER
  else if decide (name = "BIGINT") then mret DataType.BIGINT
  else if decide (name = "VARCHAR" ∨ name = "STRING") then
    (If match_token TokenType.LPAREN Then parse_length Else mret tt) ;; mret DataType.VARCHAR
  else if decide (name = "BOOLEAN" ∨ name = "BOOL") then mret DataType.BOOLEAN
  else if decide (name = "DATE") then mret DataType.DATE
  else if decide (name = "DECIMAL" ∨ name = "NUMERIC") then mret DataType.DECIMAL
  else invalid_type.

Definition parseDataType : P DataType :=
  If match_token TokenType.IDENTIFIER
  Then (λ st, (next_token ;; parse_type_name (current_text st)) st)
  Else invalid_type.

Definition set_nullable (b : bool) (c : ColumnDef) : ColumnDef :=
  mkColumnDef (column_name c) (column_type c) (column_length c) b (primary_key c) (unique c)
    (default_value c) (check_expr c).
Definition set_primary_key (c : ColumnDef) : ColumnDef :=
  mkColumnDef (column_name c) (column_type c) (column_length c) (nullable c) true (unique c)
    (default_value c) (check_expr c).
Definition set_unique (c : ColumnDef) : ColumnDef :=
  mkColumnDef (column_name c) (column_type c) (column_length c) (nullable c) (primary_key c) true
    (default_value c) (check_expr c).

(** The [while (true)] over the constraints of a column: it goes on while one of its
    tests holds. *)
Definition column_continues (st : SQLParser) : bool :=
  match_two TokenType.NOT TokenType.NULL st ||
  matchAny [TokenType.NULL; TokenType.PRIMARY; TokenType.UNIQUE; TokenType.DEFAULT] st.

Definition parse_column_constraint (c : ColumnDef) : P ColumnDef :=
  If match_two TokenType.NOT TokenType.NULL
  Then (next_token ;; next_token ;; mret (set_nullable false c))
  Else If match_token TokenType.NULL Then (next_token ;; mret (set_nullable true c))
  Else If match_token TokenType.PRIMARY
  Then (next_token ;; skip TokenType.KEY ;; mret (set_primary_key c))
  Else If match_token TokenType.UNIQUE Then (next_token ;; mret (set_unique c))
  Else (next_token ;; next_token ;; mret c).

Definition parse_column_def : P ColumnDef :=
  name ← identifier;
  type ← parseDataType;
  while_ column_continues parse_column_constraint
    (mkColumnDef name type 0 true false false None "").

Definition constraint_starts : list TokenType :=
  [TokenType.PRIMARY; TokenType.FOREIGN; TokenType.UNIQUE; TokenType.CHECK].

Definition parse_table_constraint : P Constraint :=
  (If match_token TokenType.CONSTRAINT Then next_token Else mret tt) ;;
  If match_token TokenType.PRIMARY
  Then (next_token ;; skip TokenType.KEY ;; cols ← parenthesized parseIdentifierList;
        mret (mkConstraint PRIMARY_KEY cols "" [] ""))
  Else If match_token TokenType.FOREIGN
  Then (next_token ;; skip TokenType.KEY ;; cols ← parenthesized parseIdentifierList;
        skip TokenType.REFERENCES ;; t ← identifier; refs ← parenthesized parseIdentifierList;
        mret (mkConstraint FOREIGN_KEY cols t refs ""))
  Else If match_token TokenType.UNIQUE
  Then (next_token ;; cols ← parenthesized parseIdentifierList;
        mret (mkConstraint UNIQUE cols "" [] ""))
  Else (next_token ;; parenthesized (mret tt) ;; mret (mkConstraint CHECK [] "" [] "TODO")).

Definition parse_table_element : P (ColumnDef + Constraint) :=
  If matchAny constraint_starts
  Then (c ← parse_table_constraint; mret (inr c))
  Else (c ← parse_column_def; mret (inl c)).

Definition lefts {A B} (l : list (A + B)) : list A :=
  omap (λ x, match x with inl a => Some a | inr _ => None end) l.
Definition rights {A B} (l : list (A + B)) : list B :=
  omap (λ x, match x with inr b => Some b | inl _ => None end) l.

Definition parseCreateTable : P CreateTableNode :=
  consume TokenType.TABLE ;;
  name ← identifier;
  elements ← parenthesized (comma_list parse_table_element);
  mret (mkCreateTableNode name (lefts elements) (rights elements)).

Definition parseCreateIndex : P CreateIndexNode :=
  consume TokenType.INDEX ;;
  u ← If match_token TokenType.UNIQUE Then (next_token ;; mret true) Else mret false;
  name ← identifier;
  skip TokenType.ON ;;
  table ← identifier;
  cols ← parenthesized parseIdentifierList;
  mret (mkCreateIndexNode name table cols u).

Definition parseDropTable : P DropTableNode :=
  consume TokenType.TABLE ;;
  e ← If match_undeclared Then (next_token ;; skip TokenType.EXISTS ;; mret true) Else mret false;
  name ← identifier;
  mret (mkDropTableNode name e).

(** *** Transactions *)

Definition skip_transaction : P unit :=
  If match_token TokenType.TRANSACTION Then next_token Else mret tt.

Definition parse_savepoint : P SavepointName :=
  If match_token TokenType.IDENTIFIER
  Then (n ← identifier; mret (mkSavepointName n true))
  Else mret (mkSavepointName "" false).

Definition parseBegin : P SavepointName :=
  consume TokenType.BEGIN ;; skip_transaction ;; parse_savepoint.
Definition parseCommit : P SavepointName :=
  consume TokenType.COMMIT ;; skip_transaction ;; parse_savepoint.
Definition parseRollback : P SavepointName :=
  consume TokenType.ROLLBACK ;; skip_transaction ;;
  If match_undeclared
  Then (next_token ;; skip TokenType.SAVEPOINT ;; n ← identifier; mret (mkSavepointName n true))
  Else parse_savepoint.

(** *** Statements *)

Definition parse_create : P Statement :=
  next_token ;;
  If match_token TokenType.TABLE Then (n ← parseCreateTable; mret (CreateTableStmt n))
  Else If match_token TokenType.INDEX Then (n ← parseCreateIndex; mret (CreateIndexStmt n))
  Else error "Esperado TABLE ou INDEX após CREATE".

Definition parse_drop : P Statement :=
  next_token ;;
  If match_token TokenType.TABLE Then (n ← parseDropTable; mret (DropTableStmt n))
  Else error "Esperado TABLE após DROP".

Definition parseStatement : P Statement := λ st,
  match ttype (current_token st) with
  | TokenType.SELECT => (n ← select; mret (SelectStmt n)) st
  | TokenType.INSERT => (n ← parseInsert; mret (InsertStmt n)) st
  | TokenType.UPDATE => (n ← parseUpdate; mret (UpdateStmt n)) st
  | TokenType.DELETE => (n ← parseDelete; mret (DeleteStmt n)) st
  | TokenType.CREATE => parse_create st
  | TokenType.DROP => parse_drop st
  | TokenType.BEGIN => (n ← parseBegin; mret (BeginStmt n)) st
  | TokenType.COMMIT => (n ← parseCommit; mret (CommitStmt n)) st
  | TokenType.ROLLBACK => (n ← parseRollback; mret (RollbackStmt n)) st
  | _ => error "Instrução SQL não reconhecida" st
  end.
End grammar.

(** ** The recursion through parentheses and subqueries *)

Fixpoint parseExpression (depth : nat) : P ASTNode :=
  match depth with
  | O => stop NoReturn
  | S d => parseLogicalOr (λ st, parseExpression d st) (λ st, parseSelect d st)
  end
with parseSelect (depth : nat) : P SelectNode :=
  match depth with
  | O => stop NoReturn
  | S d => parseSelect_body (λ st, parseExpression d st) (λ st, parseSelect d st)
  end.

Definition parse_tokens : P Statement := λ st,
  let depth := S (tokens_left st) in
  (s ← parseStatement (parseExpression depth) (parseSelect depth);
   If match_token TokenType.END_OF_FILE Then mret s
   Else error "Tokens não processados após o fim da instrução") st.

(** [parse] on a parser: it gets a new lexer and keeps the last error. *)
Definition parse (query : list ascii) : P Statement := λ st,
  (next_token ;; parse_tokens)
    (mkSQLParser (Lexer_new query) (current_token st) (last_error st)).

(** [SQLParser()] *)
Definition SQLParser_new : SQLParser :=
  mkSQLParser (Lexer_new []) (mkToken TokenType.UNKNOWN "" 0 0) "".

Definition parse_string (query : string) : Outcome Statement :=
  parse (String.list_ascii_of_string query) SQLParser_new.
