(* ===== verification/ParserLogic.v ===== *)
(** * ParserLogic: reasoning about the parser on lists of tokens

    [sees ts st] says that the parser at [st] has the tokens [ts] in front of it and
    then the end of the input for ever.  [wp m Q E ts] is a weakest precondition over
    token lists: from any parser that sees [ts], [m] either returns a result and a
    parser that sees some [ts'] with [Q], or stops for a reason in [E].  The rules
    below are one per construct of [Parser]; the fuel of loops disappears in them. *)

From stdpp Require Import list gmap strings.
From S2P Require Import Prelude CxxString Types Lexer LexerProofs AST Parser.

Open Scope Z_scope.

(** ** Tokens in front of the parser *)

Definition tok : Type := TokenType * string.
Definition tok_of (t : Token) : tok := (ttype t, ttext t).

Definition head_type (ts : list tok) : TokenType :=
  match ts with t :: _ => t.1 | [] => TokenType.END_OF_FILE end.
Definition head_text (ts : list tok) : string :=
  match ts with t :: _ => t.2 | [] => "" end.

Definition step_parser (st : SQLParser) : SQLParser :=
  mkSQLParser (nextToken (lexer st)).1 (nextToken (lexer st)).2 (last_error st).

Fixpoint sees (ts : list tok) (st : SQLParser) : Prop :=
  match ts with
  | [] => tok_of (current_token st) = (TokenType.END_OF_FILE, "") ∧ rest (lexer st) = []
  | t :: ts' =>
      tok_of (current_token st) = t ∧ t.1 ≠ TokenType.END_OF_FILE ∧ sees ts' (step_parser st)
  end.

Lemma next_token_step st : next_token st = Returns tt (step_parser st).
Proof. unfold next_token, step_parser. by destruct (nextToken (lexer st)). Qed.

Lemma sees_type ts st : sees ts st → ttype (current_token st) = head_type ts.
Proof. destruct ts; intros (H & _); by inversion H. Qed.

Lemma sees_text ts st : sees ts st → ttext (current_token st) = head_text ts.
Proof. destruct ts; intros (H & _); by inversion H. Qed.

Lemma sees_next ts st : sees ts st → sees (tail ts) (step_parser st).
Proof.
  destruct ts as [|t ts]; [|by intros (_ & _ & H)]. intros [_ Hr]. cbn [tail sees].
  destruct (nextToken_blank (lexer st) [] Hr) as (lx & t & Hn & Ht); [constructor|].
  unfold step_parser, tok_of. rewrite Hn. cbn. split; [done|].
  pose proof (nextToken_progress _ _ _ Hn) as [_ Hp]. rewrite decide_True in Hp by (by inversion Ht).
  apply Hp.
Qed.

(** Every parser that has read its current token sees some list. *)
Lemma token_stream_sees fuel lx ts lx' err :
  token_stream fuel lx = Some (ts, lx') →
  ∃ us, sees us (step_parser (mkSQLParser lx (mkToken TokenType.UNKNOWN "" 0 0) err)) ∧
    length ts = S (length us).
Proof.
  revert lx ts. induction fuel as [|fuel IH]; intros lx ts; [done|]. cbn [token_stream].
  destruct (nextToken lx) as [lx1 t] eqn:Hn. pose proof (nextToken_progress _ _ _ Hn) as [_ Hp].
  destruct (decide (ttype t = TokenType.END_OF_FILE)) as [He|Hne]; intros Hs.
  - simplify_eq. exists []. split; [|done]. unfold step_parser. cbn [lexer]. rewrite Hn. cbn.
    destruct Hp as [Hp1 Hp2]. split; [|done]. by rewrite Hp2.
  - apply bind_Some in Hs as ([ts1 lx2] & Hs & Heq). simplify_eq.
    destruct (IH _ _ Hs) as (us & Hus & Hl). exists (tok_of t :: us).
    unfold step_parser in *. cbn [lexer last_error] in *. rewrite Hn in *. cbn in *.
    split_and!; [done|done|done|]. by rewrite Hl.
Qed.

Lemma sees_ignores_token ts lx t t' err :
  sees ts (step_parser (mkSQLParser lx t err)) ↔ sees ts (step_parser (mkSQLParser lx t' err)).
Proof. by destruct ts. Qed.

Lemma sees_total lx t err :
  ∃ ts, sees ts (step_parser (mkSQLParser lx t err)).
Proof.
  destruct (token_stream_total (S (length (rest lx))) lx) as (ts & lx' & Hs & _); [lia|].
  destruct (token_stream_sees _ _ _ _ err Hs) as (us & Hus & _). exists us.
  by eapply sees_ignores_token.
Qed.

Lemma sees_fun ts us st : sees ts st → sees us st → ts = us.
Proof.
  revert us st. induction ts as [|t ts IH]; intros [|u us] st; cbn.
  - done.
  - intros [H1 _] (H2 & H3 & _). rewrite H1 in H2. by subst u.
  - intros (H2 & H3 & _) [H1 _]. rewrite H1 in H2. by subst t.
  - intros (<- & _ & H1) (<- & _ & H2). f_equal. by eapply IH.
Qed.

Lemma sees_tokens_left ts st : sees ts st → tokens_left st = length ts.
Proof.
  intros Hs. unfold tokens_left, match_token. rewrite (sees_type _ _ Hs).
  destruct ts as [|t ts]; [done|]. cbn [head_type]. rewrite bool_decide_false by apply Hs.
  destruct (token_stream_total (S (length (rest (lexer st)))) (lexer st))
    as (us & lx' & Hu & _); [lia|]. rewrite Hu.
  destruct (token_stream_sees _ _ _ _ (last_error st) Hu) as (vs & Hv & ->). cbn. f_equal.
  destruct Hs as (_ & _ & Hs). destruct st as [lx c err]. cbn in *.
  f_equal. by eapply sees_fun; [eapply sees_ignores_token|].
Qed.

Lemma sees_error ts lx t e e' : sees ts (mkSQLParser lx t e) → sees ts (mkSQLParser lx t e').
Proof.
  revert lx t. induction ts as [|u ts IH]; intros lx t; cbn; [done|].
  intros (H1 & H2 & H3). split_and!; [done|done|]. unfold step_parser in *. cbn in *.
  by eapply IH.
Qed.

(** ** Tests as functions of the tokens *)

Class Test (c : SQLParser → bool) (f : list tok → bool) : Prop :=
  test_sees ts st : sees ts st → c st = f ts.

Definition at_ (t : TokenType) (ts : list tok) : bool := bool_decide (head_type ts = t).
Definition at_any (l : list TokenType) (ts : list tok) : bool := existsb (λ t, at_ t ts) l.
Definition at_two (a b : TokenType) (ts : list tok) : bool := at_ a ts && at_ b (tail ts).

#[export] Instance Test_match t : Test (match_token t) (at_ t).
Proof. intros ts st Hs. unfold match_token, at_. by rewrite (sees_type _ _ Hs). Qed.
#[export] Instance Test_any l : Test (matchAny l) (at_any l).
Proof.
  intros ts st Hs. unfold matchAny, at_any. induction l as [|t l IH]; cbn; [done|].
  by rewrite IH, (Test_match t ts st Hs).
Qed.
#[export] Instance Test_two a b : Test (match_two a b) (at_two a b).
Proof.
  intros ts st Hs. unfold match_two, at_two. rewrite (Test_match a ts st Hs). f_equal.
  unfold peekToken, at_. rewrite <- (sees_type _ _ (sees_next _ _ Hs)).
  unfold step_parser. cbn. by destruct (nextToken (lexer st)).
Qed.
#[export] Instance Test_negated t : Test (maybe_negated t) (λ ts, at_ t ts || at_two TokenType.NOT t ts).
Proof. intros ts st Hs. unfold maybe_negated. by rewrite (Test_match t ts st Hs), (Test_two _ t ts st Hs). Qed.
#[export] Instance Test_undeclared : Test match_undeclared (λ _, false).
Proof. done. Qed.
#[export] Instance Test_not c f `{Test c f} : Test (λ st, negb (c st)) (λ ts, negb (f ts)).
Proof. intros ts st Hs. by rewrite (test_sees ts st Hs). Qed.
#[export] Instance Test_column :
  Test column_continues
    (λ ts, at_two TokenType.NOT TokenType.NULL ts ||
       at_any [TokenType.NULL; TokenType.PRIMARY; TokenType.UNIQUE; TokenType.DEFAULT] ts).
Proof. intros ts st Hs. unfold column_continues. by rewrite (Test_two _ _ ts st Hs), (Test_any _ ts st Hs). Qed.

(** ** Weakest preconditions *)

Definition wp {A} (m : P A) (Q : A → list tok → Prop) (E : Stop → Prop) (ts : list tok) : Prop :=
  ∀ st, sees ts st →
    match m st with
    | Returns a st' => ∃ ts', sees ts' st' ∧ Q a ts'
    | Stops s _ => E s
    end.

(** What [error] throws, whatever the position. *)
Definition syntax_error (message : string) (s : Stop) : Prop :=
  ∃ pos, s = Throws (runtime_error ("Erro de sintaxe em " +:+ pos +:+ ": " +:+ message)).

Definition expected (t : TokenType) (ts : list tok) : string :=
  "Esperado " +:+ to_string (Z.of_nat (TokenType.code t)) +:+ ", encontrado '" +:+
  head_text ts +:+ "'".

Section rules.
Context {A B : Type}.
Implicit Types (E : Stop → Prop) (ts : list tok).

Lemma wp_mono (m : P A) (Q Q' : A → list tok → Prop) E E' ts :
  wp m Q E ts → (∀ a ts', Q a ts' → Q' a ts') → (∀ s, E s → E' s) → wp m Q' E' ts.
Proof.
  intros Hm HQ HE st Hs. specialize (Hm st Hs). destruct (m st); [|by apply HE].
  destruct Hm as (ts' & H1 & H2). eauto.
Qed.

Lemma wp_ret (a : A) (Q : A → list tok → Prop) E ts : Q a ts → wp (mret a) Q E ts.
Proof. intros HQ st Hs. by exists ts. Qed.

Lemma wp_bind (m : P A) (f : A → P B) (Q : B → list tok → Prop) E ts :
  wp m (λ a ts', wp (f a) Q E ts') E ts → wp (m ≫= f) Q E ts.
Proof.
  intros Hm st Hs. specialize (Hm st Hs). unfold mbind, P_bind. destruct (m st); [|done].
  destruct Hm as (ts' & H1 & H2). by apply H2.
Qed.

Lemma wp_next (Q : () → list tok → Prop) E ts : Q tt (tail ts) → wp next_token Q E ts.
Proof. intros HQ st Hs. rewrite next_token_step. eauto using sees_next. Qed.

Lemma wp_stop s (Q : A → list tok → Prop) E ts : E s → wp (stop s) Q E ts.
Proof. by intros HE st Hs. Qed.

Lemma wp_try (r : Exn + A) (Q : A → list tok → Prop) E ts :
  match r with inl e => E (Throws e) | inr a => Q a ts end → wp (try_exn r) Q E ts.
Proof. destruct r; [apply wp_stop|apply wp_ret]. Qed.

Lemma wp_error message (Q : A → list tok → Prop) E ts :
  (∀ s, syntax_error message s → E s) → wp (error message) Q E ts.
Proof. intros HE st Hs. apply HE. by eexists. Qed.

Lemma wp_choose c f `{Test c f} (m1 m2 : P A) Q E ts :
  (f ts = true → wp m1 Q E ts) → (f ts = false → wp m2 Q E ts) → wp (choose c m1 m2) Q E ts.
Proof.
  intros H1 H2 st Hs. unfold choose. rewrite (test_sees ts st Hs).
  destruct (f ts); [by apply H1|by apply H2].
Qed.

Lemma wp_expect t (Q : () → list tok → Prop) E ts :
  (head_type ts = t → Q tt ts) →
  (head_type ts ≠ t → ∀ s, syntax_error (expected t ts) s → E s) → wp (expect t) Q E ts.
Proof.
  intros H1 H2 st Hs. unfold expect. rewrite (Test_match t ts st Hs). unfold at_.
  destruct (decide (head_type ts = t)) as [He|Hne].
  - rewrite bool_decide_true by done. exists ts. auto.
  - rewrite bool_decide_false by done. apply H2; [done|]. eexists.
    unfold expected. by rewrite (sees_text _ _ Hs).
Qed.

(** A definition that reads the text of the current token. *)
Lemma wp_text (f : string → P A) Q E ts :
  wp (f (head_text ts)) Q E ts → wp (λ st, f (ttext (current_token st)) st) Q E ts.
Proof. intros Hf st Hs. rewrite (sees_text _ _ Hs). by apply Hf. Qed.
End rules.

Lemma wp_skip t (Q : () → list tok → Prop) E ts :
  (head_type ts = t → Q tt (tail ts)) →
  (head_type ts ≠ t → ∀ s, syntax_error (expected t ts) s → E s) → wp (skip t) Q E ts.
Proof. intros H1 H2. apply wp_bind, wp_expect; [|done]. intros. by apply wp_next, H1. Qed.

Lemma wp_consume t (Q : Token → list tok → Prop) E ts :
  (head_type ts = t → ∀ k, ttype k = t → ttext k = head_text ts → Q k (tail ts)) →
  (head_type ts ≠ t → ∀ s, syntax_error (expected t ts) s → E s) → wp (consume t) Q E ts.
Proof.
  intros H1 H2 st Hs. unfold consume.
  assert (wp (expect t ;; next_token ;; mret (current_token st)) Q E ts) as Hw; [|by apply Hw].
  apply wp_bind, wp_expect; [|done]. intros Ht. apply wp_bind, wp_next, wp_ret, H1; [done| |].
  - by rewrite (sees_type _ _ Hs).
  - apply (sees_text _ _ Hs).
Qed.

Lemma wp_identifier (Q : string → list tok → Prop) E ts :
  (head_type ts = TokenType.IDENTIFIER → Q (head_text ts) (tail ts)) →
  (head_type ts ≠ TokenType.IDENTIFIER →
   ∀ s, syntax_error (expected TokenType.IDENTIFIER ts) s → E s) → wp identifier Q E ts.
Proof.
  intros H1 H2. apply wp_bind, wp_consume; [|done]. intros Ht k _ ->. by apply wp_ret, H1.
Qed.

(** ** Loops *)

Section loops.
Context {A : Type} (E : Stop → Prop).

(** A loop that keeps an invariant and consumes a token in every turn. *)
Lemma wp_while c f `{Test c f} (body : A → P A) (I : A → list tok → Prop)
    (Q : A → list tok → Prop) a ts :
  I a ts →
  (∀ a ts, I a ts → f ts = true →
     wp (body a) (λ a' ts', I a' ts' ∧ (length ts' < length ts)%nat) E ts) →
  (∀ a ts, I a ts → f ts = false → Q a ts) → wp (while_ c body a) Q E ts.
Proof.
  intros HI Hb HQ st Hs. unfold while_. rewrite (sees_tokens_left _ _ Hs).
  assert (∀ n a ts, (length ts < n)%nat → I a ts → wp (while_loop n c body a) Q E ts) as Hn.
  { clear - HQ Hb H. induction n as [|n IH]; intros a ts Hl HI; [lia|]. cbn [while_loop].
    apply (wp_choose _ _); intros Hf.
    - apply wp_bind. eapply wp_mono; [by apply Hb| |done]. intros a' ts' [HI' Hl'].
      apply IH; [lia|done].
    - by apply wp_ret, HQ. }
  exact (Hn (S (length ts)) a ts ltac:(lia) HI st Hs).
Qed.

Lemma while_loop_mono c (body : A → P A) n m a st :
  (n ≤ m)%nat →
  match while_loop n c body a st with
  | Stops NoReturn _ => True
  | o => while_loop m c body a st = o
  end.
Proof.
  revert m a st. induction n as [|n IH]; intros m a st Hl; [done|].
  destruct m as [|m]; [lia|]. cbn [while_loop]. unfold choose. destruct (c st); [|done].
  unfold mbind, P_bind. destruct (body a st) as [a' st'|s st']; [|by destruct s].
  apply (IH m a' st'). lia.
Qed.

Hypothesis ends : ¬ E NoReturn.

(** One turn of a loop, and its end. *)
Lemma wp_while_step c f `{Test c f} (body : A → P A) Q a ts :
  f ts = true →
  wp (body a) (λ a' ts', (length ts' < length ts)%nat ∧ wp (while_ c body a') Q E ts') E ts →
  wp (while_ c body a) Q E ts.
Proof.
  intros Hf Hb st Hs. unfold while_. rewrite (sees_tokens_left _ _ Hs). cbn [while_loop].
  unfold choose. rewrite (test_sees ts st Hs), Hf. specialize (Hb st Hs).
  unfold mbind, P_bind. destruct (body a st) as [a' st'|s st']; [|done].
  destruct Hb as (ts' & Hs' & Hl & Hw). specialize (Hw st' Hs'). unfold while_ in Hw.
  rewrite (sees_tokens_left _ _ Hs') in Hw.
  pose proof (while_loop_mono c body (S (length ts')) (length ts) a' st' Hl) as Hm.
  destruct (while_loop (S (length ts')) c body a' st') as [a2 st2|[e| |] st2];
    by rewrite ?Hm.
Qed.

Lemma wp_while_stop c f `{Test c f} (body : A → P A) (Q : A → list tok → Prop) a ts :
  f ts = false → Q a ts → wp (while_ c body a) Q E ts.
Proof.
  intros Hf HQ st Hs. unfold while_. cbn [while_loop]. unfold choose.
  rewrite (test_sees ts st Hs), Hf. by exists ts.
Qed.
End loops.

Section lists.
Context {A : Type} (E : Stop → Prop).

(** A list whose items consume tokens and keep [I]. *)
Lemma wp_comma_list (item : P A) (I : list tok → Prop) (R : A → Prop) (Q : list A → list tok → Prop) ts :
  I ts → (∀ ts, I ts → I (tail ts)) →
  (∀ ts, I ts → wp item (λ a ts', R a ∧ I ts' ∧ (length ts' < length ts)%nat) E ts) →
  (∀ l ts', l ≠ [] → Forall R l → I ts' → (length ts' < length ts)%nat →
     head_type ts' ≠ TokenType.COMMA → Q l ts') →
  wp (comma_list item) Q E ts.
Proof.
  intros HI Ht Hi HQ st Hs. unfold comma_list. rewrite (sees_tokens_left _ _ Hs).
  assert (∀ n us, (length us < n)%nat → I us →
    wp (comma_loop n item)
      (λ l ts', l ≠ [] ∧ Forall R l ∧ I ts' ∧ (length ts' < length us)%nat ∧
         head_type ts' ≠ TokenType.COMMA) E us) as Hn.
  { clear - Hi Ht. induction n as [|n IH]; intros ts Hl HI; [lia|]. cbn [comma_loop].
    apply wp_bind. eapply wp_mono; [by apply Hi| |done]. intros a ts' (HR & HI' & Hl').
    apply (wp_choose _ _); unfold at_; intros Hc; apply bool_decide_eq_true in Hc || apply bool_decide_eq_false in Hc.
    - apply wp_bind, wp_next, wp_bind. eapply wp_mono; [apply IH| |done]; [|by apply Ht|].
      + destruct ts'; cbn; [done|cbn in *; lia].
      + intros l ts2 (H1 & H2 & H3 & H4 & H5). apply wp_ret. split_and!; [done|by constructor|done| |done].
        destruct ts'; cbn in *; lia.
    - apply wp_ret. split_and!; [done|by repeat constructor|done|done|done]. }
  apply (wp_mono _ _ _ _ _ _ (Hn (S (length ts)) ts ltac:(lia) HI)); [|done|done].
  intros l ts' (H1 & H2 & H3 & H4 & H5). auto.
Qed.

Lemma comma_loop_mono (item : P A) n m st :
  (n ≤ m)%nat →
  match comma_loop n item st with
  | Stops NoReturn _ => True
  | o => comma_loop m item st = o
  end.
Proof.
  revert m st. induction n as [|n IH]; intros m st Hl; [done|].
  destruct m as [|m]; [lia|]. cbn [comma_loop]. unfold mbind, P_bind.
  destruct (item st) as [a st'|s st']; [|by destruct s]. unfold choose.
  destruct (match_token TokenType.COMMA st'); [|done]. rewrite next_token_step.
  specialize (IH m (step_parser st') ltac:(lia)).
  destruct (comma_loop n item (step_parser st')) as [l st2|[e| |] st2]; by rewrite ?IH.
Qed.

Hypothesis ends : ¬ E NoReturn.

Lemma wp_comma_cons (item : P A) Q ts :
  wp item (λ a us,
    (length us ≤ length ts)%nat ∧
    if at_ TokenType.COMMA us
    then us ≠ [] ∧ wp (comma_list item) (λ l, Q (a :: l)) E (tail us)
    else Q [a] us) E ts →
  wp (comma_list item) Q E ts.
Proof.
  intros Hi st Hs. unfold comma_list. rewrite (sees_tokens_left _ _ Hs). cbn [comma_loop].
  specialize (Hi st Hs). unfold mbind, P_bind. destruct (item st) as [a st'|s st']; [|done].
  destruct Hi as (us & Hu & Hl & Hi). unfold choose. rewrite (Test_match _ us st' Hu).
  destruct (at_ TokenType.COMMA us); [|by exists us]. rewrite next_token_step.
  destruct Hi as [Hne Hi]. specialize (Hi _ (sees_next _ _ Hu)). unfold comma_list in Hi.
  rewrite (sees_tokens_left _ _ (sees_next _ _ Hu)) in Hi.
  assert (S (length (tail us)) ≤ length ts)%nat as Hle by (destruct us; cbn in *; [done|lia]).
  pose proof (comma_loop_mono item _ _ (step_parser st') Hle) as Hm.
  destruct (comma_loop (S (length (tail us))) item (step_parser st')) as [l st2|[e| |] st2];
    by rewrite ?Hm.
Qed.
End lists.
