(* ===== verification/ParserShape.v ===== *)
(** * ParserShape: the parser ends, and what it builds

    One pass over the grammar with the rules of [ParserLogic] shows two things.  The
    parser does not run for ever unless it meets the token CASE, and the tree it returns has
    a definite shape ([expr_ok], [select_ok], [statement_ok]): which operators occur
    and where, which members are empty, which values literals have.  The shape is
    relative to a predicate on literals, and to tokens whose texts are as the lexer
    makes them ([tok_ok]). *)

From stdpp Require Import list gmap strings.
From S2P Require Import Prelude CxxString Types Lexer LexerProofs AST Parser ParserLogic.

Open Scope Z_scope.

#[export] Instance Value_eq_dec : EqDecision Value.
Proof. solve_decision. Defined.

(** ** Names and literals *)

Definition is_upper_char (c : ascii) : bool := bool_decide (toupper c = c).

Definition upper_text (s : string) : bool :=
  forallb is_upper_char (String.list_ascii_of_string s).

(** The identifiers of upper-case input: words that are not keywords. *)
Definition name_ok (s : string) : bool :=
  match String.list_ascii_of_string s with
  | c :: w => starts_word c && forallb is_word_char w
  | [] => false
  end && upper_text s && bool_decide (keywords !! s = None).

Definition alias_ok (s : string) : bool := bool_decide (s = "") || name_ok s.

Definition int_ok (z : Z) : bool := (0 <=? z) && (z <? 2 ^ 31).

Definition literal_printable (v : Value) : bool :=
  bool_decide (v = Value_int (data v)) && int_ok (data v) ||
  bool_decide (v = Value_string (str_val v)) && upper_text (str_val v) ||
  bool_decide (v = Value_bool true) || bool_decide (v = Value_bool false) ||
  bool_decide (v = Value_null).

Definition literal_typed (v : Value) : bool :=
  literal_printable v ||
  bool_decide (v = Value_bigint (data v)) && (0 <=? data v) && (data v <? 2 ^ 63).

(** ** Shapes of trees *)

(** The operators between two operands of a level. *)
Definition chain_ops : list (TokenType * Operator) :=
  or_ops ++ and_ops ++ equality_ops ++ relational_ops ++ additive_ops ++ multiplicative_ops.
Definition chain_op (op : Operator) : bool :=
  existsb (λ e, bool_decide (e.2 = op)) chain_ops || bool_decide (op = Operator.NOT_LIKE).

Definition null_op (op : Operator) : bool :=
  bool_decide (op = Operator.IS_NULL) || bool_decide (op = Operator.IS_NOT_NULL).
Definition unary_op (op : Operator) : bool :=
  existsb (λ e, bool_decide (e.2 = op)) unary_ops || null_op op.

(** IN takes any left operand, NOT IN only a test for NULL. *)
Definition in_op (op : Operator) (left : ASTNode) : bool :=
  bool_decide (op = Operator.IN) ||
  bool_decide (op = Operator.NOT_IN) &&
    match left with UnaryExprNode o _ => null_op o | _ => false end.

Definition nonempty {A} (l : list A) : bool := match l with [] => false | _ => true end.

Definition limit_ok (l : LimitNode) : bool :=
  (-1 <=? limit l) && (limit l <? 2 ^ 31) && (-1 <=? offset l) && (offset l <? 2 ^ 31).

Definition names_ok (l : list string) : bool := nonempty l && forallb name_ok l.

Section shape.
Variable lit : Value → bool.

Fixpoint expr_ok (e : ASTNode) : bool :=
  match e with
  | LiteralNode v => lit v
  | ListNode => false
  | ColumnRefNode t c => alias_ok t && name_ok c
  | BinaryExprNode op l (Some r) =>
      if chain_op op then expr_ok l && expr_ok r
      else in_op op l && expr_ok l &&
           match r with ListNode => true | Subquery s => select_ok s | _ => false end
  | BinaryExprNode _ _ None => false
  | UnaryExprNode op e => unary_op op && expr_ok e
  | FunctionCallNode _ _ _ => false
  | Subquery s => select_ok s
  end
with select_ok (s : SelectNode) : bool :=
  match s with
  | mkSelectNode _ items aliases tables joins w g h o lim op operand =>
      nonempty items && forallb expr_ok items && bool_decide (aliases = []) &&
      nonempty tables &&
      forallb (λ t : TableRef SelectNode,
        alias_ok (table_alias t) &&
        match subquery t with
        | None => name_ok (table_name t)
        | Some s => bool_decide (table_name t = "") && select_ok s
        end) tables &&
      forallb (λ j : JoinClause ASTNode,
        negb (bool_decide (join_type j = JoinType.NATURAL)) &&
        name_ok (join_table j) && alias_ok (join_alias j) && forallb name_ok (using_columns j) &&
        match condition j with
        | Some e => bool_decide (using_columns j = []) && expr_ok e
        | None => true
        end) joins &&
      match w with Some e => expr_ok e | None => true end &&
      match g with Some l => nonempty l && forallb expr_ok l | None => true end &&
      match h with Some e => expr_ok e | None => true end &&
      match o with
      | Some l => nonempty l && forallb (λ i : OrderItem ASTNode, expr_ok (item_expr i)) l
      | None => true
      end &&
      match lim with Some l => limit_ok l | None => true end &&
      match op, operand with
      | SetOperation.NONE, None => true
      | SetOperation.NONE, Some _ | _, None => false
      | _, Some s => select_ok s
      end
  end.

Definition table_ok (t : TableRef SelectNode) : bool :=
  alias_ok (table_alias t) &&
  match subquery t with
  | None => name_ok (table_name t)
  | Some s => bool_decide (table_name t = "") && select_ok s
  end.
Definition join_ok (j : JoinClause ASTNode) : bool :=
  negb (bool_decide (join_type j = JoinType.NATURAL)) &&
  name_ok (join_table j) && alias_ok (join_alias j) && forallb name_ok (using_columns j) &&
  match condition j with
  | Some e => bool_decide (using_columns j = []) && expr_ok e
  | None => true
  end.
Definition option_ok {A} (p : A → bool) (o : option A) : bool :=
  match o with Some a => p a | None => true end.
Definition list_ok {A} (p : A → bool) (l : list A) : bool := nonempty l && forallb p l.
Definition order_ok (i : OrderItem ASTNode) : bool := expr_ok (item_expr i).
Definition operand_ok (op : SetOperation) (operand : option SelectNode) : bool :=
  match op, operand with
  | SetOperation.NONE, None => true
  | SetOperation.NONE, Some _ | _, None => false
  | _, Some s => select_ok s
  end.

Lemma select_ok_eq dist items al tables joins w g h o lim op operand :
  select_ok (mkSelectNode dist items al tables joins w g h o lim op operand) = true ↔
  al = [] ∧ list_ok expr_ok items = true ∧ list_ok table_ok tables = true ∧ forallb join_ok joins = true ∧
  option_ok expr_ok w = true ∧ option_ok (list_ok expr_ok) g = true ∧ option_ok expr_ok h = true ∧
  option_ok (list_ok order_ok) o = true ∧ option_ok limit_ok lim = true ∧
  operand_ok op operand = true.
Proof.
  change (select_ok (mkSelectNode dist items al tables joins w g h o lim op operand)) with
    (nonempty items && forallb expr_ok items && bool_decide (al = []) && nonempty tables &&
     forallb table_ok tables && forallb join_ok joins && option_ok expr_ok w &&
     option_ok (list_ok expr_ok) g && option_ok expr_ok h && option_ok (list_ok order_ok) o &&
     option_ok limit_ok lim && operand_ok op operand).
  change (list_ok expr_ok items) with (nonempty items && forallb expr_ok items).
  change (list_ok table_ok tables) with (nonempty tables && forallb table_ok tables).
  rewrite !andb_true_iff, bool_decide_eq_true. tauto.
Qed.

Definition rows_ok (n : InsertNode) : bool :=
  match insert_select n with
  | None => list_ok (list_ok expr_ok) (insert_values n)
  | Some s => bool_decide (insert_values n = []) && select_ok s
  end.
Definition insert_ok (n : InsertNode) : bool :=
  name_ok (insert_table n) && forallb name_ok (insert_columns n) && rows_ok n.
Definition assignment_ok (a : Assignment) : bool :=
  name_ok (assigned_column a) && expr_ok (assigned_value a).
Definition update_ok (n : UpdateNode) : bool :=
  name_ok (update_table n) && list_ok assignment_ok (assignments n) &&
  option_ok expr_ok (update_where n).
Definition delete_ok (n : DeleteNode) : bool :=
  name_ok (delete_table n) && option_ok expr_ok (delete_where n).

Definition column_types : list (DataType * string) :=
  [(DataType.INTEGER, "INT"); (DataType.BIGINT, "BIGINT"); (DataType.VARCHAR, "VARCHAR");
   (DataType.BOOLEAN, "BOOL"); (DataType.DATE, "DATE"); (DataType.DECIMAL, "DECIMAL")].
Definition column_ok (c : ColumnDef) : bool :=
  name_ok (column_name c) && existsb (λ e, bool_decide (e.1 = column_type c)) column_types &&
  (column_length c =? 0) &&
  match default_value c with None => true | Some _ => false end && bool_decide (check_expr c = "").
Definition constraint_ok (c : Constraint) : bool :=
  match constraint_type c with
  | PRIMARY_KEY | UNIQUE =>
      names_ok (constraint_columns c) &&
      bool_decide (ref_table c = "" ∧ ref_columns c = [] ∧ constraint_check c = "")
  | FOREIGN_KEY =>
      names_ok (constraint_columns c) && name_ok (ref_table c) && names_ok (ref_columns c) &&
      bool_decide (constraint_check c = "")
  | CHECK =>
      bool_decide (constraint_columns c = [] ∧ ref_table c = "" ∧ ref_columns c = [] ∧
                   constraint_check c = "TODO")
  end.
Definition create_table_ok (n : CreateTableNode) : bool :=
  name_ok (create_table_name n) && forallb column_ok (create_columns n) &&
  forallb constraint_ok (constraints n) &&
  (nonempty (create_columns n) || nonempty (constraints n)).
Definition create_index_ok (n : CreateIndexNode) : bool :=
  name_ok (index_name n) && name_ok (index_table n) && names_ok (index_columns n).
Definition drop_table_ok (n : DropTableNode) : bool :=
  name_ok (drop_table_name n) && negb (if_exists n).
Definition savepoint_ok (n : SavepointName) : bool :=
  if is_savepoint n then name_ok (savepoint_name n) else bool_decide (savepoint_name n = "").

Definition statement_ok (s : Statement) : bool :=
  match s with
  | SelectStmt n => select_ok n
  | InsertStmt n => insert_ok n
  | UpdateStmt n => update_ok n
  | DeleteStmt n => delete_ok n
  | CreateTableStmt n => create_table_ok n
  | CreateIndexStmt n => create_index_ok n
  | DropTableStmt n => drop_table_ok n
  | BeginStmt n | CommitStmt n | RollbackStmt n => savepoint_ok n
  end.
End shape.

(** ** The pass over the grammar *)

(** What a token that carries a text may hold. *)
Definition tok_ok (lit : Value → bool) (t : tok) : bool :=
  match t.1 with
  | TokenType.IDENTIFIER => name_ok t.2
  | TokenType.INTEGER =>
      match stoi_exn t.2 with inr z => int_ok z && lit (Value_int z) | inl _ => true end
  | TokenType.FLOAT =>
      match stod_exn t.2 with
      | inr f => match cast_int64 f with Some z => lit (Value_bigint z) | None => true end
      | inl _ => true
      end
  | TokenType.STRING => lit (Value_string t.2)
  | _ => true
  end.

Lemma forallb_Forall {A} (p : A → bool) l : forallb p l = true ↔ Forall (λ a, p a = true) l.
Proof. rewrite forallb_forall, Forall_forall. by setoid_rewrite list_elem_of_In. Qed.

Lemma list_ok_intro {A} (p : A → bool) l :
  l ≠ [] ∧ Forall (λ a, p a = true) l → list_ok p l = true.
Proof. intros [H1 H2]. destruct l; [done|]. by apply forallb_Forall. Qed.

Lemma length_tail {A} (l : list A) : length (tail l) = (length l - 1)%nat.
Proof. destruct l; cbn; lia. Qed.

Lemma head_length ts : head_type ts ≠ TokenType.END_OF_FILE → (0 < length ts)%nat.
Proof. destruct ts; cbn; [done|lia]. Qed.

Lemma at_true t ts : at_ t ts = true → head_type ts = t.
Proof. apply bool_decide_eq_true. Qed.
Lemma at_false t ts : at_ t ts = false → head_type ts ≠ t.
Proof. apply bool_decide_eq_false. Qed.

Lemma at_any_app l1 l2 ts : at_any (l1 ++ l2) ts = at_any l1 ts || at_any l2 ts.
Proof. apply existsb_app. Qed.

Lemma not_any l ts : at_any l ts = false → head_type ts ∉ l.
Proof.
  unfold at_any. induction l as [|t l IH]; cbn; [intros _; set_solver|].
  intros [H1 H2]%orb_false_iff. apply at_false in H1. set_solver.
Qed.

Lemma any_in l ts : at_any l ts = true → head_type ts ∈ l.
Proof.
  unfold at_any. induction l as [|t l IH]; cbn; [done|].
  intros [H%at_true|H]%orb_true_iff; set_solver.
Qed.

Lemma any_length l ts :
  bool_decide (TokenType.END_OF_FILE ∈ l) = false → at_any l ts = true → (0 < length ts)%nat.
Proof.
  intros Hl Ha%any_in. apply bool_decide_eq_false in Hl. apply head_length. by intros He; rewrite He in Ha.
Qed.

(** The operator that a test has found. *)
Lemma any_op ops ts : at_any (map fst ops) ts = true →
  ∃ op, find_op ops (head_type ts) = Some op ∧ In (head_type ts, op) ops.
Proof.
  unfold at_any, find_op. induction ops as [|[t op] ops IH]; cbn [map existsb fst find]; [done|].
  unfold at_ at 1. destruct (decide (head_type ts = t)) as [Ht|Ht].
  - intros _. rewrite (bool_decide_true (t = head_type ts)) by done. exists op.
    split; [done|left; by rewrite Ht].
  - rewrite !bool_decide_false by congruence. cbn. intros H. destruct (IH H) as (o & H1 & H2).
    exists o. split; [done|by right].
Qed.

Lemma wp_operator ops op Q E ts :
  find_op ops (head_type ts) = Some op → Q op ts → wp (operator_of ops) Q E ts.
Proof.
  intros Hf HQ st Hs. unfold operator_of. rewrite (sees_type _ _ Hs), Hf. by exists ts.
Qed.

(** The statement for the type of its first token. *)
Definition statement_for (expr : P ASTNode) (select : P SelectNode) (t : TokenType) : P Statement :=
  match t with
  | TokenType.SELECT => n ← select; mret (SelectStmt n)
  | TokenType.INSERT => n ← parseInsert expr select; mret (InsertStmt n)
  | TokenType.UPDATE => n ← parseUpdate expr; mret (UpdateStmt n)
  | TokenType.DELETE => n ← parseDelete expr; mret (DeleteStmt n)
  | TokenType.CREATE => parse_create
  | TokenType.DROP => parse_drop
  | TokenType.BEGIN => n ← parseBegin; mret (BeginStmt n)
  | TokenType.COMMIT => n ← parseCommit; mret (CommitStmt n)
  | TokenType.ROLLBACK => n ← parseRollback; mret (RollbackStmt n)
  | _ => error "Instrução SQL não reconhecida"
  end.

Lemma wp_statement expr select Q E ts :
  wp (statement_for expr select (head_type ts)) Q E ts → wp (parseStatement expr select) Q E ts.
Proof.
  intros Hw st Hs. specialize (Hw st Hs). unfold parseStatement. rewrite (sees_type _ _ Hs).
  by destruct (head_type ts).
Qed.

Section pass.
Context (lit : Value → bool) (E : Stop → Prop).
Hypothesis lit_bool : ∀ b, lit (Value_bool b) = true.
Hypothesis lit_null : lit Value_null = true.
Hypothesis lit_star : lit (Value_string "*") = true.
Hypothesis stops_ok : ∀ s, s ≠ NoReturn → E s.

Definition inv (ts : list tok) : Prop :=
  (E NoReturn ∨ Forall (λ t, t.1 ≠ TokenType.CASE) ts) ∧ Forall (λ t, tok_ok lit t = true) ts.

Lemma inv_tail ts : inv ts → inv (tail ts).
Proof.
  intros [H1 H2]. destruct ts as [|t ts]; [done|]. cbn. split; [|by inversion H2].
  destruct H1 as [H1|H1]; [by left|right; by inversion H1].
Qed.
Hint Resolve inv_tail : core.

Lemma inv_head ts : inv ts → head_type ts ≠ TokenType.END_OF_FILE →
  tok_ok lit (head_type ts, head_text ts) = true.
Proof. intros [_ H] Hne. destruct ts as [|[t x] ts]; [done|]. by inversion H. Qed.

Lemma inv_name ts : inv ts → head_type ts = TokenType.IDENTIFIER → name_ok (head_text ts) = true.
Proof. intros Hi Ht. pose proof (inv_head ts Hi) as H. rewrite Ht in H. by apply H. Qed.
Hint Resolve inv_name : core.

Lemma syntax_stops msg s : syntax_error msg s → E s.
Proof. intros [pos ->]. by apply stops_ok. Qed.
Hint Resolve syntax_stops : core.

(** From fewer than [n] tokens, [m] returns a result with [R], with at least [k] tokens
    consumed and [T] of the next one. *)
Definition post {A} (k : nat) (R : A → Prop) (T : TokenType → Prop) (ts : list tok)
    (a : A) (ts' : list tok) : Prop :=
  R a ∧ T (head_type ts') ∧ inv ts' ∧ (length ts' + k ≤ length ts)%nat.

Definition parses {A} (n k : nat) (m : P A) (R : A → Prop) (T : TokenType → Prop) : Prop :=
  ∀ ts, (length ts < n)%nat → inv ts → wp m (post k R T ts) E ts.

Definition anything {A : Type} : A → Prop := λ _, True.

Lemma wp_use {A} n k (m : P A) R T Q ts :
  parses n k m R T → (length ts < n)%nat → inv ts →
  (∀ a ts', R a → T (head_type ts') → inv ts' → (length ts' + k ≤ length ts)%nat → Q a ts') →
  wp m Q E ts.
Proof.
  intros Hm Hl Hi HQ. eapply wp_mono; [by apply Hm| |done]. intros a ts' (H1 & H2 & H3 & H4). auto.
Qed.

Lemma parses_weaken {A} n k n' k' (m : P A) R (R' : A → Prop) T (T' : TokenType → Prop) :
  parses n k m R T → (n' ≤ n)%nat → (k' ≤ k)%nat → (∀ a, R a → R' a) → (∀ h, T h → T' h) →
  parses n' k' m R' T'.
Proof.
  intros Hm Hn Hk HR HT ts Hl Hi. eapply (wp_use n k); [done|lia|done|].
  intros. split_and!; auto. lia.
Qed.

(** Facts on the head of a list from the tests, and its length. *)
Ltac heads :=
  repeat match goal with
  | H : at_ _ _ = true |- _ => apply at_true in H
  | H : at_ _ _ = false |- _ => apply at_false in H
  | H : anything _ |- _ => clear H
  end;
  repeat match goal with
  | H : head_type ?ts = _ |- _ =>
      lazymatch goal with
      | _ : (0 < length ts)%nat |- _ => fail
      | _ => pose proof (head_length ts ltac:(by rewrite H))
      end
  end.

(** Replace in the goal the tests that hold. *)
Ltac bools :=
  repeat match goal with H : ?b = true |- context [?b] => rewrite H end;
  rewrite ?orb_true_r, ?andb_true_r; cbn.

Ltac lengths := rewrite ?length_tail in *; lia.

(** One step through the grammar. *)
Ltac wp_step :=
  lazymatch goal with
  | |- wp (_ ≫= _) _ _ _ => apply wp_bind
  | |- wp (mret _) _ _ _ => apply wp_ret
  | |- wp next_token _ _ _ => apply wp_next
  | |- wp (choose _ _ _) _ _ _ => apply (wp_choose _ _); intros; heads
  | |- wp (skip _) _ _ _ => apply wp_skip; [intros; heads|by eauto]
  | |- wp (expect _) _ _ _ => apply wp_expect; [intros; heads|by eauto]
  | |- wp (consume _) _ _ _ => apply wp_consume; [intros; heads|by eauto]
  | |- wp identifier _ _ _ => apply wp_identifier; [intros; heads|by eauto]
  | |- wp (error _) _ _ _ => apply wp_error; by eauto
  end.

Ltac wps := repeat wp_step.
Ltac use H := eapply (wp_use _ _ _ _ _ _ _ H); [lengths|by auto 10|intros; heads].
Ltac done_post := split_and!; [by eauto|done|by auto 10|lengths].

(** *** Lists, names, loops *)

Lemma comma_list_parses {A} n (item : P A) (R : A → Prop) T :
  parses n 1 item R T →
  parses n 1 (comma_list item) (λ l, l ≠ [] ∧ Forall R l) (λ h, h ≠ TokenType.COMMA).
Proof.
  intros Hi ts Hl HI.
  apply (wp_comma_list E item (λ us, inv us ∧ (length us < n)%nat) R); [done| | |].
  - intros us [H1 H2]. split; [auto|lengths].
  - intros us [H1 H2]. use Hi. split_and!; auto; lia.
  - intros l us H1 H2 [H3 H4] H5 H6. split_and!; auto; lia.
Qed.

Lemma identifier_parses n : parses n 1 identifier (λ x, name_ok x = true) anything.
Proof. intros ts Hl Hi. wp_step. done_post. Qed.

Lemma names_parse n : parses n 1 parseIdentifierList (λ l, names_ok l = true) anything.
Proof.
  eapply parses_weaken; [eapply comma_list_parses, identifier_parses|done..| |done].
  intros l Hl. by apply list_ok_intro.
Qed.

(** *** Expressions *)

Section expressions.
Context (d : nat) (expr : P ASTNode) (select : P SelectNode).
Let R (e : ASTNode) : Prop := expr_ok lit e = true.
Hypothesis expr_parses : parses d 1 expr R (λ h, h ≠ TokenType.AND).
Hypothesis select_parses : parses d 1 select (λ s, select_ok lit s = true) anything.

Lemma literal_parses v ts :
  match v with inr v => lit v = true | inl _ => True end →
  head_type ts ≠ TokenType.END_OF_FILE → inv ts →
  wp (parse_literal v) (post 1 R anything ts) E ts.
Proof.
  intros Hv Ht Hi. apply head_length in Ht. unfold parse_literal. wp_step. apply wp_try. destruct v as [e|v]; [by apply stops_ok|].
  wp_step. wp_step. wp_step. done_post.
Qed.

Lemma number_parses ts : inv ts → head_type ts = TokenType.INTEGER →
  wp parse_integer_literal (post 1 R anything ts) E ts.
Proof.
  intros Hi Ht. pose proof (inv_head ts Hi ltac:(by rewrite Ht)) as Hk. rewrite Ht in Hk. cbn in Hk.
  apply (wp_text (λ x, parse_literal (match stoi_exn x with inl e => inl e | inr z => inr (Value_int z) end))).
  apply literal_parses; [|by rewrite Ht|done]. destruct (stoi_exn (head_text ts)); [done|].
  by apply andb_true_iff in Hk as [_ Hk].
Qed.

Lemma float_parses ts : inv ts → head_type ts = TokenType.FLOAT →
  wp parse_float_literal (post 1 R anything ts) E ts.
Proof.
  intros Hi Ht st Hs. pose proof (inv_head ts Hi ltac:(by rewrite Ht)) as Hk. rewrite Ht in Hk. cbn in Hk.
  unfold parse_float_literal, current_text. rewrite (sees_text _ _ Hs).
  destruct (stod_exn (head_text ts)) as [e|f]; [by apply stops_ok|].
  destruct (cast_int64 f) as [z|]; [|by apply stops_ok].
  by apply (literal_parses (inr (Value_bigint z)) ts Hk ltac:(by rewrite Ht) Hi).
Qed.

Lemma column_parses n : parses n 1 parse_column R anything.
Proof.
  intros ts Hl Hi. unfold parse_column. wp_step. use (identifier_parses n). wp_step.
  - wp_step. wp_step. wp_step. use (identifier_parses n). wp_step.
    split_and!; [|done|by auto|lengths]. unfold R. cbn. unfold alias_ok. by bools.
  - wp_step. split_and!; [|done|by auto|lengths]. unfold R. cbn. by bools.
Qed.

Lemma parentheses_parse ts : (length ts < S d)%nat → inv ts → head_type ts = TokenType.LPAREN →
  wp (parse_parentheses expr select) (post 1 R anything ts) E ts.
Proof.
  intros Hl Hi Ht. heads. unfold parse_parentheses. wp_step. wp_step. wp_step; wp_step.
  - use select_parses. wp_step. wp_step. wp_step. done_post.
  - use expr_parses. wp_step. wp_step. wp_step. done_post.
Qed.

(** The loop over CASE may run for ever, where that is allowed. *)
Lemma case_stops ts (Q : () → list tok → Prop) : inv ts → head_type ts = TokenType.CASE →
  (∀ us, Q tt us) → wp parse_case Q E ts.
Proof.
  intros [[HE|Hn] _] Ht HQ; [|destruct ts; [done|]; by inversion Hn].
  assert (∀ n us, wp (while_loop n (λ st, negb (match_token TokenType.END st)) (λ _, next_token) tt)
    (λ _ vs, wp (skip TokenType.END) Q E vs) E us) as Hw.
  { induction n as [|n IH]; intros us; cbn [while_loop]; [by apply wp_stop|].
    wp_step; [wp_step; wp_step; apply IH|]. wp_step. by wp_step. }
  unfold parse_case, skip_case. wp_step. wp_step. wp_step. intros st Hs. exact (Hw _ _ st Hs).
Qed.

Lemma primary_parses : parses (S d) 1 (parsePrimary expr select) R anything.
Proof.
  intros ts Hl Hi. unfold parsePrimary.
  wp_step; [by apply number_parses|]. wp_step; [by apply float_parses|].
  wp_step.
  { pose proof (inv_head ts Hi ltac:(by rewrite H1)) as Hk. rewrite H1 in Hk.
    apply (wp_text (λ x, parse_literal (inr (Value_string x)))).
    apply literal_parses; [done|by rewrite H1|done]. }
  wp_step.
  { pose (f := λ x : string, parse_literal (inr (Value_bool (bool_decide (x = "TRUE"))))).
    apply (wp_text f).
    apply literal_parses; [done|by rewrite H2|done]. }
  wp_step; [apply literal_parses; [done|by rewrite H3|done]|].
  wp_step; [by apply (column_parses (S d))|].
  wp_step; [by apply andb_true_iff in H5 as [H5 _]; heads|].
  wp_step; [by apply parentheses_parse|].
  wp_step. wp_step; [|by wp_step; wp_step].
  apply case_stops; [done|done|]. intros us. wp_step.
Qed.

Lemma unary_parses : parses (S d) 1 (parseUnary expr select) R anything.
Proof.
  intros ts Hl Hi st Hs. unfold parseUnary. rewrite (sees_tokens_left _ _ Hs).
  assert (∀ n us, (length us < n)%nat → (length us < S d)%nat → inv us →
    wp (unary_loop expr select n) (post 1 R anything us) E us) as Hn.
  { clear - expr_parses select_parses lit_bool lit_null stops_ok.
    induction n as [|n IH]; intros us H1 H2 Hi; [lia|]. cbn [unary_loop].
    wp_step; [|by apply primary_parses]. destruct (any_op _ _ H) as (op & Hop & Hin).
    assert (0 < length us)%nat by (by apply (any_length (map fst unary_ops))).
    wp_step. eapply wp_operator; [exact Hop|]. wp_step. wp_step. wp_step.
    eapply wp_mono; [apply IH; [lengths|lengths|by auto]| |done].
    intros e us' (He & _ & Hi' & Hl'). wp_step. split_and!; [|done|done|lengths].
    unfold R. cbn. apply andb_true_iff. split; [|done]. apply orb_true_iff. left.
    apply existsb_exists. exists (head_type us, op). split; [done|]. by apply bool_decide_eq_true. }
  exact (Hn (S (length ts)) ts ltac:(lia) Hl Hi st Hs).
Qed.

(** A level of operators over operands that leave [T] behind. *)
Lemma chain_step_parses n op operand a T (ts us : list tok) :
  parses n 1 operand R T → R a → inv us → (length us < n)%nat → (length us + 1 ≤ length ts)%nat →
  wp op (λ o us', chain_op o = true ∧ inv us' ∧ (length us' ≤ length us)%nat ∧ (0 < length us')%nat) E us →
  wp (binary_step op operand a)
    (λ a' us', (R a' ∧ T (head_type us') ∧ inv us' ∧ (length us' + 1 ≤ length ts)%nat) ∧
               (length us' < length us)%nat) E us.
Proof.
  intros Ho Ha Hi Hn Hl Hop. unfold binary_step. wp_step. eapply wp_mono; [exact Hop| |done].
  intros o us' (Hc & Hi' & Hl' & Hp). cbn beta. wp_step. wp_step. wp_step. use Ho. wp_step.
  split_and!; [|done|done|lengths|lengths]. unfold R in *. cbn. rewrite Hc. by bools.
Qed.

Lemma level_parses ops operand T :
  forallb (λ e, negb (bool_decide (e.1 = TokenType.END_OF_FILE)) && chain_op e.2) ops = true →
  parses (S d) 1 operand R T →
  parses (S d) 1 (binary_level ops operand) R (λ h, T h ∧ h ∉ map fst ops).
Proof.
  intros Hops Ho ts Hl Hi. unfold binary_level. wp_step. use Ho.
  eapply (wp_while E _ _ _ (λ a us, R a ∧ T (head_type us) ∧ inv us ∧ (length us + 1 ≤ length ts)%nat)).
  - done.
  - intros b us (H3 & H4 & H5 & H6) Hf. destruct (any_op _ _ Hf) as (op & Hop & Hin).
    eapply chain_step_parses; [done|done|done|lia|done|]. eapply wp_operator; [exact Hop|].
    rewrite forallb_forall in Hops. apply Hops in Hin. apply andb_true_iff in Hin as [H7 H8].
    split_and!; [done|done|lia|]. apply head_length. apply negb_true_iff in H7.
    by apply bool_decide_eq_false in H7.
  - intros b us (H3 & H4 & H5 & H6) Hf. split_and!; [done|done| |done|done].
    by apply not_any.
Qed.

Lemma multiplicative_parses : parses (S d) 1 (parseMultiplicative expr select) R anything.
Proof.
  eapply parses_weaken; [apply level_parses; [by vm_compute|apply unary_parses]|done..].
Qed.
Lemma additive_parses : parses (S d) 1 (parseAdditive expr select) R anything.
Proof.
  eapply parses_weaken; [apply level_parses; [by vm_compute|apply multiplicative_parses]|done..].
Qed.

Lemma relational_parses :
  parses (S d) 1 (parseRelational expr select) R (λ h, h ≠ TokenType.NOT).
Proof.
  intros ts Hl Hi. unfold parseRelational. wp_step. use additive_parses.
  eapply (wp_while E _ _ _ (λ a us, R a ∧ anything (head_type us) ∧ inv us ∧ (length us + 1 ≤ length ts)%nat)).
  - done.
  - intros b us (H3 & H4 & H5 & H6) Hf.
    eapply chain_step_parses; [exact additive_parses|done|done|lia|done|].
    unfold relational_operator. wp_step.
    + do 5 wp_step. split_and!; [done|by auto|lengths|lengths].
    + rewrite at_any_app in Hf. apply orb_true_iff in Hf as [Hf|Hf].
      * destruct (any_op _ _ Hf) as (op & Hop & Hin). eapply wp_operator; [exact Hop|].
        split_and!; [|done|lia|by eapply any_length; [|exact Hf]].
        apply orb_true_iff; left. apply existsb_exists. exists (head_type us, op).
        split; [|by apply bool_decide_eq_true]. unfold chain_ops. rewrite !in_app_iff. auto.
      * unfold at_any in Hf. cbn in Hf. rewrite orb_false_r in Hf. by heads.
  - intros b us (H3 & H4 & H5 & H6) Hf. split_and!; [done| |done|done]. apply not_any in Hf.
    intros Hh. apply Hf. rewrite Hh. set_solver.
Qed.

(** The left operand that can precede NOT: a test for NULL. *)
Definition null_test (e : ASTNode) : Prop :=
  match e with UnaryExprNode o _ => null_op o = true | _ => False end.

Lemma is_null_parses a ts : R a → inv ts → head_type ts = TokenType.IS →
  wp (parse_is_null a) (post 1 (λ e, R e ∧ null_test e) anything ts) E ts.
Proof.
  intros Ha Hi Ht. heads. unfold parse_is_null.
  wps; split_and!; [|done|done|by auto|lengths| |done|done|by auto|lengths]; unfold R in *; cbn; by bools.
Qed.

Lemma in_parses a ts : (length ts < S d)%nat → R a → inv ts →
  (head_type ts ≠ TokenType.NOT ∨ null_test a) →
  wp (parse_in select a) (post 1 R anything ts) E ts.
Proof.
  intros Hl Ha Hi Hn. unfold parse_in, parse_negation. wp_step.
  assert (∀ op us, in_op op a = true → (length us ≤ length ts)%nat → inv us →
    wp (skip TokenType.IN ;; skip TokenType.LPAREN ;;
        right ← If match_token TokenType.SELECT Then (s ← select; mret (Subquery s)) Else mret ListNode;
        skip TokenType.RPAREN ;; mret (BinaryExprNode op a (Some right)))
       (post 1 R anything ts) E us) as Hrest.
  { intros op us Hop Hle Hi'. assert (chain_op op = false) as Hc.
    { unfold in_op in Hop. apply orb_true_iff in Hop as [Hop|Hop]; [|apply andb_true_iff in Hop as [Hop _]];
        apply bool_decide_eq_true in Hop; by subst op. }
    wps.
    - use select_parses. wps. split_and!; [|done|by auto|lengths].
      unfold R in *. cbn. rewrite Hc. by bools.
    - split_and!; [|done|by auto|lengths]. unfold R in *. cbn. rewrite Hc. by bools. }
  wp_step.
  - do 3 wp_step. apply Hrest; [|lengths|by auto]. destruct Hn as [Hn|Hn]; [done|].
    unfold in_op, null_test in *. by destruct a.
  - wp_step. by apply Hrest.
Qed.

(** BETWEEN is never parsed: its lower bound takes AND. *)
Lemma between_stops a ts (Q : ASTNode → list tok → Prop) :
  (length ts < S d)%nat → inv ts → wp (parse_between expr a) Q E ts.
Proof.
  intros Hl Hi. unfold parse_between, parse_negation. wp_step.
  assert (∀ op us, (length us ≤ length ts)%nat → inv us →
    wp (skip TokenType.BETWEEN ;; lower ← expr; skip TokenType.AND ;; upper ← expr;
        mret (BinaryExprNode op a None)) Q E us) as Hrest.
  { intros op us Hle Hi'. do 3 wp_step. use expr_parses. do 2 wp_step. done. }
  wp_step.
  - do 3 wp_step. apply Hrest; [lengths|by auto].
  - wp_step. by apply Hrest.
Qed.

Lemma equality_parses : parses (S d) 1 (parseEquality expr select) R anything.
Proof.
  intros ts Hl Hi. unfold parseEquality. wp_step.
  use (level_parses equality_ops _ _ eq_refl relational_parses).
  destruct H0 as [Hnot _]. wp_step.
  eapply (wp_mono _ (λ e us, R e ∧ (head_type us ≠ TokenType.NOT ∨ null_test e) ∧ inv us ∧
    (length us + 1 ≤ length ts)%nat) _ E); [| |done].
  { wp_step; [|by wp_step; auto]. eapply wp_mono; [by apply is_null_parses| |done].
    intros e us ([? ?] & _ & ? & ?). split_and!; [done|by right|done|lia]. }
  clear - Hl stops_ok select_parses expr_parses.
  intros e us (He & Hn & Hi & Hle). cbn beta. wp_step.
  eapply (wp_mono _ (λ e us, R e ∧ inv us ∧ (length us + 1 ≤ length ts)%nat) _ E); [| |done].
  { wp_step; [|by wp_step; auto]. eapply wp_mono; [apply in_parses; [lia|done..]| |done].
    intros e' us' (? & ? & ? & ?). split_and!; [done|done|lia]. }
  clear - Hl stops_ok expr_parses. intros e us (He & Hi & Hle). cbn beta.
  wp_step; [apply between_stops; [lia|done]|]. wp_step. done_post.
Qed.

Lemma or_parses :
  parses (S d) 1 (parseLogicalOr expr select) R (λ h, h ≠ TokenType.AND).
Proof.
  eapply parses_weaken; [eapply (level_parses or_ops); [by vm_compute|]|done..|].
  - eapply (level_parses and_ops); [by vm_compute|apply equality_parses].
  - intros h [[_ H] _]. set_solver.
Qed.

(** *** Clauses *)

Lemma alias_parses n : parses n 0 parseAlias (λ x, alias_ok x = true) anything.
Proof.
  intros ts Hl Hi. unfold parseAlias. wps; (split_and!; [|done|by auto|lengths]); try done.
  all: apply orb_true_iff; right; by eauto.
Qed.

Lemma expr_list_parses : parses d 1 (comma_list expr) (λ l, list_ok (expr_ok lit) l = true) anything.
Proof.
  eapply parses_weaken; [eapply comma_list_parses, expr_parses|done..| |done].
  intros l Hl. by apply list_ok_intro.
Qed.

Lemma optional_parses {A} n k t (m : P A) (p : A → bool) T :
  parses n k m (λ a, p a = true) T →
  parses n 0 (optional (match_token t) m) (λ o, option_ok p o = true) anything.
Proof.
  intros Hm ts Hl Hi. unfold optional. wps; [|done_post]. use Hm. wps. done_post.
Qed.

Lemma where_parses : parses d 1 (parseWhere expr) R anything.
Proof. intros ts Hl Hi. unfold parseWhere. wps. use expr_parses. done_post. Qed.

Lemma having_parses : parses d 0 (parse_having expr) R anything.
Proof. intros ts Hl Hi. unfold parse_having. wps. use expr_parses. done_post. Qed.

Lemma group_parses : parses d 1 (parseGroupBy expr) (λ l, list_ok (expr_ok lit) l = true) anything.
Proof. intros ts Hl Hi. unfold parseGroupBy. wps. use expr_list_parses. done_post. Qed.

Lemma order_item_parses : parses d 1 (parse_order_item expr) (λ i, order_ok lit i = true) anything.
Proof.
  intros ts Hl Hi. unfold parse_order_item. wps. use expr_parses. wps; done_post.
Qed.

Lemma order_parses : parses d 1 (parseOrderBy expr) (λ l, list_ok (order_ok lit) l = true) anything.
Proof.
  intros ts Hl Hi. unfold parseOrderBy. wps. use (comma_list_parses _ _ _ _ order_item_parses).
  split_and!; [by apply list_ok_intro|done|by auto|lengths].
Qed.

Lemma count_parses n z :
  -1 ≤ z < 2 ^ 31 → parses n 0 (parse_count z) (λ x, -1 ≤ x < 2 ^ 31) anything.
Proof.
  intros Hz ts Hl Hi. unfold parse_count. wps; [|by split_and!; [lia|lia|done|auto|lengths]].
  pose proof (inv_head ts Hi ltac:(by rewrite H)) as Hk. rewrite H in Hk. cbn in Hk.
  apply wp_try. match goal with H : ttext _ = _ |- _ => rewrite H end.
  destruct (stoi_exn (head_text ts)) as [e|x]; [by apply stops_ok|].
  unfold int_ok in Hk. prop_bools. split_and!; [lia|lia|done|by auto|lengths].
Qed.

Lemma limit_parses : parses d 1 parseLimit (λ l, limit_ok l = true) anything.
Proof.
  intros ts Hl Hi. unfold parseLimit. wps. use (count_parses d (-1) ltac:(lia)). wps.
  - use (count_parses d 0 ltac:(lia)). wps. split_and!; [|done|by auto|lengths].
    unfold limit_ok. cbn. rewrite !andb_true_iff. lia.
  - use (count_parses d a ltac:(lia)). wps. split_and!; [|done|by auto|lengths].
    unfold limit_ok. cbn. rewrite !andb_true_iff. lia.
  - split_and!; [|done|by auto|lengths]. unfold limit_ok. cbn. rewrite !andb_true_iff. lia.
Qed.

Lemma parenthesized_parses {A} n k (m : P A) (p : A → Prop) T :
  parses n k m p T → parses n 1 (parenthesized m) p anything.
Proof. intros Hm ts Hl Hi. unfold parenthesized. wps. use Hm. wps. done_post. Qed.

Lemma columns_parse n : parses n 1 (parenthesized parseIdentifierList) (λ l, names_ok l = true) anything.
Proof. eapply parenthesized_parses, names_parse. Qed.

Lemma join_type_parses n : parses n 0 parse_join_type (λ t, t ≠ JoinType.NATURAL) anything.
Proof.
  intros ts Hl Hi. unfold parse_join_type, parse_outer. wps; by done_post.
Qed.

Lemma join_parses : parses d 1 (parseJoin expr) (λ j, join_ok lit j = true) anything.
Proof.
  intros ts Hl Hi. unfold parseJoin. wps. use (join_type_parses d). wps.
  use (alias_parses d).
  assert (negb (bool_decide (a = JoinType.NATURAL)) = true) by (by rewrite bool_decide_false).
  assert (name_ok (head_text (tail ts')) = true) by (apply inv_name; auto).
  wps.
  - use expr_parses. wps. split_and!; [|done|by auto|lengths].
    unfold join_ok, R in *. cbn in *. by bools.
  - use (columns_parse d). wps. split_and!; [|done|by auto|lengths].
    match goal with H : names_ok _ = true |- _ => apply andb_true_iff in H as [_ ?] end.
    unfold join_ok. cbn in *. by bools.
  - split_and!; [|done|by auto|lengths]. unfold join_ok. cbn in *. by bools.
Qed.

Lemma joins_parse : parses d 0 (parse_joins expr) (λ l, forallb (join_ok lit) l = true) anything.
Proof.
  intros ts Hl Hi. unfold parse_joins.
  eapply (wp_while E _ _ _
    (λ l us, forallb (join_ok lit) l = true ∧ inv us ∧ (length us ≤ length ts)%nat)).
  - done.
  - intros l us (H1 & H2 & H3) _. wp_step. use join_parses. wps. split_and!; [|done|lia|lia].
    rewrite forallb_app. cbn. by bools.
  - intros l us (H1 & H2 & H3) _. split_and!; [done|done|done|lia].
Qed.

Lemma select_item_parses : parses d 1 (parse_select_item expr) R anything.
Proof.
  intros ts Hl Hi. unfold parse_select_item. wps; [done_post|]. use expr_parses.
  wp_step. use (alias_parses d). wps. done_post.
Qed.

Lemma select_list_parses :
  parses d 1 (parseSelectList expr) (λ l, list_ok (expr_ok lit) l = true) anything.
Proof.
  eapply parses_weaken; [eapply comma_list_parses, select_item_parses|done..| |done].
  intros l Hl. by apply list_ok_intro.
Qed.

Lemma table_ref_parses : parses d 1 (parse_table_ref select) (λ t, table_ok lit t = true) anything.
Proof.
  intros ts Hl Hi. unfold parse_table_ref. wps.
  - use select_parses. wps. use (alias_parses d). wps. split_and!; [|done|by auto|lengths].
    unfold table_ok. cbn. by bools.
  - use (alias_parses d). wps. split_and!; [|done|by auto|lengths]. unfold table_ok. cbn.
    rewrite (inv_name ts) by auto. by bools.
Qed.

Lemma from_parses : parses d 1 (parse_from select) (λ l, list_ok (table_ok lit) l = true) anything.
Proof.
  intros ts Hl Hi. unfold parse_from. wps. use (comma_list_parses _ _ _ _ table_ref_parses).
  split_and!; [by apply list_ok_intro|done|by auto|lengths].
Qed.

Lemma set_operation_parses :
  parses d 0 (parse_set_operation select) (λ p, operand_ok lit p.1 p.2 = true) anything.
Proof.
  intros ts Hl Hi. unfold parse_set_operation. wp_step; [|wps; done_post].
  assert (0 < length ts)%nat by (by eapply any_length; [|exact H]).
  intros st Hs. apply any_in in H. rewrite <- (sees_type _ _ Hs) in H.
  assert (set_operation_of st ≠ SetOperation.NONE) as Hop.
  { unfold set_operation_of, match_token. repeat case_bool_decide; try done. set_solver. }
  revert Hop. generalize (set_operation_of st) as op. intros op Hop.
  assert (wp (next_token ;; op ← parse_all op; s ← select; mret (op, Some s))
    (post 0 (λ p, operand_ok lit p.1 p.2 = true) anything ts) E ts) as Hw; [|by apply Hw].
  unfold parse_all. wps.
  - use select_parses. wps. split_and!; [|done|by auto|lengths]. by destruct op.
  - use select_parses. wps. split_and!; [|done|by auto|lengths]. by destruct op.
Qed.

Lemma distinct_parses n : parses n 0 parse_distinct anything anything.
Proof. intros ts Hl Hi. unfold parse_distinct. wps; done_post. Qed.

Lemma select_body_parses :
  parses (S d) 1 (parseSelect_body expr select) (λ s, select_ok lit s = true) anything.
Proof.
  intros ts Hl Hi. unfold parseSelect_body. wps. use (distinct_parses d).
  wp_step. use select_list_parses. wp_step. use from_parses. wp_step. use joins_parse.
  wp_step. use (optional_parses _ _ TokenType.WHERE _ (expr_ok lit) _ where_parses).
  wp_step. use (optional_parses _ _ TokenType.GROUP _ _ _ group_parses).
  wp_step. use (optional_parses _ _ TokenType.HAVING _ (expr_ok lit) _ having_parses).
  wp_step. use (optional_parses _ _ TokenType.ORDER _ _ _ order_parses).
  wp_step. use (optional_parses _ _ TokenType.LIMIT _ _ _ limit_parses).
  wp_step. use set_operation_parses. destruct a8 as [op operand]. wps.
  split_and!; [|done|by auto|lengths]. apply select_ok_eq. by split_and!.
Qed.

(** *** Statements *)

Lemma names_forallb l : names_ok l = true → forallb name_ok l = true.
Proof. by intros [_ H]%andb_true_iff. Qed.
Hint Resolve names_forallb : core.

Lemma insert_parses : parses d 1 (parseInsert expr select) (λ n, insert_ok lit n = true) anything.
Proof.
  intros ts Hl Hi. unfold parseInsert. do 7 wp_step.
  eapply (wp_mono _ (λ l us, forallb name_ok l = true ∧ inv us ∧ (length us + 3 ≤ length ts)%nat) _ E);
    [| |done].
  { wp_step; [|by wp_step; split_and!; [|auto|lengths]]. use (columns_parse d).
    split_and!; [by auto|done|lengths]. }
  assert (name_ok (head_text (tail (tail ts))) = true) by (apply inv_name; auto).
  intros l us (Hl1 & Hl2 & Hl3). cbn beta. wps.
  - unfold parseValuesList, parseExpressionList.
    use (comma_list_parses _ _ _ _ (parenthesized_parses _ _ _ _ _ expr_list_parses)). wps.
    split_and!; [|done|by auto|lengths].
    assert (list_ok (list_ok (expr_ok lit)) a = true) as Hv by (by apply list_ok_intro).
    unfold insert_ok, rows_ok. cbn [insert_table insert_columns insert_values insert_select]. by bools.
  - use select_parses. wps. split_and!; [|done|by auto|lengths].
    unfold insert_ok, rows_ok. cbn [insert_table insert_columns insert_values insert_select]. by bools.
Qed.

Lemma assignment_parses :
  parses d 1 (parse_assignment expr) (λ a, assignment_ok lit a = true) anything.
Proof.
  intros ts Hl Hi. unfold parse_assignment. wps. use expr_parses. wps.
  split_and!; [|done|by auto|lengths]. unfold assignment_ok, R in *. cbn.
  rewrite (inv_name ts) by auto. by bools.
Qed.

Lemma where_clause_parses :
  parses d 0 (optional (match_token TokenType.WHERE) (parseWhere expr))
    (λ o, option_ok (expr_ok lit) o = true) anything.
Proof. eapply optional_parses, where_parses. Qed.

Lemma update_parses : parses d 1 (parseUpdate expr) (λ n, update_ok lit n = true) anything.
Proof.
  intros ts Hl Hi. unfold parseUpdate. wps. use (comma_list_parses _ _ _ _ assignment_parses).
  wps. use where_clause_parses. wps. split_and!; [|done|by auto|lengths].
  assert (list_ok (assignment_ok lit) a = true) as Hv by (by apply list_ok_intro).
  unfold update_ok. cbn [update_table assignments update_where].
  rewrite (inv_name (tail ts)) by auto. by bools.
Qed.

Lemma delete_parses : parses d 1 (parseDelete expr) (λ n, delete_ok lit n = true) anything.
Proof.
  intros ts Hl Hi. unfold parseDelete. wps. use where_clause_parses. wps.
  split_and!; [|done|by auto|lengths]. unfold delete_ok. cbn [delete_table delete_where].
  rewrite (inv_name (tail (tail ts))) by auto. by bools.
Qed.

Lemma type_name_parses n x :
  parses n 0 (parse_type_name x)
    (λ t, existsb (λ e, bool_decide (e.1 = t)) column_types = true) anything.
Proof.
  intros ts Hl Hi. unfold parse_type_name, invalid_type, parse_length.
  repeat case_decide; wps; by done_post.
Qed.

Lemma data_type_parses n :
  parses n 1 parseDataType (λ t, existsb (λ e, bool_decide (e.1 = t)) column_types = true) anything.
Proof.
  intros ts Hl Hi. unfold parseDataType, invalid_type. wp_step; [|by wps].
  apply (wp_text (λ x, next_token ;; parse_type_name x)). wps. use (type_name_parses n (head_text ts)).
  done_post.
Qed.

Lemma column_constraint_parses n c :
  column_ok c = true →
  ∀ ts, (length ts < n)%nat → inv ts → (0 < length ts)%nat →
  wp (parse_column_constraint c) (post 1 (λ c, column_ok c = true) anything ts) E ts.
Proof.
  intros Hc ts Hl Hi Hp. unfold parse_column_constraint. wps; done_post.
Qed.

Lemma column_def_parses n : parses n 1 parse_column_def (λ c, column_ok c = true) anything.
Proof.
  intros ts Hl Hi. unfold parse_column_def. wps. use (data_type_parses n).
  eapply (wp_while E _ _ _
    (λ c us, column_ok c = true ∧ inv us ∧ (length us + 1 ≤ length ts)%nat)).
  - split_and!; [|done|lengths]. unfold column_ok. cbn [column_name column_type column_length default_value check_expr].
    rewrite (inv_name ts) by auto. by bools.
  - intros c us (Hc1 & Hc2 & Hc3) Hf.
    assert (0 < length us)%nat.
    { apply orb_true_iff in Hf as [Hf|Hf]; [|by eapply any_length; [|exact Hf]].
      apply andb_true_iff in Hf as [Hf _]. by heads. }
    eapply wp_mono; [apply (column_constraint_parses n); [done|lia|done|done]| |done].
    intros c' us' (? & _ & ? & ?). split_and!; [done|done|lia|lia].
  - intros c us (Hc1 & Hc2 & Hc3) _. split_and!; [done|done|done|lia].
Qed.

Lemma table_constraint_parses n ts :
  (length ts < n)%nat → inv ts → at_any constraint_starts ts = true →
  wp parse_table_constraint (post 1 (λ c, constraint_ok c = true) anything ts) E ts.
Proof.
  intros Hl Hi Hc. pose proof (any_length constraint_starts ts eq_refl Hc) as Hp.
  unfold parse_table_constraint. wp_step. wp_step; [apply any_in in Hc; rewrite H in Hc; set_solver|].
  wps.
  - use (columns_parse n). wps. split_and!; [|done|by auto|lengths]. unfold constraint_ok. cbn in *. by bools.
  - use (columns_parse n). wps. use (columns_parse n). wps. split_and!; [|done|by auto|lengths].
    unfold constraint_ok. cbn in *. rewrite (inv_name (tail ts')) by auto. by bools.
  - use (columns_parse n). wps. split_and!; [|done|by auto|lengths]. unfold constraint_ok. cbn in *. by bools.
  - unfold parenthesized. wps. done_post.
Qed.

Definition element_ok (x : ColumnDef + Constraint) : bool :=
  match x with inl c => column_ok c | inr c => constraint_ok c end.

Lemma element_parses n : parses n 1 parse_table_element (λ x, element_ok x = true) anything.
Proof.
  intros ts Hl Hi. unfold parse_table_element. wp_step; wp_step.
  - eapply wp_mono; [by apply (table_constraint_parses n)| |done]. intros c us (? & _ & ? & ?).
    wps. done_post.
  - use (column_def_parses n). wps. done_post.
Qed.

Lemma elements_ok (l : list (ColumnDef + Constraint)) :
  list_ok element_ok l = true →
  forallb column_ok (lefts l) = true ∧ forallb constraint_ok (rights l) = true ∧
  nonempty (lefts l) || nonempty (rights l) = true.
Proof.
  intros [Hn Hl]%andb_true_iff. split_and!.
  - clear Hn. induction l as [|[c|c] l IH]; [done|..]; cbn in *; apply andb_true_iff in Hl as [H1 H2]; [|auto].
    rewrite H1. auto.
  - clear Hn. induction l as [|[c|c] l IH]; [done|..]; cbn in *; apply andb_true_iff in Hl as [H1 H2]; [auto|].
    rewrite H1. auto.
  - destruct l as [|[c|c] l]; [done|done|]. cbn. apply orb_true_r.
Qed.

Lemma create_table_parses n : parses n 1 parseCreateTable (λ n, create_table_ok n = true) anything.
Proof.
  intros ts Hl Hi. unfold parseCreateTable. wps.
  use (parenthesized_parses _ _ _ _ _ (comma_list_parses _ _ _ _ (element_parses n))). wps.
  split_and!; [|done|by auto|lengths].
  destruct (elements_ok a) as (He1 & He2 & He3); [by apply list_ok_intro|].
  unfold create_table_ok. cbn [create_table_name create_columns constraints].
  rewrite (inv_name (tail ts)) by auto. by bools.
Qed.

Lemma create_index_parses n : parses n 1 parseCreateIndex (λ n, create_index_ok n = true) anything.
Proof.
  intros ts Hl Hi. unfold parseCreateIndex. wps; use (columns_parse n); wps.
  all: split_and!; [|done|by auto|lengths]; unfold create_index_ok; cbn [index_name index_table index_columns].
  - rewrite (inv_name (tail (tail ts))), (inv_name (tail (tail (tail (tail ts))))) by auto 10. by bools.
  - rewrite (inv_name (tail ts)), (inv_name (tail (tail (tail ts)))) by auto 10. by bools.
Qed.

Lemma drop_table_parses n : parses n 1 parseDropTable (λ n, drop_table_ok n = true) anything.
Proof.
  intros ts Hl Hi. unfold parseDropTable. wps; [done|]. split_and!; [|done|by auto|lengths].
  unfold drop_table_ok. cbn. by rewrite (inv_name (tail ts)) by auto.
Qed.

Lemma savepoint_parses n : parses n 0 parse_savepoint (λ x, savepoint_ok x = true) anything.
Proof. intros ts Hl Hi. unfold parse_savepoint. wps; (split_and!; [cbn; by eauto|done|by auto|lengths]). Qed.

Lemma begin_parses n : parses n 1 parseBegin (λ x, savepoint_ok x = true) anything.
Proof.
  intros ts Hl Hi. unfold parseBegin, skip_transaction. wps; use (savepoint_parses n); done_post.
Qed.
Lemma commit_parses n : parses n 1 parseCommit (λ x, savepoint_ok x = true) anything.
Proof.
  intros ts Hl Hi. unfold parseCommit, skip_transaction. wps; use (savepoint_parses n); done_post.
Qed.
Lemma rollback_parses n : parses n 1 parseRollback (λ x, savepoint_ok x = true) anything.
Proof.
  intros ts Hl Hi. unfold parseRollback, skip_transaction. wps; try done; use (savepoint_parses n); done_post.
Qed.

Lemma statement_parses :
  parses d 0 (parseStatement expr select) (λ s, statement_ok lit s = true) anything.
Proof.
  intros ts Hl Hi. apply wp_statement. unfold statement_for, parse_create, parse_drop.
  destruct (head_type ts); wps.
  - use select_parses. wps. done_post.
  - use insert_parses. wps. done_post.
  - use update_parses. wps. done_post.
  - use delete_parses. wps. done_post.
  - use (create_table_parses d). wps. done_post.
  - use (create_index_parses d). wps. done_post.
  - use (drop_table_parses d). wps. done_post.
  - use (begin_parses d). wps. done_post.
  - use (commit_parses d). wps. done_post.
  - use (rollback_parses d). wps. done_post.
Qed.
End expressions.

(** *** The recursion *)

Lemma depth_parses n :
  parses n 1 (parseExpression n) (λ e, expr_ok lit e = true) (λ h, h ≠ TokenType.AND) ∧
  parses n 1 (parseSelect n) (λ s, select_ok lit s = true) anything.
Proof.
  induction n as [|n [IH1 IH2]]; [split; intros ts Hl; lia|]. cbn [parseExpression parseSelect].
  split; [by apply or_parses|by apply select_body_parses].
Qed.

Lemma tokens_parse ts :
  inv ts →
  wp parse_tokens (λ s us, statement_ok lit s = true ∧ head_type us = TokenType.END_OF_FILE) E ts.
Proof.
  intros Hi st Hs. unfold parse_tokens. rewrite (sees_tokens_left _ _ Hs).
  destruct (depth_parses (S (length ts))) as [H1 H2].
  assert (wp (s ← parseStatement (parseExpression (S (length ts))) (parseSelect (S (length ts)));
    If match_token TokenType.END_OF_FILE Then mret s
    Else error "Tokens não processados após o fim da instrução")
    (λ s us, statement_ok lit s = true ∧ head_type us = TokenType.END_OF_FILE) E ts) as Hw; [|by apply Hw].
  wp_step. eapply (wp_use (S (length ts))); [by apply statement_parses|lia|done|].
  intros s us Hok _ Hi' _. apply (wp_choose _ _); intros Hc; [|by wp_step]. wp_step.
  split; [done|]. by apply at_true in Hc.
Qed.
End pass.
