(* ===== verification/ParserTypes.v ===== *)
(** * ParserTypes: the parser on the text of a query

    The tokens that the lexer makes of a query ([tokens_of]) are those the parser
    sees, and their texts are as [ParserShape] asks.  So the parser ends on every query
    without the word CASE, and every tree it returns is typed. *)

From stdpp Require Import list gmap strings.
From S2P Require Import Prelude CxxString Types Lexer LexerProofs AST Parser ParserLogic ParserShape.
From Stdlib Require Import SpecFloat.

Open Scope Z_scope.

(** ** The tokens of a query *)

Definition tokens_from (lx : Lexer) : list tok :=
  match token_stream (S (length (rest lx))) lx with
  | Some (ts, _) => map tok_of (removelast ts)
  | None => []
  end.

Definition tokens_of (query : list ascii) : list tok := tokens_from (Lexer_new query).

(** The parser when [parse] has read the first token. *)
Definition start (query : list ascii) (st : SQLParser) : SQLParser :=
  step_parser (mkSQLParser (Lexer_new query) (current_token st) (last_error st)).

Lemma parse_start query st : parse query st = parse_tokens (start query st).
Proof. unfold parse, mbind, P_bind. by rewrite next_token_step. Qed.

Lemma token_stream_tokens fuel lx ts lx' t err :
  token_stream fuel lx = Some (ts, lx') →
  sees (map tok_of (removelast ts)) (step_parser (mkSQLParser lx t err)) ∧ ts ≠ [].
Proof.
  revert lx ts t. induction fuel as [|fuel IH]; intros lx ts t; [done|]. cbn [token_stream].
  destruct (nextToken lx) as [lx1 k] eqn:Hn. pose proof (nextToken_progress _ _ _ Hn) as [_ Hp].
  destruct (decide (ttype k = TokenType.END_OF_FILE)) as [He|Hne]; intros Hs.
  - simplify_eq. split; [|done]. unfold step_parser. cbn [lexer]. rewrite Hn. cbn.
    destruct Hp as [Hp1 Hp2]. split; [|done]. by rewrite Hp2.
  - apply bind_Some in Hs as ([ts1 lx2] & Hs & Heq). simplify_eq.
    destruct (IH _ _ k Hs) as [Hus Hts]. split; [|done].
    assert (removelast (k :: ts1) = k :: removelast ts1) as -> by (by destruct ts1).
    unfold step_parser in *. cbn [lexer last_error] in *. rewrite Hn. cbn [map sees fst snd current_token].
    split_and!; [done|done|exact Hus].
Qed.

Lemma tokens_from_sees lx t err : sees (tokens_from lx) (step_parser (mkSQLParser lx t err)).
Proof.
  unfold tokens_from.
  destruct (token_stream_total (S (length (rest lx))) lx) as (ts & lx' & Hs & _); [lia|].
  rewrite Hs. by eapply token_stream_tokens.
Qed.

Lemma start_sees query st : sees (tokens_of query) (start query st).
Proof. apply tokens_from_sees. Qed.

(** ** Texts of tokens *)

Definition upper_rest (lx : Lexer) : Prop := Forall (λ c, is_upper_char c = true) (rest lx).

Lemma step_upper a b : step a b → upper_rest a → upper_rest b.
Proof.
  unfold upper_rest, step. intros -> Ha. destruct (rest a) as [|c r] eqn:Hr.
  - unfold advance. apply rest_nil in Hr as Hn. rewrite Hn. cbn. by rewrite Hr.
  - destruct (advance_cons _ _ _ Hr) as (lx' & -> & Hr' & _). cbn. rewrite Hr'. by inversion Ha.
Qed.

Lemma moves_upper a b : moves a b → upper_rest a → upper_rest b.
Proof. induction 1; eauto using step_upper. Qed.

Lemma Lexer_new_upper s : upper_rest (Lexer_new s).
Proof.
  unfold upper_rest, rest. cbn. rewrite drop_0. apply Forall_map, Forall_forall. intros c _.
  by_char c.
Qed.

Lemma take_while_Forall (Q : ascii → Prop) P l : Forall Q l → Forall Q (take_while P l).
Proof. induction 1; cbn; [constructor|]. case_match; by constructor. Qed.

Lemma take_while_all P l : all_of P (take_while P l).
Proof. induction l as [|c l IH]; cbn; [constructor|]. destruct (P c) eqn:?; by constructor. Qed.

Lemma text_upper w : Forall (λ c, is_upper_char c = true) w →
  upper_text (String.string_of_list_ascii w) = true.
Proof.
  intros Hw. unfold upper_text. rewrite String.list_ascii_of_string_of_list_ascii.
  by apply forallb_Forall.
Qed.

Lemma read_string_upper fuel q lx text :
  upper_rest lx → Forall (λ c, is_upper_char c = true) text →
  Forall (λ c, is_upper_char c = true) (read_string_loop fuel q lx text).2.
Proof.
  revert lx text. induction fuel as [|fuel IH]; intros lx text Hu Ht; cbn [read_string_loop]; [done|].
  destruct (decide (lpos lx < length (input lx))%nat) as [Hl|]; [|done].
  destruct (rest lx) as [|c r] eqn:Hr; [apply at_end in Hr; lia|].
  destruct (advance_cons _ _ _ Hr) as (lx1 & -> & Hr1 & Hs).
  pose proof (step_upper _ _ Hs Hu) as Hu1. unfold upper_rest in Hu. rewrite Hr in Hu. inversion Hu; subst.
  case_decide; [done|]. case_decide; [|apply IH; [done|by apply Forall_app_2; [|constructor]]].
  case_decide; [|by apply IH]. destruct (rest lx1) as [|c' r'] eqn:Hr2; [apply at_end in Hr2; lia|].
  destruct (advance_cons _ _ _ Hr2) as (lx2 & -> & Hr3 & Hs2).
  pose proof (step_upper _ _ Hs2 Hu1) as Hu2. unfold upper_rest in Hu1. rewrite Hr2 in Hu1. inversion Hu1; subst.
  apply IH; [done|]. by apply Forall_app_2; [|constructor].
Qed.

(** The types of tokens that carry a text the parser uses. *)
Definition carries_text (t : TokenType) : bool :=
  match t with
  | TokenType.IDENTIFIER | TokenType.INTEGER | TokenType.FLOAT | TokenType.STRING => true
  | _ => false
  end.

Lemma plain_tok_ok lit t : carries_text (ttype t) = false → tok_ok lit (tok_of t) = true.
Proof. unfold tok_ok, tok_of. cbn. by destruct (ttype t). Qed.

Lemma keyword_plain text t : keywords !! text = Some t → carries_text t = false.
Proof.
  intros Hk%elem_of_list_to_map_2.
  assert (Forall (λ e : string * TokenType, carries_text e.2 = false) keywords_list) as Hf.
  { unfold keywords_list. by repeat constructor. }
  rewrite Forall_forall in Hf. by apply (Hf _ Hk).
Qed.

Lemma find_two_plain a b : carries_text (default TokenType.UNKNOWN (find_two a b)) = false.
Proof.
  unfold find_two. destruct (find _ two_chars) as [[[x y] t']|] eqn:Hg; cbn; [|done].
  apply find_some in Hg as [Hin _]. cbn in Hin. naive_solver.
Qed.

Lemma find_one_plain a : carries_text (default TokenType.UNKNOWN (find_one a)) = false.
Proof.
  unfold find_one. destruct (find _ one_char) as [[x t']|] eqn:Hg; cbn; [|done].
  apply find_some in Hg as [Hin _]. cbn in Hin. naive_solver.
Qed.

Lemma operator_plain lx : carries_text (ttype (readOperator lx).2) = false.
Proof.
  unfold readOperator. destruct (advance lx) as [lx1 c].
  destruct (find_two c (peek lx1)) as [t|] eqn:Hf; cbn [snd ttype]; [|apply find_one_plain].
  pose proof (find_two_plain c (peek lx1)) as Hp. by rewrite Hf in Hp.
Qed.

Lemma identifier_tok_ok lit lx c r :
  upper_rest lx → rest lx = c :: r → starts_word c = true →
  tok_ok lit (tok_of (readIdentifier lx).2) = true.
Proof.
  intros Hu Hr Hc. unfold readIdentifier.
  destruct (read_while_spec (length (rest lx)) is_word_char lx []) as (lx' & -> & _); [done|done|].
  destruct (keywords !! _) as [t|] eqn:Hk; [by eapply plain_tok_ok, keyword_plain|].
  unfold tok_ok, tok_of. cbn [ttype ttext fst snd]. unfold name_ok.
  rewrite bool_decide_true by done. rewrite andb_true_r. apply andb_true_iff. split.
  - rewrite String.list_ascii_of_string_of_list_ascii. rewrite Hr. cbn [app take_while].
    destruct (word_start_char c Hc) as (_ & _ & _ & ->). rewrite Hc. cbn.
    apply forallb_Forall, take_while_all.
  - apply text_upper. cbn [app]. by apply take_while_Forall.
Qed.

(** *** Numbers *)

Lemma scan_digits_nonneg s acc : 0 ≤ acc → 0 ≤ scan_digits s acc.
Proof.
  revert acc. induction s as [|c s IH]; intros acc Ha; cbn [scan_digits]; [done|].
  destruct (isdigit c) eqn:Hd; [|done]. apply IH. unfold isdigit, in_range in Hd. prop_bools. lia.
Qed.

Lemma span_digits_nonneg s acc n m k r :
  span_digits s acc n = (m, k, r) → 0 ≤ acc → 0 ≤ m.
Proof.
  revert acc n. induction s as [|c s IH]; intros acc n; cbn [span_digits]; [by intros [= <- <- <-]|].
  destruct (isdigit c) eqn:Hd; [|by intros [= <- <- <-]]. intros H Ha. eapply IH; [exact H|].
  unfold isdigit, in_range in Hd. prop_bools. lia.
Qed.

Lemma scan_decimal_nonneg s m e : scan_decimal s = Some (m, e) → 0 ≤ m.
Proof.
  unfold scan_decimal. destruct (span_digits s 0 0) as [[m0 n0] r0] eqn:H0.
  pose proof (span_digits_nonneg _ _ _ _ _ _ H0 ltac:(lia)) as Hm0.
  destruct r0 as [|c r0]; [by destruct (n0 + 0 =? 0); intros; simplify_eq|].
  destruct (decide (c = "."%char)); [|by destruct (n0 + 0 =? 0); intros; simplify_eq].
  destruct (span_digits r0 m0 0) as [[m1 n1] r1] eqn:H1.
  pose proof (span_digits_nonneg _ _ _ _ _ _ H1 Hm0) as Hm1.
  by destruct (n0 + n1 =? 0); intros; simplify_eq.
Qed.

Definition no_sign (f : spec_float) : Prop :=
  match f with S754_finite s _ _ => s = false | _ => True end.

Lemma normalize_no_sign m e : 0 ≤ m → no_sign (binary_normalize 53 1024 m e false).
Proof.
  intros Hm. destruct m as [|p|p]; [done| |lia]. unfold binary_normalize, binary_round.
  destruct (shl_align _ _ _) as [mz ez]. unfold binary_round_aux.
  destruct (shr_fexp _ _ _ _ _) as [mrs e1]. destruct (shr_fexp _ _ _ _ _) as [mrs2 e2].
  destruct (shr_m mrs2); [done| |done]. by destruct (e2 <=? 1024 - 53).
Qed.

Lemma nearest_no_sign m e : 0 ≤ m → no_sign (nearest_double m e).
Proof.
  intros Hm. unfold nearest_double. destruct (0 <=? e) eqn:He; apply normalize_no_sign.
  - apply Z.mul_nonneg_nonneg; [done|]. apply Z.pow_nonneg. lia.
  - assert (0 ≤ m * 2 ^ Z.max 0 (Z.log2 (10 ^ - e) - Z.log2 m + 56) / 10 ^ (- e)).
    { apply Z.leb_gt in He. apply Z.div_pos; [|apply Z.pow_pos_nonneg; lia].
      apply Z.mul_nonneg_nonneg; [done|]. apply Z.pow_nonneg. lia. }
    destruct (_ =? 0); lia.
Qed.

(** The integer that a FLOAT literal becomes. *)
Lemma float_literal_range s f z :
  stod_exn s = inr f → cast_int64 f = Some z → 0 ≤ z < 2 ^ 63.
Proof.
  unfold stod_exn. destruct (scan_decimal (skip_spaces s)) as [[m e]|] eqn:Hs; [|done].
  apply scan_decimal_nonneg in Hs. pose proof (nearest_no_sign m e Hs) as Hn.
  destruct (range_error _ _ _); [done|]. intros [= <-]. destruct (nearest_double m e) as [b|b| |b p q];
    cbn [cast_int64]; [intros [= <-]; lia|done|done|]. cbn in Hn. subst b.
  destruct (decide _) as [Hd|]; [|done]. intros [= <-].
  assert (0 ≤ (if 0 <=? q then Z.pos p * 2 ^ q else Z.pos p / 2 ^ (- q))); [|lia].
  destruct (0 <=? q) eqn:Hq.
  - apply Z.mul_nonneg_nonneg; [lia|]. apply Z.pow_nonneg. lia.
  - apply Z.leb_gt in Hq. apply Z.div_pos; [lia|]. apply Z.pow_pos_nonneg; lia.
Qed.

(** The integer of an INTEGER literal, and when there is none. *)
Lemma stoi_digits s :
  starts_with_digit s = true →
  stoi_exn s =
    if decide (scan_digits s 0 < 2 ^ 31) then inr (scan_digits s 0) else inl (out_of_range "stoi").
Proof.
  intros Hd. unfold stoi_exn, stoi, parse_signed. rewrite (parse_integer_nonneg s Hd).
  cbn [mbind option_bind]. pose proof (scan_digits_nonneg s 0 ltac:(lia)) as Hn.
  destruct (decide (scan_digits s 0 < 2 ^ 31)) as [H|H].
  - rewrite decide_True by lia. done.
  - rewrite decide_False by lia. done.
Qed.

Lemma integer_tok_ok (lit : Value → bool) s :
  (∀ z, int_ok z = true → lit (Value_int z) = true) → starts_with_digit s = true →
  tok_ok lit (TokenType.INTEGER, s) = true.
Proof.
  intros Hlit Hd. unfold tok_ok. cbn [fst snd]. rewrite (stoi_digits s Hd).
  pose proof (scan_digits_nonneg s 0 ltac:(lia)) as Hn.
  destruct (decide _) as [H|H]; [|done].
  assert (int_ok (scan_digits s 0) = true) as Hi by (unfold int_ok; apply andb_true_iff; lia).
  by rewrite Hi, Hlit.
Qed.

Lemma read_digits_app lx text lx' t :
  read_digits lx text = (lx', t) → ∃ s, t = text ++ s.
Proof.
  unfold read_digits.
  destruct (read_while_spec (length (rest lx)) isdigit lx text) as (lx1 & -> & _); [done|done|].
  intros [= _ <-]. eauto.
Qed.

Lemma read_number_text lx c r :
  rest lx = c :: r → isdigit c = true →
  ∃ ty s l k, (readNumber lx).2 = mkToken ty (String c s) l k ∧
    (ty = TokenType.INTEGER ∨ ty = TokenType.FLOAT).
Proof.
  intros Hr Hc. unfold readNumber, read_digits at 1.
  destruct (read_while_spec (length (rest lx)) isdigit lx []) as (lx1 & -> & _); [done|done|].
  rewrite Hr. cbn [app take_while]. rewrite Hc.
  destruct (read_fraction lx1 _) as [[lx2 t2] b2] eqn:H2.
  assert (∃ s, t2 = c :: s) as [s2 ->].
  { unfold read_fraction in H2. case_decide; [|simplify_eq; eauto].
    destruct (advance lx1) as [lx3 c3]. destruct (read_digits lx3 _) as [lx4 t4] eqn:H4.
    destruct (read_digits_app _ _ _ _ H4) as [s ->]. simplify_eq. cbn. eauto. }
  destruct (read_exponent lx2 _ b2) as [[lx3 t3] b3] eqn:H3.
  assert (∃ s, t3 = c :: s) as [s3 ->].
  { unfold read_exponent in H3. case_decide; [|simplify_eq; eauto].
    destruct (advance lx2) as [lx4 c4].
    destruct (if decide _ then _ else _) as [lx5 t5] eqn:H5.
    assert (∃ s, t5 = c :: s) as [s5 ->].
    { case_decide; [destruct (advance lx4)|]; simplify_eq; cbn; eauto. }
    destruct (read_digits lx5 _) as [lx6 t6] eqn:H6.
    destruct (read_digits_app _ _ _ _ H6) as [s ->]. simplify_eq. cbn. eauto. }
  cbn. eexists _, _, _, _. split; [done|]. destruct b3; auto.
Qed.

(** *** The tokens of a query *)

Section tokens.
Context (lit : Value → bool).
Hypothesis lit_int : ∀ z, int_ok z = true → lit (Value_int z) = true.
Hypothesis lit_string : ∀ s, upper_text s = true → lit (Value_string s) = true.

(** FLOAT tokens are allowed when their literals are. *)
Definition floats_ok (t : tok) : Prop :=
  t.1 ≠ TokenType.FLOAT ∨ ∀ z, 0 ≤ z < 2 ^ 63 → lit (Value_bigint z) = true.

Lemma nextToken_ok lx :
  upper_rest lx → floats_ok (tok_of (nextToken lx).2) →
  tok_ok lit (tok_of (nextToken lx).2) = true.
Proof.
  intros Hu. apply (moves_upper _ _ (skip_moves lx)) in Hu. unfold nextToken.
  destruct (decide _) as [Hend|Hend]; [done|]. revert Hu Hend.
  generalize (skipComment (skipWhitespace lx)) as lx1. intros lx1 Hu Hend.
  destruct (rest lx1) as [|c r] eqn:Hr; [by apply at_end in Hr|].
  rewrite peek_rest, Hr. change (default nul (head (c :: r))) with c.
  destruct (isalpha c || bool_decide (c = "_"%char)) eqn:Ha.
  { intros _. by eapply identifier_tok_ok. }
  destruct (isdigit c) eqn:Hd.
  { destruct (read_number_text _ _ _ Hr Hd) as (ty & s & l & k & -> & [->| ->]).
    - intros _. by apply integer_tok_ok.
    - intros [Hf|Hf]; [done|]. unfold tok_ok, tok_of. cbn [ttype ttext fst snd].
      destruct (stod_exn _) as [|f] eqn:Hs; [done|]. destruct (cast_int64 f) as [z|] eqn:Hz; [|done].
      eapply Hf, float_literal_range; done. }
  destruct (decide _).
  - intros _. unfold readString. destruct (advance_cons _ _ _ Hr) as (lx2 & -> & _ & Hs).
    pose proof (step_upper _ _ Hs Hu) as Hu2.
    pose proof (read_string_upper (length (rest lx2)) c lx2 [] Hu2 (Forall_nil_2 _)) as Ht.
    destruct (read_string_loop _ _ _ _) as [lx3 text]. by apply lit_string, text_upper.
  - intros _. apply plain_tok_ok, operator_plain.
Qed.

Lemma token_stream_ok fuel lx ts lx' :
  upper_rest lx → token_stream fuel lx = Some (ts, lx') →
  Forall (λ t, floats_ok (tok_of t)) ts → Forall (λ t, tok_ok lit (tok_of t) = true) ts.
Proof.
  revert lx ts. induction fuel as [|fuel IH]; intros lx ts Hu; [done|]. cbn [token_stream].
  destruct (nextToken lx) as [lx1 t] eqn:Hn. pose proof (nextToken_ok lx Hu) as Ht. rewrite Hn in Ht.
  destruct (decide (ttype t = TokenType.END_OF_FILE)); intros Hs Hf.
  - simplify_eq. inversion Hf. by repeat constructor; apply Ht.
  - apply bind_Some in Hs as ([ts1 lx2] & Hs & Heq). simplify_eq. inversion Hf; subst.
    constructor; [by apply Ht|]. eapply IH; [|done|done].
    eapply moves_upper; [|done]. by apply (nextToken_progress _ _ _ Hn).
Qed.

Lemma tokens_of_ok query :
  Forall floats_ok (tokens_of query) → Forall (λ t, tok_ok lit t = true) (tokens_of query).
Proof.
  unfold tokens_of, tokens_from.
  destruct (token_stream_total (S (length (rest (Lexer_new query)))) (Lexer_new query))
    as (ts & lx' & Hs & _ & _ & _ & ts' & -> & _); [lia|]. rewrite Hs, removelast_last.
  rewrite !Forall_map. intros Hf.
  assert (Forall (λ t, floats_ok (tok_of t))
    (ts' ++ [mkToken TokenType.END_OF_FILE "" (lline lx') (lcolumn lx')])) as Hf'.
  { apply Forall_app_2; [done|]. constructor; [by left|done]. }
  pose proof (token_stream_ok _ _ _ _ (Lexer_new_upper query) Hs Hf') as Ht.
  by apply Forall_app in Ht as [Ht _].
Qed.
End tokens.

Lemma printable_int z : int_ok z = true → literal_printable (Value_int z) = true.
Proof.
  intros Hz. unfold literal_printable. cbn [data Value_int]. unfold int_ok in Hz. prop_bools.
  rewrite wrap_small by (unfold fits; lia). rewrite bool_decide_true by done.
  unfold int_ok. rewrite !orb_true_iff. do 4 left. rewrite andb_true_l. apply andb_true_iff. lia.
Qed.

Lemma printable_string s : upper_text s = true → literal_printable (Value_string s) = true.
Proof.
  intros Hs. unfold literal_printable. cbn [str_val Value_string]. rewrite Hs, (bool_decide_true (Value_string s = Value_string s)) by done.
  cbn [andb]. by rewrite orb_true_r.
Qed.

Lemma typed_bigint z : 0 ≤ z < 2 ^ 63 → literal_typed (Value_bigint z) = true.
Proof.
  intros Hz. unfold literal_typed. apply orb_true_iff. right. cbn [data Value_bigint].
  rewrite wrap_small by (unfold fits; lia). rewrite bool_decide_true by done.
  rewrite andb_true_l. apply andb_true_iff. lia.
Qed.

Lemma typed_printable v : literal_printable v = true → literal_typed v = true.
Proof. intros H. unfold literal_typed. by rewrite H. Qed.

Lemma typed_tokens query : Forall (λ t, tok_ok literal_typed t = true) (tokens_of query).
Proof.
  apply tokens_of_ok.
  - intros z Hz. by apply typed_printable, printable_int.
  - intros s Hs. by apply typed_printable, printable_string.
  - apply Forall_forall. intros t _. right. apply typed_bigint.
Qed.

(** ** Theorems *)

(** (C16) The parser ends on every query in which the lexer finds no token CASE: it
    returns a statement or throws (or meets the conversion of a decimal literal that
    has no defined result); no loop and no recursion runs for ever. *)
Theorem parse_terminates query st :
  Forall (λ t, t.1 ≠ TokenType.CASE) (tokens_of query) →
  match parse query st with Stops NoReturn _ => False | _ => True end.
Proof.
  intros Hc. rewrite parse_start.
  assert (wp parse_tokens (λ s us, statement_ok literal_typed s = true ∧ head_type us = TokenType.END_OF_FILE)
    (λ s, s ≠ NoReturn) (tokens_of query)) as Hw.
  { apply tokens_parse; [by intros []|done..|]. split; [by right|apply typed_tokens]. }
  specialize (Hw _ (start_sees query st)). destruct (parse_tokens _) as [|[e| |]]; done.
Qed.

(** (C17) Every statement that [parse] returns is typed: the binary operators join two
    operands and are those of the levels of the grammar, IN with a list or a subquery, and
    NOT IN only after a test for NULL; there are no function calls, no BETWEEN and no
    aliases of the select list; integer literals are in [0, 2^31), decimal literals
    have become integers in [0, 2^63) and texts are in upper case; lists are not empty;
    names are words in upper case that are not keywords; a default value, a length or
    the expression of a CHECK is never kept. *)
Theorem parse_typed query st s st' :
  parse query st = Returns s st' → statement_ok literal_typed s = true.
Proof.
  rewrite parse_start. intros Hp.
  assert (wp parse_tokens (λ s us, statement_ok literal_typed s = true ∧ head_type us = TokenType.END_OF_FILE)
    (λ _, True) (tokens_of query)) as Hw.
  { apply tokens_parse; [by intros []|done..|]. split; [by left|apply typed_tokens]. }
  specialize (Hw _ (start_sees query st)). rewrite Hp in Hw. by destruct Hw as (us & _ & Hok & _).
Qed.

(** The loop that looks for END stays at the end of the input. *)
Lemma skip_case_runs ts st fuel :
  sees ts st → Forall (λ t, t.1 ≠ TokenType.END) ts →
  ∃ st', while_loop fuel (λ st, negb (match_token TokenType.END st)) (λ _, next_token) tt st =
         Stops NoReturn st'.
Proof.
  revert ts st. induction fuel as [|fuel IH]; intros ts st Hs Hn; cbn [while_loop]; [by eexists|].
  unfold choose. rewrite (Test_match _ ts st Hs).
  assert (at_ TokenType.END ts = false) as ->.
  { unfold at_. apply bool_decide_eq_false. destruct Hn; [done|by cbn]. }
  cbn [negb]. unfold mbind, P_bind. rewrite next_token_step. apply (IH (tail ts)).
  - by apply sees_next.
  - by destruct Hn.
Qed.

(** No CASE expression is parsed: [parsePrimary] at CASE returns no node, and when
    no END follows, the loop that skips to it ends for no amount of fuel. *)
Theorem case_never_parses expr select ts st :
  sees ts st → head_type ts = TokenType.CASE →
  (∀ e st', parsePrimary expr select st ≠ Returns e st') ∧
  (Forall (λ t, t.1 ≠ TokenType.END) ts → ∀ fuel, ∃ st',
    while_loop fuel (λ st, negb (match_token TokenType.END st)) (λ _, next_token) tt
      (step_parser st) = Stops NoReturn st').
Proof.
  intros Hs Ht. split.
  - intros e st' Hp.
    assert (wp (parsePrimary expr select) (λ _ _, False) (λ _, True) ts) as Hw.
    { unfold parsePrimary. do 8 (apply (wp_choose _ _); [intros Hc; unfold at_two in Hc;
        try apply andb_true_iff in Hc as [Hc _]; apply at_true in Hc; congruence|intros _]).
      apply wp_bind, (wp_choose _ _); intros _; [|apply wp_ret, wp_error; done].
      unfold parse_case. apply wp_bind, wp_next, wp_bind. intros st1 Hs1. unfold skip_case, while_.
      generalize (S (tokens_left st1)) as n. revert st1 Hs1. generalize (tail ts) as us. intros us st1 Hs1 n.
      revert us st1 Hs1. induction n as [|n IH]; intros us st1 Hs1; [done|]. cbn [while_loop].
      unfold choose. destruct (negb _).
      - unfold mbind, P_bind. rewrite next_token_step. by apply (IH (tail us)), sees_next.
      - exists us. split; [done|]. by apply wp_skip; [intros; apply wp_error|]. }
    specialize (Hw st Hs). rewrite Hp in Hw. by destruct Hw as (? & _ & []).
  - intros Hn fuel. apply (skip_case_runs (tail ts)); [by apply sees_next|]. by destruct Hn.
Qed.

Definition query0 : list ascii :=
  String.list_ascii_of_string "select a, 'x' from t where b < 2 * (c + 1) or d is null limit 3".

Lemma parse_terminates_witness :
  match parse query0 SQLParser_new with Stops NoReturn _ => False | _ => True end.
Proof.
  apply (parse_terminates query0 SQLParser_new).
  assert (forallb (λ t : tok, negb (bool_decide (t.1 = TokenType.CASE))) (tokens_of query0) = true) as H
    by (vm_compute; reflexivity).
  apply forallb_Forall in H. eapply Forall_impl; [exact H|]. intros t Ht.
  apply negb_true_iff in Ht. by apply bool_decide_eq_false in Ht.
Defined.

Lemma parse_typed_witness :
  match parse query0 SQLParser_new with
  | Returns s st' => statement_ok literal_typed s = true
  | _ => False
  end.
Proof.
  destruct (parse query0 SQLParser_new) as [s st'|] eqn:Hp.
  - exact (parse_typed query0 SQLParser_new s st' Hp).
  - vm_compute in Hp. discriminate.
Defined.

Lemma case_never_parses_witness :
  let q := String.list_ascii_of_string "case when a then b" in
  let st := start q SQLParser_new in
  (∀ e st', parsePrimary (stop Undefined) (stop Undefined) st ≠ Returns e st') ∧
  ∃ st', while_loop 100 (λ st, negb (match_token TokenType.END st)) (λ _, next_token) tt
           (step_parser st) = Stops NoReturn st'.
Proof.
  intros q st.
  destruct (case_never_parses (stop Undefined) (stop Undefined) (tokens_of q) st) as [H1 H2];
    [apply start_sees|by vm_compute|].
  split; [exact H1|]. apply H2.
  assert (forallb (λ t : tok, negb (bool_decide (t.1 = TokenType.END))) (tokens_of q) = true) as H
    by (vm_compute; reflexivity).
  apply forallb_Forall in H. eapply Forall_impl; [exact H|]. intros t Ht.
  apply negb_true_iff in Ht. by apply bool_decide_eq_false in Ht.
Defined.
