(* ===== verification/ParserPrint.v ===== *)
(** * ParserPrint: a printer of syntax trees

    The reference for the parser: statements as token lists, with the parentheses that
    the precedence of the operators needs and no others, and the text of these tokens.
    The levels are those of the grammar: OR 1, AND 2, IN 3, IS NULL 4, equality 5,
    comparison 6, sums 7, products 8, signs and NOT 9, primary expressions 10. *)

From stdpp Require Import list gmap strings.
From S2P Require Import Prelude CxxString Types Lexer LexerProofs AST Parser ParserLogic ParserShape.

Open Scope Z_scope.

(** ** Tokens and their text *)

Definition spelling (t : TokenType) : string :=
  match find (λ e, bool_decide (e.2 = t)) keywords_list with
  | Some (w, _) => w
  | None =>
      match find (λ e, bool_decide (e.2 = t)) one_char with
      | Some (c, _) => String c ""
      | None =>
          match find (λ e, bool_decide (e.2 = t)) two_chars with
          | Some (a, b, _) => String a (String b "")
          | None => ""
          end
      end
  end.

Definition kw (t : TokenType) : tok := (t, spelling t).
Definition ident (x : string) : tok := (TokenType.IDENTIFIER, x).

(** How a token is written. *)
Definition lexeme_of (t : tok) : Lexeme :=
  match t.1, String.list_ascii_of_string t.2 with
  | TokenType.STRING, s => Text s
  | TokenType.INTEGER, d :: w => Number d w None
  | TokenType.IDENTIFIER, c :: w => Word c w
  | _, [a; b] => if starts_word a then Word a [b] else Op2 a b
  | _, [a] => Op1 a
  | _, c :: w => Word c w
  | _, [] => Text []
  end.

Definition print_tokens (ts : list tok) : list ascii := print_all (map lexeme_of ts).

(** ** Expressions *)

Definition literal_tok (v : Value) : tok :=
  match vtype v with
  | DataType.INTEGER => (TokenType.INTEGER, to_string (data v))
  | DataType.VARCHAR => (TokenType.STRING, str_val v)
  | DataType.BOOLEAN => (TokenType.BOOLEAN, if data v =? 0 then "FALSE" else "TRUE")
  | _ => kw TokenType.NULL
  end.

(** The level and the tokens of an operator between two operands of a level. *)
Definition chain_info (op : Operator) : option (nat * list TokenType) :=
  match op with
  | Operator.OR => Some (1%nat, [TokenType.OR])
  | Operator.AND => Some (2%nat, [TokenType.AND])
  | Operator.EQ => Some (5%nat, [TokenType.EQ])
  | Operator.NE => Some (5%nat, [TokenType.NE])
  | Operator.LT => Some (6%nat, [TokenType.LT])
  | Operator.LE => Some (6%nat, [TokenType.LE])
  | Operator.GT => Some (6%nat, [TokenType.GT])
  | Operator.GE => Some (6%nat, [TokenType.GE])
  | Operator.LIKE => Some (6%nat, [TokenType.LIKE])
  | Operator.NOT_LIKE => Some (6%nat, [TokenType.NOT; TokenType.LIKE])
  | Operator.PLUS => Some (7%nat, [TokenType.PLUS])
  | Operator.MINUS => Some (7%nat, [TokenType.MINUS])
  | Operator.CONCAT => Some (7%nat, [TokenType.CONCAT])
  | Operator.MULTIPLY => Some (8%nat, [TokenType.STAR])
  | Operator.DIVIDE => Some (8%nat, [TokenType.SLASH])
  | Operator.MODULO => Some (8%nat, [TokenType.PERCENT])
  | _ => None
  end.

Definition unary_token (op : Operator) : TokenType :=
  match op with
  | Operator.PLUS => TokenType.PLUS
  | Operator.MINUS => TokenType.MINUS
  | _ => TokenType.NOT
  end.

Definition null_tokens (op : Operator) : list tok :=
  match op with
  | Operator.IS_NOT_NULL => [kw TokenType.IS; kw TokenType.NOT; kw TokenType.NULL]
  | _ => [kw TokenType.IS; kw TokenType.NULL]
  end.

Definition in_tokens (op : Operator) : list tok :=
  match op with
  | Operator.NOT_IN => [kw TokenType.NOT; kw TokenType.IN; kw TokenType.LPAREN]
  | _ => [kw TokenType.IN; kw TokenType.LPAREN]
  end.

Definition level (e : ASTNode) : nat :=
  match e with
  | BinaryExprNode op _ _ => match chain_info op with Some (k, _) => k | None => 3 end
  | UnaryExprNode op _ => if null_op op then 4 else 9
  | _ => 10
  end.

Definition parens (ts : list tok) : list tok := kw TokenType.LPAREN :: ts ++ [kw TokenType.RPAREN].

Fixpoint commas (l : list (list tok)) : list tok :=
  match l with
  | [] => []
  | [x] => x
  | x :: l' => x ++ kw TokenType.COMMA :: commas l'
  end.

Definition print_alias (a : string) : list tok :=
  if decide (a = "") then [] else [kw TokenType.AS; ident a].

Definition print_names (l : list string) : list tok := commas (map (λ x, [ident x]) l).

Definition join_tokens (t : JoinType) : list tok :=
  match t with
  | JoinType.LEFT => [kw TokenType.LEFT]
  | JoinType.RIGHT => [kw TokenType.RIGHT]
  | JoinType.FULL => [kw TokenType.FULL]
  | JoinType.CROSS => [kw TokenType.CROSS]
  | _ => []
  end ++ [kw TokenType.JOIN].

Definition print_count (z : Z) : list tok :=
  if z <? 0 then [] else [(TokenType.INTEGER, to_string z)].

Definition print_limit (l : LimitNode) : list tok :=
  kw TokenType.LIMIT ::
  (if offset l <? 0 then kw TokenType.COMMA :: print_count (limit l)
   else print_count (limit l) ++ kw TokenType.OFFSET :: print_count (offset l)).

Definition set_tokens (op : SetOperation) : list tok :=
  match op with
  | SetOperation.NONE => []
  | SetOperation.UNION => [kw TokenType.UNION]
  | SetOperation.UNION_ALL => [kw TokenType.UNION; kw TokenType.ALL]
  | SetOperation.INTERSECT => [kw TokenType.INTERSECT]
  | SetOperation.EXCEPT => [kw TokenType.EXCEPT]
  end.

Definition clause {A} (t : list tok) (print : A → list tok) (o : option A) : list tok :=
  match o with Some a => t ++ print a | None => [] end.

Fixpoint print_expr (e : ASTNode) (l : nat) : list tok :=
  let body :=
    match e with
    | LiteralNode v => [literal_tok v]
    | ColumnRefNode t c =>
        if decide (t = "") then [ident c] else [ident t; kw TokenType.DOT; ident c]
    | BinaryExprNode op a (Some b) =>
        match chain_info op with
        | Some (k, ts) => print_expr a k ++ map kw ts ++ print_expr b (S k)
        | None =>
            print_expr a 4 ++ in_tokens op ++
            match b with Subquery s => print_select s | _ => [] end ++ [kw TokenType.RPAREN]
        end
    | UnaryExprNode op e =>
        if null_op op then print_expr e 5 ++ null_tokens op
        else kw (unary_token op) :: print_expr e 9
    | Subquery s => parens (print_select s)
    | _ => []
    end in
  if (level e <? l)%nat then parens body else body
with print_select (s : SelectNode) : list tok :=
  match s with
  | mkSelectNode dist items _ tables joins w g h o lim op operand =>
      kw TokenType.SELECT :: (if dist then [kw TokenType.DISTINCT] else []) ++
      commas (map (λ e, print_expr e 1) items) ++
      kw TokenType.FROM ::
      commas (map (λ t : TableRef SelectNode,
        match subquery t with
        | Some s => parens (print_select s)
        | None => [ident (table_name t)]
        end ++ print_alias (table_alias t)) tables) ++
      concat (map (λ j : JoinClause ASTNode,
        join_tokens (join_type j) ++ ident (join_table j) :: print_alias (join_alias j) ++
        match condition j with
        | Some e => kw TokenType.ON :: print_expr e 1
        | None =>
            match using_columns j with
            | [] => []
            | cols => kw TokenType.USING :: parens (print_names cols)
            end
        end) joins) ++
      match w with Some e => kw TokenType.WHERE :: print_expr e 1 | None => [] end ++
      match g with
      | Some l => kw TokenType.GROUP :: kw TokenType.BY :: commas (map (λ e, print_expr e 1) l)
      | None => []
      end ++
      match h with Some e => kw TokenType.HAVING :: print_expr e 1 | None => [] end ++
      match o with
      | Some l =>
          kw TokenType.ORDER :: kw TokenType.BY ::
          commas (map (λ i : OrderItem ASTNode,
            print_expr (item_expr i) 1 ++
            [kw (if ascending i then TokenType.ASC else TokenType.DESC)]) l)
      | None => []
      end ++
      match lim with Some l => print_limit l | None => [] end ++
      set_tokens op ++ match operand with Some s => print_select s | None => [] end
  end.

Definition print_table (t : TableRef SelectNode) : list tok :=
  match subquery t with
  | Some s => parens (print_select s)
  | None => [ident (table_name t)]
  end ++ print_alias (table_alias t).
Definition print_join (j : JoinClause ASTNode) : list tok :=
  join_tokens (join_type j) ++ ident (join_table j) :: print_alias (join_alias j) ++
  match condition j with
  | Some e => kw TokenType.ON :: print_expr e 1
  | None =>
      match using_columns j with
      | [] => []
      | cols => kw TokenType.USING :: parens (print_names cols)
      end
  end.
Definition print_exprs (l : list ASTNode) : list tok := commas (map (λ e, print_expr e 1) l).
Definition print_order (i : OrderItem ASTNode) : list tok :=
  print_expr (item_expr i) 1 ++ [kw (if ascending i then TokenType.ASC else TokenType.DESC)].
Definition print_where (w : option ASTNode) : list tok :=
  clause [kw TokenType.WHERE] (λ e, print_expr e 1) w.

(** The clauses of a SELECT after its tables and joins. *)
Definition print_set (op : SetOperation) (operand : option SelectNode) : list tok :=
  set_tokens op ++ clause [] print_select operand.
Definition print_group (g : option (list ASTNode)) : list tok :=
  clause [kw TokenType.GROUP; kw TokenType.BY] print_exprs g.
Definition print_having (h : option ASTNode) : list tok :=
  clause [kw TokenType.HAVING] (λ e, print_expr e 1) h.
Definition print_order_by (o : option (list (OrderItem ASTNode))) : list tok :=
  clause [kw TokenType.ORDER; kw TokenType.BY] (λ l, commas (map print_order l)) o.

Lemma print_select_eq dist items al tables joins w g h o lim op operand :
  print_select (mkSelectNode dist items al tables joins w g h o lim op operand) =
  kw TokenType.SELECT :: (if dist then [kw TokenType.DISTINCT] else []) ++
  print_exprs items ++ kw TokenType.FROM :: commas (map print_table tables) ++
  concat (map print_join joins) ++ print_where w ++ print_group g ++ print_having h ++
  print_order_by o ++ clause [] print_limit lim ++ print_set op operand.
Proof. by destruct w, g, h, o, lim. Qed.

(** ** Statements *)

Definition print_rows (n : InsertNode) : list tok :=
  match insert_select n with
  | Some s => print_select s
  | None => kw TokenType.VALUES :: commas (map (λ r, parens (print_exprs r)) (insert_values n))
  end.

Definition print_columns (l : list string) : list tok :=
  match l with [] => [] | _ => parens (print_names l) end.

Definition print_assignment (a : Assignment) : list tok :=
  ident (assigned_column a) :: kw TokenType.ASSIGN :: print_expr (assigned_value a) 1.

Definition type_name (t : DataType) : string :=
  match find (λ e, bool_decide (e.1 = t)) column_types with Some (_, x) => x | None => "" end.

Definition print_column (c : ColumnDef) : list tok :=
  ident (column_name c) :: ident (type_name (column_type c)) ::
  (if nullable c then [] else [kw TokenType.NOT; kw TokenType.NULL]) ++
  (if primary_key c then [kw TokenType.PRIMARY; kw TokenType.KEY] else []) ++
  (if unique c then [kw TokenType.UNIQUE] else []).

Definition print_constraint (c : Constraint) : list tok :=
  match constraint_type c with
  | PRIMARY_KEY =>
      kw TokenType.PRIMARY :: kw TokenType.KEY :: parens (print_names (constraint_columns c))
  | FOREIGN_KEY =>
      kw TokenType.FOREIGN :: kw TokenType.KEY :: parens (print_names (constraint_columns c)) ++
      kw TokenType.REFERENCES :: ident (ref_table c) :: parens (print_names (ref_columns c))
  | UNIQUE => kw TokenType.UNIQUE :: parens (print_names (constraint_columns c))
  | CHECK => [kw TokenType.CHECK; kw TokenType.LPAREN; kw TokenType.RPAREN]
  end.

Definition print_savepoint (n : SavepointName) : list tok :=
  if is_savepoint n then [ident (savepoint_name n)] else [].

Definition print_statement (s : Statement) : list tok :=
  match s with
  | SelectStmt n => print_select n
  | InsertStmt n =>
      kw TokenType.INSERT :: kw TokenType.INTO :: ident (insert_table n) ::
      print_columns (insert_columns n) ++ print_rows n
  | UpdateStmt n =>
      kw TokenType.UPDATE :: ident (update_table n) :: kw TokenType.SET ::
      commas (map print_assignment (assignments n)) ++ print_where (update_where n)
  | DeleteStmt n =>
      kw TokenType.DELETE :: kw TokenType.FROM :: ident (delete_table n) ::
      print_where (delete_where n)
  | CreateTableStmt n =>
      kw TokenType.CREATE :: kw TokenType.TABLE :: ident (create_table_name n) ::
      parens (commas (map print_column (create_columns n) ++ map print_constraint (constraints n)))
  | CreateIndexStmt n =>
      kw TokenType.CREATE :: kw TokenType.INDEX ::
      (if index_unique n then [kw TokenType.UNIQUE] else []) ++
      ident (index_name n) :: kw TokenType.ON :: ident (index_table n) ::
      parens (print_names (index_columns n))
  | DropTableStmt n => [kw TokenType.DROP; kw TokenType.TABLE; ident (drop_table_name n)]
  | BeginStmt n => kw TokenType.BEGIN :: print_savepoint n
  | CommitStmt n => kw TokenType.COMMIT :: print_savepoint n
  | RollbackStmt n => kw TokenType.ROLLBACK :: print_savepoint n
  end.
