(* ===== verification/ParserRoundtrip.v ===== *)
(** * ParserRoundtrip: parsing inverts printing

    [gives m a rest ts]: from the tokens [ts] the parsing function [m] returns [a] and
    leaves [rest].  A level of the grammar gives back an expression printed at that
    level when what follows does not continue it ([follows]); the lemma for chains of
    operators is proved once, with the loop as a continuation. *)

From stdpp Require Import list gmap strings.
From S2P Require Import Prelude CxxString Types Lexer LexerProofs AST Parser ParserLogic ParserShape ParserTypes ParserPrint.

Open Scope Z_scope.

Definition never (s : Stop) : Prop := False.
Abbreviation gives m a rest ts := (wp m (λ x us, x = a ∧ us = rest) never ts).
Abbreviation expr_good := (expr_ok literal_printable).
Abbreviation select_good := (select_ok literal_printable).

(** ** What continues an expression *)

Definition cont_level (t : TokenType) : nat :=
  match t with
  | TokenType.OR => 1
  | TokenType.AND => 2
  | TokenType.IN | TokenType.BETWEEN => 3
  | TokenType.IS => 4
  | TokenType.EQ | TokenType.NE => 5
  | TokenType.LT | TokenType.LE | TokenType.GT | TokenType.GE | TokenType.LIKE | TokenType.NOT => 6
  | TokenType.PLUS | TokenType.MINUS | TokenType.CONCAT => 7
  | TokenType.STAR | TokenType.SLASH | TokenType.PERCENT => 8
  | TokenType.DOT => 10
  | _ => 0
  end.

Definition follows (l : nat) (rest : list tok) : Prop := (cont_level (head_type rest) < l)%nat.

Lemma follows_le l l' rest : follows l rest → (l ≤ l')%nat → follows l' rest.
Proof. unfold follows. lia. Qed.

Lemma follows_at l t rest : follows l rest → (l <=? cont_level t)%nat = true → at_ t rest = false.
Proof.
  unfold follows. intros Hf Ht. apply Nat.leb_le in Ht. apply bool_decide_eq_false. intros He.
  rewrite He in Hf. lia.
Qed.

Lemma follows_any l ts rest :
  follows l rest → forallb (λ t, l <=? cont_level t)%nat ts = true → at_any ts rest = false.
Proof.
  intros Hf. unfold at_any. induction ts as [|t ts IH]; cbn; [done|].
  intros [H1 H2]%andb_true_iff. by rewrite (follows_at l t rest Hf H1), IH.
Qed.

(** ** Rules for known tokens *)

Lemma wp_then {A} c f `{Test c f} (m1 m2 : P A) Q E ts :
  f ts = true → wp m1 Q E ts → wp (choose c m1 m2) Q E ts.
Proof. intros Hf Hw. apply (wp_choose _ _); [done|]. by rewrite Hf. Qed.

Lemma wp_else {A} c f `{Test c f} (m1 m2 : P A) Q E ts :
  f ts = false → wp m2 Q E ts → wp (choose c m1 m2) Q E ts.
Proof. intros Hf Hw. apply (wp_choose _ _); [by rewrite Hf|done]. Qed.

Lemma wp_skip_ok t (Q : () → list tok → Prop) E ts :
  head_type ts = t → Q tt (tail ts) → wp (skip t) Q E ts.
Proof. intros Ht HQ. by apply wp_skip. Qed.

Lemma wp_expect_ok t (Q : () → list tok → Prop) E ts :
  head_type ts = t → Q tt ts → wp (expect t) Q E ts.
Proof. intros Ht HQ. by apply wp_expect. Qed.

Lemma wp_consume_ok t (Q : Token → list tok → Prop) E ts :
  head_type ts = t → (∀ k, ttype k = t → ttext k = head_text ts → Q k (tail ts)) →
  wp (consume t) Q E ts.
Proof. intros Ht HQ. apply wp_consume; [auto|done]. Qed.

Lemma wp_identifier_ok (Q : string → list tok → Prop) E x ts :
  Q x ts → wp identifier Q E (ident x :: ts).
Proof. intros HQ. by apply wp_identifier. Qed.

Lemma wp_assoc {A B C} (m : P A) (f : A → P B) (g : B → P C) Q E ts :
  wp ((m ≫= f) ≫= g) Q E ts → wp (a ← m; f a ≫= g) Q E ts.
Proof.
  intros Hw st Hs. specialize (Hw st Hs). unfold mbind, P_bind in *. by destruct (m st).
Qed.

Lemma gives_use {A} (m : P A) a rest ts (Q : A → list tok → Prop) :
  gives m a rest ts → Q a rest → wp m Q never ts.
Proof. intros Hm HQ. eapply wp_mono; [exact Hm| |done]. by intros ? ? [-> ->]. Qed.

(** Steps whose tests are decided by the first token. *)
Ltac tok_step :=
  lazymatch goal with
  | |- wp (_ ≫= _) _ _ _ => apply wp_bind
  | |- wp (mret _) _ _ _ => apply wp_ret
  | |- wp next_token _ _ _ => apply wp_next; cbn [tail]
  | |- wp (choose _ _ _) _ _ _ =>
      first [apply (wp_then _ _); [reflexivity|] | apply (wp_else _ _); [reflexivity|]]
  | |- wp (skip _) _ _ _ => apply wp_skip_ok; [reflexivity|cbn [tail]]
  | |- wp (expect _) _ _ _ => apply wp_expect_ok; [reflexivity|]
  | |- wp (consume _) _ _ _ => apply wp_consume_ok; [reflexivity|intros ? _ ?; cbn [tail]]
  | |- wp identifier _ _ (ident _ :: _) => apply wp_identifier_ok
  end.
Ltac tok_steps := repeat tok_step.

(** ** Printing at a level *)

Lemma level_pos e : (1 ≤ level e)%nat.
Proof. destruct e as [| | |op l r|op e| |]; cbn; try lia; [destruct op; cbn; lia|destruct (null_op op); lia]. Qed.

Lemma print_body e : ∃ body, ∀ l, print_expr e l = if (level e <? l)%nat then parens body else body.
Proof. destruct e; eexists; intros l; reflexivity. Qed.

Lemma print_bare e l : (l ≤ level e)%nat → print_expr e l = print_expr e 1.
Proof.
  intros Hl. pose proof (level_pos e). destruct (print_body e) as [body Hb].
  rewrite (Hb l), (Hb 1%nat).
  destruct (Nat.ltb_spec (level e) l), (Nat.ltb_spec (level e) 1); (done || lia).
Qed.

Lemma print_parens e l : (level e < l)%nat → print_expr e l = parens (print_expr e 1).
Proof.
  intros Hl. pose proof (level_pos e). destruct (print_body e) as [body Hb].
  rewrite (Hb l), (Hb 1%nat).
  destruct (Nat.ltb_spec (level e) l), (Nat.ltb_spec (level e) 1); (done || lia).
Qed.

Lemma print_next e k : level e ≠ k → print_expr e k = print_expr e (S k).
Proof.
  intros Hk. destruct (decide (level e < k)%nat).
  - by rewrite (print_parens e k), (print_parens e (S k)) by lia.
  - by rewrite (print_bare e k), (print_bare e (S k)) by lia.
Qed.

(** The tokens an expression can start with. *)
Definition starters : list TokenType :=
  [TokenType.INTEGER; TokenType.STRING; TokenType.BOOLEAN; TokenType.NULL; TokenType.IDENTIFIER;
   TokenType.LPAREN; TokenType.PLUS; TokenType.MINUS; TokenType.NOT].

Lemma literal_starts v : (literal_tok v).1 ∈ starters.
Proof. unfold literal_tok. destruct (vtype v); cbn; set_solver. Qed.

Definition starts (ts : list tok) : Prop := ∃ t us, ts = t :: us ∧ t.1 ∈ starters.

Lemma starts_level e l : starts (print_expr e 1) → starts (print_expr e l).
Proof.
  intros Hs. destruct (decide (level e < l)%nat).
  - rewrite print_parens by done. eexists _, _. split; [done|]. cbn. set_solver.
  - by rewrite print_bare by lia.
Qed.

Lemma starts_app ts us : starts ts → starts (ts ++ us).
Proof. intros (t & vs & -> & Ht). by eexists _, _. Qed.

Lemma print_starts1 e : expr_good e = true → starts (print_expr e 1).
Proof.
  induction e as [v| |t c|op a r IHa IHr|op e IH|n args ag|s] using expr_ind; intros He.
  - eexists _, _. split; [done|]. apply literal_starts.
  - done.
  - cbn. destruct (decide (t = "")); eexists _, _; (split; [done|]; cbn; set_solver).
  - destruct r as [b|]; [|done]. cbn in He.
    assert (expr_good a = true) as Ha.
    { destruct (chain_op op); rewrite !andb_true_iff in He; naive_solver. }
    destruct op; cbn; by apply starts_app, starts_level, IHa.
  - cbn in He. apply andb_true_iff in He as [_ He]. cbn.
    destruct (null_op op); cbn; [by apply starts_app, starts_level, IH|].
    eexists _, _. split; [done|]. destruct op; cbn; set_solver.
  - done.
  - eexists _, _. split; [done|]. cbn. set_solver.
Qed.

Lemma print_starts e l : expr_good e = true → starts (print_expr e l).
Proof. intros He. by apply starts_level, print_starts1. Qed.

Lemma not_starter t e l rest :
  expr_good e = true → bool_decide (t ∈ starters) = false → at_ t (print_expr e l ++ rest) = false.
Proof.
  intros He Ht. destruct (print_starts e l He) as (u & us & -> & Hu). apply bool_decide_eq_false in Ht.
  apply bool_decide_eq_false. cbn. intros Heq. by rewrite Heq in Hu.
Qed.

(** ** Literals *)

Lemma stoi_exn_to_string z : int_ok z = true → stoi_exn (to_string z) = inr z.
Proof.
  unfold int_ok. intros Hz. prop_bools. unfold stoi_exn. rewrite parse_to_string.
  rewrite stoi_to_string; [done|]. unfold fits_signed. lia.
Qed.

Lemma wp_literal v ts (Q : ASTNode → list tok → Prop) E :
  Q (LiteralNode v) (tail ts) → wp (parse_literal (inr v)) Q E ts.
Proof. intros HQ. unfold parse_literal. apply wp_bind, wp_ret, wp_bind, wp_next, wp_ret, HQ. Qed.

Section expressions.
Context (d : nat) (expr : P ASTNode) (select : P SelectNode).

(** What may follow a subquery: the parenthesis that closes it, or the end. *)
Definition closes (rest : list tok) : Prop :=
  head_type rest = TokenType.RPAREN ∨ head_type rest = TokenType.END_OF_FILE.

Hypothesis expr_gives : ∀ e rest,
  expr_good e = true → follows 1 rest → (length (print_expr e 1 ++ rest) < d)%nat →
  gives expr e rest (print_expr e 1 ++ rest).
Hypothesis select_gives : ∀ s rest,
  select_good s = true → closes rest → (length (print_select s ++ rest) < d)%nat →
  gives select s rest (print_select s ++ rest).

Lemma literal_gives v rest :
  literal_printable v = true →
  gives (parsePrimary expr select) (LiteralNode v) rest (literal_tok v :: rest).
Proof.
  intros Hv. unfold literal_printable in Hv. rewrite !orb_true_iff in Hv.
  unfold parsePrimary. destruct Hv as [[[[Hv|Hv]|Hv]|Hv]|Hv].
  - apply andb_true_iff in Hv as [Hv%bool_decide_eq_true Hz].
    unfold literal_tok. rewrite Hv. cbn [vtype Value_int]. tok_step.
    apply (wp_text (λ x, parse_literal (match stoi_exn x with inl e => inl e | inr z => inr (Value_int z) end))).
    assert (data (Value_int (data v)) = data v) as Hd by (by rewrite <- Hv).
    cbn [head_text snd]. rewrite Hd, stoi_exn_to_string by done. by apply wp_literal.
  - apply andb_true_iff in Hv as [Hv%bool_decide_eq_true Hz].
    unfold literal_tok. rewrite Hv. cbn [vtype Value_string str_val]. tok_steps.
    apply (wp_text (λ x, parse_literal (inr (Value_string x)))). by apply wp_literal.
  - apply bool_decide_eq_true in Hv. subst v. tok_steps.
    pose (f := λ x : string, parse_literal (inr (Value_bool (bool_decide (x = "TRUE"))))).
    apply (wp_text f). by apply wp_literal.
  - apply bool_decide_eq_true in Hv. subst v. tok_steps.
    pose (f := λ x : string, parse_literal (inr (Value_bool (bool_decide (x = "TRUE"))))).
    apply (wp_text f). by apply wp_literal.
  - apply bool_decide_eq_true in Hv. subst v. tok_steps. by apply wp_literal.
Qed.

Lemma column_gives t c rest :
  expr_good (ColumnRefNode t c) = true → follows 10 rest →
  gives (parsePrimary expr select) (ColumnRefNode t c) rest (print_expr (ColumnRefNode t c) 10 ++ rest).
Proof.
  intros He Hf. cbn. unfold parsePrimary, parse_column.
  destruct (decide (t = "")) as [->|Hne]; cbn [app]; do 7 tok_step; tok_step.
  - apply (wp_else _ _); [by apply (follows_at 10)|]. by tok_step.
  - by tok_steps.
Qed.

(** An expression of a lower level, in parentheses. *)
Lemma parens_gives e rest :
  expr_good e = true → (length (print_expr e 1 ++ kw TokenType.RPAREN :: rest) < d)%nat →
  gives (parsePrimary expr select) e rest (parens (print_expr e 1) ++ rest).
Proof.
  intros He Hl. unfold parsePrimary, parse_parentheses, parens. cbn [app]. rewrite <- app_assoc.
  cbn [app]. do 10 tok_step. apply (wp_else _ _); [by apply not_starter|]. tok_step.
  eapply gives_use; [apply expr_gives; [done|unfold follows; cbn; lia|done]|]. by tok_steps.
Qed.

Lemma subquery_gives s rest :
  select_good s = true → (length (print_select s ++ kw TokenType.RPAREN :: rest) < d)%nat →
  gives (parsePrimary expr select) (Subquery s) rest (parens (print_select s) ++ rest).
Proof.
  intros Hs Hl. unfold parsePrimary, parse_parentheses, parens. cbn [app]. rewrite <- app_assoc.
  cbn [app]. do 10 tok_step. apply (wp_then _ _); [by destruct s|]. tok_step.
  eapply gives_use; [apply select_gives; [done|by left|done]|]. by tok_steps.
Qed.

Lemma primary_gives e rest :
  expr_good e = true → follows 10 rest → (length (print_expr e 10 ++ rest) < S d)%nat →
  gives (parsePrimary expr select) e rest (print_expr e 10 ++ rest).
Proof.
  intros He Hf Hl. destruct (decide (level e < 10)%nat) as [Hlt|Hge].
  - rewrite print_parens in * by done. apply parens_gives; [done|].
    unfold parens in Hl. cbn in Hl. rewrite !length_app in *. cbn in *. lia.
  - destruct e as [v| |t c|op a r|op e|n args ag|s]; try done.
    + by apply literal_gives.
    + by apply column_gives.
    + exfalso. cbn in Hge. destruct op; cbn in Hge; lia.
    + exfalso. cbn in Hge. destruct (null_op op); lia.
    + cbn in Hl |- *. apply subquery_gives; [done|]. unfold parens in Hl. cbn in Hl.
      rewrite !length_app in *. cbn in *. lia.
Qed.

Lemma primary_head e rest :
  expr_good e = true → at_any (map fst unary_ops) (print_expr e 10 ++ rest) = false.
Proof.
  intros He. destruct (decide (level e < 10)%nat) as [Hlt|Hge]; [by rewrite print_parens|].
  destruct e as [v| |t c|op a r|op e|n args ag|s]; try done.
  - cbn. unfold literal_tok. by destruct (vtype v).
  - cbn. by destruct (decide (t = "")).
  - exfalso. destruct op; cbn in Hge; lia.
  - exfalso. cbn in Hge. destruct (null_op op); lia.
Qed.

Lemma unary_leaf_gives e n rest :
  expr_good e = true → level e ≠ 9%nat → follows 9 rest →
  (length (print_expr e 9 ++ rest) < S d)%nat → (0 < n)%nat →
  gives (unary_loop expr select n) e rest (print_expr e 9 ++ rest).
Proof.
  intros He Hne Hf Hl Hn. destruct n as [|n]; [lia|]. cbn [unary_loop].
  rewrite print_next in * by done. apply (wp_else _ _); [by apply primary_head|].
  apply primary_gives; [done|exact (follows_le 9 10 rest Hf ltac:(lia))|done].
Qed.

Lemma level_unary e : level e = 9%nat → ∃ op a, e = UnaryExprNode op a ∧ null_op op = false.
Proof.
  destruct e as [v| |t c|op a r|op e|n args ag|s]; cbn; try done; [by destruct op|].
  destruct (null_op op) eqn:Hop; [done|]. eauto.
Qed.

Lemma unary_loop_gives e n rest :
  expr_good e = true → follows 9 rest → (length (print_expr e 9 ++ rest) < S d)%nat →
  (length (print_expr e 9 ++ rest) < n)%nat →
  gives (unary_loop expr select n) e rest (print_expr e 9 ++ rest).
Proof.
  revert n. induction e as [v| |t c|op a r IHa IHr|op e IH|n' args ag|s] using expr_ind;
    intros n He Hf Hl Hn;
    match type of He with expr_good ?e = true =>
      destruct (decide (level e = 9%nat)) as [H9|H9]; [|apply unary_leaf_gives; (done || lia)]
    end; destruct (level_unary _ H9) as (op' & a' & Heq & Hop); simplify_eq.
  destruct n as [|n]; [lia|]. cbn [unary_loop expr_ok] in *. apply andb_true_iff in He as [Hu He].
  rewrite print_bare in * by (rewrite H9; done). cbn [print_expr level] in *. rewrite Hop in *.
  cbn in Hl, Hn |- *. assert (find_op unary_ops (unary_token op') = Some op') as Hf'.
  { unfold unary_op in Hu. rewrite Hop, orb_false_r in Hu. by destruct op'. }
  apply (wp_then _ _); [by destruct op'|]. tok_step. eapply wp_operator; [exact Hf'|].
  tok_steps. eapply gives_use; [apply IH; [done|done|lia|lia]|]. by tok_steps.
Qed.

Lemma unary_gives e rest :
  expr_good e = true → follows 9 rest → (length (print_expr e 9 ++ rest) < S d)%nat →
  gives (parseUnary expr select) e rest (print_expr e 9 ++ rest).
Proof.
  intros He Hf Hl st Hs. unfold parseUnary. rewrite (sees_tokens_left _ _ Hs).
  exact (unary_loop_gives e _ rest He Hf Hl (Nat.lt_succ_diag_r _) st Hs).
Qed.

(** *** A level of operators *)

Section chain.
Context (k : nat) (test : SQLParser → bool) (f : list tok → bool) `{Test test f}.
Context (operand : P ASTNode) (opr : P Operator).

Definition gives_level (l : nat) (m : P ASTNode) : Prop := ∀ e rest,
  expr_good e = true → follows l rest → (length (print_expr e l ++ rest) < S d)%nat →
  gives m e rest (print_expr e l ++ rest).

Hypothesis operand_gives : gives_level (S k) operand.
(** The operators of the level. *)
Hypothesis op_gives : ∀ op ts rest, chain_info op = Some (k, ts) →
  f (map kw ts ++ rest) = true ∧ follows (S k) (map kw ts ++ rest) ∧
  wp opr (λ o us, o = op ∧ tail us = rest ∧ (length us ≤ length (map kw ts ++ rest))%nat) never
    (map kw ts ++ rest).
Hypothesis op_stops : ∀ rest, follows k rest → f rest = false.
(** No other expressions are of this level. *)
Hypothesis level_chain : ∀ e, level e = k → ∃ op a b ts,
  e = BinaryExprNode op a b ∧ chain_info op = Some (k, ts).

Lemma print_chain op a b l ts :
  chain_info op = Some (l, ts) →
  print_expr (BinaryExprNode op a (Some b)) l = print_expr a l ++ map kw ts ++ print_expr b (S l).
Proof. destruct op; cbn [chain_info]; intros [= <- <-]; reflexivity. Qed.

Lemma chain_cont e rest Q :
  expr_good e = true → follows (S k) rest → (length (print_expr e k ++ rest) < S d)%nat →
  wp (while_ test (binary_step opr operand) e) Q never rest →
  wp (left ← operand; while_ test (binary_step opr operand) left) Q never (print_expr e k ++ rest).
Proof.
  revert rest. induction e as [v| |t c|op a r IHa IHr|op e IH|n' args ag|s] using expr_ind;
    intros rest He Hf Hl Hw;
    (match type of He with expr_good ?e = true => destruct (decide (level e = k)) as [Hk|Hk] end;
     [destruct (level_chain _ Hk) as (op' & a' & b' & ts & Heq & Hop); try discriminate Heq
     |rewrite print_next in * by done; apply wp_bind; eapply gives_use; [by apply operand_gives|done]]).
  injection Heq as <- <- <-. destruct r as [b|]; [|done]. rewrite (print_chain _ _ _ _ _ Hop) in Hl |- *.
  cbn [expr_ok] in He. assert (chain_op op = true) as Hc by (by destruct op). rewrite Hc in He.
  apply andb_true_iff in He as [Ha Hb].
  rewrite <- !app_assoc in Hl |- *. destruct (op_gives op ts (print_expr b (S k) ++ rest) Hop) as (H1 & H2 & H3).
  apply IHa; [done|done|done|]. eapply wp_while_step; [tauto|apply _|exact H1|].
  unfold binary_step. apply wp_bind. eapply wp_mono; [exact H3| |done].
  intros o us (-> & Ht & Hlen). cbn beta. apply wp_bind, wp_next. rewrite Ht. apply wp_bind.
  rewrite !length_app in Hl. rewrite !length_app, length_map in Hlen. rewrite length_map in Hl.
  assert (ts ≠ []) as Hts by (destruct op; cbn in Hop; by simplify_eq).
  assert (0 < length ts)%nat by (destruct ts; [done|cbn; lia]).
  eapply gives_use; [apply operand_gives; [done|done|rewrite length_app; lia]|]. apply wp_ret.
  split; [|done]. rewrite !length_app, length_map. destruct (print_starts b (S k) Hb) as (? & ? & -> & _).
  cbn. lia.
Qed.

Lemma chain_gives :
  gives_level k (left ← operand; while_ test (binary_step opr operand) left).
Proof.
  intros e rest He Hf Hl. apply chain_cont; [done|by eapply follows_le; [exact Hf|lia]|done|].
  eapply wp_while_stop; [apply _|by apply op_stops|done].
Qed.
End chain.

Ltac level_ops :=
  let op := fresh "op" in
  intros op ts rest; destruct op; cbn [chain_info]; intros [= <-];
  (split_and!; [reflexivity|unfold follows; cbn; lia|eapply wp_operator; [reflexivity|done]]).
Ltac level_shape :=
  let e := fresh "e" in
  intros e; destruct e as [v| |t c|op a r|op a|n args ag|s]; cbn [level];
  [done|done|done|destruct op; intros [=]; by eauto 10|by destruct (null_op op)|done|done].

Lemma multiplicative_gives : gives_level 8 (parseMultiplicative expr select).
Proof.
  apply (chain_gives 8 _ (at_any (map fst multiplicative_ops))).
  - exact unary_gives.
  - level_ops.
  - intros rest Hf. by apply (follows_any 8).
  - level_shape.
Qed.

Lemma additive_gives : gives_level 7 (parseAdditive expr select).
Proof.
  apply (chain_gives 7 _ (at_any (map fst additive_ops))).
  - exact multiplicative_gives.
  - level_ops.
  - intros rest Hf. by apply (follows_any 7).
  - level_shape.
Qed.

Lemma relational_gives : gives_level 6 (parseRelational expr select).
Proof.
  apply (chain_gives 6 _ (at_any (map fst relational_ops ++ [TokenType.NOT]))).
  - exact additive_gives.
  - intros op ts rest. destruct op; cbn [chain_info]; intros [= <-]; (split_and!;
      [reflexivity|unfold follows; cbn; lia|unfold relational_operator; tok_step]);
      try (eapply wp_operator; [reflexivity|done]).
    tok_steps. split_and!; [done|done|cbn; lia].
  - intros rest Hf. by apply (follows_any 6).
  - level_shape.
Qed.

Lemma equality_chain_gives : gives_level 5 (binary_level equality_ops (parseRelational expr select)).
Proof.
  apply (chain_gives 5 _ (at_any (map fst equality_ops))).
  - exact relational_gives.
  - level_ops.
  - intros rest Hf. by apply (follows_any 5).
  - level_shape.
Qed.

(** *** IS NULL, IN *)

Definition is_stage (left : ASTNode) : P ASTNode :=
  If match_token TokenType.IS Then parse_is_null left Else mret left.
Definition in_stage (left : ASTNode) : P ASTNode :=
  If maybe_negated TokenType.IN Then parse_in select left Else mret left.

(** A test for NULL is complete: anything may follow it. *)
Lemma null_stage_gives e rest :
  expr_good e = true → (follows 4 rest ∨ null_test e) → (length (print_expr e 4 ++ rest) < S d)%nat →
  gives (left ← binary_level equality_ops (parseRelational expr select); is_stage left) e rest
    (print_expr e 4 ++ rest).
Proof.
  intros He Hf Hl. destruct (decide (level e = 4%nat)) as [H4|H4].
  - assert (∃ op a, e = UnaryExprNode op a ∧ null_op op = true) as (op & a & -> & Hop).
    { destruct e as [v| |t c|op a r|op a|n args ag|s]; cbn in H4; try done; [by destruct op|].
      destruct (null_op op) eqn:Hop; [eauto|done]. }
    assert (print_expr (UnaryExprNode op a) 4 = print_expr a 5 ++ null_tokens op) as Hp.
    { cbn. by rewrite Hop. }
    rewrite Hp in Hl |- *. rewrite <- app_assoc in Hl |- *. cbn in He.
    apply andb_true_iff in He as [_ He]. apply wp_bind. eapply gives_use.
    { apply equality_chain_gives; [done| |done]. destruct op; unfold follows; cbn; lia. }
    unfold is_stage, parse_is_null. destruct op; try done; cbn [null_tokens app]; by tok_steps.
  - destruct Hf as [Hf|Hn].
    + rewrite (print_next e 4) in Hl |- * by done. apply wp_bind. eapply gives_use.
      { apply equality_chain_gives; [done|exact (follows_le 4 5 rest Hf ltac:(lia))|done]. }
      apply (wp_else _ _); [by apply (follows_at 4)|]. by tok_steps.
    + destruct e as [v| |t c|op a r|op a|n args ag|s]; try done. cbn in Hn, H4. by rewrite Hn in H4.
Qed.

Lemma in_stage_gives e rest :
  expr_good e = true → follows 3 rest → (length (print_expr e 3 ++ rest) < S d)%nat →
  gives (left ← binary_level equality_ops (parseRelational expr select);
         left ← is_stage left; in_stage left) e rest (print_expr e 3 ++ rest).
Proof.
  intros He Hf Hl. apply wp_assoc, wp_bind. destruct (decide (level e = 3%nat)) as [H3|H3].
  - assert (∃ op a r, e = BinaryExprNode op a r ∧ chain_info op = None) as (op & a & r & -> & Hop).
    { destruct e as [v| |t c|op a r|op a|n args ag|s]; cbn in H3; try done; [|by destruct (null_op op)].
      destruct op; cbn in H3; try done; by eauto. }
    destruct r as [b|]; [|done].
    assert (print_expr (BinaryExprNode op a (Some b)) 3 =
      print_expr a 4 ++ in_tokens op ++
      match b with Subquery s => print_select s | _ => [] end ++ [kw TokenType.RPAREN]) as Hp.
    { cbn. by rewrite Hop. }
    rewrite Hp in Hl |- *. rewrite <- !app_assoc in Hl |- *. cbn [expr_ok] in He.
    assert (chain_op op = false) as Hc by (by destruct op). rewrite Hc in He.
    rewrite !andb_true_iff in He. destruct He as [[Hin Ha] Hb].
    eapply gives_use.
    { apply null_stage_gives; [done| |done]. unfold in_op in Hin. destruct op; try done.
      - left. unfold follows. cbn. lia.
      - right. cbn in Hin. by destruct a. }
    assert (gives (parse_in select a) (BinaryExprNode op a (Some b)) rest
      (in_tokens op ++ match b with Subquery s => print_select s | _ => [] end ++ [kw TokenType.RPAREN] ++ rest))
      as Hg; [|unfold in_stage; destruct op; try done; by apply (wp_then _ _)].
    unfold parse_in, parse_negation.
    assert (op = Operator.IN ∨ op = Operator.NOT_IN) as Hop' by (destruct op; try done; auto).
    rewrite !length_app in Hl.
    destruct Hop' as [->| ->], b as [v| |t c|op' a' r'|op' a'|n args ag|s]; try done; cbn [in_tokens app];
      tok_steps; try done.
    + apply (wp_then _ _); [by destruct s|]. tok_step.
      eapply gives_use; [apply select_gives; [done|by left|rewrite length_app; cbn in *; lia]|]. by tok_steps.
    + apply (wp_then _ _); [by destruct s|]. tok_step.
      eapply gives_use; [apply select_gives; [done|by left|rewrite length_app; cbn in *; lia]|]. by tok_steps.
  - rewrite (print_next e 3) in Hl |- * by done. eapply gives_use.
    { apply null_stage_gives; [done|left; exact (follows_le 3 4 rest Hf ltac:(lia))|done]. }
    unfold in_stage. apply (wp_else _ _); [|by tok_steps]. unfold at_two.
    by rewrite !(follows_at 3 _ rest Hf).
Qed.

Lemma equality_gives : gives_level 3 (parseEquality expr select).
Proof.
  intros e rest He Hf Hl.
  assert (wp ((left ← binary_level equality_ops (parseRelational expr select);
     left ← is_stage left; in_stage left) ≫= λ left,
     If maybe_negated TokenType.BETWEEN Then parse_between expr left Else mret left)
     (λ x us, x = e ∧ us = rest) never (print_expr e 3 ++ rest)) as Hw.
  { apply wp_bind. eapply gives_use; [by apply in_stage_gives|].
    apply (wp_else _ _); [|by tok_steps]. unfold at_two. by rewrite !(follows_at 3 _ rest Hf). }
  intros st Hs. specialize (Hw st Hs). unfold parseEquality, mbind, P_bind in *.
  destruct (binary_level _ _ st) as [x st1|]; [|done]. unfold is_stage in Hw.
  destruct (choose (match_token TokenType.IS) _ _ st1); [|done]. unfold in_stage in Hw.
  by destruct (choose (maybe_negated TokenType.IN) _ _ _).
Qed.

Lemma and_gives : gives_level 2 (parseLogicalAnd expr select).
Proof.
  apply (chain_gives 2 _ (at_any (map fst and_ops))).
  - exact equality_gives.
  - level_ops.
  - intros rest Hf. by apply (follows_any 2).
  - level_shape.
Qed.

Lemma or_gives : gives_level 1 (parseLogicalOr expr select).
Proof.
  apply (chain_gives 1 _ (at_any (map fst or_ops))).
  - exact and_gives.
  - level_ops.
  - intros rest Hf. by apply (follows_any 1).
  - level_shape.
Qed.

(** *** Lists *)

Lemma commas_gives {A} (n : nat) (item : P A) (pr : A → list tok) (ok : A → bool) l rest :
  list_ok ok l = true → at_ TokenType.COMMA rest = false →
  (length (commas (map pr l) ++ rest) < n)%nat →
  (∀ a us, ok a = true → (head_type us = TokenType.COMMA ∨ us = rest) →
     (length (pr a ++ us) < n)%nat → gives item a us (pr a ++ us)) →
  gives (comma_list item) l rest (commas (map pr l) ++ rest).
Proof.
  intros [Hne Hok]%andb_true_iff Hr Hl Hi. revert Hne Hok Hl.
  induction l as [|a l IH]; intros Hne Hok Hl; [done|]. cbn in Hok. apply andb_true_iff in Hok as [Ha Hok].
  destruct l as [|b l].
  - cbn [map commas] in *. eapply wp_comma_cons; [tauto|]. eapply gives_use; [apply Hi; auto|].
    rewrite Hr. split; [rewrite length_app; lia|done].
  - change (commas (map pr (a :: b :: l))) with
      (pr a ++ kw TokenType.COMMA :: commas (map pr (b :: l))) in *.
    rewrite <- app_assoc in Hl |- *. cbn [app] in Hl |- *. eapply wp_comma_cons; [tauto|].
    eapply gives_use; [apply Hi; auto|]. split; [rewrite length_app; lia|].
    change (at_ TokenType.COMMA (kw TokenType.COMMA :: commas (map pr (b :: l)) ++ rest)) with true.
    cbv iota. split; [done|]. cbn [tail]. rewrite length_app in Hl. cbn [length] in Hl.
    eapply gives_use; [apply IH; [done|done|lia]|done].
Qed.

Lemma names_give l rest :
  names_ok l = true → at_ TokenType.COMMA rest = false →
  gives parseIdentifierList l rest (print_names l ++ rest).
Proof.
  intros Hl Hr. unfold parseIdentifierList, print_names.
  eapply (commas_gives _ identifier _ name_ok); [done|done|apply Nat.lt_succ_diag_r|].
  intros x us _ _ _. cbn [app]. by tok_steps.
Qed.

Lemma columns_give l rest :
  names_ok l = true →
  gives (parenthesized parseIdentifierList) l rest (parens (print_names l) ++ rest).
Proof.
  intros Hl. unfold parenthesized, parens. cbn [app]. rewrite <- app_assoc. cbn [app]. do 3 tok_step.
  eapply gives_use; [by apply names_give|]. by tok_steps.
Qed.

(** *** The clauses of SELECT, in their order *)

Definition clause_rank (t : TokenType) : nat :=
  match t with
  | TokenType.JOIN | TokenType.INNER | TokenType.LEFT | TokenType.RIGHT | TokenType.FULL
  | TokenType.CROSS => 1
  | TokenType.WHERE => 2
  | TokenType.GROUP => 3
  | TokenType.HAVING => 4
  | TokenType.ORDER => 5
  | TokenType.LIMIT => 6
  | TokenType.UNION | TokenType.INTERSECT | TokenType.EXCEPT => 7
  | TokenType.RPAREN | TokenType.END_OF_FILE => 8
  | _ => 0
  end.

Definition beyond (i : nat) (ts : list tok) : Prop := (i < clause_rank (head_type ts))%nat.

Lemma beyond_at i t ts : beyond i ts → (clause_rank t <=? i)%nat = true → at_ t ts = false.
Proof.
  unfold beyond. intros Hb Ht. apply Nat.leb_le in Ht. apply bool_decide_eq_false. intros He.
  rewrite He in Hb. lia.
Qed.

Lemma beyond_any i l ts :
  beyond i ts → forallb (λ t, clause_rank t <=? i)%nat l = true → at_any l ts = false.
Proof.
  intros Hb. unfold at_any. induction l as [|t l IH]; cbn; [done|].
  intros [H1 H2]%andb_true_iff. by rewrite (beyond_at i t ts Hb H1), IH.
Qed.

Lemma beyond_follows i ts : beyond i ts → follows 1 ts.
Proof. unfold beyond, follows. destruct (head_type ts); cbn; lia. Qed.

Lemma beyond_le i j ts : beyond i ts → (j ≤ i)%nat → beyond j ts.
Proof. unfold beyond. lia. Qed.

Lemma clause_beyond {A} i t l (pr : A → list tok) o rest :
  (i <? clause_rank t)%nat = true → beyond i rest → beyond i (clause (kw t :: l) pr o ++ rest).
Proof. intros Ht%Nat.ltb_lt Hr. by destruct o. Qed.

Lemma limit_beyond i lim rest :
  (i <? 6)%nat = true → beyond i rest → beyond i (clause [] print_limit lim ++ rest).
Proof. intros Ht%Nat.ltb_lt Hr. by destruct lim. Qed.

Lemma closes_beyond rest : closes rest → beyond 7 rest.
Proof. unfold beyond. intros [->| ->]; cbn; lia. Qed.

Lemma set_beyond op operand rest :
  operand_ok literal_printable op operand = true → closes rest → beyond 6 (print_set op operand ++ rest).
Proof.
  intros Ho Hr%closes_beyond. unfold print_set.
  destruct op, operand; try done; try (unfold beyond; cbn; lia). by apply (beyond_le 7); [|lia].
Qed.

(** An optional clause. *)
Lemma optional_gives {A} i t l (m : P A) (pr : A → list tok) (o : option A) rest :
  (clause_rank t <=? i)%nat = true → beyond i rest →
  (∀ a, o = Some a → gives m a rest (kw t :: l ++ pr a ++ rest)) →
  gives (optional (match_token t) m) o rest (clause (kw t :: l) pr o ++ rest).
Proof.
  intros Ht Hr Hm. unfold optional. destruct o as [a|]; cbn [clause app].
  - apply (wp_then _ _); [by apply bool_decide_eq_true|]. apply wp_bind. rewrite <- app_assoc.
    eapply gives_use; [by apply Hm|]. by apply wp_ret.
  - apply (wp_else _ _); [by apply (beyond_at i)|]. by apply wp_ret.
Qed.

Lemma exprs_give l rest :
  list_ok (expr_ok literal_printable) l = true → at_ TokenType.COMMA rest = false → follows 1 rest →
  (length (print_exprs l ++ rest) < d)%nat →
  gives (comma_list expr) l rest (print_exprs l ++ rest).
Proof.
  intros Hl Hr Hf Hn. eapply commas_gives; [done|done|exact Hn|].
  intros a us Ha [Hu| ->] Hlen; apply expr_gives; auto. unfold follows. rewrite Hu. cbn. lia.
Qed.

Lemma alias_gives a rest :
  alias_ok a = true → at_ TokenType.AS rest = false → at_ TokenType.IDENTIFIER rest = false →
  gives parseAlias a rest (print_alias a ++ rest).
Proof.
  intros Ha H1 H2. unfold parseAlias, print_alias. destruct (decide (a = "")) as [->|]; cbn [app].
  - apply (wp_else _ _); [done|]. apply (wp_else _ _); [done|]. by apply wp_ret.
  - by tok_steps.
Qed.

Ltac lens :=
  repeat first
    [ progress cbn [length] in *
    | match goal with H : context [length (_ ++ _)] |- _ => rewrite length_app in H end
    | rewrite length_app ]; lia.

Ltac clause_lens :=
  unfold print_where, print_group, print_having, print_order_by in *; cbn [clause app] in *; lens.

(** After an item of a list: a comma, or a later clause. *)
Lemma item_end t us rest :
  (head_type us = TokenType.COMMA ∨ us = rest) → beyond 0 rest → t ≠ TokenType.COMMA →
  (clause_rank t =? 0)%nat = true → at_ t us = false.
Proof.
  intros [Hu| ->] Hb Ht Hr%Nat.eqb_eq.
  - apply bool_decide_eq_false. by rewrite Hu.
  - apply (beyond_at 0); [done|]. by rewrite Hr.
Qed.

Lemma table_gives tr us rest :
  table_ok literal_printable tr = true → (head_type us = TokenType.COMMA ∨ us = rest) →
  beyond 0 rest → (length (print_table tr ++ us) < d)%nat →
  gives (parse_table_ref select) tr us (print_table tr ++ us).
Proof.
  intros Ht Hu Hb Hl. destruct tr as [name alias [s|]]; unfold print_table, table_ok in *;
    cbn [subquery table_name table_alias] in *; apply andb_true_iff in Ht as [Ha Hs];
    rewrite <- app_assoc in Hl |- *; unfold parse_table_ref.
  - apply andb_true_iff in Hs as [Hn%bool_decide_eq_true Hs]. subst name.
    unfold parens in *. cbn [app] in *. rewrite <- app_assoc in Hl |- *. cbn [app] in Hl |- *.
    do 4 tok_step. eapply gives_use; [apply select_gives; [done|by left|lens]|]. do 3 tok_step.
    eapply gives_use; [apply alias_gives; [done|by eapply item_end..]|]. by tok_steps.
  - cbn [app] in *. do 4 tok_step.
    eapply gives_use; [apply alias_gives; [done|by eapply item_end..]|]. by tok_steps.
Qed.

Lemma from_gives tables rest :
  list_ok (table_ok literal_printable) tables = true → beyond 0 rest →
  (length (commas (map print_table tables) ++ rest) < d)%nat →
  gives (parse_from select) tables rest (kw TokenType.FROM :: commas (map print_table tables) ++ rest).
Proof.
  intros Ht Hb Hl. unfold parse_from. do 3 tok_step.
  eapply commas_gives; [exact Ht|by apply (beyond_at 0)|exact Hl|].
  intros a us Ha Hu Hlen. by eapply table_gives.
Qed.

Lemma join_type_gives jt rest :
  jt ≠ JoinType.NATURAL →
  gives parse_join_type jt (kw TokenType.JOIN :: rest) (join_tokens jt ++ rest).
Proof.
  intros Hn. unfold parse_join_type, parse_outer.
  destruct jt; try done; cbn [join_tokens app]; by tok_steps.
Qed.

Lemma join_gives j rest :
  join_ok literal_printable j = true → beyond 0 rest → (length (print_join j ++ rest) < d)%nat →
  gives (parseJoin expr) j rest (print_join j ++ rest).
Proof.
  destruct j as [jt name alias cond cols]. unfold join_ok, print_join.
  cbn [join_type join_table join_alias condition using_columns].
  rewrite !andb_true_iff. intros [[[[Hj Hn] Ha] Hc] He] Hb Hl.
  apply negb_true_iff, bool_decide_eq_false in Hj.
  rewrite <- app_assoc in Hl |- *. cbn [app] in Hl |- *. rewrite <- app_assoc in Hl |- *.
  unfold parseJoin. tok_step. eapply gives_use; [by apply join_type_gives|]. do 4 tok_step.
  destruct cond as [e|]; [|destruct cols as [|c cols]].
  - apply andb_true_iff in He as [->%bool_decide_eq_true He]. cbn [app] in Hl |- *. tok_step.
    eapply gives_use; [by apply alias_gives|]. do 4 tok_step.
    eapply gives_use; [apply expr_gives; [done|by eapply beyond_follows|lens]|]. by tok_steps.
  - cbn [app]. tok_step. eapply gives_use; [apply alias_gives; [done|by apply (beyond_at 0)..]|].
    apply (wp_else _ _); [by apply (beyond_at 0)|]. apply (wp_else _ _); [by apply (beyond_at 0)|]. by tok_steps.
  - cbn [app]. tok_step. eapply gives_use; [by apply alias_gives|]. do 5 tok_step.
    eapply gives_use; [by apply columns_give|]. by tok_steps.
Qed.

Lemma joins_beyond js rest : beyond 1 rest → beyond 0 (concat (map print_join js) ++ rest).
Proof.
  intros Hb. destruct js as [|[jt ? ? ? ?] js]; [by apply (beyond_le 1); [|lia]|].
  unfold beyond. cbn. destruct jt; cbn; lia.
Qed.

Lemma joins_give js rest :
  forallb (join_ok literal_printable) js = true → beyond 1 rest →
  (length (concat (map print_join js) ++ rest) < d)%nat →
  gives (parse_joins expr) js rest (concat (map print_join js) ++ rest).
Proof.
  intros Hj Hb Hl. unfold parse_joins.
  assert (∀ acc, gives (while_ (matchAny join_starts) (λ js, j ← parseJoin expr; mret (js ++ [j])) acc)
    (acc ++ js) rest (concat (map print_join js) ++ rest)) as Hw; [|exact (Hw [])].
  revert Hj Hl. induction js as [|j js IH]; intros Hj Hl acc.
  - rewrite app_nil_r. eapply wp_while_stop; [apply _|by apply (beyond_any 1)|done].
  - cbn [map concat forallb] in *. apply andb_true_iff in Hj as [Hj Hjs].
    rewrite <- app_assoc in Hl |- *. eapply wp_while_step; [tauto|apply _| |].
    + destruct j as [jt ? ? ? ?]. by destruct jt.
    + cbn beta. tok_step. eapply gives_use; [apply join_gives; [done|by apply joins_beyond|done]|].
      tok_step. split.
      * rewrite (length_app (print_join j)). assert (0 < length (print_join j))%nat; [|lia].
        unfold print_join, join_tokens. rewrite !length_app. cbn. lia.
      * eapply wp_mono; [apply IH; [done|lens]| |done]. intros x us [-> ->]. by rewrite <- app_assoc.
Qed.

Lemma order_item_gives i us rest :
  order_ok literal_printable i = true → (length (print_order i ++ us) < d)%nat →
  (head_type us = TokenType.COMMA ∨ us = rest) → 
  gives (parse_order_item expr) i us (print_order i ++ us).
Proof.
  intros Hi Hl _. destruct i as [e asc]. unfold print_order, order_ok in *. cbn [item_expr ascending] in *.
  rewrite <- app_assoc in Hl |- *. unfold parse_order_item. tok_step.
  eapply gives_use; [apply expr_gives; [done| |done]|].
  - unfold follows. destruct asc; cbn; lia.
  - destruct asc; cbn [app]; by tok_steps.
Qed.

Lemma count_gives z z0 rest :
  -1 ≤ z < 2 ^ 31 → (z < 0 → z0 = z ∧ at_ TokenType.INTEGER rest = false) →
  gives (parse_count z0) z rest (print_count z ++ rest).
Proof.
  intros Hz Hn. unfold parse_count, print_count. destruct (Z.ltb_spec z 0) as [H|H]; cbn [app].
  - destruct (Hn H) as [-> Hr]. apply (wp_else _ _); [done|]. by tok_steps.
  - do 3 tok_step. match goal with H : ttext _ = _ |- _ => rewrite H end. cbn [head_text snd].
    rewrite stoi_exn_to_string; [by apply wp_ret|]. unfold int_ok. apply andb_true_iff. lia.
Qed.

Lemma limit_gives lim rest :
  limit_ok lim = true → beyond 6 rest → gives parseLimit lim rest (print_limit lim ++ rest).
Proof.
  intros Hl Hb. destruct lim as [l o]. unfold limit_ok, print_limit in *. cbn [limit offset] in *.
  rewrite !andb_true_iff in Hl. destruct Hl as [[[H1 H2] H3] H4]. prop_bools.
  unfold parseLimit. cbn [app]. do 2 tok_step. destruct (Z.ltb_spec o 0) as [Ho|Ho]; cbn [app].
  - tok_step. apply (gives_use _ (-1) (kw TokenType.COMMA :: print_count l ++ rest)).
    { apply (count_gives (-1) (-1)); [lia|done]. }
    do 5 tok_step. eapply gives_use; [apply (count_gives l (-1)); [lia|]|].
    + intros Hl. split; [lia|]. by apply (beyond_at 6).
    + tok_step. split; [|done]. f_equal. lia.
  - rewrite <- app_assoc. cbn [app]. tok_step. eapply gives_use; [apply count_gives; [lia|]|].
    + intros Hl. split; [lia|done].
    + do 3 tok_step. tok_step. eapply gives_use; [apply count_gives; [lia|lia]|]. by tok_steps.
Qed.

Lemma limit_clause_gives lim rest :
  option_ok limit_ok lim = true → beyond 6 rest →
  gives (optional (match_token TokenType.LIMIT) parseLimit) lim rest (clause [] print_limit lim ++ rest).
Proof.
  intros Hl Hb. unfold optional. destruct lim as [l|]; cbn [clause app].
  - apply (wp_then _ _); [done|]. apply wp_bind. eapply gives_use; [by apply limit_gives|]. by tok_steps.
  - apply (wp_else _ _); [by apply (beyond_at 6)|]. by tok_steps.
Qed.

Definition set_head (t : TokenType) : SetOperation :=
  if decide (t = TokenType.UNION) then SetOperation.UNION
  else if decide (t = TokenType.INTERSECT) then SetOperation.INTERSECT
  else if decide (t = TokenType.EXCEPT) then SetOperation.EXCEPT
  else SetOperation.NONE.

Lemma wp_set_head {A} (f : SetOperation → P A) Q E ts :
  wp (f (set_head (head_type ts))) Q E ts → wp (λ st, f (set_operation_of st) st) Q E ts.
Proof.
  intros Hf st Hs. assert (set_operation_of st = set_head (head_type ts)) as ->; [|by apply Hf].
  unfold set_operation_of, match_token, set_head. rewrite (sees_type _ _ Hs).
  repeat (case_bool_decide; [by rewrite decide_True|rewrite decide_False by done]). done.
Qed.

Lemma set_gives op operand rest :
  operand_ok literal_printable op operand = true → closes rest →
  (length (print_set op operand ++ rest) < d)%nat →
  gives (parse_set_operation select) (op, operand) rest (print_set op operand ++ rest).
Proof.
  intros Ho Hr Hl. unfold parse_set_operation, print_set in *.
  destruct operand as [s|]; [|destruct op; try done; cbn [set_tokens clause app];
    apply (wp_else _ _); [apply (beyond_any 7); [by apply closes_beyond|done]|by tok_steps]].
  assert (op ≠ SetOperation.NONE) as Hne by (by intros ->).
  assert (select_good s = true) as Hs by (by destruct op).
  rewrite <- app_assoc in Hl |- *. cbn [clause app] in Hl |- *.
  assert (gives select s rest (print_select s ++ rest)) as Hsel.
  { apply select_gives; [done|done|]. lens. }
  apply (wp_then _ _); [by destruct op|].
  apply (wp_set_head (λ o, next_token ;; op ← parse_all o; s ← select; mret (op, Some s))).
  unfold parse_all. destruct op; try done; cbn [set_tokens app];
    do 3 tok_step; first [do 4 tok_step|apply (wp_else _ _); [by destruct s|tok_step]]; tok_step.
  all: eapply gives_use; [exact Hsel|]; by tok_steps.
Qed.

(** *** SELECT *)

Lemma group_gives l rest :
  list_ok (expr_ok literal_printable) l = true → beyond 3 rest → (length (print_exprs l ++ rest) < d)%nat →
  gives (parseGroupBy expr) l rest (kw TokenType.GROUP :: [kw TokenType.BY] ++ print_exprs l ++ rest).
Proof.
  intros Hl Hb Hn. unfold parseGroupBy. cbn [app]. do 4 tok_step.
  apply exprs_give; [done|by apply (beyond_at 3)|by eapply beyond_follows|done].
Qed.

Lemma order_gives l rest :
  list_ok (order_ok literal_printable) l = true → beyond 5 rest →
  (length (commas (map print_order l) ++ rest) < d)%nat →
  gives (parseOrderBy expr) l rest
    (kw TokenType.ORDER :: [kw TokenType.BY] ++ commas (map print_order l) ++ rest).
Proof.
  intros Hl Hb Hn. unfold parseOrderBy. cbn [app]. do 4 tok_step.
  eapply commas_gives; [exact Hl|by apply (beyond_at 5)|exact Hn|].
  intros i us Hi Hu Hlen. by eapply order_item_gives.
Qed.

Lemma where_gives e rest :
  expr_good e = true → beyond 2 rest → (length (print_expr e 1 ++ rest) < d)%nat →
  gives (parseWhere expr) e rest (kw TokenType.WHERE :: [] ++ print_expr e 1 ++ rest).
Proof.
  intros He Hb Hl. unfold parseWhere. cbn [app]. do 2 tok_step.
  apply expr_gives; [done|by eapply beyond_follows|done].
Qed.

Lemma having_gives e rest :
  expr_good e = true → beyond 4 rest → (length (print_expr e 1 ++ rest) < d)%nat →
  gives (parse_having expr) e rest (kw TokenType.HAVING :: [] ++ print_expr e 1 ++ rest).
Proof.
  intros He Hb Hl. unfold parse_having. cbn [app]. do 2 tok_step.
  apply expr_gives; [done|by eapply beyond_follows|done].
Qed.

Lemma select_item_gives e us rest :
  expr_good e = true → (head_type us = TokenType.COMMA ∨ us = kw TokenType.FROM :: rest) →
  (length (print_expr e 1 ++ us) < d)%nat →
  gives (parse_select_item expr) e us (print_expr e 1 ++ us).
Proof.
  intros He Hu Hl. unfold parse_select_item.
  assert (∀ t, (cont_level t =? 0)%nat = true → t ≠ TokenType.COMMA → t ≠ TokenType.FROM → at_ t us = false) as Hat.
  { intros t _ H1 H2. apply bool_decide_eq_false. destruct Hu as [->| ->]; [|cbn]; congruence. }
  apply (wp_else _ _); [by apply not_starter|]. tok_step. eapply gives_use.
  { apply expr_gives; [done| |done]. unfold follows. destruct Hu as [->| ->]; cbn; lia. }
  tok_step. apply (gives_use _ "" us); [|by tok_steps].
  apply (alias_gives ""); [done|by apply Hat..].
Qed.

Lemma select_list_gives l rest :
  list_ok (expr_ok literal_printable) l = true →
  (length (print_exprs l ++ kw TokenType.FROM :: rest) < d)%nat →
  gives (parseSelectList expr) l (kw TokenType.FROM :: rest) (print_exprs l ++ kw TokenType.FROM :: rest).
Proof.
  intros Hl Hn. eapply commas_gives; [exact Hl|done|exact Hn|].
  intros e us He Hu Hlen. by eapply select_item_gives.
Qed.

Lemma distinct_gives (b : bool) e rest :
  expr_good e = true →
  gives parse_distinct b (print_expr e 1 ++ rest)
    ((if b then [kw TokenType.DISTINCT] else []) ++ print_expr e 1 ++ rest).
Proof.
  intros He. unfold parse_distinct. destruct b; cbn [app]; [by tok_steps|].
  apply (wp_else _ _); [by apply not_starter|]. apply (wp_else _ _); [by apply not_starter|]. by tok_steps.
Qed.

Lemma print_exprs_head l rest :
  list_ok (expr_ok literal_printable) l = true →
  ∃ e us, expr_good e = true ∧ print_exprs l ++ rest = print_expr e 1 ++ us.
Proof.
  intros Hl. destruct l as [|e [|e' l]]; [done|..]; cbn in Hl; apply andb_true_iff in Hl as [He _].
  - by exists e, rest.
  - exists e. eexists. split; [done|]. unfold print_exprs.
    change (commas (map (λ e, print_expr e 1) (e :: e' :: l))) with
      (print_expr e 1 ++ kw TokenType.COMMA :: commas (map (λ e, print_expr e 1) (e' :: l))).
    by rewrite <- app_assoc.
Qed.

Lemma select_body_gives s rest :
  select_good s = true → closes rest → (length (print_select s ++ rest) < S d)%nat →
  gives (parseSelect_body expr select) s rest (print_select s ++ rest).
Proof.
  intros Hs Hr. destruct s as [dist items al tables joins w g h o lim op operand].
  apply select_ok_eq in Hs as (-> & Hi & Ht & Hj & Hw & Hg & Hh & Ho & Hlim & Hop).
  rewrite print_select_eq. rewrite <- !app_comm_cons, <- !app_assoc. rewrite <- !app_comm_cons, <- !app_assoc.
  intros Hl. cbn [length] in Hl.
  pose proof (set_beyond op operand rest Hop Hr) as B6.
  pose proof (limit_beyond 5 lim _ eq_refl (beyond_le _ 5 _ B6 ltac:(lia))) as B5.
  pose proof (clause_beyond 4 TokenType.ORDER [kw TokenType.BY] (λ l, commas (map print_order l)) o _
    eq_refl (beyond_le _ 4 _ B5 ltac:(lia))) as B4.
  pose proof (clause_beyond 3 TokenType.HAVING [] (λ e, print_expr e 1) h _
    eq_refl (beyond_le _ 3 _ B4 ltac:(lia))) as B3.
  pose proof (clause_beyond 2 TokenType.GROUP [kw TokenType.BY] print_exprs g _
    eq_refl (beyond_le _ 2 _ B3 ltac:(lia))) as B2.
  pose proof (clause_beyond 1 TokenType.WHERE [] (λ e, print_expr e 1) w _
    eq_refl (beyond_le _ 1 _ B2 ltac:(lia))) as B1.
  pose proof (joins_beyond joins _ B1) as B0.
  unfold parseSelect_body. do 2 tok_step. tok_step.
  destruct (print_exprs_head items (kw TokenType.FROM :: commas (map print_table tables) ++
    concat (map print_join joins) ++ print_where w ++ print_group g ++ print_having h ++
    print_order_by o ++ clause [] print_limit lim ++ print_set op operand ++ rest) Hi) as (e0 & us & He0 & Heq).
  cbn [app] in *. rewrite Heq. eapply gives_use; [by apply distinct_gives|]. rewrite <- Heq. clear Heq e0 us He0.
  tok_step. eapply gives_use; [apply select_list_gives; [done|lens]|].
  tok_step. eapply gives_use; [apply from_gives; [done|exact B0|lens]|].
  tok_step. eapply gives_use; [apply joins_give; [done|exact B1|lens]|].
  tok_step. eapply gives_use.
  { apply (optional_gives 2); [done|exact B2|]. intros a ->. apply where_gives; [done|exact B2|]. clause_lens. }
  tok_step. eapply gives_use.
  { apply (optional_gives 3); [done|exact B3|]. intros a ->. apply group_gives; [done|exact B3|]. clause_lens. }
  tok_step. eapply gives_use.
  { apply (optional_gives 4); [done|exact B4|]. intros a ->. apply having_gives; [done|exact B4|]. clause_lens. }
  tok_step. eapply gives_use.
  { apply (optional_gives 5); [done|exact B5|]. intros a ->. apply order_gives; [done|exact B5|]. clause_lens. }
  tok_step. eapply gives_use; [by apply limit_clause_gives|].
  tok_step. eapply gives_use; [apply set_gives; [done|done|lens]|]. cbn beta iota. by tok_steps.
Qed.

(** *** Statements *)

Lemma where_clause_gives w :
  option_ok (expr_ok literal_printable) w = true → (length (print_where w) < d)%nat →
  gives (optional (match_token TokenType.WHERE) (parseWhere expr)) w [] (print_where w).
Proof.
  intros Hw Hl. rewrite <- (app_nil_r (print_where w)).
  apply (optional_gives 2); [done|unfold beyond; cbn; lia|]. intros e ->.
  apply where_gives; [done|unfold beyond; cbn; lia|]. rewrite app_nil_r. clause_lens.
Qed.

Lemma rows_give n table columns :
  rows_ok literal_printable n = true → (length (print_rows n) < d)%nat →
  gives
    (If match_token TokenType.VALUES
     Then (next_token ;; vs ← parseValuesList expr; mret (mkInsertNode table columns vs None))
     Else If match_token TokenType.SELECT
     Then (s ← select; mret (mkInsertNode table columns [] (Some s)))
     Else error "Esperado VALUES ou SELECT após INSERT")
    (mkInsertNode table columns (insert_values n) (insert_select n)) [] (print_rows n).
Proof.
  destruct n as [t c vs [s|]]; unfold rows_ok, print_rows; cbn [insert_select insert_values]; intros Hr Hl.
  - apply andb_true_iff in Hr as [->%bool_decide_eq_true Hs]. apply (wp_else _ _); [by destruct s|].
    apply (wp_then _ _); [by destruct s|]. tok_step. rewrite <- (app_nil_r (print_select s)).
    eapply gives_use; [apply select_gives; [done|by right|by rewrite app_nil_r]|]. by tok_steps.
  - do 4 tok_step. rewrite <- (app_nil_r (commas _)).
    assert (gives (parseValuesList expr) vs [] (commas (map (λ r, parens (print_exprs r)) vs) ++ [])) as Hv.
    { eapply commas_gives; [exact Hr|done|apply Nat.lt_succ_diag_r|]. intros r us Hro Hu Hlen.
      unfold parenthesized, parseExpressionList, parens. cbn [app]. rewrite <- app_assoc. cbn [app].
      do 3 tok_step. eapply gives_use; [apply exprs_give; [done|done|unfold follows; cbn; lia|]|by tok_steps].
      rewrite app_nil_r in Hlen. unfold parens in *. lens. }
    eapply gives_use; [exact Hv|]. by tok_steps.
Qed.

Lemma insert_gives n :
  insert_ok literal_printable n = true → (length (print_statement (InsertStmt n)) < d)%nat →
  gives (parseInsert expr select) n [] (print_statement (InsertStmt n)).
Proof.
  unfold insert_ok. rewrite !andb_true_iff. intros [[Ht Hc] Hr] Hl. cbn [print_statement] in *.
  unfold parseInsert. do 7 tok_step.
  apply (gives_use _ (insert_columns n) (print_rows n)).
  - unfold print_columns. destruct (insert_columns n) as [|c cs] eqn:Hcs.
    + cbn [app]. apply (wp_else _ _); [|by tok_steps]. unfold print_rows. by destruct (insert_select n) as [[]|].
    + apply (wp_then _ _); [done|]. by apply columns_give.
  - destruct n as [t c vs s]. apply (rows_give (mkInsertNode t c vs s)); [done|]. cbn in *. lens.
Qed.

Lemma assignment_gives a us :
  assignment_ok literal_printable a = true → follows 1 us → (length (print_assignment a ++ us) < d)%nat →
  gives (parse_assignment expr) a us (print_assignment a ++ us).
Proof.
  destruct a as [c e]. unfold assignment_ok, print_assignment. cbn [assigned_column assigned_value app].
  intros [_ He]%andb_true_iff Hf Hl. unfold parse_assignment. do 5 tok_step.
  eapply gives_use; [apply expr_gives; [done|done|lens]|]. by tok_steps.
Qed.

Lemma update_gives n :
  update_ok literal_printable n = true → (length (print_statement (UpdateStmt n)) < d)%nat →
  gives (parseUpdate expr) n [] (print_statement (UpdateStmt n)).
Proof.
  destruct n as [t l w]. unfold update_ok. cbn [print_statement update_table assignments update_where].
  rewrite !andb_true_iff. intros [[Ht Ha] Hw] Hl. unfold parseUpdate. do 7 tok_step.
  assert (beyond 1 (print_where w)) as Hb by (unfold beyond; destruct w; cbn; lia).
  eapply gives_use.
  { eapply commas_gives; [exact Ha|by apply (beyond_at 1)|apply Nat.lt_succ_diag_r|].
    intros a us Hao Hu Hlen. apply assignment_gives; [done| |lens].
    destruct Hu as [Hu| ->]; [unfold follows; rewrite Hu; cbn; lia|by eapply beyond_follows]. }
  tok_step. eapply gives_use; [apply where_clause_gives; [done|lens]|]. by tok_steps.
Qed.

Lemma delete_gives n :
  delete_ok literal_printable n = true → (length (print_statement (DeleteStmt n)) < d)%nat →
  gives (parseDelete expr) n [] (print_statement (DeleteStmt n)).
Proof.
  destruct n as [t w]. unfold delete_ok. cbn [print_statement delete_table delete_where].
  intros [Ht Hw]%andb_true_iff Hl. unfold parseDelete. do 6 tok_step.
  tok_step. eapply gives_use; [apply where_clause_gives; [done|lens]|]. by tok_steps.
Qed.
End expressions.

(** ** CREATE, DROP and transactions *)

Definition element_end (us : list tok) : Prop :=
  head_type us = TokenType.COMMA ∨ head_type us = TokenType.RPAREN.

Lemma data_type_gives t r :
  existsb (λ e, bool_decide (e.1 = t)) column_types = true → at_ TokenType.LPAREN r = false →
  gives parseDataType t r (ident (type_name t) :: r).
Proof.
  intros Ht Hr. unfold parseDataType. apply (wp_then _ _); [done|].
  apply (wp_text (λ x, next_token ;; parse_type_name x)). do 2 tok_step.
  change (head_text (ident (type_name t) :: r)) with (type_name t).
  destruct t; cbn in Ht; try done;
    match goal with |- context [type_name ?t] =>
      let x := eval vm_compute in (type_name t) in change (type_name t) with x end;
    unfold parse_type_name;
    repeat match goal with
    | |- context [decide ?p] => rewrite (decide_True (P:=p)) by (first [done|by left|by right])
    | |- context [decide ?p] => rewrite (decide_False (P:=p)) by (first [discriminate|by intros [?|?]])
    end; tok_steps; try done.
  apply (wp_else _ _); [done|]. by tok_steps.
Qed.

Lemma column_stops us : element_end us →
  at_two TokenType.NOT TokenType.NULL us ||
    at_any [TokenType.NULL; TokenType.PRIMARY; TokenType.UNIQUE; TokenType.DEFAULT] us = false.
Proof. unfold at_two, at_any, at_. by intros [->| ->]. Qed.

Ltac column_step :=
  eapply wp_while_step; [tauto|apply _|reflexivity|];
  unfold parse_column_constraint; tok_steps; split; [cbn; lia|].

Lemma column_gives_def c us :
  column_ok c = true → element_end us →
  gives parse_column_def c us (print_column c ++ us).
Proof.
  intros Hc Hu. destruct c as [name type len nul pk un def chk]. unfold column_ok, print_column in *.
  cbn [column_name column_type column_length nullable primary_key unique default_value check_expr] in *.
  rewrite !andb_true_iff in Hc. destruct Hc as [[[[Hn Ht] Hl] Hd] He].
  apply Z.eqb_eq in Hl. destruct def; [done|]. apply bool_decide_eq_true in He. subst len chk.
  unfold parse_column_def. cbn [app]. do 3 tok_step.
  eapply gives_use; [apply data_type_gives; [done|]|].
  - unfold at_. destruct nul, pk, un; cbn; try done. by destruct Hu as [->| ->].
  - destruct nul, pk, un; cbn [app]; repeat column_step;
      (eapply wp_while_stop; [apply _|by apply column_stops|done]).
Qed.

Lemma constraint_gives c us :
  constraint_ok c = true → gives parse_table_constraint c us (print_constraint c ++ us).
Proof.
  intros Hc. destruct c as [ct cols rt rcols chk]. unfold constraint_ok, print_constraint in *.
  cbn [constraint_type constraint_columns ref_table ref_columns constraint_check] in *.
  unfold parse_table_constraint. destruct ct; rewrite ?andb_true_iff in Hc.
  - destruct Hc as [Hc (-> & -> & ->)%bool_decide_eq_true]. cbn [app]. tok_steps.
    eapply gives_use; [by apply columns_give|]. by tok_steps.
  - destruct Hc as [[[Hc Hrt] Hr] ->%bool_decide_eq_true]. cbn [app]. rewrite <- app_assoc. tok_steps.
    eapply gives_use; [by apply columns_give|]. cbn [app]. tok_steps.
    eapply gives_use; [by apply columns_give|]. by tok_steps.
  - destruct Hc as [Hc (-> & -> & ->)%bool_decide_eq_true]. cbn [app]. tok_steps.
    eapply gives_use; [by apply columns_give|]. by tok_steps.
  - apply bool_decide_eq_true in Hc as (-> & -> & -> & ->). cbn [app]. unfold parenthesized. by tok_steps.
Qed.

Definition print_element (x : ColumnDef + Constraint) : list tok :=
  match x with inl c => print_column c | inr c => print_constraint c end.

Lemma element_gives x us :
  element_ok x = true → element_end us → gives parse_table_element x us (print_element x ++ us).
Proof.
  intros Hx Hu. unfold parse_table_element. destruct x as [c|c]; cbn [print_element].
  - apply (wp_else _ _); [done|]. tok_step. eapply gives_use; [by apply column_gives_def|]. by tok_steps.
  - apply (wp_then _ _); [by destruct c as [[] ? ? ? ?]|]. tok_step.
    eapply gives_use; [by apply constraint_gives|]. by tok_steps.
Qed.

Lemma lefts_rights {A B} (l : list A) (r : list B) :
  lefts (map inl l ++ map inr r) = l ∧ rights (map inl l ++ map inr r) = r.
Proof.
  split.
  - induction l as [|a l IH]; cbn; [|by f_equal]. by induction r.
  - induction l as [|a l IH]; cbn; [|done]. induction r; cbn; [done|by f_equal].
Qed.

Lemma create_table_gives n :
  create_table_ok n = true →
  gives parseCreateTable n [] (tail (print_statement (CreateTableStmt n))).
Proof.
  destruct n as [name cols cs]. unfold create_table_ok.
  cbn [print_statement create_table_name create_columns constraints tail].
  rewrite !andb_true_iff. intros [[[Hn Hc] Hk] Hne]. unfold parseCreateTable. do 4 tok_step.
  assert (list_ok element_ok (map inl cols ++ map inr cs) = true) as Hok.
  { apply andb_true_iff. split; [by destruct cols, cs|]. rewrite forallb_app.
    apply andb_true_iff. split; apply forallb_Forall, Forall_map, forallb_Forall; done. }
  assert (map print_column cols ++ map print_constraint cs = map print_element (map inl cols ++ map inr cs)) as ->.
  { by rewrite map_app, !map_map. }
  unfold parenthesized, parens. do 4 tok_step. eapply gives_use.
  { eapply commas_gives; [exact Hok|done|apply Nat.lt_succ_diag_r|].
    intros x us Hx Hu _. apply element_gives; [done|]. destruct Hu as [Hu| ->]; [by left|by right]. }
  tok_steps. by destruct (lefts_rights cols cs) as [-> ->].
Qed.

Lemma create_index_gives n :
  create_index_ok n = true →
  gives parseCreateIndex n [] (tail (print_statement (CreateIndexStmt n))).
Proof.
  destruct n as [name table cols u]. unfold create_index_ok.
  cbn [print_statement index_name index_table index_columns index_unique tail].
  rewrite !andb_true_iff. intros [[Hn Ht] Hc]. unfold parseCreateIndex. rewrite <- (app_nil_r (parens _)).
  destruct u; cbn [app]; tok_steps; (eapply gives_use; [by apply columns_give|]); by tok_steps.
Qed.

Lemma savepoint_gives n :
  savepoint_ok n = true → gives parse_savepoint n [] (print_savepoint n).
Proof.
  destruct n as [x []]; unfold savepoint_ok, print_savepoint; cbn [is_savepoint savepoint_name]; intros Hn;
    unfold parse_savepoint; tok_steps; [done|]. by apply bool_decide_eq_true in Hn as ->.
Qed.

(** ** Whole statements *)

Section statements.
Context (d : nat) (expr : P ASTNode) (select : P SelectNode).
Hypothesis expr_gives : ∀ e rest,
  expr_good e = true → follows 1 rest → (length (print_expr e 1 ++ rest) < d)%nat →
  gives expr e rest (print_expr e 1 ++ rest).
Hypothesis select_gives : ∀ s rest,
  select_good s = true → closes rest → (length (print_select s ++ rest) < d)%nat →
  gives select s rest (print_select s ++ rest).

Lemma statement_gives s :
  statement_ok literal_printable s = true → (length (print_statement s) < d)%nat →
  gives (parseStatement expr select) s [] (print_statement s).
Proof.
  intros Hs Hl. apply wp_statement.
  destruct s as [n|n|n|n|n|n|n|n|n|n]; cbn [statement_ok] in Hs.
  - replace (head_type (print_statement (SelectStmt n))) with TokenType.SELECT by (by destruct n).
    cbn [statement_for print_statement] in *. tok_step. rewrite <- (app_nil_r (print_select n)).
    eapply gives_use; [apply select_gives; [done|by right|by rewrite app_nil_r]|]. by tok_steps.
  - change (head_type _) with TokenType.INSERT. cbn [statement_for]. tok_step.
    eapply gives_use; [by eapply insert_gives|]. by tok_steps.
  - change (head_type _) with TokenType.UPDATE. cbn [statement_for]. tok_step.
    eapply gives_use; [by eapply update_gives|]. by tok_steps.
  - change (head_type _) with TokenType.DELETE. cbn [statement_for]. tok_step.
    eapply gives_use; [by eapply delete_gives|]. by tok_steps.
  - change (head_type _) with TokenType.CREATE. cbn [statement_for]. unfold parse_create. do 4 tok_step.
    eapply gives_use; [by eapply (create_table_gives n)|]. by tok_steps.
  - change (head_type _) with TokenType.CREATE. cbn [statement_for]. unfold parse_create. do 5 tok_step.
    eapply gives_use; [by eapply (create_index_gives n)|]. by tok_steps.
  - change (head_type _) with TokenType.DROP. cbn [statement_for]. unfold parse_drop, parseDropTable.
    cbn [print_statement]. tok_steps. destruct n as [x []]; [|done].
    unfold drop_table_ok in Hs. cbn in Hs. by rewrite andb_false_r in Hs.
  - change (head_type _) with TokenType.BEGIN. cbn [statement_for print_statement].
    unfold parseBegin, skip_transaction. do 4 tok_step.
    apply (wp_else _ _); [unfold print_savepoint; by destruct (is_savepoint n)|]. do 1 tok_step.
    eapply gives_use; [by apply savepoint_gives|]. by tok_steps.
  - change (head_type _) with TokenType.COMMIT. cbn [statement_for print_statement].
    unfold parseCommit, skip_transaction. do 4 tok_step.
    apply (wp_else _ _); [unfold print_savepoint; by destruct (is_savepoint n)|]. do 1 tok_step.
    eapply gives_use; [by apply savepoint_gives|]. by tok_steps.
  - change (head_type _) with TokenType.ROLLBACK. cbn [statement_for print_statement].
    unfold parseRollback, skip_transaction. do 4 tok_step.
    apply (wp_else _ _); [unfold print_savepoint; by destruct (is_savepoint n)|]. do 2 tok_step.
    eapply gives_use; [by apply savepoint_gives|]. by tok_steps.
Qed.
End statements.

Lemma depth_gives n :
  (∀ e rest, expr_good e = true → follows 1 rest → (length (print_expr e 1 ++ rest) < n)%nat →
     gives (parseExpression n) e rest (print_expr e 1 ++ rest)) ∧
  (∀ s rest, select_good s = true → closes rest → (length (print_select s ++ rest) < n)%nat →
     gives (parseSelect n) s rest (print_select s ++ rest)).
Proof.
  induction n as [|n [IH1 IH2]]; [split; intros; lia|]. cbn [parseExpression parseSelect]. split.
  - intros e rest. by apply or_gives.
  - intros s rest. by apply select_body_gives.
Qed.

Lemma tokens_give s :
  statement_ok literal_printable s = true → gives parse_tokens s [] (print_statement s).
Proof.
  intros Hs st Hst. unfold parse_tokens. rewrite (sees_tokens_left _ _ Hst).
  destruct (depth_gives (S (length (print_statement s)))) as [H1 H2].
  assert (gives (s ← parseStatement (parseExpression (S (length (print_statement s))))
      (parseSelect (S (length (print_statement s))));
    If match_token TokenType.END_OF_FILE Then mret s
    Else error "Tokens não processados após o fim da instrução") s [] (print_statement s)) as Hw;
    [|by apply Hw].
  tok_step. eapply gives_use; [eapply statement_gives; [exact H1|exact H2|done|lia]|]. by tok_steps.
Qed.

(** ** The text *)

Record tok_printable (t : tok) : Prop := mk_tok_printable {
  printable_lexeme : lexeme_ok (lexeme_of t);
  printable_token : lexeme_token (lexeme_of t) = t;
  printable_upper : upper_lexeme (lexeme_of t) = lexeme_of t
}.

Lemma length_print_all ls : (length ls ≤ length (print_all ls))%nat.
Proof.
  induction ls as [|l ls IH]; [done|].
  change (print_all (l :: ls)) with ((print_lexeme l ++ [space]) ++ print_all ls).
  rewrite !length_app. cbn. lia.
Qed.

Lemma tokens_of_print ts : Forall tok_printable ts → tokens_of (print_tokens ts) = ts.
Proof.
  intros Hts. unfold tokens_of, tokens_from, print_tokens.
  assert (Forall lexeme_ok (map lexeme_of ts)) as Hok.
  { apply Forall_map. eapply Forall_impl; [exact Hts|]. by intros t [H _ _]. }
  assert (map upper_lexeme (map lexeme_of ts) = map lexeme_of ts) as Hup.
  { rewrite map_map. induction Hts as [|t ts [_ _ Ht] _ IH]; cbn; [done|].
    inversion Hok. by rewrite Ht, IH. }
  assert (rest (Lexer_new (print_all (map lexeme_of ts))) = print_all (map lexeme_of ts)) as Hr.
  { unfold rest. cbn [input lpos Lexer_new]. by rewrite drop_0, map_print_all, Hup. }
  pose proof (length_print_all (map lexeme_of ts)) as Hlen.
  destruct (token_stream_lexemes (map lexeme_of ts) (Lexer_new (print_all (map lexeme_of ts))) []
    (S (length (rest (Lexer_new (print_all (map lexeme_of ts))))))) as (us & lx & Hs & Hu);
    [done|constructor|done|rewrite Hr; lia|].
  rewrite Hs. assert (map lexeme_token (map lexeme_of ts) = ts) as Hl.
  { rewrite map_map. clear - Hts. induction Hts as [|t ts [_ Ht _] _ IH]; cbn; [done|]. by rewrite Ht, IH. }
  rewrite Hl in Hu. destruct us as [|u us] using rev_ind; [by destruct ts|]. clear IHus.
  rewrite removelast_last. rewrite map_app in Hu. apply app_inj_tail in Hu as [Hu _]. exact Hu.
Qed.
