(* ===== verification/ParserText.v ===== *)
(** * ParserText: queries as text

    The tokens of a printed statement are written and read back one by one, so parsing
    the text of any well-formed statement gives the statement.  The file also holds the
    theorems on rejected queries and on the bounds of numbers. *)

From stdpp Require Import list gmap strings.
From S2P Require Import Prelude CxxString Types Lexer LexerProofs AST Parser ParserLogic ParserShape ParserTypes ParserPrint ParserRoundtrip.

Open Scope Z_scope.

(** ** Tokens that can be written *)

Definition spelled (t : TokenType) : bool :=
  negb (carries_text t) && negb (bool_decide (spelling t = "")).

Definition lexeme_check (l : Lexeme) : bool :=
  match l with
  | Word c w => starts_word c && forallb is_word_char w
  | Number d w None => isdigit d && forallb isdigit w
  | Number d w (Some f) => isdigit d && forallb isdigit w && forallb isdigit f
  | Text _ => true
  | Op1 c => match find_one c with Some _ => true | None => false end
  | Op2 a b => match find_two a b with Some _ => true | None => false end
  end.

Lemma lexeme_check_ok l : lexeme_check l = true → lexeme_ok l.
Proof.
  destruct l as [c w|dg w [f|]|s|c|a b]; cbn [lexeme_check lexeme_ok]; rewrite ?andb_true_iff; unfold all_of;
    rewrite <- ?forallb_Forall; try tauto.
  - destruct (find_one c); [by eexists|done].
  - destruct (find_two a b); [by eexists|done].
Qed.

Lemma check_printable t :
  lexeme_check (lexeme_of t) = true → lexeme_token (lexeme_of t) = t →
  upper_lexeme (lexeme_of t) = lexeme_of t → tok_printable t.
Proof. intros H1 H2 H3. split; [by apply lexeme_check_ok|done|done]. Qed.

Lemma kw_printable t : spelled t = true → tok_printable (kw t).
Proof.
  destruct t; intros H; try (vm_compute in H; discriminate H);
    (apply check_printable; vm_compute; reflexivity).
Qed.

Lemma upper_map w : Forall (λ c, is_upper_char c = true) w → map toupper w = w.
Proof.
  induction 1 as [|c w Hc _ IH]; cbn; [done|]. apply bool_decide_eq_true in Hc. by rewrite Hc, IH.
Qed.

Lemma upper_text_map s :
  upper_text s = true → map toupper (String.list_ascii_of_string s) = String.list_ascii_of_string s.
Proof. intros H%forallb_Forall. by apply upper_map. Qed.

Lemma ident_printable x : name_ok x = true → tok_printable (ident x).
Proof.
  unfold name_ok. rewrite !andb_true_iff. intros [[Hw Hu] Hk%bool_decide_eq_true].
  apply upper_text_map in Hu.
  pose proof (String.string_of_list_ascii_of_string x) as Hx.
  destruct x as [|c w]; [done|]. cbn [String.list_ascii_of_string map] in *.
  apply andb_true_iff in Hw as [Hc Hw]. apply forallb_Forall in Hw. split.
  - done.
  - unfold lexeme_of, lexeme_token. cbn [ident fst snd String.list_ascii_of_string]. rewrite Hx, Hk. done.
  - unfold lexeme_of, upper_lexeme. cbn [ident fst snd String.list_ascii_of_string]. by injection Hu as -> ->.
Qed.

Lemma digits_all fuel n acc :
  0 ≤ n → Forall (λ c, isdigit c = true) (String.list_ascii_of_string acc) →
  Forall (λ c, isdigit c = true) (String.list_ascii_of_string (digits fuel n acc)).
Proof.
  revert n acc. induction fuel as [|fuel IH]; intros n acc Hn Ha; cbn [digits]; [done|].
  assert (Forall (λ c, isdigit c = true)
    (String.list_ascii_of_string (String (digit_char (n `mod` 10)) acc))) as Ha'.
  { cbn. constructor; [|done]. apply isdigit_digit_char. apply Z.mod_pos_bound. lia. }
  destruct (n <? 10); [done|]. apply IH; [apply Z.div_pos; lia|done].
Qed.

Lemma number_printable z : 0 ≤ z → tok_printable (TokenType.INTEGER, to_string z).
Proof.
  intros Hz. unfold to_string. rewrite (proj2 (Z.ltb_ge _ _)) by lia.
  pose proof (digits_all (digits_fuel z) z "" Hz (Forall_nil_2 _)) as Hd.
  pose proof (digits_head (digits_fuel z) z "") as Hh.
  set (x := digits (digits_fuel z) z "") in *.
  pose proof (String.string_of_list_ascii_of_string x) as Hx.
  assert (starts_with_digit x = true) as Hs by (apply Hh; unfold digits_fuel; auto with lia).
  destruct x as [|c w]; [done|]. cbn [String.list_ascii_of_string] in *. inversion Hd; subst. split.
  - done.
  - unfold lexeme_of, lexeme_token. cbn [fst snd String.list_ascii_of_string print_lexeme].
    by rewrite app_nil_r, Hx.
  - done.
Qed.

Lemma text_printable s : upper_text s = true → tok_printable (TokenType.STRING, s).
Proof.
  intros Hs. split.
  - done.
  - unfold lexeme_of, lexeme_token. cbn [fst snd]. by rewrite String.string_of_list_ascii_of_string.
  - unfold lexeme_of, upper_lexeme. cbn [fst snd]. f_equal. by apply upper_text_map.
Qed.

Lemma literal_tok_printable v : literal_printable v = true → tok_printable (literal_tok v).
Proof.
  intros Hv. unfold literal_printable in Hv. rewrite !orb_true_iff in Hv.
  destruct Hv as [[[[Hv|Hv]|Hv]|Hv]|Hv].
  - apply andb_true_iff in Hv as [Hv%bool_decide_eq_true Hz]. rewrite Hv. unfold literal_tok.
    cbn [vtype Value_int]. rewrite <- Hv. apply number_printable. unfold int_ok in Hz. prop_bools. lia.
  - apply andb_true_iff in Hv as [Hv%bool_decide_eq_true Hz]. rewrite Hv. by apply text_printable.
  - apply bool_decide_eq_true in Hv. subst v.
    apply check_printable; vm_compute; reflexivity.
  - apply bool_decide_eq_true in Hv. subst v.
    apply check_printable; vm_compute; reflexivity.
  - apply bool_decide_eq_true in Hv. subst v. by apply kw_printable.
Qed.

(** ** The tokens of a statement can be written *)

Abbreviation writable ts := (Forall tok_printable ts).

Lemma writable_commas l : Forall (λ x, writable x) l → writable (commas l).
Proof.
  induction 1 as [|x l Hx Hl IH]; [constructor|]. destruct l as [|y l]; [done|].
  change (commas (x :: y :: l)) with (x ++ kw TokenType.COMMA :: commas (y :: l)).
  apply Forall_app_2; [done|]. constructor; [by apply kw_printable|done].
Qed.

Lemma length_commas (x : list tok) l : x ∈ l → (length x ≤ length (commas l))%nat.
Proof.
  induction l as [|y l IH]; intros Hx; [set_solver|]. destruct l as [|z l].
  - apply list_elem_of_singleton in Hx. by subst x.
  - change (commas (y :: z :: l)) with (y ++ kw TokenType.COMMA :: commas (z :: l)).
    rewrite length_app. cbn [length]. apply elem_of_cons in Hx as [->|Hx]; [lia|]. specialize (IH Hx). lia.
Qed.

Lemma length_concat_in (x : list tok) l : x ∈ l → (length x ≤ length (concat l))%nat.
Proof.
  induction l as [|y l IH]; intros Hx; [set_solver|]. cbn. rewrite length_app.
  apply elem_of_cons in Hx as [->|Hx]; [lia|]. specialize (IH Hx). lia.
Qed.

Lemma writable_parens ts : writable ts → writable (parens ts).
Proof.
  intros Hts. constructor; [by apply kw_printable|]. apply Forall_app_2; [done|].
  constructor; [by apply kw_printable|constructor].
Qed.

Lemma writable_level e l : writable (print_expr e 1) → writable (print_expr e l).
Proof.
  intros He. destruct (decide (level e < l)%nat).
  - rewrite print_parens by done. by apply writable_parens.
  - by rewrite print_bare by lia.
Qed.

Lemma length_level e l : (length (print_expr e 1) ≤ length (print_expr e l))%nat.
Proof.
  destruct (decide (level e < l)%nat).
  - rewrite (print_parens e l) by done. unfold parens. cbn [length]. rewrite length_app. lia.
  - by rewrite (print_bare e l) by lia.
Qed.

Lemma writable_names l : forallb name_ok l = true → writable (print_names l).
Proof.
  intros Hl%forallb_Forall. apply writable_commas, Forall_map. eapply Forall_impl; [exact Hl|].
  intros x Hx. constructor; [by apply ident_printable|constructor].
Qed.

Lemma writable_alias a : alias_ok a = true → writable (print_alias a).
Proof.
  unfold alias_ok, print_alias. destruct (decide (a = "")) as [->|Hne]; [constructor|].
  rewrite bool_decide_false by done. intros Ha.
  constructor; [by apply kw_printable|]. constructor; [by apply ident_printable|constructor].
Qed.

Ltac write :=
  repeat first
    [ apply Forall_app_2
    | apply writable_parens
    | apply Forall_cons_2; [by apply kw_printable|]
    | apply Forall_cons_2; [by apply ident_printable|]
    | apply Forall_nil_2
    | done ].

Lemma writable_expr n e :
  (∀ s, select_good s = true → (length (print_select s) < n)%nat → writable (print_select s)) →
  expr_good e = true → (length (print_expr e 1) < S n)%nat → writable (print_expr e 1).
Proof.
  intros IHs. induction e as [v| |t c|op a r IHa IHr|op e IH|m args ag|s] using expr_ind; intros He Hl.
  - constructor; [by apply literal_tok_printable|constructor].
  - done.
  - cbn in He |- *. apply andb_true_iff in He as [Ht Hc]. unfold alias_ok in Ht.
    destruct (decide (t = "")) as [->|Hne]; [write|]. rewrite bool_decide_false in Ht by done. write.
  - destruct r as [b|]; [|done]. destruct (chain_info op) as [[k ts]|] eqn:Hop.
    + assert (chain_op op = true) as Hc by (by destruct op).
      assert (k ≤ level (BinaryExprNode op a (Some b)))%nat as Hk by (cbn; by rewrite Hop).
      rewrite <- (print_bare _ k Hk) in Hl |- *. rewrite (print_chain _ _ _ _ _ Hop) in Hl |- *.
      cbn [expr_ok] in He. rewrite Hc in He. apply andb_true_iff in He as [Ha Hb].
      pose proof (length_level a k). pose proof (length_level b (S k)). rewrite !length_app in Hl.
      apply Forall_app_2; [apply writable_level, IHa; [done|lia]|].
      apply Forall_app_2; [|apply writable_level, IHr; [done|done|lia]].
      by destruct op; cbn in Hop; simplify_eq; cbn; write.
    + assert (print_expr (BinaryExprNode op a (Some b)) 1 =
        print_expr a 4 ++ in_tokens op ++
        match b with Subquery s => print_select s | _ => [] end ++ [kw TokenType.RPAREN]) as Hp.
      { cbn. by rewrite Hop. }
      rewrite Hp in Hl |- *. cbn [expr_ok] in He.
      assert (chain_op op = false) as Hc by (by destruct op). rewrite Hc in He.
      rewrite !andb_true_iff in He. destruct He as [[_ Ha] Hb].
      pose proof (length_level a 4). rewrite !length_app in Hl. cbn [length] in Hl.
      apply Forall_app_2; [apply writable_level, IHa; [done|lia]|].
      apply Forall_app_2; [by destruct op; cbn; write|]. apply Forall_app_2; [|write].
      destruct b; try done. apply IHs; [done|lia].
  - cbn in He. apply andb_true_iff in He as [_ He]. destruct (null_op op) eqn:Hop.
    + assert (print_expr (UnaryExprNode op e) 1 = print_expr e 5 ++ null_tokens op) as Hp.
      { cbn. by rewrite Hop. }
      rewrite Hp in Hl |- *. pose proof (length_level e 5). rewrite length_app in Hl.
      apply Forall_app_2; [apply writable_level, IH; [done|lia]|]. by destruct op; cbn; write.
    + assert (print_expr (UnaryExprNode op e) 1 = kw (unary_token op) :: print_expr e 9) as Hp.
      { cbn. by rewrite Hop. }
      rewrite Hp in Hl |- *. pose proof (length_level e 9). cbn [length] in Hl.
      constructor; [by destruct op; apply kw_printable|]. apply writable_level, IH; [done|lia].
  - done.
  - cbn in He, Hl |- *. rewrite length_app in Hl. cbn in Hl. apply writable_parens, IHs; [done|lia].
Qed.

Section select.
Context (n : nat).
Hypothesis expr_writable : ∀ e l,
  expr_good e = true → (length (print_expr e l) < n)%nat → writable (print_expr e l).
Hypothesis select_writable : ∀ s,
  select_good s = true → (length (print_select s) < n)%nat → writable (print_select s).

Lemma writable_list {A} (ok : A → bool) (pr : A → list tok) l :
  (∀ a, ok a = true → (length (pr a) < n)%nat → writable (pr a)) →
  forallb ok l = true → (length (commas (map pr l)) < n)%nat → writable (commas (map pr l)).
Proof.
  intros Hpr Hl%forallb_Forall Hn. apply writable_commas, Forall_map, Forall_forall. intros a Ha.
  rewrite Forall_forall in Hl. apply Hpr; [by apply Hl|].
  assert (pr a ∈ map pr l) as Hin by (apply list_elem_of_fmap; eauto).
  apply length_commas in Hin. lia.
Qed.

Lemma writable_exprs l :
  list_ok (expr_ok literal_printable) l = true → (length (print_exprs l) < n)%nat → writable (print_exprs l).
Proof. intros [_ Hl]%andb_true_iff Hn. eapply writable_list; [|done|done]. auto. Qed.

Lemma writable_table t :
  table_ok literal_printable t = true → (length (print_table t) < n)%nat → writable (print_table t).
Proof.
  destruct t as [name alias [s|]]; unfold table_ok, print_table; cbn [table_alias subquery table_name];
    rewrite !andb_true_iff; intros [Ha Hs] Hl; (apply Forall_app_2; [|by apply writable_alias]).
  - destruct Hs as [_ Hs]. apply writable_parens, select_writable; [done|].
    unfold parens in Hl. rewrite length_app in Hl. cbn [length] in Hl. rewrite length_app in Hl. lia.
  - write.
Qed.

Lemma writable_join j :
  join_ok literal_printable j = true → (length (print_join j) < n)%nat → writable (print_join j).
Proof.
  destruct j as [jt name alias cond cols]. unfold join_ok, print_join.
  cbn [join_type join_table join_alias condition using_columns]. rewrite !andb_true_iff.
  intros [[[[Hj Hn] Ha] Hc] He] Hl. rewrite !length_app in Hl. cbn [length] in Hl. rewrite length_app in Hl.
  apply Forall_app_2; [unfold join_tokens; destruct jt; write|].
  constructor; [by apply ident_printable|]. apply Forall_app_2; [by apply writable_alias|].
  destruct cond as [e|]; [|destruct cols as [|c cols]; [constructor|]].
  - apply andb_true_iff in He as [_ He]. constructor; [by apply kw_printable|]. cbn [length] in Hl.
    apply expr_writable; [done|lia].
  - constructor; [by apply kw_printable|]. apply writable_parens. by apply writable_names.
Qed.

Lemma writable_joins js :
  forallb (join_ok literal_printable) js = true → (length (concat (map print_join js)) < n)%nat →
  writable (concat (map print_join js)).
Proof.
  induction js as [|j js IH]; cbn; [constructor|]. rewrite length_app.
  intros [Hj Hjs]%andb_true_iff Hl. apply Forall_app_2; [apply writable_join; [done|lia]|apply IH; [done|lia]].
Qed.

Lemma writable_clause {A} ts (pr : A → list tok) (ok : A → bool) o :
  (∀ a, ok a = true → (length (pr a) < n)%nat → writable (pr a)) → writable ts →
  option_ok ok o = true → (length (clause ts pr o) < n)%nat → writable (clause ts pr o).
Proof.
  intros Hpr Hts Ho Hl. destruct o as [a|]; [|constructor]. cbn [clause] in *. rewrite length_app in Hl.
  apply Forall_app_2; [done|]. apply Hpr; [done|lia].
Qed.

Lemma writable_where w :
  option_ok (expr_ok literal_printable) w = true → (length (print_where w) < n)%nat → writable (print_where w).
Proof. intros Hw Hl. eapply writable_clause; [|write|done|done]. auto. Qed.

Lemma writable_order i :
  order_ok literal_printable i = true → (length (print_order i) < n)%nat → writable (print_order i).
Proof.
  intros Hi Hl. unfold print_order in *. rewrite length_app in Hl.
  apply Forall_app_2; [apply expr_writable; [done|lia]|]. destruct (ascending i); write.
Qed.

Lemma writable_count z : writable (print_count z).
Proof.
  unfold print_count. destruct (Z.ltb_spec z 0); [constructor|].
  constructor; [by apply number_printable|constructor].
Qed.

Lemma writable_limit l : writable (print_limit l).
Proof.
  unfold print_limit. constructor; [by apply kw_printable|]. destruct (_ <? 0).
  - constructor; [by apply kw_printable|apply writable_count].
  - apply Forall_app_2; [apply writable_count|]. constructor; [by apply kw_printable|apply writable_count].
Qed.

Lemma writable_select s :
  select_good s = true → (length (print_select s) < S n)%nat → writable (print_select s).
Proof.
  destruct s as [dist items al tables joins w g h o lim op operand]. intros Hs.
  apply select_ok_eq in Hs as (_ & Hi & Ht & Hj & Hw & Hg & Hh & Ho & Hlim & Hop).
  rewrite print_select_eq. cbn [length]. rewrite !length_app. cbn [length]. rewrite !length_app. intros Hl.
  constructor; [by apply kw_printable|]. apply Forall_app_2; [destruct dist; write|].
  apply Forall_app_2; [apply writable_exprs; [done|lia]|]. constructor; [by apply kw_printable|].
  apply andb_true_iff in Ht as [_ Ht].
  apply Forall_app_2; [eapply writable_list; [apply writable_table|done|lia]|].
  apply Forall_app_2; [apply writable_joins; [done|lia]|].
  apply Forall_app_2; [apply writable_where; [done|lia]|].
  apply Forall_app_2; [eapply writable_clause; [apply writable_exprs|write|exact Hg|unfold print_group in *; lia]|].
  apply Forall_app_2; [eapply writable_clause; [|write|exact Hh|unfold print_having in *; lia]; auto|].
  apply Forall_app_2.
  { eapply writable_clause; [|write|exact Ho|unfold print_order_by in *; lia]. intros l [_ Hol]%andb_true_iff Hll.
    eapply writable_list; [apply writable_order|done|done]. }
  apply Forall_app_2; [destruct lim; [apply writable_limit|constructor]|].
  unfold print_set in *. rewrite length_app in Hl. apply Forall_app_2; [destruct op; write|].
  destruct operand as [s|]; [|constructor]. cbn in *. apply select_writable; [by destruct op|lia].
Qed.
End select.

Lemma writable_depth n :
  (∀ e l, expr_good e = true → (length (print_expr e l) < n)%nat → writable (print_expr e l)) ∧
  (∀ s, select_good s = true → (length (print_select s) < n)%nat → writable (print_select s)).
Proof.
  induction n as [|n [IH1 IH2]]; [split; intros; lia|]. split.
  - intros e l He Hl. apply writable_level, (writable_expr n); [done|done|].
    pose proof (length_level e l). lia.
  - intros s Hs Hl. by apply (writable_select n).
Qed.

Lemma expr_writable e l : expr_good e = true → writable (print_expr e l).
Proof. intros He. eapply writable_depth; [done|apply Nat.lt_succ_diag_r]. Qed.

Lemma select_writable s : select_good s = true → writable (print_select s).
Proof. intros Hs. eapply writable_depth; [done|apply Nat.lt_succ_diag_r]. Qed.

Lemma writable_column c : column_ok c = true → writable (print_column c).
Proof.
  unfold column_ok, print_column. rewrite !andb_true_iff. intros [[[[Hn Ht] _] _] _].
  constructor; [by apply ident_printable|]. constructor.
  - apply ident_printable. destruct (column_type c); cbn in Ht; try done; by vm_compute.
  - destruct (nullable c), (primary_key c), (unique c); write.
Qed.

Lemma writable_constraint c : constraint_ok c = true → writable (print_constraint c).
Proof.
  unfold constraint_ok, print_constraint, names_ok. destruct (constraint_type c);
    rewrite ?andb_true_iff; intros Hc; write; try (apply writable_names; tauto).
  constructor; [apply ident_printable; tauto|]. apply writable_parens, writable_names. tauto.
Qed.

Lemma writable_statement s : statement_ok literal_printable s = true → writable (print_statement s).
Proof.
  destruct s as [n|n|n|n|n|n|n|n|n|n]; cbn [statement_ok print_statement].
  - apply select_writable.
  - unfold insert_ok. rewrite !andb_true_iff. intros [[Ht Hc] Hr]. write.
    + unfold print_columns. destruct (insert_columns n); [constructor|]. by apply writable_parens, writable_names.
    + unfold print_rows, rows_ok in *. destruct (insert_select n) as [s|].
      * apply andb_true_iff in Hr as [_ Hr]. by apply select_writable.
      * constructor; [by apply kw_printable|]. apply andb_true_iff in Hr as [_ Hr].
        eapply writable_list; [|exact Hr|apply Nat.lt_succ_diag_r]. intros r Hro _. apply writable_parens.
        eapply writable_exprs; [|done|apply Nat.lt_succ_diag_r]. intros. by apply expr_writable.
  - unfold update_ok. rewrite !andb_true_iff. intros [[Ht Ha] Hw]. write.
    + apply andb_true_iff in Ha as [_ Ha]. eapply writable_list; [|exact Ha|apply Nat.lt_succ_diag_r].
      intros a [Hc He]%andb_true_iff _. unfold print_assignment. write. by apply expr_writable.
    + eapply writable_where; [|done|apply Nat.lt_succ_diag_r]. intros. by apply expr_writable.
  - unfold delete_ok. rewrite !andb_true_iff. intros [Ht Hw]. write.
    eapply writable_where; [|done|apply Nat.lt_succ_diag_r]. intros. by apply expr_writable.
  - unfold create_table_ok. rewrite !andb_true_iff. intros [[[Hn Hc] Hk] _]. write.
    apply writable_commas, Forall_app_2; apply Forall_map.
    + eapply Forall_impl; [by apply forallb_Forall|]. intros c. apply writable_column.
    + eapply Forall_impl; [by apply forallb_Forall|]. intros c. apply writable_constraint.
  - unfold create_index_ok, names_ok. rewrite !andb_true_iff. intros [[Hn Ht] [_ Hc]]. write.
    + destruct (index_unique n); write.
    + write. by apply writable_names.
  - unfold drop_table_ok. intros [Hn _]%andb_true_iff. write.
  - unfold savepoint_ok, print_savepoint. destruct (is_savepoint n); intros Hn; write.
  - unfold savepoint_ok, print_savepoint. destruct (is_savepoint n); intros Hn; write.
  - unfold savepoint_ok, print_savepoint. destruct (is_savepoint n); intros Hn; write.
Qed.

(** ** Theorems *)

Lemma print_gives s st :
  statement_ok literal_printable s = true →
  ∃ st', parse (print_tokens (print_statement s)) st = Returns s st'.
Proof.
  intros Hs. rewrite parse_start. pose proof (tokens_give s Hs) as Hw.
  specialize (Hw (start (print_tokens (print_statement s)) st)).
  rewrite <- (tokens_of_print _ (writable_statement s Hs)) in Hw at 1.
  specialize (Hw (start_sees _ st)). destruct (parse_tokens _) as [a st'|]; [|done].
  destruct Hw as (us & _ & -> & _). by eexists.
Qed.

(** (C3) Parsing inverts printing: the text of a well-formed statement of any kind, with
    parentheses only where the precedence and the left associativity of the operators
    ask for them, is parsed to this very statement, from any state of the parser. *)
Theorem parse_print_roundtrip s st :
  statement_ok literal_printable s = true →
  ∃ st', parse (print_tokens (print_statement s)) st = Returns s st'.
Proof. apply print_gives. Qed.

Lemma printable_not_float t : tok_printable t → t.1 ≠ TokenType.FLOAT.
Proof.
  intros [_ Ht _] Hf. destruct t as [ty x]. cbn in Hf. subst ty.
  assert ((lexeme_token (lexeme_of (TokenType.FLOAT, x))).1 = TokenType.FLOAT) as Hx by (by rewrite Ht).
  assert (∀ c w, (lexeme_token (Word c w)).1 ≠ TokenType.FLOAT) as Hword.
  { intros c w. unfold lexeme_token. cbn [fst]. destruct (keywords !! _) as [k|] eqn:Hk; [|done].
    intros Heq. cbn in Heq. subst k. by apply keyword_plain in Hk. }
  revert Hx. unfold lexeme_of. cbn [fst snd].
  destruct (String.list_ascii_of_string x) as [|a [|b [|c l]]].
  - done.
  - intros Hx. pose proof (find_one_plain a) as Hp. unfold lexeme_token in Hx. cbn [fst] in Hx. by rewrite Hx in Hp.
  - destruct (starts_word a); [by intros ?%Hword|]. intros Hx.
    pose proof (find_two_plain a b) as Hp. unfold lexeme_token in Hx. cbn [fst] in Hx. by rewrite Hx in Hp.
  - by intros ?%Hword.
Qed.

(** The language of the parser: the statements it returns for queries without
    decimal literals are exactly the well-formed ones. *)
Theorem parse_image s st :
  statement_ok literal_printable s = true ↔
  ∃ query st', Forall (λ t, t.1 ≠ TokenType.FLOAT) (tokens_of query) ∧
    parse query st = Returns s st'.
Proof.
  split.
  - intros Hs. destruct (print_gives s st Hs) as (st' & Hp). do 2 eexists. split; [|exact Hp].
    pose proof (writable_statement s Hs) as Hw. rewrite (tokens_of_print _ Hw).
    eapply Forall_impl; [exact Hw|]. apply printable_not_float.
  - intros (query & st' & Hf & Hp). rewrite parse_start in Hp.
    assert (wp parse_tokens (λ s us, statement_ok literal_printable s = true ∧ head_type us = TokenType.END_OF_FILE)
      (λ _, True) (tokens_of query)) as Hw.
    { apply tokens_parse; [by intros []|done..|]. split; [by left|].
      apply tokens_of_ok; [apply printable_int|apply printable_string|].
      eapply Forall_impl; [exact Hf|]. by left. }
    specialize (Hw _ (start_sees query st)). rewrite Hp in Hw. by destruct Hw as (us & _ & Hok & _).
Qed.

(** The bounds of numeric literals: an INTEGER token is the value of its digits
    when this is below 2^31, and otherwise [std::out_of_range] leaves the parser; a FLOAT token
    becomes an integer in [0, 2^63), unless the conversion throws or is undefined. *)
Theorem number_literal_bounds expr select ty x ts st :
  sees ((ty, x) :: ts) st → starts_with_digit x = true →
  match ty with
  | TokenType.INTEGER =>
      if decide (scan_digits x 0 < 2 ^ 31)
      then ∃ st', parsePrimary expr select st = Returns (LiteralNode (Value_int (scan_digits x 0))) st' ∧ sees ts st'
      else ∃ st', parsePrimary expr select st = Stops (Throws (out_of_range "stoi")) st'
  | TokenType.FLOAT =>
      match parsePrimary expr select st with
      | Returns e st' => ∃ z, e = LiteralNode (Value_bigint z) ∧ 0 ≤ z < 2 ^ 63 ∧ sees ts st'
      | Stops (Throws (out_of_range w)) _ => w = "stod"
      | Stops (Throws (invalid_argument w)) _ => w = "stod"
      | Stops Undefined _ => ∃ f, stod_exn x = inr f ∧ cast_int64 f = None
      | _ => False
      end
  | _ => True
  end.
Proof.
  intros Hs Hx. pose proof (sees_type _ _ Hs) as Hty. cbn in Hty.
  pose proof (sees_text _ _ Hs) as Htx. cbn in Htx. pose proof (sees_next _ _ Hs) as Hn. cbn in Hn.
  unfold parsePrimary, choose, match_token. destruct ty; try done; rewrite Hty.
  - rewrite bool_decide_true by done. unfold parse_integer_literal, current_text, parse_literal.
    rewrite Htx, (stoi_digits x Hx). destruct (decide _); [|by eexists].
    unfold mbind, P_bind. cbn [try_exn]. unfold mret, P_ret. rewrite next_token_step. by eexists.
  - rewrite bool_decide_false by done. rewrite bool_decide_true by done.
    unfold parse_float_literal, current_text, parse_literal. rewrite Htx.
    destruct (stod_exn x) as [e|f] eqn:He.
    + unfold throw, stop. unfold stod_exn in He. destruct (scan_decimal _) as [[m k]|]; [|by simplify_eq].
      destruct (range_error _ _ _); by simplify_eq.
    + destruct (cast_int64 f) as [z|] eqn:Hz; [|by eexists].
      unfold mbind, P_bind. cbn [try_exn]. unfold mret, P_ret. rewrite next_token_step.
      exists z. split; [done|]. split; [by eapply float_literal_range|done].
Qed.

(** [UPDATE T SET A = A - (B - 1) WHERE (A OR NOT B IS NULL) AND S LIKE 'X%'] *)
Definition statement0 : Statement :=
  let col x := ColumnRefNode "" x in
  UpdateStmt (mkUpdateNode "T"
    [mkAssignment "A" (BinaryExprNode Operator.MINUS (col "A")
       (Some (BinaryExprNode Operator.MINUS (col "B") (Some (LiteralNode (Value_int 1))))))]
    (Some (BinaryExprNode Operator.AND
       (BinaryExprNode Operator.OR (col "A")
          (Some (UnaryExprNode Operator.IS_NULL (UnaryExprNode Operator.NOT (col "B")))))
       (Some (BinaryExprNode Operator.LIKE (ColumnRefNode "T" "S")
          (Some (LiteralNode (Value_string "X%")))))))).

Lemma parse_print_roundtrip_witness :
  statement_ok literal_printable statement0 = true ∧
  ∃ st', parse (print_tokens (print_statement statement0)) SQLParser_new = Returns statement0 st'.
Proof.
  assert (statement_ok literal_printable statement0 = true) as H by (vm_compute; reflexivity).
  split; [exact H|]. exact (parse_print_roundtrip statement0 SQLParser_new H).
Defined.

Lemma number_literal_bounds_witness :
  let st := start (String.list_ascii_of_string "2147483648") SQLParser_new in
  ∃ st', parsePrimary (stop Undefined) (stop Undefined) st = Stops (Throws (out_of_range "stoi")) st'.
Proof.
  intros st.
  pose proof (number_literal_bounds (stop Undefined) (stop Undefined) TokenType.INTEGER "2147483648" [] st) as H.
  assert (tokens_of (String.list_ascii_of_string "2147483648") = [(TokenType.INTEGER, "2147483648")]) as Ht
    by (vm_compute; reflexivity).
  specialize (H ltac:(rewrite <- Ht; apply start_sees) ltac:(reflexivity)).
  rewrite decide_False in H by (vm_compute; intros ?; discriminate). exact H.
Defined.
