(* ===== verification/ParserErrors.v ===== *)
(** * ParserErrors: how the parser fails

    What [getLastError] holds when a call has thrown, and queries that are rejected although
    the grammar means to accept them. *)

From stdpp Require Import list gmap strings.
From S2P Require Import Prelude CxxString Types Lexer LexerProofs AST Parser ParserLogic ParserShape ParserTypes ParserPrint ParserRoundtrip ParserText.

Open Scope Z_scope.

(** ** The last error

    A function records errors when a syntax error is kept in [last_error] and nothing
    else changes it. *)
Definition outcome_error {A} (before : string) (o : Outcome A) : Prop :=
  match o with
  | Stops (Throws (runtime_error what)) st => last_error st = what
  | Stops _ st | Returns _ st => last_error st = before
  end.

Definition records {A} (m : P A) : Prop := ∀ st, outcome_error (last_error st) (m st).

Create HintDb parser_errors discriminated.

Lemma records_ret {A} (a : A) : records (mret a).
Proof. by intros st. Qed.
Lemma records_bind {A B} (m : P A) (f : A → P B) :
  records m → (∀ a, records (f a)) → records (m ≫= f).
Proof.
  intros Hm Hf st. specialize (Hm st). unfold mbind, P_bind. destruct (m st) as [a st'|s st']; [|done].
  cbn in Hm. rewrite <- Hm. apply Hf.
Qed.
Lemma records_choose {A} c (m1 m2 : P A) : records m1 → records m2 → records (choose c m1 m2).
Proof. intros H1 H2 st. unfold choose. destruct (c st); auto. Qed.
Lemma records_next : records next_token.
Proof. intros st. by rewrite next_token_step. Qed.
Lemma records_error {A} msg : records (error (A:=A) msg).
Proof. by intros st. Qed.
Lemma records_stop {A} s :
  match s with Throws (runtime_error _) => False | _ => True end → records (stop (A:=A) s).
Proof. intros Hs st. by destruct s as [[]| |]. Qed.
Lemma records_expect t : records (expect t).
Proof. intros st. unfold expect. destruct (match_token t st); [done|apply records_error]. Qed.
Lemma records_if {A} (p : Prop) `{Decision p} (m1 m2 : P A) :
  records m1 → records m2 → records (if decide p then m1 else m2).
Proof. by case_decide. Qed.
#[local] Hint Resolve records_ret records_next records_error records_expect : parser_errors.

Ltac records :=
  repeat first
    [ done
    | lazymatch goal with
      | |- records (_ ≫= _) => apply records_bind; [|intros ?]
      | |- records (choose _ _ _) => apply records_choose
      | |- records (if decide _ then _ else _) => apply records_if
      | |- records (stop _) => apply records_stop; exact I
      | |- _ => progress eauto 3 with parser_errors nocore
      end ].

Lemma records_skip t : records (skip t).
Proof. unfold skip. records. Qed.
Lemma records_consume t : records (consume t).
Proof.
  intros st. unfold consume. assert (records (expect t ;; next_token ;; mret (current_token st))) as H by records.
  apply H.
Qed.
#[local] Hint Resolve records_skip records_consume : parser_errors.
Lemma records_identifier : records identifier.
Proof. unfold identifier. records. Qed.
Lemma records_try {A} (r : Exn + A) :
  match r with inl (runtime_error _) => False | _ => True end → records (try_exn r).
Proof. destruct r as [[]|]; intros; try done; unfold try_exn, throw; records. Qed.
Lemma records_while {A} c (body : A → P A) a :
  (∀ a, records (body a)) → records (while_ c body a).
Proof.
  intros Hb st. unfold while_. generalize (S (tokens_left st)) as n. intros n. revert a st.
  assert (∀ a, records (while_loop n c body a)) as H; [|done].
  induction n as [|n IH]; intros a; cbn [while_loop]; records.
Qed.
Lemma records_comma {A} (item : P A) : records item → records (comma_list item).
Proof.
  intros Hi st. unfold comma_list. generalize (S (tokens_left st)) as n. intros n. revert st.
  assert (records (comma_loop n item)) as H; [|done].
  induction n as [|n IH]; cbn [comma_loop]; records.
Qed.
Lemma records_optional {A} c (m : P A) : records m → records (optional c m).
Proof. intros. unfold optional. records. Qed.
Lemma records_parenthesized {A} (m : P A) : records m → records (parenthesized m).
Proof. intros. unfold parenthesized. records. Qed.
#[local] Hint Resolve records_identifier records_comma records_optional records_parenthesized : parser_errors.

Ltac records ::=
  repeat first
    [ done
    | lazymatch goal with
      | |- records (_ ≫= _) => apply records_bind; [|intros ?]
      | |- records (choose _ _ _) => apply records_choose
      | |- records (if decide _ then _ else _) => apply records_if
      | |- records (stop _) => apply records_stop; exact I
      | |- records (comma_list _) => apply records_comma
      | |- records (optional _ _) => apply records_optional
      | |- records (parenthesized _) => apply records_parenthesized
      | |- records (while_ _ _ _) => apply records_while; intros ?
      | |- _ => progress eauto 3 with parser_errors nocore
      end ].

Lemma records_alias : records parseAlias.
Proof. unfold parseAlias. records. Qed.
Lemma records_names : records parseIdentifierList.
Proof. unfold parseIdentifierList. records. Qed.
Lemma records_operator ops : records (operator_of ops).
Proof. intros st. unfold operator_of. by destruct (find_op _ _). Qed.
#[local] Hint Resolve records_alias records_names records_operator : parser_errors.

Section grammar.
Context (expr : P ASTNode) (select : P SelectNode).
Hypothesis expr_records : records expr.
Hypothesis select_records : records select.

Lemma stoi_exn_kind x : match stoi_exn x with inl (runtime_error _) => False | _ => True end.
Proof. unfold stoi_exn. destruct (parse_integer x), (stoi x); done. Qed.

Lemma records_literal v :
  match v with inl (runtime_error _) => False | _ => True end → records (parse_literal v).
Proof. intros. unfold parse_literal. records. by apply records_try. Qed.

Lemma records_integer : records parse_integer_literal.
Proof.
  intros st. unfold parse_integer_literal. apply records_literal.
  pose proof (stoi_exn_kind (current_text st)). by destruct (stoi_exn _).
Qed.

Lemma records_float : records parse_float_literal.
Proof.
  intros st. unfold parse_float_literal.
  destruct (stod_exn (current_text st)) as [e|f] eqn:He.
  - unfold stod_exn in He. destruct (scan_decimal _) as [[m k]|]; [|by simplify_eq].
    destruct (range_error _ _ _); by simplify_eq.
  - destruct (cast_int64 f); [|done]. by apply records_literal.
Qed.

Lemma records_primary : records (parsePrimary expr select).
Proof.
  unfold parsePrimary, parse_column, parse_call, parse_parentheses, parse_case, skip_case.
  records; try (intros st; by apply records_literal).
  - apply records_integer.
  - apply records_float.
Qed.

Lemma records_unary : records (parseUnary expr select).
Proof.
  intros st. unfold parseUnary. generalize (S (tokens_left st)) as n. intros n. revert st.
  assert (records (unary_loop expr select n)) as H; [|done].
  induction n as [|n IH]; cbn [unary_loop]; records. apply records_primary.
Qed.

Lemma records_step op operand a : records op → records operand → records (binary_step op operand a).
Proof. intros. unfold binary_step. records. Qed.

Lemma records_level ops operand : records operand → records (binary_level ops operand).
Proof.
  intros. unfold binary_level. records. apply records_step; records.
Qed.

Lemma records_additive : records (parseAdditive expr select).
Proof. apply records_level, records_level, records_unary. Qed.

Lemma records_relational : records (parseRelational expr select).
Proof.
  unfold parseRelational. records; [apply records_additive|].
  apply records_step; [unfold relational_operator; records|apply records_additive].
Qed.

Lemma records_or : records (parseLogicalOr expr select).
Proof.
  apply records_level, records_level. unfold parseEquality, parse_is_null, parse_in, parse_between, parse_negation.
  records. apply records_level, records_relational.
Qed.

Lemma records_count z : records (parse_count z).
Proof. unfold parse_count. records. apply records_try, stoi_exn_kind. Qed.

Lemma records_select_body : records (parseSelect_body expr select).
Proof.
  unfold parseSelect_body, parse_distinct, parseSelectList, parse_select_item, parse_from, parse_table_ref,
    parse_joins, parseWhere, parseGroupBy, parse_having, parseOrderBy, parse_order_item, parseLimit,
    parse_set_operation.
  records; try apply records_count.
  - unfold parseJoin, parse_join_type, parse_outer. records.
  - intros st. generalize (set_operation_of st) as op. intros op.
    assert (records (next_token ;; op ← parse_all op; s ← select; mret (op, Some s))) as H; [|apply H].
    unfold parse_all. records.
  - match goal with p : _ * _ |- _ => destruct p end. records.
Qed.

Lemma records_where : records (parseWhere expr).
Proof. unfold parseWhere. records. Qed.

Lemma records_type_name x : records (parse_type_name x).
Proof. unfold parse_type_name, parse_length, invalid_type. records. Qed.

Lemma records_data_type : records parseDataType.
Proof.
  unfold parseDataType, invalid_type. records. intros st.
  assert (records (next_token ;; parse_type_name (current_text st))) as H; [|apply H].
  records. apply records_type_name.
Qed.

Lemma records_element : records parse_table_element.
Proof.
  unfold parse_table_element, parse_table_constraint, parse_column_def, parse_column_constraint.
  records. apply records_data_type.
Qed.

Lemma records_savepoint : records parse_savepoint.
Proof. unfold parse_savepoint. records. Qed.

Lemma records_statement : records (parseStatement expr select).
Proof.
  intros st. unfold parseStatement.
  assert (∀ t, records (statement_for expr select t)) as H;
    [|specialize (H (ttype (current_token st)) st); unfold statement_for in H;
      by destruct (ttype (current_token st))].
  intros t. unfold statement_for, parse_create, parse_drop, parseInsert, parseUpdate, parseDelete,
    parseCreateTable, parseCreateIndex, parseDropTable, parseBegin, parseCommit, parseRollback,
    skip_transaction, parseValuesList, parseExpressionList, parse_assignment.
  destruct t; records; solve [apply records_where|apply records_element|apply records_savepoint].
Qed.
End grammar.

Lemma records_depth n : records (parseExpression n) ∧ records (parseSelect n).
Proof.
  induction n as [|n [IH1 IH2]]; cbn [parseExpression parseSelect]; [split; records|].
  split; [by apply records_or|by apply records_select_body].
Qed.

Lemma records_tokens : records parse_tokens.
Proof.
  intros st. unfold parse_tokens. destruct (records_depth (S (tokens_left st))) as [H1 H2].
  assert (records (s ← parseStatement (parseExpression (S (tokens_left st))) (parseSelect (S (tokens_left st)));
    If match_token TokenType.END_OF_FILE Then mret s
    Else error "Tokens não processados após o fim da instrução")) as H; [|apply H].
  records. by apply records_statement.
Qed.

(** [getLastError] after [parse]: the message of the syntax error that was thrown; when the
    call returns, or leaves with another exception such as the one of a number out of
    range, it is still the error of an earlier query. *)
Theorem parse_last_error query st :
  match parse query st with
  | Returns _ st' => last_error st' = last_error st
  | Stops (Throws (runtime_error what)) st' => last_error st' = what
  | Stops _ st' => last_error st' = last_error st
  end.
Proof.
  rewrite parse_start. pose proof (records_tokens (start query st)) as H. unfold outcome_error in H.
  change (last_error (start query st)) with (last_error st) in H.
  by destruct (parse_tokens (start query st)) as [|[[]| |]].
Qed.

(** ** Queries that are rejected *)

(** The end of a statement where tokens remain. *)
Lemma leftover_rejected (m : P Statement) s rest ts :
  gives m s rest ts → head_type rest ≠ TokenType.END_OF_FILE →
  wp (s ← m; If match_token TokenType.END_OF_FILE Then mret s
             Else error "Tokens não processados após o fim da instrução")
    (λ _ _, False) (syntax_error "Tokens não processados após o fim da instrução") ts.
Proof.
  intros Hm Hr. apply wp_bind. eapply wp_mono; [exact Hm| |done]. intros x us [-> ->].
  apply (wp_else _ _); [by apply bool_decide_eq_false|]. by apply wp_error.
Qed.

Definition select_from (t : string) : list tok :=
  [kw TokenType.SELECT; kw TokenType.STAR; kw TokenType.FROM; ident t; kw TokenType.WHERE].

Lemma select_where_gives n t e rest :
  name_ok t = true → expr_good e = true → follows 1 rest → at_any (map fst set_starts) rest = false →
  at_any [TokenType.GROUP; TokenType.HAVING; TokenType.ORDER; TokenType.LIMIT] rest = false →
  (length (select_from t ++ print_expr e 1 ++ rest) < S n)%nat →
  gives (parseSelect_body (parseExpression n) (parseSelect n))
    (mkSelectNode false [LiteralNode (Value_string "*")] [] [mkTableRef _ t "" None] [] (Some e)
       None None None None SetOperation.NONE None)
    rest (select_from t ++ print_expr e 1 ++ rest).
Proof.
  intros Ht He Hf Hset Hcl Hl. unfold at_any in Hcl. cbn [existsb] in Hcl. rewrite !orb_false_iff in Hcl.
  destruct Hcl as (H1 & H2 & H3 & H4 & _). destruct (depth_gives n) as [Hexpr _].
  unfold parseSelect_body, parse_distinct, select_from in *. cbn [app] in *. cbn [length] in Hl.
  do 6 tok_step.
  assert (∀ us, gives (parseSelectList (parseExpression n)) [LiteralNode (Value_string "*")]
    (kw TokenType.FROM :: us) (kw TokenType.STAR :: kw TokenType.FROM :: us)) as Hsl.
  { intros us. eapply wp_comma_cons; [tauto|]. unfold parse_select_item. tok_steps. split; [cbn; lia|done]. }
  tok_step. eapply gives_use; [apply Hsl|]. unfold parse_from. do 4 tok_step.
  apply (gives_use _ [mkTableRef _ t "" None] (kw TokenType.WHERE :: print_expr e 1 ++ rest)).
  { eapply wp_comma_cons; [tauto|]. unfold parse_table_ref, parseAlias. tok_steps. split; [cbn; lia|done]. }
  tok_step. apply (gives_use _ [] (kw TokenType.WHERE :: print_expr e 1 ++ rest)).
  { unfold parse_joins. eapply wp_while_stop; [apply _|done|done]. }
  tok_step. apply (gives_use _ (Some e) rest).
  { unfold optional, parseWhere. do 4 tok_step. eapply gives_use; [apply Hexpr; [done|done|]|by tok_steps].
    lia. }
  unfold optional, parse_set_operation.
  do 4 (tok_step; apply (wp_else _ _); [done|tok_step]).
  tok_step. apply (wp_else _ _); [done|tok_step]. cbn beta iota. by tok_steps.
Qed.

Definition delete_from (t : string) : list tok :=
  [kw TokenType.DELETE; kw TokenType.FROM; ident t; kw TokenType.WHERE].

Lemma delete_where_gives n t e rest :
  name_ok t = true → expr_good e = true → follows 1 rest →
  (length (delete_from t ++ print_expr e 1 ++ rest) < n)%nat →
  gives (parseDelete (parseExpression n)) (mkDeleteNode t (Some e)) rest
    (delete_from t ++ print_expr e 1 ++ rest).
Proof.
  intros Ht He Hf Hl. destruct (depth_gives n) as [Hexpr _]. unfold parseDelete, delete_from in *.
  cbn [app length] in *. unfold optional, parseWhere. do 11 tok_step.
  eapply gives_use; [apply Hexpr; [done|done|lia]|]. by tok_steps.
Qed.

(** [=] is not a comparison: the lexer makes it the token of assignments, which no
    level of the grammar for expressions takes.  A query [SELECT * FROM t WHERE e = ...] and
    a [DELETE FROM t WHERE e = ...] are rejected, whatever the expression [e] and whatever
    follows. *)
Theorem equals_rejected query st t e x ts :
  name_ok t = true → expr_ok literal_printable e = true →
  tokens_of query = select_from t ++ print_expr e 1 ++ (TokenType.ASSIGN, x) :: ts ∨
  tokens_of query = delete_from t ++ print_expr e 1 ++ (TokenType.ASSIGN, x) :: ts →
  ∃ pos st', parse query st = Stops (Throws (runtime_error
    ("Erro de sintaxe em " +:+ pos +:+ ": Tokens não processados após o fim da instrução"))) st'.
Proof.
  intros Ht He Hq. rewrite parse_start. pose proof (start_sees query st) as Hs.
  assert (wp parse_tokens (λ _ _, False)
    (syntax_error "Tokens não processados após o fim da instrução") (tokens_of query)) as Hw.
  { clear Hs. intros st1 Hs1. unfold parse_tokens. rewrite (sees_tokens_left _ _ Hs1).
    generalize (eq_refl (S (length (tokens_of query)))). generalize (S (length (tokens_of query))) at 1 3 4.
    intros n Hn. revert st1 Hs1.
    destruct Hq as [Hq|Hq]; rewrite Hq in *;
      (eapply (leftover_rejected _ _ ((TokenType.ASSIGN, x) :: ts)); [apply wp_statement|done]).
    - cbn [select_from app head_type statement_for fst kw]. tok_step. destruct n as [|n]; [done|].
      eapply gives_use; [cbn [parseSelect]; apply (select_where_gives n); [done|done|unfold follows; cbn; lia|done|done|]|].
      + injection Hn as ->. rewrite length_app. rewrite length_app. cbn. lia.
      + by tok_steps.
    - cbn [delete_from app head_type statement_for fst kw]. tok_step.
      eapply gives_use; [apply delete_where_gives; [done|done|unfold follows; cbn; lia|rewrite Hn; lia]|].
      by tok_steps. }
  specialize (Hw _ Hs). destruct (parse_tokens _) as [|s st']; [by destruct Hw as (? & _ & [])|].
  destruct Hw as [pos ->]. by eexists _, _.
Qed.

Lemma equals_rejected_witness :
  let query := String.list_ascii_of_string "select * from t where a = 1" in
  tokens_of query = select_from "T" ++ print_expr (ColumnRefNode "" "A") 1 ++
                    (TokenType.ASSIGN, "=") :: [(TokenType.INTEGER, "1")] ∧
  ∃ pos st', parse query SQLParser_new = Stops (Throws (runtime_error
    ("Erro de sintaxe em " +:+ pos +:+ ": Tokens não processados após o fim da instrução"))) st'.
Proof.
  intros query. split; [vm_compute; reflexivity|].
  apply (equals_rejected query SQLParser_new "T" (ColumnRefNode "" "A") "=" [(TokenType.INTEGER, "1")]).
  - vm_compute. reflexivity.
  - vm_compute. reflexivity.
  - left. vm_compute. reflexivity.
Defined.
