(* ===== verification/Schema.v ===== *)
(** * Schema: the columns and tables of the catalog (src/metadata/schema.h, schema.cpp)

    The class [Table] of schema.h is [SchemaTable] here.  A [size_t] that is an index is a
    [nat]; [getColumnIndex] of the class gives the maximal [size_t] for [None].  The text
    form of a table is made by the library nlohmann::json, whose [dump] and [parse] are
    parameters.  [None] as the result of a conversion from text is an exception. *)

From stdpp Require Import gmap strings.
From S2P Require Import Prelude CxxString CxxStream Json Types.

Open Scope Z_scope.

(** ** Data *)

Module ExtendedDataType.
Inductive ExtendedDataType :=
  | INTEGER | BIGINT | SMALLINT | VARCHAR | CHAR | TEXT | BOOLEAN | DATE | TIME | TIMESTAMP
  | DECIMAL | FLOAT | DOUBLE | BLOB | JSON | UUID | ARRAY | ENUM
  | OTHER (code : Z).

#[export] Instance ExtendedDataType_eq_dec : EqDecision ExtendedDataType.
Proof. solve_decision. Defined.
End ExtendedDataType.
Export (hints) ExtendedDataType.
Abbreviation ExtendedDataType := ExtendedDataType.ExtendedDataType.

Definition ext_type_code (t : ExtendedDataType) : Z :=
  match t with
  | ExtendedDataType.INTEGER => 0 | ExtendedDataType.BIGINT => 1 | ExtendedDataType.SMALLINT => 2
  | ExtendedDataType.VARCHAR => 3 | ExtendedDataType.CHAR => 4 | ExtendedDataType.TEXT => 5
  | ExtendedDataType.BOOLEAN => 6 | ExtendedDataType.DATE => 7 | ExtendedDataType.TIME => 8
  | ExtendedDataType.TIMESTAMP => 9 | ExtendedDataType.DECIMAL => 10 | ExtendedDataType.FLOAT => 11
  | ExtendedDataType.DOUBLE => 12 | ExtendedDataType.BLOB => 13 | ExtendedDataType.JSON => 14
  | ExtendedDataType.UUID => 15 | ExtendedDataType.ARRAY => 16 | ExtendedDataType.ENUM => 17
  | ExtendedDataType.OTHER z => z
  end.

(** [static_cast<ExtendedDataType>] *)
Definition code_ext_type (z : Z) : ExtendedDataType :=
  match z with
  | 0 => ExtendedDataType.INTEGER | 1 => ExtendedDataType.BIGINT | 2 => ExtendedDataType.SMALLINT
  | 3 => ExtendedDataType.VARCHAR | 4 => ExtendedDataType.CHAR | 5 => ExtendedDataType.TEXT
  | 6 => ExtendedDataType.BOOLEAN | 7 => ExtendedDataType.DATE | 8 => ExtendedDataType.TIME
  | 9 => ExtendedDataType.TIMESTAMP | 10 => ExtendedDataType.DECIMAL | 11 => ExtendedDataType.FLOAT
  | 12 => ExtendedDataType.DOUBLE | 13 => ExtendedDataType.BLOB | 14 => ExtendedDataType.JSON
  | 15 => ExtendedDataType.UUID | 16 => ExtendedDataType.ARRAY | 17 => ExtendedDataType.ENUM
  | _ => ExtendedDataType.OTHER z
  end.

Record ColumnAttributes := mkColumnAttributes {
  at_nullable : bool;
  at_unique : bool;
  at_primary_key : bool;
  at_auto_increment : bool;
  at_default_value : string;
  at_check_expr : string;
  at_comment : string
}.
Definition ColumnAttributes_default : ColumnAttributes :=
  mkColumnAttributes true false false false "" "" "".

(** [enum_values_] is never set. *)
Record Column := mkColumn {
  sc_id : Z;
  sc_name : string;
  sc_type : ExtendedDataType;
  sc_length : Z;
  sc_precision : Z;
  sc_scale : Z;
  sc_attributes : ColumnAttributes
}.

Definition Column_default : Column :=
  mkColumn 0 "" ExtendedDataType.INTEGER 0 10 0 ColumnAttributes_default.

Definition Column_new (name : string) (type : ExtendedDataType) : Column :=
  mkColumn 0 name type
    (if decide (type = ExtendedDataType.VARCHAR) then 255
     else if decide (type = ExtendedDataType.CHAR) then 1 else 0)
    10 0 ColumnAttributes_default.

Definition setColumnId (id : Z) (c : Column) : Column :=
  mkColumn id (sc_name c) (sc_type c) (sc_length c) (sc_precision c) (sc_scale c) (sc_attributes c).
Definition set_primary_key (c : Column) : Column :=
  let a := sc_attributes c in
  mkColumn (sc_id c) (sc_name c) (sc_type c) (sc_length c) (sc_precision c) (sc_scale c)
    (mkColumnAttributes (at_nullable a) (at_unique a) true (at_auto_increment a)
       (at_default_value a) (at_check_expr a) (at_comment a)).

(** ** Values of a column *)

Definition basic_type (t : ExtendedDataType) : DataType :=
  match t with
  | ExtendedDataType.INTEGER | ExtendedDataType.SMALLINT => DataType.INTEGER
  | ExtendedDataType.BIGINT => DataType.BIGINT
  | ExtendedDataType.VARCHAR | ExtendedDataType.CHAR | ExtendedDataType.TEXT => DataType.VARCHAR
  | ExtendedDataType.BOOLEAN => DataType.BOOLEAN
  | _ => DataType.INTEGER
  end.

Definition validateValue (c : Column) (value : Value) : bool :=
  if negb (at_nullable (sc_attributes c)) && bool_decide (vtype value = DataType.INTEGER)
     && (int_val value =? 0) && bool_decide (str_val value = EmptyString) then false
  else if negb (bool_decide (vtype value = basic_type (sc_type c))) then false
  else if bool_decide (basic_type (sc_type c) = DataType.VARCHAR) && (0 <? sc_length c)
          && (sc_length c <? Z.of_nat (String.length (str_val value))) then false
  else true.

Definition column_getSizeInBytes (c : Column) : Z :=
  match sc_type c with
  | ExtendedDataType.INTEGER | ExtendedDataType.SMALLINT => 4
  | ExtendedDataType.BIGINT => 8
  | ExtendedDataType.BOOLEAN => 1
  | ExtendedDataType.VARCHAR | ExtendedDataType.CHAR | ExtendedDataType.TEXT =>
      wrap 64 (sc_length c + 4)
  | _ => 8
  end.

(** ** Columns as text *)

(** [ss << b] for a [bool] *)
Definition bool_text (b : bool) : string := if b then "1" else "0".

Definition bar : ascii := "|"%char.
(** [ss << s << "|"] before the rest *)
Definition with_bar (s rest : string) : string := s +:+ String bar rest.

Definition column_toString (c : Column) : string :=
  let a := sc_attributes c in
  with_bar (to_string (sc_id c))
    (with_bar (sc_name c)
    (with_bar (to_string (ext_type_code (sc_type c)))
    (with_bar (to_string (sc_length c))
    (with_bar (to_string (sc_precision c))
    (with_bar (to_string (sc_scale c))
    (with_bar (bool_text (at_nullable a))
    (with_bar (bool_text (at_unique a))
    (with_bar (bool_text (at_primary_key a))
    (with_bar (bool_text (at_auto_increment a))
    (with_bar (at_default_value a)
    (with_bar (at_check_expr a)
    (at_comment a)))))))))))).

Definition is_one (s : string) : bool := bool_decide (s = "1").

Definition column_fromString (str : string) : option Column :=
  let '(ss, token) := getline bar (stringstream str) "" in
  id ← stoull token;
  let '(ss, name) := getline bar ss token in
  let '(ss, token) := getline bar ss name in
  type ← stoi token;
  let '(ss, token) := getline bar ss token in
  len ← stoull token;
  let '(ss, token) := getline bar ss token in
  prec ← stoi token;
  let '(ss, token) := getline bar ss token in
  sc ← stoi token;
  let '(ss, nul) := getline bar ss token in
  let '(ss, uni) := getline bar ss nul in
  let '(ss, pk) := getline bar ss uni in
  let '(ss, auto) := getline bar ss pk in
  let '(ss, def) := getline bar ss auto in
  let '(ss, chk) := getline bar ss def in
  let '(ss, com) := getline bar ss chk in
  Some (mkColumn (wrap 16 id) name (code_ext_type type) len prec sc
          (mkColumnAttributes (is_one nul) (is_one uni) (is_one pk) (is_one auto) def chk com)).

(** ** Tables *)

Record SchemaIndex := mkSchemaIndex { si_name : string; si_columns : list nat }.

Record ForeignKey := mkForeignKey {
  fk_name : string;
  fk_columns : list nat;
  fk_ref_table : string;
  fk_ref_columns : list string
}.

Record SchemaTable := mkSchemaTable {
  sch_id : Z;
  sch_name : string;
  sch_columns : list Column;
  column_map : gmap string nat;
  sch_indexes : gmap string SchemaIndex;
  foreign_keys : list ForeignKey;
  sch_options : gmap string string;
  sch_primary_key : list nat
}.

Definition SchemaTable_new (name : string) (id : Z) : SchemaTable :=
  mkSchemaTable id name [] ∅ ∅ [] ∅ [].

(** The id is the number of columns, in the type of an id. *)
Definition addColumn (column : Column) (t : SchemaTable) : SchemaTable :=
  let n := length (sch_columns t) in
  mkSchemaTable (sch_id t) (sch_name t)
    (sch_columns t ++ [setColumnId (wrap 16 (Z.of_nat n)) column])
    (<[sc_name column := n]> (column_map t)) (sch_indexes t) (foreign_keys t) (sch_options t)
    (sch_primary_key t).

Definition addColumn_named (name : string) (type : ExtendedDataType) (t : SchemaTable) : SchemaTable :=
  addColumn (Column_new name type) t.

Definition sch_hasColumn (name : string) (t : SchemaTable) : bool :=
  bool_decide (is_Some (column_map t !! name)).

(** An index outside the vector is undefined, [None]; [Some None] is [nullptr]. *)
Definition getColumn (name : string) (t : SchemaTable) : option (option Column) :=
  match column_map t !! name with
  | Some i => Some <$> sch_columns t !! i
  | None => Some None
  end.

Definition getColumn_at (index : nat) (t : SchemaTable) : option Column := sch_columns t !! index.

Definition sch_getColumnIndex (name : string) (t : SchemaTable) : option nat := column_map t !! name.

(** The indexes of the columns that exist. *)
Definition column_indices (names : list string) (t : SchemaTable) : list nat :=
  omap (λ name, sch_getColumnIndex name t) names.

(** [columns_[idx]] outside the vector is undefined. *)
Fixpoint mark_primary (idxs : list nat) (cols : list Column) : option (list Column) :=
  match idxs with
  | [] => Some cols
  | i :: idxs' => c ← cols !! i; mark_primary idxs' (<[i := set_primary_key c]> cols)
  end.

Definition setPrimaryKey (names : list string) (t : SchemaTable) : option SchemaTable :=
  let idxs := column_indices names t in
  cols ← mark_primary idxs (sch_columns t);
  Some (mkSchemaTable (sch_id t) (sch_name t) cols (column_map t) (sch_indexes t) (foreign_keys t)
          (sch_options t) idxs).

Definition getPrimaryKeyIndices (t : SchemaTable) : list nat := sch_primary_key t.

Definition isPrimaryKeyColumn (name : string) (t : SchemaTable) : bool :=
  match sch_getColumnIndex name t with
  | Some i => bool_decide (i ∈ sch_primary_key t)
  | None => false
  end.

Definition addIndex (name : string) (names : list string) (t : SchemaTable) : SchemaTable :=
  match column_indices names t with
  | [] => t
  | idxs =>
      mkSchemaTable (sch_id t) (sch_name t) (sch_columns t) (column_map t)
        (<[name := mkSchemaIndex name idxs]> (sch_indexes t)) (foreign_keys t) (sch_options t)
        (sch_primary_key t)
  end.

Definition hasIndex (name : string) (t : SchemaTable) : bool :=
  bool_decide (is_Some (sch_indexes t !! name)).

Definition addForeignKey (name : string) (names : list string) (ref_table : string)
    (ref_columns : list string) (t : SchemaTable) : SchemaTable :=
  match column_indices names t with
  | [] => t
  | idxs =>
      mkSchemaTable (sch_id t) (sch_name t) (sch_columns t) (column_map t) (sch_indexes t)
        (foreign_keys t ++ [mkForeignKey name idxs ref_table ref_columns]) (sch_options t)
        (sch_primary_key t)
  end.

Definition setOption (key value : string) (t : SchemaTable) : SchemaTable :=
  mkSchemaTable (sch_id t) (sch_name t) (sch_columns t) (column_map t) (sch_indexes t)
    (foreign_keys t) (<[key := value]> (sch_options t)) (sch_primary_key t).

Definition getOption (key : string) (t : SchemaTable) : string := default "" (sch_options t !! key).

Definition sch_getRecordSize (t : SchemaTable) : Z :=
  foldl (λ size c, wrap 64 (size + column_getSizeInBytes c)) 0 (sch_columns t).

Fixpoint sch_validate (cols : list Column) (record : list Value) : bool :=
  match cols, record with
  | c :: cols', v :: record' => if validateValue c v then sch_validate cols' record' else false
  | _, _ => true
  end.

Definition sch_validateRecord (record : list Value) (t : SchemaTable) : bool :=
  if decide (length record = length (sch_columns t)) then sch_validate (sch_columns t) record else false.

(** ** Tables as text *)

Definition json_nats (l : list nat) : Json := JArray ((λ n, JNumber (Z.of_nat n)) <$> l).

Definition json_fk (fk : ForeignKey) : Json :=
  JObject (<["name" := JString (fk_name fk)]> (<["columns" := json_nats (fk_columns fk)]>
    (<["ref_table" := JString (fk_ref_table fk)]>
    (<["ref_columns" := JArray (JString <$> fk_ref_columns fk)]> ∅)))).

Definition table_json (t : SchemaTable) : Json :=
  JObject (<["id" := JNumber (sch_id t)]> (<["name" := JString (sch_name t)]>
    (<["columns" := JArray ((λ c, JString (column_toString c)) <$> sch_columns t)]>
    (<["primary_key" := json_nats (sch_primary_key t)]>
    (<["indexes" := JObject ((λ i, json_nats (si_columns i)) <$> sch_indexes t)]>
    (<["foreign_keys" := JArray (json_fk <$> foreign_keys t)]>
    (<["options" := JObject (JString <$> sch_options t)]> ∅))))))).

Definition fk_of_json (j : Json) : option ForeignKey :=
  m ← as_object j;
  name ← as_string (member "name" m);
  cols ← as_nats (member "columns" m);
  ref ← as_string (member "ref_table" m);
  refs ← as_list as_string (member "ref_columns" m);
  Some (mkForeignKey name cols ref refs).

(** The map from names to indexes, of the columns from [i] on. *)
Fixpoint build_map (cols : list Column) (i : nat) (m : gmap string nat) : gmap string nat :=
  match cols with
  | [] => m
  | c :: cols' => build_map cols' (S i) (<[sc_name c := i]> m)
  end.

Definition table_of_json (j : Json) : option SchemaTable :=
  m ← as_object j;
  id ← as_number (member "id" m);
  name ← as_string (member "name" m);
  cols ← mapM (λ c, as_string c ≫= column_fromString) (elements_of (member "columns" m));
  pk ← optional [] as_nats (m !! "primary_key");
  idxs ← optional ∅ (λ j, map_values (λ k v, mkSchemaIndex k <$> as_nats v) (items_of j))
           (m !! "indexes");
  fks ← optional [] (mapM fk_of_json ∘ elements_of) (m !! "foreign_keys");
  opts ← optional ∅ (λ j, m ← as_object j; map_values (λ _ v, as_string v) (map_to_list m))
           (m !! "options");
  Some (mkSchemaTable (wrap 32 id) name cols (build_map cols 0 ∅) idxs fks opts pk).

Section Text.
Variable json_dump : Json → string.
Variable json_parse : string → option Json.

Definition table_toString (t : SchemaTable) : string := json_dump (table_json t).
Definition table_fromString (s : string) : option SchemaTable := j ← json_parse s; table_of_json j.

End Text.
