(* ===== verification/SchemaProofs.v ===== *)
(** * SchemaProofs: columns and tables are read back as written

    The invariant of a table of the catalog, and the round trips of its text form. *)

From stdpp Require Import gmap strings.
From S2P Require Import Prelude CxxString CxxStream Json Types Schema.

Open Scope Z_scope.

(** ** Columns *)

(** A column whose strings have no bar and whose numbers are in range. *)
Record column_text_ok (c : Column) : Prop := mk_column_text_ok {
  ct_id : fits 16 (sc_id c);
  ct_name : no_char bar (sc_name c) = true;
  ct_type : fits_signed 32 (ext_type_code (sc_type c)) ∧ code_ext_type (ext_type_code (sc_type c)) = sc_type c;
  ct_length : fits 64 (sc_length c);
  ct_precision : fits_signed 32 (sc_precision c);
  ct_scale : fits_signed 32 (sc_scale c);
  ct_default : no_char bar (at_default_value (sc_attributes c)) = true;
  ct_check : no_char bar (at_check_expr (sc_attributes c)) = true;
  ct_comment : no_char bar (at_comment (sc_attributes c)) = true
}.

Lemma bool_text_bar b : no_char bar (bool_text b) = true.
Proof. by destruct b. Qed.

Lemma number_bar z : no_char bar (to_string z) = true.
Proof. by apply no_char_to_string. Qed.

Lemma is_one_text b : is_one (bool_text b) = b.
Proof. by destruct b. Qed.

Lemma getline_bar a rest token :
  no_char bar a = true → getline bar (mkStream (with_bar a rest) true) token = (mkStream rest true, a).
Proof. apply getline_field. Qed.

Lemma column_from_to c : column_text_ok c → column_fromString (column_toString c) = Some c.
Proof.
  intros [Hid Hname [Ht Hct] Hlen Hpr Hsc Hdef Hchk Hcom].
  unfold column_fromString, column_toString, stringstream.
  rewrite getline_bar by apply number_bar.
  rewrite stoull_to_string by (unfold fits in *; lia). cbn [mbind option_bind].
  rewrite getline_bar by done. rewrite getline_bar by apply number_bar.
  rewrite stoi_to_string by done. cbn [mbind option_bind].
  rewrite getline_bar by apply number_bar. rewrite stoull_to_string by done. cbn [mbind option_bind].
  rewrite getline_bar by apply number_bar. rewrite stoi_to_string by done. cbn [mbind option_bind].
  rewrite getline_bar by apply number_bar. rewrite stoi_to_string by done. cbn [mbind option_bind].
  rewrite !getline_bar by (apply bool_text_bar || done).
  rewrite getline_last by done. rewrite !is_one_text, Hct, wrap_small by done.
  by destruct c as [? ? ? ? ? ? []].
Qed.

(** ** The invariant of a table *)

Definition names (t : SchemaTable) : list string := sc_name <$> sch_columns t.

Record schema_ok (t : SchemaTable) : Prop := mk_schema_ok {
  so_map : column_map t = build_map (sch_columns t) 0 ∅;
  so_ids : ∀ i c, sch_columns t !! i = Some c → sc_id c = wrap 16 (Z.of_nat i);
  so_pk : Forall (λ i, i < length (sch_columns t))%nat (sch_primary_key t);
  so_indexes : ∀ name idx, sch_indexes t !! name = Some idx →
    si_name idx = name ∧ si_columns idx ≠ [] ∧
    Forall (λ i, i < length (sch_columns t))%nat (si_columns idx);
  so_fks : Forall (λ fk, fk_columns fk ≠ [] ∧
    Forall (λ i, i < length (sch_columns t))%nat (fk_columns fk)) (foreign_keys t)
}.

Lemma build_map_app cols : ∀ c i m,
  build_map (cols ++ [c]) i m = <[sc_name c := (i + length cols)%nat]> (build_map cols i m).
Proof.
  induction cols as [|d cols IH]; intros c i m; cbn [build_map app length]; [by rewrite Nat.add_0_r|].
  rewrite IH. by rewrite Nat.add_succ_r.
Qed.

Lemma build_map_names cols : ∀ cols' i m,
  sc_name <$> cols = sc_name <$> cols' → build_map cols i m = build_map cols' i m.
Proof.
  induction cols as [|c cols IH]; intros [|c' cols'] i m Hn; try done.
  cbn in Hn. injection Hn as Hc Hn. cbn [build_map]. rewrite Hc. by apply IH.
Qed.

(** The map gives the last column of a name. *)
Lemma build_map_lookup cols : ∀ i m name j,
  build_map cols i m !! name = Some j →
  m !! name = Some j ∨ ∃ k c, j = (i + k)%nat ∧ cols !! k = Some c ∧ sc_name c = name.
Proof.
  induction cols as [|c cols IH]; intros i m name j; cbn [build_map]; [by left|]. intros Hj.
  destruct (IH _ _ _ _ Hj) as [Hm|(k & c' & -> & Hk & Hn)].
  - apply lookup_insert_Some in Hm as [[<- <-]|[_ Hm]]; [|by left].
    right. exists 0%nat, c. split; [lia|done].
  - right. exists (S k), c'. split; [lia|done].
Qed.

Lemma map_in_range t name i :
  schema_ok t → column_map t !! name = Some i →
  ∃ c, sch_columns t !! i = Some c ∧ sc_name c = name.
Proof.
  intros Hok Hi. rewrite (so_map _ Hok) in Hi. apply build_map_lookup in Hi as [Hi|(k & c & -> & Hk & Hn)].
  - by rewrite lookup_empty in Hi.
  - by exists c.
Qed.

Lemma column_indices_range t names :
  schema_ok t → Forall (λ i, i < length (sch_columns t))%nat (column_indices names t).
Proof.
  intros Hok. apply Forall_forall. intros i (name & _ & Hi)%list_elem_of_omap.
  destruct (map_in_range _ _ _ Hok Hi) as (c & Hc & _). by eapply lookup_lt_Some.
Qed.

Lemma mark_primary_spec idxs : ∀ cols,
  Forall (λ i, i < length cols)%nat idxs →
  ∃ cols', mark_primary idxs cols = Some cols' ∧ sc_name <$> cols' = sc_name <$> cols ∧
    sc_id <$> cols' = sc_id <$> cols ∧
    (∀ i c, cols' !! i = Some c →
       at_primary_key (sc_attributes c) =
       bool_decide (i ∈ idxs) || default false (at_primary_key ∘ sc_attributes <$> cols !! i)).
Proof.
  induction idxs as [|i idxs IH]; intros cols Hi; cbn [mark_primary].
  { exists cols. split_and!; try done. intros i c Hc. by rewrite Hc. }
  apply Forall_cons in Hi as [Hlt Hi]. destruct (lookup_lt_is_Some_2 _ _ Hlt) as [c Hc].
  rewrite Hc. cbn [mbind option_bind].
  destruct (IH (<[i := set_primary_key c]> cols)) as (cols' & Hm & Hn & Hid & Hp);
    [by rewrite length_insert|].
  exists cols'. split; [done|]. split; [|split].
  - rewrite Hn, list_fmap_insert. apply list_insert_id. by rewrite list_lookup_fmap, Hc.
  - rewrite Hid, list_fmap_insert. apply list_insert_id. by rewrite list_lookup_fmap, Hc.
  - intros j d Hd. rewrite (Hp j d Hd). destruct (decide (j = i)) as [->|Hne].
    + rewrite list_lookup_insert_eq by done. cbn.
      rewrite (bool_decide_eq_true_2 (i ∈ i :: idxs)) by left. by rewrite orb_true_r.
    + rewrite list_lookup_insert_ne by done. f_equal. apply bool_decide_ext. set_solver.
Qed.

Lemma addColumn_ok c t : schema_ok t → schema_ok (addColumn c t).
Proof.
  intros [Hm Hi Hp Hx Hf]. constructor; cbn [addColumn column_map sch_columns sch_primary_key sch_indexes foreign_keys];
    rewrite ?length_app; cbn [length].
  - by rewrite build_map_app, Hm.
  - intros i d [Hd|[Hge Hd]]%lookup_app_Some; [by apply Hi|].
    apply list_lookup_singleton_Some in Hd as [Hz <-]. cbn. do 2 f_equal. lia.
  - eapply Forall_impl; [exact Hp|]. cbn. lia.
  - intros name idx Hidx. destruct (Hx _ _ Hidx) as (? & ? & Hc). split_and!; try done.
    eapply Forall_impl; [exact Hc|]. cbn. lia.
  - eapply Forall_impl; [exact Hf|]. intros fk [? Hc]. split; [done|].
    eapply Forall_impl; [exact Hc|]. cbn. lia.
Qed.

Lemma setPrimaryKey_ok names t :
  schema_ok t → ∃ t', setPrimaryKey names t = Some t' ∧ schema_ok t'.
Proof.
  intros Hok. destruct (mark_primary_spec (column_indices names t) (sch_columns t))
    as (cols & Hm & Hn & Hid & _); [by apply column_indices_range|].
  unfold setPrimaryKey. rewrite Hm. cbn [mbind option_bind]. eexists. split; [reflexivity|].
  assert (length cols = length (sch_columns t)) as Hlen
    by (rewrite <- (length_fmap sc_name), Hn; apply length_fmap).
  pose proof (column_indices_range t names Hok) as Hr.
  destruct Hok as [Hmap Hi Hp Hx Hf]. constructor; cbn; rewrite ?Hlen; try done.
  - rewrite Hmap. by apply build_map_names.
  - intros i c Hc. assert (∃ d, sch_columns t !! i = Some d ∧ sc_id d = sc_id c) as (d & Hd & <-).
    { apply (f_equal (λ l, l !! i)) in Hid. rewrite !list_lookup_fmap, Hc in Hid.
      destruct (sch_columns t !! i) as [d|]; [|done]. exists d. cbn in Hid. split; congruence. }
    by apply Hi.
Qed.

Lemma addIndex_ok name names t : schema_ok t → schema_ok (addIndex name names t).
Proof.
  intros Hok. pose proof (column_indices_range t names Hok) as Hr. unfold addIndex.
  destruct (column_indices names t) as [|i idxs] eqn:He; [done|]. rewrite <- He in *.
  destruct Hok as [Hm Hi Hp Hx Hf]. constructor; cbn; try done.
  intros n idx [[<- <-]|[_ Hn]]%lookup_insert_Some; [|by apply Hx]. split_and!; [done| |done].
  cbn. by rewrite He.
Qed.

Lemma addForeignKey_ok name names rt rc t : schema_ok t → schema_ok (addForeignKey name names rt rc t).
Proof.
  intros Hok. pose proof (column_indices_range t names Hok) as Hr. unfold addForeignKey.
  destruct (column_indices names t) as [|i idxs] eqn:He; [done|]. rewrite <- He in *.
  destruct Hok as [Hm Hi Hp Hx Hf]. constructor; cbn; try done.
  apply Forall_app. split; [done|]. constructor; [|constructor]. cbn. split; [by rewrite He|done].
Qed.

Lemma setOption_ok key value t : schema_ok t → schema_ok (setOption key value t).
Proof. by intros []. Qed.

Lemma SchemaTable_new_ok name id : schema_ok (SchemaTable_new name id).
Proof. constructor; cbn; try done. Qed.

(** A table after any sequence of calls. *)
Inductive schema_reachable : SchemaTable → Prop :=
  | sr_new name id : schema_reachable (SchemaTable_new name id)
  | sr_column c t : schema_reachable t → schema_reachable (addColumn c t)
  | sr_key names t t' :
      schema_reachable t → setPrimaryKey names t = Some t' → schema_reachable t'
  | sr_index name names t : schema_reachable t → schema_reachable (addIndex name names t)
  | sr_fk name names rt rc t : schema_reachable t → schema_reachable (addForeignKey name names rt rc t)
  | sr_option key value t : schema_reachable t → schema_reachable (setOption key value t).

Lemma reachable_schema_ok t : schema_reachable t → schema_ok t.
Proof.
  induction 1; eauto using SchemaTable_new_ok, addColumn_ok, addIndex_ok, addForeignKey_ok, setOption_ok.
  destruct (setPrimaryKey_ok names0 t) as (t'' & Hs & Hok); [done|]. by simplify_eq.
Qed.

(** Invariant of a table of the catalog: whatever is called, no operation leaves its vectors
    ([setPrimaryKey] and [getColumn] are defined), the column found under a name has
    that name, the id of a column is its position, and every index of a key or an index
    is the position of a column. *)
Theorem schema_invariant t names name :
  schema_reachable t →
  (∃ t', setPrimaryKey names t = Some t') ∧
  (∃ r, getColumn name t = Some r ∧ (sch_hasColumn name t = true ↔ is_Some r) ∧
     ∀ c, r = Some c → sc_name c = name) ∧
  (∀ i c, sch_columns t !! i = Some c → sc_id c = wrap 16 (Z.of_nat i)) ∧
  Forall (λ i, is_Some (sch_columns t !! i)) (sch_primary_key t) ∧
  (∀ n idx, sch_indexes t !! n = Some idx → Forall (λ i, is_Some (sch_columns t !! i)) (si_columns idx)).
Proof.
  intros Hok%reachable_schema_ok. split_and!.
  - destruct (setPrimaryKey_ok names t Hok) as (t' & ? & _). eauto.
  - unfold getColumn, sch_hasColumn. destruct (column_map t !! name) as [i|] eqn:Hi.
    + destruct (map_in_range t name i Hok Hi) as (c & Hc & Hn). rewrite Hc. cbn.
      exists (Some c). split; [done|]. split; [split; [by eauto|done]|]. naive_solver.
    + exists None. split; [done|]. split; [split; [done|by intros []%is_Some_None]|done].
  - apply Hok.
  - eapply Forall_impl; [exact (so_pk _ Hok)|]. intros i. apply lookup_lt_is_Some_2.
  - intros n idx Hidx. destruct (so_indexes _ Hok _ _ Hidx) as (_ & _ & Hc).
    eapply Forall_impl; [exact Hc|]. intros i. apply lookup_lt_is_Some_2.
Qed.

(** ** Tables as text *)

Definition small_index (n : nat) : Prop := Z.of_nat n < 2 ^ 64.

Lemma as_nats_json l : Forall small_index l → as_nats (json_nats l) = Some l.
Proof.
  intros Hl. unfold as_nats, as_list, json_nats. cbn [as_array mbind option_bind].
  apply mapM_fmap_Forall_Some. eapply Forall_impl; [exact Hl|]. intros n Hn. cbn.
  unfold compose. rewrite wrap_small by (unfold fits, small_index in *; lia). by rewrite Nat2Z.id.
Qed.

Lemma as_strings_json (l : list string) : as_list as_string (JArray (JString <$> l)) = Some l.
Proof. unfold as_list. cbn [as_array mbind option_bind]. by apply mapM_fmap_Some. Qed.

(** The members of an object that was made member by member. *)
Lemma map_values_fmap {A} (f : string → Json → option A) (g : A → Json) (m : gmap string A) :
  (∀ k a, m !! k = Some a → f k (g a) = Some a) → map_values f (map_to_list (g <$> m)) = Some m.
Proof.
  intros Hf. unfold map_values. rewrite map_to_list_fmap.
  rewrite mapM_fmap_Forall_Some.
  - cbn. by rewrite list_to_map_to_list.
  - apply Forall_forall. intros [k a] Ha%elem_of_map_to_list. cbn. by rewrite (Hf _ _ Ha).
Qed.

Lemma fk_json fk : Forall small_index (fk_columns fk) → fk_of_json (json_fk fk) = Some fk.
Proof.
  intros Hs. unfold fk_of_json, json_fk, member. cbn [as_object mbind option_bind].
  set (m := <["name" := _]> _). assert (m !! "name" = Some (JString (fk_name fk))) as -> by done.
  assert (m !! "columns" = Some (json_nats (fk_columns fk))) as -> by done.
  assert (m !! "ref_table" = Some (JString (fk_ref_table fk))) as -> by done.
  assert (m !! "ref_columns" = Some (JArray (JString <$> fk_ref_columns fk))) as -> by done.
  cbn [mbind option_bind as_string default from_option id]. rewrite as_nats_json by done. cbn [mbind option_bind].
  rewrite as_strings_json. by destruct fk.
Qed.

Lemma table_json_back t :
  schema_ok t → fits 32 (sch_id t) → Z.of_nat (length (sch_columns t)) < 2 ^ 64 →
  Forall column_text_ok (sch_columns t) → table_of_json (table_json t) = Some t.
Proof.
  intros [Hm Hi Hp Hx Hf] Hid Hlen Htext.
  assert (∀ l, Forall (λ i, i < length (sch_columns t))%nat l → Forall small_index l) as Hsmall.
  { intros l Hl. eapply Forall_impl; [exact Hl|]. unfold small_index. lia. }
  unfold table_of_json, table_json, member. cbn [as_object mbind option_bind].
  set (m := <["id" := _]> _).
  assert (m !! "id" = Some (JNumber (sch_id t))) as -> by done.
  assert (m !! "name" = Some (JString (sch_name t))) as -> by done.
  assert (m !! "columns" = Some (JArray ((λ c, JString (column_toString c)) <$> sch_columns t)))
    as -> by done.
  assert (m !! "primary_key" = Some (json_nats (sch_primary_key t))) as -> by done.
  assert (m !! "indexes" = Some (JObject ((λ i, json_nats (si_columns i)) <$> sch_indexes t)))
    as -> by done.
  assert (m !! "foreign_keys" = Some (JArray (json_fk <$> foreign_keys t))) as -> by done.
  assert (m !! "options" = Some (JObject (JString <$> sch_options t))) as -> by done.
  cbn [mbind option_bind as_number as_string optional as_object default from_option id
       elements_of items_of].
  assert (mapM (λ c, as_string c ≫= column_fromString)
    ((λ c, JString (column_toString c)) <$> sch_columns t) = Some (sch_columns t)) as ->.
  { apply mapM_fmap_Forall_Some.
    eapply Forall_impl; [exact Htext|]. intros c Hc. cbn. by apply column_from_to. }
  cbn [mbind option_bind]. rewrite as_nats_json by auto. cbn [mbind option_bind].
  rewrite (map_values_fmap (λ k v, mkSchemaIndex k <$> as_nats v) (λ i, json_nats (si_columns i))).
  2:{ intros k idx Hk. destruct (Hx _ _ Hk) as (Hn & _ & Hc). rewrite as_nats_json by auto.
      cbn. destruct idx. cbn in *. by subst. }
  cbn [mbind option_bind].
  assert ((mapM fk_of_json ∘ elements_of) (JArray (json_fk <$> foreign_keys t)) =
          Some (foreign_keys t)) as ->.
  { unfold compose. cbn [elements_of]. apply mapM_fmap_Forall_Some.
    eapply Forall_impl; [exact Hf|]. intros fk [_ Hc]. apply fk_json. auto. }
  cbn [mbind option_bind]. rewrite map_values_fmap by done.
  cbn [mbind option_bind]. rewrite wrap_small by done. rewrite <- Hm. by destruct t.
Qed.

(** Round trip of a table of the catalog: a table that was built by calls, whose columns have
    no bar in their strings and numbers in range, is read back from its text, as long as the
    library reads back the JSON value that it wrote. *)
Theorem schema_roundtrip json_dump json_parse t :
  json_parse (json_dump (table_json t)) = Some (table_json t) →
  schema_reachable t → fits 32 (sch_id t) → Z.of_nat (length (sch_columns t)) < 2 ^ 64 →
  Forall column_text_ok (sch_columns t) →
  table_fromString json_parse (table_toString json_dump t) = Some t.
Proof.
  intros Hj Hok%reachable_schema_ok Hid Hlen Htext. unfold table_fromString, table_toString.
  rewrite Hj. cbn [mbind option_bind]. by apply table_json_back.
Qed.

(** ** Examples *)

(** A table with two columns, a key and an index. *)
Definition person : SchemaTable :=
  let t := addColumn_named "name" ExtendedDataType.VARCHAR
             (addColumn_named "id" ExtendedDataType.INTEGER (SchemaTable_new "person" 7)) in
  addIndex "by_name" ["name"] (default t (setPrimaryKey ["id"] t)).

Lemma person_reachable : schema_reachable person.
Proof.
  unfold person. cbv zeta. apply sr_index. set (t := addColumn_named "name" _ _).
  apply (sr_key ["id"] t); [|vm_compute; reflexivity]. apply sr_column, sr_column, sr_new.
Qed.

Lemma person_text : Forall column_text_ok (sch_columns person).
Proof.
  repeat constructor; try (vm_compute; congruence); cbn; unfold fits, fits_signed; try lia.
Qed.

Lemma schema_invariant_witness :
  ∃ c, getColumn "name" person = Some (Some c) ∧ sc_id c = 1.
Proof.
  destruct (schema_invariant person [] "name" person_reachable) as (_ & (r & Hr & _) & Hids & _).
  assert (r = sch_columns person !! 1%nat) as Heq by (vm_compute in Hr; vm_compute; congruence).
  destruct (sch_columns person !! 1%nat) as [c|] eqn:Hc; [|by vm_compute in Hc].
  exists c. subst r. split; [exact Hr|]. apply (Hids 1%nat c). by rewrite <- Hc.
Defined.

Lemma schema_roundtrip_witness :
  table_fromString (λ _, Some (table_json person)) (table_toString (λ _, "{}") person) = Some person.
Proof.
  apply (schema_roundtrip (λ _, "{}") (λ _, Some (table_json person)) person);
    [reflexivity|apply person_reachable|vm_compute; split; [discriminate|reflexivity]|vm_compute; reflexivity|apply person_text].
Defined.
