(* ===== verification/Catalog.v ===== *)
(** * Catalog: the tables, indexes, constraints, sequences and views of the system
    (src/metadata/catalog.h, catalog.cpp)

    Operations are in a monad over the catalog: [None] is a call that never returns or is
    undefined, and [Some (c, None)] an exception, which leaves what was changed before it.
    [rw_mutex_] is part of the state: a thread that locks it again, in whatever mode, waits for
    itself or is undefined ([std::shared_mutex] is not recursive).  The calls on the file
    system either succeed or throw, as an argument says; a pointer to a schema is the schema
    it points to.  Maps are iterated in the order of [map_to_list].  The library of JSON is a
    parameter, as in [Schema]. *)

From stdpp Require Import gmap strings list.
From S2P Require Import Prelude CxxString CxxStream Json Types.

Open Scope Z_scope.

(** ** Data *)

Module ConstraintType.
Inductive ConstraintType := PRIMARY_KEY | FOREIGN_KEY | UNIQUE | CHECK | NOT_NULL | OTHER (code : Z).

#[export] Instance ConstraintType_eq_dec : EqDecision ConstraintType.
Proof. solve_decision. Defined.
End ConstraintType.
Export (hints) ConstraintType.
Abbreviation ConstraintType := ConstraintType.ConstraintType.

Definition constraint_code (t : ConstraintType) : Z :=
  match t with
  | ConstraintType.PRIMARY_KEY => 0 | ConstraintType.FOREIGN_KEY => 1 | ConstraintType.UNIQUE => 2
  | ConstraintType.CHECK => 3 | ConstraintType.NOT_NULL => 4 | ConstraintType.OTHER z => z
  end.
Definition code_constraint (z : Z) : ConstraintType :=
  match z with
  | 0 => ConstraintType.PRIMARY_KEY | 1 => ConstraintType.FOREIGN_KEY | 2 => ConstraintType.UNIQUE
  | 3 => ConstraintType.CHECK | 4 => ConstraintType.NOT_NULL | _ => ConstraintType.OTHER z
  end.

Record ConstraintInfo := mkConstraintInfo {
  ci_type : ConstraintType;
  ci_name : string;
  ci_table_name : string;
  ci_columns : list string;
  ci_ref_table : string;
  ci_ref_columns : list string;
  ci_check_expr : string;
  ci_deferrable : bool;
  ci_initially_deferred : bool
}.

Record SequenceInfo := mkSequenceInfo {
  sq_name : string;
  sq_start : Z;
  sq_current : Z;
  sq_increment : Z;
  sq_min : Z;
  sq_max : Z;
  sq_cycle : bool
}.
Definition set_current (v : Z) (s : SequenceInfo) : SequenceInfo :=
  mkSequenceInfo (sq_name s) (sq_start s) v (sq_increment s) (sq_min s) (sq_max s) (sq_cycle s).

Record ViewInfo := mkViewInfo {
  vw_name : string;
  vw_query : string;
  vw_columns : list string;
  vw_materialized : bool;
  vw_last_refresh : Z
}.

(** The counters of functions and triggers stay 0. *)
Record CatalogStats := mkCatalogStats {
  table_count : Z;
  index_count : Z;
  view_count : Z;
  sequence_count : Z;
  cat_cache_hits : Z;
  cat_cache_misses : Z
}.
Definition CatalogStats_zero : CatalogStats := mkCatalogStats 0 0 0 0 0 0.
Definition count_tables (d : Z) (s : CatalogStats) : CatalogStats :=
  mkCatalogStats (wrap 64 (table_count s + d)) (index_count s) (view_count s) (sequence_count s)
    (cat_cache_hits s) (cat_cache_misses s).
Definition count_indexes (d : Z) (s : CatalogStats) : CatalogStats :=
  mkCatalogStats (table_count s) (wrap 64 (index_count s + d)) (view_count s) (sequence_count s)
    (cat_cache_hits s) (cat_cache_misses s).
Definition count_views (d : Z) (s : CatalogStats) : CatalogStats :=
  mkCatalogStats (table_count s) (index_count s) (wrap 64 (view_count s + d)) (sequence_count s)
    (cat_cache_hits s) (cat_cache_misses s).
Definition count_sequences (d : Z) (s : CatalogStats) : CatalogStats :=
  mkCatalogStats (table_count s) (index_count s) (view_count s) (wrap 64 (sequence_count s + d))
    (cat_cache_hits s) (cat_cache_misses s).
Definition count_lookup (hit : bool) (s : CatalogStats) : CatalogStats :=
  mkCatalogStats (table_count s) (index_count s) (view_count s) (sequence_count s)
    (if hit then wrap 64 (cat_cache_hits s + 1) else cat_cache_hits s)
    (if hit then cat_cache_misses s else wrap 64 (cat_cache_misses s + 1)).

Record CacheEntry := mkCacheEntry { ce_timestamp : Z; ce_object : Z }.

Inductive LockState := FREE | SHARED | UNIQUE.

Record Catalog := mkCatalog {
  tables : gmap string TableSchema;
  table_id_map : gmap Z string;
  cat_indexes : gmap string Z;
  index_id_map : gmap Z string;
  table_indexes : gmap string (list Z);
  constraints : gmap string ConstraintInfo;
  table_constraints : gmap string (list string);
  sequences : gmap string SequenceInfo;
  views : gmap string ViewInfo;
  next_table_id : Z;
  next_index_id : Z;
  object_cache : gmap string CacheEntry;
  cat_stats : CatalogStats;
  rw_mutex : LockState
}.

Definition Catalog_new : Catalog :=
  mkCatalog ∅ ∅ ∅ ∅ ∅ ∅ ∅ ∅ ∅ 1 1 ∅ CatalogStats_zero FREE.

Definition set_tables (ts : gmap string TableSchema) (ids : gmap Z string) (c : Catalog) : Catalog :=
  mkCatalog ts ids (cat_indexes c) (index_id_map c) (table_indexes c) (constraints c)
    (table_constraints c) (sequences c) (views c) (next_table_id c) (next_index_id c)
    (object_cache c) (cat_stats c) (rw_mutex c).
Definition set_indexes (ixs : gmap string Z) (ids : gmap Z string) (ti : gmap string (list Z))
    (c : Catalog) : Catalog :=
  mkCatalog (tables c) (table_id_map c) ixs ids ti (constraints c) (table_constraints c)
    (sequences c) (views c) (next_table_id c) (next_index_id c) (object_cache c) (cat_stats c)
    (rw_mutex c).
Definition set_constraints (cs : gmap string ConstraintInfo) (tc : gmap string (list string))
    (c : Catalog) : Catalog :=
  mkCatalog (tables c) (table_id_map c) (cat_indexes c) (index_id_map c) (table_indexes c) cs tc
    (sequences c) (views c) (next_table_id c) (next_index_id c) (object_cache c) (cat_stats c)
    (rw_mutex c).
Definition set_sequences (ss : gmap string SequenceInfo) (c : Catalog) : Catalog :=
  mkCatalog (tables c) (table_id_map c) (cat_indexes c) (index_id_map c) (table_indexes c)
    (constraints c) (table_constraints c) ss (views c) (next_table_id c) (next_index_id c)
    (object_cache c) (cat_stats c) (rw_mutex c).
Definition set_views (vs : gmap string ViewInfo) (c : Catalog) : Catalog :=
  mkCatalog (tables c) (table_id_map c) (cat_indexes c) (index_id_map c) (table_indexes c)
    (constraints c) (table_constraints c) (sequences c) vs (next_table_id c) (next_index_id c)
    (object_cache c) (cat_stats c) (rw_mutex c).
Definition set_next_ids (t i : Z) (c : Catalog) : Catalog :=
  mkCatalog (tables c) (table_id_map c) (cat_indexes c) (index_id_map c) (table_indexes c)
    (constraints c) (table_constraints c) (sequences c) (views c) t i (object_cache c)
    (cat_stats c) (rw_mutex c).
Definition set_cache (m : gmap string CacheEntry) (c : Catalog) : Catalog :=
  mkCatalog (tables c) (table_id_map c) (cat_indexes c) (index_id_map c) (table_indexes c)
    (constraints c) (table_constraints c) (sequences c) (views c) (next_table_id c)
    (next_index_id c) m (cat_stats c) (rw_mutex c).
Definition set_cat_stats (f : CatalogStats → CatalogStats) (c : Catalog) : Catalog :=
  mkCatalog (tables c) (table_id_map c) (cat_indexes c) (index_id_map c) (table_indexes c)
    (constraints c) (table_constraints c) (sequences c) (views c) (next_table_id c)
    (next_index_id c) (object_cache c) (f (cat_stats c)) (rw_mutex c).
Definition set_rw_mutex (l : LockState) (c : Catalog) : Catalog :=
  mkCatalog (tables c) (table_id_map c) (cat_indexes c) (index_id_map c) (table_indexes c)
    (constraints c) (table_constraints c) (sequences c) (views c) (next_table_id c)
    (next_index_id c) (object_cache c) (cat_stats c) l.

(** ** The monad *)

Definition M (A : Type) : Type := Catalog → option (Catalog * option A).

#[export] Instance M_ret : MRet M := λ A a c, Some (c, Some a).
#[export] Instance M_bind : MBind M := λ A B f m c,
  match m c with
  | Some (c', Some a) => f a c'
  | Some (c', None) => Some (c', None)
  | None => None
  end.

Definition stuck {A} : M A := λ _, None.
Definition throw {A} : M A := λ c, Some (c, None).
Definition get {A} (f : Catalog → A) : M A := λ c, Some (c, Some (f c)).
Definition modify (f : Catalog → Catalog) : M () := λ c, Some (f c, Some ()).
(** The result of a conversion that may throw. *)
Definition convert {A} (o : option A) : M A := match o with Some a => mret a | None => throw end.

(** [std::unique_lock] or [std::shared_lock] around [m]; the lock is released by an exception too. *)
Definition locked {A} (l : LockState) (m : M A) : M A := λ c,
  match rw_mutex c with
  | FREE =>
      match m (set_rw_mutex l c) with
      | Some (c', r) => Some (set_rw_mutex FREE c', r)
      | None => None
      end
  | _ => None
  end.

Fixpoint for_each {A} (l : list A) (f : A → M ()) : M () :=
  match l with
  | [] => mret ()
  | a :: l' => f a ;; for_each l' f
  end.

(** ** Tables *)

(** Which calls on a directory succeed. *)
Record FileSystem := mkFileSystem {
  create_ok : string → bool;
  remove_ok : string → bool;
  rename_ok : string → string → bool
}.

Definition set_schema_id (id : Z) (s : TableSchema) : TableSchema :=
  mkTableSchema id (ts_name s) (columns s) (primary_key s) (indexes s) (options s).
Definition set_schema_name (name : string) (s : TableSchema) : TableSchema :=
  mkTableSchema (ts_id s) name (columns s) (primary_key s) (indexes s) (options s).
Definition set_schema_indexes (m : gmap string Z) (s : TableSchema) : TableSchema :=
  mkTableSchema (ts_id s) (ts_name s) (columns s) (primary_key s) m (options s).

Definition getNextTableId : M Z := λ c,
  Some (set_next_ids (wrap 32 (next_table_id c + 1)) (next_index_id c) c, Some (next_table_id c)).
Definition getNextIndexId : M Z := λ c,
  Some (set_next_ids (next_table_id c) (wrap 32 (next_index_id c + 1)) c, Some (next_index_id c)).

Definition table_dir (name : string) : string := "data/tables/" +:+ name.

Definition getIndexName (id : Z) : M string :=
  locked SHARED (ids ← get index_id_map; mret (default ""%string (ids !! id))).

(** The two prefixes and the list of dependencies. *)
Definition getDependencies (object_name : string) : M (list string) :=
  vs ← get views;
  let of_views := omap (λ kv, if decide (is_Some (find_text object_name (vw_query kv.2))) then Some ("VIEW:" +:+ kv.1) else None)
                    (map_to_list vs) in
  cs ← get constraints;
  let of_constraints :=
    omap (λ kv, if decide (ci_table_name kv.2 = object_name ∨ ci_ref_table kv.2 = object_name)
                then Some ("CONSTRAINT:" +:+ kv.1) else None) (map_to_list cs) in
  ti ← get table_indexes;
  of_indexes ← (fix visit (ids : list Z) : M (list string) :=
    match ids with
    | [] => mret []
    | id :: ids' => name ← getIndexName id; rest ← visit ids'; mret (("INDEX:" +:+ name) :: rest)
    end) (default [] (ti !! object_name));
  mret (of_views ++ of_constraints ++ of_indexes).

Definition canDrop (object_name : string) : M bool :=
  deps ← getDependencies object_name; mret (match deps with [] => true | _ => false end).

(** [index_id_map_[idx_id]] makes an empty name when there is none. *)
Definition erase_index (id : Z) (c : Catalog) : Catalog :=
  let name := default ""%string (index_id_map c !! id) in
  set_indexes (delete name (cat_indexes c)) (delete id (index_id_map c)) (table_indexes c) c.

Definition erase_table_indexes (name : string) (c : Catalog) : Catalog :=
  match table_indexes c !! name with
  | None => c
  | Some ids =>
      let c := foldl (λ c id, erase_index id c) c ids in
      set_indexes (cat_indexes c) (index_id_map c) (delete name (table_indexes c)) c
  end.

Definition erase_table_constraints (name : string) (c : Catalog) : Catalog :=
  match table_constraints c !! name with
  | None => c
  | Some names =>
      set_constraints (foldl (λ m n, delete n m) (constraints c) names)
        (delete name (table_constraints c)) c
  end.

Section Tables.
Variable fs : FileSystem.

Definition createTable (name : string) (schema : TableSchema) : M StatusCode :=
  locked UNIQUE (
    ts ← get tables;
    match ts !! name with
    | Some _ => mret StatusCode.ALREADY_EXISTS
    | None =>
        id ← (if decide (ts_id schema = 0) then getNextTableId else mret (ts_id schema));
        let new_schema := set_schema_id id schema in
        modify (λ c, set_tables (<[name := new_schema]> (tables c)) (<[id := name]> (table_id_map c)) c) ;;
        if create_ok fs (table_dir name) then
          modify (set_cat_stats (count_tables 1)) ;; mret StatusCode.OK
        else throw
    end).

Definition dropTable (name : string) : M StatusCode :=
  locked UNIQUE (
    ts ← get tables;
    match ts !! name with
    | None => mret StatusCode.NOT_FOUND
    | Some schema =>
        can ← canDrop name;
        if negb can then mret StatusCode.ERROR
        else
          modify (erase_table_indexes name) ;;
          modify (erase_table_constraints name) ;;
          modify (λ c, set_tables (delete name (tables c)) (delete (ts_id schema) (table_id_map c)) c) ;;
          if remove_ok fs (table_dir name) then
            modify (set_cat_stats (count_tables (-1))) ;; mret StatusCode.OK
          else throw
    end).

Definition renameTable (old_name new_name : string) : M StatusCode :=
  locked UNIQUE (
    ts ← get tables;
    match ts !! old_name with
    | None => mret StatusCode.NOT_FOUND
    | Some schema =>
        match ts !! new_name with
        | Some _ => mret StatusCode.ALREADY_EXISTS
        | None =>
            let schema := set_schema_name new_name schema in
            modify (λ c, set_tables (<[new_name := schema]> (delete old_name (tables c)))
                           (<[ts_id schema := new_name]> (table_id_map c)) c) ;;
            if rename_ok fs (table_dir old_name) (table_dir new_name) then mret StatusCode.OK
            else throw
        end
    end).

End Tables.

Definition getTable (name : string) : M (option TableSchema) :=
  locked SHARED (
    ts ← get tables;
    modify (set_cat_stats (count_lookup (bool_decide (is_Some (ts !! name))))) ;;
    mret (ts !! name)).

Definition getTableById (id : Z) : M (option TableSchema) :=
  locked SHARED (
    ids ← get table_id_map;
    match ids !! id with
    | Some name => getTable name
    | None => mret None
    end).

Definition listTables : M (list string) := locked SHARED (ts ← get tables; mret (map_to_list ts).*1).
Definition getAllTables : M (list TableSchema) :=
  locked SHARED (ts ← get tables; mret (map_to_list ts).*2).

(** ** Indexes *)

Definition index_columns (id : Z) (cols : list string) (s : TableSchema) : TableSchema :=
  set_schema_indexes (foldl (λ m col, <[col := id]> m) (indexes s) cols) s.

Definition createIndex (name table : string) (cols : list string) (unique : bool) : M StatusCode :=
  locked UNIQUE (
    ixs ← get cat_indexes;
    match ixs !! name with
    | Some _ => mret StatusCode.ALREADY_EXISTS
    | None =>
        ts ← get tables;
        match ts !! table with
        | None => mret StatusCode.NOT_FOUND
        | Some schema =>
            id ← getNextIndexId;
            modify (λ c, set_indexes (<[name := id]> (cat_indexes c)) (<[id := name]> (index_id_map c))
              (<[table := default [] (table_indexes c !! table) ++ [id]]> (table_indexes c)) c) ;;
            modify (λ c, set_tables (<[table := index_columns id cols schema]> (tables c)) (table_id_map c) c) ;;
            modify (set_cat_stats (count_indexes 1)) ;; mret StatusCode.OK
        end
    end).

(** The schemas without the index. *)
Definition forget_index (id : Z) (s : TableSchema) : TableSchema :=
  set_schema_indexes (filter (λ kv, kv.2 ≠ id) (indexes s)) s.

(** [std::find] and [erase] *)
Fixpoint erase_first {A} `{EqDecision A} (x : A) (l : list A) : list A :=
  match l with
  | [] => []
  | y :: l' => if decide (y = x) then l' else y :: erase_first x l'
  end.

(** The loop over the lists of the tables stops at the first one with the index. *)
Fixpoint erase_from_lists (id : Z) (lists : list (string * list Z)) (ti : gmap string (list Z))
  : gmap string (list Z) :=
  match lists with
  | [] => ti
  | (t, ids) :: lists' =>
      if decide (id ∈ ids) then <[t := erase_first id ids]> ti else erase_from_lists id lists' ti
  end.

Definition dropIndex (name : string) : M StatusCode :=
  locked UNIQUE (
    ixs ← get cat_indexes;
    match ixs !! name with
    | None => mret StatusCode.NOT_FOUND
    | Some id =>
        modify (λ c, set_tables (forget_index id <$> tables c) (table_id_map c) c) ;;
        modify (λ c, set_indexes (delete name (cat_indexes c)) (delete id (index_id_map c))
          (erase_from_lists id (map_to_list (table_indexes c)) (table_indexes c)) c) ;;
        modify (set_cat_stats (count_indexes (-1))) ;; mret StatusCode.OK
    end).

Definition dropIndex_id (id : Z) : M StatusCode :=
  locked UNIQUE (
    ids ← get index_id_map;
    match ids !! id with
    | None => mret StatusCode.NOT_FOUND
    | Some name => dropIndex name
    end).

Definition getIndexId (name : string) : M Z :=
  locked SHARED (ixs ← get cat_indexes; mret (default 0 (ixs !! name))).

Definition listIndexes (table : string) : M (list string) :=
  locked SHARED (
    ti ← get table_indexes;
    (fix visit (ids : list Z) : M (list string) :=
       match ids with
       | [] => mret []
       | id :: ids' => name ← getIndexName id; rest ← visit ids'; mret (name :: rest)
       end) (default [] (ti !! table))).

(** ** Constraints *)

Definition addConstraint (table : string) (k : ConstraintInfo) : M StatusCode :=
  locked UNIQUE (
    cs ← get constraints;
    match cs !! ci_name k with
    | Some _ => mret StatusCode.ALREADY_EXISTS
    | None =>
        modify (λ c, set_constraints (<[ci_name k := k]> (constraints c))
          (<[table := default [] (table_constraints c !! table) ++ [ci_name k]]> (table_constraints c)) c) ;;
        mret StatusCode.OK
    end).

Definition dropConstraint (table name : string) : M StatusCode :=
  locked UNIQUE (
    cs ← get constraints;
    match cs !! name with
    | None => mret StatusCode.NOT_FOUND
    | Some _ =>
        modify (λ c, set_constraints (delete name (constraints c))
          (alter (erase_first name) table (table_constraints c)) c) ;;
        mret StatusCode.OK
    end).

Definition getConstraints (table : string) : M (list ConstraintInfo) :=
  locked SHARED (
    tc ← get table_constraints; cs ← get constraints;
    mret (omap (λ name, cs !! name) (default [] (tc !! table)))).

(** ** Sequences and views *)

Definition createSequence (s : SequenceInfo) : M StatusCode :=
  locked UNIQUE (
    ss ← get sequences;
    match ss !! sq_name s with
    | Some _ => mret StatusCode.ALREADY_EXISTS
    | None =>
        modify (λ c, set_sequences (<[sq_name s := s]> (sequences c)) c) ;;
        modify (set_cat_stats (count_sequences 1)) ;; mret StatusCode.OK
    end).

Definition dropSequence (name : string) : M StatusCode :=
  locked UNIQUE (
    ss ← get sequences;
    match ss !! name with
    | None => mret StatusCode.NOT_FOUND
    | Some _ =>
        modify (λ c, set_sequences (delete name (sequences c)) c) ;;
        modify (set_cat_stats (count_sequences (-1))) ;; mret StatusCode.OK
    end).

(** The next state of a sequence; the overflow of an [int64_t] is undefined. *)
Definition advance_sequence (s : SequenceInfo) : option SequenceInfo :=
  let next := sq_current s + sq_increment s in
  if decide (fits_signed 64 next) then
    Some (set_current (if sq_max s <? next then if sq_cycle s then sq_min s else sq_max s else next) s)
  else None.

Definition nextValue (name : string) : M Z :=
  locked UNIQUE (
    ss ← get sequences;
    match ss !! name with
    | None => mret (-1)
    | Some s =>
        match advance_sequence s with
        | None => stuck
        | Some s' =>
            modify (λ c, set_sequences (<[name := s']> (sequences c)) c) ;; mret (sq_current s)
        end
    end).

Definition getSequence (name : string) : M (option SequenceInfo) :=
  locked SHARED (ss ← get sequences; mret (ss !! name)).

Definition createView (v : ViewInfo) : M StatusCode :=
  locked UNIQUE (
    vs ← get views;
    match vs !! vw_name v with
    | Some _ => mret StatusCode.ALREADY_EXISTS
    | None =>
        modify (λ c, set_views (<[vw_name v := v]> (views c)) c) ;;
        modify (set_cat_stats (count_views 1)) ;; mret StatusCode.OK
    end).

Definition dropView (name : string) : M StatusCode :=
  locked UNIQUE (
    vs ← get views;
    match vs !! name with
    | None => mret StatusCode.NOT_FOUND
    | Some _ =>
        modify (λ c, set_views (delete name (views c)) c) ;;
        modify (set_cat_stats (count_views (-1))) ;; mret StatusCode.OK
    end).

Definition getView (name : string) : M (option ViewInfo) :=
  locked SHARED (vs ← get views; mret (vs !! name)).
Definition listViews : M (list string) := locked SHARED (vs ← get views; mret (map_to_list vs).*1).

Definition tableExists (name : string) : M bool :=
  locked SHARED (ts ← get tables; mret (bool_decide (is_Some (ts !! name)))).
Definition indexExists (name : string) : M bool :=
  locked SHARED (ixs ← get cat_indexes; mret (bool_decide (is_Some (ixs !! name)))).
Definition sequenceExists (name : string) : M bool :=
  locked SHARED (ss ← get sequences; mret (bool_decide (is_Some (ss !! name)))).
Definition viewExists (name : string) : M bool :=
  locked SHARED (vs ← get views; mret (bool_decide (is_Some (vs !! name)))).

Definition cat_resetStats : M () := modify (set_cat_stats (λ _, CatalogStats_zero)).

(** ** The cache of objects, under its own mutex *)

Definition clearCache : M () := modify (set_cache ∅).
Definition invalidateTable (name : string) : M () :=
  modify (λ c, set_cache (delete ("table:" +:+ name) (object_cache c)) c).

(** The first entry with the least time. *)
Definition oldest_entry (m : gmap string CacheEntry) : option string :=
  match map_to_list m with
  | [] => None
  | e :: l => Some (foldl (λ best x, if ce_timestamp x.2 <? ce_timestamp best.2 then x else best) e l).1
  end.

Definition updateCache (now : Z) (key : string) (obj : Z) : M () := modify (λ c,
  let m := <[key := mkCacheEntry now obj]> (object_cache c) in
  set_cache
    (if (1000 <? size m)%nat then match oldest_entry m with Some k => delete k m | None => m end else m) c).

Definition getFromCache (key : string) : M (option Z) :=
  m ← get object_cache; mret (ce_object <$> m !! key).

(** ** Saving *)

Definition json_object (l : list (string * Json)) : Json := JObject (list_to_map l).
Definition json_strings (l : list string) : Json := JArray (JString <$> l).

Definition json_column (col : ColumnSchema) : Json :=
  json_object [("id", JNumber (col_id col)); ("name", JString (col_name col));
    ("type", JNumber (type_code (col_type col))); ("length", JNumber (col_length col));
    ("nullable", JBoolean (nullable col)); ("is_primary_key", JBoolean (is_primary_key col))].

Definition json_table (kv : string * TableSchema) : Json :=
  json_object [("name", JString kv.1); ("id", JNumber (ts_id kv.2));
    ("columns", JArray (json_column <$> columns kv.2));
    ("primary_key", JArray (JNumber <$> primary_key kv.2))].

Definition json_index (kv : string * Z) : Json :=
  json_object [("name", JString kv.1); ("id", JNumber kv.2)].

Definition json_constraint (kv : string * ConstraintInfo) : Json :=
  json_object [("name", JString kv.1); ("type", JNumber (constraint_code (ci_type kv.2)));
    ("table", JString (ci_table_name kv.2)); ("columns", json_strings (ci_columns kv.2));
    ("ref_table", JString (ci_ref_table kv.2)); ("ref_columns", json_strings (ci_ref_columns kv.2));
    ("check_expr", JString (ci_check_expr kv.2))].

Definition json_sequence (kv : string * SequenceInfo) : Json :=
  json_object [("name", JString kv.1); ("start", JNumber (sq_start kv.2));
    ("current", JNumber (sq_current kv.2)); ("increment", JNumber (sq_increment kv.2));
    ("min", JNumber (sq_min kv.2)); ("max", JNumber (sq_max kv.2)); ("cycle", JBoolean (sq_cycle kv.2))].

Definition json_view (kv : string * ViewInfo) : Json :=
  json_object [("name", JString kv.1); ("query", JString (vw_query kv.2));
    ("columns", json_strings (vw_columns kv.2)); ("materialized", JBoolean (vw_materialized kv.2))].

Definition catalog_json (c : Catalog) : Json :=
  json_object [("version", JNumber 1); ("next_table_id", JNumber (next_table_id c));
    ("next_index_id", JNumber (next_index_id c));
    ("tables", JArray (json_table <$> map_to_list (tables c)));
    ("indexes", JArray (json_index <$> map_to_list (cat_indexes c)));
    ("constraints", JArray (json_constraint <$> map_to_list (constraints c)));
    ("sequences", JArray (json_sequence <$> map_to_list (sequences c)));
    ("views", JArray (json_view <$> map_to_list (views c)))].

(** ** Loading *)

(** [j[key]] of a constant object: a missing key is undefined, another value throws. *)
Definition const_member (key : string) (j : Json) : M Json :=
  match j with
  | JObject m => match m !! key with Some x => mret x | None => stuck end
  | _ => throw
  end.

(** [j.value(key, d)] *)
Definition value_or {A} (key : string) (d : A) (f : Json → option A) (j : Json) : M A :=
  match j with
  | JObject m => match m !! key with Some x => convert (f x) | None => mret d end
  | _ => throw
  end.

Definition as_bool (j : Json) : option bool := match j with JBoolean b => Some b | _ => None end.
(** Numbers in the types they are stored in. *)
Definition as_unsigned (w : Z) (j : Json) : option Z := wrap w <$> as_number j.
Definition as_signed (w : Z) (j : Json) : option Z := to_signed w <$> as_number j.

(** [x = j[key];] *)
Definition read {A} (key : string) (f : Json → option A) (j : Json) : M A :=
  x ← const_member key j; convert (f x).

Fixpoint map_m {A B} (f : A → M B) (l : list A) : M (list B) :=
  match l with
  | [] => mret []
  | a :: l' => b ← f a; bs ← map_m f l'; mret (b :: bs)
  end.

(** The length passes through an [int]. *)
Definition load_column (j : Json) : M ColumnSchema :=
  id ← read "id" (as_unsigned 16) j;
  name ← read "name" as_string j;
  type ← read "type" (as_signed 32) j;
  len ← value_or "length" 0 (as_signed 32) j;
  nul ← value_or "nullable" true as_bool j;
  pk ← value_or "is_primary_key" false as_bool j;
  mret (mkColumnSchema id name (code_type type) (wrap 32 len) 10 0 nul pk false false "" "").

Definition load_table (j : Json) : M () :=
  id ← read "id" (as_unsigned 32) j;
  name ← read "name" as_string j;
  cols_json ← const_member "columns" j;
  cols ← map_m load_column (elements_of cols_json);
  pk ← read "primary_key" (as_list (as_unsigned 16)) j;
  modify (λ c, set_tables (<[name := mkTableSchema id name cols pk ∅ ∅]> (tables c)) (table_id_map c) c).

Definition load_index (j : Json) : M () :=
  name ← read "name" as_string j;
  id ← read "id" (as_unsigned 32) j;
  modify (λ c, set_indexes (<[name := id]> (cat_indexes c)) (<[id := name]> (index_id_map c))
                 (table_indexes c) c).

Definition load_constraint (j : Json) : M () :=
  name ← read "name" as_string j;
  type ← read "type" (as_signed 32) j;
  table ← read "table" as_string j;
  cols ← read "columns" (as_list as_string) j;
  ref ← value_or "ref_table" "" as_string j;
  refs ← value_or "ref_columns" [] (as_list as_string) j;
  check ← value_or "check_expr" "" as_string j;
  modify (λ c, set_constraints
    (<[name := mkConstraintInfo (code_constraint type) name table cols ref refs check false false]>
       (constraints c))
    (<[table := default [] (table_constraints c !! table) ++ [name]]> (table_constraints c)) c).

Definition load_sequence (j : Json) : M () :=
  name ← read "name" as_string j;
  start ← read "start" (as_signed 64) j;
  current ← read "current" (as_signed 64) j;
  increment ← read "increment" (as_signed 64) j;
  min ← read "min" (as_signed 64) j;
  max ← read "max" (as_signed 64) j;
  cycle ← read "cycle" as_bool j;
  modify (λ c, set_sequences (<[name := mkSequenceInfo name start current increment min max cycle]>
                                (sequences c)) c).

Definition load_view (j : Json) : M () :=
  name ← read "name" as_string j;
  query ← read "query" as_string j;
  cols ← read "columns" (as_list as_string) j;
  mat ← value_or "materialized" false as_bool j;
  modify (λ c, set_views (<[name := mkViewInfo name query cols mat 0]> (views c)) c).

Definition buildIdMaps : M () := modify (λ c,
  let c := set_tables (tables c)
    (foldl (λ m kv, <[ts_id kv.2 := kv.1]> m) (table_id_map c) (map_to_list (tables c))) c in
  set_indexes (cat_indexes c)
    (foldl (λ m kv, <[kv.2 := kv.1]> m) (index_id_map c) (map_to_list (cat_indexes c)))
    (table_indexes c) c).

(** [if (j.contains(key)) for (auto& x : j[key])] *)
Definition load_optional (key : string) (m : gmap string Json) (f : Json → M ()) : M () :=
  match m !! key with Some j => for_each (elements_of j) f | None => mret () end.

(** From the value read; null becomes an object without members. *)
Definition load_json (j : Json) : M () :=
  match j with
  | JObject m =>
      version ← convert (as_signed 32 (member "version" m));
      if decide (version = 1) then
        t ← convert (as_unsigned 32 (member "next_table_id" m));
        modify (λ c, set_next_ids t (next_index_id c) c) ;;
        i ← convert (as_unsigned 32 (member "next_index_id" m));
        modify (λ c, set_next_ids (next_table_id c) i c) ;;
        for_each (elements_of (member "tables" m)) load_table ;;
        for_each (elements_of (member "indexes" m)) load_index ;;
        load_optional "constraints" m load_constraint ;;
        load_optional "sequences" m load_sequence ;;
        load_optional "views" m load_view ;;
        buildIdMaps
      else throw
  | _ => throw
  end.

Section Text.
Variable json_dump : Json → string.
Variable json_parse : string → option Json.

Definition cat_serialize (c : Catalog) : string := json_dump (catalog_json c).
Definition cat_deserialize (s : string) : M () := j ← convert (json_parse s); load_json j.

(** [file] is the text of catalog.json, if it can be opened. *)
Definition load (file : option string) : M StatusCode := λ c,
  match file with
  | None => Some (c, Some StatusCode.NOT_FOUND)
  | Some s =>
      match cat_deserialize s c with
      | Some (c', Some _) => Some (c', Some StatusCode.OK)
      | Some (c', None) => Some (c', Some StatusCode.ERROR)
      | None => None
      end
  end.

(** The text written, if the file can be opened. *)
Definition save (can_open : bool) (c : Catalog) : option string * StatusCode :=
  if can_open then (Some (cat_serialize c), StatusCode.OK) else (None, StatusCode.IO_ERROR).

Definition catalog_init (file : option string) : M bool :=
  st ← load file; mret (bool_decide (st = StatusCode.OK)).

Definition catalog_shutdown (can_open : bool) (c : Catalog) : option string := (save can_open c).1.

End Text.
