(* ===== verification/CatalogProofs.v ===== *)
(** * CatalogProofs: correctness of the catalog

    The invariant of its maps, the calls that lock the mutex twice, dropping tables, sequences,
    and what a saved catalog is loaded as. *)

From stdpp Require Import gmap strings list.
From S2P Require Import Prelude CxxString CxxStream Json Types Catalog.

Open Scope Z_scope.

(** ** Steps of the monad *)

Lemma bind_get {A B} (f : Catalog → A) (k : A → M B) c : (get f ≫= k) c = k (f c) c.
Proof. done. Qed.
Lemma bind_modify {B} (f : Catalog → Catalog) (k : () → M B) c : (modify f ≫= k) c = k () (f c).
Proof. done. Qed.
Lemma bind_ret {A B} (a : A) (k : A → M B) c : (mret a ≫= k) c = k a c.
Proof. done. Qed.
Lemma bind_table_id {B} (k : Z → M B) c :
  (getNextTableId ≫= k) c =
  k (next_table_id c) (set_next_ids (wrap 32 (next_table_id c + 1)) (next_index_id c) c).
Proof. done. Qed.
Lemma bind_index_id {B} (k : Z → M B) c :
  (getNextIndexId ≫= k) c =
  k (next_index_id c) (set_next_ids (next_table_id c) (wrap 32 (next_index_id c + 1)) c).
Proof. done. Qed.
Lemma locked_free {A} l (m : M A) c : rw_mutex c = FREE →
  locked l m c = match m (set_rw_mutex l c) with
                 | Some (c', r) => Some (set_rw_mutex FREE c', r)
                 | None => None
                 end.
Proof. unfold locked. by intros ->. Qed.
Lemma locked_held {A} l (m : M A) c : rw_mutex c ≠ FREE → locked l m c = None.
Proof. unfold locked. by destruct (rw_mutex c). Qed.

(** Evaluates the steps; the maps are left alone. *)
Ltac run :=
  repeat first
    [ rewrite bind_get | rewrite bind_modify | rewrite bind_ret | rewrite bind_table_id
    | rewrite bind_index_id ];
  cbn [tables table_id_map cat_indexes index_id_map table_indexes constraints table_constraints
       sequences views next_table_id next_index_id object_cache cat_stats rw_mutex set_rw_mutex
       set_tables set_indexes set_constraints set_sequences set_views set_next_ids set_cat_stats].

(** ** The invariant *)

Record cat_ok (c : Catalog) : Prop := mk_cat_ok {
  co_lock : rw_mutex c = FREE;
  co_table : ∀ n s, tables c !! n = Some s → table_id_map c !! ts_id s = Some n;
  co_id : ∀ i n, table_id_map c !! i = Some n →
    0 < i < next_table_id c ∧ ∃ s, tables c !! n = Some s ∧ ts_id s = i;
  co_index : ∀ n i, cat_indexes c !! n = Some i → index_id_map c !! i = Some n;
  co_index_id : ∀ i n, index_id_map c !! i = Some n →
    0 < i < next_index_id c ∧ cat_indexes c !! n = Some i;
  co_lists : ∀ t l i, table_indexes c !! t = Some l → i ∈ l → is_Some (index_id_map c !! i);
  co_nodup : ∀ t l, table_indexes c !! t = Some l → NoDup l;
  co_one : ∀ t t' l l' i, table_indexes c !! t = Some l → table_indexes c !! t' = Some l' →
    i ∈ l → i ∈ l' → t = t';
  co_refs : ∀ n s col i, tables c !! n = Some s → indexes s !! col = Some i → is_Some (index_id_map c !! i)
}.

(** What the invariant does not depend on. *)
Lemma cat_ok_same c c' :
  rw_mutex c' = FREE → tables c' = tables c → table_id_map c' = table_id_map c →
  cat_indexes c' = cat_indexes c → index_id_map c' = index_id_map c →
  table_indexes c' = table_indexes c → next_table_id c' = next_table_id c →
  next_index_id c' = next_index_id c → cat_ok c → cat_ok c'.
Proof.
  intros Hl H1 H2 H3 H4 H5 H6 H7 []. constructor; rewrite ?H1, ?H2, ?H3, ?H4, ?H5, ?H6, ?H7; done.
Qed.

(** *** Calls that leave tables and indexes alone *)

Definition same_tables (c c' : Catalog) : Prop :=
  rw_mutex c' = rw_mutex c ∧ tables c' = tables c ∧ table_id_map c' = table_id_map c ∧
  cat_indexes c' = cat_indexes c ∧ index_id_map c' = index_id_map c ∧
  table_indexes c' = table_indexes c ∧ next_table_id c' = next_table_id c ∧
  next_index_id c' = next_index_id c.

Definition keeps {A} (m : M A) : Prop := ∀ c c' r, m c = Some (c', r) → same_tables c c'.

Lemma keeps_ret {A} (a : A) : keeps (mret a).
Proof. intros c c' r [= <- _]. done. Qed.
Lemma keeps_stuck {A} : keeps (stuck : M A).
Proof. done. Qed.
Lemma keeps_get {A} (f : Catalog → A) : keeps (get f).
Proof. intros c c' r [= <- _]. done. Qed.
Lemma keeps_modify f : (∀ c, same_tables c (f c)) → keeps (modify f).
Proof. intros Hf c c' r [= <- _]. done. Qed.
Lemma keeps_bind {A B} (m : M A) (k : A → M B) : keeps m → (∀ a, keeps (k a)) → keeps (m ≫= k).
Proof.
  intros Hm Hk c c' r. unfold mbind, M_bind. destruct (m c) as [[c1 [a|]]|] eqn:E; [| |done].
  - intros H2%Hk. apply Hm in E. unfold same_tables in *. intuition congruence.
  - intros [= <- <-]. by eapply Hm.
Qed.
Lemma keeps_locked {A} l (m : M A) : keeps m → keeps (locked l m).
Proof.
  intros Hm c c' r. unfold locked. destruct (rw_mutex c) eqn:Hl; [|done..].
  destruct (m (set_rw_mutex l c)) as [[c1 r1]|] eqn:E; [|done]. intros [= <- <-].
  apply Hm in E. unfold same_tables in *. cbn in *. intuition congruence.
Qed.

Ltac keeps :=
  repeat first
    [ apply keeps_locked | apply keeps_bind; [|intros ?] | apply keeps_ret | apply keeps_get
    | apply keeps_stuck | apply keeps_modify; by intros ? | case_match ].

Section Steps.
Variable fs : FileSystem.

Lemma createTable_ok name schema c c' r :
  cat_ok c → ts_id schema = 0 → indexes schema = ∅ → 0 < next_table_id c < 2 ^ 32 - 1 →
  createTable fs name schema c = Some (c', r) → cat_ok c' ∧ next_table_id c ≤ next_table_id c' ∧ next_index_id c' = next_index_id c.
Proof.
  intros Hok Hid0 Hix Hnext. unfold createTable. rewrite locked_free by apply Hok. run.
  destruct (tables c !! name) as [s|] eqn:Hn.
  { intros [= <- <-]. split; [|cbn; split; [lia|done]]. by apply (cat_ok_same c). }
  rewrite decide_True by done. run. rewrite wrap_small by (unfold fits; lia).
  set (c1 := set_tables _ _ _). assert (cat_ok (set_rw_mutex FREE c1)) as Hok1.
  { destruct Hok as [Hl Ht Hi Hx Hxi Hls Hnd Ho Hr]. subst c1.
    assert (table_id_map c !! next_table_id c = None) as Hfree.
    { destruct (table_id_map c !! next_table_id c) as [n|] eqn:E; [|done]. destruct (Hi _ _ E). lia. }
    constructor; cbn; [done|..|done|done|done|done|done|].
    - intros n s. destruct (decide (n = name)) as [->|Hne].
      + rewrite lookup_insert_eq. intros [= <-]. cbn. by rewrite lookup_insert_eq.
      + rewrite lookup_insert_ne by done. intros Hs. pose proof (Ht _ _ Hs) as Hm.
        rewrite lookup_insert_ne; [done|]. intros E. rewrite <- E in Hm. by rewrite Hfree in Hm.
    - intros i n. destruct (decide (i = next_table_id c)) as [->|Hne].
      + rewrite lookup_insert_eq. intros [= <-]. split; [lia|]. rewrite lookup_insert_eq. by eexists.
      + rewrite lookup_insert_ne by done. intros Hin. destruct (Hi _ _ Hin) as (? & s & Hs & Hsi).
        split; [lia|]. exists s. rewrite lookup_insert_ne; [done|]. intros <-. congruence.
    - intros n s col i. destruct (decide (n = name)) as [->|Hne].
      + rewrite lookup_insert_eq. intros [= <-]. cbn. by rewrite Hix, lookup_empty.
      + rewrite lookup_insert_ne by done. apply Hr. }
  destruct (create_ok fs (table_dir name)); cbn; intros [= <- <-]; (split; [|cbn; split; [lia|done]]);
    by apply (cat_ok_same (set_rw_mutex FREE c1)).
Qed.

(** A list of names of indexes asks for the lock again. *)
Lemma getIndexName_stuck id c : rw_mutex c ≠ FREE → getIndexName id c = None.
Proof. apply locked_held. Qed.

Lemma getDependencies_stuck name c :
  rw_mutex c ≠ FREE → default [] (table_indexes c !! name) ≠ [] → getDependencies name c = None.
Proof.
  intros Hl Hi. unfold getDependencies. run.
  destruct (default [] (table_indexes c !! name)) as [|i l]; [done|].
  unfold mbind at 1, M_bind at 1. unfold mbind at 1, M_bind at 1. by rewrite getIndexName_stuck.
Qed.

(** What depends on a table that has no index. *)
Definition dependents (name : string) (c : Catalog) : list string :=
  omap (λ kv, if decide (is_Some (find_text name (vw_query kv.2))) then Some ("VIEW:" +:+ kv.1) else None)
    (map_to_list (views c)) ++
  omap (λ kv, if decide (ci_table_name kv.2 = name ∨ ci_ref_table kv.2 = name)
              then Some ("CONSTRAINT:" +:+ kv.1) else None) (map_to_list (constraints c)).

Lemma getDependencies_none name c :
  default [] (table_indexes c !! name) = [] → getDependencies name c = Some (c, Some (dependents name c)).
Proof.
  intros Hi. unfold getDependencies. run. rewrite Hi. run. unfold dependents. by rewrite app_nil_r.
Qed.

Lemma set_rw_mutex_back l c : rw_mutex c = FREE → set_rw_mutex FREE (set_rw_mutex l c) = c.
Proof. intros <-. by destruct c. Qed.

Lemma erase_table_indexes_none name c : default [] (table_indexes c !! name) = [] →
  erase_table_indexes name c =
  set_indexes (cat_indexes c) (index_id_map c) (delete name (table_indexes c)) c.
Proof.
  unfold erase_table_indexes. destruct (table_indexes c !! name) as [ids|] eqn:Hi; cbn [default from_option id].
  - by intros ->.
  - intros _. rewrite delete_id by done. by destruct c.
Qed.

Lemma erase_table_constraints_eq name c : ∃ cs tc,
  erase_table_constraints name c = set_constraints cs tc c.
Proof.
  unfold erase_table_constraints. destruct (table_constraints c !! name); [by eexists _, _|].
  exists (constraints c), (table_constraints c). by destruct c.
Qed.

Lemma dropTable_returns name s c :
  rw_mutex c = FREE → tables c !! name = Some s → default [] (table_indexes c !! name) = [] →
  (dependents name c ≠ [] → dropTable fs name c = Some (c, Some StatusCode.ERROR)) ∧
  (dependents name c = [] → ∃ c' r, dropTable fs name c = Some (c', r) ∧
     r = (if remove_ok fs (table_dir name) then Some StatusCode.OK else None) ∧
     rw_mutex c' = FREE ∧ tables c' = delete name (tables c) ∧
     table_id_map c' = delete (ts_id s) (table_id_map c) ∧ cat_indexes c' = cat_indexes c ∧
     index_id_map c' = index_id_map c ∧ table_indexes c' = delete name (table_indexes c) ∧
     sequences c' = sequences c ∧ views c' = views c ∧
     next_table_id c' = next_table_id c ∧ next_index_id c' = next_index_id c).
Proof.
  intros Hl Hs Hi. unfold dropTable. rewrite locked_free by done. run. rewrite Hs. unfold canDrop.
  assert (∀ {B} (k : bool → M B), ((getDependencies name ≫= λ deps, mret match deps with [] => true | _ => false end)
     ≫= k) (set_rw_mutex UNIQUE c) = k (match dependents name c with [] => true | _ => false end)
     (set_rw_mutex UNIQUE c)) as Hdeps.
  { intros B k. unfold mbind, M_bind. rewrite getDependencies_none by done. done. }
  rewrite Hdeps. clear Hdeps. split.
  - intros Hd. destruct (dependents name c); [done|]. cbn [negb].
    unfold mret, M_ret. by rewrite set_rw_mutex_back.
  - intros Hd. rewrite Hd. cbn [negb]. run. rewrite erase_table_indexes_none by done.
    destruct (erase_table_constraints_eq name (set_indexes (cat_indexes (set_rw_mutex UNIQUE c))
      (index_id_map (set_rw_mutex UNIQUE c)) (delete name (table_indexes (set_rw_mutex UNIQUE c)))
      (set_rw_mutex UNIQUE c))) as (cs & tc & ->).
    destruct (remove_ok fs (table_dir name)); run; by eexists _, _.
Qed.

Lemma dropTable_ok name c c' r : cat_ok c → dropTable fs name c = Some (c', r) →
  cat_ok c' ∧ next_table_id c' = next_table_id c ∧ next_index_id c' = next_index_id c.
Proof.
  intros Hok Hdrop. pose proof (co_lock _ Hok) as Hl.
  destruct (tables c !! name) as [s|] eqn:Hs.
  2:{ unfold dropTable in Hdrop. rewrite locked_free in Hdrop by done. rewrite bind_get in Hdrop.
      cbn [tables set_rw_mutex] in Hdrop. rewrite Hs in Hdrop. unfold mret, M_ret in Hdrop.
      rewrite set_rw_mutex_back in Hdrop by done. by injection Hdrop as <- _. }
  destruct (default [] (table_indexes c !! name)) as [|i l] eqn:Hi.
  2:{ unfold dropTable in Hdrop. rewrite locked_free in Hdrop by done. rewrite bind_get in Hdrop.
      cbn [tables set_rw_mutex] in Hdrop. rewrite Hs in Hdrop.
      unfold canDrop in Hdrop. unfold mbind, M_bind in Hdrop.
      rewrite getDependencies_stuck in Hdrop; [done|done|]. cbn [table_indexes set_rw_mutex]. by rewrite Hi. }
  destruct (dropTable_returns name s c Hl Hs Hi) as [He Ho].
  destruct (decide (dependents name c = [])) as [Hd|Hd].
  2:{ rewrite He in Hdrop by done. by injection Hdrop as <- _. }
  destruct (Ho Hd) as (c1 & r1 & Heq & _ & Hl1 & Ht & Hti & Hx & Hxi & Hls & _ & _ & Hn1 & Hn2).
  rewrite Heq in Hdrop. injection Hdrop as <- _. split; [|done].
  destruct Hok as [_ Hct Hci Hcx Hcxi Hcl Hnd Hone Hcr]. constructor; rewrite ?Ht, ?Hti, ?Hx, ?Hxi, ?Hls, ?Hn1, ?Hn2; try done.
  - intros n s' [Hne Hs']%lookup_delete_Some. pose proof (Hct _ _ Hs') as Hid.
    rewrite lookup_delete_ne; [done|]. intros E. rewrite <- E in Hid.
    rewrite (Hct _ _ Hs) in Hid. by injection Hid as ->.
  - intros j n [Hne Hj]%lookup_delete_Some. destruct (Hci _ _ Hj) as (? & s' & Hs' & <-).
    split; [done|]. exists s'. split; [|done]. rewrite lookup_delete_ne; [done|]. intros <-. congruence.
  - intros t l j [_ Htl]%lookup_delete_Some. by eapply Hcl.
  - intros t l [_ Htl]%lookup_delete_Some. by eapply Hnd.
  - intros t t' l l' j [_ Htl]%lookup_delete_Some [_ Htl']%lookup_delete_Some. by eapply Hone.
  - intros n s' col j [_ Hs']%lookup_delete_Some. by eapply Hcr.
Qed.

Lemma renameTable_ok old new c c' r : cat_ok c → renameTable fs old new c = Some (c', r) →
  cat_ok c' ∧ next_table_id c' = next_table_id c ∧ next_index_id c' = next_index_id c.
Proof.
  intros Hok. pose proof (co_lock _ Hok) as Hl. unfold renameTable. rewrite locked_free by done. run.
  destruct (tables c !! old) as [s|] eqn:Hs;
    [|unfold mret, M_ret; rewrite set_rw_mutex_back by done; by intros [= <- <-]].
  destruct (tables c !! new) as [s'|] eqn:Hs';
    [unfold mret, M_ret; rewrite set_rw_mutex_back by done; by intros [= <- <-]|].
  run. set (c1 := set_tables _ _ _). assert (cat_ok (set_rw_mutex FREE c1)) as Hok1.
  { destruct Hok as [_ Hct Hci Hcx Hcxi Hcl Hnd Hone Hcr]. subst c1. constructor; cbn; try done.
    - intros n t. rewrite lookup_insert_Some. intros [[<- <-]|[Hne [Hno Ht]%lookup_delete_Some]].
      + by rewrite lookup_insert_eq.
      + pose proof (Hct _ _ Ht) as Hid. rewrite lookup_insert_ne; [done|].
        intros E. cbn in E. rewrite <- E, (Hct _ _ Hs) in Hid. by injection Hid as ->.
    - intros i n. cbn. rewrite lookup_insert_Some. intros [[<- <-]|[Hne Hi]].
      + split; [apply (Hci _ _ (Hct _ _ Hs))|]. rewrite lookup_insert_eq. by eexists.
      + destruct (Hci _ _ Hi) as (? & t & Ht & <-). split; [done|]. exists t. split; [|done].
        rewrite lookup_insert_ne, lookup_delete_ne; [done| |]; intros <-; congruence.
    - intros n t col i. rewrite lookup_insert_Some. intros [[<- <-]|[Hne [Hno Ht]%lookup_delete_Some]];
        [cbn|]; by eapply Hcr. }
  destruct (rename_ok fs _ _); unfold mret, M_ret, throw; intros [= <- <-]; done.
Qed.

Lemma createIndex_ok name table cols unique c c' r :
  cat_ok c → 0 < next_index_id c < 2 ^ 32 - 1 → createIndex name table cols unique c = Some (c', r) →
  cat_ok c' ∧ next_table_id c' = next_table_id c ∧ next_index_id c ≤ next_index_id c'.
Proof.
  intros Hok Hnext. pose proof (co_lock _ Hok) as Hl. unfold createIndex. rewrite locked_free by done. run.
  destruct (cat_indexes c !! name) as [i|] eqn:Hi;
    [unfold mret, M_ret; rewrite set_rw_mutex_back by done; by intros [= <- <-]|].
  run. destruct (tables c !! table) as [s|] eqn:Hs;
    [|unfold mret, M_ret; rewrite set_rw_mutex_back by done; by intros [= <- <-]].
  run. rewrite wrap_small by (unfold fits; lia). unfold mret, M_ret. intros [= <- <-].
  split; [|cbn; split; [done|lia]]. destruct Hok as [_ Hct Hci Hcx Hcxi Hcl Hnd Hone Hcr].
  assert (index_id_map c !! next_index_id c = None) as Hfree.
  { destruct (index_id_map c !! next_index_id c) as [n|] eqn:E; [|done]. destruct (Hcxi _ _ E). lia. }
  assert (∀ t, next_index_id c ∉ default [] (table_indexes c !! t)) as Hfresh.
  { intros t Hin. destruct (table_indexes c !! t) as [l|] eqn:Hl'; [|by apply not_elem_of_nil in Hin].
    destruct (Hcl _ _ _ Hl' Hin). congruence. }
  assert (∀ i, is_Some (index_id_map c !! i) → is_Some (<[next_index_id c := name]> (index_id_map c) !! i)) as Hmono.
  { intros i Hsi. apply lookup_insert_is_Some. destruct (decide (next_index_id c = i)); auto. }
  constructor; cbn -[lookup insert]; try done.
  - intros n t. rewrite lookup_insert_Some. intros [[<- <-]|[Hne Ht]]; [cbn|]; by apply Hct.
  - intros i n Hin. destruct (Hci _ _ Hin) as (? & t & Ht & <-). split; [done|].
    destruct (decide (n = table)) as [->|Hne].
    + rewrite lookup_insert_eq. eexists. split; [done|]. cbn. congruence.
    + rewrite lookup_insert_ne by done. eauto.
  - intros n i. rewrite lookup_insert_Some. intros [[<- <-]|[Hne Hni]]; [by rewrite lookup_insert_eq|].
    pose proof (Hcx _ _ Hni) as Hm. rewrite lookup_insert_ne; [done|]. intros E. rewrite <- E in Hm. congruence.
  - intros i n. rewrite lookup_insert_Some. intros [[<- <-]|[Hne Hni]].
    + split; [lia|]. by rewrite lookup_insert_eq.
    + destruct (Hcxi _ _ Hni) as [? Hn]. split; [lia|]. rewrite lookup_insert_ne; [done|]. intros <-. congruence.
  - intros t l i. rewrite lookup_insert_Some. intros [[<- <-]|[Hne Hl']] Hil; [|by eapply Hmono, Hcl].
    apply elem_of_app in Hil as [Hil| ->%list_elem_of_singleton];
      [|apply lookup_insert_is_Some; by left].
    destruct (table_indexes c !! table) as [l'|] eqn:Hl'; [by eapply Hmono, Hcl|by apply not_elem_of_nil in Hil].
  - intros t l. rewrite lookup_insert_Some. intros [[<- <-]|[_ Hl']]; [|by eapply Hnd].
    apply NoDup_app. split_and!; [|intros i Hil ->%list_elem_of_singleton; by eapply Hfresh|apply NoDup_singleton].
    destruct (table_indexes c !! table) as [l'|] eqn:Hl'; [by eapply Hnd|apply NoDup_nil_2].
  - assert (∀ t l i, <[table := default [] (table_indexes c !! table) ++ [next_index_id c]]>
      (table_indexes c) !! t = Some l → i ∈ l →
      (t = table ∧ i = next_index_id c) ∨
      (∃ l0, table_indexes c !! t = Some l0 ∧ i ∈ l0 ∧ i ≠ next_index_id c)) as Hin.
    { intros t l i. rewrite lookup_insert_Some. intros [[<- <-]|[Hne Hl']] Hil.
      - apply elem_of_app in Hil as [Hil| ->%list_elem_of_singleton]; [right|by left].
        destruct (table_indexes c !! table) as [l'|] eqn:Hl'; [|by apply not_elem_of_nil in Hil].
        exists l'. split_and!; [done|done|]. intros ->. apply (Hfresh table). by rewrite Hl'.
      - right. exists l. split_and!; [done|done|]. intros ->. apply (Hfresh t). by rewrite Hl'. }
    intros t t' l l' i Ht Ht' Hil Hil'.
    destruct (Hin _ _ _ Ht Hil) as [[-> ->]|(l0 & ? & ? & ?)], (Hin _ _ _ Ht' Hil') as [[-> ?]|(l1 & ? & ? & ?)];
      [done|done|done|by eapply Hone].
  - intros n t col i. rewrite lookup_insert_Some. intros [[<- <-]|[Hne Ht]]; [|by intros; eapply Hmono, Hcr].
    unfold index_columns. cbn -[lookup insert].
    assert (∀ m : gmap string Z, (∀ col i, m !! col = Some i → is_Some (<[next_index_id c := name]> (index_id_map c) !! i)) →
      ∀ col i, foldl (λ m col, <[col := next_index_id c]> m) m cols !! col = Some i →
      is_Some (<[next_index_id c := name]> (index_id_map c) !! i)) as Hfold.
    { induction cols as [|k cols IH]; intros m Hm; [done|]. cbn [foldl]. apply IH. intros col' i'.
      rewrite lookup_insert_Some. intros [[<- <-]|[_ ?]]; [apply lookup_insert_is_Some; by left|by eapply Hm]. }
    apply Hfold. intros col' i' Hc'. by eapply Hmono, Hcr.
Qed.

Lemma elem_of_erase_first {A} `{EqDecision A} (x y : A) l : y ∈ erase_first x l → y ∈ l.
Proof.
  induction l as [|z l IH]; cbn; [done|]. case_decide; rewrite !elem_of_cons; naive_solver.
Qed.

Lemma NoDup_erase_first {A} `{EqDecision A} (x : A) l : NoDup l → NoDup (erase_first x l) ∧ x ∉ erase_first x l.
Proof.
  induction 1 as [|z l Hz Hl IH]; cbn; [by split; [constructor|apply not_elem_of_nil]|].
  case_decide as E; [subst; done|]. destruct IH as [H1 H2]. split.
  - constructor; [|done]. intros ?%elem_of_erase_first. done.
  - rewrite not_elem_of_cons. split; [congruence|done].
Qed.

(** The lists of the tables without an index that one of them has. *)
Lemma erase_from_lists_spec id lists (ti : gmap string (list Z)) :
  (∀ t l, (t, l) ∈ lists → ti !! t = Some l) →
  (∃ t l, (t, l) ∈ lists ∧ id ∈ l ∧ erase_from_lists id lists ti = <[t := erase_first id l]> ti) ∨
  ((∀ t l, (t, l) ∈ lists → id ∉ l) ∧ erase_from_lists id lists ti = ti).
Proof.
  induction lists as [|[t l] lists IH]; intros Hl; cbn.
  - right. split; [|done]. intros t l Hin. by apply not_elem_of_nil in Hin.
  - case_decide as Hid.
    + left. exists t, l. rewrite elem_of_cons. auto.
    + destruct IH as [(t' & l' & ? & ? & ?)|[Hno ->]].
      * intros t' l' Hin. apply Hl. by apply elem_of_cons; right.
      * left. exists t', l'. rewrite elem_of_cons. auto.
      * right. split; [|done]. intros t' l' [[= -> ->]|Hin]%elem_of_cons; [done|by eapply Hno].
Qed.

Lemma dropIndex_ok name c c' r : cat_ok c → dropIndex name c = Some (c', r) →
  cat_ok c' ∧ next_table_id c' = next_table_id c ∧ next_index_id c' = next_index_id c.
Proof.
  intros Hok. pose proof (co_lock _ Hok) as Hl. unfold dropIndex. rewrite locked_free by done. run.
  destruct (cat_indexes c !! name) as [id|] eqn:Hi;
    [|unfold mret, M_ret; rewrite set_rw_mutex_back by done; by intros [= <- <-]].
  run. unfold mret, M_ret. intros [= <- <-]. split; [|done].
  destruct Hok as [_ Hct Hci Hcx Hcxi Hcl Hnd Hone Hcr].
  set (ti' := erase_from_lists _ _ _).
  assert (∀ t l, ti' !! t = Some l → ∃ l0, table_indexes c !! t = Some l0 ∧ NoDup l ∧ ∀ i, i ∈ l → i ∈ l0 ∧ i ≠ id)
    as Hti.
  { subst ti'. destruct (erase_from_lists_spec id (map_to_list (table_indexes c)) (table_indexes c))
      as [(t0 & l0 & Hin & Hid & ->)|[Hno ->]]; [by intros t l ?%elem_of_map_to_list|..].
    - apply elem_of_map_to_list in Hin. intros t l. rewrite lookup_insert_Some. intros [[<- <-]|[Hne Ht]].
      + destruct (NoDup_erase_first id l0 (Hnd _ _ Hin)) as [H1 H2]. exists l0. split_and!; [done|done|].
        intros i Hi'. split; [by eapply elem_of_erase_first|]. by intros ->.
      + exists l. split_and!; [done|by eapply Hnd|]. intros i Hi'. split; [done|]. intros ->.
        apply Hne. by eapply Hone.
    - intros t l Ht. exists l. split_and!; [done|by eapply Hnd|]. intros i Hi'. split; [done|]. intros ->.
      by eapply Hno, Hi'; apply elem_of_map_to_list. }
  constructor; cbn -[lookup insert]; try done.
  - intros n s. rewrite lookup_fmap_Some. intros (s0 & <- & Hs). exact (Hct _ _ Hs).
  - intros i n Hin. destruct (Hci _ _ Hin) as (? & s & Hs & <-). split; [done|].
    exists (forget_index id s). by rewrite lookup_fmap, Hs.
  - intros n i [Hne Hni]%lookup_delete_Some. pose proof (Hcx _ _ Hni) as Hm.
    rewrite lookup_delete_ne; [done|]. intros <-. rewrite (Hcx _ _ Hi) in Hm. congruence.
  - intros i n [Hne Hin]%lookup_delete_Some. destruct (Hcxi _ _ Hin) as [? Hn]. split; [done|].
    rewrite lookup_delete_ne; [done|]. intros <-. congruence.
  - intros t l i Ht Hil. destruct (Hti _ _ Ht) as (l0 & Hl0 & _ & Hin). destruct (Hin _ Hil).
    rewrite lookup_delete_ne by done. by eapply Hcl.
  - intros t l Ht. by destruct (Hti _ _ Ht) as (? & _ & ? & _).
  - intros t t' l l' i Ht Ht' Hil Hil'.
    destruct (Hti _ _ Ht) as (l0 & ? & _ & Hin), (Hti _ _ Ht') as (l1 & ? & _ & Hin').
    eapply Hone; [done..|by apply Hin|by apply Hin'].
  - intros n s col i. rewrite lookup_fmap_Some. intros (s0 & <- & Hs). cbn -[lookup].
    intros [Hc Hne]%map_lookup_filter_Some. rewrite lookup_delete_ne by done. by eapply Hcr.
Qed.

(** The calls that change the catalog; tables are created without an id or indexes of their own. *)
Inductive cat_step (c c' : Catalog) : Prop :=
  | step_create_table name schema r :
      ts_id schema = 0 → indexes schema = ∅ → next_table_id c < 2 ^ 32 - 1 →
      createTable fs name schema c = Some (c', r) → cat_step c c'
  | step_drop_table name r : dropTable fs name c = Some (c', r) → cat_step c c'
  | step_rename_table old new r : renameTable fs old new c = Some (c', r) → cat_step c c'
  | step_create_index name table cols unique r :
      next_index_id c < 2 ^ 32 - 1 → createIndex name table cols unique c = Some (c', r) → cat_step c c'
  | step_drop_index name r : dropIndex name c = Some (c', r) → cat_step c c'
  | step_drop_index_id id r : dropIndex_id id c = Some (c', r) → cat_step c c'
  | step_get_table name r : getTable name c = Some (c', r) → cat_step c c'
  | step_get_table_id id r : getTableById id c = Some (c', r) → cat_step c c'
  | step_add_constraint table k r : addConstraint table k c = Some (c', r) → cat_step c c'
  | step_drop_constraint table name r : dropConstraint table name c = Some (c', r) → cat_step c c'
  | step_create_sequence s r : createSequence s c = Some (c', r) → cat_step c c'
  | step_drop_sequence name r : dropSequence name c = Some (c', r) → cat_step c c'
  | step_next_value name r : nextValue name c = Some (c', r) → cat_step c c'
  | step_create_view v r : createView v c = Some (c', r) → cat_step c c'
  | step_drop_view name r : dropView name c = Some (c', r) → cat_step c c'.

Definition cat_inv (c : Catalog) : Prop := cat_ok c ∧ 0 < next_table_id c ∧ 0 < next_index_id c.

Lemma keeps_inv {A} (m : M A) c c' r : m c = Some (c', r) → cat_inv c → keeps m → cat_inv c'.
Proof.
  intros H (Hok & Ht & Hi) Hm. destruct (Hm _ _ _ H) as (H1 & H2 & H3 & H4 & H5 & H6 & H7 & H8).
  split; [|lia]. eapply cat_ok_same; [..|exact Hok]; try done. rewrite H1. apply Hok.
Qed.

Lemma getTableById_known id n c :
  rw_mutex c = FREE → table_id_map c !! id = Some n → getTableById id c = None.
Proof.
  intros Hl Hi. unfold getTableById. rewrite locked_free by done. run. rewrite Hi.
  unfold getTable. by rewrite locked_held.
Qed.

Lemma dropIndex_id_known id n c :
  rw_mutex c = FREE → index_id_map c !! id = Some n → dropIndex_id id c = None.
Proof.
  intros Hl Hi. unfold dropIndex_id. rewrite locked_free by done. run. rewrite Hi.
  unfold dropIndex. by rewrite locked_held.
Qed.

Lemma cat_step_inv c c' : cat_inv c → cat_step c c' → cat_inv c'.
Proof.
  intros Hinv [name schema r H1 H2 H3 H|name r H|old new r H|name table cols u r H1 H|name r H|id r H|name r H
    |id r H|table k r H|table name r H|s r H|name r H|name r H|v r H|name r H].
  - destruct Hinv as (Hok & Ht & Hi). destruct (createTable_ok _ _ _ _ _ Hok H1 H2 ltac:(lia) H) as (? & ? & ?).
    split; [done|lia].
  - destruct Hinv as (Hok & Ht & Hi). destruct (dropTable_ok _ _ _ _ Hok H) as (? & ? & ?). split; [done|lia].
  - destruct Hinv as (Hok & Ht & Hi). destruct (renameTable_ok _ _ _ _ _ Hok H) as (? & ? & ?). split; [done|lia].
  - destruct Hinv as (Hok & Ht & Hi). destruct (createIndex_ok _ _ _ _ _ _ _ Hok ltac:(lia) H) as (? & ? & ?).
    split; [done|lia].
  - destruct Hinv as (Hok & Ht & Hi). destruct (dropIndex_ok _ _ _ _ Hok H) as (? & ? & ?). split; [done|lia].
  - destruct (index_id_map c !! id) as [n|] eqn:Hi.
    { rewrite (dropIndex_id_known _ n) in H; [done|apply Hinv|done]. }
    unfold dropIndex_id in H. rewrite locked_free, bind_get in H by apply Hinv.
    cbn [index_id_map set_rw_mutex] in H. rewrite Hi in H. unfold mret, M_ret in H.
    rewrite set_rw_mutex_back in H by apply Hinv. by injection H as <- _.
  - eapply keeps_inv; [exact H|exact Hinv|]. unfold getTable. keeps.
  - destruct (table_id_map c !! id) as [n|] eqn:Hi.
    { rewrite (getTableById_known _ n) in H; [done|apply Hinv|done]. }
    unfold getTableById in H. rewrite locked_free, bind_get in H by apply Hinv.
    cbn [table_id_map set_rw_mutex] in H. rewrite Hi in H. unfold mret, M_ret in H.
    rewrite set_rw_mutex_back in H by apply Hinv. by injection H as <- _.
  - eapply keeps_inv; [exact H|exact Hinv|]. unfold addConstraint. keeps.
  - eapply keeps_inv; [exact H|exact Hinv|]. unfold dropConstraint. keeps.
  - eapply keeps_inv; [exact H|exact Hinv|]. unfold createSequence. keeps.
  - eapply keeps_inv; [exact H|exact Hinv|]. unfold dropSequence. keeps.
  - eapply keeps_inv; [exact H|exact Hinv|]. unfold nextValue. keeps.
  - eapply keeps_inv; [exact H|exact Hinv|]. unfold createView. keeps.
  - eapply keeps_inv; [exact H|exact Hinv|]. unfold dropView. keeps.
Qed.

Lemma cat_new_inv : cat_inv Catalog_new.
Proof. split; [|by cbn]. constructor; try done; intros; by rewrite lookup_empty in *. Qed.

Definition cat_reachable (c : Catalog) : Prop := rtc cat_step Catalog_new c.

Lemma cat_reachable_inv c : cat_reachable c → cat_inv c.
Proof.
  assert (∀ c1 c2, rtc cat_step c1 c2 → cat_inv c1 → cat_inv c2) as Hr.
  { induction 1 as [|c1 c2 c3 Hs _ IH]; [done|]. intros Hi. apply IH. by eapply cat_step_inv. }
  intros Hc. eapply Hr; [exact Hc|apply cat_new_inv].
Qed.


Lemma listIndexes_known table i l c :
  rw_mutex c = FREE → table_indexes c !! table = Some (i :: l) → listIndexes table c = None.
Proof.
  intros Hl Hi. unfold listIndexes. rewrite locked_free by done. run. rewrite Hi. cbn [default from_option id].
  unfold mbind at 1, M_bind at 1. by rewrite getIndexName_stuck.
Qed.

Lemma dropTable_indexed name s i l c :
  rw_mutex c = FREE → tables c !! name = Some s → table_indexes c !! name = Some (i :: l) →
  dropTable fs name c = None.
Proof.
  intros Hl Hs Hi. unfold dropTable. rewrite locked_free by done. run. rewrite Hs.
  unfold canDrop. unfold mbind, M_bind. rewrite getDependencies_stuck; [done|done|].
  cbn [table_indexes set_rw_mutex]. by rewrite Hi.
Qed.

(** Calls of the catalog that lock its mutex twice, so that they wait for themselves or are
    undefined: looking up a table by an id that exists, dropping an index by its id, listing the
    indexes of a table that has one, and dropping such a table. *)
Theorem catalog_relocks c id n name s i l :
  rw_mutex c = FREE →
  (table_id_map c !! id = Some n → getTableById id c = None) ∧
  (index_id_map c !! id = Some n → dropIndex_id id c = None) ∧
  (table_indexes c !! name = Some (i :: l) →
     listIndexes name c = None ∧ (tables c !! name = Some s → dropTable fs name c = None)).
Proof.
  intros Hl. split_and!; [by apply getTableById_known|by apply dropIndex_id_known|].
  intros Hi. split; [by eapply listIndexes_known|]. intros Hs. by eapply dropTable_indexed.
Qed.

(** Dropping a table without indexes: it is refused, and nothing changes, while a view contains its name or a
    constraint mentions it, the ones of the table itself included; otherwise the table goes and the other tables and the indexes stay. *)
Theorem dropTable_spec name s c :
  rw_mutex c = FREE → tables c !! name = Some s → default [] (table_indexes c !! name) = [] →
  remove_ok fs (table_dir name) = true →
  ((∃ v, (∃ k, views c !! k = Some v) ∧ is_Some (find_text name (vw_query v))) ∨
   (∃ k, (∃ n, constraints c !! n = Some k) ∧ (ci_table_name k = name ∨ ci_ref_table k = name)) →
     dropTable fs name c = Some (c, Some StatusCode.ERROR)) ∧
  ((∀ k v, views c !! k = Some v → find_text name (vw_query v) = None) →
   (∀ n k, constraints c !! n = Some k → ci_table_name k ≠ name ∧ ci_ref_table k ≠ name) →
     ∃ c', dropTable fs name c = Some (c', Some StatusCode.OK) ∧ tables c' = delete name (tables c) ∧
       table_id_map c' = delete (ts_id s) (table_id_map c) ∧ cat_indexes c' = cat_indexes c).
Proof.
  intros Hl Hs Hi Hrm. destruct (dropTable_returns name s c Hl Hs Hi) as [He Ho]. split.
  - intros Hdep. apply He. unfold dependents. intros [H1 H2]%app_eq_nil.
    destruct Hdep as [(v & [k Hk] & Hv)|(k & [n Hn] & Hk)].
    + assert (("VIEW:" +:+ k) ∈ ([] : list string)) as []%not_elem_of_nil. rewrite <- H1.
      apply list_elem_of_omap. exists (k, v). split; [by apply elem_of_map_to_list|]. cbn. by rewrite decide_True.
    + assert (("CONSTRAINT:" +:+ n) ∈ ([] : list string)) as []%not_elem_of_nil. rewrite <- H2.
      apply list_elem_of_omap. exists (n, k). split; [by apply elem_of_map_to_list|]. cbn. by rewrite decide_True.
  - intros Hv Hc. destruct Ho as (c' & r & Heq & -> & _ & Ht & Hti & Hx & _).
    + unfold dependents. apply app_nil. split; apply elem_of_nil_inv; intros x Hx%list_elem_of_omap;
        destruct Hx as ([k v] & Hin%elem_of_map_to_list & Hx); cbn in Hx.
      * rewrite decide_False in Hx; [done|]. rewrite (Hv _ _ Hin). by intros []%is_Some_None.
      * rewrite decide_False in Hx; [done|]. destruct (Hc _ _ Hin). by intros [?|?].
    + rewrite Hrm in Heq. eauto.
Qed.

End Steps.

(** ** Sequences *)

Fixpoint draws (name : string) (n : nat) : M (list Z) :=
  match n with
  | O => mret []
  | S n' => v ← nextValue name; vs ← draws name n'; mret (v :: vs)
  end.

Lemma nextValue_eq name s s' c :
  rw_mutex c = FREE → sequences c !! name = Some s → advance_sequence s = Some s' →
  nextValue name c = Some (set_sequences (<[name := s']> (sequences c)) c, Some (sq_current s)).
Proof.
  intros Hl Hs Ha. unfold nextValue. rewrite locked_free by done. run. rewrite Hs, Ha. run.
  unfold mret, M_ret. destruct c. cbn in *. by subst.
Qed.

Lemma draws_values name n : ∀ s c,
  rw_mutex c = FREE → sequences c !! name = Some s → sq_cycle s = false →
  0 < sq_increment s → - 2 ^ 63 ≤ sq_current s ≤ sq_max s → sq_max s + sq_increment s < 2 ^ 63 →
  ∃ c', draws name n c =
    Some (c', Some (map (λ i, Z.min (sq_max s) (sq_current s + Z.of_nat i * sq_increment s)) (seq 0 n))).
Proof.
  induction n as [|n IH]; intros s c Hl Hs Hcy Hinc Hcur Hmax; [by eexists|].
  set (v' := if sq_max s <? sq_current s + sq_increment s then sq_max s else sq_current s + sq_increment s).
  assert (advance_sequence s = Some (set_current v' s)) as Ha.
  { unfold advance_sequence. rewrite decide_True by (unfold fits_signed; lia). by rewrite Hcy. }
  cbn [draws]. unfold mbind at 1, M_bind at 1. rewrite (nextValue_eq name s _ c Hl Hs Ha).
  assert (v' = Z.min (sq_max s) (sq_current s + sq_increment s)) as Hv.
  { unfold v'. destruct (Z.ltb_spec (sq_max s) (sq_current s + sq_increment s)); lia. }
  destruct (IH (set_current v' s) (set_sequences (<[name := set_current v' s]> (sequences c)) c)) as [c' Hc'];
    cbn; [done|by rewrite lookup_insert_eq|done|done|lia|done|].
  exists c'. unfold mbind, M_bind. rewrite Hc'. unfold mret, M_ret. do 3 f_equal. f_equal; [lia|].
  rewrite <- seq_shift, map_map. apply map_ext. intros i. cbn [sq_max sq_current sq_increment set_current]. nia.
Qed.

(** A sequence that does not cycle gives its values in steps of the increment and repeats the greatest one for ever;
    adding the increment at the end of the range of an [int64_t], where the
    default maximum lies, is undefined.  A name that is not a sequence gives -1. *)
Theorem sequence_values name n s c :
  rw_mutex c = FREE →
  (sequences c !! name = Some s → sq_cycle s = false → 0 < sq_increment s →
   - 2 ^ 63 ≤ sq_current s ≤ sq_max s → sq_max s + sq_increment s < 2 ^ 63 →
   ∃ c', draws name n c =
     Some (c', Some (map (λ i, Z.min (sq_max s) (sq_current s + Z.of_nat i * sq_increment s)) (seq 0 n)))) ∧
  (sequences c !! name = Some s → 2 ^ 63 ≤ sq_current s + sq_increment s → nextValue name c = None) ∧
  (sequences c !! name = None → nextValue name c = Some (c, Some (-1))).
Proof.
  intros Hl. split_and!.
  - by apply draws_values.
  - intros Hs Ho. unfold nextValue. rewrite locked_free by done. run. rewrite Hs. unfold advance_sequence.
    rewrite decide_False by (unfold fits_signed; lia). done.
  - intros Hs. unfold nextValue. rewrite locked_free by done. run. rewrite Hs. unfold mret, M_ret.
    by rewrite set_rw_mutex_back.
Qed.
