(* ===== verification/CatalogRoundtrip.v ===== *)
(** * CatalogRoundtrip: what a saved catalog is loaded as

    The names, ids and columns of the tables, the indexes, constraints, sequences and views come
    back; the indexes are no longer attached to their tables, and what the file does not
    have gets its default value. *)

From stdpp Require Import gmap strings list.
From S2P Require Import Prelude CxxString CxxStream Json Types Catalog CatalogProofs.

Open Scope Z_scope.

(** ** What is kept *)

Definition saved_column (col : ColumnSchema) : ColumnSchema :=
  mkColumnSchema (col_id col) (col_name col) (col_type col) (col_length col) 10 0 (nullable col)
    (is_primary_key col) false false "" "".
Definition saved_table (name : string) (s : TableSchema) : TableSchema :=
  mkTableSchema (ts_id s) name (saved_column <$> columns s) (primary_key s) ∅ ∅.
Definition saved_constraint (name : string) (k : ConstraintInfo) : ConstraintInfo :=
  mkConstraintInfo (ci_type k) name (ci_table_name k) (ci_columns k) (ci_ref_table k)
    (ci_ref_columns k) (ci_check_expr k) false false.
Definition saved_sequence (name : string) (s : SequenceInfo) : SequenceInfo :=
  mkSequenceInfo name (sq_start s) (sq_current s) (sq_increment s) (sq_min s) (sq_max s) (sq_cycle s).
Definition saved_view (name : string) (v : ViewInfo) : ViewInfo :=
  mkViewInfo name (vw_query v) (vw_columns v) (vw_materialized v) 0.

(** *** Values in the range of their types *)

Definition column_in_range (col : ColumnSchema) : Prop :=
  fits 16 (col_id col) ∧ fits 32 (col_length col) ∧ fits_signed 32 (type_code (col_type col)) ∧
  code_type (type_code (col_type col)) = col_type col.
Definition table_in_range (s : TableSchema) : Prop :=
  fits 32 (ts_id s) ∧ Forall column_in_range (columns s) ∧ Forall (fits 16) (primary_key s).
Definition constraint_in_range (k : ConstraintInfo) : Prop :=
  fits_signed 32 (constraint_code (ci_type k)) ∧ code_constraint (constraint_code (ci_type k)) = ci_type k.
Definition sequence_in_range (s : SequenceInfo) : Prop :=
  fits_signed 64 (sq_start s) ∧ fits_signed 64 (sq_current s) ∧ fits_signed 64 (sq_increment s) ∧
  fits_signed 64 (sq_min s) ∧ fits_signed 64 (sq_max s).

Record in_range_catalog (c : Catalog) : Prop := mk_in_range_catalog {
  ir_tables : map_Forall (λ _ s, table_in_range s) (tables c);
  ir_indexes : map_Forall (λ _ i, fits 32 i) (cat_indexes c);
  ir_constraints : map_Forall (λ _ k, constraint_in_range k) (constraints c);
  ir_sequences : map_Forall (λ _ s, sequence_in_range s) (sequences c);
  ir_next : fits 32 (next_table_id c) ∧ fits 32 (next_index_id c)
}.

(** ** Reading members *)

Lemma bind_read {A B} key (f : Json → option A) l x a (k : A → M B) c :
  (list_to_map l : gmap string Json) !! key = Some x → f x = Some a →
  (read key f (json_object l) ≫= k) c = k a c.
Proof.
  intros Hx Ha. unfold read, json_object, const_member. rewrite Hx. unfold convert, mbind, M_bind, mret, M_ret.
  by rewrite Ha.
Qed.

Lemma bind_value {A B} key d (f : Json → option A) l x a (k : A → M B) c :
  (list_to_map l : gmap string Json) !! key = Some x → f x = Some a →
  (value_or key d f (json_object l) ≫= k) c = k a c.
Proof. intros Hx Ha. unfold value_or, json_object. rewrite Hx, Ha. done. Qed.

Lemma bind_member {B} key l x (k : Json → M B) c :
  (list_to_map l : gmap string Json) !! key = Some x → (const_member key (json_object l) ≫= k) c = k x c.
Proof. intros Hx. unfold json_object, const_member. rewrite Hx. done. Qed.

Lemma as_unsigned_fits w z : fits w z → as_unsigned w (JNumber z) = Some z.
Proof. intros Hz. unfold as_unsigned. cbn. by rewrite wrap_small. Qed.

Lemma as_signed_fits w z : 0 < w → fits_signed w z → as_signed w (JNumber z) = Some z.
Proof.
  intros Hw Hz. unfold as_signed. cbn. f_equal. rewrite <- (to_signed_wrap w z) at 2 by (done || lia).
  unfold to_signed. by rewrite wrap_idemp by lia.
Qed.

Lemma as_strings_back l : as_list as_string (json_strings l) = Some l.
Proof. unfold as_list, json_strings. cbn [as_array mbind option_bind]. by apply mapM_fmap_Some. Qed.

Lemma as_unsigned_list w l : Forall (fits w) l → as_list (as_unsigned w) (JArray (JNumber <$> l)) = Some l.
Proof.
  intros Hl. unfold as_list. cbn [as_array mbind option_bind]. apply mapM_fmap_Forall_Some.
  eapply Forall_impl; [exact Hl|]. intros z. apply as_unsigned_fits.
Qed.

Lemma bind_map_m {A B C} (enc : A → Json) (f : Json → M B) (g : A → B) l (k : list B → M C) c :
  Forall (λ a, f (enc a) c = Some (c, Some (g a))) l →
  (map_m f (enc <$> l) ≫= k) c = k (g <$> l) c.
Proof.
  intros Hl. enough (map_m f (enc <$> l) c = Some (c, Some (g <$> l))) as E by (unfold mbind, M_bind; by rewrite E).
  induction Hl as [|a l Ha Hl IH]; [done|]. rewrite !fmap_cons. cbn [map_m].
  unfold mbind, M_bind. by rewrite Ha, IH.
Qed.

(** The next member read has value [a], as [tac] shows. *)
Tactic Notation "read_member" constr(a) "by" tactic3(tac) := erewrite (bind_read _ _ _ _ a); [|reflexivity|tac].
Tactic Notation "read_value" constr(a) "by" tactic3(tac) := erewrite (bind_value _ _ _ _ _ a); [|reflexivity|tac].

(** ** One object *)

Lemma load_json_column col c :
  column_in_range col → load_column (json_column col) c = Some (c, Some (saved_column col)).
Proof.
  intros (Hid & Hlen & Hty & Hcode). unfold load_column, json_column.
  read_member (col_id col) by (by apply as_unsigned_fits).
  read_member (col_name col) by done.
  read_member (type_code (col_type col)) by (by apply as_signed_fits).
  read_value (to_signed 32 (col_length col)) by done.
  read_value (nullable col) by done.
  read_value (is_primary_key col) by done.
  rewrite Hcode. unfold mret, M_ret, saved_column. do 3 f_equal. f_equal.
  by rewrite wrap_to_signed, wrap_small by done.
Qed.

Lemma load_json_table name s c :
  table_in_range s →
  load_table (json_table (name, s)) c =
  Some (set_tables (<[name := saved_table name s]> (tables c)) (table_id_map c) c, Some ()).
Proof.
  intros (Hid & Hcols & Hpk). unfold load_table, json_table. cbn [fst snd].
  read_member (ts_id s) by (by apply as_unsigned_fits).
  read_member name by done.
  erewrite (bind_member _ _ (JArray (json_column <$> columns s))) by reflexivity.
  change (elements_of _) with (json_column <$> columns s).
  rewrite (bind_map_m json_column load_column saved_column).
  2:{ eapply Forall_impl; [exact Hcols|]. intros col. apply load_json_column. }
  read_member (primary_key s) by (by apply as_unsigned_list).
  done.
Qed.

Lemma load_json_index name id c :
  fits 32 id →
  load_index (json_index (name, id)) c =
  Some (set_indexes (<[name := id]> (cat_indexes c)) (<[id := name]> (index_id_map c)) (table_indexes c) c,
        Some ()).
Proof.
  intros Hid. unfold load_index, json_index. cbn [fst snd].
  read_member name by done.
  read_member id by (by apply as_unsigned_fits). done.
Qed.

Lemma load_json_constraint name k c :
  constraint_in_range k →
  load_constraint (json_constraint (name, k)) c =
  Some (set_constraints (<[name := saved_constraint name k]> (constraints c))
          (<[ci_table_name k := default [] (table_constraints c !! ci_table_name k) ++ [name]]>
             (table_constraints c)) c, Some ()).
Proof.
  intros [Hc Hcode]. unfold load_constraint, json_constraint. cbn [fst snd].
  read_member name by done.
  read_member (constraint_code (ci_type k)) by (by apply as_signed_fits).
  read_member (ci_table_name k) by done.
  read_member (ci_columns k) by apply as_strings_back.
  read_value (ci_ref_table k) by done.
  read_value (ci_ref_columns k) by apply as_strings_back.
  read_value (ci_check_expr k) by done.
  by rewrite Hcode.
Qed.

Lemma load_json_sequence name s c :
  sequence_in_range s →
  load_sequence (json_sequence (name, s)) c =
  Some (set_sequences (<[name := saved_sequence name s]> (sequences c)) c, Some ()).
Proof.
  intros (H1 & H2 & H3 & H4 & H5). unfold load_sequence, json_sequence. cbn [fst snd].
  read_member name by done.
  read_member (sq_start s) by (by apply as_signed_fits).
  read_member (sq_current s) by (by apply as_signed_fits).
  read_member (sq_increment s) by (by apply as_signed_fits).
  read_member (sq_min s) by (by apply as_signed_fits).
  read_member (sq_max s) by (by apply as_signed_fits).
  read_member (sq_cycle s) by done. done.
Qed.

Lemma load_json_view name v c :
  load_view (json_view (name, v)) c =
  Some (set_views (<[name := saved_view name v]> (views c)) c, Some ()).
Proof.
  unfold load_view, json_view. cbn [fst snd].
  read_member name by done.
  read_member (vw_query v) by done.
  read_member (vw_columns v) by apply as_strings_back.
  read_value (vw_materialized v) by done. done.
Qed.

(** ** Lists of objects *)

Lemma for_each_fold {X} (enc : X → Json) (f : Json → M ()) (upd : X → Catalog → Catalog) l : ∀ c,
  Forall (λ x, ∀ c, f (enc x) c = Some (upd x c, Some ())) l →
  for_each (enc <$> l) f c = Some (foldl (λ c x, upd x c) c l, Some ()).
Proof.
  induction l as [|x l IH]; intros c Hl; [done|]. apply Forall_cons in Hl as [Hx Hl].
  rewrite fmap_cons. cbn [for_each foldl]. unfold mbind, M_bind. by rewrite Hx, IH.
Qed.

(** Entries inserted one after the other, with different keys. *)
Lemma fold_insert_lookup {X K V} `{Countable K} (key : X → K) (val : X → V) l : ∀ (m : gmap K V) k v,
  NoDup (key <$> l) →
  foldl (λ m x, <[key x := val x]> m) m l !! k = Some v ↔
  (∃ x, x ∈ l ∧ key x = k ∧ val x = v) ∨ (m !! k = Some v ∧ ∀ x, x ∈ l → key x ≠ k).
Proof.
  induction l as [|x l IH]; intros m k v Hnd; cbn [foldl].
  - split; [intros Hm; right; split; [done|]; intros x Hx; by apply not_elem_of_nil in Hx|].
    intros [(x & Hx & _)|[? _]]; [by apply not_elem_of_nil in Hx|done].
  - rewrite fmap_cons in Hnd. apply NoDup_cons in Hnd as [Hx Hnd]. rewrite IH by done.
    rewrite lookup_insert_Some. setoid_rewrite elem_of_cons. split.
    + intros [(y & ? & ? & ?)|[[[? ?]|[? ?]] Hl]]; [eauto 6|left; exists x; auto|right].
      split; [done|]. intros y [->|?]; [done|by apply Hl].
    + intros [(y & [->|?] & <- & <-)|[? Hl]]; [right|eauto|right].
      * split; [by left|]. intros y Hy Hk. apply Hx. rewrite <- Hk. by apply list_elem_of_fmap_2.
      * split; [right; split; [by apply Hl; left|done]|]. intros y Hy. apply Hl. by right.
Qed.

(** The entries of a map under their own keys. *)
Lemma fold_own_keys {V W} (f : string → V → W) (m : gmap string V) :
  foldl (λ m' kv, <[kv.1 := f kv.1 kv.2]> m') ∅ (map_to_list m) = map_imap (λ k v, Some (f k v)) m.
Proof.
  apply map_eq. intros k. apply option_eq. intros w. rewrite fold_insert_lookup.
  2:{ apply NoDup_fst_map_to_list. }
  rewrite map_lookup_imap, lookup_empty. split.
  - intros [([k' v] & Hin%elem_of_map_to_list & <- & <-)|[? _]]; [|done]. cbn in *. by rewrite Hin.
  - intros Hw. left. destruct (m !! k) as [v|] eqn:Hk; [|done]. cbn in Hw. injection Hw as <-.
    exists (k, v). split; [by apply elem_of_map_to_list|done].
Qed.

(** The map from ids back to names. *)
Lemma fold_ids {V} (id : V → Z) (m : gmap string V) (back m0 : gmap Z string) :
  (∀ n v, m !! n = Some v → back !! id v = Some n) →
  (∀ i n, back !! i = Some n → ∃ v, m !! n = Some v ∧ id v = i) →
  (∀ i n, m0 !! i = Some n → back !! i = Some n) →
  foldl (λ m' kv, <[id kv.2 := kv.1]> m') m0 (map_to_list m) = back.
Proof.
  intros H1 H2 H0. apply map_eq. intros i. apply option_eq. intros n. rewrite fold_insert_lookup.
  - split.
    + intros [([n' v] & Hin%elem_of_map_to_list & <- & <-)|[? _]]; [by apply H1|by apply H0].
    + intros Hb. destruct (H2 _ _ Hb) as (v & Hv & <-). left. exists (n, v).
      split; [by apply elem_of_map_to_list|done].
  - apply NoDup_fmap_2_strong; [|apply NoDup_map_to_list].
    intros [n1 v1] [n2 v2] Hin1%elem_of_map_to_list Hin2%elem_of_map_to_list E. cbn in *.
    pose proof (H1 _ _ Hin1) as Hb. rewrite E, (H1 _ _ Hin2) in Hb. injection Hb as ->. congruence.
Qed.

Lemma fold_tables (g : string → TableSchema → TableSchema) l : ∀ c,
  foldl (λ c kv, set_tables (<[kv.1 := g kv.1 kv.2]> (tables c)) (table_id_map c) c) c l =
  set_tables (foldl (λ m kv, <[kv.1 := g kv.1 kv.2]> m) (tables c) l) (table_id_map c) c.
Proof. induction l as [|x l IH]; intros c; [by destruct c|]. cbn [foldl]. by rewrite IH. Qed.

Lemma fold_indexes l : ∀ c,
  foldl (λ c (kv : string * Z), set_indexes (<[kv.1 := kv.2]> (cat_indexes c)) (<[kv.2 := kv.1]> (index_id_map c))
           (table_indexes c) c) c l =
  set_indexes (foldl (λ m kv, <[kv.1 := kv.2]> m) (cat_indexes c) l)
    (foldl (λ m kv, <[kv.2 := kv.1]> m) (index_id_map c) l) (table_indexes c) c.
Proof. induction l as [|x l IH]; intros c; [by destruct c|]. cbn [foldl]. by rewrite IH. Qed.

Lemma fold_constraints (g : string → ConstraintInfo → ConstraintInfo) h l : ∀ c, ∃ tc,
  foldl (λ c kv, set_constraints (<[kv.1 := g kv.1 kv.2]> (constraints c)) (h kv (table_constraints c)) c) c l =
  set_constraints (foldl (λ m kv, <[kv.1 := g kv.1 kv.2]> m) (constraints c) l) tc c.
Proof.
  induction l as [|x l IH]; intros c; [exists (table_constraints c); by destruct c|]. cbn [foldl].
  edestruct IH as [tc ->]. by eexists.
Qed.

Lemma fold_sequences (g : string → SequenceInfo → SequenceInfo) l : ∀ c,
  foldl (λ c kv, set_sequences (<[kv.1 := g kv.1 kv.2]> (sequences c)) c) c l =
  set_sequences (foldl (λ m kv, <[kv.1 := g kv.1 kv.2]> m) (sequences c) l) c.
Proof. induction l as [|x l IH]; intros c; [by destruct c|]. cbn [foldl]. by rewrite IH. Qed.

Lemma fold_views (g : string → ViewInfo → ViewInfo) l : ∀ c,
  foldl (λ c kv, set_views (<[kv.1 := g kv.1 kv.2]> (views c)) c) c l =
  set_views (foldl (λ m kv, <[kv.1 := g kv.1 kv.2]> m) (views c) l) c.
Proof. induction l as [|x l IH]; intros c; [by destruct c|]. cbn [foldl]. by rewrite IH. Qed.

(** ** The catalog *)

Lemma bind_done {B} (m : M ()) (k : () → M B) c c' : m c = Some (c', Some ()) → (m ≫= k) c = k () c'.
Proof. unfold mbind, M_bind. by intros ->. Qed.

Lemma bind_convert {A B} (o : option A) a (k : A → M B) c : o = Some a → (convert o ≫= k) c = k a c.
Proof. by intros ->. Qed.

Lemma Forall_map_to_list {K V} `{Countable K} (P : K → V → Prop) (m : gmap K V) (Q : K * V → Prop) :
  map_Forall P m → (∀ k v, P k v → Q (k, v)) → Forall Q (map_to_list m).
Proof. intros Hm HQ. apply Forall_forall. intros [k v] Hin%elem_of_map_to_list. by apply HQ, Hm. Qed.

Definition saved_catalog (tc : gmap string (list string)) (c : Catalog) : Catalog :=
  mkCatalog (map_imap (λ n s, Some (saved_table n s)) (tables c)) (table_id_map c)
    (cat_indexes c) (index_id_map c) ∅
    (map_imap (λ n k, Some (saved_constraint n k)) (constraints c)) tc
    (map_imap (λ n s, Some (saved_sequence n s)) (sequences c))
    (map_imap (λ n v, Some (saved_view n v)) (views c))
    (next_table_id c) (next_index_id c) ∅ CatalogStats_zero FREE.

Lemma load_json_catalog c : cat_ok c → in_range_catalog c →
  ∃ tc, load_json (catalog_json c) Catalog_new = Some (saved_catalog tc c, Some ()).
Proof.
  intros Hok [Ht Hi Hk Hs [Hn1 Hn2]]. unfold load_json, catalog_json, json_object.
  set (m := list_to_map _).
  assert (member "version" m = JNumber 1) as -> by done.
  assert (member "next_table_id" m = JNumber (next_table_id c)) as -> by done.
  assert (member "next_index_id" m = JNumber (next_index_id c)) as -> by done.
  assert (elements_of (member "tables" m) = json_table <$> map_to_list (tables c)) as -> by done.
  assert (elements_of (member "indexes" m) = json_index <$> map_to_list (cat_indexes c)) as -> by done.
  unfold load_optional.
  assert (m !! "constraints" = Some (JArray (json_constraint <$> map_to_list (constraints c)))) as -> by done.
  assert (m !! "sequences" = Some (JArray (json_sequence <$> map_to_list (sequences c)))) as -> by done.
  assert (m !! "views" = Some (JArray (json_view <$> map_to_list (views c)))) as -> by done.
  cbn [elements_of]. rewrite (bind_convert _ 1) by done. rewrite decide_True by done.
  rewrite (bind_convert _ (next_table_id c)) by (by apply as_unsigned_fits). rewrite bind_modify.
  rewrite (bind_convert _ (next_index_id c)) by (by apply as_unsigned_fits). rewrite bind_modify.
  erewrite bind_done.
  2:{ apply (for_each_fold json_table load_table
        (λ kv c, set_tables (<[kv.1 := saved_table kv.1 kv.2]> (tables c)) (table_id_map c) c)).
      eapply Forall_map_to_list; [exact Ht|]. intros n s Hr c'. by apply load_json_table. }
  rewrite (fold_tables saved_table), (fold_own_keys saved_table).
  erewrite bind_done.
  2:{ apply (for_each_fold json_index load_index
        (λ kv c, set_indexes (<[kv.1 := kv.2]> (cat_indexes c)) (<[kv.2 := kv.1]> (index_id_map c)) (table_indexes c) c)).
      eapply Forall_map_to_list; [exact Hi|]. intros n s Hr c'. by apply load_json_index. }
  rewrite fold_indexes. cbn [cat_indexes index_id_map set_tables set_next_ids Catalog_new].
  rewrite (fold_own_keys (λ _ i, i)), (fold_ids (λ i, i) _ (index_id_map c) ∅).
  2:{ apply Hok. } 2:{ intros i n Hin. exists i. split; [by apply Hok|done]. } 2:{ intros i n. by rewrite lookup_empty. }
  erewrite bind_done.
  2:{ apply (for_each_fold json_constraint load_constraint
        (λ kv c, set_constraints (<[kv.1 := saved_constraint kv.1 kv.2]> (constraints c))
          (<[ci_table_name kv.2 := default [] (table_constraints c !! ci_table_name kv.2) ++ [kv.1]]>
             (table_constraints c)) c)).
      eapply Forall_map_to_list; [exact Hk|]. intros n s Hr c'. by apply load_json_constraint. }
  edestruct (fold_constraints saved_constraint (λ kv tc,
    <[ci_table_name kv.2 := default [] (tc !! ci_table_name kv.2) ++ [kv.1]]> tc)) as [tc ->].
  erewrite bind_done.
  2:{ apply (for_each_fold json_sequence load_sequence
        (λ kv c, set_sequences (<[kv.1 := saved_sequence kv.1 kv.2]> (sequences c)) c)).
      eapply Forall_map_to_list; [exact Hs|]. intros n s Hr c'. by apply load_json_sequence. }
  rewrite (fold_sequences saved_sequence).
  erewrite bind_done.
  2:{ apply (for_each_fold json_view load_view
        (λ kv c, set_views (<[kv.1 := saved_view kv.1 kv.2]> (views c)) c)).
      apply Forall_forall. intros [n v] _ c'. apply load_json_view. }
  rewrite (fold_views saved_view). exists tc. unfold buildIdMaps, modify. f_equal.
  run. rewrite (fold_own_keys saved_constraint), (fold_own_keys saved_sequence), (fold_own_keys saved_view).
  assert (map_imap (λ _ i, Some i) (cat_indexes c) = cat_indexes c) as ->.
  { apply map_eq. intros n. rewrite map_lookup_imap. by destruct (cat_indexes c !! n). }
  rewrite (fold_ids (λ i, i) (cat_indexes c) (index_id_map c) (index_id_map c)).
  2:{ apply Hok. } 2:{ intros i n Hin. exists i. split; [by apply Hok|done]. } 2:{ done. }
  rewrite (fold_ids ts_id _ (table_id_map c) (table_id_map Catalog_new)); [done|..|intros i n; cbn [table_id_map Catalog_new]; by rewrite lookup_empty].
  - intros n s. rewrite map_lookup_imap. intros (s0 & Hs0 & [= <-])%bind_Some. exact (co_table _ Hok _ _ Hs0).
  - intros i n Hin. destruct (co_id _ Hok _ _ Hin) as (_ & s & Hs' & <-).
    exists (saved_table n s). by rewrite map_lookup_imap, Hs'.
Qed.


(** ** Examples *)

Definition all_ok : FileSystem := mkFileSystem (λ _, true) (λ _, true) (λ _ _, true).

Definition run_of {A} (m : M A) (c : Catalog) : Catalog := match m c with Some (c', _) => c' | None => c end.

(** A table with an index, and a sequence. *)
Definition schema1 : TableSchema := mkTableSchema 0 "t" [ColumnSchema_default] [0] ∅ ∅.
Definition sequence1 : SequenceInfo := mkSequenceInfo "s" 1 1 2 1 4 false.
Definition catalog1 : Catalog := run_of (createTable all_ok "t" schema1) Catalog_new.
Definition catalog2 : Catalog := run_of (createIndex "t_idx" "t" ["c"%string] true) catalog1.
Definition catalog3 : Catalog := run_of (createSequence sequence1) catalog2.

(** A step to the catalog that a call returns. *)
Lemma run_of_step {A} (m : M A) c fs :
  is_Some (m c) → (∀ c' r, m c = Some (c', r) → cat_step fs c c') → cat_step fs c (run_of m c).
Proof. unfold run_of. intros [[c' r] E] H. rewrite E. by eapply H. Qed.

Lemma catalog3_reachable : cat_reachable all_ok catalog3.
Proof.
  apply rtc_l with catalog1; [|apply rtc_l with catalog2; [|apply rtc_once]];
    (apply run_of_step; [vm_compute; eauto|intros c r Hr]).
  - eapply step_create_table; [..|exact Hr]; [reflexivity|reflexivity|apply Z.ltb_lt; reflexivity].
  - eapply step_create_index; [|exact Hr]. apply Z.ltb_lt. vm_compute. reflexivity.
  - eapply step_create_sequence. exact Hr.
Qed.


Lemma catalog_relocks_witness :
  getTableById 1 catalog3 = None ∧ dropIndex_id 1 catalog3 = None ∧
  listIndexes "t" catalog3 = None ∧ dropTable all_ok "t" catalog3 = None.
Proof.
  destruct (tables catalog3 !! "t"%string) as [s|] eqn:Hs; [|vm_compute in Hs; discriminate Hs].
  destruct (catalog_relocks all_ok catalog3 1 "t" "t" s 1 [] ltac:(vm_compute; reflexivity)) as (H1 & _ & H2).
  destruct (catalog_relocks all_ok catalog3 1 "t_idx" "t" s 1 [] ltac:(vm_compute; reflexivity)) as (_ & H3 & _).
  destruct H2 as [H2 H4]; [vm_compute; reflexivity|].
  split; [apply H1; vm_compute; reflexivity|]. split; [apply H3; vm_compute; reflexivity|].
  split; [exact H2|apply H4; exact Hs].
Defined.

(** Three values, the last one the greatest. *)
Lemma sequence_values_witness : ∃ c, draws "s" 3 catalog3 = Some (c, Some [1; 3; 4]).
Proof.
  destruct (sequence_values "s" 3 sequence1 catalog3 ltac:(vm_compute; reflexivity)) as (H & _).
  destruct H as [c Hc]; [vm_compute; reflexivity|reflexivity|cbn; lia..|]. exists c. exact Hc.
Defined.

Lemma catalog3_in_range : in_range_catalog catalog3.
Proof.
  assert (∀ {V} (P : string → V → Prop) k v, P k v → map_Forall P ({[k := v]} : gmap string V)) as Hone.
  { intros. by apply map_Forall_singleton. }
  constructor.
  - replace (tables catalog3) with
      ({["t"%string := index_columns 1 ["c"%string] (set_schema_id 1 schema1)]} : gmap string TableSchema)
      by (vm_compute; reflexivity).
    apply Hone. unfold table_in_range, index_columns. cbn [ts_id columns primary_key set_schema_indexes set_schema_id schema1].
    split_and!; [unfold fits; lia| |repeat constructor; unfold fits; lia].
    constructor; [|constructor]. unfold column_in_range, fits, fits_signed. cbn. split_and!; (done || lia).
  - replace (cat_indexes catalog3) with ({["t_idx"%string := 1]} : gmap string Z) by (vm_compute; reflexivity).
    apply Hone. unfold fits. lia.
  - replace (constraints catalog3) with (∅ : gmap string ConstraintInfo) by (vm_compute; reflexivity).
    apply map_Forall_empty.
  - replace (sequences catalog3) with ({["s"%string := sequence1]} : gmap string SequenceInfo)
      by (vm_compute; reflexivity).
    apply Hone. unfold sequence_in_range, fits_signed. cbn. lia.
  - replace (next_table_id catalog3) with 2 by (vm_compute; reflexivity).
    replace (next_index_id catalog3) with 2 by (vm_compute; reflexivity). unfold fits. lia.
Qed.

