(* ===== verification/ExecutorContext.v ===== *)
(** * ExecutorContext: the context of a statement (src/engine/executor_context.h)

    The context of the execution of a statement: its settings, counters, temporary
    tables, parameters and cached results, and the profiler of an operator.  The
    catalog, the pool and the transaction, to which the context points, are
    arguments of the operations that use them.  Times are nanoseconds of the clock,
    which is an argument; an elapsed time is kept in nanoseconds.  [allocate] and
    [deallocate] are the counter of the memory in use: the memory is the C library's. *)

From stdpp Require Import gmap strings.
From S2P Require Import Prelude Types Doubles Record.

Open Scope Z_scope.

(** ** Counters *)

Record ExecutionStats := mkExecutionStats {
  rows_scanned : Z;
  rows_returned : Z;
  pages_read : Z;
  pages_written : Z;
  index_lookups : Z;
  execution_time : Z;
  memory_used_bytes : Z
}.

Definition ExecutionStats_zero : ExecutionStats := mkExecutionStats 0 0 0 0 0 0 0.

(** [reset] of the same struct. *)
Definition stats_reset (s : ExecutionStats) : ExecutionStats := ExecutionStats_zero.

Definition stats_merge (s other : ExecutionStats) : ExecutionStats :=
  mkExecutionStats (wrap 64 (rows_scanned s + rows_scanned other))
    (wrap 64 (rows_returned s + rows_returned other))
    (wrap 64 (pages_read s + pages_read other))
    (wrap 64 (pages_written s + pages_written other))
    (wrap 64 (index_lookups s + index_lookups other))
    (execution_time s)
    (memory_used_bytes s `max` memory_used_bytes other).

(** The struct of the same name in types.h, with the time as a double and the bytes sent. *)
Record TypesExecutionStats := mkTypesExecutionStats {
  ts_rows_scanned : Z;
  ts_rows_returned : Z;
  ts_pages_read : Z;
  ts_pages_written : Z;
  ts_index_lookups : Z;
  ts_execution_time_ms : double;
  ts_memory_used_bytes : Z;
  ts_network_bytes : Z
}.

Definition TypesExecutionStats_zero : TypesExecutionStats := mkTypesExecutionStats 0 0 0 0 0 dzero 0 0.
Definition types_stats_reset (s : TypesExecutionStats) : TypesExecutionStats := TypesExecutionStats_zero.
Definition types_stats_merge (s other : TypesExecutionStats) : TypesExecutionStats :=
  mkTypesExecutionStats (wrap 64 (ts_rows_scanned s + ts_rows_scanned other))
    (wrap 64 (ts_rows_returned s + ts_rows_returned other))
    (wrap 64 (ts_pages_read s + ts_pages_read other))
    (wrap 64 (ts_pages_written s + ts_pages_written other))
    (wrap 64 (ts_index_lookups s + ts_index_lookups other))
    (dadd (ts_execution_time_ms s) (ts_execution_time_ms other))
    (ts_memory_used_bytes s `max` ts_memory_used_bytes other)
    (wrap 64 (ts_network_bytes s + ts_network_bytes other)).

Definition set_rows_scanned (n : Z) (s : ExecutionStats) : ExecutionStats :=
  mkExecutionStats n (rows_returned s) (pages_read s) (pages_written s) (index_lookups s)
    (execution_time s) (memory_used_bytes s).
Definition set_returned (elapsed n : Z) (s : ExecutionStats) : ExecutionStats :=
  mkExecutionStats (rows_scanned s) n (pages_read s) (pages_written s) (index_lookups s)
    elapsed (memory_used_bytes s).
Definition set_index_lookups (n : Z) (s : ExecutionStats) : ExecutionStats :=
  mkExecutionStats (rows_scanned s) (rows_returned s) (pages_read s) (pages_written s) n
    (execution_time s) (memory_used_bytes s).
Definition set_memory (n : Z) (s : ExecutionStats) : ExecutionStats :=
  mkExecutionStats (rows_scanned s) (rows_returned s) (pages_read s) (pages_written s)
    (index_lookups s) (execution_time s) n.

(** ** Settings *)

Module ExecutionMode.
Inductive ExecutionMode := NORMAL | EXPLAIN | EXPLAIN_ANALYZE | PROFILE | DEBUG.

#[export] Instance ExecutionMode_eq_dec : EqDecision ExecutionMode.
Proof. solve_decision. Defined.
End ExecutionMode.
Export (hints) ExecutionMode.
Abbreviation ExecutionMode := ExecutionMode.ExecutionMode.

Module OptimizationLevel.
Inductive OptimizationLevel := O0 | O1 | O2 | O3.
End OptimizationLevel.
Abbreviation OptimizationLevel := OptimizationLevel.OptimizationLevel.

(** The order of the enumerators. *)
Definition level_code (l : OptimizationLevel) : Z :=
  match l with
  | OptimizationLevel.O0 => 0 | OptimizationLevel.O1 => 1
  | OptimizationLevel.O2 => 2 | OptimizationLevel.O3 => 3
  end.

Record TempTable := mkTempTable {
  tt_name : string;
  tt_schema : TableSchema;
  tt_rows : list (list Value)
}.

Record ExecutorContext := mkExecutorContext {
  transaction : option Z;
  mode : ExecutionMode;
  optimization_level : OptimizationLevel;
  enable_profiling : bool;
  max_rows : Z;
  statement_timeout_ms : Z;
  ctx_stats : ExecutionStats;
  start_time : Z;
  temp_tables : gmap string TempTable;
  parameters : gmap string Value;
  result_cache : gmap string (list (list Value))
}.

(** The constructor, at time [now]. *)
Definition ExecutorContext_new (tx : option Z) (now : Z) : ExecutorContext :=
  mkExecutorContext tx ExecutionMode.NORMAL OptimizationLevel.O2 false (-1) 30000
    ExecutionStats_zero now ∅ ∅ ∅.

Definition setMode (m : ExecutionMode) (c : ExecutorContext) : ExecutorContext :=
  mkExecutorContext (transaction c) m (optimization_level c) (enable_profiling c) (max_rows c)
    (statement_timeout_ms c) (ctx_stats c) (start_time c) (temp_tables c) (parameters c)
    (result_cache c).
Definition setOptimizationLevel (l : OptimizationLevel) (c : ExecutorContext) : ExecutorContext :=
  mkExecutorContext (transaction c) (mode c) l (enable_profiling c) (max_rows c)
    (statement_timeout_ms c) (ctx_stats c) (start_time c) (temp_tables c) (parameters c)
    (result_cache c).
Definition setProfilingEnabled (b : bool) (c : ExecutorContext) : ExecutorContext :=
  mkExecutorContext (transaction c) (mode c) (optimization_level c) b (max_rows c)
    (statement_timeout_ms c) (ctx_stats c) (start_time c) (temp_tables c) (parameters c)
    (result_cache c).
Definition setMaxRows (n : Z) (c : ExecutorContext) : ExecutorContext :=
  mkExecutorContext (transaction c) (mode c) (optimization_level c) (enable_profiling c) n
    (statement_timeout_ms c) (ctx_stats c) (start_time c) (temp_tables c) (parameters c)
    (result_cache c).
Definition setStatementTimeout (ms : Z) (c : ExecutorContext) : ExecutorContext :=
  mkExecutorContext (transaction c) (mode c) (optimization_level c) (enable_profiling c)
    (max_rows c) ms (ctx_stats c) (start_time c) (temp_tables c) (parameters c) (result_cache c).
Definition upd_ctx_stats (f : ExecutionStats → ExecutionStats) (c : ExecutorContext)
  : ExecutorContext :=
  mkExecutorContext (transaction c) (mode c) (optimization_level c) (enable_profiling c)
    (max_rows c) (statement_timeout_ms c) (f (ctx_stats c)) (start_time c) (temp_tables c)
    (parameters c) (result_cache c).
Definition resetTimer (now : Z) (c : ExecutorContext) : ExecutorContext :=
  mkExecutorContext (transaction c) (mode c) (optimization_level c) (enable_profiling c)
    (max_rows c) (statement_timeout_ms c) (ctx_stats c) now (temp_tables c) (parameters c)
    (result_cache c).
Definition set_temp_tables (m : gmap string TempTable) (c : ExecutorContext) : ExecutorContext :=
  mkExecutorContext (transaction c) (mode c) (optimization_level c) (enable_profiling c)
    (max_rows c) (statement_timeout_ms c) (ctx_stats c) (start_time c) m (parameters c)
    (result_cache c).
Definition set_parameters (m : gmap string Value) (c : ExecutorContext) : ExecutorContext :=
  mkExecutorContext (transaction c) (mode c) (optimization_level c) (enable_profiling c)
    (max_rows c) (statement_timeout_ms c) (ctx_stats c) (start_time c) (temp_tables c) m
    (result_cache c).
Definition set_result_cache (m : gmap string (list (list Value))) (c : ExecutorContext)
  : ExecutorContext :=
  mkExecutorContext (transaction c) (mode c) (optimization_level c) (enable_profiling c)
    (max_rows c) (statement_timeout_ms c) (ctx_stats c) (start_time c) (temp_tables c)
    (parameters c) m.

(** The elapsed milliseconds are signed and are converted to the unsigned type
    of the timeout for the comparison. *)
Definition checkTimeout (now : Z) (c : ExecutorContext) : bool :=
  statement_timeout_ms c <? wrap 64 ((now - start_time c) ÷ 1000000).

Definition scanned_row (s : ExecutionStats) : ExecutionStats :=
  set_rows_scanned (wrap 64 (rows_scanned s + 1)) s.

Definition allocate (size : Z) : ExecutorContext → ExecutorContext :=
  upd_ctx_stats (λ s, set_memory (wrap 64 (memory_used_bytes s + size)) s).
Definition deallocate (size : Z) : ExecutorContext → ExecutorContext :=
  upd_ctx_stats (λ s, set_memory (wrap 64 (memory_used_bytes s - size)) s).

(** ** Temporary tables, parameters, cached results *)

Definition createTempTable (name : string) (schema : TableSchema) (c : ExecutorContext)
  : ExecutorContext * TempTable :=
  let table := mkTempTable name schema [] in
  (set_temp_tables (<[name := table]> (temp_tables c)) c, table).
Definition getTempTable (name : string) (c : ExecutorContext) : option TempTable :=
  temp_tables c !! name.
Definition dropTempTable (name : string) (c : ExecutorContext) : ExecutorContext :=
  set_temp_tables (delete name (temp_tables c)) c.

Definition setParameter (name : string) (v : Value) (c : ExecutorContext) : ExecutorContext :=
  set_parameters (<[name := v]> (parameters c)) c.
Definition getParameter (name : string) (c : ExecutorContext) : Value :=
  default Value_null (parameters c !! name).
Definition hasParameter (name : string) (c : ExecutorContext) : bool :=
  bool_decide (is_Some (parameters c !! name)).

Definition cacheResult (query_hash : string) (result : list (list Value)) (c : ExecutorContext)
  : ExecutorContext :=
  let cache := if decide (100 < size (result_cache c))%nat then ∅ else result_cache c in
  set_result_cache (<[query_hash := result]> cache) c.
Definition getCachedResult (query_hash : string) (c : ExecutorContext)
  : option (list (list Value)) := result_cache c !! query_hash.
Definition ctx_clearCache (c : ExecutorContext) : ExecutorContext := set_result_cache ∅ c.

(** ** Profiler of an operator *)

Record OperatorProfiler := mkProfiler {
  prof_start : Z;
  prof_elapsed : Z;
  prof_rows : Z;
  prof_pages : Z;
  prof_lookups : Z
}.

(** The start of a new profiler is the epoch of the clock. *)
Definition Profiler_new : OperatorProfiler := mkProfiler 0 0 0 0 0.
Definition prof_begin (now : Z) (p : OperatorProfiler) : OperatorProfiler :=
  mkProfiler now (prof_elapsed p) (prof_rows p) (prof_pages p) (prof_lookups p).
Definition prof_stop (now : Z) (p : OperatorProfiler) : OperatorProfiler :=
  mkProfiler (prof_start p) (now - prof_start p) (prof_rows p) (prof_pages p) (prof_lookups p).
Definition recordRow (p : OperatorProfiler) : OperatorProfiler :=
  mkProfiler (prof_start p) (prof_elapsed p) (wrap 64 (prof_rows p + 1)) (prof_pages p)
    (prof_lookups p).
Definition recordPage (p : OperatorProfiler) : OperatorProfiler :=
  mkProfiler (prof_start p) (prof_elapsed p) (prof_rows p) (wrap 64 (prof_pages p + 1))
    (prof_lookups p).
Definition recordIndexLookup (p : OperatorProfiler) : OperatorProfiler :=
  mkProfiler (prof_start p) (prof_elapsed p) (prof_rows p) (prof_pages p)
    (wrap 64 (prof_lookups p + 1)).
Definition prof_reset (p : OperatorProfiler) : OperatorProfiler :=
  mkProfiler (prof_start p) 0 0 0 0.

(** ** The cache keeps to 101 results *)

Fixpoint cache_all (results : list (string * list (list Value))) (c : ExecutorContext)
  : ExecutorContext :=
  match results with
  | [] => c
  | (h, r) :: results' => cache_all results' (cacheResult h r c)
  end.

Lemma cacheResult_size h r c : (size (result_cache (cacheResult h r c)) ≤ 101)%nat.
Proof.
  unfold cacheResult. cbn. case_decide.
  - rewrite map_size_insert_None; [rewrite map_size_empty; lia|done].
  - destruct (result_cache c !! h) eqn:E.
    + rewrite map_size_insert_Some by done. lia.
    + rewrite map_size_insert_None by done. lia.
Qed.

Lemma cacheResult_get h r c : getCachedResult h (cacheResult h r c) = Some r.
Proof. unfold getCachedResult, cacheResult. cbn. apply lookup_insert_eq. Qed.

Lemma cache_all_bound results c :
  (size (result_cache c) ≤ 101)%nat → (size (result_cache (cache_all results c)) ≤ 101)%nat.
Proof.
  revert c. induction results as [|[h r] results IH]; intros c Hc; [done|].
  cbn. apply IH, cacheResult_size.
Qed.

(** A start in the future, by a millisecond or more, counts as a timeout: the
    conversion makes a negative elapsed time huge. *)
Lemma timeout_backwards now c :
  start_time c - now < 2 ^ 63 * 1000000 → 1000000 ≤ start_time c - now →
  0 ≤ statement_timeout_ms c < 2 ^ 63 → checkTimeout now c = true.
Proof.
  intros H1 H2 H3. unfold checkTimeout. apply Z.ltb_lt.
  set (e := (now - start_time c) ÷ 1000000).
  assert (- 2 ^ 63 < e < 0) as He.
  { unfold e. replace (now - start_time c) with (- (start_time c - now)) by lia.
    rewrite Z.quot_opp_l by lia. rewrite Z.quot_div_nonneg by lia.
    assert (0 < (start_time c - now) / 1000000) by (apply Z.div_str_pos; lia).
    assert ((start_time c - now) / 1000000 < 2 ^ 63) by (apply Z.div_lt_upper_bound; lia). lia. }
  unfold wrap. rewrite <- (Z.mod_add e 1) by done. rewrite Z.mod_small by lia. lia.
Qed.
