(* ===== verification/Operators.v ===== *)
(** * Operators: the operators of a plan (src/engine/query_executor.h, query_executor.cpp)

    [ExecutorOperator] is the abstract class of the operators, an interface to the
    state of an operator, and each operator is an instance over those of its
    children.  A [unique_ptr<ExecutorOperator>] to an operator that is known at run
    time only is an [AnyOperator]: the shape of the tree, which never changes, and
    a state of the type that the shape determines.  The null pointer is the shape
    [SNull], on which every call is undefined.

    The operators share a [World]: the context with its counters, the catalog and
    the reading of the clock.  A call is [None] when it does not return.  The
    loops, and the recursion of [SeqScanOperator::next], take fuel.  The leaves of
    the tree are a parameter of the shapes, so that the theorems on the inner
    operators hold over any source of rows; [Scan] is the code's. *)

From stdpp Require Import gmap strings.
From S2P Require Import Prelude CxxString Types Record Page FileManager BufferPool Table.
From S2P Require Import AST Catalog ExecutorContext.

Open Scope Z_scope.

Abbreviation Row := (list Value).

(** ** The world and the monad of calls *)

Record World := mkWorld { w_ctx : ExecutorContext; w_catalog : Catalog; w_now : Z }.

Definition Op (A : Type) : Type := World → option (World * A).

#[export] Instance Op_ret : MRet Op := λ A a w, Some (w, a).
#[export] Instance Op_bind : MBind Op := λ A B f m w,
  match m w with Some (w', a) => f a w' | None => None end.

#[export] Instance Op_fmap : FMap Op := λ A B f m w,
  match m w with Some (w', a) => Some (w', f a) | None => None end.

Definition undefined {A} : Op A := λ _, None.
Definition now : Op Z := λ w, Some (w, w_now w).
Definition upd_world_stats (f : ExecutionStats → ExecutionStats) : Op () := λ w,
  Some (mkWorld (upd_ctx_stats f (w_ctx w)) (w_catalog w) (w_now w), ()).
(** A call of the catalog; an exception leaves the operator with it. *)
Definition on_catalog {A} (m : Catalog.M A) : Op A := λ w,
  match m (w_catalog w) with
  | Some (c, Some a) => Some (mkWorld (w_ctx w) c (w_now w), a)
  | _ => None
  end.

(** ** The interface *)

Class ExecutorOperator (S : Type) := mkOperator {
  open : nat → S → Op (S * StatusCode);
  next : nat → S → Row → Op (S * StatusCode * Row);
  close : S → Op S;
  rewind : S → Op S;
  getProfiler : S → OperatorProfiler;
  getName : S → string;
  getDescription : S → string
}.

(** [while (op->next(row) == Status::OK) body(row)], where the body appends. *)
Fixpoint drain {S} `{ExecutorOperator S} (fuel : nat) (s : S) (row : Row) : Op (S * list Row) :=
  match fuel with
  | O => undefined
  | S fuel' =>
      r ← next fuel' s row;
      let '(s, status, row) := r in
      if decide (status = StatusCode.OK) then
        rest ← drain fuel' s row;
        mret (rest.1, row :: rest.2)
      else mret (s, [])
  end.

(** ** Scans *)

Module Scan.

(** An iterator whose [table_] is null: no page is ever loaded. *)
Definition TableIterator_null (pid slot : Z) : TableIterator := mkTableIterator pid slot None.

(** [operator++] of one: without a page the first step leaves the pages. *)
Definition iterator_next_null (it : TableIterator) : TableIterator :=
  if decide (current_page_id it ≠ INVALID_PAGE_ID) then
    mkTableIterator INVALID_PAGE_ID (wrap 16 (current_slot it + 1)) (current_page it)
  else it.

(** [operator*] of one. *)
Definition iterator_deref_null (it : TableIterator) : option (Z * Row) :=
  match current_page it with
  | None => Some (getRecordId it, [])
  | Some _ => None
  end.

Record SeqScanOperator := mkSeqScan {
  ss_table_name : string;
  ss_filter : option ASTNode;
  ss_table : option TableSchema;
  ss_iterator : TableIterator;
  ss_profiler : OperatorProfiler
}.

Definition SeqScan_new (table_name : string) (filter : option ASTNode) : SeqScanOperator :=
  mkSeqScan table_name filter None (TableIterator_null INVALID_PAGE_ID 0) Profiler_new.

Definition seq_open (s : SeqScanOperator) : Op (SeqScanOperator * StatusCode) :=
  table ← on_catalog (getTable (ss_table_name s));
  match table with
  | None =>
      mret (mkSeqScan (ss_table_name s) (ss_filter s) None (ss_iterator s) (ss_profiler s),
            StatusCode.NOT_FOUND)
  | Some _ =>
      t ← now;
      mret (mkSeqScan (ss_table_name s) (ss_filter s) table (TableIterator_null 0 0)
              (prof_begin t (ss_profiler s)), StatusCode.OK)
  end.

Definition evaluateFilter (row : Row) : bool := true.

Definition seq_advance (s : SeqScanOperator) : SeqScanOperator :=
  mkSeqScan (ss_table_name s) (ss_filter s) (ss_table s) (iterator_next_null (ss_iterator s))
    (ss_profiler s).
Definition seq_count (s : SeqScanOperator) : SeqScanOperator :=
  mkSeqScan (ss_table_name s) (ss_filter s) (ss_table s) (ss_iterator s)
    (recordRow (ss_profiler s)).

Fixpoint seq_next (fuel : nat) (s : SeqScanOperator) (row : Row)
  : Op (SeqScanOperator * StatusCode * Row) :=
  match fuel with
  | O => undefined
  | S fuel' =>
      if iterator_eq (ss_iterator s) (TableIterator_null INVALID_PAGE_ID 0) then
        mret (s, StatusCode.NOT_FOUND, row)
      else
        match iterator_deref_null (ss_iterator s) with
        | None => undefined
        | Some (rid, values) =>
            if bool_decide (is_Some (ss_filter s)) && negb (evaluateFilter values) then
              seq_next fuel' (seq_advance s) row
            else
              upd_world_stats scanned_row ;;
              mret (seq_count (seq_advance s), StatusCode.OK, values)
        end
  end.

Definition seq_close (s : SeqScanOperator) : Op SeqScanOperator :=
  t ← now;
  mret (mkSeqScan (ss_table_name s) (ss_filter s) (ss_table s) (ss_iterator s)
          (prof_stop t (ss_profiler s))).

Definition seq_getDescription (s : SeqScanOperator) : string :=
  "Seq Scan on " +:+ ss_table_name s.

(** The iterator is not set back. *)
Definition seq_rewind (s : SeqScanOperator) : Op SeqScanOperator := mret s.

#[export] Instance SeqScan_operator : ExecutorOperator SeqScanOperator :=
  mkOperator _ (λ _, seq_open) seq_next seq_close seq_rewind
    ss_profiler (λ _, "SeqScan"%string) seq_getDescription.

(** The pointer [index_] is never set: what reads it is undefined. *)
Record IndexScanOperator := mkIndexScan {
  is_table_name : string;
  is_index_name : string;
  is_filter : option ASTNode;
  is_table : option TableSchema;
  is_profiler : OperatorProfiler
}.

Definition IndexScan_new (table_name index_name : string) (filter : option ASTNode)
  : IndexScanOperator := mkIndexScan table_name index_name filter None Profiler_new.

Definition index_open (s : IndexScanOperator) : Op (IndexScanOperator * StatusCode) :=
  table ← on_catalog (getTable (is_table_name s));
  match table with
  | None =>
      mret (mkIndexScan (is_table_name s) (is_index_name s) (is_filter s) None (is_profiler s),
            StatusCode.NOT_FOUND)
  | Some _ =>
      _ ← on_catalog (getIndexId (is_index_name s));
      t ← now;
      mret (mkIndexScan (is_table_name s) (is_index_name s) (is_filter s) table
              (prof_begin t (is_profiler s)), StatusCode.OK)
  end.

Definition index_close (s : IndexScanOperator) : Op IndexScanOperator :=
  t ← now;
  mret (mkIndexScan (is_table_name s) (is_index_name s) (is_filter s) (is_table s)
          (prof_stop t (is_profiler s))).

Definition index_getDescription (s : IndexScanOperator) : string :=
  "Index Scan using " +:+ is_index_name s +:+ " on " +:+ is_table_name s.

(** [index_->end()] and [index_->begin()] through the null pointer *)
Definition index_next (s : IndexScanOperator) (row : Row) : Op (IndexScanOperator * StatusCode * Row) := undefined.
Definition index_rewind (s : IndexScanOperator) : Op IndexScanOperator := undefined.

#[export] Instance IndexScan_operator : ExecutorOperator IndexScanOperator :=
  mkOperator _ (λ _, index_open) (λ _, index_next) index_close index_rewind
    is_profiler (λ _, "IndexScan"%string) index_getDescription.

End Scan.
Export (hints) Scan.

(** ** Filter *)

Module Filter.
Definition filter_getDescription : string := "Filter".

Section Filter.
Context {C : Type} `{ExecutorOperator C}.

Record FilterOperator := mkFilter {
  f_child : C;
  f_condition : option ASTNode;
  f_profiler : OperatorProfiler
}.

Definition Filter_new (child : C) (condition : option ASTNode) : FilterOperator :=
  mkFilter child condition Profiler_new.

Definition filter_open (fuel : nat) (s : FilterOperator) : Op (FilterOperator * StatusCode) :=
  r ← open fuel (f_child s);
  if decide (r.2 = StatusCode.OK) then
    t ← now; mret (mkFilter r.1 (f_condition s) (prof_begin t (f_profiler s)), StatusCode.OK)
  else mret (mkFilter r.1 (f_condition s) (f_profiler s), r.2).

Definition evaluateCondition (row : Row) : bool := true.

Fixpoint filter_next (fuel : nat) (s : FilterOperator) (row : Row)
  : Op (FilterOperator * StatusCode * Row) :=
  match fuel with
  | O => undefined
  | S fuel' =>
      r ← next fuel' (f_child s) row;
      let '(child, status, row) := r in
      if decide (status = StatusCode.OK) then
        if evaluateCondition row then
          mret (mkFilter child (f_condition s) (recordRow (f_profiler s)), StatusCode.OK, row)
        else filter_next fuel' (mkFilter child (f_condition s) (f_profiler s)) row
      else mret (mkFilter child (f_condition s) (f_profiler s), status, row)
  end.

Definition filter_close (s : FilterOperator) : Op FilterOperator :=
  child ← close (f_child s); t ← now;
  mret (mkFilter child (f_condition s) (prof_stop t (f_profiler s))).
Definition filter_rewind (s : FilterOperator) : Op FilterOperator :=
  child ← rewind (f_child s); mret (mkFilter child (f_condition s) (f_profiler s)).

#[export] Instance Filter_operator : ExecutorOperator FilterOperator :=
  mkOperator _ filter_open filter_next filter_close filter_rewind
    f_profiler (λ _, "Filter"%string) (λ _, filter_getDescription).
End Filter.
Arguments FilterOperator : clear implicits.
End Filter.
Export (hints) Filter.

(** ** Project *)

Module Project.

Definition project_expression (expr : ASTNode) (row : Row) : Value := Value_null.

Definition project_getDescription : string := "Project".

Section Project.
Context {C : Type} `{ExecutorOperator C}.

Record ProjectOperator := mkProject {
  p_child : C;
  p_expressions : list ASTNode;
  p_aliases : list string;
  p_profiler : OperatorProfiler
}.

Definition Project_new (child : C) (expressions : list ASTNode) (aliases : list string)
  : ProjectOperator := mkProject child expressions aliases Profiler_new.

Definition project_open (fuel : nat) (s : ProjectOperator) : Op (ProjectOperator * StatusCode) :=
  r ← open fuel (p_child s);
  if decide (r.2 = StatusCode.OK) then
    t ← now;
    mret (mkProject r.1 (p_expressions s) (p_aliases s) (prof_begin t (p_profiler s)),
          StatusCode.OK)
  else mret (mkProject r.1 (p_expressions s) (p_aliases s) (p_profiler s), r.2).

Definition project_next (fuel : nat) (s : ProjectOperator) (row : Row)
  : Op (ProjectOperator * StatusCode * Row) :=
  r ← next fuel (p_child s) [];
  let '(child, status, child_row) := r in
  if decide (status = StatusCode.OK) then
    mret (mkProject child (p_expressions s) (p_aliases s) (recordRow (p_profiler s)),
          StatusCode.OK, (λ expr, project_expression expr child_row) <$> p_expressions s)
  else mret (mkProject child (p_expressions s) (p_aliases s) (p_profiler s), status, row).

Definition project_close (s : ProjectOperator) : Op ProjectOperator :=
  child ← close (p_child s); t ← now;
  mret (mkProject child (p_expressions s) (p_aliases s) (prof_stop t (p_profiler s))).
Definition project_rewind (s : ProjectOperator) : Op ProjectOperator :=
  child ← rewind (p_child s);
  mret (mkProject child (p_expressions s) (p_aliases s) (p_profiler s)).

#[export] Instance Project_operator : ExecutorOperator ProjectOperator :=
  mkOperator _ project_open project_next project_close project_rewind
    p_profiler (λ _, "Project"%string) (λ _, project_getDescription).
End Project.
Arguments ProjectOperator : clear implicits.
End Project.
Export (hints) Project.

(** ** Join *)

Module Join.

Inductive JoinAlgorithm := NESTED_LOOP | HASH | MERGE.

#[export] Instance JoinAlgorithm_eq_dec : EqDecision JoinAlgorithm.
Proof. solve_decision. Defined.

(** Neither the condition nor the rows matter. *)
Definition evaluateJoinCondition (condition : option ASTNode) (left_row right_row : Row) : bool :=
  match condition with None => true | Some _ => true end.

(** [size_t hash * 31 + int32_t] *)
Definition hashRow (row : Row) (condition : option ASTNode) : Z :=
  foldl (λ hash v, wrap 64 (hash * 31 + int_val v)) 0 row.

Definition join_name (a : JoinAlgorithm) : string :=
  match a with
  | NESTED_LOOP => "NestedLoopJoin" | HASH => "HashJoin" | MERGE => "MergeJoin"
  end.

Definition join_description (a : JoinAlgorithm) (t : JoinType) : string :=
  join_name a +:+
  match t with
  | JoinType.INNER => " (Inner)" | JoinType.LEFT => " (Left)" | JoinType.RIGHT => " (Right)"
  | JoinType.FULL => " (Full)" | _ => ""
  end.

Section Join.
Context {L R : Type} `{ExecutorOperator L} `{ExecutorOperator R}.

(** The multimap is the list of its entries, in the order of insertion. *)
Record JoinOperator := mkJoin {
  j_left : L;
  j_right : R;
  j_condition : option ASTNode;
  j_type : JoinType;
  j_algorithm : JoinAlgorithm;
  j_profiler : OperatorProfiler;
  current_left_row : Row;
  right_rows : list Row;
  right_index : nat;
  hash_table : list (Z * Row)
}.

Definition Join_new (left : L) (right : R) (condition : option ASTNode) (type : JoinType)
    (algorithm : JoinAlgorithm) : JoinOperator :=
  mkJoin left right condition type algorithm Profiler_new [] [] 0 [].

Definition set_children (l : L) (r : R) (s : JoinOperator) : JoinOperator :=
  mkJoin l r (j_condition s) (j_type s) (j_algorithm s) (j_profiler s) (current_left_row s)
    (right_rows s) (right_index s) (hash_table s).
Definition set_profiler (p : OperatorProfiler) (s : JoinOperator) : JoinOperator :=
  mkJoin (j_left s) (j_right s) (j_condition s) (j_type s) (j_algorithm s) p (current_left_row s)
    (right_rows s) (right_index s) (hash_table s).
Definition set_position (row : Row) (i : nat) (s : JoinOperator) : JoinOperator :=
  mkJoin (j_left s) (j_right s) (j_condition s) (j_type s) (j_algorithm s) (j_profiler s) row
    (right_rows s) i (hash_table s).
Definition add_right (rows : list Row) (s : JoinOperator) : JoinOperator :=
  mkJoin (j_left s) (j_right s) (j_condition s) (j_type s) (j_algorithm s) (j_profiler s)
    (current_left_row s) (right_rows s ++ rows) (right_index s)
    (hash_table s ++ ((λ row, (hashRow row (j_condition s), row)) <$> rows)).

Definition join_open (fuel : nat) (s : JoinOperator) : Op (JoinOperator * StatusCode) :=
  l ← open fuel (j_left s);
  let s := set_children l.1 (j_right s) s in
  if decide (l.2 = StatusCode.OK) then
    r ← open fuel (j_right s);
    let s := set_children (j_left s) r.1 s in
    if decide (r.2 = StatusCode.OK) then
      s ← (if decide (j_algorithm s = HASH) then
             d ← drain fuel (j_right s) [];
             rchild ← rewind d.1;
             mret (add_right d.2 (set_children (j_left s) rchild s))
           else mret s);
      t ← now;
      mret (set_profiler (prof_begin t (j_profiler s)) s, StatusCode.OK)
    else mret (s, r.2)
  else mret (s, l.2).

(** The inner loop: the index after the row that matches. *)
Fixpoint find_match (condition : option ASTNode) (left_row : Row) (rows : list Row) (i : nat)
  : option (nat * Row) :=
  match rows with
  | [] => None
  | right_row :: rows' =>
      if evaluateJoinCondition condition left_row right_row then Some (S i, right_row)
      else find_match condition left_row rows' (S i)
  end.

(** The left row is fetched into the member, and stays there when there is none. *)
Fixpoint join_next (fuel : nat) (s : JoinOperator) (row : Row)
  : Op (JoinOperator * StatusCode * Row) :=
  match fuel with
  | O => undefined
  | S fuel' =>
      r ← (match current_left_row s with
           | [] =>
               l ← next fuel' (j_left s) [];
               let '(lchild, status, left_row) := l in
               let s := set_children lchild (j_right s) s in
               mret (if decide (status = StatusCode.OK) then (set_position left_row 0 s, None)
                     else (set_position left_row (right_index s) s, Some status))
           | _ => mret (s, None)
           end);
      match r with
      | (s, Some status) =>
          mret (s, (if decide (status = StatusCode.NOT_FOUND) then StatusCode.NOT_FOUND
                    else status), row)
      | (s, None) =>
          match find_match (j_condition s) (current_left_row s)
                  (drop (right_index s) (right_rows s)) (right_index s) with
          | Some (i, right_row) =>
              mret (set_profiler (recordRow (j_profiler s))
                      (set_position (current_left_row s) i s), StatusCode.OK,
                    current_left_row s ++ right_row)
          | None => join_next fuel' (set_position [] (length (right_rows s)) s) row
          end
      end
  end.

Definition join_close (s : JoinOperator) : Op JoinOperator :=
  l ← close (j_left s); r ← close (j_right s); t ← now;
  mret (set_profiler (prof_stop t (j_profiler s)) (set_children l r s)).
Definition join_rewind (s : JoinOperator) : Op JoinOperator :=
  l ← rewind (j_left s); r ← rewind (j_right s);
  mret (set_position [] 0 (set_children l r s)).

#[export] Instance Join_operator : ExecutorOperator JoinOperator :=
  mkOperator _ join_open join_next join_close join_rewind
    j_profiler (λ s, join_name (j_algorithm s)) (λ s, join_description (j_algorithm s) (j_type s)).
End Join.
Arguments JoinOperator : clear implicits.
End Join.
Export (hints) Join.

(** ** Sort *)

Module Sort.

(** The expression of a key stays null. *)
Record SortKey := mkSortKey { sk_expr : option ASTNode; sk_ascending : bool }.

Fixpoint compareRows (keys : list SortKey) (a b : Row) : bool :=
  match keys with
  | [] => false
  | key :: keys' =>
      let cmp := 0 in
      if cmp <? 0 then sk_ascending key
      else if 0 <? cmp then negb (sk_ascending key)
      else compareRows keys' a b
  end.

Definition sort_getDescription : string := "Sort".

Section Sort.
(** [std::sort] *)
Variable sort : (Row → Row → bool) → list Row → list Row.
Context {C : Type} `{ExecutorOperator C}.

Record SortOperator := mkSort {
  so_child : C;
  so_keys : list SortKey;
  sorted_rows : list Row;
  so_index : nat;
  so_profiler : OperatorProfiler
}.

Definition Sort_new (child : C) (keys : list SortKey) : SortOperator :=
  mkSort child keys [] 0 Profiler_new.

Definition sortRows (keys : list SortKey) (rows : list Row) : list Row :=
  sort (compareRows keys) rows.

Fixpoint load_rows (fuel : nat) (child : C) (row : Row) : Op (C * list Row) :=
  match fuel with
  | O => undefined
  | S fuel' =>
      r ← next fuel' child row;
      let '(child, status, row) := r in
      if decide (status = StatusCode.OK) then
        upd_world_stats scanned_row ;;
        rest ← load_rows fuel' child row;
        mret (rest.1, row :: rest.2)
      else mret (child, [])
  end.

Definition sort_open (fuel : nat) (s : SortOperator) : Op (SortOperator * StatusCode) :=
  r ← open fuel (so_child s);
  if decide (r.2 = StatusCode.OK) then
    t ← now;
    l ← load_rows fuel r.1 [];
    child ← close l.1;
    mret (mkSort child (so_keys s) (sortRows (so_keys s) (sorted_rows s ++ l.2)) 0
            (prof_begin t (so_profiler s)), StatusCode.OK)
  else mret (mkSort r.1 (so_keys s) (sorted_rows s) (so_index s) (so_profiler s), r.2).

Definition sort_next (s : SortOperator) (row : Row) : Op (SortOperator * StatusCode * Row) :=
  match sorted_rows s !! so_index s with
  | None => mret (s, StatusCode.NOT_FOUND, row)
  | Some r =>
      mret (mkSort (so_child s) (so_keys s) (sorted_rows s) (S (so_index s))
              (recordRow (so_profiler s)), StatusCode.OK, r)
  end.

Definition sort_close (s : SortOperator) : Op SortOperator :=
  t ← now;
  mret (mkSort (so_child s) (so_keys s) (sorted_rows s) (so_index s) (prof_stop t (so_profiler s))).
Definition sort_rewind (s : SortOperator) : SortOperator :=
  mkSort (so_child s) (so_keys s) (sorted_rows s) 0 (so_profiler s).

#[export] Instance Sort_operator : ExecutorOperator SortOperator :=
  mkOperator _ sort_open (λ _, sort_next) sort_close (λ s, mret (sort_rewind s))
    so_profiler (λ _, "Sort"%string) (λ _, sort_getDescription).
End Sort.
Arguments SortOperator : clear implicits.
End Sort.
Export (hints) Sort.

(** ** Limit *)

Module Limit.
Section Limit.
Context {C : Type} `{ExecutorOperator C}.

Record LimitOperator := mkLimit {
  l_child : C;
  l_limit : Z;
  l_offset : Z;
  current_row : Z;
  l_profiler : OperatorProfiler
}.

Definition Limit_new (child : C) (limit offset : Z) : LimitOperator :=
  mkLimit child limit offset 0 Profiler_new.

(** One turn per row that is left to skip. *)
Fixpoint skip_rows (fuel n : nat) (child : C) (row : Row) : Op C :=
  match n with
  | O => mret child
  | S n' =>
      r ← next fuel child row;
      let '(child, status, row) := r in
      if decide (status = StatusCode.OK) then skip_rows fuel n' child row else mret child
  end.

Definition limit_open (fuel : nat) (s : LimitOperator) : Op (LimitOperator * StatusCode) :=
  r ← open fuel (l_child s);
  if decide (r.2 = StatusCode.OK) then
    child ← skip_rows fuel (Z.to_nat (l_offset s)) r.1 [];
    t ← now;
    mret (mkLimit child (l_limit s) (l_offset s) (current_row s) (prof_begin t (l_profiler s)),
          StatusCode.OK)
  else mret (mkLimit r.1 (l_limit s) (l_offset s) (current_row s) (l_profiler s), r.2).

Definition limit_next (fuel : nat) (s : LimitOperator) (row : Row)
  : Op (LimitOperator * StatusCode * Row) :=
  if l_limit s <=? current_row s then mret (s, StatusCode.NOT_FOUND, row)
  else
    r ← next fuel (l_child s) row;
    let '(child, status, row) := r in
    if decide (status = StatusCode.OK) then
      mret (mkLimit child (l_limit s) (l_offset s) (wrap 64 (current_row s + 1))
              (recordRow (l_profiler s)), status, row)
    else mret (mkLimit child (l_limit s) (l_offset s) (current_row s) (l_profiler s), status, row).

Definition limit_close (s : LimitOperator) : Op LimitOperator :=
  child ← close (l_child s); t ← now;
  mret (mkLimit child (l_limit s) (l_offset s) (current_row s) (prof_stop t (l_profiler s))).
Definition limit_rewind (s : LimitOperator) : Op LimitOperator :=
  child ← rewind (l_child s);
  mret (mkLimit child (l_limit s) (l_offset s) 0 (l_profiler s)).

Definition limit_getDescription (s : LimitOperator) : string :=
  "Limit (" +:+ to_string (l_limit s) +:+ ")".

#[export] Instance Limit_operator : ExecutorOperator LimitOperator :=
  mkOperator _ limit_open limit_next limit_close limit_rewind
    l_profiler (λ _, "Limit"%string) limit_getDescription.
End Limit.
Arguments LimitOperator : clear implicits.
End Limit.
Export (hints) Limit.

(** ** Operators that are known at run time *)

Inductive ScanOperator :=
  | SeqScan (s : Scan.SeqScanOperator)
  | IndexScan (s : Scan.IndexScanOperator).

#[export] Instance ScanOperator_operator : ExecutorOperator ScanOperator :=
  mkOperator _
    (λ n s, match s with
            | SeqScan s => r ← open n s; mret (SeqScan r.1, r.2)
            | IndexScan s => r ← open n s; mret (IndexScan r.1, r.2)
            end)
    (λ n s row, match s with
                | SeqScan s => r ← next n s row; mret (SeqScan r.1.1, r.1.2, r.2)
                | IndexScan s => r ← next n s row; mret (IndexScan r.1.1, r.1.2, r.2)
                end)
    (λ s, match s with
          | SeqScan s => SeqScan <$> close s : Op _
          | IndexScan s => IndexScan <$> close s : Op _
          end)
    (λ s, match s with
          | SeqScan s => SeqScan <$> rewind s : Op _
          | IndexScan s => IndexScan <$> rewind s : Op _
          end)
    (λ s, match s with SeqScan s => getProfiler s | IndexScan s => getProfiler s end)
    (λ s, match s with SeqScan s => getName s | IndexScan s => getName s end)
    (λ s, match s with SeqScan s => getDescription s | IndexScan s => getDescription s end).

Inductive Shape :=
  | SNull
  | SLeaf
  | SFilter (child : Shape)
  | SProject (child : Shape)
  | SJoin (lchild rchild : Shape)
  | SSort (child : Shape)
  | SLimit (child : Shape).

(** Every call on the null pointer. *)
Definition null_operator : ExecutorOperator () :=
  mkOperator _ (λ _ _, undefined) (λ _ _ _, undefined) (λ _, undefined) (λ _, undefined)
    (λ _, Profiler_new) (λ _, EmptyString) (λ _, EmptyString).

Section Tree.
Variable sort : (Row → Row → bool) → list Row → list Row.
Context {L : Type} {leaf : ExecutorOperator L}.

Fixpoint state (sh : Shape) : Type :=
  match sh with
  | SNull => ()
  | SLeaf => L
  | SFilter c => Filter.FilterOperator (state c)
  | SProject c => Project.ProjectOperator (state c)
  | SJoin l r => Join.JoinOperator (state l) (state r)
  | SSort c => Sort.SortOperator (state c)
  | SLimit c => Limit.LimitOperator (state c)
  end.

Fixpoint operators (sh : Shape) : ExecutorOperator (state sh) :=
  match sh with
  | SNull => null_operator
  | SLeaf => leaf
  | SFilter c => @Filter.Filter_operator _ (operators c)
  | SProject c => @Project.Project_operator _ (operators c)
  | SJoin l r => @Join.Join_operator _ _ (operators l) (operators r)
  | SSort c => @Sort.Sort_operator sort _ (operators c)
  | SLimit c => @Limit.Limit_operator _ (operators c)
  end.

Record AnyOperator := mkAny { any_shape : Shape; any_state : state any_shape }.

Definition null : AnyOperator := mkAny SNull ().

Definition is_null (op : AnyOperator) : bool :=
  match any_shape op with SNull => true | _ => false end.

#[export] Instance AnyOperator_operator : ExecutorOperator AnyOperator :=
  mkOperator _
    (λ n op, r ← @open _ (operators (any_shape op)) n (any_state op); mret (mkAny _ r.1, r.2))
    (λ n op row, r ← @next _ (operators (any_shape op)) n (any_state op) row;
                 mret (mkAny _ r.1.1, r.1.2, r.2))
    (λ op, s ← @close _ (operators (any_shape op)) (any_state op); mret (mkAny _ s))
    (λ op, s ← @rewind _ (operators (any_shape op)) (any_state op); mret (mkAny _ s))
    (λ op, @getProfiler _ (operators (any_shape op)) (any_state op))
    (λ op, @getName _ (operators (any_shape op)) (any_state op))
    (λ op, @getDescription _ (operators (any_shape op)) (any_state op)).
End Tree.
Arguments state : clear implicits.
Arguments AnyOperator : clear implicits.
