(* ===== verification/OperatorsProofs.v ===== *)
(** * OperatorsProofs: the rows that the operators deliver

    [pulls n rows Q s] says that calls of [next] from [s] deliver [rows], each for
    all fuel from [n], and lead to a state with [Q]; [ends n st s] that the calls
    from [s] on fail with [st] and leave the row; [yields] is both.  The operators
    transform what their children yield as the operations on lists do that
    [denote] composes. *)

From stdpp Require Import gmap strings list.
From S2P Require Import Prelude Types AST Table Catalog ExecutorContext Operators.

Open Scope Z_scope.
Implicit Types (row : Row) (rows : list Row) (w : World) (st : StatusCode).

Lemma Op_bind_eq {A B} (m : Op A) (f : A → Op B) w w' a :
  m w = Some (w', a) → (m ≫= f) w = f a w'.
Proof. intros Hm. unfold mbind, Op_bind. by rewrite Hm. Qed.

Lemma Op_bind_none {A B} (m : Op A) (f : A → Op B) w : m w = None → (m ≫= f) w = None.
Proof. intros Hm. unfold mbind, Op_bind. by rewrite Hm. Qed.

(** One step of a computation in [Op], from an equation. *)
Ltac op_step H := erewrite Op_bind_eq; [|exact H].
(** Reduces the steps whose result is known. *)
Ltac op_ret := unfold mret, Op_ret, now, upd_world_stats; cbn [mbind Op_bind fst snd].
Ltac op_now := erewrite Op_bind_eq by reflexivity.

(** ** Streams of rows *)

Section Streams.
Context {S : Type} `{ExecutorOperator S}.
Implicit Type s : S.

Fixpoint pulls (n : nat) (rows : list Row) (Q : S → Prop) s : Prop :=
  match rows with
  | [] => Q s
  | r :: rows' =>
      ∀ m row w, (n ≤ m)%nat → ∃ s' w',
        next m s row w = Some (w', (s', StatusCode.OK, r)) ∧ pulls n rows' Q s'
  end.

Definition ends (n : nat) st s : Prop := ∃ I : S → Prop, I s ∧
  ∀ s m row w, I s → (n ≤ m)%nat → ∃ s' w',
    next m s row w = Some (w', (s', st, row)) ∧ I s'.

Definition yields (n : nat) rows st s : Prop := st ≠ StatusCode.OK ∧ pulls n rows (ends n st) s.

Definition opens (n : nat) rows st s : Prop := ∀ m w, (n ≤ m)%nat → ∃ s' w',
  open m s w = Some (w', (s', StatusCode.OK)) ∧ yields n rows st s'.

Lemma pulls_mono n n' rows (Q Q' : S → Prop) s :
  (n ≤ n')%nat → (∀ s, Q s → Q' s) → pulls n rows Q s → pulls n' rows Q' s.
Proof.
  intros Hn HQ. revert s. induction rows as [|r rows IH]; intros s; cbn; [auto|].
  intros Hp m row w Hm. destruct (Hp m row w) as (s' & w' & E & Hs); [lia|].
  exists s', w'. auto.
Qed.

Lemma ends_mono n n' st s : (n ≤ n')%nat → ends n st s → ends n' st s.
Proof.
  intros Hn (I & Hs & Hstep). exists I. split; [done|]. intros s' m row w HI Hm.
  apply Hstep; [done|lia].
Qed.

Lemma yields_mono n n' rows st s : (n ≤ n')%nat → yields n rows st s → yields n' rows st s.
Proof.
  intros Hn [H1 H2]. split; [done|]. apply (pulls_mono n n' rows (ends n st)); [done| |done].
  intros s'. by apply ends_mono.
Qed.

Lemma pulls_app n rows rows' Q s :
  pulls n (rows ++ rows') Q s ↔ pulls n rows (pulls n rows' Q) s.
Proof.
  revert s. induction rows as [|r rows IH]; intros s; cbn; [done|].
  split; intros Hp m row w Hm; destruct (Hp m row w Hm) as (s' & w' & E & Hs);
    exists s', w'; (split; [done|]); by apply IH.
Qed.

(** A state at the end fails once more. *)
Lemma ends_step n st s m row w :
  ends n st s → (n ≤ m)%nat → ∃ s' w', next m s row w = Some (w', (s', st, row)) ∧ ends n st s'.
Proof.
  intros (I & Hs & Hstep) Hm. destruct (Hstep s m row w Hs Hm) as (s' & w' & E & HI).
  exists s', w'. split; [done|]. by exists I.
Qed.

(** A property that is stable under failing calls gives the end. *)
Lemma ends_intro (P : S → Prop) n st s :
  (∀ s m row w, P s → (n ≤ m)%nat → ∃ s' w', next m s row w = Some (w', (s', st, row)) ∧ P s') →
  P s → ends n st s.
Proof. intros HP Hs. by exists P. Qed.

Lemma drain_spec n rows st s m row w :
  yields n rows st s → (n + length rows < m)%nat →
  ∃ s' w', drain m s row w = Some (w', (s', rows)) ∧ ends n st s'.
Proof.
  intros [Hst Hp]. revert s m row w Hp. induction rows as [|r rows IH]; intros s m row w Hp Hm;
    cbn in Hp, Hm; (destruct m as [|m]; [lia|]); cbn [drain].
  - destruct (ends_step _ _ _ m row w Hp) as (s' & w' & E & Hs); [lia|].
    op_step E. cbn beta iota. rewrite decide_False by done. by exists s', w'.
  - destruct (Hp m row w) as (s' & w' & E & Hs); [lia|].
    op_step E. cbn beta iota. rewrite decide_True by done.
    destruct (IH s' m r w' Hs) as (s'' & w'' & E' & Hs''); [lia|].
    op_step E'. by exists s'', w''.
Qed.

End Streams.

(** What the code relies on: an operator can be closed and rewound at any time. *)
Class OperatorLaws (S : Type) `{ExecutorOperator S} := mkOperatorLaws {
  close_returns : ∀ (s : S) w, ∃ s' w', close s w = Some (w', s');
  rewind_returns : ∀ (s : S) w, ∃ s' w', rewind s w = Some (w', s')
}.

(** ** Filter and project *)

Section Filter.
Import Filter.
Context {C : Type} `{ExecutorOperator C}.

#[export] Instance Filter_laws `{!OperatorLaws C} : OperatorLaws (FilterOperator C).
Proof.
  split; intros s w.
  - destruct (close_returns (f_child s) w) as (c & w' & E). cbn. unfold filter_close.
    op_step E. op_now. eauto.
  - destruct (rewind_returns (f_child s) w) as (c & w' & E). cbn. unfold filter_rewind.
    op_step E. eauto.
Qed.

Lemma filter_pulls n rows Q Q' (s : FilterOperator C) :
  (∀ s, Q (f_child s) → Q' s) → pulls n rows Q (f_child s) → pulls (S n) rows Q' s.
Proof.
  intros HQ. revert s. induction rows as [|r rows IH]; intros s; cbn [pulls]; [apply HQ|].
  intros Hp m row w Hm. destruct m as [|m]; [lia|].
  destruct (Hp m row w) as (c & w' & E & Hc); [lia|]. cbn [next Filter_operator filter_next].
  op_step E. cbn beta iota. rewrite decide_True by done. do 2 eexists. split; [reflexivity|].
  apply IH, Hc.
Qed.

Lemma filter_ends n st (s : FilterOperator C) :
  st ≠ StatusCode.OK → ends n st (f_child s) → ends (S n) st s.
Proof.
  intros Hst. apply (ends_intro (λ s : FilterOperator C, ends n st (f_child s))).
  clear s. intros s m row w Hs Hm. destruct m as [|m]; [lia|].
  destruct (ends_step _ _ _ m row w Hs) as (c & w' & E & Hc); [lia|].
  cbn [next Filter_operator filter_next]. op_step E. cbn beta iota. rewrite decide_False by done.
  do 2 eexists. split; [reflexivity|]. done.
Qed.

Lemma filter_yields n rows st (s : FilterOperator C) :
  yields n rows st (f_child s) → yields (S n) rows st s.
Proof.
  intros [Hst Hp]. split; [done|]. eapply filter_pulls; [|exact Hp].
  intros s'. by apply filter_ends.
Qed.

Lemma filter_opens n rows st (s : FilterOperator C) :
  opens n rows st (f_child s) → opens (S n) rows st s.
Proof.
  intros Ho m w Hm. destruct (Ho m w) as (c & w' & E & Hc); [lia|].
  cbn [open Filter_operator]. unfold filter_open. op_step E. cbn [fst snd].
  rewrite decide_True by done. op_now. do 2 eexists. split; [reflexivity|]. by apply filter_yields.
Qed.
End Filter.

Section Project.
Import Project.
Context {C : Type} `{ExecutorOperator C}.

Definition projected (exprs : list ASTNode) row : Row :=
  (λ expr, project_expression expr row) <$> exprs.

#[export] Instance Project_laws `{!OperatorLaws C} : OperatorLaws (ProjectOperator C).
Proof.
  split; intros s w.
  - destruct (close_returns (p_child s) w) as (c & w' & E). cbn. unfold project_close.
    op_step E. op_now. eauto.
  - destruct (rewind_returns (p_child s) w) as (c & w' & E). cbn. unfold project_rewind.
    op_step E. eauto.
Qed.

Lemma project_ends n st (s : ProjectOperator C) :
  st ≠ StatusCode.OK → ends n st (p_child s) → ends n st s.
Proof.
  intros Hst. apply (ends_intro (λ s : ProjectOperator C, ends n st (p_child s))).
  clear s. intros s m row w Hs Hm.
  destruct (ends_step _ _ _ m [] w Hs) as (c & w' & E & Hc); [lia|].
  cbn [next Project_operator]. unfold project_next. op_step E. cbn beta iota.
  rewrite decide_False by done. do 2 eexists. split; [reflexivity|]. done.
Qed.

Lemma project_pulls n rows Q Q' (s : ProjectOperator C) :
  (∀ s, Q (p_child s) → Q' s) → pulls n rows Q (p_child s) →
  pulls n (projected (p_expressions s) <$> rows) Q' s.
Proof.
  intros HQ. revert s. induction rows as [|r rows IH]; intros s; cbn [pulls fmap list_fmap]; [apply HQ|].
  intros Hp m row w Hm. destruct (Hp m [] w) as (c & w' & E & Hc); [lia|].
  cbn [next Project_operator]. unfold project_next.
  op_step E. cbn beta iota. rewrite decide_True by done. do 2 eexists. split; [reflexivity|].
  by apply (IH (mkProject c (p_expressions s) _ _)).
Qed.

Lemma project_yields n rows st (s : ProjectOperator C) :
  yields n rows st (p_child s) → yields n (projected (p_expressions s) <$> rows) st s.
Proof.
  intros [Hst Hp]. split; [done|]. eapply project_pulls; [|exact Hp].
  intros s'. by apply project_ends.
Qed.

Lemma project_opens n rows st (s : ProjectOperator C) :
  opens n rows st (p_child s) → opens n (projected (p_expressions s) <$> rows) st s.
Proof.
  intros Ho m w Hm. destruct (Ho m w) as (c & w' & E & Hc); [lia|].
  cbn [open Project_operator]. unfold project_open. op_step E. cbn [fst snd].
  rewrite decide_True by done. op_now. do 2 eexists. split; [reflexivity|].
  by apply (project_yields _ _ _ (mkProject c (p_expressions s) _ _)).
Qed.
End Project.

(** ** Join *)

Section Join.
Import Join.
Context {L R : Type} `{opL : ExecutorOperator L} `{opR : ExecutorOperator R}.
Implicit Type s : JoinOperator L R.

(** The rows for one row of the left: an empty one is taken for none after the
    first row of the right. *)
Definition joined (right : list Row) (l : Row) : list Row :=
  app l <$> match l with [] => take 1 right | _ => right end.
Definition join_rows (lefts right : list Row) : list Row := lefts ≫= joined right.

#[export] Instance Join_laws `{!OperatorLaws L} `{!OperatorLaws R} :
  OperatorLaws (JoinOperator L R).
Proof.
  split; intros s w.
  - destruct (close_returns (j_left s) w) as (l & w1 & E1).
    destruct (close_returns (j_right s) w1) as (r & w2 & E2).
    cbn. unfold join_close. op_step E1. op_step E2. op_now. eauto.
  - destruct (rewind_returns (j_left s) w) as (l & w1 & E1).
    destruct (rewind_returns (j_right s) w1) as (r & w2 & E2).
    cbn. unfold join_rewind. op_step E1. op_step E2. eauto.
Qed.

Lemma evaluateJoinCondition_true c l r : evaluateJoinCondition c l r = true.
Proof. by destruct c. Qed.

Lemma find_match_eq c l rows i :
  find_match c l rows i = match rows with [] => None | r :: _ => Some (S i, r) end.
Proof. destruct rows; cbn; [done|]. by rewrite evaluateJoinCondition_true. Qed.

(** What a turn of the loop does when there is a row of the left. *)
Definition join_match (m : nat) s row : Op (JoinOperator L R * StatusCode * Row) :=
  match drop (right_index s) (right_rows s) with
  | r :: _ =>
      mret (set_profiler (recordRow (j_profiler s))
              (set_position (current_left_row s) (S (right_index s)) s), StatusCode.OK,
            current_left_row s ++ r)
  | [] => join_next m (set_position [] (length (right_rows s)) s) row
  end.

Lemma join_next_row m s row w :
  current_left_row s ≠ [] → join_next (S m) s row w = join_match m s row w.
Proof.
  intros Hl. cbn [join_next]. destruct (current_left_row s) as [|v l] eqn:E; [done|].
  op_now. cbn beta iota. rewrite find_match_eq, E. unfold join_match.
  destruct (drop _ _); [done|]. by rewrite E.
Qed.

Lemma join_next_fetch m s row w c l w' :
  current_left_row s = [] → next m (j_left s) [] w = Some (w', (c, StatusCode.OK, l)) →
  join_next (S m) s row w = join_match m (set_position l 0 (set_children c (j_right s) s)) row w'.
Proof.
  intros Hl E. cbn [join_next]. rewrite Hl. unfold mbind at 1, Op_bind at 1. unfold mbind at 1, Op_bind at 1.
  rewrite E. cbn beta iota. rewrite decide_True by done. op_ret. rewrite find_match_eq.
  unfold join_match. by destruct (drop _ _).
Qed.

Lemma join_next_fail m s row w c l w' st :
  current_left_row s = [] → st ≠ StatusCode.OK →
  next m (j_left s) [] w = Some (w', (c, st, l)) →
  join_next (S m) s row w =
    Some (w', (set_position l (right_index s) (set_children c (j_right s) s), st, row)).
Proof.
  intros Hl Hst E. cbn [join_next]. rewrite Hl. unfold mbind at 1, Op_bind at 1.
  unfold mbind at 1, Op_bind at 1. rewrite E. cbn beta iota. rewrite decide_False by done.
  op_ret. by case_decide; subst.
Qed.

(** The end of the left is the end of the join. *)
Lemma join_ends n st s :
  st ≠ StatusCode.OK → current_left_row s = [] → ends n st (j_left s) → ends (S n) st s.
Proof.
  intros Hst H1 H2.
  apply (ends_intro (λ s, current_left_row s = [] ∧ ends n st (j_left s))); [|done].
  clear s H1 H2. intros s m row w [H1 H2] Hm. destruct m as [|m]; [lia|].
  destruct (ends_step _ _ _ m [] w H2) as (c & w' & E & Hc); [lia|].
  cbn [next Join_operator]. rewrite (join_next_fail m s row w c [] w' st) by done. eauto 6.
Qed.

(** Without rows of the right, one call takes all rows of the left. *)
Lemma join_nothing n lefts st s :
  current_left_row s = [] → right_rows s = [] → yields n lefts st (j_left s) →
  ends (S n + length lefts) st s.
Proof.
  intros H1 H2 [Hst H3].
  apply (ends_intro (λ s, current_left_row s = [] ∧ right_rows s = [] ∧
    ∃ l, (length l ≤ length lefts)%nat ∧ pulls n l (ends n st) (j_left s))); [|by eauto].
  clear s H1 H2 H3. intros s m row w (H1 & H2 & l & Hl & Hp) Hm.
  assert (S n + length l ≤ m)%nat as Hm' by lia. clear Hm. cbn [next Join_operator].
  revert s m w H1 H2 Hl Hp Hm'. induction l as [|x l IH]; intros s m w H1 H2 Hl Hp Hm;
    cbn in Hm, Hl, Hp; (destruct m as [|m]; [lia|]).
  - destruct (ends_step _ _ _ m [] w Hp) as (c & w' & E & Hc); [lia|].
    rewrite (join_next_fail m s row w c [] w' st) by done. do 2 eexists.
    split; [reflexivity|]. split_and!; [done..|]. exists []. split; [cbn; lia|done].
  - destruct (Hp m [] w) as (c & w' & E & Hc); [lia|].
    rewrite (join_next_fetch m s row w c x w' H1 E). unfold join_match. cbn [right_rows
      right_index set_position set_children]. rewrite H2. cbn [drop length].
    apply IH; cbn; [done..|lia|done|lia].
Qed.

Lemma yields_delay {S} `{ExecutorOperator S} (s s' : S) n rows st :
  (∀ m row w, next (Datatypes.S m) s row w = next m s' row w) →
  yields n rows st s' → yields (Datatypes.S n) rows st s.
Proof.
  intros He [Hst Hp]. split; [done|]. destruct rows as [|r rows]; cbn in *.
  - destruct Hp as (I & HI & Hstep). exists (λ x, x = s ∨ I x). split; [auto|].
    intros x m row w [->|Hx] Hm; (destruct m as [|m]; [lia|]).
    + destruct (Hstep s' m row w HI) as (x' & w' & E & Hx'); [lia|].
      exists x', w'. rewrite He. auto.
    + destruct (Hstep x (Datatypes.S m) row w Hx) as (x' & w' & E & Hx'); [lia|]. eauto.
  - intros m row w Hm. destruct m as [|m]; [lia|]. rewrite He.
    destruct (Hp m row w) as (x & w' & E & Hx); [lia|]. exists x, w'. split; [done|].
    eapply pulls_mono; [| |exact Hx]; [lia|]. intros y. apply ends_mono. lia.
Qed.

(** The rest of the rows for the current row of the left. *)
Lemma join_rest n k rest st l :
  l ≠ [] → (n ≤ k)%nat →
  ∀ s, current_left_row s = l → (right_index s ≤ length (right_rows s))%nat →
  (∀ s', current_left_row s' = [] → right_rows s' = right_rows s → j_left s' = j_left s →
     yields k rest st s') →
  yields (S k) ((app l <$> drop (right_index s) (right_rows s)) ++ rest) st s.
Proof.
  intros Hl Hk s Hs Hi Hrest.
  remember (drop (right_index s) (right_rows s)) as ds eqn:Hd. revert s Hs Hi Hrest Hd.
  induction ds as [|d ds IH]; intros s Hs Hi Hrest Hd.
  - cbn [fmap list_fmap app]. eapply yields_delay; [|exact (Hrest
      (set_position [] (length (right_rows s)) s) eq_refl eq_refl eq_refl)].
    intros m row w. cbn [next Join_operator]. rewrite join_next_row by congruence.
    unfold join_match. by rewrite <- Hd.
  - split; [destruct (Hrest (set_position [] 0 s)) as [Hst _]; done|].
    cbn [fmap list_fmap app pulls]. intros m row w Hm. destruct m as [|m]; [lia|].
    cbn [next Join_operator]. rewrite join_next_row by congruence. unfold join_match.
    rewrite <- Hd, Hs. do 2 eexists. split; [reflexivity|].
    assert (ds = drop (S (right_index s)) (right_rows s)) as Hds.
    { replace (S (right_index s)) with (right_index s + 1)%nat by lia.
      rewrite <- drop_drop, <- Hd. done. }
    assert (right_index s < length (right_rows s))%nat.
    { destruct (decide (right_index s < length (right_rows s))%nat); [done|].
      rewrite drop_ge in Hd by lia. done. }
    apply (IH (set_profiler _ (set_position l (S (right_index s)) s))); cbn; [done|lia| |done].
    intros s' H1 H2 H3. by apply Hrest.
Qed.

Lemma join_yields n lefts st s :
  current_left_row s = [] → yields n lefts st (j_left s) →
  yields (S n + length lefts) (join_rows lefts (right_rows s)) st s.
Proof.
  intros Hc Hy. destruct (right_rows s) as [|r0 R0] eqn:HR.
  { replace (join_rows lefts []) with (@nil Row).
    - destruct Hy as [Hst Hy]. split; [done|]. by apply join_nothing.
    - unfold join_rows. clear. induction lefts as [|l ls IH]; [done|]. cbn. rewrite <- IH.
      unfold joined. by destruct l. }
  rewrite <- HR. assert (right_rows s ≠ []) as Hne by congruence. clear HR r0 R0.
  destruct Hy as [Hst Hp]. revert s Hc Hne Hp.
  induction lefts as [|l lefts IH]; intros s Hc Hne Hp.
  - split; [done|]. cbn. replace (n + 0)%nat with n by lia. by apply join_ends.
  - split; [done|]. unfold join_rows. cbn [mbind list_bind]. fold (join_rows lefts (right_rows s)).
    assert (∃ rest, joined (right_rows s) l = (l ++ hd [] (right_rows s)) :: rest ∧
      rest = match l with [] => [] | _ => app l <$> tl (right_rows s) end) as (rest & -> & Hrest).
    { destruct (right_rows s) as [|r0 R0]; [done|]. by destruct l; eexists. }
    cbn [app pulls]. intros m row w Hm. cbn [length] in Hm. destruct m as [|m]; [lia|].
    destruct (Hp m [] w) as (c & w' & E & Hleft); [lia|]. cbn [next Join_operator].
    rewrite (join_next_fetch m s row w c l w' Hc E). unfold join_match.
    cbn [right_rows right_index set_position set_children current_left_row]. rewrite drop_0.
    destruct (right_rows s) as [|r0 R0] eqn:HR; [done|]. do 2 eexists. split; [reflexivity|].
    set (s1 := set_profiler _ _).
    assert (∀ s', current_left_row s' = [] → right_rows s' = right_rows s1 → j_left s' = j_left s1 →
      yields (S n + length lefts) (join_rows lefts (right_rows s)) st s') as Hnext.
    { intros s' H1 H2 H3. unfold s1 in H2, H3. cbn in H2, H3. rewrite <- H2.
      split; [done|]. apply IH; [done|congruence|by rewrite H3]. }
    cbn [hd tl] in *. subst rest. destruct l as [|v l].
    + destruct (Hnext s1 eq_refl eq_refl eq_refl) as [_ Hn]. cbn [app].
      rewrite HR in Hn. eapply pulls_mono; [| |exact Hn]; [cbn; lia|].
      intros x. apply ends_mono. cbn. lia.
    + destruct (join_rest n (S n + length lefts) (join_rows lefts (right_rows s)) st (v :: l)
        ltac:(done) ltac:(lia) s1 eq_refl) as [_ Hn]; [|exact Hnext|].
      { unfold s1. cbn. rewrite HR. cbn. lia. }
      unfold s1 in Hn. cbn in Hn. rewrite HR in Hn. cbn in Hn. cbn [length].
      replace (S n + S (length lefts))%nat with (S (S n + length lefts)) by lia. exact Hn.
Qed.

(** Only the hash join reads the right. *)
Definition loaded (a : JoinAlgorithm) (rights : list Row) : list Row :=
  match a with HASH => rights | _ => [] end.

Lemma join_opens `{laws : !OperatorLaws R} n lefts rights st st' s :
  current_left_row s = [] → right_rows s = [] →
  opens n lefts st (j_left s) → opens n rights st' (j_right s) →
  opens (S n + length lefts + length rights)
    (join_rows lefts (loaded (j_algorithm s) rights)) st s.
Proof.
  intros Hc HR Hl Hr m w Hm.
  destruct (Hl m w) as (l & w1 & E1 & Hl'); [lia|].
  destruct (Hr m w1) as (r & w2 & E2 & Hr'); [lia|].
  cbn [open Join_operator]. unfold join_open. op_step E1. cbn [fst snd].
  rewrite decide_True by done. cbn [j_right set_children]. op_step E2. cbn [fst snd].
  rewrite decide_True by done. cbn [j_algorithm set_children j_left j_right].
  assert (∀ s', current_left_row s' = [] → right_rows s' = loaded (j_algorithm s) rights →
    j_left s' = l →
    yields (S n + length lefts + length rights) (join_rows lefts (loaded (j_algorithm s) rights))
      st s') as Hfin.
  { intros s' H1 H2 H3. rewrite <- H2. eapply yields_mono; [|apply join_yields;
      [done|by rewrite H3]]. lia. }
  destruct (decide (j_algorithm s = HASH)) as [Ha|Ha].
  - destruct (drain_spec n rights st' r m [] w2 Hr') as (r' & w3 & E3 & _); [lia|].
    destruct (rewind_returns r' w3) as (r'' & w4 & E4).
    erewrite Op_bind_eq; [|op_step E3; op_step E4; reflexivity]. op_now.
    do 2 eexists. split; [reflexivity|]. apply Hfin; cbn; [done| |done].
    rewrite HR, Ha. done.
  - op_now. op_now. do 2 eexists. split; [reflexivity|]. apply Hfin; cbn; [done| |done].
    rewrite HR. by destruct (j_algorithm s).
Qed.
End Join.

(** ** Sort *)

Section Sort.
Import Sort.
Variable sort : (Row → Row → bool) → list Row → list Row.
Context {C : Type} `{ExecutorOperator C}.
Local Instance sort_instance : ExecutorOperator (SortOperator C) := Sort_operator sort.

Lemma Sort_laws : OperatorLaws (SortOperator C).
Proof. split; intros s w; cbn; [unfold sort_close; op_now|unfold mret, Op_ret]; eauto. Qed.

(** No row is less than another. *)
Lemma compareRows_false keys a b : compareRows keys a b = false.
Proof. by induction keys as [|k keys IH]. Qed.

Lemma load_rows_spec n rows st (c : C) m row w :
  yields n rows st c → (n + length rows < m)%nat →
  ∃ c' w', load_rows m c row w = Some (w', (c', rows)) ∧ ends n st c'.
Proof.
  intros [Hst Hp]. revert c m row w Hp. induction rows as [|r rows IH]; intros c m row w Hp Hm;
    cbn in Hp, Hm; (destruct m as [|m]; [lia|]); cbn [load_rows].
  - destruct (ends_step _ _ _ m row w Hp) as (c' & w' & E & Hs); [lia|].
    op_step E. cbn beta iota. rewrite decide_False by done. by exists c', w'.
  - destruct (Hp m row w) as (c' & w' & E & Hs); [lia|].
    op_step E. cbn beta iota. rewrite decide_True by done. op_now.
    edestruct (IH c' m r) as (c'' & w'' & E' & Hs''); [exact Hs|lia|].
    op_step E'. by exists c'', w''.
Qed.

Lemma sort_yields (s : SortOperator C) :
  yields 0 (drop (so_index s) (sorted_rows s)) StatusCode.NOT_FOUND s.
Proof.
  split; [done|]. remember (drop (so_index s) (sorted_rows s)) as ds eqn:Hd.
  revert s Hd. induction ds as [|d ds IH]; intros s Hd; cbn [pulls].
  - apply (ends_intro (λ s, drop (so_index s) (sorted_rows s) = [])); [|done].
    clear s Hd. intros s m row w Hs _. cbn [next sort_instance Sort_operator]. unfold sort_next.
    apply (f_equal length) in Hs. rewrite length_drop in Hs. cbn in Hs.
    rewrite lookup_ge_None_2 by lia. do 2 eexists. split; [reflexivity|].
    apply drop_ge. lia.
  - intros m row w _. cbn [next sort_instance Sort_operator]. unfold sort_next.
    assert (sorted_rows s !! so_index s = Some d) as ->.
    { by rewrite <- (Nat.add_0_r (so_index s)), <- lookup_drop, <- Hd. }
    do 2 eexists. split; [reflexivity|]. apply IH. cbn.
    replace (S (so_index s)) with (so_index s + 1)%nat by lia. by rewrite <- drop_drop, <- Hd.
Qed.

Lemma sort_opens `{laws : !OperatorLaws C} n rows st (s : SortOperator C) :
  sorted_rows s = [] → opens n rows st (so_child s) →
  opens (S n + length rows) (sortRows sort (so_keys s) rows) StatusCode.NOT_FOUND s.
Proof.
  intros Hs Ho m w Hm. destruct (Ho m w) as (c & w1 & E1 & Hc); [lia|].
  destruct (load_rows_spec n rows st c m [] w1 Hc) as (c' & w2 & E2 & _); [lia|].
  destruct (close_returns c' w2) as (c'' & w3 & E3).
  cbn [open sort_instance Sort_operator]. unfold sort_open. op_step E1. cbn [fst snd].
  rewrite decide_True by done. op_now. op_step E2. op_step E3. rewrite Hs.
  do 2 eexists. split; [reflexivity|]. cbn [app snd].
  eapply yields_mono; [|apply (sort_yields (mkSort c'' (so_keys s) _ 0 _))]. lia.
Qed.
End Sort.

(** ** Limit *)

Section Limit.
Import Limit.
Context {C : Type} `{ExecutorOperator C}.

#[export] Instance Limit_laws `{!OperatorLaws C} : OperatorLaws (LimitOperator C).
Proof.
  split; intros s w.
  - destruct (close_returns (l_child s) w) as (c & w' & E). cbn. unfold limit_close.
    op_step E. op_now. eauto.
  - destruct (rewind_returns (l_child s) w) as (c & w' & E). cbn. unfold limit_rewind.
    op_step E. eauto.
Qed.

(** The status at the end of at most [k] rows. *)
Definition limit_status (k : nat) rows st : StatusCode :=
  if decide (k ≤ length rows)%nat then StatusCode.NOT_FOUND else st.

Lemma limit_reached (s : LimitOperator C) :
  l_limit s ≤ current_row s → ends 0 StatusCode.NOT_FOUND s.
Proof.
  apply (ends_intro (λ s : LimitOperator C, l_limit s ≤ current_row s)).
  clear s. intros s m row w Hs _. cbn [next Limit_operator]. unfold limit_next.
  rewrite (proj2 (Z.leb_le _ _) Hs). do 2 eexists. by split.
Qed.

Lemma limit_ends n st (s : LimitOperator C) :
  st ≠ StatusCode.OK → current_row s < l_limit s → ends n st (l_child s) → ends n st s.
Proof.
  intros Hst Hl Hc.
  apply (ends_intro (λ s, current_row s < l_limit s ∧ ends n st (l_child s))); [|done].
  clear s Hl Hc. intros s m row w [Hl Hc] Hm.
  destruct (ends_step _ _ _ m row w Hc) as (c & w' & E & Hc'); [lia|].
  cbn [next Limit_operator]. unfold limit_next. rewrite (proj2 (Z.leb_gt _ _) Hl).
  op_step E. cbn beta iota. rewrite decide_False by done. do 2 eexists. by split.
Qed.

(** At most the rows up to the limit; the child need not end beyond them. *)
Lemma limit_pulls n rows Q (s : LimitOperator C) :
  0 ≤ current_row s → l_limit s < 2 ^ 64 → pulls n rows Q (l_child s) →
  pulls n (take (Z.to_nat (l_limit s - current_row s)) rows)
    (λ s', l_limit s' = l_limit s ∧
       if decide (Z.to_nat (l_limit s - current_row s) ≤ length rows)%nat
       then l_limit s' ≤ current_row s' else current_row s' < l_limit s' ∧ Q (l_child s')) s.
Proof.
  revert s. induction rows as [|r rows IH]; intros s H0 Hl Hp.
  - rewrite take_nil. cbn [pulls length]. split; [done|]. case_decide; [lia|].
    cbn in Hp. split; [lia|done].
  - destruct (Z.to_nat (l_limit s - current_row s)) as [|k] eqn:Hk.
    { cbn [take pulls]. split; [done|]. rewrite decide_True by lia. lia. }
    cbn [take pulls]. intros m row w Hm.
    destruct (Hp m row w Hm) as (c & w' & E & Hc).
    cbn [next Limit_operator]. unfold limit_next. rewrite (proj2 (Z.leb_gt _ _)) by lia.
    op_step E. cbn beta iota. rewrite decide_True by done. do 2 eexists. split; [reflexivity|].
    set (s' := mkLimit c _ _ _ _).
    assert (current_row s' = current_row s + 1) as Hs'.
    { unfold s'. cbn. apply wrap_small. unfold fits. lia. }
    specialize (IH s'). rewrite Hs' in IH.
    replace (Z.to_nat (l_limit s' - (current_row s + 1))) with k in IH by (unfold s'; cbn; lia).
    eapply pulls_mono; [done| |apply IH; [lia|done|done]].
    intros x [H1 H2]. split; [done|]. cbn [length].
    destruct (decide (k ≤ length rows)%nat); [rewrite decide_True by lia|rewrite decide_False by lia];
      done.
Qed.

Lemma limit_yields n rows st (s : LimitOperator C) :
  current_row s = 0 → 0 ≤ l_limit s < 2 ^ 64 → yields n rows st (l_child s) →
  yields n (take (Z.to_nat (l_limit s)) rows) (limit_status (Z.to_nat (l_limit s)) rows st) s.
Proof.
  intros H0 Hl [Hst Hp]. pose proof (limit_pulls n rows _ s ltac:(lia) ltac:(lia) Hp) as Hq.
  rewrite H0, Z.sub_0_r in Hq. unfold limit_status.
  split; [by case_decide|]. eapply pulls_mono; [done| |exact Hq].
  intros x [Hx Hd]. case_decide.
  - eapply ends_mono; [|by apply limit_reached]. lia.
  - destruct Hd. by apply limit_ends.
Qed.

Lemma skip_rows_spec n rows st k c m row w :
  yields n rows st c → (n ≤ m)%nat →
  ∃ c' w', skip_rows m k c row w = Some (w', c') ∧ yields n (drop k rows) st c'.
Proof.
  intros [Hst Hp] Hm. revert k c row w Hp.
  induction rows as [|r rows IH]; intros k c row w Hp; cbn [pulls] in Hp.
  - rewrite drop_nil. destruct k as [|k]; cbn [skip_rows].
    { exists c, w. by split. }
    destruct (ends_step _ _ _ m row w Hp Hm) as (c' & w' & E & Hc'). op_step E. cbn beta iota.
    rewrite decide_False by done. exists c', w'. by split.
  - destruct k as [|k]; cbn [skip_rows drop].
    { exists c, w. split; [done|]. by split. }
    destruct (Hp m row w Hm) as (c' & w' & E & Hc'). op_step E. cbn beta iota.
    rewrite decide_True by done. by apply IH.
Qed.

Definition limited (limit offset : Z) rows : list Row :=
  take (Z.to_nat limit) (drop (Z.to_nat offset) rows).

Lemma limit_opens n rows st (s : LimitOperator C) :
  current_row s = 0 → 0 ≤ l_limit s < 2 ^ 64 → opens n rows st (l_child s) →
  opens n (limited (l_limit s) (l_offset s) rows)
    (limit_status (Z.to_nat (l_limit s)) (drop (Z.to_nat (l_offset s)) rows) st) s.
Proof.
  intros H0 Hl Ho m w Hm. destruct (Ho m w Hm) as (c & w1 & E1 & Hc).
  destruct (skip_rows_spec n rows st (Z.to_nat (l_offset s)) c m [] w1 Hc Hm)
    as (c' & w2 & E2 & Hc').
  cbn [open Limit_operator]. unfold limit_open. op_step E1. cbn [fst snd].
  rewrite decide_True by done. op_step E2. op_now. do 2 eexists. split; [reflexivity|].
  by apply (limit_yields n _ st (mkLimit c' (l_limit s) (l_offset s) (current_row s) _)).
Qed.
End Limit.

(** ** Trees of operators *)

Section Tree.
Variable sort : (Row → Row → bool) → list Row → list Row.
Context {L : Type} `{leaf : ExecutorOperator L} `{leaf_laws : !OperatorLaws L}.
(** The rows of the leaves. *)
Variable leaf_rows : L → list Row.
Local Instance tree_instance sh : ExecutorOperator (state L sh) := operators sort sh.

(** What the tree delivers, as operations on lists. *)
Fixpoint denote (sh : Shape) : state L sh → list Row :=
  match sh with
  | SNull => λ _, []
  | SLeaf => leaf_rows
  | SFilter c => λ s, denote c (Filter.f_child s)
  | SProject c => λ s, projected (Project.p_expressions s) <$> denote c (Project.p_child s)
  | SJoin l r => λ s, join_rows (denote l (Join.j_left s))
                        (loaded (Join.j_algorithm s) (denote r (Join.j_right s)))
  | SSort c => λ s, Sort.sortRows sort (Sort.so_keys s) (denote c (Sort.so_child s))
  | SLimit c => λ s, limited (Limit.l_limit s) (Limit.l_offset s) (denote c (Limit.l_child s))
  end.

(** Trees of operators as the constructors make them, over leaves that open and
    deliver their rows. *)
Fixpoint ready (n : nat) (sh : Shape) : state L sh → Prop :=
  match sh with
  | SNull => λ _, False
  | SLeaf => λ l, opens (S := L) n (leaf_rows l) StatusCode.NOT_FOUND l
  | SFilter c => λ s, ready n c (Filter.f_child s)
  | SProject c => λ s, ready n c (Project.p_child s)
  | SJoin l r => λ s, Join.current_left_row s = [] ∧ Join.right_rows s = [] ∧
                      ready n l (Join.j_left s) ∧ ready n r (Join.j_right s)
  | SSort c => λ s, Sort.sorted_rows s = [] ∧ ready n c (Sort.so_child s)
  | SLimit c => λ s, Limit.current_row s = 0 ∧ 0 ≤ Limit.l_limit s < 2 ^ 64 ∧
                     ready n c (Limit.l_child s)
  end.

Fixpoint no_null (sh : Shape) : Prop :=
  match sh with
  | SNull => False
  | SLeaf => True
  | SFilter c | SProject c | SSort c | SLimit c => no_null c
  | SJoin l r => no_null l ∧ no_null r
  end.

Lemma ready_no_null n sh s : ready n sh s → no_null sh.
Proof.
  induction sh as [| |c IH|c IH|l IHl r IHr|c IH|c IH]; cbn; try naive_solver.
Qed.

Lemma tree_laws sh : no_null sh → OperatorLaws (state L sh).
Proof.
  induction sh as [| |c IH|c IH|l IHl r IHr|c IH|c IH]; cbn [no_null state]; intros Hn.
  - done.
  - exact leaf_laws.
  - specialize (IH Hn). exact Filter_laws.
  - specialize (IH Hn). exact Project_laws.
  - destruct Hn as [Hl Hr]. specialize (IHl Hl). specialize (IHr Hr). exact Join_laws.
  - exact (Sort_laws sort).
  - specialize (IH Hn). exact Limit_laws.
Qed.

Lemma opens_mono {S} `{ExecutorOperator S} n n' rows st (s : S) :
  (n ≤ n')%nat → opens n rows st s → opens n' rows st s.
Proof.
  intros Hn Ho m w Hm. destruct (Ho m w) as (s' & w' & E & Hy); [lia|].
  exists s', w'. split; [done|]. by eapply yields_mono.
Qed.

Lemma tree_opens n sh s :
  ready n sh s → ∃ k, opens k (denote sh s) StatusCode.NOT_FOUND s.
Proof.
  induction sh as [| |c IH|c IH|l IHl r IHr|c IH|c IH]; cbn [ready]; intros Hr.
  - done.
  - exists n. exact Hr.
  - destruct (IH _ Hr) as [k Hk]. exists (S k). by apply (filter_opens k).
  - destruct (IH _ Hr) as [k Hk]. exists k. by apply (project_opens k).
  - destruct Hr as (H1 & H2 & H3 & H4). destruct (IHl _ H3) as [k Hk].
    destruct (IHr _ H4) as [k' Hk']. pose proof (tree_laws r (ready_no_null _ _ _ H4)) as Hlaws.
    eexists. eapply (join_opens (k `max` k')%nat); [done..| |].
    + eapply opens_mono; [|exact Hk]. lia.
    + eapply opens_mono; [|exact Hk']. lia.
  - destruct Hr as [H1 H2]. destruct (IH _ H2) as [k Hk].
    pose proof (tree_laws c (ready_no_null _ _ _ H2)) as Hlaws.
    eexists. eapply (sort_opens sort k); [done|exact Hk].
  - destruct Hr as (H1 & H2 & H3). destruct (IH _ H3) as [k Hk]. exists k.
    pose proof (limit_opens k _ _ s H1 H2 Hk) as Ho. unfold limit_status in Ho.
    by destruct (decide _).
Qed.
End Tree.
