(* ===== verification/Optimizer.v ===== *)
(** * Optimizer: plans of queries (src/engine/optimizer.h, optimizer.cpp)

    A [PlanNode] has the members of the struct that the code reads.  The node is
    changed by [convert] only, which is a function to the new node.  Costs are
    doubles; the conversion of a double to a number of rows is undefined out of
    range, so that an estimate is an [option].  [statistics_[name]] makes an empty
    entry for a table without statistics, which reads as [TableStatistics_new];
    the entry itself is not kept here.  Only SELECT is optimized.

    [estimateDistinctValues] is declared and not defined: it is a parameter, as is
    the logarithm of the C library. *)

From stdpp Require Import gmap strings.
From Stdlib Require Import SpecFloat.
From S2P Require Import Prelude CxxString Types Doubles DecimalText AST Catalog ExecutorContext Operators.

Open Scope Z_scope.

(** ** Plans *)

Record Cost := mkCost {
  cpu_cost : double;
  io_cost : double;
  network_cost : double;
  total_cost : double;
  estimated_rows : Z
}.

Definition Cost_zero : Cost := mkCost dzero dzero dzero dzero 0.

(** [operator+] *)
Definition cost_add (a b : Cost) : Cost :=
  mkCost (dadd (cpu_cost a) (cpu_cost b)) (dadd (io_cost a) (io_cost b))
    (dadd (network_cost a) (network_cost b)) (dadd (total_cost a) (total_cost b))
    (wrap 64 (estimated_rows a + estimated_rows b)).

Module OperatorType.
Inductive OperatorType :=
  | SEQ_SCAN | INDEX_SCAN | FILTER | PROJECT | JOIN | AGGREGATE | SORT | LIMIT
  | HASH_JOIN | NESTED_LOOP_JOIN | MERGE_JOIN | UNION | INTERSECT | EXCEPT.

#[export] Instance OperatorType_eq_dec : EqDecision OperatorType.
Proof. solve_decision. Defined.
End OperatorType.
Export (hints) OperatorType.
Abbreviation OperatorType := OperatorType.OperatorType.

Inductive PlanNode := mkPlanNode {
  pn_type : OperatorType;
  pn_left : option PlanNode;
  pn_right : option PlanNode;
  pn_children : list PlanNode;
  pn_table_name : string;
  pn_index_name : string;
  pn_filter : option ASTNode;
  pn_order_by : list (string * bool);
  pn_limit : Z
}.

(** The constructor. *)
Definition PlanNode_new (t : OperatorType) : PlanNode := mkPlanNode t None None [] "" "" None [] 0.
Definition set_left (l : option PlanNode) (n : PlanNode) : PlanNode :=
  mkPlanNode (pn_type n) l (pn_right n) (pn_children n) (pn_table_name n) (pn_index_name n)
    (pn_filter n) (pn_order_by n) (pn_limit n).

Record ExecutionPlan := mkExecutionPlan { plan_root : option PlanNode; plan_cost : Cost }.

Record TableStatistics := mkTableStatistics {
  row_count : Z;
  page_count : Z;
  distinct_values : gmap string Z
}.
Definition TableStatistics_new : TableStatistics := mkTableStatistics 0 0 ∅.

(** ** Columns of a condition *)

Fixpoint containsColumn (node : ASTNode) (col : string) : bool :=
  match node with
  | ColumnRefNode _ column => bool_decide (column = col)
  | BinaryExprNode _ lhs rhs =>
      containsColumn lhs col ||
      match rhs with Some r => containsColumn r col | None => false end
  | _ => false
  end.

Section Optimizer.
Variable estimateDistinctValues : TableStatistics → string → Z.
Variable log : double → double.

(** ** Selectivity *)

(** A null right operand of AND or OR is the null condition. *)
Fixpoint estimateSelectivity (stats : TableStatistics) (condition : ASTNode) : double :=
  match condition with
  | BinaryExprNode op lhs rhs =>
      let right_sel := match rhs with
                       | Some r => estimateSelectivity stats r
                       | None => double_of_int 1
                       end in
      match op with
      | Operator.EQ =>
          match lhs with
          | ColumnRefNode _ column =>
              let distinct := estimateDistinctValues stats column in
              if 0 <? distinct then ddiv (double_of_int 1) (double_of_int distinct)
              else decimal 1 10
          | _ => decimal 1 10
          end
      | Operator.LIKE => decimal 5 100
      | Operator.AND => dmul (estimateSelectivity stats lhs) right_sel
      | Operator.OR =>
          let left_sel := estimateSelectivity stats lhs in
          dsub (dadd left_sel right_sel) (dmul left_sel right_sel)
      | Operator.LT | Operator.LE | Operator.GT | Operator.GE => decimal 3 10
      | _ => decimal 5 10
      end
  | _ => decimal 5 10
  end.

Definition selectivity (stats : TableStatistics) (condition : option ASTNode) : double :=
  match condition with Some c => estimateSelectivity stats c | None => double_of_int 1 end.

Definition INDEX_SELECTIVITY_THRESHOLD : double := decimal 2 10.

Definition shouldUseIndex (stats : TableStatistics) (condition : ASTNode) : bool :=
  SFltb (estimateSelectivity stats condition) INDEX_SELECTIVITY_THRESHOLD.

(** ** Costs *)

Record QueryOptimizer := mkOptimizer {
  statistics : gmap string TableStatistics;
  rules : list (string * string * bool)
}.

Definition stats_of (o : QueryOptimizer) (table : string) : TableStatistics :=
  default TableStatistics_new (statistics o !! table).

(** The last lines of [estimateCost]. *)
Definition with_total (rows : Z) (io cpu : double) : Cost :=
  mkCost cpu io dzero (dadd (dmul io (double_of_int 10)) cpu) rows.

Fixpoint estimateCost (o : QueryOptimizer) (node : PlanNode) : option Cost :=
  let child_cost (n : option PlanNode) :=
    match n with Some n => estimateCost o n | None => Some Cost_zero end in
  match pn_type node with
  | OperatorType.SEQ_SCAN =>
      let stats := stats_of o (pn_table_name node) in
      Some (with_total (row_count stats) (dmul (double_of_int (page_count stats)) (decimal 1 1))
              (dmul (double_of_int (row_count stats)) (decimal 1 100)))
  | OperatorType.INDEX_SCAN =>
      let stats := stats_of o (pn_table_name node) in
      let sel := selectivity stats (pn_filter node) in
      rows ← to_size (dmul (double_of_int (row_count stats)) sel);
      Some (with_total rows
              (dmul (dmul (double_of_int (page_count stats)) sel) (decimal 1 10))
              (dmul (dmul (double_of_int (row_count stats)) sel) (decimal 5 100)))
  | OperatorType.FILTER =>
      c ← child_cost (pn_left node);
      let sel := selectivity (stats_of o (pn_table_name node)) (pn_filter node) in
      rows ← to_size (dmul (double_of_int (estimated_rows c)) sel);
      Some (with_total rows (io_cost c)
              (dadd (cpu_cost c) (dmul (double_of_int (estimated_rows c)) (decimal 1 100))))
  | OperatorType.JOIN =>
      _ ← child_cost (pn_left node); _ ← child_cost (pn_right node);
      Some (with_total 0 dzero dzero)
  | OperatorType.NESTED_LOOP_JOIN =>
      l ← child_cost (pn_left node); r ← child_cost (pn_right node);
      let lrows := double_of_int (estimated_rows l) in
      Some (with_total (wrap 64 (estimated_rows l * estimated_rows r))
              (dadd (io_cost l) (dmul lrows (io_cost r)))
              (dadd (cpu_cost l) (dmul lrows (cpu_cost r))))
  | OperatorType.HASH_JOIN =>
      l ← child_cost (pn_left node); r ← child_cost (pn_right node);
      Some (with_total (wrap 64 (estimated_rows l * estimated_rows r))
              (dadd (io_cost l) (io_cost r))
              (dadd (dadd (cpu_cost l) (cpu_cost r))
                 (dmul (double_of_int (estimated_rows l)) (decimal 1 10))))
  | OperatorType.MERGE_JOIN =>
      l ← child_cost (pn_left node); r ← child_cost (pn_right node);
      Some (with_total (wrap 64 (estimated_rows l * estimated_rows r))
              (dadd (io_cost l) (io_cost r))
              (dadd (dadd (cpu_cost l) (cpu_cost r))
                 (dmul (double_of_int (wrap 64 (estimated_rows l + estimated_rows r)))
                    (decimal 5 100))))
  | OperatorType.SORT =>
      c ← child_cost (pn_left node);
      let rows := double_of_int (estimated_rows c) in
      Some (with_total (estimated_rows c) (dmul (io_cost c) (double_of_int 2))
              (dadd (cpu_cost c) (dmul (dmul rows (log rows)) (decimal 1 100))))
  | OperatorType.LIMIT =>
      c ← child_cost (pn_left node);
      let rows := estimated_rows c `min` pn_limit node in
      let share := ddiv (double_of_int rows) (double_of_int (estimated_rows c)) in
      Some (with_total rows (dmul (io_cost c) share) (dmul (cpu_cost c) share))
  | _ =>
      c ← child_cost (pn_left node);
      Some (mkCost (cpu_cost c) (io_cost c) (network_cost c)
              (dadd (dmul (io_cost c) (double_of_int 10)) (cpu_cost c)) (estimated_rows c))
  end.

Definition estimateCost_ptr (o : QueryOptimizer) (node : option PlanNode) : option Cost :=
  match node with Some n => estimateCost o n | None => Some Cost_zero end.

(** ** Construction *)

Definition initializeRules : list (string * string * bool) :=
  [("index_scan", "Usa índice quando disponível", true);
   ("join_reordering", "Reordena joins para minimizar custo", true);
   ("predicate_pushdown", "Empurra predicados para baixo na árvore", true);
   ("projection_pushdown", "Projeta colunas o mais cedo possível", true);
   ("subquery_unnesting", "Transforma subconsultas em joins", true);
   ("view_merging", "Mescla visualizações na consulta principal", true)]%string.

(** The plans that the rules propose: none. *)
Definition apply_rule (name : string) (query : SelectNode) : option ExecutionPlan := None.

Definition simulated (schema : TableSchema) : TableStatistics :=
  mkTableStatistics 10000 100 (foldl (λ m c, <[col_name c := 100]> m) ∅ (columns schema)).

Definition updateStatistics (table_name : string) (o : QueryOptimizer) : Op QueryOptimizer :=
  schema ← on_catalog (getTable table_name);
  mret (match schema with
        | None => o
        | Some schema =>
            mkOptimizer (<[table_name := simulated schema]> (statistics o)) (rules o)
        end).

Fixpoint update_all (names : list string) (o : QueryOptimizer) : Op QueryOptimizer :=
  match names with
  | [] => mret o
  | name :: names' => o ← updateStatistics name o; update_all names' o
  end.

Definition QueryOptimizer_new : Op QueryOptimizer :=
  schemas ← on_catalog getAllTables;
  update_all (ts_name <$> schemas) (mkOptimizer ∅ initializeRules).

(** ** Plans of a query *)

Definition findUsableIndexes (table : string) (condition : ASTNode) : Op (list string) :=
  schema ← on_catalog (getTable table);
  mret (match schema with
        | None => []
        | Some schema =>
            filter (λ col, containsColumn condition col = true) (map_to_list (indexes schema)).*1
        end).

Definition scan_node (t : OperatorType) (table index : string) (f : option ASTNode) : PlanNode :=
  mkPlanNode t None None [] table index f [] 0.

(** The source of the rows of a table. *)
Definition source_node (o : QueryOptimizer) (table : string) (where_ : option ASTNode) : Op PlanNode :=
  match where_ with
  | None => mret (scan_node OperatorType.SEQ_SCAN table "" None)
  | Some condition =>
      usable ← findUsableIndexes table condition;
      mret (match usable with
            | index :: _ =>
                if shouldUseIndex (stats_of o table) condition then
                  scan_node OperatorType.INDEX_SCAN table index (Some condition)
                else scan_node OperatorType.SEQ_SCAN table "" (Some condition)
            | [] => scan_node OperatorType.SEQ_SCAN table "" (Some condition)
            end)
  end.

Definition add_join (node : PlanNode) (join : JoinClause ASTNode) : PlanNode :=
  set_left (Some (set_left (pn_left node) (PlanNode_new OperatorType.JOIN))) node.

Definition add_sort (order_by : option (list (OrderItem ASTNode))) (node : PlanNode) : PlanNode :=
  match order_by with
  | None => node
  | Some items =>
      mkPlanNode OperatorType.SORT (Some node) None [] "" "" None
        ((λ item, (EmptyString, ascending item)) <$> items) 0
  end.

Definition add_limit (l : option LimitNode) (node : PlanNode) : PlanNode :=
  match l with
  | Some l =>
      if 0 <? limit l then
        mkPlanNode OperatorType.LIMIT (Some node) None [] "" "" None [] (limit l)
      else node
  | None => node
  end.

(** The cost of the plan; an estimate that is undefined is the call's. *)
Definition cost_of (o : QueryOptimizer) (root : option PlanNode) : Op Cost :=
  match estimateCost_ptr o root with Some c => mret c | None => undefined end.

Definition logicalOptimization (o : QueryOptimizer) (query : SelectNode) : Op ExecutionPlan :=
  match query with
  | mkSelectNode _ _ _ from_tables joins where_ _ _ order_by limit _ _ =>
      project_node ← match from_tables with
                     | [] => mret (PlanNode_new OperatorType.PROJECT)
                     | table_ref :: _ =>
                         source ← source_node o (table_name table_ref) where_;
                         mret (set_left (Some source) (PlanNode_new OperatorType.PROJECT))
                     end;
      let node := foldl add_join project_node joins in
      let node := add_limit limit (add_sort order_by node) in
      cost ← cost_of o (Some node);
      mret (mkExecutionPlan (Some node) cost)
  end.

(** The algorithm of a join, from the estimates for its children. *)
Definition choose_join (lrows rrows : Z) : OperatorType :=
  if (lrows <? 100) || (rrows <? 100) then OperatorType.NESTED_LOOP_JOIN
  else if wrap 64 (lrows * rrows) <? 1000000 then OperatorType.HASH_JOIN
  else OperatorType.MERGE_JOIN.

(** A node is converted before its children, so that the estimates are those of
    the children before their conversion. *)
Fixpoint convert_node (o : QueryOptimizer) (node : PlanNode) : option PlanNode :=
  let convert_ptr (n : option PlanNode) :=
    match n with Some n => Some <$> convert_node o n | None => Some None end in
  type ← (if decide (pn_type node = OperatorType.JOIN) then
            l ← estimateCost_ptr o (pn_left node); r ← estimateCost_ptr o (pn_right node);
            Some (choose_join (estimated_rows l) (estimated_rows r))
          else Some (pn_type node));
  l ← convert_ptr (pn_left node); r ← convert_ptr (pn_right node);
  cs ← (fix convert_all (ns : list PlanNode) : option (list PlanNode) :=
          match ns with
          | [] => Some []
          | n :: ns' => n ← convert_node o n; ns ← convert_all ns'; Some (n :: ns)
          end) (pn_children node);
  Some (mkPlanNode type l r cs (pn_table_name node) (pn_index_name node) (pn_filter node)
          (pn_order_by node) (pn_limit node)).

Definition physicalOptimization (o : QueryOptimizer) (logical : ExecutionPlan) : Op ExecutionPlan :=
  match plan_root logical with
  | None => mret logical
  | Some root =>
      match convert_node o root with
      | None => undefined
      | Some root => mret (mkExecutionPlan (Some root) (plan_cost logical))
      end
  end.

Definition generateAlternatives (query : option SelectNode) : list ExecutionPlan := [].

(** The cheapest of the alternatives and the plan. *)
Fixpoint cheapest (o : QueryOptimizer) (best : ExecutionPlan) (alts : list ExecutionPlan)
  : Op ExecutionPlan :=
  match alts with
  | [] => mret best
  | alt :: alts' =>
      cost ← cost_of o (plan_root alt);
      let alt := mkExecutionPlan (plan_root alt) cost in
      cheapest o (if SFltb (total_cost (plan_cost alt)) (total_cost (plan_cost best)) then alt
                  else best) alts'
  end.

Definition costBasedOptimization (o : QueryOptimizer) (plan : ExecutionPlan) : Op ExecutionPlan :=
  cheapest o plan (generateAlternatives None).

(** The loop over the rules. *)
Definition apply_rules (o : QueryOptimizer) (query : SelectNode) (plan : ExecutionPlan)
  : ExecutionPlan :=
  foldl (λ plan (rule : string * string * bool),
           if rule.2 then
             match apply_rule rule.1.1 query with
             | Some alternative =>
                 if SFltb (total_cost (plan_cost alternative)) (total_cost (plan_cost plan))
                 then alternative else plan
             | None => plan
             end
           else plan) plan (rules o).

Definition optimize (o : QueryOptimizer) (query : SelectNode) : Op ExecutionPlan :=
  ctx ← (λ w, Some (w, w_ctx w) : option (World * ExecutorContext));
  if decide (mode ctx = ExecutionMode.EXPLAIN) then logicalOptimization o query
  else
    plan ← logicalOptimization o query;
    let plan := if level_code OptimizationLevel.O1 <=? level_code (optimization_level ctx)
                then apply_rules o query plan else plan in
    plan ← physicalOptimization o plan;
    if level_code OptimizationLevel.O2 <=? level_code (optimization_level ctx)
    then costBasedOptimization o plan else mret plan.

(** ** EXPLAIN *)

Fixpoint spaces (n : nat) : string :=
  match n with O => EmptyString | S n' => String " " (spaces n') end.

Definition order_text (order_by : list (string * bool)) : string :=
  match order_by with
  | [] => EmptyString
  | _ => " (" +:+ String.concat ", " ((λ kv : string * bool, kv.1 +:+ (if kv.2 then " ASC" else " DESC"))
                                        <$> order_by) +:+ ")"
  end.

Definition node_text (node : PlanNode) : string :=
  match pn_type node with
  | OperatorType.SEQ_SCAN => "Seq Scan on " +:+ pn_table_name node
  | OperatorType.INDEX_SCAN =>
      "Index Scan using " +:+ pn_index_name node +:+ " on " +:+ pn_table_name node
  | OperatorType.FILTER => "Filter"
  | OperatorType.PROJECT => "Project"
  | OperatorType.JOIN => "Join"
  | OperatorType.HASH_JOIN => "Hash Join"
  | OperatorType.NESTED_LOOP_JOIN => "Nested Loop Join"
  | OperatorType.MERGE_JOIN => "Merge Join"
  | OperatorType.SORT => "Sort" +:+ order_text (pn_order_by node)
  | OperatorType.LIMIT => "Limit (" +:+ to_string (pn_limit node) +:+ ")"
  | OperatorType.AGGREGATE => "Aggregate"
  | _ => EmptyString
  end.

Definition newline : string := String (Ascii.ascii_of_nat 10) EmptyString.

Definition analysis_text (o : QueryOptimizer) (analyze : bool) (node : PlanNode) : option string :=
  if analyze then
    cost ← estimateCost o node;
    Some ("  (cost=" +:+ print_fixed 2 (total_cost cost) +:+ " rows=" +:+ to_string (estimated_rows cost)
          +:+ ")")
  else Some EmptyString.

Fixpoint printNode (o : QueryOptimizer) (analyze : bool) (depth : nat) (node : PlanNode)
  : option string :=
  let print_ptr (n : option PlanNode) :=
    match n with Some n => printNode o analyze (S depth) n | None => Some EmptyString end in
  analysis ← analysis_text o analyze node;
  l ← print_ptr (pn_left node); r ← print_ptr (pn_right node);
  cs ← (fix print_all (ns : list PlanNode) : option string :=
          match ns with
          | [] => Some EmptyString
          | n :: ns' => n ← printNode o analyze (S depth) n; ns ← print_all ns'; Some (n +:+ ns)
          end) (pn_children node);
  Some (spaces (depth * 2) +:+ node_text node +:+ analysis +:+ newline +:+ l +:+ r +:+ cs).

Definition explainPlan (o : QueryOptimizer) (plan : ExecutionPlan) (analyze : bool) : option string :=
  body ← match plan_root plan with
         | Some root => printNode o analyze 0 root
         | None => Some EmptyString
         end;
  Some (body +:+ if analyze then
                   newline +:+ "Total cost: " +:+ print_fixed 2 (total_cost (plan_cost plan)) +:+ newline
                 else EmptyString).

End Optimizer.
