(* ===== verification/QueryExecutor.v ===== *)
(** * QueryExecutor: the execution of statements (src/engine/query_executor.cpp)

    A statement runs in a transaction of its own.  The executor points to the
    catalog and the transaction manager, and to the pool, which is that of the
    transaction manager.  The state of a call, [Exec], holds the world of the
    operators and the transaction manager.  A call is [None] when it does not
    return; inside, [None] is an exception, which keeps what was done so far.

    What the code calls and the sources do not have is a parameter: the two-argument
    [createIndex] of the catalog and the log number that the one-argument
    [addModifiedPage] leaves out.  [createTable] gets the schema, whose columns the
    code passes.  The loops over a table take the fuel of its iterators.  [explain]
    assigns the mode to a local variable, so that it is the execution of the
    statement; the prepared statements are declared only. *)

From stdpp Require Import gmap strings.
From S2P Require Import Prelude CxxString Types Doubles Record Page FileManager BufferPool Table.
From S2P Require Import LockManager LogManager TransactionManager BTreeNode BTree Lexer AST Parser.
From S2P Require Import Catalog ExecutorContext Operators Optimizer.

Open Scope Z_scope.

(** ** Expressions *)

(** An operation on [int32_t]: overflow is undefined. *)
Definition int_result (z : Z) : option Value :=
  if decide (fits_signed 32 z) then Some (Value_int z) else None.

Definition binary_result (op : Operator) (a b : Value) : option Value :=
  match op with
  | Operator.EQ => Some (Value_bool (int_val a =? int_val b))
  | Operator.NE => Some (Value_bool (negb (int_val a =? int_val b)))
  | Operator.LT => Some (Value_bool (int_val a <? int_val b))
  | Operator.LE => Some (Value_bool (int_val a <=? int_val b))
  | Operator.GT => Some (Value_bool (int_val b <? int_val a))
  | Operator.GE => Some (Value_bool (int_val b <=? int_val a))
  | Operator.AND => Some (Value_bool (bool_val a && bool_val b))
  | Operator.OR => Some (Value_bool (bool_val a || bool_val b))
  | Operator.PLUS => int_result (int_val a + int_val b)
  | Operator.MINUS => int_result (int_val a - int_val b)
  | Operator.MULTIPLY => int_result (int_val a * int_val b)
  | Operator.DIVIDE =>
      if decide (int_val b = 0) then Some Value_null else int_result (int_val a ÷ int_val b)
  | _ => Some Value_null
  end.

(** The list of an IN is not a [LiteralNode]: reading its value is undefined. *)
Fixpoint evaluateExpression (expr : ASTNode) (row : Row) : option Value :=
  match expr with
  | LiteralNode v => Some v
  | ListNode => None
  | ColumnRefNode _ _ => Some (match row with v :: _ => v | [] => Value_null end)
  | BinaryExprNode op lhs rhs =>
      a ← evaluateExpression lhs row;
      b ← match rhs with Some e => evaluateExpression e row | None => Some Value_null end;
      binary_result op a b
  | _ => Some Value_null
  end.

(** The values of a row of VALUES, and those of the assignments. *)
Fixpoint evaluate_all (exprs : list ASTNode) (row : Row) : option Row :=
  match exprs with
  | [] => Some []
  | e :: exprs' => v ← evaluateExpression e row; vs ← evaluate_all exprs' row; Some (v :: vs)
  end.

(** ** Plans to operators *)

Section Build.
Variable sort : (Row → Row → bool) → list Row → list Row.

Definition algorithm_of (t : OperatorType) : Join.JoinAlgorithm :=
  match t with
  | OperatorType.HASH_JOIN => Join.HASH
  | OperatorType.NESTED_LOOP_JOIN => Join.NESTED_LOOP
  | _ => Join.MERGE
  end.

(** A filter without a condition clones the null pointer: [None]. *)
Fixpoint buildPlan (node : PlanNode) : option (AnyOperator ScanOperator) :=
  let build_ptr (n : option PlanNode) :=
    match n with Some n => buildPlan n | None => Some null end in
  match pn_type node with
  | OperatorType.SEQ_SCAN =>
      Some (mkAny SLeaf (SeqScan (Scan.SeqScan_new (pn_table_name node) (pn_filter node))))
  | OperatorType.INDEX_SCAN =>
      Some (mkAny SLeaf (IndexScan
        (Scan.IndexScan_new (pn_table_name node) (pn_index_name node) (pn_filter node))))
  | OperatorType.FILTER =>
      child ← build_ptr (pn_left node);
      condition ← pn_filter node;
      Some (mkAny (SFilter (any_shape child))
              (Filter.Filter_new (any_state child) (Some condition)))
  | OperatorType.PROJECT =>
      child ← build_ptr (pn_left node);
      Some (mkAny (SProject (any_shape child)) (Project.Project_new (any_state child) [] []))
  | OperatorType.JOIN | OperatorType.HASH_JOIN | OperatorType.NESTED_LOOP_JOIN
  | OperatorType.MERGE_JOIN =>
      l ← build_ptr (pn_left node); r ← build_ptr (pn_right node);
      Some (mkAny (SJoin (any_shape l) (any_shape r))
              (Join.Join_new (any_state l) (any_state r) None JoinType.INNER
                 (algorithm_of (pn_type node))))
  | OperatorType.SORT =>
      child ← build_ptr (pn_left node);
      Some (mkAny (SSort (any_shape child))
              (Sort.Sort_new (any_state child)
                 ((λ kv : string * bool, Sort.mkSortKey None kv.2) <$> pn_order_by node)))
  | OperatorType.LIMIT =>
      child ← build_ptr (pn_left node);
      Some (mkAny (SLimit (any_shape child))
              (Limit.Limit_new (any_state child) (pn_limit node) 0))
  | _ => Some null
  end.

Definition build_ptr (node : option PlanNode) : option (AnyOperator ScanOperator) :=
  match node with Some n => buildPlan n | None => Some null end.
End Build.

(** ** SELECT *)

Section Select.
Variable sort : (Row → Row → bool) → list Row → list Row.
Variable estimateDistinctValues : TableStatistics → string → Z.
Variable log : double → double.

(** [Value(std::string)] *)
Definition text_row (s : string) : Row := [Value_string s].

Definition set_clock (t : Z) : Op () := λ w, Some (mkWorld (w_ctx w) (w_catalog w) t, ()).
Definition get_ctx : Op ExecutorContext := λ w, Some (w, w_ctx w).
Definition upd_ctx (f : ExecutorContext → ExecutorContext) : Op () := λ w,
  Some (mkWorld (f (w_ctx w)) (w_catalog w) (w_now w), ()).
Definition lift_option {A} (o : option A) : Op A := λ w, a ← o; Some (w, a).

(** The loop over the rows, over any operator; [clock i] is the time of the [i]th
    check for a timeout.  The comparison with the maximal number of rows is
    unsigned. *)
Fixpoint select_loop {C} `{ExecutorOperator C} (fuel : nat) (clock : nat → Z) (i : nat) (root : C)
    (row : Row) (results : list Row) : Op (C * list Row) :=
  match fuel with
  | O => undefined
  | S fuel' =>
      r ← next fuel' root row;
      let '(root, status, row) := r in
      if decide (status = StatusCode.OK) then
        let results := results ++ [row] in
        ctx ← get_ctx;
        if (0 <? max_rows ctx) && (max_rows ctx <=? Z.of_nat (length results)) then
          mret (root, results)
        else
          set_clock (clock i) ;;
          if checkTimeout (clock i) ctx then mret (root, results)
          else select_loop fuel' clock (S i) root row results
      else mret (root, results)
  end.

Definition executeSelect (fuel : nat) (clock : nat → Z) (select : SelectNode)
    (results : list Row) : Op (list Row * StatusCode) :=
  optimizer ← QueryOptimizer_new;
  plan ← optimize estimateDistinctValues log optimizer select;
  ctx ← get_ctx;
  if decide (mode ctx = ExecutionMode.EXPLAIN) then
    text ← lift_option (explainPlan estimateDistinctValues log optimizer plan false);
    mret (results ++ [text_row text], StatusCode.OK)
  else
    (if decide (mode ctx = ExecutionMode.EXPLAIN_ANALYZE) then upd_ctx (setProfilingEnabled true)
     else mret ()) ;;
    root ← lift_option (build_ptr (plan_root plan));
    if is_null root then mret (results, StatusCode.ERROR)
    else
      o ← @open _ (AnyOperator_operator sort) fuel root;
      if decide (o.2 = StatusCode.OK) then
        r ← @select_loop _ (AnyOperator_operator sort) fuel clock 0 o.1 [] results;
        _ ← @close _ (AnyOperator_operator sort) r.1;
        if decide (mode ctx = ExecutionMode.EXPLAIN_ANALYZE) then
          text ← lift_option (explainPlan estimateDistinctValues log optimizer plan true);
          mret ([text_row text], StatusCode.OK)
        else mret (r.2, StatusCode.OK)
      else mret (results, o.2).
End Select.

(** ** Statements that change tables *)

(** [new_row[i] = v]; out of range it is undefined. *)
Definition assign_column (i : nat) (v : Value) (row : Row) : option Row :=
  if decide (i < length row)%nat then Some (<[i := v]> row) else None.

(** The column of an assignment, the first one when there is none of that name. *)
Fixpoint find_column (cols : list ColumnSchema) (name : string) (i : nat) : nat :=
  match cols with
  | [] => 0%nat
  | c :: cols' => if bool_decide (col_name c = name) then i else find_column cols' name (S i)
  end.

(** Every value is evaluated on the old row. *)
Fixpoint apply_assignments (cols : list ColumnSchema) (assigns : list Assignment) (row new_row : Row)
  : option Row :=
  match assigns with
  | [] => Some new_row
  | a :: assigns' =>
      v ← evaluateExpression (assigned_value a) row;
      new_row ← assign_column (find_column cols (assigned_column a) 0) v new_row;
      apply_assignments cols assigns' row new_row
  end.

Definition where_matches (where_ : option ASTNode) (row : Row) : option bool :=
  match where_ with
  | None => Some true
  | Some condition => v ← evaluateExpression condition row; Some (bool_val v)
  end.

Section Statements.
Context {St : Type} `{PageStore St}.

Record Exec := mkExec { x_world : World; x_tm : TransactionManager St }.

Definition X (A : Type) : Type := Exec → option (Exec * option A).

#[local] Instance X_ret : MRet X := λ A a x, Some (x, Some a).
#[local] Instance X_bind : MBind X := λ A B f m x,
  match m x with
  | Some (x', Some a) => f a x'
  | Some (x', None) => Some (x', None)
  | None => None
  end.

Definition x_undefined {A} : X A := λ _, None.
Definition x_lift {A} (o : option A) : X A := λ x, a ← o; Some (x, Some a).
(** A call of an operator, of the catalog, of the pool. *)
Definition x_op {A} (m : Op A) : X A := λ x,
  r ← m (x_world x); Some (mkExec r.1 (x_tm x), Some r.2).
Definition x_catalog {A} (m : Catalog.M A) : X A := λ x,
  let w := x_world x in
  r ← m (w_catalog w); Some (mkExec (mkWorld (w_ctx w) r.1 (w_now w)) (x_tm x), r.2).
Definition x_pool {A} (f : BufferPool St → option (BufferPool St * A)) : X A := λ x,
  r ← f (tm_pool (x_tm x)); Some (mkExec (x_world x) (set_pool r.1 (x_tm x)), Some r.2).

Variable missing_lsn : Z.

(** [context->getTransaction()->addModifiedPage(rid >> 32)] *)
Definition mark_page (rid : Z) : X () := λ x,
  id ← transaction (w_ctx (x_world x));
  _ ← deref id (x_tm x);
  Some (mkExec (x_world x) (with_tx id (addModifiedPage (rid_page rid) missing_lsn) (x_tm x)), Some ()).

Definition set_scanned (n : Z) : X () := x_op (upd_world_stats (set_rows_scanned n)).

(** A new [Table] for a table of the catalog. *)
Definition qe_getTable (fuel : nat) (name : string) : X (option Table) :=
  schema ← x_catalog (getTable name);
  match schema with
  | None => mret None
  | Some schema => t ← x_pool (Table_new fuel schema); mret (Some t)
  end.

Definition qe_getIndex (table column : string) : X Z :=
  schema ← x_catalog (getTable table);
  mret (match schema with None => 0 | Some s => default 0 (indexes s !! column) end).

(** *** INSERT *)

Fixpoint insert_rows (t : Table) (rows : list (list ASTNode)) (inserted : Z)
  : X (StatusCode * Z) :=
  match rows with
  | [] => mret (StatusCode.OK, inserted)
  | exprs :: rows' =>
      values ← x_lift (evaluate_all exprs []);
      r ← x_pool (λ p, r ← table_insertRecord t values p;
                       let '(p, t, status, rid) := r in Some (p, (t, status, rid)));
      let '(t, status, rid) := r in
      if decide (status = StatusCode.OK) then
        mark_page (default 0 rid) ;; insert_rows t rows' (wrap 64 (inserted + 1))
      else mret (status, inserted)
  end.

Definition executeInsert (fuel : nat) (insert : InsertNode) : X StatusCode :=
  table ← qe_getTable fuel (insert_table insert);
  match table with
  | None => mret StatusCode.NOT_FOUND
  | Some t =>
      r ← insert_rows t (insert_values insert) 0;
      if decide (r.1 = StatusCode.OK) then set_scanned r.2 ;; mret StatusCode.OK else mret r.1
  end.

(** *** Loops over a table *)

(** [for (auto it = table->begin(); it != table->end(); ++it)]: the body gives
    the new state of the loop, or the status to return. *)
Fixpoint for_rows {A} (fuel : nat) (t : Table) (body : A → Z → Row → X (A + StatusCode)) (a : A)
    (it : TableIterator) : X (A + StatusCode) :=
  if iterator_ne it table_end then
    match fuel with
    | O => x_undefined
    | S fuel' =>
        rv ← x_pool (λ p, r ← iterator_deref it p; Some (p, r));
        r ← body a rv.1 rv.2;
        match r with
        | inr status => mret (inr status)
        | inl a => it ← x_pool (iterator_next fuel' t it); for_rows fuel' t body a it
        end
    end
  else mret (inl a).

Definition scan_table {A} (fuel : nat) (t : Table) (body : A → Z → Row → X (A + StatusCode)) (a : A)
  : X (A + StatusCode) :=
  it ← x_pool (table_begin fuel t); for_rows fuel t body a it.

(** The end of a statement: the number of rows, or the status of the failure. *)
Definition finish_scan (r : Z + StatusCode) : X StatusCode :=
  match r with
  | inr status => mret status
  | inl n => set_scanned n ;; mret StatusCode.OK
  end.

(** *** UPDATE *)

Definition update_body (t : Table) (update : UpdateNode) (updated : Z) (rid : Z) (row : Row)
  : X (Z + StatusCode) :=
  matched ← x_lift (where_matches (update_where update) row);
  if negb matched then mret (inl updated)
  else
    new_row ← x_lift (apply_assignments (columns (tschema t)) (assignments update) row row);
    status ← x_pool (table_updateRecord t rid new_row);
    if decide (status = StatusCode.OK) then
      mark_page rid ;; mret (inl (wrap 64 (updated + 1)))
    else mret (inr status).

Definition executeUpdate (fuel : nat) (update : UpdateNode) : X StatusCode :=
  table ← qe_getTable fuel (update_table update);
  match table with
  | None => mret StatusCode.NOT_FOUND
  | Some t => r ← scan_table fuel t (update_body t update) 0; finish_scan r
  end.

(** *** DELETE *)

(** The count of the rows of the table is not read by the statement. *)
Definition delete_body (t : Table) (d : DeleteNode) (deleted : Z) (rid : Z) (row : Row)
  : X (Z + StatusCode) :=
  matched ← x_lift (where_matches (delete_where d) row);
  if negb matched then mret (inl deleted)
  else
    status ← x_pool (λ p, r ← table_deleteRecord t rid p; Some (r.1.1, r.2));
    if decide (status = StatusCode.OK) then
      mark_page rid ;; mret (inl (wrap 64 (deleted + 1)))
    else mret (inr status).

Definition executeDelete (fuel : nat) (d : DeleteNode) : X StatusCode :=
  table ← qe_getTable fuel (delete_table d);
  match table with
  | None => mret StatusCode.NOT_FOUND
  | Some t => r ← scan_table fuel t (delete_body t d) 0; finish_scan r
  end.

(** *** CREATE and DROP *)

Variable fs : FileSystem.
Variable createIndex2 : string → string → Catalog.M StatusCode.

Definition column_of_def (id : Z) (d : ColumnDef) : ColumnSchema :=
  mkColumnSchema id (column_name d) (column_type d) (column_length d) 10 0 (AST.nullable d)
    (AST.primary_key d) false false "" "".

(** The columns with their ids, a [uint16_t] counter. *)
Fixpoint columns_of_defs (id : Z) (defs : list ColumnDef) : list ColumnSchema :=
  match defs with
  | [] => []
  | d :: defs' => column_of_def id d :: columns_of_defs (wrap 16 (id + 1)) defs'
  end.

Definition schema_of (id : Z) (create : CreateTableNode) : TableSchema :=
  let cols := columns_of_defs 0 (create_columns create) in
  mkTableSchema id (create_table_name create) cols
    (col_id <$> filter (λ c, is_primary_key c = true) cols) ∅ ∅.

Definition executeCreateTable (create : CreateTableNode) : X StatusCode :=
  id ← x_catalog getNextTableId;
  let schema := schema_of id create in
  _ ← x_catalog (createTable fs (ts_name schema) schema);
  match Types.primary_key schema with
  | [] => mret StatusCode.OK
  | k :: _ =>
      col ← x_lift (columns schema !! Z.to_nat k);
      _ ← x_catalog (createIndex2 (ts_name schema) (col_name col));
      mret StatusCode.OK
  end.

(** [BTree<Value, RecordId>] is not among the instances of the tree. *)
Variable IndexTree : Type.
Variable index_new : Z → BufferPool St → option (BufferPool St * IndexTree).
Variable index_insert : IndexTree → Value → Z → BufferPool St → option (BufferPool St * IndexTree).

Definition index_body (cols : list ColumnSchema) (column : string) (tree : IndexTree) (rid : Z)
    (row : Row) : X (IndexTree + StatusCode) :=
  key ← x_lift (row !! find_column cols column 0);
  tree ← x_pool (index_insert tree key rid);
  mret (inl tree).

Definition executeCreateIndex (fuel : nat) (create : CreateIndexNode) : X StatusCode :=
  schema ← x_catalog (getTable (index_table create));
  match schema with
  | None => mret StatusCode.NOT_FOUND
  | Some schema =>
      column ← x_lift (head (AST.index_columns create));
      _ ← x_catalog (createIndex2 (index_table create) column);
      table ← qe_getTable fuel (index_table create);
      id ← qe_getIndex (index_table create) column;
      tree ← x_pool (index_new id);
      match table with
      | None => x_undefined
      | Some t => _ ← scan_table fuel t (index_body (columns schema) column) tree; mret StatusCode.OK
      end
  end.

Definition executeDropTable (drop : DropTableNode) : X StatusCode :=
  _ ← x_catalog (dropTable fs (drop_table_name drop)); mret StatusCode.OK.

(** *** Transactions *)

Definition executeBegin (n : SavepointName) : X StatusCode := mret StatusCode.OK.
Definition executeCommit (n : SavepointName) : X StatusCode := mret StatusCode.OK.
Definition executeRollback (n : SavepointName) : X StatusCode := mret StatusCode.OK.

(** ** Execution *)

Variable sort : (Row → Row → bool) → list Row → list Row.
Variable estimateDistinctValues : TableStatistics → string → Z.
Variable log : double → double.

Record QueryExecutor := mkQueryExecutor {
  qe_catalog : Catalog;
  qe_tm : TransactionManager St;
  qe_opt_level : OptimizationLevel;
  qe_profiling : bool;
  qe_stats : ExecutionStats
}.

Definition QueryExecutor_new (c : Catalog) (tm : TransactionManager St) : QueryExecutor :=
  mkQueryExecutor c tm OptimizationLevel.O2 false ExecutionStats_zero.

Definition qe_resetStats (q : QueryExecutor) : QueryExecutor :=
  mkQueryExecutor (qe_catalog q) (qe_tm q) (qe_opt_level q) (qe_profiling q)
    (stats_reset (qe_stats q)).

(** The dispatch on the type of the statement; only SELECT has results. *)
Definition dispatch (fuel : nat) (clock : nat → Z) (s : Statement) (results : list Row)
  : X (list Row * StatusCode) :=
  let no_rows (m : X StatusCode) : X (list Row * StatusCode) :=
    status ← m; mret (results, status) in
  match s with
  | SelectStmt n =>
      x_op (executeSelect sort estimateDistinctValues log fuel clock n results)
  | InsertStmt n => no_rows (executeInsert fuel n)
  | UpdateStmt n => no_rows (executeUpdate fuel n)
  | DeleteStmt n => no_rows (executeDelete fuel n)
  | CreateTableStmt n => no_rows (executeCreateTable n)
  | CreateIndexStmt n => no_rows (executeCreateIndex fuel n)
  | DropTableStmt n => no_rows (executeDropTable n)
  | BeginStmt n => no_rows (executeBegin n)
  | CommitStmt n => no_rows (executeCommit n)
  | RollbackStmt n => no_rows (executeRollback n)
  end.

(** The executor after a statement. *)
Definition after (q : QueryExecutor) (x : Exec) (tm : TransactionManager St) : QueryExecutor :=
  mkQueryExecutor (w_catalog (x_world x)) tm (qe_opt_level q) (qe_profiling q) (qe_stats q).

(** [execute] of a tree at time [now]; inside, [None] is an exception, which
    leaves the transaction as it is. *)
Definition execute (fuel : nat) (now : Z) (clock : nat → Z) (s : Statement) (results : list Row)
    (q : QueryExecutor) : option (QueryExecutor * option (list Row * StatusCode)) :=
  b ← begin now IsolationLevel.REPEATABLE_READ AccessMode.READ_WRITE (qe_tm q);
  let ctx := setProfilingEnabled (qe_profiling q)
               (setOptimizationLevel (qe_opt_level q) (ExecutorContext_new b.2 now)) in
  r ← dispatch fuel clock s results (mkExec (mkWorld ctx (qe_catalog q) now) b.1);
  match r with
  | (x, None) => Some (after q x (x_tm x), None)
  | (x, Some (results, status)) =>
      f ← (if decide (status = StatusCode.OK) then commit now b.2 (x_tm x)
           else abort now b.2 (x_tm x));
      let q := after q x f.1 in
      Some (mkQueryExecutor (qe_catalog q) (qe_tm q) (qe_opt_level q) (qe_profiling q)
              (stats_merge (qe_stats q) (ctx_stats (w_ctx (x_world x)))),
            Some (results, status))
  end.

(** [execute] of a text, from [now] to [later]. *)
Definition execute_sql (fuel : nat) (now later : Z) (clock : nat → Z) (sql : string)
    (results : list Row) (q : QueryExecutor) : option (QueryExecutor * list Row * StatusCode) :=
  match parse_string sql with
  | Stops (Throws _) _ => Some (q, results, StatusCode.ERROR)
  | Stops _ _ => None
  | Returns s _ =>
      r ← execute fuel now clock s results q;
      match r with
      | (q, None) => Some (q, results, StatusCode.ERROR)
      | (q, Some (results, status)) =>
          Some (mkQueryExecutor (qe_catalog q) (qe_tm q) (qe_opt_level q) (qe_profiling q)
                  (set_returned (later - now) (Z.of_nat (length results)) (qe_stats q)),
                results, status)
      end
  end.

Definition explain (fuel : nat) (now later : Z) (clock : nat → Z) (sql : string) (analyze : bool)
    (q : QueryExecutor) : option (QueryExecutor * string) :=
  r ← execute_sql fuel now later clock sql [] q;
  let '(q, results, _) := r in
  Some (q, match results with
           | (v :: _) :: _ => str_val v
           | _ => EmptyString
           end).

End Statements.
Arguments Exec : clear implicits.
Arguments QueryExecutor : clear implicits.
