(* ===== verification/SelectProofs.v ===== *)
(** * SelectProofs: what SELECT answers

    The operators keep the settings of the context ([OperatorFrame]), so that the
    loop over the rows of a plan returns the rows that its root delivers, until a
    timeout.  The plans that the optimizer makes are determined; a sequential scan
    delivers empty rows for ever, and what that means for SELECT is stated in the
    theorems at the end. *)

From stdpp Require Import gmap strings list.
From Stdlib Require Import SpecFloat.
From S2P Require Import Prelude Types Doubles Record Page AST Table Catalog ExecutorContext Operators.
From S2P Require Import OperatorsProofs Optimizer QueryExecutor.

Open Scope Z_scope.
Implicit Types (row : Row) (rows : list Row) (w : World) (st : StatusCode).

(** ** Calls that keep the settings *)

Definition settings (c : ExecutorContext) : ExecutorContext := upd_ctx_stats (λ _, ExecutionStats_zero) c.

Definition keeps {A} (m : Op A) : Prop :=
  ∀ w w' a, m w = Some (w', a) → settings (w_ctx w') = settings (w_ctx w).

Lemma op_keeps_ret {A} (a : A) : keeps (mret a : Op A).
Proof. intros w w' a' [= <- <-]. done. Qed.
Lemma op_keeps_undefined {A} : keeps (undefined : Op A).
Proof. by intros w w' a. Qed.
Lemma op_keeps_now : keeps now.
Proof. intros w w' a [= <- <-]. done. Qed.
Lemma op_keeps_stats f : keeps (upd_world_stats f).
Proof. intros w w' a [= <- <-]. done. Qed.
Lemma op_keeps_catalog {A} (m : Catalog.M A) : keeps (on_catalog m).
Proof.
  intros w w' a. unfold on_catalog. destruct (m (w_catalog w)) as [[c [b|]]|]; [|done..].
  by intros [= <- <-].
Qed.
Lemma op_keeps_bind {A B} (m : Op A) (f : A → Op B) :
  keeps m → (∀ a, keeps (f a)) → keeps (m ≫= f).
Proof.
  intros Hm Hf w w' b. unfold mbind, Op_bind. destruct (m w) as [[w1 a]|] eqn:E; [|done].
  intros E'. rewrite (Hf a _ _ _ E'). by apply (Hm _ _ _ E).
Qed.
Lemma op_keeps_fmap {A B} (f : A → B) (m : Op A) : keeps m → keeps (f <$> m).
Proof.
  intros Hm w w' b. unfold fmap, Op_fmap. destruct (m w) as [[w1 a]|] eqn:E; [|done].
  intros [= <- <-]. by apply (Hm _ _ _ E).
Qed.

Create HintDb keeps discriminated.
#[export] Hint Resolve op_keeps_ret op_keeps_undefined op_keeps_now op_keeps_stats op_keeps_catalog : keeps.

Class OperatorFrame (S : Type) `{ExecutorOperator S} := mkOperatorFrame {
  open_keeps n (s : S) : keeps (open n s);
  next_keeps n (s : S) row : keeps (next n s row);
  close_keeps (s : S) : keeps (close s);
  rewind_keeps (s : S) : keeps (rewind s)
}.

(** Goes through a call down to those of the children. *)
Ltac keeps := repeat first
  [ case_decide
  | match goal with
    | |- keeps (_ ≫= _) => apply op_keeps_bind; [|intros ?]
    | |- keeps (_ <$> _) => apply op_keeps_fmap
    | |- keeps (open _ _) => apply open_keeps
    | |- keeps (next _ _ _) => apply next_keeps
    | |- keeps (close _) => apply close_keeps
    | |- keeps (rewind _) => apply rewind_keeps
    | |- keeps (match ?x with _ => _ end) => destruct x
    | |- keeps (let '_ := ?x in _) => destruct x
    | |- keeps (if ?x then _ else _) => destruct x
    end
  | solve [auto with keeps] ].

Lemma drain_keeps {S} `{OperatorFrame S} n (s : S) row : keeps (drain n s row).
Proof. revert s row. induction n as [|n IH]; intros s row; cbn [drain]; keeps. Qed.
#[export] Hint Resolve drain_keeps : keeps.

#[export] Instance SeqScan_frame : OperatorFrame Scan.SeqScanOperator.
Proof.
  split.
  - intros n s. cbn. unfold Scan.seq_open. keeps.
  - intros n s row. cbn. revert s row. induction n as [|n IH]; intros s row; cbn [Scan.seq_next]; keeps.
  - intros s. cbn. unfold Scan.seq_close. keeps.
  - intros s. cbn. keeps.
Qed.
#[export] Instance IndexScan_frame : OperatorFrame Scan.IndexScanOperator.
Proof.
  split; intros; cbn; [unfold Scan.index_open| |unfold Scan.index_close|]; keeps.
Qed.
#[export] Instance ScanOperator_frame : OperatorFrame ScanOperator.
Proof.
  split; intros; destruct s; cbn [open next close rewind ScanOperator_operator]; keeps.
Qed.

Section Frames.
Context {C : Type} `{frame : OperatorFrame C}.

#[export] Instance Filter_frame : OperatorFrame (Filter.FilterOperator C).
Proof.
  split.
  - intros n s. cbn. unfold Filter.filter_open. keeps.
  - intros n s row. cbn. revert s row. induction n as [|n IH]; intros s row; cbn [Filter.filter_next]; keeps.
  - intros s. cbn. unfold Filter.filter_close. keeps.
  - intros s. cbn. unfold Filter.filter_rewind. keeps.
Qed.
#[export] Instance Project_frame : OperatorFrame (Project.ProjectOperator C).
Proof.
  split; intros; cbn;
    [unfold Project.project_open|unfold Project.project_next|unfold Project.project_close
    |unfold Project.project_rewind]; keeps.
Qed.
#[export] Instance Limit_frame : OperatorFrame (Limit.LimitOperator C).
Proof.
  assert (∀ n k (c : C) row, keeps (Limit.skip_rows n k c row)) as Hskip.
  { intros n k. induction k as [|k IH]; intros c row; cbn [Limit.skip_rows]; keeps. }
  split; intros; cbn;
    [unfold Limit.limit_open|unfold Limit.limit_next|unfold Limit.limit_close
    |unfold Limit.limit_rewind]; keeps.
Qed.
Lemma Sort_frame sort : @OperatorFrame (Sort.SortOperator C) (Sort.Sort_operator sort).
Proof.
  assert (∀ n (c : C) row, keeps (Sort.load_rows n c row)) as Hload.
  { intros n. induction n as [|n IH]; intros c row; cbn [Sort.load_rows]; keeps. }
  split; intros; cbn;
    [unfold Sort.sort_open|unfold Sort.sort_next|unfold Sort.sort_close|]; keeps.
Qed.
#[export] Instance Join_frame {D} `{frame' : OperatorFrame D} : OperatorFrame (Join.JoinOperator C D).
Proof.
  split.
  - intros n s. cbn. unfold Join.join_open. keeps.
  - intros n s row. cbn. revert s row. induction n as [|n IH]; intros s row; cbn [Join.join_next]; keeps.
  - intros s. cbn. unfold Join.join_close. keeps.
  - intros s. cbn. unfold Join.join_rewind. keeps.
Qed.
End Frames.

Lemma tree_frame sort {L} `{frame : OperatorFrame L} sh :
  @OperatorFrame (state L sh) (operators sort sh).
Proof.
  induction sh as [| |c IH|c IH|l IHl r IHr|c IH|c IH]; cbn [state operators].
  - split; intros; cbn; keeps.
  - exact frame.
  - exact Filter_frame.
  - exact Project_frame.
  - exact Join_frame.
  - exact (Sort_frame sort).
  - exact Limit_frame.
Qed.

(** ** The loop over the rows *)

(** A statement without a limit of rows that has not run out of time at [t]. *)
Definition on_time (c : ExecutorContext) (t : Z) : Prop := checkTimeout t c = false.

Lemma on_time_settings c c' t : settings c = settings c' → on_time c t → on_time c' t.
Proof.
  unfold on_time, checkTimeout. intros Hs. apply (f_equal (λ c, (statement_timeout_ms c, start_time c))) in Hs.
  cbn in Hs. by injection Hs as -> ->.
Qed.

Lemma timeout_settings c c' t : settings c = settings c' → checkTimeout t c = checkTimeout t c'.
Proof.
  unfold checkTimeout. intros Hs. apply (f_equal (λ c, (statement_timeout_ms c, start_time c))) in Hs.
  cbn in Hs. by injection Hs as -> ->.
Qed.

Lemma max_rows_settings c c' : settings c = settings c' → max_rows c = max_rows c'.
Proof. intros Hs. by apply (f_equal max_rows) in Hs. Qed.

Section Loop.
Context {C : Type} `{frame : OperatorFrame C}.
Variable clock : nat → Z.

(** One turn that delivers a row, without a limit. *)
Lemma select_turn m i (s : C) row results w w' s' r :
  next m s row w = Some (w', (s', StatusCode.OK, r)) → max_rows (w_ctx w) ≤ 0 →
  select_loop (S m) clock i s row results w =
    (if checkTimeout (clock i) (w_ctx w)
     then Some (mkWorld (w_ctx w') (w_catalog w') (clock i), (s', results ++ [r]))
     else select_loop m clock (S i) s' r (results ++ [r])
            (mkWorld (w_ctx w') (w_catalog w') (clock i)))
  ∧ settings (w_ctx w') = settings (w_ctx w).
Proof.
  intros E Hmax. assert (settings (w_ctx w') = settings (w_ctx w)) as Hset.
  { by eapply next_keeps. }
  split; [|done]. cbn [select_loop]. op_step E. cbn beta iota. rewrite decide_True by done.
  unfold get_ctx. op_now. rewrite (max_rows_settings _ _ Hset).
  rewrite (proj2 (Z.ltb_ge _ _)) by done. cbn [andb]. unfold set_clock. op_now.
  rewrite (timeout_settings _ _ _ Hset). by destruct (checkTimeout _ _).
Qed.

Lemma select_loop_rows n rows st (s : C) fuel i row results w :
  yields n rows st s → max_rows (w_ctx w) ≤ 0 → (n + length rows < fuel)%nat →
  (∀ k, (k < length rows)%nat → on_time (w_ctx w) (clock (i + k))) →
  ∃ s' w', select_loop fuel clock i s row results w = Some (w', (s', results ++ rows)).
Proof.
  intros [Hst Hp]. revert s fuel i row results w Hp.
  induction rows as [|r rows IH]; intros s fuel i row results w Hp Hmax Hf Htime;
    cbn [pulls length] in *; (destruct fuel as [|fuel]; [lia|]).
  - destruct (ends_step _ _ _ fuel row w Hp) as (s' & w' & E & _); [lia|].
    exists s', w'. cbn [select_loop]. op_step E. cbn beta iota. rewrite decide_False by done.
    by rewrite app_nil_r.
  - destruct (Hp fuel row w) as (s' & w' & E & Hs); [lia|].
    destruct (select_turn fuel i s row results w w' s' r E Hmax) as [-> Hset].
    assert (on_time (w_ctx w) (clock i)) as ->.
    { rewrite <- (Nat.add_0_r i). apply Htime. lia. }
    destruct (IH s' fuel (S i) r (results ++ [r]) (mkWorld (w_ctx w') (w_catalog w') (clock i))) as (s'' & w'' & E'); [exact Hs| | | |].
    + cbn. by rewrite (max_rows_settings _ _ Hset).
    + lia.
    + intros k Hk. cbn. eapply on_time_settings; [symmetry; exact Hset|].
      rewrite <- Nat.add_succ_r. apply Htime. lia.
    + exists s'', w''. rewrite E'. by rewrite <- app_assoc.
Qed.

Lemma select_loop_timeout n rows r Q (s : C) fuel i row results w :
  pulls n (rows ++ [r]) Q s → max_rows (w_ctx w) ≤ 0 → (n + length rows < fuel)%nat →
  (∀ k, (k < length rows)%nat → on_time (w_ctx w) (clock (i + k))) →
  checkTimeout (clock (i + length rows)) (w_ctx w) = true →
  ∃ s' w', select_loop fuel clock i s row results w = Some (w', (s', results ++ rows ++ [r])).
Proof.
  revert s fuel i row results w.
  induction rows as [|x rows IH]; intros s fuel i row results w Hp Hmax Hf Htime Hout;
    cbn [pulls length app] in *; (destruct fuel as [|fuel]; [lia|]).
  - destruct (Hp fuel row w) as (s' & w' & E & _); [lia|].
    destruct (select_turn fuel i s row results w w' s' r E Hmax) as [-> _].
    rewrite Nat.add_0_r in Hout. rewrite Hout. eauto.
  - destruct (Hp fuel row w) as (s' & w' & E & Hs); [lia|].
    destruct (select_turn fuel i s row results w w' s' x E Hmax) as [-> Hset].
    assert (on_time (w_ctx w) (clock i)) as ->.
    { rewrite <- (Nat.add_0_r i). apply Htime. lia. }
    destruct (IH s' fuel (S i) x (results ++ [x]) (mkWorld (w_ctx w') (w_catalog w') (clock i))) as (s'' & w'' & E'); [exact Hs| | | | |].
    + cbn. by rewrite (max_rows_settings _ _ Hset).
    + lia.
    + intros k Hk. cbn. eapply on_time_settings; [symmetry; exact Hset|].
      rewrite <- Nat.add_succ_r. apply Htime. lia.
    + cbn. rewrite (timeout_settings _ _ _ Hset).
      by rewrite <- Nat.add_succ_r.
    + exists s'', w''. rewrite E'. by rewrite <- app_assoc.
Qed.

(** An operator that delivers empty rows, or does not return, whatever it is given. *)
Definition endless (s : C) : Prop := ∃ I : C → Prop, I s ∧
  ∀ s m row w, I s → next m s row w = None ∨
    ∃ s' w', next m s row w = Some (w', (s', StatusCode.OK, [])) ∧ I s'.

Lemma select_loop_never (s : C) fuel i row results w :
  endless s → max_rows (w_ctx w) ≤ 0 → (∀ k, on_time (w_ctx w) (clock k)) →
  select_loop fuel clock i s row results w = None.
Proof.
  intros (I & HI & Hstep). revert s i row results w HI.
  induction fuel as [|fuel IH]; intros s i row results w HI Hmax Htime; [done|].
  destruct (Hstep s fuel row w HI) as [E|(s' & w' & E & HI')].
  - cbn [select_loop]. unfold mbind, Op_bind. by rewrite E.
  - destruct (select_turn fuel i s row results w w' s' [] E Hmax) as [-> Hset].
    rewrite (Htime i). apply IH; [done|..].
    + cbn. by rewrite (max_rows_settings _ _ Hset).
    + intros k. cbn. eapply on_time_settings; [symmetry; exact Hset|]. apply Htime.
Qed.
End Loop.

(** ** Scans without an end *)

(** What a sequential scan delivers after it was opened: empty rows. *)
Definition seq_running (s : Scan.SeqScanOperator) : Prop :=
  current_page (Scan.ss_iterator s) = None ∧
  (current_page_id (Scan.ss_iterator s) = 0 ∧ current_slot (Scan.ss_iterator s) = 0 ∨
   current_page_id (Scan.ss_iterator s) = INVALID_PAGE_ID ∧ current_slot (Scan.ss_iterator s) = 1).

Lemma seq_running_next s m row w :
  seq_running s → ∃ s' w',
    Scan.seq_next (S m) s row w = Some (w', (s', StatusCode.OK, [])) ∧ seq_running s'.
Proof.
  destruct s as [tn f t [pid slot page] p]. unfold seq_running. cbn. intros [-> Hit].
  unfold Scan.evaluateFilter. rewrite andb_false_r.
  destruct Hit as [[-> ->]|[-> ->]]; cbn; do 2 eexists; (split; [reflexivity|]);
    unfold Scan.seq_count, Scan.seq_advance, Scan.iterator_next_null; cbn; auto.
Qed.

Section Endless.
Variable sort : (Row → Row → bool) → list Row → list Row.
Local Instance any_instance sh : ExecutorOperator (state ScanOperator sh) := operators sort sh.

(** Operators over a running scan: no row is ever more than empty. *)
Fixpoint running (sh : Shape) : state ScanOperator sh → Prop :=
  match sh with
  | SLeaf => λ s, match s with SeqScan s => seq_running s | IndexScan _ => False end
  | SProject c => λ s, Project.p_expressions s = [] ∧ running c (Project.p_child s)
  | _ => λ _, False
  end.

Lemma running_next sh s m row w :
  running sh s → ∃ s' w', next (S m) s row w = Some (w', (s', StatusCode.OK, [])) ∧ running sh s'.
Proof.
  revert row w. induction sh as [| |c IH|c IH|l IHl r IHr|c IH|c IH]; intros row w; cbn [running]; try done.
  - destruct s as [s|s]; [|done]. intros Hs.
    destruct (seq_running_next s m row w Hs) as (s' & w' & E & Hs').
    exists (SeqScan s'), w'. split; [|done]. cbn [next any_instance operators ScanOperator_operator].
    by op_step E.
  - destruct s as [ch ex al pr]. cbn. intros [-> Hs].
    destruct (IH ch [] w Hs) as (s' & w' & E & Hs').
    unfold Project.project_next. cbn [Project.p_child].
    op_step E. cbn beta iota. rewrite decide_True by done.
    do 2 eexists. split; [reflexivity|]. split; [done|exact Hs'].
Qed.

Lemma running_zero sh s row w : running sh s → next 0 s row w = None.
Proof.
  revert row w. induction sh as [| |c IH|c IH|l IHl r IHr|c IH|c IH]; intros row w; cbn [running]; try done.
  - by destruct s.
  - destruct s as [ch ex al pr]. cbn. intros [_ Hs].
    unfold Project.project_next. cbn [Project.p_child]. unfold mbind, Op_bind.
    pose proof (IH ch [] w Hs) as E. unfold any_instance in E. by rewrite E.
Qed.

Lemma running_endless sh s : running sh s → endless s.
Proof.
  intros Hs. exists (running sh). split; [done|]. clear s Hs. intros s m row w Hs.
  destruct m as [|m]; [left; by apply running_zero|right; by apply running_next].
Qed.

Lemma running_pulls sh s k : running sh s → pulls 1 (replicate k []) (running sh) s.
Proof.
  revert s. induction k as [|k IH]; intros s Hs; cbn; [done|]. intros m row w Hm.
  destruct m as [|m]; [lia|]. destruct (running_next sh s m row w Hs) as (s' & w' & E & Hs').
  exists s', w'. split; [done|]. by apply IH.
Qed.

(** Sorting such rows never ends. *)
Lemma load_rows_never sh s fuel row w :
  running sh s → Sort.load_rows fuel s row w = None.
Proof.
  revert s row w. induction fuel as [|fuel IH]; intros s row w Hs; [done|]. cbn [Sort.load_rows].
  destruct fuel as [|m].
  - unfold mbind, Op_bind. by rewrite (running_zero sh s row w Hs).
  - destruct (running_next sh s m row w Hs) as (s' & w' & E & Hs').
    op_step E. cbn beta iota. rewrite decide_True by done. op_now.
    unfold mbind, Op_bind. by rewrite IH.
Qed.
End Endless.

(** ** The plans of the optimizer *)

(** The catalog is not locked and has the same tables. *)
Definition kept_db w w' : Prop :=
  w_ctx w' = w_ctx w ∧ tables (w_catalog w') = tables (w_catalog w) ∧
  rw_mutex (w_catalog w') = FREE.

Lemma kept_db_trans w1 w2 w3 : kept_db w1 w2 → kept_db w2 w3 → kept_db w1 w3.
Proof. unfold kept_db. intuition congruence. Qed.

Lemma getTable_eq name c :
  rw_mutex c = FREE →
  ∃ c', getTable name c = Some (c', Some (tables c !! name)) ∧ tables c' = tables c ∧ rw_mutex c' = FREE.
Proof. intros Hf. unfold getTable, locked. rewrite Hf. cbn. by eexists. Qed.

Lemma getTable_free name w :
  rw_mutex (w_catalog w) = FREE →
  ∃ w', on_catalog (getTable name) w = Some (w', tables (w_catalog w) !! name) ∧ kept_db w w'.
Proof.
  intros Hf. destruct (getTable_eq name _ Hf) as (c & E & Ht & Hm). unfold on_catalog. rewrite E.
  eexists. split; [reflexivity|]. by split_and!.
Qed.

Lemma update_all_free names o w :
  rw_mutex (w_catalog w) = FREE → ∃ o' w', update_all names o w = Some (w', o') ∧ kept_db w w'.
Proof.
  revert o w. induction names as [|name names IH]; intros o w Hf; cbn [update_all].
  - exists o, w. done.
  - destruct (getTable_free name w Hf) as (w1 & E & Hk). unfold updateStatistics.
    erewrite Op_bind_eq; [|op_step E; reflexivity].
    match goal with |- context [update_all names ?x w1] =>
      destruct (IH x w1 (proj2 (proj2 Hk))) as (o' & w2 & E' & Hk') end.
    exists o', w2. split; [exact E'|]. by eapply kept_db_trans.
Qed.

Lemma optimizer_free w :
  rw_mutex (w_catalog w) = FREE → ∃ o w', QueryOptimizer_new w = Some (w', o) ∧ kept_db w w'.
Proof.
  intros Hf. unfold QueryOptimizer_new, on_catalog, getAllTables, locked.
  unfold mbind at 1, Op_bind at 1. rewrite Hf. cbn.
  edestruct update_all_free as (o & w' & E & Hk); [|exists o, w'; split; [exact E|]].
  - reflexivity.
  - eapply kept_db_trans; [|exact Hk]. by split_and!.
Qed.

Section Plans.
Variable estimateDistinctValues : TableStatistics → string → Z.
Variable log : double → double.
Implicit Types (o : QueryOptimizer) (n : PlanNode).

Definition over (t : OperatorType) (n : PlanNode) : PlanNode := set_left (Some n) (PlanNode_new t).
Definition join_nodes (k : nat) (n : PlanNode) : PlanNode := Nat.iter k (over OperatorType.JOIN) n.

Lemma add_joins n joins :
  foldl add_join (over OperatorType.PROJECT n) joins =
  over OperatorType.PROJECT (join_nodes (length joins) n).
Proof.
  revert n. induction joins as [|j joins IH]; intros n; [done|]. cbn [foldl length].
  change (add_join (over OperatorType.PROJECT n) j)
    with (over OperatorType.PROJECT (over OperatorType.JOIN n)).
  rewrite IH. unfold join_nodes. by rewrite <- Nat.iter_succ_r.
Qed.

(** Nodes with an estimate, and their operators after the conversion. *)
Definition compiles o n (op : AnyOperator ScanOperator) : Prop :=
  is_Some (estimateCost estimateDistinctValues log o n) ∧
  ∃ n', convert_node estimateDistinctValues log o n = Some n' ∧ buildPlan n' = Some op.

Lemma compiles_seq o table f :
  compiles o (scan_node OperatorType.SEQ_SCAN table "" f)
    (mkAny SLeaf (SeqScan (Scan.SeqScan_new table f))).
Proof. split; [by eexists|]. eexists. split; reflexivity. Qed.

Lemma compiles_project o n op :
  compiles o n op →
  compiles o (over OperatorType.PROJECT n)
    (mkAny (SProject (any_shape op)) (Project.Project_new (any_state op) [] [])).
Proof.
  intros [[c Hc] (n' & Hn & Hb)]. split.
  - cbn. rewrite Hc. by eexists.
  - eexists. split; cbn; [by rewrite Hn|]. cbn. by rewrite Hb.
Qed.

(** The right side of a join is missing: zero rows are estimated for it. *)
Definition join_null (op : AnyOperator ScanOperator) : AnyOperator ScanOperator :=
  mkAny (SJoin (any_shape op) SNull)
    (Join.Join_new (L := state ScanOperator _) (R := state ScanOperator SNull) (any_state op) ()
       None JoinType.INNER Join.NESTED_LOOP).

Lemma compiles_join o n op : compiles o n op → compiles o (over OperatorType.JOIN n) (join_null op).
Proof.
  intros [[c Hc] (n' & Hn & Hb)]. split.
  - cbn. rewrite Hc. by eexists.
  - eexists. split.
    + cbn. rewrite Hc. cbn. rewrite Hn. cbn. reflexivity.
    + cbn. unfold choose_join. cbn. rewrite orb_true_r. cbn. by rewrite Hb.
Qed.

Definition join_op (k : nat) (op : AnyOperator ScanOperator) : AnyOperator ScanOperator :=
  Nat.iter k join_null op.

Lemma compiles_joins o k n op : compiles o n op → compiles o (join_nodes k n) (join_op k op).
Proof. intros Hn. induction k as [|k IH]; [done|]. cbn. by apply compiles_join. Qed.

Definition sort_op (order_by : option (list (OrderItem ASTNode))) (op : AnyOperator ScanOperator)
  : AnyOperator ScanOperator :=
  match order_by with
  | None => op
  | Some items =>
      mkAny (SSort (any_shape op)) (Sort.Sort_new (any_state op)
        ((λ kv : string * bool, Sort.mkSortKey None kv.2) <$>
           ((λ item, (EmptyString, ascending item)) <$> items)))
  end.

Lemma compiles_sort o order_by n op :
  compiles o n op → compiles o (add_sort order_by n) (sort_op order_by op).
Proof.
  intros Hn. destruct order_by as [items|]; [|done].
  destruct Hn as [[c Hc] (n' & Hn & Hb)]. split.
  - cbn. rewrite Hc. by eexists.
  - eexists. split; cbn; [by rewrite Hn|]. cbn. by rewrite Hb.
Qed.

(** The limit that takes effect. *)
Definition effective (l : option LimitNode) : option Z :=
  match l with Some l => if 0 <? limit l then Some (limit l) else None | None => None end.

Definition limit_op (l : option Z) (op : AnyOperator ScanOperator) : AnyOperator ScanOperator :=
  match l with
  | None => op
  | Some k => mkAny (SLimit (any_shape op)) (Limit.Limit_new (any_state op) k 0)
  end.

Lemma compiles_limit o l n op :
  compiles o n op → compiles o (add_limit l n) (limit_op (effective l) op).
Proof.
  intros Hn. destruct l as [l|]; [|done]. cbn [add_limit effective].
  destruct (0 <? limit l); [|done].
  destruct Hn as [[c Hc] (n' & Hn & Hb)]. split.
  - cbn. rewrite Hc. by eexists.
  - eexists. split; cbn; [by rewrite Hn|]. cbn. by rewrite Hb.
Qed.

Lemma apply_rules_none o q plan : apply_rules o q plan = plan.
Proof.
  unfold apply_rules. induction (rules o) as [|r rs IH]; [done|]. cbn. by destruct r.2.
Qed.

(** No index serves the condition. *)
Definition no_index (name : string) (where_ : option ASTNode) w : Prop :=
  where_ = None ∨ ∀ s, tables (w_catalog w) !! name = Some s → indexes s = ∅.

Lemma source_seq o name where_ w :
  no_index name where_ w → rw_mutex (w_catalog w) = FREE →
  ∃ w', source_node estimateDistinctValues o name where_ w =
    Some (w', scan_node OperatorType.SEQ_SCAN name "" where_) ∧ kept_db w w'.
Proof.
  intros Hno Hf. destruct where_ as [c|]; cbn [source_node].
  - destruct Hno as [|Hno]; [done|]. destruct (getTable_free name w Hf) as (w' & E & Hk).
    exists w'. split; [|done]. unfold findUsableIndexes.
    erewrite Op_bind_eq; [|op_step E; reflexivity].
    destruct (tables (w_catalog w) !! name) as [s|] eqn:Ht; [|done].
    rewrite (Hno s eq_refl). rewrite map_to_list_empty. done.
  - exists w. done.
Qed.

(** The operators of a query over one table. *)
Definition query_op (name : string) (where_ : option ASTNode) (joins : nat)
    (order_by : option (list (OrderItem ASTNode))) (l : option LimitNode)
  : AnyOperator ScanOperator :=
  let source := join_op joins (mkAny SLeaf (SeqScan (Scan.SeqScan_new name where_))) in
  limit_op (effective l)
    (sort_op order_by
       (mkAny (SProject (any_shape source)) (Project.Project_new (any_state source) [] []))).

Lemma optimize_plan o w d sl sa tr trs joins where_ g h order_by l so sn :
  no_index (table_name tr) where_ w → rw_mutex (w_catalog w) = FREE →
  mode (w_ctx w) = ExecutionMode.NORMAL →
  ∃ plan w', optimize estimateDistinctValues log o
      (mkSelectNode d sl sa (tr :: trs) joins where_ g h order_by l so sn) w = Some (w', plan) ∧
    kept_db w w' ∧
    build_ptr (plan_root plan) = Some (query_op (table_name tr) where_ (length joins) order_by l).
Proof.
  intros Hno Hf Hmode. destruct (source_seq o _ _ w Hno Hf) as (w' & E & Hk).
  pose proof (compiles_limit o l _ _ (compiles_sort o order_by _ _
    (compiles_project o _ _ (compiles_joins o (length joins) _ _
       (compiles_seq o (table_name tr) where_))))) as [[c Hc] (n' & Hn & Hb)].
  unfold optimize. op_now. rewrite Hmode. cbn [decide]. rewrite decide_False by done.
  unfold logicalOptimization. erewrite Op_bind_eq.
  2:{ erewrite Op_bind_eq; [|op_step E; reflexivity].
      change (set_left (Some (scan_node OperatorType.SEQ_SCAN (table_name tr) "" where_))
        (PlanNode_new OperatorType.PROJECT))
        with (over OperatorType.PROJECT (scan_node OperatorType.SEQ_SCAN (table_name tr) "" where_)).
      rewrite add_joins. unfold cost_of, estimateCost_ptr. rewrite Hc. op_now. reflexivity. }
  assert (∀ p, (if level_code OptimizationLevel.O1 <=? level_code (optimization_level (w_ctx w))
    then apply_rules o (mkSelectNode d sl sa (tr :: trs) joins where_ g h order_by l so sn) p
    else p) = p) as Hrules.
  { intros p. destruct (_ <=? _); [apply apply_rules_none|done]. }
  rewrite Hrules. erewrite Op_bind_eq.
  2:{ unfold physicalOptimization. cbn [plan_root]. rewrite Hn. reflexivity. }
  unfold costBasedOptimization. cbn [cheapest generateAlternatives].
  do 2 eexists. split; [|split; [exact Hk|]].
  - by case (level_code OptimizationLevel.O2 <=? level_code (optimization_level (w_ctx w))).
  - exact Hb.
Qed.
End Plans.

(** ** SELECT *)

Section Select.
Variable sort : (Row → Row → bool) → list Row → list Row.
Variable estimateDistinctValues : TableStatistics → string → Z.
Variable log : double → double.
Local Instance select_instance sh : ExecutorOperator (state ScanOperator sh) := operators sort sh.
Local Instance select_any : ExecutorOperator (AnyOperator ScanOperator) := AnyOperator_operator sort.

#[local] Instance any_frame : OperatorFrame (AnyOperator ScanOperator).
Proof.
  split; intros; cbn [open next close rewind select_any AnyOperator_operator];
    pose proof (tree_frame sort (L := ScanOperator) (any_shape s)); keeps.
Qed.

Lemma any_pulls n rows sh (Q : state ScanOperator sh → Prop) (Q' : AnyOperator ScanOperator → Prop)
    (s : state ScanOperator sh) :
  (∀ s, Q s → Q' (mkAny sh s)) → pulls n rows Q s → pulls n rows Q' (mkAny sh s).
Proof.
  intros HQ. revert s. induction rows as [|r rows IH]; intros s; cbn [pulls]; [apply HQ|].
  intros Hp m row w Hm. destruct (Hp m row w Hm) as (s' & w' & E & Hs).
  exists (mkAny sh s'), w'. split; [|by apply IH].
  cbn [next select_any AnyOperator_operator any_shape any_state]. by op_step E.
Qed.

Lemma any_ends n st sh (s : state ScanOperator sh) : ends n st s → ends n st (mkAny sh s).
Proof.
  intros (I & HI & Hstep). exists (λ a, ∃ s, a = mkAny sh s ∧ I s). split; [eauto|].
  intros a m row w (x & -> & Hx) Hm. destruct (Hstep x m row w Hx Hm) as (x' & w' & E & Hx').
  exists (mkAny sh x'), w'. split; [|eauto].
  cbn [next select_any AnyOperator_operator any_shape any_state]. by op_step E.
Qed.

Lemma any_yields n rows st sh (s : state ScanOperator sh) :
  yields n rows st s → yields n rows st (mkAny sh s).
Proof. intros [Hst Hp]. split; [done|]. eapply any_pulls; [|exact Hp]. intros x. apply any_ends. Qed.

Lemma any_endless sh (s : state ScanOperator sh) : endless s → endless (mkAny sh s).
Proof.
  intros (I & HI & Hstep). exists (λ a, ∃ s, a = mkAny sh s ∧ I s). split; [eauto|].
  intros a m row w (x & -> & Hx).
  cbn [next select_any AnyOperator_operator any_shape any_state].
  destruct (Hstep x m row w Hx) as [E|(x' & w' & E & Hx')].
  - left. unfold mbind, Op_bind. unfold select_instance in E. by rewrite E.
  - right. op_step E. eauto 6.
Qed.

Definition project_scan (name : string) (where_ : option ASTNode)
  : state ScanOperator (SProject SLeaf) :=
  Project.Project_new (C := state ScanOperator SLeaf) (SeqScan (Scan.SeqScan_new name where_)) [] [].

(** Opening the scan of a table that exists, and of one that does not. *)
Lemma scan_opens name where_ s m w :
  rw_mutex (w_catalog w) = FREE → tables (w_catalog w) !! name = Some s →
  ∃ x w', open m (project_scan name where_) w = Some (w', (x, StatusCode.OK)) ∧
    running (SProject SLeaf) x ∧ kept_db w w'.
Proof.
  intros Hf Ht. destruct (getTable_free name w Hf) as (w' & E & Hk). rewrite Ht in E.
  cbn [open select_instance operators Project.Project_operator]. unfold Project.project_open.
  erewrite Op_bind_eq.
  2:{ cbn [open ScanOperator_operator project_scan Project.Project_new Project.p_child Scan.SeqScan_operator].
      erewrite Op_bind_eq; [reflexivity|].
      unfold Scan.seq_open. cbn [Scan.ss_table_name Scan.SeqScan_new]. op_step E. cbn beta iota. op_now. reflexivity. }
  cbn [fst snd]. rewrite decide_True by done. op_now. do 2 eexists. split; [reflexivity|].
  split; [|done]. split; [done|]. split; [done|]. left. done.
Qed.

Lemma leaf_missing name where_ m w :
  rw_mutex (w_catalog w) = FREE → tables (w_catalog w) !! name = None →
  ∃ x w', @open (state ScanOperator SLeaf) _ m (SeqScan (Scan.SeqScan_new name where_)) w =
    Some (w', (x, StatusCode.NOT_FOUND)) ∧ kept_db w w'.
Proof.
  intros Hf Ht. destruct (getTable_free name w Hf) as (w' & E & Hk). rewrite Ht in E.
  eexists _, w'. split; [|done].
  cbn [open select_instance operators ScanOperator_operator Scan.SeqScan_operator].
  erewrite Op_bind_eq;
    [|unfold Scan.seq_open; cbn [Scan.ss_table_name Scan.SeqScan_new]; op_step E; reflexivity].
  reflexivity.
Qed.

(** A failure to open the source is that of the whole plan. *)
Definition fails (op : AnyOperator ScanOperator) (P : World → Prop) : Prop :=
  ∀ m w, P w → ∃ x w', open m op w = Some (w', (x, StatusCode.NOT_FOUND)).

Lemma fails_any sh (s : state ScanOperator sh) m w x w' st :
  open m (mkAny sh s) w = Some (w', (x, st)) →
  ∃ y, @open (state ScanOperator sh) _ m s w = Some (w', (y, st)).
Proof.
  cbn [open select_any AnyOperator_operator any_shape any_state]. unfold mbind, Op_bind.
  destruct (open m s w) as [[w1 [y st1]]|]; [|done]. intros [= -> <- ->]. eauto.
Qed.

Lemma fails_join op P : fails op P → fails (join_null op) P.
Proof.
  intros Hf m w HP. destruct (Hf m w HP) as (x & w' & E). destruct op as [sh s].
  apply fails_any in E as [y E]. unfold join_null. cbn [any_shape any_state].
  cbn [open select_any AnyOperator_operator any_shape any_state].
  eexists _, w'. erewrite Op_bind_eq; cycle 1.
  { cbn [operators open Join.Join_operator]. unfold Join.join_open.
    erewrite Op_bind_eq; [|exact E]. cbn [fst snd]. rewrite decide_False by done. reflexivity. }
  reflexivity.
Qed.

Lemma fails_joins k op P : fails op P → fails (join_op k op) P.
Proof. intros Hf. induction k as [|k IH]; [done|]. by apply (fails_join (join_op k op)). Qed.

Lemma fails_project op P :
  fails op P →
  fails (mkAny (SProject (any_shape op)) (Project.Project_new (any_state op) [] [])) P.
Proof.
  intros Hf m w HP. destruct (Hf m w HP) as (x & w' & E). destruct op as [sh s].
  apply fails_any in E as [y E]. cbn [any_shape any_state].
  cbn [open select_any AnyOperator_operator any_shape any_state].
  eexists _, w'. erewrite Op_bind_eq; cycle 1.
  { cbn [operators open Project.Project_operator]. unfold Project.project_open.
    erewrite Op_bind_eq; [|exact E]. cbn [fst snd]. rewrite decide_False by done. reflexivity. }
  reflexivity.
Qed.

Lemma fails_sort order_by op P : fails op P → fails (sort_op order_by op) P.
Proof.
  intros Hf. destruct order_by as [items|]; [|done].
  intros m w HP. destruct (Hf m w HP) as (x & w' & E). destruct op as [sh s].
  apply fails_any in E as [y E]. cbn [sort_op any_shape any_state].
  cbn [open select_any AnyOperator_operator any_shape any_state].
  eexists _, w'. erewrite Op_bind_eq; cycle 1.
  { cbn [operators open Sort.Sort_operator]. unfold Sort.sort_open.
    erewrite Op_bind_eq; [|exact E]. cbn [fst snd]. rewrite decide_False by done. reflexivity. }
  reflexivity.
Qed.

Lemma fails_limit l op P : fails op P → fails (limit_op l op) P.
Proof.
  intros Hf. destruct l as [k|]; [|done].
  intros m w HP. destruct (Hf m w HP) as (x & w' & E). destruct op as [sh s].
  apply fails_any in E as [y E]. cbn [limit_op any_shape any_state].
  cbn [open select_any AnyOperator_operator any_shape any_state].
  eexists _, w'. erewrite Op_bind_eq; cycle 1.
  { cbn [operators open Limit.Limit_operator]. unfold Limit.limit_open.
    erewrite Op_bind_eq; [|exact E]. cbn [fst snd]. rewrite decide_False by done. reflexivity. }
  reflexivity.
Qed.

Lemma query_missing name where_ joins order_by l :
  fails (query_op name where_ joins order_by l)
    (λ w, rw_mutex (w_catalog w) = FREE ∧ tables (w_catalog w) !! name = None).
Proof.
  apply fails_limit, fails_sort, (fails_project (join_op joins _)), fails_joins.
  intros m w [Hf Ht]. destruct (leaf_missing name where_ m w Hf Ht) as (x & w' & E & _).
  eexists _, w'. cbn [open select_any AnyOperator_operator any_shape any_state]. by op_step E.
Qed.

(** A query over one table, whose condition no index serves. *)
Record one_table (q : SelectNode) (name : string) (where_ : option ASTNode) (joins : nat)
    (order_by : option (list (OrderItem ASTNode))) (l : option LimitNode) w : Prop := mk_one_table {
  ot_query : ∃ d sl sa tr trs js g h so sn,
    q = mkSelectNode d sl sa (tr :: trs) js where_ g h order_by l so sn ∧
    table_name tr = name ∧ length js = joins;
  ot_index : no_index name where_ w;
  ot_free : rw_mutex (w_catalog w) = FREE;
  ot_mode : mode (w_ctx w) = ExecutionMode.NORMAL
}.

(** The execution after the plan is made. *)
Definition run_root (fuel : nat) (clock : nat → Z) (root : AnyOperator ScanOperator)
    (results : list Row) : Op (list Row * StatusCode) :=
  o ← open fuel root;
  if decide (o.2 = StatusCode.OK) then
    r ← select_loop fuel clock 0 o.1 [] results;
    _ ← close r.1;
    mret (r.2, StatusCode.OK)
  else mret (results, o.2).

Lemma query_op_root name where_ joins order_by l :
  is_null (query_op name where_ joins order_by l) = false.
Proof. unfold query_op, limit_op, sort_op. by destruct (effective l), order_by. Qed.

Lemma executeSelect_run q name where_ joins order_by l w :
  one_table q name where_ joins order_by l w →
  ∃ w', kept_db w w' ∧ ∀ fuel clock results,
    executeSelect sort estimateDistinctValues log fuel clock q results w =
    run_root fuel clock (query_op name where_ joins order_by l) results w'.
Proof.
  intros [(d & sl & sa & tr & trs & js & g & h & so & sn & -> & Hname & Hjs) Hno Hf Hmode].
  destruct (optimizer_free w Hf) as (o & w1 & E1 & Hk1).
  destruct Hk1 as (Hc1 & Ht1 & Hf1).
  destruct (optimize_plan estimateDistinctValues log o w1 d sl sa tr trs js where_ g h order_by l
    so sn) as (plan & w2 & E2 & Hk2 & Hb).
  { rewrite Hname. unfold no_index. by rewrite Ht1. }
  { done. }
  { by rewrite Hc1. }
  exists w2. split; [eapply kept_db_trans; [|exact Hk2]; by split_and!|].
  intros fuel clock results. unfold executeSelect. op_step E1. op_step E2.
  unfold get_ctx. op_now. destruct Hk2 as (Hc2 & _ & _). rewrite Hc2, Hc1, Hmode.
  rewrite decide_False by done. rewrite (decide_False (P := _ = ExecutionMode.EXPLAIN_ANALYZE)) by done.
  op_now. rewrite Hb. unfold lift_option. op_now. rewrite Hname, Hjs, query_op_root.
  unfold run_root. unfold mbind, Op_bind. destruct (open _ _ _) as [[w3 [op st]]|]; [|done].
  cbn [fst snd]. case_decide; [|done].
  destruct (select_loop _ _ _ _ _ _ _) as [[w4 r]|]; [|done].
  by destruct (close _ _) as [[]|].
Qed.
(** Closing a tree returns. *)
Lemma tree_closes sh (s : state ScanOperator sh) w :
  no_null sh → ∃ s' w', close s w = Some (w', s').
Proof.
  revert w. induction sh as [| |c IH|c IH|a IHa b IHb|c IH|c IH]; intros w Hn; cbn [no_null] in Hn;
    [done|destruct s as [s|s]|destruct s as [ch ? ?]|destruct s as [ch ? ? ?]|destruct s as [ca cb]
    |destruct s|destruct s as [ch ? ? ? ?]].
  1,2: eexists _, w; reflexivity.
  3: { destruct Hn as [Ha Hb]. destruct (IHa ca w Ha) as (a' & w1 & E1).
       destruct (IHb cb w1 Hb) as (b' & w2 & E2).
       eexists _, w2. cbn [close select_instance operators Join.Join_operator].
       unfold Join.join_close. cbn [Join.j_left Join.j_right]. op_step E1. op_step E2. reflexivity. }
  3: { eexists _, w. reflexivity. }
  all: destruct (IH ch w Hn) as (c' & w1 & E); eexists _, w1;
    cbn [close select_instance operators Filter.Filter_operator Project.Project_operator
         Limit.Limit_operator];
    unfold Filter.filter_close, Project.project_close, Limit.limit_close;
    cbn [Filter.f_child Project.p_child Limit.l_child]; op_step E; reflexivity.
Qed.

(** ** Plans that cannot be opened *)

Definition unopened (op : AnyOperator ScanOperator) (P : World → Prop) : Prop :=
  ∀ m w, P w → open m op w = None.

Lemma unopened_any sh (s : state ScanOperator sh) m w :
  open m (mkAny sh s) w = None → @open (state ScanOperator sh) _ m s w = None.
Proof.
  cbn [open select_any AnyOperator_operator any_shape any_state]. unfold mbind, Op_bind.
  change (operators sort sh) with (select_instance sh).
  by destruct (open m s w) as [[w1 [y st1]]|].
Qed.

(** The right operand of a join is the null pointer. *)
Lemma unopened_join op (P : World → Prop) :
  (∀ m w, P w → open m op w = None ∨ ∃ x w', open m op w = Some (w', (x, StatusCode.OK))) →
  unopened (join_null op) P.
Proof.
  intros Hop m w HP. destruct op as [sh s]. unfold join_null. cbn [any_shape any_state].
  cbn [open select_any AnyOperator_operator any_shape any_state].
  cbn [operators open Join.Join_operator]. unfold Join.join_open. cbn [Join.j_left Join.Join_new].
  destruct (Hop m w HP) as [E|(x & w' & E)].
  - apply unopened_any in E. unfold select_instance in E. unfold mbind, Op_bind. by rewrite E.
  - apply fails_any in E as [y E]. unfold select_instance in E. unfold mbind, Op_bind. by rewrite E.
Qed.

Lemma unopened_joins k op (P : World → Prop) :
  (∀ m w, P w → open m op w = None ∨ ∃ x w', open m op w = Some (w', (x, StatusCode.OK))) →
  unopened (join_op (S k) op) P.
Proof.
  intros Hop. induction k as [|k IH]; [by apply unopened_join|].
  apply (unopened_join (join_op (S k) op)). intros m w HP. left. by apply IH.
Qed.

Lemma unopened_project op P :
  unopened op P →
  unopened (mkAny (SProject (any_shape op)) (Project.Project_new (any_state op) [] [])) P.
Proof.
  intros Hop m w HP. destruct op as [sh s]. cbn [any_shape any_state].
  cbn [open select_any AnyOperator_operator any_shape any_state].
  cbn [operators open Project.Project_operator]. unfold Project.project_open, mbind, Op_bind.
  cbn [Project.p_child Project.Project_new].
  pose proof (unopened_any _ _ _ _ (Hop m w HP)) as E. unfold select_instance in E. by rewrite E.
Qed.

Lemma unopened_sort items op (P : World → Prop) :
  (∀ m w, P w → open m op w = None ∨
     ∃ x w', @open _ (operators sort (any_shape op)) m (any_state op) w =
       Some (w', (x, StatusCode.OK)) ∧ running (any_shape op) x) →
  unopened (sort_op (Some items) op) P.
Proof.
  intros Hop m w HP. destruct op as [sh s]. cbn [sort_op any_shape any_state] in *.
  cbn [open select_any AnyOperator_operator any_shape any_state].
  cbn [operators open Sort.Sort_operator]. unfold Sort.sort_open. cbn [Sort.so_child Sort.Sort_new].
  destruct (Hop m w HP) as [E|(x & w' & E & Hx)].
  - apply unopened_any in E. unfold select_instance in E. unfold mbind, Op_bind. by rewrite E.
  - apply Op_bind_none. erewrite Op_bind_eq; [|exact E]. cbn [fst snd].
    rewrite decide_True by done. op_now. apply Op_bind_none.
    exact (load_rows_never sort sh x m [] w' Hx).
Qed.

Lemma unopened_limit l op P : unopened op P → unopened (limit_op l op) P.
Proof.
  intros Hop. destruct l as [k|]; [|done]. intros m w HP. destruct op as [sh s].
  cbn [limit_op any_shape any_state].
  cbn [open select_any AnyOperator_operator any_shape any_state].
  cbn [operators open Limit.Limit_operator]. unfold Limit.limit_open, mbind, Op_bind.
  cbn [Limit.l_child Limit.Limit_new].
  pose proof (unopened_any _ _ _ _ (Hop m w HP)) as E. unfold select_instance in E. by rewrite E.
Qed.

(** ** The outcomes of a query over one table *)

Definition known (name : string) w : Prop :=
  rw_mutex (w_catalog w) = FREE ∧ is_Some (tables (w_catalog w) !! name).

Lemma query_scan name where_ :
  query_op name where_ 0 None None = mkAny (SProject SLeaf) (project_scan name where_).
Proof. done. Qed.

Lemma known_opens name where_ m w :
  known name w → ∃ x w', open m (project_scan name where_) w = Some (w', (x, StatusCode.OK)) ∧
    running (SProject SLeaf) x.
Proof.
  intros [Hf [s Hs]]. destruct (scan_opens name where_ s m w Hf Hs) as (x & w' & E & Hx & _). eauto.
Qed.

(** With a join or an order the plan is not opened. *)
Lemma query_unopened name where_ joins order_by l :
  joins ≠ 0%nat ∨ order_by ≠ None →
  unopened (query_op name where_ joins order_by l) (known name).
Proof.
  intros Hq. apply unopened_limit. destruct joins as [|k].
  - destruct order_by as [items|]; [|naive_solver]. apply unopened_sort. intros m w Hw. right.
    destruct (known_opens name where_ m w Hw) as (x & w' & E & Hx). exists x, w'. split; [exact E|done].
  - assert (unopened (join_op (S k) (mkAny SLeaf (SeqScan (Scan.SeqScan_new name where_))))
      (known name)) as Hj.
    { apply unopened_joins. intros m w [Hf [s Hs]]. right.
      destruct (getTable_free name w Hf) as (w' & E & Hk). rewrite Hs in E.
      eexists _, w'. cbn [open select_any AnyOperator_operator any_shape any_state].
      erewrite Op_bind_eq; cycle 1.
      { cbn [operators open ScanOperator_operator Scan.SeqScan_operator].
        erewrite Op_bind_eq; cycle 1.
        { unfold Scan.seq_open. cbn [Scan.ss_table_name Scan.SeqScan_new]. op_step E. reflexivity. }
        reflexivity. }
      reflexivity. }
    pose proof (unopened_project _ _ Hj) as Hp.
    destruct order_by as [items|]; [|exact Hp]. apply unopened_sort. intros m w Hw. left.
    by apply Hp.
Qed.

Lemma run_unopened op fuel clock results w :
  open fuel op w = None → run_root fuel clock op results w = None.
Proof. apply Op_bind_none. Qed.

(** The end of a run whose loop has returned. *)
Lemma run_opened sh (s x : state ScanOperator sh) y fuel clock results rows w w1 w2 :
  no_null sh → open fuel s w = Some (w1, (x, StatusCode.OK)) →
  select_loop fuel clock 0 (mkAny sh x) [] results w1 = Some (w2, (mkAny sh y, rows)) →
  ∃ w3, run_root fuel clock (mkAny sh s) results w = Some (w3, (rows, StatusCode.OK)).
Proof.
  intros Hn E1 E2. destruct (tree_closes sh y w2 Hn) as (z & w3 & E3). exists w3.
  unfold run_root. erewrite Op_bind_eq; cycle 1.
  { cbn [open select_any AnyOperator_operator any_shape any_state]. erewrite Op_bind_eq by exact E1.
    reflexivity. }
  cbn [fst snd]. rewrite decide_True by done. op_step E2. erewrite Op_bind_eq; cycle 1.
  { cbn [fst close select_any AnyOperator_operator any_shape any_state].
    erewrite Op_bind_eq by exact E3. reflexivity. }
  done.
Qed.

(** The loop does not change the shape of the root. *)
Lemma loop_shape sh (x : state ScanOperator sh) fuel clock i row results w w' op rows :
  select_loop fuel clock i (mkAny sh x) row results w = Some (w', (op, rows)) →
  ∃ y, op = mkAny sh y.
Proof.
  revert x i row results w. induction fuel as [|fuel IH]; intros x i row results w; [done|].
  cbn [select_loop]. cbn [next select_any AnyOperator_operator any_shape any_state].
  unfold mbind, Op_bind. destruct (@next _ (operators sort sh) fuel x row w) as [[w1 [[x' st] r]]|]; [|done].
  cbn. case_decide; [|intros [= _ <- _]; eauto].
  destruct (_ && _); [intros [= _ <- _]; eauto|]. destruct (checkTimeout _ _).
  - intros [= _ <- _]; eauto.
  - apply IH.
Qed.

Lemma run_scan_limit name where_ k fuel clock results w :
  known name w → max_rows (w_ctx w) ≤ 0 → 0 < k < 2 ^ 64 →
  (∀ i, (i < Z.to_nat k)%nat → on_time (w_ctx w) (clock i)) → (Z.to_nat k + 1 < fuel)%nat →
  ∃ w', run_root fuel clock (limit_op (Some k) (mkAny (SProject SLeaf) (project_scan name where_)))
    results w = Some (w', (results ++ replicate (Z.to_nat k) [], StatusCode.OK)).
Proof.
  intros Hk Hmax Hlim Htime Hf.
  destruct (known_opens name where_ fuel w Hk) as (x & w1 & E & Hx).
  set (s := Limit.mkLimit (C := state ScanOperator (SProject SLeaf)) x k 0 0
              (prof_begin (w_now w1) Profiler_new)).
  assert (@open (state ScanOperator (SLimit (SProject SLeaf))) _ fuel
    (Limit.Limit_new (project_scan name where_) k 0) w = Some (w1, (s, StatusCode.OK))) as Eo.
  { cbn [open select_instance operators Limit.Limit_operator]. unfold Limit.limit_open.
    cbn [Limit.l_child Limit.Limit_new]. erewrite Op_bind_eq by exact E. reflexivity. }
  assert (settings (w_ctx w1) = settings (w_ctx w)) as Hset.
  { eapply (open_keeps (OperatorFrame := tree_frame sort (L := ScanOperator) _)). exact Eo. }
  assert (yields 1 (replicate (Z.to_nat k) []) StatusCode.NOT_FOUND s) as Hy.
  { pose proof (limit_pulls 1 _ _ (s : Limit.LimitOperator (state ScanOperator (SProject SLeaf)))
      ltac:(cbn; lia) ltac:(cbn; lia) (running_pulls sort _ x (Z.to_nat k) Hx)) as Hp.
    cbn [Limit.l_limit Limit.current_row s] in Hp. rewrite Z.sub_0_r in Hp.
    rewrite firstn_all2 in Hp by (rewrite length_replicate; done). split; [done|].
    eapply pulls_mono; [done| |exact Hp]. intros y [Hy1 Hy2]. rewrite length_replicate in Hy2.
    rewrite decide_True in Hy2 by done. eapply ends_mono; [|by apply limit_reached]. lia. }
  destruct (select_loop_rows clock 1 _ _ _ fuel 0 [] results w1
      (any_yields _ _ _ (SLimit (SProject SLeaf)) _ Hy))
    as (op & w2 & E2).
  { by rewrite (max_rows_settings _ _ Hset). }
  { rewrite length_replicate. lia. }
  { intros i Hi. rewrite length_replicate in Hi. eapply on_time_settings; [symmetry; exact Hset|].
    by apply Htime. }
  destruct (loop_shape _ _ _ _ _ _ _ _ _ _ _ E2) as [y ->].
  by eapply (run_opened (SLimit (SProject SLeaf))); [|exact Eo|exact E2].
Qed.

Lemma run_scan_timeout name where_ k fuel clock results w :
  known name w → max_rows (w_ctx w) ≤ 0 →
  (∀ i, (i < k)%nat → on_time (w_ctx w) (clock i)) → checkTimeout (clock k) (w_ctx w) = true →
  (k + 1 < fuel)%nat →
  ∃ w', run_root fuel clock (mkAny (SProject SLeaf) (project_scan name where_)) results w =
    Some (w', (results ++ replicate (S k) [], StatusCode.OK)).
Proof.
  intros Hk Hmax Htime Hout Hf.
  destruct (known_opens name where_ fuel w Hk) as (x & w1 & E & Hx).
  assert (settings (w_ctx w1) = settings (w_ctx w)) as Hset.
  { eapply (open_keeps (OperatorFrame := tree_frame sort (L := ScanOperator) _)). exact E. }
  pose proof (running_pulls sort _ x (S k) Hx) as Hp.
  replace (S k) with (k + 1)%nat in Hp by lia. rewrite replicate_add in Hp.
  destruct (select_loop_timeout clock 1 (replicate k []) [] (λ _, True) (mkAny (SProject SLeaf) x)
    fuel 0 [] results w1) as (op & w2 & E2).
  { eapply any_pulls; [|exact Hp]. done. }
  { by rewrite (max_rows_settings _ _ Hset). }
  { rewrite length_replicate. lia. }
  { intros i Hi. rewrite length_replicate in Hi. eapply on_time_settings; [symmetry; exact Hset|].
    by apply Htime. }
  { rewrite length_replicate. by rewrite (timeout_settings _ _ _ Hset). }
  destruct (loop_shape _ _ _ _ _ _ _ _ _ _ _ E2) as [y ->].
  replace (replicate (S k) []) with (replicate k [] ++ [[] : Row]).
  { by eapply (run_opened (SProject SLeaf)); [|exact E|exact E2]. }
  change [[] : Row] with (replicate 1 ([] : Row)). rewrite <- replicate_add. f_equal. lia.
Qed.

Lemma run_scan_never name where_ fuel clock results w :
  known name w → max_rows (w_ctx w) ≤ 0 → (∀ i, on_time (w_ctx w) (clock i)) →
  run_root fuel clock (mkAny (SProject SLeaf) (project_scan name where_)) results w = None.
Proof.
  intros Hk Hmax Htime. destruct (known_opens name where_ fuel w Hk) as (x & w1 & E & Hx).
  assert (settings (w_ctx w1) = settings (w_ctx w)) as Hset.
  { eapply (open_keeps (OperatorFrame := tree_frame sort (L := ScanOperator) _)). exact E. }
  unfold run_root. erewrite Op_bind_eq; cycle 1.
  { cbn [open select_any AnyOperator_operator any_shape any_state]. erewrite Op_bind_eq by exact E.
    reflexivity. }
  cbn [fst snd]. rewrite decide_True by done. apply Op_bind_none, select_loop_never.
  - by apply any_endless, running_endless.
  - by rewrite (max_rows_settings _ _ Hset).
  - intros i. eapply on_time_settings; [symmetry; exact Hset|]. apply Htime.
Qed.

(** (C11) The answer of SELECT on one table whose condition no index serves: an
    unknown table is reported; with a join or an ORDER BY the call never returns;
    otherwise the scan makes up empty rows, as many as the limit, or without a limit
    until the timeout, after which the status is still OK; without a timeout it
    never returns.  Neither the condition nor the table plays a part. *)
Theorem select_spec q name where_ joins order_by l clock results w :
  one_table q name where_ joins order_by l w → max_rows (w_ctx w) ≤ 0 →
  let run fuel := executeSelect sort estimateDistinctValues log fuel clock q results w in
  let answers n fuel := ∃ w', run fuel = Some (w', (results ++ replicate n [], StatusCode.OK)) in
  match tables (w_catalog w) !! name with
  | None => ∀ fuel, ∃ w', run fuel = Some (w', (results, StatusCode.NOT_FOUND))
  | Some _ =>
      match joins, order_by, effective l with
      | O, None, Some k =>
          fits_signed 32 k → (∀ i, (i < Z.to_nat k)%nat → on_time (w_ctx w) (clock i)) →
          ∀ fuel, (Z.to_nat k + 1 < fuel)%nat → answers (Z.to_nat k) fuel
      | O, None, None =>
          (∀ k, (∀ i, (i < k)%nat → on_time (w_ctx w) (clock i)) →
             checkTimeout (clock k) (w_ctx w) = true →
             ∀ fuel, (k + 1 < fuel)%nat → answers (S k) fuel) ∧
          ((∀ i, on_time (w_ctx w) (clock i)) → ∀ fuel, run fuel = None)
      | _, _, _ => ∀ fuel, run fuel = None
      end
  end.
Proof.
  intros Hq Hmax. destruct (executeSelect_run _ _ _ _ _ _ _ Hq) as (w1 & (Hc & Ht & Hf) & Hrun).
  intros run answers.
  assert (∀ fuel, run fuel = run_root fuel clock (query_op name where_ joins order_by l) results w1)
    as Hr by (intros fuel; apply Hrun).
  assert (∀ n fuel, (∃ w', run_root fuel clock (query_op name where_ joins order_by l) results w1 =
    Some (w', (results ++ replicate n [], StatusCode.OK))) → answers n fuel) as Ha.
  { intros n fuel [w' E]. exists w'. by rewrite Hr. }
  clearbody answers run. clear Hrun. rewrite <- Hc in *. rewrite <- Ht.
  destruct (tables (w_catalog w1) !! name) as [s|] eqn:Hs; cycle 1.
  { intros fuel. destruct (query_missing name where_ joins order_by l fuel w1) as (x & w2 & E); [done|].
    exists w2. rewrite Hr. unfold run_root. by op_step E. }
  assert (known name w1) as Hk by (split; [done|by eexists]).
  destruct joins as [|joins]; [|intros fuel; rewrite Hr; apply run_unopened, query_unopened; auto].
  destruct order_by as [items|].
  { intros fuel; rewrite Hr; apply run_unopened, query_unopened; auto. }
  unfold query_op in Hr, Ha. cbn [sort_op] in Hr, Ha.
  destruct (effective l) as [k|] eqn:Hl; cbn [limit_op] in Hr, Ha.
  - intros [_ Hk32] Htime fuel Hfuel. apply Ha, run_scan_limit; try done.
    split; [|lia]. destruct l as [l|]; [|done]. cbn in Hl. destruct (0 <? limit l) eqn:E; [|done].
    injection Hl as <-. by apply Z.ltb_lt.
  - split.
    + intros k Htime Hout fuel Hfuel. by apply Ha, run_scan_timeout.
    + intros Htime fuel. rewrite Hr. by apply run_scan_never.
Qed.

End Select.


(** ** Instances *)

(** Rows in memory, as a source. *)
#[local] Instance memory_operator : ExecutorOperator (list Row) :=
  mkOperator _ (λ _ s, mret (s, StatusCode.OK))
    (λ _ s row, match s with
                | [] => mret ([], StatusCode.NOT_FOUND, row)
                | r :: s' => mret (s', StatusCode.OK, r)
                end)
    (λ s, mret s) (λ s, mret s) (λ _, Profiler_new) (λ _, EmptyString) (λ _, EmptyString).

#[local] Instance memory_frame : OperatorFrame (list Row).
Proof. split; intros; cbn; keeps. Qed.
#[local] Instance memory_laws : OperatorLaws (list Row).
Proof. split; intros s w; exists s, w; done. Qed.

Lemma memory_opens (rows : list Row) : opens 0 rows StatusCode.NOT_FOUND rows.
Proof.
  intros m w _. exists rows, w. split; [done|]. split; [done|].
  induction rows as [|r rows IH]; cbn [pulls].
  - apply (ends_intro (λ s, s = [])); [|done]. intros s k row w' -> _. by exists [], w'.
  - intros k row w' _. by exists rows, w'.
Qed.

Definition row1 (z : Z) : Row := [Value_int z].

(** [Limit 2 offset 1] of the hash join of two sources. *)
Definition tree1 : state (list Row) (SLimit (SJoin SLeaf SLeaf)) :=
  Limit.Limit_new (Join.Join_new (L := list Row) (R := list Row) [row1 1; row1 2] [row1 7; row1 8]
    None JoinType.INNER Join.HASH) 2 1.

Definition world1 (c : Catalog) : World := mkWorld (ExecutorContext_new None 0) c 0.


Definition schema1 : TableSchema :=
  mkTableSchema 1 "t" [mkColumnSchema 0 "a" DataType.INTEGER 4 10 0 true false false false "" ""]
    [] ∅ ∅.
Definition catalog1 : Catalog := set_tables {["t"%string := schema1]} {[1 := "t"%string]} Catalog_new.

(** [SELECT a FROM t WHERE a = 1 LIMIT n] *)
Definition select1 (l : option LimitNode) : SelectNode :=
  mkSelectNode false [ColumnRefNode "" "a"] [""%string] [mkTableRef _ "t" "" None] []
    (Some (BinaryExprNode Operator.EQ (ColumnRefNode "" "a") (Some (LiteralNode (Value_int 1)))))
    None None None l SetOperation.NONE None.

Lemma select1_one_table l :
  one_table (select1 l) "t"
    (Some (BinaryExprNode Operator.EQ (ColumnRefNode "" "a") (Some (LiteralNode (Value_int 1)))))
    0 None l (world1 catalog1).
Proof.
  split; [by do 10 eexists|right|done..]. intros s Hs. vm_compute in Hs. by injection Hs as <-.
Qed.

Lemma select_spec_witness :
  ∃ w', executeSelect (λ _ r, r) (λ _ _, 100) (λ x, x) 10 (λ _, 0)
    (select1 (Some (mkLimitNode 2 0))) [] (world1 catalog1) = Some (w', ([[]; []], StatusCode.OK)).
Proof.
  pose proof (select_spec (λ _ r, r) (λ _ _, 100) (λ x, x) _ _ _ _ _ _ (λ _, 0) []
    (world1 catalog1) (select1_one_table (Some (mkLimitNode 2 0))) ltac:(cbn; lia)) as Hs.
  cbv zeta in Hs.
  replace (tables (w_catalog (world1 catalog1)) !! "t"%string) with (Some schema1) in Hs
    by (vm_compute; reflexivity).
  apply (Hs ltac:(unfold fits_signed; cbn; lia)); [intros i _; reflexivity|cbn; lia].
Defined.
