(* ===== verification/QueryExecutorProofs.v ===== *)
(** * QueryExecutorProofs: expressions and the transactions of statements

    [evaluateExpression] computes in mathematical integers as long as no operation
    leaves 32 bits.  A statement runs in a transaction of its own: whatever it does,
    it keeps the other transactions ([x_keeps]), so that the end of [execute] is
    determined by the status of the statement. *)

From stdpp Require Import gmap strings list.
From S2P Require Import Prelude CxxString Types Doubles Record Page PageProofs FileManager BufferPool BufferPoolProofs.
From S2P Require Import Table LockManager LogManager TransactionManager TransactionProofs AST Parser.
From S2P Require Import Catalog ExecutorContext Operators OperatorsProofs Optimizer QueryExecutor.
From S2P Require Import SelectProofs.

Open Scope Z_scope.

(** ** Expressions *)

(** The truth of a number is that of its low byte. *)
Definition truthy (z : Z) : bool := negb (wrap 8 z =? 0).

(** The value of an operation on integers; a division by zero counts as zero. *)
Definition math_op (op : Operator) (a b : Z) : Z :=
  match op with
  | Operator.PLUS => a + b
  | Operator.MINUS => a - b
  | Operator.MULTIPLY => a * b
  | Operator.DIVIDE => if decide (b = 0) then 0 else a ÷ b
  | Operator.EQ => Z.b2z (a =? b)
  | Operator.NE => Z.b2z (negb (a =? b))
  | Operator.LT => Z.b2z (a <? b)
  | Operator.LE => Z.b2z (a <=? b)
  | Operator.GT => Z.b2z (b <? a)
  | Operator.GE => Z.b2z (b <=? a)
  | Operator.AND => Z.b2z (truthy a && truthy b)
  | Operator.OR => Z.b2z (truthy a || truthy b)
  | _ => 0
  end.

(** Every column is the first one, and what is not evaluated is zero. *)
Fixpoint math (e : ASTNode) (row : Row) : Z :=
  match e with
  | LiteralNode v => int_val v
  | ColumnRefNode _ _ => match row with v :: _ => int_val v | [] => 0 end
  | BinaryExprNode op l r =>
      math_op op (math l row) (match r with Some r => math r row | None => 0 end)
  | _ => 0
  end.

(** No operation leaves 32 bits, and no list of an IN is evaluated. *)
Fixpoint in_range (e : ASTNode) (row : Row) : Prop :=
  match e with
  | ListNode => False
  | BinaryExprNode op l r =>
      in_range l row ∧ match r with Some r => in_range r row | None => True end ∧
      fits_signed 32 (math e row)
  | _ => True
  end.

Lemma int_val_bool b : int_val (Value_bool b) = Z.b2z b.
Proof. by destruct b. Qed.

Lemma bool_val_truthy v : bool_val v = truthy (int_val v).
Proof.
  unfold bool_val, truthy, int_val. f_equal. f_equal.
  assert (∀ z, wrap 8 (wrap 32 z) = wrap 8 z) as Hw.
  { intros z. unfold wrap. change (2 ^ 32) with (2 ^ 8 * 2 ^ 24).
    rewrite Z.rem_mul_r by done. rewrite Z.mul_comm, Z_mod_plus_full. by apply Z.mod_mod. }
  rewrite <- (Hw (to_signed 32 _)), wrap_to_signed by done. by rewrite Hw.
Qed.

Lemma b2z_fits b : fits_signed 32 (Z.b2z b).
Proof. destruct b; unfold fits_signed; cbn; lia. Qed.

Lemma int_result_eq z :
  match int_result z with
  | Some v => fits_signed 32 z ∧ int_val v = z
  | None => ¬ fits_signed 32 z
  end.
Proof. unfold int_result. case_decide; [split; [done|by apply int_val_int]|done]. Qed.

Lemma binary_result_eq op a b :
  match binary_result op a b with
  | Some v => fits_signed 32 (math_op op (int_val a) (int_val b)) ∧
              int_val v = math_op op (int_val a) (int_val b)
  | None => ¬ fits_signed 32 (math_op op (int_val a) (int_val b))
  end.
Proof.
  assert (fits_signed 32 0) as H0 by (unfold fits_signed; lia).
  destruct op; cbn [binary_result math_op]; rewrite ?bool_val_truthy, ?int_val_bool;
    auto using b2z_fits; try apply int_result_eq.
  case_decide; [done|apply int_result_eq].
Qed.

(** (C22) The evaluation of an expression: in the arithmetic of the integers, with
    every column read as the first one, a division by zero and every other
    construct as zero, and the truth of a number as that of its low byte; an operation
    that leaves 32 bits, or the list of an IN, is undefined, and nothing else is. *)
Theorem evaluateExpression_spec e row :
  match evaluateExpression e row with
  | Some v => in_range e row ∧ int_val v = math e row
  | None => ¬ in_range e row
  end.
Proof.
  induction e as [v| |t c|op l r IHl IHr|op e _|n args a|s] using expr_ind; cbn; auto.
  - by destruct row.
  - destruct (evaluateExpression l row) as [a|]; cbn; [|tauto]. destruct IHl as [Hl El].
    destruct r as [r|]; cbn.
    + specialize (IHr r eq_refl). destruct (evaluateExpression r row) as [b|]; cbn; [|tauto].
      destruct IHr as [Hr Er]. pose proof (binary_result_eq op a b) as Hb. rewrite El, Er in Hb.
      destruct (binary_result op a b); tauto.
    + pose proof (binary_result_eq op a Value_null) as Hb. rewrite El in Hb.
      change (int_val Value_null) with 0 in Hb. destruct (binary_result op a Value_null); tauto.
Qed.

(** ** What statements keep *)

(** Calls that keep the transaction of the context. *)
Definition keeps_tx {A} (m : Op A) : Prop :=
  ∀ w w' a, m w = Some (w', a) → transaction (w_ctx w') = transaction (w_ctx w).

Lemma keeps_keeps_tx {A} (m : Op A) : keeps m → keeps_tx m.
Proof. intros Hm w w' a E. by apply Hm, (f_equal transaction) in E. Qed.

Lemma keeps_tx_bind {A B} (m : Op A) (f : A → Op B) :
  keeps_tx m → (∀ a, keeps_tx (f a)) → keeps_tx (m ≫= f).
Proof.
  intros Hm Hf w w' b. unfold mbind, Op_bind. destruct (m w) as [[w1 a]|] eqn:E; [|done].
  intros E'. rewrite (Hf a _ _ _ E'). by apply (Hm _ _ _ E).
Qed.

Lemma keeps_get_ctx : keeps get_ctx.
Proof. intros w w' a [= <- <-]. done. Qed.
Lemma keeps_set_clock t : keeps (set_clock t).
Proof. intros w w' a [= <- <-]. done. Qed.
Lemma keeps_lift {A} (o : option A) : keeps (lift_option o).
Proof. destruct o; [|done]. intros w w' b [= <- <-]. done. Qed.
#[local] Hint Resolve keeps_get_ctx keeps_set_clock keeps_lift : keeps.

Section Select.
Variable sort : (Row → Row → bool) → list Row → list Row.
Variable estimateDistinctValues : TableStatistics → string → Z.
Variable log : double → double.

Lemma update_all_keeps names o : keeps (update_all names o).
Proof.
  revert o. induction names as [|n ns IH]; intros o; cbn [update_all]; [keeps|].
  apply op_keeps_bind; [unfold updateStatistics; keeps|intros ?; apply IH].
Qed.

Lemma cheapest_keeps o best alts : keeps (cheapest estimateDistinctValues log o best alts).
Proof.
  revert best. induction alts as [|a alts IH]; intros best; cbn [cheapest]; [keeps|].
  apply op_keeps_bind; [unfold cost_of; keeps|intros ?; apply IH].
Qed.

Lemma optimize_keeps o q : keeps (optimize estimateDistinctValues log o q).
Proof.
  assert (keeps (logicalOptimization estimateDistinctValues log o q)) as Hl.
  { destruct q. unfold logicalOptimization. apply op_keeps_bind.
    - destruct from_tables as [|tr trs]; [keeps|]. apply op_keeps_bind; [|intros ?; keeps].
      unfold source_node. destruct where_; [|keeps]. apply op_keeps_bind; [|intros ?; keeps].
      unfold findUsableIndexes. keeps.
    - intros ?. unfold cost_of. keeps. }
  unfold optimize. apply op_keeps_bind; [apply keeps_get_ctx|]. intros ctx. case_decide; [done|].
  apply op_keeps_bind; [done|]. intros plan. apply op_keeps_bind; [unfold physicalOptimization; keeps|].
  intros p. destruct (_ <=? _); [apply cheapest_keeps|keeps].
Qed.

Lemma select_loop_keeps {C} `{frame : OperatorFrame C} fuel clock i (s : C) row results :
  keeps (select_loop fuel clock i s row results).
Proof.
  revert i s row results. induction fuel as [|fuel IH]; intros i s row results; cbn [select_loop]; keeps.
Qed.

Lemma executeSelect_tx fuel clock q results :
  keeps_tx (executeSelect sort estimateDistinctValues log fuel clock q results).
Proof.
  pose proof (any_frame sort) as Hframe. unfold executeSelect.
  apply keeps_tx_bind; [apply keeps_keeps_tx; unfold QueryOptimizer_new; keeps; apply update_all_keeps|].
  intros o. apply keeps_tx_bind; [apply keeps_keeps_tx, optimize_keeps|]. intros plan.
  apply keeps_tx_bind; [apply keeps_keeps_tx, keeps_get_ctx|]. intros ctx.
  case_decide; [apply keeps_keeps_tx; keeps|]. apply keeps_tx_bind.
  { case_decide; [by intros w w' a [= <- <-]|apply keeps_keeps_tx; keeps]. }
  intros _. apply keeps_keeps_tx. apply op_keeps_bind; [keeps|]. intros root.
  destruct (is_null root); [keeps|]. apply op_keeps_bind; [apply Hframe|]. intros [op st].
  cbn [fst snd]. case_decide; [|keeps]. apply op_keeps_bind; [apply select_loop_keeps|]. intros [op' rows].
  apply op_keeps_bind; [apply Hframe|]. intros ?. keeps.
Qed.
End Select.

Section Statements.
Context {St : Type} `{PageStore St}.
Implicit Type x : Exec St.

(** In the course of a statement its transaction [id] is active; the other
    transactions are as they were. *)
Record in_statement (id : Z) (others finished : gmap Z Transaction) x : Prop := mk_in_statement {
  is_tx : transaction (w_ctx (x_world x)) = Some id;
  is_ok : tm_ok (x_tm x);
  is_active : is_Some (active (x_tm x) !! id);
  is_others : delete id (active (x_tm x)) = others;
  is_finished : completed (x_tm x) = finished
}.

Definition x_keeps {A} (m : X A) : Prop := ∀ id others finished x x' r,
  m x = Some (x', r) → in_statement id others finished x → in_statement id others finished x'.

#[local] Instance X_ret' : MRet X := λ A a x, Some (x, Some a).
#[local] Instance X_bind' : MBind X := λ A B f m x,
  match m x with
  | Some (x', Some a) => f a x'
  | Some (x', None) => Some (x', None)
  | None => None
  end.

Lemma x_keeps_ret {A} (a : A) : x_keeps (mret a : X A).
Proof. by intros id o f x x' r [= <- <-]. Qed.
Lemma x_keeps_undefined {A} : x_keeps (x_undefined : X A).
Proof. by intros id o f x x' r. Qed.
Lemma x_keeps_bind {A B} (m : X A) (f : A → X B) :
  x_keeps m → (∀ a, x_keeps (f a)) → x_keeps (m ≫= f).
Proof.
  intros Hm Hf id others fin x x' r. unfold mbind, X_bind'.
  destruct (m x) as [[x1 [a|]]|] eqn:E; [| |done].
  - intros E' Hx. eapply Hf; [exact E'|]. by eapply Hm.
  - intros [= <- <-] Hx. by eapply Hm.
Qed.
Lemma x_keeps_lift {A} (o : option A) : x_keeps (x_lift o).
Proof. intros id others fin x x' r. destruct o; cbn; [|done]. by intros [= <- <-]. Qed.
Lemma x_keeps_op {A} (m : Op A) : keeps_tx m → x_keeps (x_op m).
Proof.
  intros Hm id others fin x x' r. unfold x_op. destruct (m (x_world x)) as [[w a]|] eqn:E; [|done].
  intros [= <- <-] []. split; [|done..]. cbn. rewrite (Hm _ _ _ E). done.
Qed.
Lemma x_keeps_catalog {A} (m : Catalog.M A) : x_keeps (x_catalog m).
Proof.
  intros id others fin x x' r. unfold x_catalog. destruct (m _) as [[c a]|]; [|done].
  intros [= <- <-] []. by split.
Qed.
Lemma set_pool_ok p (m : TransactionManager St) : tm_ok m → tm_ok (set_pool p m).
Proof. by intros []. Qed.
Lemma x_keeps_pool {A} (f : BufferPool St → option (BufferPool St * A)) : x_keeps (x_pool f).
Proof.
  intros id others fin x x' r. unfold x_pool. destruct (f _) as [[p a]|]; [|done].
  intros [= <- <-] []. split; try done. by apply set_pool_ok.
Qed.
Lemma x_keeps_mark lsn rid : x_keeps (mark_page lsn rid).
Proof.
  intros id others fin x x' r Hm [Htx Hok [t Ht] Ho Hf]. unfold mark_page in Hm.
  rewrite Htx in Hm. cbn in Hm. rewrite (deref_active _ _ _ Ht) in Hm. cbn in Hm.
  injection Hm as <- <-. split; [done|..]; cbn.
  - by apply with_tx_ok.
  - rewrite (with_tx_active _ _ _ _ Ht). cbn. rewrite lookup_insert_eq. by eexists.
  - rewrite (with_tx_active _ _ _ _ Ht). cbn. by rewrite delete_insert_eq.
  - by rewrite (with_tx_active _ _ _ _ Ht).
Qed.

Create HintDb x_keeps discriminated.
#[local] Hint Resolve x_keeps_ret x_keeps_undefined x_keeps_lift x_keeps_catalog x_keeps_pool
  x_keeps_mark : x_keeps.

Ltac x_keeps := repeat first
  [ case_decide
  | match goal with
    | |- x_keeps (_ ≫= _) => apply x_keeps_bind; [|intros ?]
    | |- x_keeps (match ?y with _ => _ end) => destruct y
    | |- x_keeps (let '_ := ?y in _) => destruct y
    | |- x_keeps (if ?y then _ else _) => destruct y
    end
  | solve [auto with x_keeps] ].

Lemma x_keeps_scanned n : x_keeps (set_scanned n : X ()).
Proof. apply x_keeps_op, keeps_keeps_tx, op_keeps_stats. Qed.
Lemma x_keeps_getTable fuel name : x_keeps (qe_getTable fuel name : X (option Table)).
Proof. unfold qe_getTable. x_keeps. Qed.
Lemma x_keeps_getIndex t c : x_keeps (qe_getIndex t c : X Z).
Proof. unfold qe_getIndex. x_keeps. Qed.
#[local] Hint Resolve x_keeps_scanned x_keeps_getTable x_keeps_getIndex : x_keeps.

Lemma x_keeps_insert lsn t rows n : x_keeps (insert_rows lsn t rows n : X (StatusCode * Z)).
Proof. revert t n. induction rows as [|r rows IH]; intros t n; cbn [insert_rows]; x_keeps. Qed.

Lemma x_keeps_for {A} fuel t (body : A → Z → Row → X (A + StatusCode)) a it :
  (∀ a rid row, x_keeps (body a rid row)) → x_keeps (for_rows fuel t body a it).
Proof.
  intros Hb. revert a it. induction fuel as [|fuel IH]; intros a it; cbn [for_rows];
    (destruct (iterator_ne it table_end); [|x_keeps]); x_keeps; auto.
Qed.

Lemma x_keeps_scan {A} fuel t (body : A → Z → Row → X (A + StatusCode)) a :
  (∀ a rid row, x_keeps (body a rid row)) → x_keeps (scan_table fuel t body a).
Proof. intros Hb. unfold scan_table. apply x_keeps_bind; [x_keeps|]. intros ?. by apply x_keeps_for. Qed.

Lemma x_keeps_finish r : x_keeps (finish_scan r : X StatusCode).
Proof. unfold finish_scan. x_keeps. Qed.
#[local] Hint Resolve x_keeps_insert x_keeps_scan x_keeps_finish : x_keeps.

Variable missing_lsn : Z.
Variable fs : FileSystem.
Variable createIndex2 : string → string → Catalog.M StatusCode.
Variable IndexTree : Type.
Variable index_new : Z → BufferPool St → option (BufferPool St * IndexTree).
Variable index_insert : IndexTree → Value → Z → BufferPool St → option (BufferPool St * IndexTree).
Variable sort : (Row → Row → bool) → list Row → list Row.
Variable estimateDistinctValues : TableStatistics → string → Z.
Variable log : double → double.

Abbreviation dispatch_ := (dispatch missing_lsn fs createIndex2 IndexTree index_new index_insert sort
  estimateDistinctValues log).
Abbreviation execute_ := (execute missing_lsn fs createIndex2 IndexTree index_new index_insert sort
  estimateDistinctValues log).

Lemma dispatch_keeps fuel clock s results : x_keeps (dispatch_ fuel clock s results).
Proof.
  destruct s as [n|n|n|n|n|n|n|n|n|n]; cbn [dispatch]; try (apply x_keeps_bind; [|intros ?; x_keeps]).
  - apply x_keeps_op, executeSelect_tx.
  - unfold executeInsert. x_keeps.
  - unfold executeUpdate. apply x_keeps_bind; [x_keeps|]. intros [t|]; [|x_keeps].
    apply x_keeps_bind; [|intros ?; x_keeps]. apply x_keeps_scan. intros a rid row.
    unfold update_body. x_keeps.
  - unfold executeDelete. apply x_keeps_bind; [x_keeps|]. intros [t|]; [|x_keeps].
    apply x_keeps_bind; [|intros ?; x_keeps]. apply x_keeps_scan. intros a rid row.
    unfold delete_body. x_keeps.
  - unfold executeCreateTable. x_keeps.
  - unfold executeCreateIndex. x_keeps. apply x_keeps_scan. intros tree rid row.
    unfold index_body. x_keeps.
  - unfold executeDropTable. x_keeps.
  - unfold executeBegin. x_keeps.
  - unfold executeCommit. x_keeps.
  - unfold executeRollback. x_keeps.
Qed.
(** ** The transaction of a statement *)

(** A manager that can begin and archive one more transaction. *)
Record has_room (m : TransactionManager St) : Prop := mk_has_room {
  hr_ok : tm_ok m;
  hr_id : next_tx_id m < 2 ^ 64 - 1;
  hr_active : Z.of_nat (size (active m)) < max_transactions m;
  hr_archive : Z.of_nat (size (completed m)) < MAX_COMPLETED
}.

(** The state in which a statement starts. *)
Definition started (now : Z) (q : QueryExecutor St) x : Prop :=
  begin now IsolationLevel.REPEATABLE_READ AccessMode.READ_WRITE (qe_tm q) =
    Some (x_tm x, Some (next_tx_id (qe_tm q))) ∧
  x_world x = mkWorld (setProfilingEnabled (qe_profiling q) (setOptimizationLevel (qe_opt_level q)
    (ExecutorContext_new (Some (next_tx_id (qe_tm q))) now))) (qe_catalog q) now.

Lemma begin_started now q :
  has_room (qe_tm q) → ∃ x, started now q x ∧
    in_statement (next_tx_id (qe_tm q)) (active (qe_tm q)) (completed (qe_tm q)) x.
Proof.
  intros [Hok Hid Hact _].
  assert (∃ m1, begin now IsolationLevel.REPEATABLE_READ AccessMode.READ_WRITE (qe_tm q) =
    Some (m1, Some (next_tx_id (qe_tm q))) ∧ completed m1 = completed (qe_tm q) ∧
    ∃ t, active m1 = <[next_tx_id (qe_tm q) := t]> (active (qe_tm q)))
    as (m1 & E & Hc & t & Ha).
  { unfold begin, with_mutex. rewrite (ok_mutex _ Hok).
    cbn [max_transactions active set_mutex]. rewrite (proj2 (Z.leb_gt _ _)) by done.
    cbn [generateTransactionId]. destruct (log_append _ _ _) as [m1 lsn] eqn:Hl.
    apply log_append_txs in Hl as ((Ha1 & Hc1 & _) & _). eexists. split; [reflexivity|].
    split; [exact Hc1|]. eexists. cbn. rewrite Ha1. reflexivity. }
  exists (mkExec (mkWorld (setProfilingEnabled (qe_profiling q) (setOptimizationLevel (qe_opt_level q)
    (ExecutorContext_new (Some (next_tx_id (qe_tm q))) now))) (qe_catalog q) now) m1).
  split; [by split|]. split; cbn; [done| | | |done].
  - by eapply begin_ok.
  - rewrite Ha, lookup_insert_eq. by eexists.
  - rewrite Ha. apply delete_insert_id. destruct (active (qe_tm q) !! _) as [t'|] eqn:E'; [|done].
    destruct (ok_active _ Hok _ _ E') as (_ & _ & ?). lia.
Qed.

Lemma execute_started fuel now clock s results q x :
  started now q x →
  execute_ fuel now clock s results q =
    (r ← dispatch_ fuel clock s results x;
     match r with
     | (x', None) => Some (after q x' (x_tm x'), None)
     | (x', Some (rows, status)) =>
         f ← (if decide (status = StatusCode.OK)
              then commit now (Some (next_tx_id (qe_tm q))) (x_tm x')
              else abort now (Some (next_tx_id (qe_tm q))) (x_tm x'));
         let q := after q x' f.1 in
         Some (mkQueryExecutor (qe_catalog q) (qe_tm q) (qe_opt_level q) (qe_profiling q)
                 (stats_merge (qe_stats q) (ctx_stats (w_ctx (x_world x')))),
               Some (rows, status))
     end).
Proof.
  intros [E Hw]. unfold execute. rewrite E. cbn [mbind option_bind fst snd].
  destruct x as [wx mx]. cbn in Hw. by subst.
Qed.

(** The commit at the end of a statement. *)
Lemma commit_statement now id others finished x :
  in_statement id others finished x → Z.of_nat (size finished) < MAX_COMPLETED →
  ∃ m t, commit now (Some id) (x_tm x) = Some (m, StatusCode.OK) ∧ active m = others ∧
    completed m = <[id := t]> finished ∧ tx_state t = TransactionState.COMMITTED.
Proof.
  intros [_ Hok [t Ht] <- <-] Hsz. destruct (ok_active _ Hok id t Ht) as (Hid & _ & _).
  destruct (commit_active now id t (x_tm x) Hok Ht) as (lsn & m & He & Ha & Hc & _).
  destruct (archive_spec (setState TransactionState.COMMITTED (setLastLSN lsn t)) (x_tm x))
    as (_ & _ & _ & Hins).
  rewrite Hins in Hc by done. cbn [tx_id setState setLastLSN] in Hc. rewrite Hid in Hc.
  exists m, (setState TransactionState.COMMITTED (setLastLSN lsn t)).
  split; [rewrite He, Hc, lookup_insert_eq; done|]. done.
Qed.

Lemma abort_statement now id others finished x :
  in_statement id others finished x → abort now (Some id) (x_tm x) = None.
Proof.
  intros [_ Hok [t Ht] _ _]. eapply abort_active; [|exact Ht]. by apply tm_ok_all_active.
Qed.


(** BEGIN, COMMIT and ROLLBACK all do the same: a transaction of their own is
    begun and committed.  ROLLBACK undoes nothing, and the three return OK. *)
Theorem rollback_commits fuel now clock n results q s :
  s = BeginStmt n ∨ s = CommitStmt n ∨ s = RollbackStmt n → has_room (qe_tm q) →
  ∃ q' t, execute_ fuel now clock s results q = Some (q', Some (results, StatusCode.OK)) ∧
    active (qe_tm q') = active (qe_tm q) ∧
    completed (qe_tm q') = <[next_tx_id (qe_tm q) := t]> (completed (qe_tm q)) ∧
    tx_state t = TransactionState.COMMITTED ∧ qe_catalog q' = qe_catalog q.
Proof.
  intros Hn Hroom. destruct (begin_started now q Hroom) as (x & Hs & Hin).
  destruct (commit_statement now _ _ _ _ Hin (hr_archive _ Hroom)) as (m & t & Em & Ha & Hc & Ht).
  rewrite (execute_started _ _ _ _ _ _ _ Hs).
  assert (dispatch_ fuel clock s results x = Some (x, Some (results, StatusCode.OK))) as ->
    by (by destruct Hn as [->|[->| ->]]).
  cbn [mbind option_bind]. rewrite decide_True by done. rewrite Em. cbn.
  eexists _, t. split; [reflexivity|]. destruct Hs as [_ Hw]. by rewrite Hw.
Qed.

End Statements.

(** ** INSERT *)

Section Insert.
Context {St : Type} `{PageStore St}.
Implicit Type x : Exec St.
Variable missing_lsn : Z.

Fixpoint evaluate_rows (rows : list (list ASTNode)) : option (list Row) :=
  match rows with
  | [] => Some []
  | r :: rows' => v ← evaluate_all r []; vs ← evaluate_rows rows'; Some (v :: vs)
  end.

(** The transaction after the marks of the pages of some records. *)
Definition marked (rids : list Z) (t : Transaction) : Transaction :=
  foldl (λ t rid, addModifiedPage (rid_page rid) missing_lsn t) t rids.

Lemma table_insertRecord_status t values (p p' : BufferPool St) t' status rid :
  table_insertRecord t values p = Some (p', t', status, rid) →
  status = StatusCode.OK ∧ is_Some rid ∨ status = StatusCode.ERROR ∧ rid = None.
Proof.
  unfold table_insertRecord. destruct (table_validateRecord t values); cbn [negb]; [|naive_solver].
  destruct (insert_through _ _ _) as [[p1 [rid1|]]|]; cbn [mbind option_bind]; [| |done].
  - destruct (deref_page _ _); cbn; [|done]. intros [= <- <- <- <-]. left. split; [done|by eexists].
  - destruct (appendNewPage _ _) as [[[p2 t2] np]|]; cbn [mbind option_bind]; [|done].
    destruct (insert_through np _ _) as [[p3 [rid3|]]|]; cbn; [| |done]; intros [= <- <- <- <-].
    + left. split; [done|by eexists].
    + by right.
Qed.

Lemma insert_rows_eq rows vals t n x id tx p' t' rids :
  transaction (w_ctx (x_world x)) = Some id → active (x_tm x) !! id = Some tx →
  evaluate_rows rows = Some vals →
  table_insertRecords t vals (tm_pool (x_tm x)) = Some (p', t', rids) →
  ∃ x', insert_rows missing_lsn t rows n x =
      Some (x', Some (if decide (length rids = length rows)
                      then (StatusCode.OK, if decide (rows = []) then n else wrap 64 (n + Z.of_nat (length rids)))
                      else (StatusCode.ERROR, if decide (rids = []) then n else wrap 64 (n + Z.of_nat (length rids))))) ∧
    x_world x' = x_world x ∧ tm_pool (x_tm x') = p' ∧
    active (x_tm x') = <[id := marked rids tx]> (active (x_tm x)).
Proof.
  revert vals t n x tx rids. induction rows as [|exprs rows IH]; intros vals t n x tx rids Htx Hact Hv Hi.
  { cbn in Hv. injection Hv as <-. cbn in Hi. injection Hi as <- <- <-. exists x. cbn.
    split_and!; [done..|]. by rewrite insert_id. }
  cbn [evaluate_rows] in Hv. destruct (evaluate_all exprs []) as [v|] eqn:Ev; [|done]. cbn in Hv.
  destruct (evaluate_rows rows) as [vs|] eqn:Evs; [|done]. cbn in Hv. injection Hv as <-.
  cbn [table_insertRecords] in Hi. cbn [insert_rows]. rewrite Ev.
  unfold mbind at 1, X_bind at 1. cbn [x_lift mbind option_bind].
  unfold mbind at 1, X_bind at 1. unfold x_pool.
  destruct (table_insertRecord t v (tm_pool (x_tm x))) as [[[[p1 t1] status] rid]|] eqn:E1; [|done].
  cbn [mbind option_bind fst snd] in Hi |- *.
  destruct (table_insertRecord_status _ _ _ _ _ _ _ E1) as [[-> [r ->]]|[-> ->]]; cycle 1.
  { rewrite decide_False by done. injection Hi as <- <- <-. eexists. split; [reflexivity|].
    cbn. split_and!; [done..|]. by rewrite insert_id. }
  rewrite decide_True by done.
  destruct (table_insertRecords t1 vs p1) as [[[p2 t2] rids2]|] eqn:E2; [|done].
  cbn [mbind option_bind] in Hi. injection Hi as <- <- <-.
  unfold mbind at 1, X_bind at 1. unfold mark_page.
  cbn [x_world x_tm]. rewrite Htx. cbn [mbind option_bind]. rewrite (deref_active _ tx) by done.
  cbn [mbind option_bind default].
  set (x1 := mkExec _ _).
  assert (active (x_tm x1) = <[id := addModifiedPage (rid_page r) missing_lsn tx]> (active (x_tm x))) as Ha1.
  { unfold x1. cbn [x_tm]. by rewrite (with_tx_active id _ tx). }
  assert (tm_pool (x_tm x1) = p1) as Hp1.
  { unfold x1. cbn [x_tm]. by rewrite (with_tx_active id _ tx). }
  destruct (IH vs t1 (wrap 64 (n + 1)) x1 (addModifiedPage (rid_page r) missing_lsn tx) rids2)
    as (x' & E & Hw & Hp & Ha); [done|by rewrite Ha1, lookup_insert_eq|done|by rewrite Hp1|].
  exists x'. cbn [length]. rewrite E. split_and!; [|done|done|].
  - f_equal. f_equal. f_equal.
    destruct (decide (length rids2 = length rows)) as [Hl|Hl].
    + rewrite (decide_True (P := S (length rids2) = S (length rows))) by lia. f_equal.
      rewrite (decide_False (P := exprs :: rows = [])) by done. case_decide as Hr.
      * subst rows. cbn in Hl. rewrite Hl. f_equal.
      * rewrite wrap_add by lia. f_equal. lia.
    + rewrite (decide_False (P := S (length rids2) = S (length rows))) by lia. f_equal.
      rewrite (decide_False (P := r :: rids2 = [])) by done. case_decide as Hr.
      * subst rids2. f_equal.
      * rewrite wrap_add by lia. f_equal. lia.
  - rewrite Ha, Ha1, insert_insert_eq. done.
Qed.

(** (C23) INSERT is the insertion of the batch of its rows, evaluated without a row:
    it answers OK when every row is accepted and ERROR otherwise, in which case the
    rows before the first that is refused stay in the table; the pages of the rows
    that were inserted are those the transaction has modified. *)
Theorem insert_spec fuel n x id tx schema vals p1 t p2 t2 rids :
  transaction (w_ctx (x_world x)) = Some id → active (x_tm x) !! id = Some tx →
  rw_mutex (w_catalog (x_world x)) = FREE →
  tables (w_catalog (x_world x)) !! insert_table n = Some schema →
  Table_new fuel schema (tm_pool (x_tm x)) = Some (p1, t) →
  evaluate_rows (insert_values n) = Some vals →
  table_insertRecords t vals p1 = Some (p2, t2, rids) →
  ∃ x', executeInsert missing_lsn fuel n x =
      Some (x', Some (if decide (length rids = length (insert_values n)) then StatusCode.OK
                      else StatusCode.ERROR)) ∧
    tm_pool (x_tm x') = p2 ∧
    active (x_tm x') = <[id := marked rids tx]> (active (x_tm x)) ∧
    tables (w_catalog (x_world x')) = tables (w_catalog (x_world x)).
Proof.
  intros Htx Hact Hfree Hs Ht Hv Hi. unfold executeInsert, qe_getTable.
  unfold mbind at 1, X_bind at 1. unfold mbind at 1, X_bind at 1.
  destruct (getTable_eq (insert_table n) _ Hfree) as (c & Ec & Htabs & _).
  unfold x_catalog. rewrite Ec, Hs. cbn [mbind option_bind fst snd].
  unfold mbind at 1, X_bind at 1. unfold x_pool. cbn [x_tm]. rewrite Ht.
  cbn [mbind option_bind fst snd mret X_ret]. unfold mret at 1, X_ret at 1.
  set (x1 := mkExec _ _).
  destruct (insert_rows_eq (insert_values n) vals t 0 x1 id tx p2 t2 rids Htx Hact Hv Hi)
    as (x' & E & Hw & Hp & Ha).
  unfold mbind at 1, X_bind at 1. rewrite E.
  destruct (decide (length rids = length (insert_values n))); cbn [fst snd].
  - rewrite decide_True by done. eexists. split; [reflexivity|]. cbn.
    split_and!; [done|done|]. by rewrite Hw.
  - rewrite decide_False by done. eexists. split; [reflexivity|]. split_and!; [done|done|].
    by rewrite Hw.
Qed.

End Insert.

(** ** Witnesses *)

Section Witnesses.
#[local] Instance store0 : PageStore FileManager := FileManager_store env0.

(** No tree of values, no index of two arguments. *)
Definition no_tree : Z → BufferPool FileManager → option (BufferPool FileManager * ()) :=
  λ _ p, Some (p, ()).
Definition no_insert : () → Value → Z → BufferPool FileManager → option (BufferPool FileManager * ()) :=
  λ _ _ _ p, Some (p, ()).
Definition fs_all : FileSystem := mkFileSystem (λ _, true) (λ _, true) (λ _ _, true).

Definition execute0 := execute 0 fs_all (λ _ _, mret StatusCode.OK) () no_tree no_insert (λ _ r, r)
  (λ _ _, 100) (λ f, f).

Definition executor0 : QueryExecutor FileManager := QueryExecutor_new catalog1 tm0.

Lemma tm0_room : has_room tm0.
Proof.
  split; [|done..]. apply tm_reachable_ok. by exists (BufferPool_new 1 fm_closed), LogManager_new.
Qed.


Lemma rollback_commits_witness :
  ∃ q' t, execute0 5 1 (λ _, 0) (RollbackStmt (mkSavepointName "" false)) [] executor0 =
      Some (q', Some ([], StatusCode.OK)) ∧
    completed (qe_tm q') = <[1 := t]> (completed tm0) ∧ tx_state t = TransactionState.COMMITTED.
Proof.
  destruct (rollback_commits 0 fs_all (λ _ _, mret StatusCode.OK) () no_tree no_insert (λ _ r, r)
    (λ _ _, 100) (λ f, f) 5 1 (λ _, 0) (mkSavepointName "" false) [] executor0
    (RollbackStmt (mkSavepointName "" false)) (or_intror (or_intror eq_refl)) tm0_room)
    as (q' & t & H1 & _ & H2 & H3 & _).
  exists q', t. split; [exact H1|]. split; [exact H2|exact H3].
Defined.

(** A table whose page 0 is in the pool. *)
Definition pool2 : BufferPool FileManager :=
  set_frames {[0 := mkFrame (blank_page 0 1) 0 false false]} (BufferPool_new 4 fm_closed).
Definition tm2 : TransactionManager FileManager :=
  match begin 5 IsolationLevel.SERIALIZABLE AccessMode.READ_WRITE (set_pool pool2 tm0) with
  | Some (m, _) => m
  | None => tm0
  end.
Definition exec2 : Exec FileManager :=
  mkExec (mkWorld (ExecutorContext_new (Some 1) 0) catalog1 0) tm2.
Definition insert2 : InsertNode :=
  mkInsertNode "t" [] [[LiteralNode (Value_int 7)]; [LiteralNode (Value_int 8)]] None.

Lemma insert_spec_witness :
  ∃ x', executeInsert 0 1 insert2 exec2 = Some (x', Some StatusCode.OK).
Proof.
  assert (match Table_new 1 SelectProofs.schema1 (tm_pool tm2) with
          | Some (p1, t) =>
              match table_insertRecords t [[Value_int 7]; [Value_int 8]] p1 with
              | Some (_, _, rids) => (length rids =? 2)%nat
              | None => false
              end
          | None => false
          end = true) as Hc by (vm_compute; reflexivity).
  destruct (Table_new 1 SelectProofs.schema1 (tm_pool tm2)) as [[p1 t]|] eqn:E1; [|discriminate].
  destruct (table_insertRecords t [[Value_int 7]; [Value_int 8]] p1) as [[[p2 t2] rids]|] eqn:E2;
    [|discriminate].
  apply Nat.eqb_eq in Hc.
  destruct (insert_spec 0 1 insert2 exec2 1 t1 SelectProofs.schema1 [[Value_int 7]; [Value_int 8]]
    p1 t p2 t2 rids eq_refl eq_refl eq_refl eq_refl E1 eq_refl E2) as (x' & H1 & _).
  exists x'. rewrite H1. by rewrite decide_True.
Defined.
End Witnesses.
