(* ===== verification/IndexManager.v ===== *)
(** * IndexManager: the open indexes (src/index/index_manager.h, index_manager.cpp)

    The manager keeps the trees of the indexes in a cache and the ids of the
    indexes under their names; the files it writes are part of its state.  The
    catalog and the pool, to which it points, are arguments and results.  The trees
    are behind the interface [IndexTrees], over the type of the keys, of which [pool_trees]
    gives those of integers; a pointer to
    the tree of an index is the id under which the cache owns it.  The library of
    JSON and which files can be opened are parameters.  [None] is a call that does
    not return normally.  The iteration order of a map is that of [map_to_list].
    [vacuumIndex] and [validateIndex] only look the index up. *)

From stdpp Require Import gmap strings.
From S2P Require Import Prelude CxxString Types Json Page FileManager BufferPool Table BTreeNode BTree.
From S2P Require Import Catalog.

Open Scope Z_scope.

(** ** Metadata *)

Module IndexType.
Inductive IndexType := BTREE | HASH | GIN | GiST | BRIN | OTHER (code : Z).

#[export] Instance IndexType_eq_dec : EqDecision IndexType.
Proof. solve_decision. Defined.
End IndexType.
Export (hints) IndexType.
Abbreviation IndexType := IndexType.IndexType.

Definition index_type_code (t : IndexType) : Z :=
  match t with
  | IndexType.BTREE => 0 | IndexType.HASH => 1 | IndexType.GIN => 2 | IndexType.GiST => 3
  | IndexType.BRIN => 4 | IndexType.OTHER z => z
  end.
Definition code_index_type (z : Z) : IndexType :=
  match z with
  | 0 => IndexType.BTREE | 1 => IndexType.HASH | 2 => IndexType.GIN | 3 => IndexType.GiST
  | 4 => IndexType.BRIN | _ => IndexType.OTHER z
  end.

Record IndexMetadata := mkIndexMetadata {
  im_id : Z;
  im_name : string;
  im_table_id : Z;
  im_table_name : string;
  im_columns : list string;
  im_type : IndexType;
  im_unique : bool;
  im_primary : bool;
  estimated_size : Z;
  unique_values : Z
}.

Definition IndexMetadata_new : IndexMetadata :=
  mkIndexMetadata 0 "" 0 "" [] IndexType.BTREE false false 0 0.

(** The members of the object that is written for an index. *)
Definition json_metadata (m : IndexMetadata) : Json :=
  JObject (list_to_map
    [("id"%string, JNumber (im_id m)); ("name"%string, JString (im_name m));
     ("table_id"%string, JNumber (im_table_id m)); ("table_name"%string, JString (im_table_name m));
     ("columns"%string, JArray (JString <$> im_columns m));
     ("type"%string, JNumber (index_type_code (im_type m)));
     ("unique"%string, JBoolean (im_unique m)); ("primary"%string, JBoolean (im_primary m))]).

(** [x = j[key]] with the conversion [f]. *)
Definition json_read {A} (key : string) (f : Json → option A) (j : Json) : option A :=
  match j with JObject m => x ← m !! key; f x | _ => None end.

(** The members that are read, over those of [m]. *)
Definition metadata_of_json (m : IndexMetadata) (j : Json) : option IndexMetadata :=
  id ← json_read "id" (as_unsigned 32) j;
  name ← json_read "name" as_string j;
  table_id ← json_read "table_id" (as_unsigned 32) j;
  table_name ← json_read "table_name" as_string j;
  cols ← json_read "columns" (as_list as_string) j;
  type ← json_read "type" (as_signed 32) j;
  unique ← json_read "unique" as_bool j;
  primary ← json_read "primary" as_bool j;
  Some (mkIndexMetadata id name table_id table_name cols (code_index_type type) unique primary
          (estimated_size m) (unique_values m)).

(** ** Trees *)

(** The types [int32_t], [int64_t] and [std::string] of keys. *)
Inductive KeyType := INT32 | INT64 | STRING.
Definition key_of (k : KeyType) : Type := match k with STRING => string | _ => Z end.

(** What the manager calls of the trees. *)
Class IndexTrees (St : Type) := mkIndexTrees {
  Tree : KeyType → Type;
  tree_new : ∀ k, Z → IndexConfig → BufferPool St → option (BufferPool St * Tree k);
  tree_insert : ∀ k, Tree k → key_of k → Z → BufferPool St → option (BufferPool St * Tree k)
}.

(** The type of the keys of a column. *)
Definition key_type (t : DataType) : option KeyType :=
  match t with
  | DataType.INTEGER => Some INT32
  | DataType.BIGINT => Some INT64
  | DataType.VARCHAR => Some STRING
  | _ => None
  end.
Definition key_value (k : KeyType) (v : Value) : key_of k :=
  match k with INT32 => int_val v | INT64 => bigint_val v | STRING => str_val v end.

Definition MAX_CACHED_INDEXES : nat := 100.
Definition CACHE_CLEANUP_INTERVAL : Z := 60.

Definition index_file_name (id : Z) : string := "data/tables/index_" +:+ to_string id +:+ ".idx".
Definition meta_file_name (id : Z) : string := index_file_name id +:+ ".meta".
Definition indexes_file : string := "data/system/indexes.json".

Section IndexManager.
Context {St : Type} `{PageStore St} `{trees : IndexTrees St}.
Variable json_dump : Json → string.
Variable json_parse : string → option Json.
(** Which files can be opened for output. *)
Variable can_open : string → bool.

Record IndexEntry := mkIndexEntry {
  ie_key : KeyType;
  ie_tree : Tree ie_key;
  ie_type : IndexType;
  last_used : Z
}.
Definition touch (now : Z) (e : IndexEntry) : IndexEntry :=
  mkIndexEntry (ie_key e) (ie_tree e) (ie_type e) now.

Record IndexManager := mkIndexManager {
  index_cache : gmap Z IndexEntry;
  name_to_id : gmap string Z;
  im_files : gmap string string
}.
Definition set_index_cache (c : gmap Z IndexEntry) (m : IndexManager) : IndexManager :=
  mkIndexManager c (name_to_id m) (im_files m).
Definition set_names (n : gmap string Z) (m : IndexManager) : IndexManager :=
  mkIndexManager (index_cache m) n (im_files m).
(** [std::ofstream(name) << text] *)
Definition write_file (name text : string) (m : IndexManager) : IndexManager :=
  if can_open name then
    mkIndexManager (index_cache m) (name_to_id m) (<[name := text]> (im_files m))
  else m.

(** ** Cache *)

(** The entry used longest before [now], the first one in the order of the visit. *)
Definition oldest_step (acc : Z * Z) (kv : Z * IndexEntry) : Z * Z :=
  if last_used kv.2 <? acc.2 then (kv.1, last_used kv.2) else acc.
Definition oldest_index (now : Z) (entries : list (Z * IndexEntry)) : Z :=
  (foldl oldest_step (0, now) entries).1.

Definition evictIndex (now : Z) (m : IndexManager) : IndexManager :=
  let oldest := oldest_index now (map_to_list (index_cache m)) in
  if decide (oldest ≠ 0) then set_index_cache (delete oldest (index_cache m)) m else m.

(** [now] for the eviction, [later] for the new entry. *)
Definition cacheIndex (now later id : Z) (k : KeyType) (tree : Tree k) (type : IndexType)
    (m : IndexManager) : IndexManager :=
  let m := if decide (MAX_CACHED_INDEXES ≤ size (index_cache m))%nat then evictIndex now m else m in
  set_index_cache (<[id := mkIndexEntry k tree type later]> (index_cache m)) m.

Definition cleanupCache (now : Z) (m : IndexManager) : IndexManager :=
  set_index_cache
    (filter (λ kv, ¬ last_used kv.2 < now - CACHE_CLEANUP_INTERVAL * 1000000000) (index_cache m)) m.

Definition im_clearCache (m : IndexManager) : IndexManager := set_index_cache ∅ m.
Definition getCacheSize (m : IndexManager) : nat := size (index_cache m).

(** ** Metadata of the manager *)

(** Only the id and the name are found. *)
Definition getIndexMetadata (id : Z) (m : IndexManager) : IndexMetadata :=
  match list_find (λ kv : string * Z, kv.2 = id) (map_to_list (name_to_id m)) with
  | Some (_, (name, _)) => mkIndexMetadata id name 0 "" [] IndexType.BTREE false false 0 0
  | None => IndexMetadata_new
  end.

Definition im_listIndexes (m : IndexManager) : list IndexMetadata :=
  (λ kv : string * Z, getIndexMetadata kv.2 m) <$> map_to_list (name_to_id m).
Definition listIndexes_of (table : string) (m : IndexManager) : list IndexMetadata :=
  filter (λ meta, im_table_name meta = table) (im_listIndexes m).

Definition saveIndexMetadata (meta : IndexMetadata) (m : IndexManager) : IndexManager :=
  write_file (meta_file_name (im_id meta)) (json_dump (json_metadata meta)) m.

(** Inside, [None] is [false]. *)
Definition loadIndexMetadata (id : Z) (meta : IndexMetadata) (m : IndexManager)
  : option (option IndexMetadata) :=
  match im_files m !! meta_file_name id with
  | None => Some None
  | Some text => j ← json_parse text; meta ← metadata_of_json meta j; Some (Some meta)
  end.

(** The constructor, from the file of the indexes. *)
Fixpoint load_names (items : list Json) (names : gmap string Z) : option (gmap string Z) :=
  match items with
  | [] => Some names
  | item :: items' =>
      meta ← metadata_of_json IndexMetadata_new item;
      load_names items' (<[im_name meta := im_id meta]> names)
  end.

Definition IndexManager_new (files : gmap string string) : option IndexManager :=
  match files !! indexes_file with
  | None => Some (mkIndexManager ∅ ∅ files)
  | Some text =>
      j ← json_parse text;
      names ← load_names (elements_of j) ∅;
      Some (mkIndexManager ∅ names files)
  end.

Definition IndexManager_destroy (m : IndexManager) : IndexManager :=
  let items := (λ kv : string * Z, json_metadata (getIndexMetadata kv.2 m)) <$> map_to_list (name_to_id m) in
  im_clearCache (write_file indexes_file (json_dump (JArray items)) m).

(** ** Indexes *)

(** The loop over the rows of the table. *)
Fixpoint populate (fuel : nat) (t : Table) (col_idx : nat) (k : KeyType) (tree : Tree k)
    (it : TableIterator) (p : BufferPool St) : option (BufferPool St * Tree k) :=
  if iterator_ne it table_end then
    match fuel with
    | O => None
    | S fuel' =>
        rv ← iterator_deref it p;
        key ← rv.2 !! col_idx;
        r ← tree_insert k tree (key_value k key) rv.1 p;
        n ← iterator_next fuel' t it r.1;
        populate fuel' t col_idx k r.2 n.2 n.1
    end
  else Some (p, tree).

(** [columns[getColumnIndex(name)]]: the index of a missing column is out of range. *)
Definition column_position (schema : TableSchema) (name : string) : option nat :=
  let i := getColumnIndex schema name in
  if i <? Z.of_nat (length (columns schema)) then Some (Z.to_nat i) else None.

(** The tree of a single column, filled and cached. *)
Definition build_index (fuel : nat) (now later id : Z) (schema : TableSchema) (col : string)
    (config : IndexConfig) (m : IndexManager) (p : BufferPool St)
  : option (IndexManager * BufferPool St * StatusCode) :=
  tb ← Table_new fuel schema p;
  col_idx ← column_position schema col;
  col_schema ← columns schema !! col_idx;
  match key_type (col_type col_schema) with
  | None => Some (m, tb.1, StatusCode.ERROR)
  | Some k =>
      tr ← tree_new k id config tb.1;
      b ← table_begin fuel tb.2 tr.1;
      r ← populate fuel tb.2 col_idx k tr.2 b.2 b.1;
      Some (cacheIndex now later id k r.2 IndexType.BTREE m, r.1, StatusCode.OK)
  end.

(** The part after the id has been drawn. *)
Definition create_with_id (fuel : nat) (now later id : Z) (name table : string) (schema : TableSchema)
    (cols : list string) (config : IndexConfig) (m : IndexManager) (p : BufferPool St)
  : option (IndexManager * BufferPool St * StatusCode) :=
  let meta := mkIndexMetadata id name (ts_id schema) table cols IndexType.BTREE
                (cfg_unique config) false 0 0 in
  if negb (can_open (index_file_name id)) then Some (m, p, StatusCode.IO_ERROR)
  else
    let m := write_file (index_file_name id) "" m in
    r ← match cols with
        | [col] => build_index fuel now later id schema col config m p
        | _ => Some (m, p, StatusCode.OK)
        end;
    match r with
    | (m, p, StatusCode.OK) =>
        Some (saveIndexMetadata meta (set_names (<[name := id]> (name_to_id m)) m), p, StatusCode.OK)
    | _ => Some r
    end.

Definition im_createIndex (fuel : nat) (now later : Z) (name table : string) (cols : list string)
    (config : IndexConfig) (m : IndexManager) (c : Catalog) (p : BufferPool St)
  : option (IndexManager * Catalog * BufferPool St * StatusCode) :=
  match name_to_id m !! name with
  | Some _ => Some (m, c, p, StatusCode.ALREADY_EXISTS)
  | None =>
      match Catalog.getTable table c with
      | Some (c, Some None) => Some (m, c, p, StatusCode.NOT_FOUND)
      | Some (c, Some (Some schema)) =>
          match getNextIndexId c with
          | Some (c, Some id) =>
              match create_with_id fuel now later id name table schema cols config m p with
              | Some (m, p, status) => Some (m, c, p, status)
              | None => None
              end
          | _ => None
          end
      | _ => None
      end
  end.

(** The first name with the id is erased. *)
Definition erase_name (id : Z) (names : gmap string Z) : gmap string Z :=
  match list_find (λ kv : string * Z, kv.2 = id) (map_to_list names) with
  | Some (_, (name, _)) => delete name names
  | None => names
  end.

Definition im_dropIndex_id (id : Z) (m : IndexManager) : IndexManager * StatusCode :=
  (mkIndexManager (delete id (index_cache m)) (erase_name id (name_to_id m))
     (delete (index_file_name id) (im_files m)), StatusCode.OK).

Definition im_dropIndex (name : string) (m : IndexManager) : IndexManager * StatusCode :=
  match name_to_id m !! name with
  | None => (m, StatusCode.NOT_FOUND)
  | Some id => im_dropIndex_id id m
  end.

(** [getIndex<K, V>(id)]: the pointer is to the tree that is cached under the id,
    whatever the type of its keys.  [used], [now] and [later] are the times that it reads. *)
Definition getIndex (used now later : Z) (k : KeyType) (id : Z) (m : IndexManager) (p : BufferPool St)
  : option (IndexManager * BufferPool St * option Z) :=
  let load (m : IndexManager) :=
    tr ← tree_new k id IndexConfig_default p;
    Some (cacheIndex now later id k tr.2 IndexType.BTREE m, tr.1, Some id) in
  match index_cache m !! id with
  | Some e =>
      let m := set_index_cache (<[id := touch used e]> (index_cache m)) m in
      if decide (ie_type e = IndexType.BTREE) then Some (m, p, Some id) else load m
  | None => load m
  end.

Definition getIndex_name (used now later : Z) (k : KeyType) (name : string) (m : IndexManager)
    (p : BufferPool St) : option (IndexManager * BufferPool St * option Z) :=
  match name_to_id m !! name with
  | None => Some (m, p, None)
  | Some id => getIndex used now later k id m p
  end.

(** The metadata has no table: the table with id 0 is looked up. *)
Definition rebuildIndex (id : Z) (m : IndexManager) (c : Catalog) : option (Catalog * StatusCode) :=
  match getTableById (im_table_id (getIndexMetadata id m)) c with
  | Some (c, Some (Some _)) => Some (c, StatusCode.OK)
  | Some (c, Some None) => Some (c, StatusCode.NOT_FOUND)
  | _ => None
  end.

Fixpoint rebuild_all (ids : list Z) (m : IndexManager) (c : Catalog)
  : option (Catalog * StatusCode) :=
  match ids with
  | [] => Some (c, StatusCode.OK)
  | id :: ids' =>
      r ← rebuildIndex id m c;
      if decide (r.2 = StatusCode.OK) then rebuild_all ids' m r.1 else Some r
  end.
Definition rebuildAllIndexes (m : IndexManager) (c : Catalog) : option (Catalog * StatusCode) :=
  rebuild_all (map_to_list (name_to_id m)).*2 m c.

Definition vacuumIndex (id : Z) (m : IndexManager) : StatusCode := StatusCode.OK.

Definition validateIndex (id : Z) (m : IndexManager) : bool :=
  match index_cache m !! id with
  | Some e => bool_decide (ie_type e = IndexType.BTREE)
  | None => false
  end.

End IndexManager.
Arguments IndexManager St {_}.
Arguments IndexEntry St {_}.

(** ** The trees over the buffer pool *)

Section PoolTrees.
Context {St : Type} `{PageStore St}.
(** [Page::getData], as for [PoolNodes], and the bound on a descent. *)
Variable page_bytes : Page → list Z.
Variable set_page_bytes : list Z → Page → Page.
Variable fuel : nat.
(** The trees whose keys are strings. *)
Variable StringTree : Type.
Variable string_new : Z → IndexConfig → BufferPool St → option (BufferPool St * StringTree).
Variable string_insert : StringTree → string → Z → BufferPool St → option (BufferPool St * StringTree).

(** A tree without the pool that it points to. *)
Record TreeOf := mkTreeOf { tr_id : Z; tr_root : Z; tr_config : IndexConfig; tr_stats : IndexStats }.

Definition close_tree (id : Z) (t : BTree (BufferPool St)) : BufferPool St * TreeOf :=
  (bt_store t, mkTreeOf id (root_page_id t) (bt_config t) (bt_stats t)).
Definition open_tree (t : TreeOf) (p : BufferPool St) : BTree (BufferPool St) :=
  mkBTree p (tr_root t) (tr_config t) (tr_stats t).

Definition int_tree_new (bytes : nat) (id : Z) (config : IndexConfig) (p : BufferPool St)
  : option (BufferPool St * TreeOf) :=
  match @BTree_open Z (int_key bytes) _ (@PoolNodes Z (int_key bytes) St _ id page_bytes set_page_bytes) config p with
  | Some (t, _) => Some (close_tree id t)
  | None => None
  end.
(** The status is ignored. *)
Definition int_tree_insert (bytes : nat) (t : TreeOf) (key value : Z) (p : BufferPool St)
  : option (BufferPool St * TreeOf) :=
  match @btree_insert Z (int_key bytes) _ (@PoolNodes Z (int_key bytes) St _ (tr_id t) page_bytes set_page_bytes)
          fuel key value (open_tree t p) with
  | Some (t', _) => Some (close_tree (tr_id t) t')
  | None => None
  end.

Definition pool_trees : IndexTrees St :=
  mkIndexTrees St (λ k, match k with STRING => StringTree | _ => TreeOf end)
    (λ k, match k with
          | STRING => string_new
          | INT32 => int_tree_new 4
          | INT64 => int_tree_new 8
          end)
    (λ k, match k with
          | STRING => string_insert
          | INT32 => int_tree_insert 4
          | INT64 => int_tree_insert 8
          end).

End PoolTrees.
