(* ===== verification/IndexManagerProofs.v ===== *)
(** * IndexManagerProofs: properties of the manager of the indexes

    The cache: which tree an insertion evicts, the bound on the number of trees under a
    clock that moves, and the tree that is never evicted.  The names: the outcome of a
    creation and what a restart keeps. *)

From stdpp Require Import gmap strings.
From S2P Require Import Prelude CxxString Types Json Page FileManager BufferPool Table BTreeNode BTree.
From S2P Require Import Catalog CatalogProofs CatalogRoundtrip IndexManager.

Open Scope Z_scope.

Section Proofs.
Context {St : Type} `{PageStore St} `{trees : IndexTrees St}.
Variable json_dump : Json → string.
Variable json_parse : string → option Json.
Variable can_open : string → bool.

Implicit Types (m : IndexManager St) (e : IndexEntry St) (cache : gmap Z (IndexEntry St)).

(** ** The cache *)

(** The visit gives [best], or the entry it has seen that was used first. *)
Lemma oldest_fold (l : list (Z * IndexEntry St)) : ∀ best : Z * Z,
  let r := foldl oldest_step best l in
  (r = best ∨ ∃ e, (r.1, e) ∈ l ∧ last_used e = r.2 ∧ last_used e < best.2) ∧
  r.2 ≤ best.2 ∧ Forall (λ kv, r.2 ≤ last_used kv.2) l.
Proof.
  induction l as [|[id e] l IH]; intros best; [cbn; split_and!; [by left|lia|constructor]|]. cbn [foldl].
  destruct (IH (oldest_step best (id, e))) as (Hin & Hle & Hall).
  set (r := foldl oldest_step (oldest_step best (id, e)) l) in *. clearbody r.
  unfold oldest_step in Hin, Hle. cbn in Hin, Hle.
  destruct (Z.ltb_spec (last_used e) best.2); cbn in *.
  - split_and!; [|lia|by constructor]. right. destruct Hin as [->|(e' & ? & ? & ?)].
    + exists e. cbn. split_and!; [left|done|lia].
    + exists e'. split_and!; [by right|done|lia].
  - split_and!; [|lia|constructor; [cbn; lia|done]].
    destruct Hin as [->|(e' & ? & ? & ?)]; [by left|]. right. exists e'. split_and!; [by right|done..].
Qed.

(** The least recently used entry of a cache. *)
Definition least_recent (id : Z) cache : Prop :=
  ∃ e, cache !! id = Some e ∧ ∀ id' e', cache !! id' = Some e' → last_used e ≤ last_used e'.

Lemma oldest_index_spec now cache :
  cache ≠ ∅ → (∀ id e, cache !! id = Some e → last_used e < now) →
  least_recent (oldest_index now (map_to_list cache)) cache.
Proof.
  intros Hne Hnow. unfold oldest_index.
  destruct (oldest_fold (map_to_list cache) (0, now)) as (Hin & _ & Hall).
  set (r := foldl oldest_step _ _) in *. clearbody r. rewrite Forall_forall in Hall.
  assert (∀ id e, cache !! id = Some e → r.2 ≤ last_used e) as Hmin.
  { intros id e He. by apply (Hall (id, e)), elem_of_map_to_list. }
  destruct Hin as [->|(e & He%elem_of_map_to_list & Hr & _)].
  - exfalso. apply map_choose in Hne as (id & e & He). pose proof (Hmin _ _ He). pose proof (Hnow _ _ He).
    cbn in *. lia.
  - exists e. split; [done|]. intros id' e' He'. pose proof (Hmin _ _ He'). lia.
Qed.

(** Without id 0 and with a clock past every use, a full cache loses its least recently used tree. *)
Lemma evictIndex_spec now m :
  index_cache m ≠ ∅ → index_cache m !! 0 = None →
  (∀ id e, index_cache m !! id = Some e → last_used e < now) →
  ∃ old, least_recent old (index_cache m) ∧
    evictIndex now m = set_index_cache (delete old (index_cache m)) m.
Proof.
  intros Hne H0 Hnow. pose proof (oldest_index_spec now _ Hne Hnow) as Hold.
  eexists. split; [exact Hold|]. unfold evictIndex. case_decide as E; [done|].
  destruct Hold as (e & He & _). rewrite E in He. congruence.
Qed.

(** What every operation on the cache keeps, at time [now]. *)
Record cache_ok (now : Z) m : Prop := {
  cache_bounded : (size (index_cache m) ≤ MAX_CACHED_INDEXES)%nat;
  cache_no_zero : index_cache m !! 0 = None;
  cache_past : ∀ id e, index_cache m !! id = Some e → last_used e ≤ now
}.

(** The effect of an insertion at a time after all the uses. *)
Lemma cacheIndex_effect t now later id k (tree : Tree k) type m :
  cache_ok t m → t < now →
  let m' := cacheIndex now later id k tree type m in
  ∃ kept, index_cache m' = <[id := mkIndexEntry k tree type later]> kept ∧
    name_to_id m' = name_to_id m ∧ im_files m' = im_files m ∧
    (size kept < MAX_CACHED_INDEXES)%nat ∧
    (kept = index_cache m ∨
     size (index_cache m) = MAX_CACHED_INDEXES ∧
     ∃ old, least_recent old (index_cache m) ∧ kept = delete old (index_cache m)).
Proof.
  intros [Hb H0 Hp] Ht m'. unfold m', cacheIndex. case_decide as Hfull.
  - destruct (evictIndex_spec now m) as (old & Hold & ->); [|done| |].
    { intros E. rewrite E, map_size_empty in Hfull. unfold MAX_CACHED_INDEXES in Hfull. lia. }
    { intros i e He. specialize (Hp _ _ He). lia. }
    exists (delete old (index_cache m)). split_and!; try done.
    + destruct Hold as (e & He & _). rewrite map_size_delete_Some by eauto. unfold MAX_CACHED_INDEXES in *. lia.
    + right. split; [lia|]. by exists old.
  - exists (index_cache m). split_and!; try done; [lia|by left].
Qed.

Lemma cacheIndex_ok t now later id k (tree : Tree k) type m :
  cache_ok t m → t < now → now ≤ later → id ≠ 0 →
  cache_ok later (cacheIndex now later id k tree type m).
Proof.
  intros Hok Ht Hl Hid.
  destruct (cacheIndex_effect t now later id k tree type m Hok Ht) as (kept & Hc & _ & _ & Hs & Hk).
  assert (∀ i e, kept !! i = Some e → index_cache m !! i = Some e) as Hsub.
  { destruct Hk as [->|(_ & old & _ & ->)]; [done|]. intros i e He. by apply lookup_delete_Some in He as [_ He]. }
  split; rewrite Hc.
  - rewrite map_size_insert. case_match; simpl; lia.
  - rewrite lookup_insert_ne by done. apply eq_None_not_Some. intros [e He%Hsub].
    by rewrite (cache_no_zero _ _ Hok) in He.
  - intros i e [[<- <-]|[_ He]]%lookup_insert_Some; [done|]. pose proof (cache_past _ _ Hok _ _ (Hsub _ _ He)). lia.
Qed.

Lemma cache_ok_sub t t' m m' :
  cache_ok t m → t ≤ t' → index_cache m' ⊆ index_cache m → cache_ok t' m'.
Proof.
  intros [Hb H0 Hp] Ht Hsub. split.
  - apply map_subseteq_size in Hsub. lia.
  - by eapply lookup_weaken_None.
  - intros i e He. pose proof (Hp _ _ (lookup_weaken _ _ _ _ He Hsub)). lia.
Qed.

Lemma touch_ok t now id e m :
  cache_ok t m → t ≤ now → index_cache m !! id = Some e →
  cache_ok now (set_index_cache (<[id := touch now e]> (index_cache m)) m).
Proof.
  intros [Hb H0 Hp] Ht He. split; cbn.
  - rewrite map_size_insert_Some by eauto. done.
  - rewrite lookup_insert_ne; [done|]. intros ->. congruence.
  - intros i e' [[<- <-]|[_ He']]%lookup_insert_Some; [done|]. pose proof (Hp _ _ He'). lia.
Qed.

Lemma getIndex_ok t used now later k id m p m' p' r :
  cache_ok t m → t ≤ used → used < now → now ≤ later → id ≠ 0 →
  getIndex used now later k id m p = Some (m', p', r) → cache_ok later m'.
Proof.
  intros Hok Ht Hu Hl Hid. unfold getIndex.
  destruct (index_cache m !! id) as [e|] eqn:He; [case_decide|].
  - intros [= <- <- <-]. eapply cache_ok_sub; [by apply (touch_ok t used)|lia|done].
  - intros (tr & Htr & [= <- <- <-])%bind_Some. eapply cacheIndex_ok; [by apply (touch_ok t used)|..]; lia || done.
  - intros (tr & Htr & [= <- <- <-])%bind_Some. eapply cacheIndex_ok; [exact Hok|..]; lia || done.
Qed.

(** ** Names *)

Lemma getIndexMetadata_table id m :
  im_table_id (getIndexMetadata id m) = 0 ∧ im_table_name (getIndexMetadata id m) = ""%string.
Proof. unfold getIndexMetadata. by destruct (list_find _ _) as [[? [? ?]]|]. Qed.

(** Ids are given to one name each. *)
Definition distinct_ids (names : gmap string Z) : Prop :=
  ∀ a b id, names !! a = Some id → names !! b = Some id → a = b.

Lemma find_name (names : gmap string Z) name id :
  distinct_ids names → names !! name = Some id →
  ∃ i, list_find (λ kv : string * Z, kv.2 = id) (map_to_list names) = Some (i, (name, id)).
Proof.
  intros Hd Hn.
  destruct (list_find_elem_of (λ kv : string * Z, kv.2 = id) (map_to_list names) (name, id))
    as [[i [n z]] Hf]; [by apply elem_of_map_to_list|done|].
  exists i. rewrite Hf. apply list_find_Some in Hf as (Hl & Hz & _). cbn in Hz. subst z.
  apply list_elem_of_lookup_2, elem_of_map_to_list in Hl. by rewrite (Hd _ _ _ Hl Hn).
Qed.

Lemma getIndexMetadata_known name id m :
  distinct_ids (name_to_id m) → name_to_id m !! name = Some id →
  getIndexMetadata id m = mkIndexMetadata id name 0 "" [] IndexType.BTREE false false 0 0.
Proof. intros Hd Hn. unfold getIndexMetadata. by destruct (find_name _ _ _ Hd Hn) as [i ->]. Qed.

Lemma erase_name_spec name id (names : gmap string Z) :
  distinct_ids names → names !! name = Some id → erase_name id names = delete name names.
Proof. intros Hd Hn. unfold erase_name. by destruct (find_name _ _ _ Hd Hn) as [i ->]. Qed.

(** ** Text of the metadata *)

(** The fields that are numbers have their widths. *)
Definition metadata_fits (meta : IndexMetadata) : Prop :=
  fits 32 (im_id meta) ∧ fits 32 (im_table_id meta) ∧
  fits_signed 32 (index_type_code (im_type meta)) ∧ code_index_type (index_type_code (im_type meta)) = im_type meta.

Lemma metadata_roundtrip meta0 meta :
  metadata_fits meta →
  metadata_of_json meta0 (json_metadata meta) =
  Some (mkIndexMetadata (im_id meta) (im_name meta) (im_table_id meta) (im_table_name meta)
          (im_columns meta) (im_type meta) (im_unique meta) (im_primary meta)
          (estimated_size meta0) (unique_values meta0)).
Proof.
  intros (Hi & Ht & Hc & Hty). unfold metadata_of_json, json_metadata.
  set (l := [_; _; _; _; _; _; _; _]).
  assert (∀ A key x (f : Json → option A), (list_to_map l : gmap string Json) !! key = Some x →
    json_read key f (JObject (list_to_map l)) = f x) as Hr.
  { intros A key x f Hx. unfold json_read. by rewrite Hx. }
  rewrite (Hr _ "id"%string (JNumber (im_id meta)) _ eq_refl), as_unsigned_fits by done. cbn [mbind option_bind].
  rewrite (Hr _ "name"%string (JString (im_name meta)) _ eq_refl). cbn [mbind option_bind as_string].
  rewrite (Hr _ "table_id"%string (JNumber (im_table_id meta)) _ eq_refl), as_unsigned_fits by done. cbn [mbind option_bind].
  rewrite (Hr _ "table_name"%string (JString (im_table_name meta)) _ eq_refl). cbn [mbind option_bind as_string].
  rewrite (Hr _ "columns"%string (json_strings (im_columns meta)) _ eq_refl). rewrite as_strings_back.
  cbn [mbind option_bind].
  rewrite (Hr _ "type"%string (JNumber (index_type_code (im_type meta))) _ eq_refl), as_signed_fits by (done || lia). cbn [mbind option_bind].
  rewrite (Hr _ "unique"%string (JBoolean (im_unique meta)) _ eq_refl), (Hr _ "primary"%string (JBoolean (im_primary meta)) _ eq_refl). cbn. by rewrite Hty.
Qed.

Lemma load_names_fold (f : string * Z → IndexMetadata) l : ∀ names : gmap string Z,
  Forall (λ kv, metadata_fits (f kv)) l →
  load_names ((λ kv, json_metadata (f kv)) <$> l) names =
  Some (foldl (λ names kv, <[im_name (f kv) := im_id (f kv)]> names) names l).
Proof.
  induction l as [|kv l IH]; intros names Hl; [done|]. apply Forall_cons in Hl as [Hkv Hl].
  rewrite fmap_cons. cbn [load_names foldl]. rewrite metadata_roundtrip by done. cbn [mbind option_bind].
  by rewrite IH.
Qed.

(** The names, with the metadata that is found for each. *)
Lemma foldl_names (f : string * Z → IndexMetadata) (names : gmap string Z) :
  Forall (λ kv, im_name (f kv) = kv.1 ∧ im_id (f kv) = kv.2) (map_to_list names) →
  foldl (λ names kv, <[im_name (f kv) := im_id (f kv)]> names) ∅ (map_to_list names) = names.
Proof.
  intros Hf. transitivity (foldl (λ (n : gmap string Z) kv, <[kv.1 := kv.2]> n) ∅ (map_to_list names)).
  - generalize (∅ : gmap string Z). induction Hf as [|kv l [Hn Hi] Hl IH]; intros n0; [done|].
    cbn [foldl]. by rewrite Hn, Hi, IH.
  - rewrite (fold_own_keys (λ _ z, z)). apply map_eq. intros i. rewrite map_lookup_imap.
    by destruct (names !! i).
Qed.

(** ** Creation *)

Lemma build_index_effect fuel now later id schema col config m p m' p' status :
  build_index fuel now later id schema col config m p = Some (m', p', status) →
  (status = StatusCode.ERROR ∧ m' = m) ∨
  (status = StatusCode.OK ∧ ∃ k (tree : Tree k),
     (∃ i cs, columns schema !! i = Some cs ∧ key_type (col_type cs) = Some k) ∧
     m' = cacheIndex now later id k tree IndexType.BTREE m).
Proof.
  unfold build_index. intros (tb & _ & E)%bind_Some. apply bind_Some in E as (i & _ & E).
  apply bind_Some in E as (cs & Hcs & E). destruct (key_type (col_type cs)) as [k|] eqn:Hk.
  - apply bind_Some in E as (tr & _ & E). apply bind_Some in E as (b & _ & E).
    apply bind_Some in E as (r & _ & [= <- <- <-]). right. split; [done|]. eauto 10.
  - injection E as <- <- <-. by left.
Qed.

Lemma cacheIndex_names now later id k (tree : Tree k) type m :
  name_to_id (cacheIndex now later id k tree type m) = name_to_id m ∧
  index_cache (cacheIndex now later id k tree type m) !! id = Some (mkIndexEntry k tree type later).
Proof.
  unfold cacheIndex, evictIndex. cbn [index_cache set_index_cache]. split; [|by rewrite lookup_insert_eq].
  by repeat case_decide.
Qed.

(** The names and the cache after a creation with a given id. *)
Lemma create_with_id_effect fuel now later id name table schema cols config m p m' p' status :
  create_with_id json_dump can_open fuel now later id name table schema cols config m p = Some (m', p', status) →
  if decide (status = StatusCode.OK) then
    name_to_id m' = <[name := id]> (name_to_id m) ∧
    (can_open (meta_file_name id) = true →
     im_files m' !! meta_file_name id =
       Some (json_dump (json_metadata (mkIndexMetadata id name (ts_id schema) table cols
               IndexType.BTREE (cfg_unique config) false 0 0)))) ∧
    (if decide (length cols = 1%nat) then validateIndex id m' = true
     else index_cache m' = index_cache m)
  else name_to_id m' = name_to_id m ∧ index_cache m' = index_cache m.
Proof.
  unfold create_with_id. destruct (can_open (index_file_name id)) eqn:Ho; cbn [negb].
  2:{ by intros [= <- <- <-]. }
  assert (∀ m1 m2, saveIndexMetadata json_dump can_open
                  (mkIndexMetadata id name (ts_id schema) table cols IndexType.BTREE (cfg_unique config) false 0 0)
                  (set_names (<[name := id]> (name_to_id m1)) m1) = m2 →
    name_to_id m2 = <[name := id]> (name_to_id m1) ∧ index_cache m2 = index_cache m1 ∧
    (can_open (meta_file_name id) = true → im_files m2 !! meta_file_name id =
       Some (json_dump (json_metadata (mkIndexMetadata id name (ts_id schema) table cols
               IndexType.BTREE (cfg_unique config) false 0 0))))) as Hsave.
  { intros m1 m2 <-. unfold saveIndexMetadata, write_file. cbn [im_id].
    destruct (can_open (meta_file_name id)); cbn; split_and!; try done. intros _. by rewrite lookup_insert_eq. }
  assert (∀ text, name_to_id (write_file can_open (index_file_name id) text m) = name_to_id m ∧
    index_cache (write_file can_open (index_file_name id) text m) = index_cache m) as Hw.
  { intros text. unfold write_file. by rewrite Ho. }
  destruct (Hw ""%string) as [Hn Hc]. set (m0 := write_file _ _ _ m) in *. clearbody m0. rewrite <- Hn, <- Hc.
  intros ([[m1 p1] s1] & E1 & E2)%bind_Some.
  assert ((length cols = 1%nat ∧ ∃ col, build_index fuel now later id schema col config m0 p = Some (m1, p1, s1)) ∨
          (length cols ≠ 1%nat ∧ m1 = m0 ∧ s1 = StatusCode.OK)) as [[Hl [col Hb]]|(Hl & -> & ->)].
  { destruct cols as [|col [|? ?]]; [right|left; eauto|right]; by injection E1 as <- <- <-. }
  - apply build_index_effect in Hb as [[-> ->]|(-> & k & tree & _ & ->)].
    + by injection E2 as <- <- <-.
    + injection E2 as Em <- <-. destruct (Hsave (cacheIndex now later id k tree IndexType.BTREE m0) _ Em) as (H1 & H2 & H3).
      destruct (cacheIndex_names now later id k tree IndexType.BTREE m0) as [H4 H5].
      rewrite decide_True by done. rewrite H1, H4. split_and!; try done. rewrite decide_True by done.
      unfold validateIndex. by rewrite H2, H5.
  - injection E2 as Em <- <-. destruct (Hsave m0 _ Em) as (H1 & H2 & H3).
    rewrite decide_True by done. split_and!; try done. by rewrite decide_False.
Qed.

Lemma create_with_id_ok t fuel now later id name table schema cols config m p m' p' status :
  cache_ok t m → t < now → now ≤ later → id ≠ 0 →
  create_with_id json_dump can_open fuel now later id name table schema cols config m p = Some (m', p', status) →
  cache_ok later m'.
Proof.
  intros Hok Ht Hl Hid. unfold create_with_id. destruct (can_open (index_file_name id)) eqn:Ho; cbn [negb].
  2:{ intros [= <- <- <-]. eapply cache_ok_sub; [exact Hok|lia|done]. }
  assert (∀ n text m1, cache_ok t m1 → cache_ok t (write_file can_open n text m1)) as Hw.
  { intros n text m1 Hm1. unfold write_file. case_match; [|done]. eapply cache_ok_sub; [exact Hm1|lia|done]. }
  specialize (Hw (index_file_name id) ""%string m Hok). set (m0 := write_file _ _ _ m) in *. clearbody m0.
  intros ([[m1 p1] s1] & E1 & E2)%bind_Some.
  assert (cache_ok later m1) as H1.
  { destruct cols as [|col [|? ?]].
    - injection E1 as <- <- <-. eapply cache_ok_sub; [exact Hw|lia|done].
    - apply build_index_effect in E1 as [[_ ->]|(_ & k & tree & _ & ->)].
      + eapply cache_ok_sub; [exact Hw|lia|done].
      + by eapply cacheIndex_ok.
    - injection E1 as <- <- <-. eapply cache_ok_sub; [exact Hw|lia|done]. }
  assert (index_cache m' = index_cache m1) as Hc.
  { destruct s1; injection E2 as <- <- <-; try done; unfold saveIndexMetadata, write_file; by destruct (can_open (meta_file_name _)). }
  eapply cache_ok_sub; [exact H1|lia|by rewrite Hc].
Qed.

(** ** Runs *)

(** The calls, with the times they read from the clock.  The ids are those of the catalog,
    which are not 0 until its counter wraps around. *)
Inductive im_step : Z * IndexManager St → Z * IndexManager St → Prop :=
  | step_create t fuel now later name table cols config m c p m' c' p' status :
      t < now → now ≤ later → next_index_id c ≠ 0 →
      im_createIndex json_dump can_open fuel now later name table cols config m c p = Some (m', c', p', status) →
      im_step (t, m) (later, m')
  | step_get t used now later k id m p m' p' r :
      t ≤ used → used < now → now ≤ later → id ≠ 0 →
      getIndex used now later k id m p = Some (m', p', r) → im_step (t, m) (later, m')
  | step_drop t name m : im_step (t, m) (t, (im_dropIndex name m).1)
  | step_drop_id t id m : im_step (t, m) (t, (im_dropIndex_id id m).1)
  | step_cleanup t now m : t ≤ now → im_step (t, m) (now, cleanupCache now m)
  | step_clear t m : im_step (t, m) (t, im_clearCache m).

Lemma getTable_index_counter table c c' r :
  getTable table c = Some (c', r) → next_index_id c' = next_index_id c.
Proof.
  unfold getTable, locked. destruct (rw_mutex c); try done. cbn. by intros [= <- _].
Qed.

Lemma im_createIndex_with_id fuel now later name table cols config m c p m' c' p' status :
  im_createIndex json_dump can_open fuel now later name table cols config m c p = Some (m', c', p', status) →
  (m' = m ∧ status ≠ StatusCode.OK) ∨
  (name_to_id m !! name = None ∧ ∃ schema,
     create_with_id json_dump can_open fuel now later (next_index_id c) name table schema cols config m p =
     Some (m', p', status)).
Proof.
  unfold im_createIndex. destruct (name_to_id m !! name); [intros [= <- <- <- <-]; by left|].
  destruct (getTable table c) as [[c1 [[schema|]|]]|] eqn:Hg; try done.
  2:{ intros [= <- <- <- <-]. by left. }
  cbn. rewrite (getTable_index_counter _ _ _ _ Hg).
  destruct (create_with_id _ _ _ _ _ _ _ _ _ _ _ _ _) as [[[m1 p1] s1]|] eqn:E; [|done].
  intros [= <- <- <- <-]. right. eauto.
Qed.

Lemma im_step_ok t m t' m' : im_step (t, m) (t', m') → cache_ok t m → cache_ok t' m' ∧ t ≤ t'.
Proof.
  intros Hs Hok.
  remember (t, m) as a eqn:Ea. remember (t', m') as b eqn:Eb. revert t m Ea t' m' Eb Hok.
  destruct Hs as [??????????????? ?? Hid E|??????????? ???? E| | | |];
    intros ? ? [= <- <-] ? ? [= <- <-] Hok.
  - split; [|lia]. apply im_createIndex_with_id in E as [[-> _]|(_ & schema & E)].
    + eapply cache_ok_sub; [exact Hok|lia|done].
    + by eapply create_with_id_ok.
  - split; [by eapply getIndex_ok|lia].
  - split; [|lia]. unfold im_dropIndex. case_match; [|done].
    eapply cache_ok_sub; [exact Hok|lia|]. apply delete_subseteq.
  - split; [|lia]. eapply cache_ok_sub; [exact Hok|lia|]. apply delete_subseteq.
  - split; [|lia]. eapply cache_ok_sub; [exact Hok|lia|]. apply map_filter_subseteq.
  - split; [|lia]. eapply cache_ok_sub; [exact Hok|lia|]. apply map_empty_subseteq.
Qed.

(** (C31) As long as the clock moves between calls and no index has id 0, the cache of a new manager keeps at most
    100 trees through any sequence of calls, and an insertion into a cache so reached gives the tree of the
    index and loses at most one other tree, which was then the least recently used of a full cache. *)
Theorem index_cache_spec t0 files m0 t m now later id k (tree : Tree k) type :
  IndexManager_new json_parse files = Some m0 → rtc im_step (t0, m0) (t, m) → t < now →
  let m' := cacheIndex now later id k tree type m in
  (size (index_cache m) ≤ MAX_CACHED_INDEXES)%nat ∧
  index_cache m' !! id = Some (mkIndexEntry k tree type later) ∧
  ∃ kept, (∀ i, i ≠ id → index_cache m' !! i = kept !! i) ∧
    (kept = index_cache m ∨
     size (index_cache m) = MAX_CACHED_INDEXES ∧
     ∃ old, least_recent old (index_cache m) ∧ kept = delete old (index_cache m)).
Proof.
  intros Hnew Hrun Hnow m'.
  assert (cache_ok t m) as Hok.
  { assert (cache_ok t0 m0) as H0.
    { unfold IndexManager_new in Hnew. destruct (files !! indexes_file).
      - apply bind_Some in Hnew as (j & _ & Hnew). apply bind_Some in Hnew as (names & _ & [= <-]).
        split; cbn; [unfold MAX_CACHED_INDEXES; rewrite map_size_empty; lia|done|by intros ? ? ?%lookup_empty_Some].
      - injection Hnew as <-.
        split; cbn; [unfold MAX_CACHED_INDEXES; rewrite map_size_empty; lia|done|by intros ? ? ?%lookup_empty_Some]. }
    clear Hnew. remember (t0, m0) as a eqn:Ea. remember (t, m) as b eqn:Eb. clear Hnow m'.
    revert t0 m0 Ea H0. induction Hrun as [|a [t1 m1] b Hs _ IH]; intros t0 m0 -> H0; [by injection Eb as -> ->|].
    eapply IH; [done|done|]. by eapply im_step_ok. }
  destruct (cacheIndex_effect t now later id k tree type m Hok Hnow) as (kept & Hc & _ & _ & _ & Hk).
  split; [apply Hok|]. split; [unfold m'; by rewrite Hc, lookup_insert_eq|].
  exists kept. split; [|done]. intros i Hi. unfold m'. by rewrite Hc, lookup_insert_ne.
Qed.

(** ** Restart *)

Lemma metadata_fits_name name id : fits 32 id →
  metadata_fits (mkIndexMetadata id name 0 "" [] IndexType.BTREE false false 0 0).
Proof. intros Hid. unfold metadata_fits, fits, fits_signed in *. cbn. split_and!; try done; lia. Qed.

Definition indexes_json m : Json :=
  JArray ((λ kv : string * Z, json_metadata (getIndexMetadata kv.2 m)) <$> map_to_list (name_to_id m)).

(** A manager that starts from the files of one that was destroyed has the same names with
    the same ids, when the library reads back what it writes, the ids have 32 bits and no two names
    share one.  Nothing else comes back: no tree is open, the listing for any table is empty, and a
    rebuild of any index looks for the table with id 0. *)
Theorem index_restart m :
  can_open indexes_file = true → json_parse (json_dump (indexes_json m)) = Some (indexes_json m) →
  distinct_ids (name_to_id m) → map_Forall (λ _ id, fits 32 id) (name_to_id m) →
  ∃ m', IndexManager_new json_parse (im_files (IndexManager_destroy json_dump can_open m)) = Some m' ∧
    name_to_id m' = name_to_id m ∧ getCacheSize m' = 0%nat ∧
    (∀ name id, name_to_id m !! name = Some id → getIndexMetadata id m' ∈ im_listIndexes m' ∧
       getIndexMetadata id m' = mkIndexMetadata id name 0 "" [] IndexType.BTREE false false 0 0) ∧
    (∀ table, table ≠ ""%string → listIndexes_of table m' = []) ∧
    (∀ id c, rw_mutex c = FREE → table_id_map c !! 0 = None → rebuildIndex id m' c = Some (c, StatusCode.NOT_FOUND)).
Proof.
  intros Ho Hj Hd Hf. exists (mkIndexManager ∅ (name_to_id m) (im_files (IndexManager_destroy json_dump can_open m))).
  split_and!.
  - unfold IndexManager_new, IndexManager_destroy, write_file. rewrite Ho.
    cbn [im_files im_clearCache set_index_cache]. rewrite lookup_insert_eq. fold (indexes_json m).
    rewrite Hj. cbn [mbind option_bind elements_of indexes_json].
    assert (Forall (λ kv, getIndexMetadata kv.2 m = mkIndexMetadata kv.2 kv.1 0 "" [] IndexType.BTREE false false 0 0
                          ∧ fits 32 kv.2) (map_to_list (name_to_id m))) as Hall.
    { apply Forall_forall. intros [n i] Hin%elem_of_map_to_list. split; [by apply getIndexMetadata_known|by eapply Hf]. }
    rewrite load_names_fold.
    + rewrite foldl_names; [done|]. eapply Forall_impl; [exact Hall|]. by intros kv [-> _].
    + eapply Forall_impl; [exact Hall|]. intros kv [-> ?]. by apply metadata_fits_name.
  - done.
  - unfold getCacheSize. cbn. apply map_size_empty.
  - intros name id Hn. split; [|by apply getIndexMetadata_known].
    unfold im_listIndexes. apply (list_elem_of_fmap_2 (λ kv : string * Z, getIndexMetadata kv.2 _) _ (name, id)).
    by apply elem_of_map_to_list.
  - intros table Ht. unfold listIndexes_of, im_listIndexes. generalize (map_to_list (name_to_id (mkIndexManager ∅ (name_to_id m)
      (im_files (IndexManager_destroy json_dump can_open m))))) as l. induction l as [|kv l IH]; [done|].
    rewrite fmap_cons, filter_cons_False; [exact IH|]. rewrite (proj2 (getIndexMetadata_table _ _)). congruence.
  - intros id c Hl H0. unfold rebuildIndex. rewrite (proj1 (getIndexMetadata_table _ _)).
    unfold getTableById. rewrite locked_free, bind_get by done. cbn [table_id_map set_rw_mutex].
    rewrite H0. destruct c. cbn in *. by subst.
Qed.

(** ** The index with id 0 *)

(** The tree of index 0 is never evicted: while it is the least recently used one, nothing is. *)
Theorem zero_never_evicted now m e :
  index_cache m !! 0 = Some e → last_used e < now →
  (∀ id e', index_cache m !! id = Some e' → id ≠ 0 → last_used e < last_used e') →
  evictIndex now m = m ∧
  ∀ later id k (tree : Tree k) type, index_cache m !! id = None → (MAX_CACHED_INDEXES ≤ size (index_cache m))%nat →
    size (index_cache (cacheIndex now later id k tree type m)) = S (size (index_cache m)).
Proof.
  intros He Hn Hmin.
  assert (evictIndex now m = m) as Hev.
  { unfold evictIndex, oldest_index.
    destruct (oldest_fold (map_to_list (index_cache m)) (0, now)) as (Hin & _ & Hall).
    rewrite decide_False; [done|]. intros Hr. destruct Hin as [Hr0|(e' & He'%elem_of_map_to_list & Hl & _)].
    { by rewrite Hr0 in Hr. }
    rewrite Forall_forall in Hall. apply elem_of_map_to_list in He. specialize (Hall _ He).
    specialize (Hmin _ _ He' Hr). cbn in Hall. lia. }
  split; [done|]. intros later id k tree type Hid Hfull. unfold cacheIndex. rewrite decide_True by done. rewrite Hev. cbn.
  by apply map_size_insert_None.
Qed.

End Proofs.

(** ** Concrete runs *)

#[local] Instance store0 : PageStore FileManager := FileManager_store env0.
(** The data of a page replaced as a whole, and no trees of strings. *)
#[local] Instance trees0 : IndexTrees FileManager :=
  pool_trees pdata (λ bs pg, mkPage (header pg) bs) 8 Empty_set (λ _ _ _, None) (λ t _ _ _, match t with end).

Definition tree0 : Tree INT32 := mkTreeOf 7 0 IndexConfig_default IndexStats_zero.
(** A new manager, and one with two names and a tree. *)
Definition manager0 : IndexManager FileManager := mkIndexManager ∅ ∅ ∅.
Definition manager1 : IndexManager FileManager :=
  mkIndexManager {[ 7 := mkIndexEntry INT32 tree0 IndexType.BTREE 5 ]} {[ "a"%string := 7; "b"%string := 8 ]} ∅.

Lemma index_cache_spec_witness :
  index_cache (cacheIndex 2 3 7 INT32 tree0 IndexType.BTREE manager0) !! 7 =
  Some (mkIndexEntry INT32 tree0 IndexType.BTREE 3).
Proof.
  apply (index_cache_spec (λ _, ""%string) (λ _, None) (λ _, true) 0 ∅ manager0 0 manager0 2 3 7 INT32 tree0 IndexType.BTREE);
    [reflexivity|apply rtc_refl|lia].
Defined.

Lemma index_restart_witness :
  ∃ m', IndexManager_new (λ _, Some (indexes_json manager1))
          (im_files (IndexManager_destroy (λ _, "[]"%string) (λ _, true) manager1)) = Some m' ∧
    name_to_id m' = name_to_id manager1.
Proof.
  destruct (index_restart (λ _, "[]"%string) (λ _, Some (indexes_json manager1)) (λ _, true) manager1)
    as (m' & H1 & H2 & _); [reflexivity..| | |exists m'; by split].
  - intros a b id Ha Hb. cbn in *. apply lookup_insert_Some in Ha as [[<- <-]|[? Ha]].
    + apply lookup_insert_Some in Hb as [[<- _]|[_ Hb]]; [done|]. by apply lookup_singleton_Some in Hb as [_ ?].
    + apply lookup_singleton_Some in Ha as [<- <-]. apply lookup_insert_Some in Hb as [[_ ?]|[_ Hb]]; [done|].
      by apply lookup_singleton_Some in Hb as [<- _].
  - intros n id Hn. cbn in Hn. unfold fits. apply lookup_insert_Some in Hn as [[_ <-]|[_ Hn]]; [lia|].
    apply lookup_singleton_Some in Hn as [_ <-]. lia.
Defined.
