(* ===== verification/Statistics.v ===== *)
(** * Statistics: the statistics of tables (src/metadata/statistics.h, statistics.cpp)

    Sizes are [size_t].  The catalog is an argument and a result of the calls that read it.
    [std::sort], the numbers that the random generator draws, the clocks, and the printing and
    parsing of the library of JSON are parameters.  A [std::set<Value>] is the list of its
    elements, no two of which are equivalent for [operator<].  The copies of
    [ColumnStatistics], which do not compile because of its [unique_ptr], are modelled as they
    are meant.  No call takes the mutex of the manager twice: it is left out.  [None] is undefined
    behaviour or, where it is said, an exception. *)

From stdpp Require Import gmap strings.
From Stdlib Require Import SpecFloat.
From S2P Require Import Prelude CxxString Types Doubles Json Record Page AST Catalog.

Open Scope Z_scope.

(** ** Histograms *)

Record Bucket := mkBucket {
  bk_min : Value;
  bk_max : Value;
  bk_count : nat;
  distinct_ratio : double
}.

Record Histogram := mkHistogram {
  hg_column_name : string;
  buckets : list Bucket;
  total_count : nat;
  distinct_count : nat;
  hg_min_value : Value;
  hg_max_value : Value
}.
Definition Histogram_new : Histogram := mkHistogram "" [] 0 0 Value_null Value_null.

Definition hist_estimateSelectivity (condition : option ASTNode) (h : Histogram) : double := decimal 1 10.

(** The loop over the buckets. *)
Fixpoint percentile_loop (target : Z) (cumulative : Z) (bs : list Bucket) : option Value :=
  match bs with
  | [] => None
  | b :: bs' =>
      let cumulative := wrap 64 (cumulative + Z.of_nat (bk_count b)) in
      if target <=? cumulative then Some (bk_max b) else percentile_loop target cumulative bs'
  end.

(** [None] is the conversion of a number that [size_t] does not hold. *)
Definition getPercentile (p : double) (h : Histogram) : option Value :=
  match last (buckets h) with
  | None => Some Value_null
  | Some back =>
      if SFltb p dzero || SFltb (double_of_int 1) p then Some Value_null
      else
        target ← to_size (dmul (double_of_int (Z.of_nat (total_count h))) p);
        Some (default (bk_max back) (percentile_loop target 0 (buckets h)))
  end.

(** ** Statistics of columns and tables *)

Record ColumnStatistics := mkColumnStatistics {
  cs_column_name : string;
  cs_type : DataType;
  distinct_values : nat;
  null_count : nat;
  cs_min_value : Value;
  cs_max_value : Value;
  avg_length : double;
  correlations : gmap string double;
  histogram : option Histogram
}.
(** A new object with its name and type. *)
Definition ColumnStatistics_new (name : string) (type : DataType) : ColumnStatistics :=
  mkColumnStatistics name type 0 0 Value_null Value_null dzero ∅ None.

Record TableIndexStats := mkTableIndexStats {
  tis_index_name : string;
  distinct_keys : Z;
  leaf_pages : Z;
  tis_height : Z
}.

Record TableStatistics := mkTableStatistics {
  tst_table_name : string;
  tst_table_id : Z;
  tst_row_count : Z;
  page_count : Z;
  avg_row_size : Z;
  tst_columns : gmap string ColumnStatistics;
  tst_indexes : gmap string TableIndexStats;
  last_analyzed : Z;
  analyze_count : Z
}.
(** [table_id] is not initialised; the clock starts at its epoch. *)
Definition TableStatistics_new (name : string) (id : Z) : TableStatistics :=
  mkTableStatistics name id 0 0 0 ∅ ∅ 0 0.
Definition set_tst_columns (cols : gmap string ColumnStatistics) (t : TableStatistics) : TableStatistics :=
  mkTableStatistics (tst_table_name t) (tst_table_id t) (tst_row_count t) (page_count t) (avg_row_size t)
    cols (tst_indexes t) (last_analyzed t) (analyze_count t).
Definition set_row_count (n : Z) (t : TableStatistics) : TableStatistics :=
  mkTableStatistics (tst_table_name t) (tst_table_id t) n (page_count t) (avg_row_size t)
    (tst_columns t) (tst_indexes t) (last_analyzed t) (analyze_count t).
Definition set_page_count (n : Z) (t : TableStatistics) : TableStatistics :=
  mkTableStatistics (tst_table_name t) (tst_table_id t) (tst_row_count t) n (avg_row_size t)
    (tst_columns t) (tst_indexes t) (last_analyzed t) (analyze_count t).

(** [std::set<Value>::insert] *)
Definition equivalent (a b : Value) : bool := negb (value_lt a b) && negb (value_lt b a).
Definition set_insert (s : list Value) (v : Value) : list Value :=
  if existsb (equivalent v) s then s else v :: s.
Definition distinct_size (vs : list Value) : nat := length (foldl set_insert [] vs).

(** [std::first_minimum] and [std::first_maximum]: the first one. *)
Definition before (a b : Value) : bool := compareValuesOrdered a b <? 0.
Definition first_minimum (v : Value) (vs : list Value) : Value :=
  foldl (λ best x, if before x best then x else best) v vs.
Definition first_maximum (v : Value) (vs : list Value) : Value :=
  foldl (λ best x, if before best x then x else best) v vs.

(** What is counted as null. *)
Definition counts_as_null (v : Value) : bool :=
  bool_decide (vtype v = DataType.INTEGER) && (int_val v =? 0) && bool_decide (str_val v = ""%string).

(** The body of the loop over the columns: [values] are those of the first column. *)
Definition update_column (values : list Value) (s : ColumnStatistics) : ColumnStatistics :=
  let extremes := match values with
                  | [] => (cs_min_value s, cs_max_value s)
                  | v :: vs => (first_minimum v vs, first_maximum v vs)
                  end in
  let avg := if decide (cs_type s = DataType.VARCHAR) then
               ddiv (double_of_int (foldl (λ n v, wrap 64 (n + Z.of_nat (String.length (str_val v)))) 0 values))
                 (double_of_int (Z.of_nat (length values)))
             else avg_length s in
  mkColumnStatistics (cs_column_name s) (cs_type s) (distinct_size values)
    (length (filter (λ v, counts_as_null v) values)) extremes.1 extremes.2 avg (correlations s)
    (Some Histogram_new).

Definition tst_update (now : Z) (sample : list (list Value)) (t : TableStatistics) : TableStatistics :=
  match sample with
  | [] => t
  | _ =>
      let values := omap head sample in
      mkTableStatistics (tst_table_name t) (tst_table_id t) (Z.of_nat (length sample)) (page_count t)
        (avg_row_size t) (update_column values <$> tst_columns t) (tst_indexes t) now
        (wrap 64 (analyze_count t + 1))
  end.

Definition tst_estimateSelectivity (column : string) (value : Value) (op : Operator) (t : TableStatistics)
  : double :=
  match tst_columns t !! column with
  | None => decimal 5 10
  | Some stats =>
      match op with
      | Operator.EQ =>
          if decide (0 < distinct_values stats)%nat
          then ddiv (double_of_int 1) (double_of_int (Z.of_nat (distinct_values stats)))
          else decimal 1 10
      | Operator.LT | Operator.LE =>
          match histogram stats with
          | Some h => hist_estimateSelectivity None h
          | None => decimal 3 10
          end
      | Operator.GT | Operator.GE => decimal 3 10
      | _ => decimal 5 10
      end
  end.

Definition estimateJoinSelectivity (col1 col2 : string) (other t : TableStatistics) : double :=
  match tst_columns t !! col1, tst_columns other !! col2 with
  | Some s1, Some s2 =>
      if decide (distinct_values s1 = 0%nat ∨ distinct_values s2 = 0%nat) then dzero
      else
        let selectivity :=
          ddiv (double_of_int 1) (double_of_int (Z.of_nat (distinct_values s1 `max` distinct_values s2))) in
        match correlations s1 !! col2 with
        | Some c => dmul selectivity (dadd (double_of_int 1) c)
        | None => selectivity
        end
  | _, _ => decimal 1 10
  end.

Definition estimateCardinality (column : string) (t : TableStatistics) : Z :=
  match tst_columns t !! column with
  | None => tst_row_count t
  | Some s => Z.of_nat (distinct_values s)
  end.

(** No values are sampled, whether the column exists or not. *)
Definition sampleColumn (column : string) (sample_size : Z) (t : TableStatistics) : list Value :=
  match tst_columns t !! column with
  | None => []
  | Some _ => []
  end.

(** ** Histograms of samples *)

Section Sorting.
(** [std::sort] *)
Variable sort : ∀ A, (A → A → bool) → list A → list A.

(** The loop that fills the buckets, from position [pos]. *)
Fixpoint bucket_loop (fuel : nat) (sorted : list Value) (bucket_size pos : nat) : option (list Bucket) :=
  if decide (pos < length sorted)%nat then
    match fuel with
    | O => None
    | S fuel' =>
        let end_ := ((pos + bucket_size) `min` length sorted)%nat in
        min ← sorted !! pos;
        max ← sorted !! (end_ - 1)%nat;
        let count := (end_ - pos)%nat in
        let ratio := ddiv (double_of_int (Z.of_nat (distinct_size (take count (drop pos sorted)))))
                       (double_of_int (Z.of_nat count)) in
        bs ← bucket_loop fuel' sorted bucket_size end_;
        Some (mkBucket min max count ratio :: bs)
    end
  else Some [].

(** [nullptr] inside; the division by zero buckets is undefined. *)
Definition buildHistogram (sample : list Value) (column : string) (num_buckets : nat) : option (option Histogram) :=
  match sample with
  | [] => Some None
  | _ =>
      let sorted := sort Value before sample in
      front ← head sorted;
      back ← last sorted;
      if decide (num_buckets = 0%nat) then None
      else
        let bucket_size := (length sample `div` num_buckets)%nat in
        let bucket_size := if decide (bucket_size = 0)%nat then 1%nat else bucket_size in
        bs ← bucket_loop (length sorted) sorted bucket_size 0;
        Some (Some (mkHistogram column bs (length sample) (distinct_size sorted) front back))
  end.

(** ** Correlation *)

(** The rank of each position: [ranks[idx[i]] = i + 1]. *)
Definition ranks (col : list Value) : list double :=
  let idx := sort nat (λ a b, match col !! a, col !! b with Some x, Some y => before x y | _, _ => false end)
               (seq 0 (length col)) in
  foldl (λ r ix, <[ix.2 := double_of_int (Z.of_nat ix.1 + 1)]> r) (replicate (length col) dzero) (imap pair idx).

(** [cov], [var1] and [var2] after one position. *)
Definition correlation_step (mean : double) (acc : double * double * double) (r : double * double)
  : double * double * double :=
  let diff1 := dsub r.1 mean in
  let diff2 := dsub r.2 mean in
  (dadd acc.1.1 (dmul diff1 diff2), dadd acc.1.2 (dmul diff1 diff1), dadd acc.2 (dmul diff2 diff2)).

Definition calculateCorrelation (col1 col2 : list Value) : double :=
  if decide (length col1 ≠ length col2 ∨ col1 = []) then dzero
  else
    let mean := ddiv (double_of_int (Z.of_nat (length col1) + 1)) (double_of_int 2) in
    let sums := foldl (correlation_step mean) (dzero, dzero, dzero) (zip (ranks col1) (ranks col2)) in
    if SFeqb sums.1.2 dzero || SFeqb sums.2 dzero then dzero
    else ddiv sums.1.1 (SFsqrt 53 1024 (dmul sums.1.2 sums.2)).

End Sorting.

(** ** The manager *)

Record ManagerStats := mkManagerStats {
  tables_analyzed : Z;
  total_samples : Z;
  avg_analyze_time_ms : double
}.

Record StatisticsManager := mkStatisticsManager {
  statistics : gmap string TableStatistics;
  auto_analyze : bool;
  analyze_threshold : Z;
  last_auto_analyze : Z;
  sm_stats : ManagerStats
}.
Definition set_statistics (s : gmap string TableStatistics) (m : StatisticsManager) : StatisticsManager :=
  mkStatisticsManager s (auto_analyze m) (analyze_threshold m) (last_auto_analyze m) (sm_stats m).
Definition setAutoAnalyze (enabled : bool) (m : StatisticsManager) : StatisticsManager :=
  mkStatisticsManager (statistics m) enabled (analyze_threshold m) (last_auto_analyze m) (sm_stats m).
Definition setAnalyzeThreshold (rows : Z) (m : StatisticsManager) : StatisticsManager :=
  mkStatisticsManager (statistics m) (auto_analyze m) rows (last_auto_analyze m) (sm_stats m).
Definition sm_getStats (m : StatisticsManager) : ManagerStats := sm_stats m.

(** *** Samples *)

Section Sample.
(** What [dis(gen)] draws, one after the other. *)
Variable random : nat → Z.

Fixpoint sample_row (i : nat) (cols : list ColumnSchema) (drawn : nat) : list Value * nat :=
  match cols with
  | [] => ([], drawn)
  | c :: cols' =>
      let vd := match col_type c with
                | DataType.INTEGER => (Value_int (random drawn), S drawn)
                | DataType.VARCHAR => (Value_string ("value_" +:+ to_string (Z.of_nat i)), drawn)
                | _ => (Value_bool (Z.rem (random drawn) 2 =? 0), S drawn)
                end in
      let r := sample_row i cols' vd.2 in
      (vd.1 :: r.1, r.2)
  end.

Fixpoint sample_rows (rest i : nat) (cols : list ColumnSchema) (drawn : nat) : list (list Value) :=
  match rest with
  | O => []
  | S rest' => let r := sample_row i cols drawn in r.1 :: sample_rows rest' (S i) cols r.2
  end.

(** The catalog with the result; [None] inside is an exception. *)
Definition collectSample (table_name : string) (sample_size : nat) : M (list (list Value)) :=
  schema ← getTable table_name;
  match schema with
  | None => mret []
  | Some schema => mret (sample_rows sample_size 0 (columns schema) 0)
  end.

(** The statistics of a table before its sample is looked at. *)
Definition initial_stats (table_name : string) (schema : TableSchema) : TableStatistics :=
  set_tst_columns
    (foldl (λ cols col, <[col_name col := ColumnStatistics_new (col_name col) (col_type col)]> cols) ∅
       (columns schema))
    (TableStatistics_new table_name (ts_id schema)).

(** [now] for the sample, [elapsed] milliseconds for the call. *)
Definition analyzeTable (now : Z) (elapsed : double) (table_name : string) (sample_size : nat)
    (m : StatisticsManager) : M (StatisticsManager * StatusCode) :=
  schema ← getTable table_name;
  match schema with
  | None => mret (m, StatusCode.NOT_FOUND)
  | Some schema =>
      sample ← collectSample table_name sample_size;
      let stats := tst_update now sample (initial_stats table_name schema) in
      let stats := set_page_count
        (wrap 64 (wrap 64 (tst_row_count stats * avg_row_size stats) / PAGE_SIZE + 1)) stats in
      let n := wrap 64 (tables_analyzed (sm_stats m) + 1) in
      let total := wrap 64 (total_samples (sm_stats m) + Z.of_nat (length sample)) in
      let avg := ddiv (dadd (dmul (avg_analyze_time_ms (sm_stats m)) (double_of_int (wrap 64 (n - 1)))) elapsed)
                   (double_of_int n) in
      mret (mkStatisticsManager (<[table_name := stats]> (statistics m)) (auto_analyze m) (analyze_threshold m)
              (last_auto_analyze m) (mkManagerStats n total avg), StatusCode.OK)
  end.

Definition DEFAULT_SAMPLE : nat := Z.to_nat 10000.

Fixpoint analyze_all (now : Z) (elapsed : double) (names : list string) (m : StatisticsManager)
  : M StatisticsManager :=
  match names with
  | [] => mret m
  | name :: names' =>
      r ← analyzeTable now elapsed name DEFAULT_SAMPLE m;
      analyze_all now elapsed names' r.1
  end.
Definition analyzeDatabase (now : Z) (elapsed : double) (m : StatisticsManager)
  : M (StatisticsManager * StatusCode) :=
  names ← listTables;
  m ← analyze_all now elapsed names m;
  mret (m, StatusCode.OK).

End Sample.

(** *** Queries and updates *)

Definition getTableStats (table_name : string) (m : StatisticsManager) : option TableStatistics :=
  statistics m !! table_name.
Definition getColumnStats (table_name column_name : string) (m : StatisticsManager) : option ColumnStatistics :=
  match statistics m !! table_name with
  | Some t => tst_columns t !! column_name
  | None => None
  end.

Definition estimateTableSize (table_name : string) (m : StatisticsManager) : double :=
  match getTableStats table_name m with
  | Some t => double_of_int (wrap 64 (page_count t * PAGE_SIZE))
  | None => double_of_int (10 * PAGE_SIZE)
  end.
Definition estimateRowCount (table_name : string) (m : StatisticsManager) : Z :=
  match getTableStats table_name m with
  | Some t => tst_row_count t
  | None => 1000
  end.

Definition updateAfterInsert (table_name : string) (row : list Value) (m : StatisticsManager)
  : StatisticsManager :=
  match statistics m !! table_name with
  | Some t => set_statistics (<[table_name := set_row_count (wrap 64 (tst_row_count t + 1)) t]> (statistics m)) m
  | None => m
  end.
Definition updateAfterDelete (table_name : string) (row : list Value) (m : StatisticsManager)
  : StatisticsManager :=
  match statistics m !! table_name with
  | Some t =>
      if 0 <? tst_row_count t
      then set_statistics (<[table_name := set_row_count (tst_row_count t - 1) t]> (statistics m)) m
      else m
  | None => m
  end.
Definition updateAfterUpdate (table_name : string) (old_row new_row : list Value) (m : StatisticsManager)
  : StatisticsManager := m.

(** Times are in nanoseconds; [duration_cast] truncates. *)
Definition needsAnalyze (now : Z) (table_name : string) (m : StatisticsManager) : bool :=
  match statistics m !! table_name with
  | None => true
  | Some t => 24 <? Z.quot (now - last_analyzed t) (3600 * 1000000000)
  end.
Definition expireOldStats (now : Z) (m : StatisticsManager) : StatisticsManager :=
  set_statistics
    (filter (λ kv, ¬ 30 < Z.quot (now - last_analyzed kv.2) (86400 * 1000000000)) (statistics m)) m.

(** *** Files *)

Definition json_column_stats (s : ColumnStatistics) : Json :=
  json_object
    [("type"%string, JNumber (type_code (cs_type s)));
     ("distinct_values"%string, JNumber (Z.of_nat (distinct_values s)));
     ("null_count"%string, JNumber (Z.of_nat (null_count s)));
     ("avg_length"%string, JDouble (avg_length s))].
Definition json_table_stats (t : TableStatistics) : Json :=
  json_object
    [("table_id"%string, JNumber (tst_table_id t)); ("row_count"%string, JNumber (tst_row_count t));
     ("page_count"%string, JNumber (page_count t)); ("avg_row_size"%string, JNumber (avg_row_size t));
     ("columns"%string, JObject (json_column_stats <$> tst_columns t))].
(** The value is null until a table is added. *)
Definition json_statistics (s : gmap string TableStatistics) : Json :=
  if decide (s = ∅) then JNull else JObject (json_table_stats <$> s).

(** [x = j[key]]: a missing member is null, whose conversion throws. *)
Definition json_get {A} (key : string) (f : Json → option A) (j : Json) : option A :=
  m ← as_object j; f (member key m).

Definition load_column_stats (name : string) (j : Json) : option ColumnStatistics :=
  type ← json_get "type" (as_signed 32) j;
  distinct ← json_get "distinct_values" (as_unsigned 64) j;
  nulls ← json_get "null_count" (as_unsigned 64) j;
  avg ← json_get "avg_length" as_double j;
  Some (mkColumnStatistics name (code_type type) (Z.to_nat distinct) (Z.to_nat nulls) Value_null Value_null avg ∅ None).

Definition load_table_stats (name : string) (j : Json) : option TableStatistics :=
  id ← json_get "table_id" (as_unsigned 32) j;
  rows ← json_get "row_count" (as_unsigned 64) j;
  pages ← json_get "page_count" (as_unsigned 64) j;
  size ← json_get "avg_row_size" (as_unsigned 64) j;
  cols ← json_get "columns" (λ j, map_values load_column_stats (items_of j)) j;
  Some (mkTableStatistics name id rows pages size cols ∅ 0 0).

(** [false] is an exception, which keeps what has been loaded. *)
Fixpoint load_items (items : list (string * Json)) (s : gmap string TableStatistics)
  : gmap string TableStatistics * bool :=
  match items with
  | [] => (s, true)
  | kv :: items' =>
      match load_table_stats kv.1 kv.2 with
      | Some t => load_items items' (<[kv.1 := t]> s)
      | None => (s, false)
      end
  end.

Section Files.
Variable json_dump : Json → string.
Variable json_parse : string → option Json.

(** [file] is the text of data/system/statistics.json. *)
Definition stats_load (file : option string) (m : StatisticsManager) : StatisticsManager * option StatusCode :=
  match file with
  | None => (m, Some StatusCode.NOT_FOUND)
  | Some text =>
      match json_parse text with
      | None => (m, None)
      | Some j =>
          let r := load_items (items_of j) (statistics m) in
          (set_statistics r.1 m, if r.2 then Some StatusCode.OK else None)
      end
  end.

(** The file after the call, if it [can_open]; a failure is not noticed. *)
Definition stats_save (can_open : bool) (file : option string) (m : StatisticsManager)
  : option string * StatusCode :=
  (if can_open then Some (json_dump (json_statistics (statistics m))) else file, StatusCode.OK).

(** The constructor and the destructor. *)
Definition StatisticsManager_new (now : Z) (file : option string) : option StatisticsManager :=
  let r := stats_load file (mkStatisticsManager ∅ true 10000 0 (mkManagerStats 0 0 dzero)) in
  match r.2 with
  | None => None
  | Some _ => Some (mkStatisticsManager (statistics r.1) true 10000 now (sm_stats r.1))
  end.
Definition StatisticsManager_destroy (can_open : bool) (file : option string) (m : StatisticsManager)
  : option string := (stats_save can_open file m).1.

End Files.
