(* ===== verification/StatisticsProofs.v ===== *)
(** * StatisticsProofs: properties of the statistics

    The buckets of a histogram cut the sorted sample into runs; a percentile has at least its
    share of the sample below it; what an analysis records; and what a restart keeps. *)

From stdpp Require Import gmap strings sorting.
From Stdlib Require Import SpecFloat.
From S2P Require Import Prelude CxxString Types Doubles Json Record Page AST Catalog.
From S2P Require Import CatalogProofs CatalogRoundtrip Statistics.

Open Scope Z_scope.

(** ** Buckets *)

(** The bucket of a run of the sorted sample. *)
Definition bucket_of (b : Bucket) (run : list Value) : Prop :=
  head run = Some (bk_min b) ∧ last run = Some (bk_max b) ∧ bk_count b = length run ∧
  distinct_ratio b = ddiv (double_of_int (Z.of_nat (distinct_size run))) (double_of_int (Z.of_nat (length run))).

Lemma last_take_lookup {A} (l : list A) n : (0 < n ≤ length l)%nat → last (take n l) = l !! (n - 1)%nat.
Proof.
  intros Hn. rewrite last_lookup, length_take, Nat.min_l by lia.
  replace (Init.Nat.pred n) with (n - 1)%nat by lia. apply lookup_take_lt. lia.
Qed.

(** The loop ends, and its buckets are those of runs of at most [bucket_size] values. *)
Lemma bucket_loop_spec fuel sorted size : ∀ pos,
  (0 < size)%nat → (length sorted - pos ≤ fuel)%nat →
  ∃ bs runs, bucket_loop fuel sorted size pos = Some bs ∧ concat runs = drop pos sorted ∧
    Forall2 bucket_of bs runs ∧
    (length bs * size < length sorted - pos + size)%nat.
Proof.
  induction fuel as [|fuel IH]; intros pos Hs Hf; cbn [bucket_loop].
  { rewrite decide_False by lia. exists [], []. rewrite drop_ge by lia. cbn. split_and!; [done..|constructor|lia]. }
  destruct (decide (pos < length sorted)%nat) as [Hp|Hp].
  2:{ exists [], []. rewrite drop_ge by lia. cbn. split_and!; [done..|constructor|lia]. }
  set (end_ := ((pos + size) `min` length sorted)%nat).
  destruct (lookup_lt_is_Some_2 sorted pos Hp) as [mn Hmn].
  destruct (lookup_lt_is_Some_2 sorted (end_ - 1)%nat ltac:(lia)) as [mx Hmx].
  destruct (IH end_ Hs ltac:(lia)) as (bs & runs & Hb & Hc & Hall & Hl).
  rewrite Hmn, Hmx, Hb. cbn [mbind option_bind].
  eexists _, (take (end_ - pos) (drop pos sorted) :: runs). split_and!; [done|..].
  - cbn [concat]. rewrite Hc. replace (drop end_ sorted) with (drop (end_ - pos) (drop pos sorted)).
    + apply take_drop.
    + rewrite drop_drop. f_equal. lia.
  - constructor; [|done].
    assert (length (take (end_ - pos) (drop pos sorted)) = (end_ - pos)%nat) as Hlen.
    { rewrite length_take, length_drop. lia. }
    unfold bucket_of. cbn [bk_min bk_max bk_count distinct_ratio]. rewrite Hlen. split_and!; [..|done|done].
    + rewrite head_lookup, lookup_take_lt by lia. by rewrite lookup_drop, Nat.add_0_r.
    + rewrite last_take_lookup by (rewrite length_drop; lia).
      rewrite lookup_drop. replace (pos + (end_ - pos - 1))%nat with (end_ - 1)%nat by lia. done.
  - cbn [length]. destruct (length bs); lia.
Qed.

(** ** Sorting *)

(** [lt] orders the values that satisfy [P] as [std::sort] asks. *)
Definition weak_order {A} (P : A → Prop) (lt : A → A → bool) : Prop :=
  (∀ a b, P a → P b → lt a b = true → lt b a = false) ∧
  (∀ a b c, P a → P b → P c → lt b a = false → lt c b = false → lt c a = false).

(** What [std::sort] promises. *)
Class SortLaws (sort : ∀ A, (A → A → bool) → list A → list A) : Prop := {
  sort_permutation A lt l : sort A lt l ≡ₚ l;
  sort_ordered A (lt : A → A → bool) (P : A → Prop) l :
    Forall P l → weak_order P lt → StronglySorted (λ a b, lt b a = false) (sort A lt l)
}.

(** The values of the sources, whose types are enumerators. *)
Definition value_ok (v : Value) : Prop := enumerator (vtype v).

Lemma before_false a b : before b a = false ↔ compareValuesOrdered a b ≤ 0.
Proof. unfold before. pose proof (compareValuesOrdered_antisym a b). rewrite Z.ltb_ge. lia. Qed.

Lemma before_weak : weak_order value_ok before.
Proof.
  split.
  - intros a b _ _. unfold before. pose proof (compareValuesOrdered_antisym a b). rewrite Z.ltb_lt, Z.ltb_ge. lia.
  - intros a b c Ha Hb _. rewrite !before_false. by apply compareValuesOrdered_trans.
Qed.

Lemma strongly_sorted_mono {A} (R R' : A → A → Prop) l :
  (∀ a b, R a b → R' a b) → StronglySorted R l → StronglySorted R' l.
Proof.
  intros HR. induction 1 as [|x l Hs IH Hx]; constructor; [done|]. eapply Forall_impl; [exact Hx|]. auto.
Qed.

Section Histograms.
Context (sort : ∀ A, (A → A → bool) → list A → list A) `{laws : !SortLaws sort}.

Lemma sort_values sample : Forall value_ok sample →
  StronglySorted (λ a b, compareValuesOrdered a b ≤ 0) (sort Value before sample).
Proof.
  intros Hs. eapply (strongly_sorted_mono (λ a b, before b a = false)).
  - intros a b. apply before_false.
  - eapply sort_ordered; [exact Hs|apply before_weak].
Qed.

Lemma sorted_head_last (l : list Value) a z :
  StronglySorted (λ a b, compareValuesOrdered a b ≤ 0) l → head l = Some a → last l = Some z →
  Forall (λ v, compareValuesOrdered a v ≤ 0 ∧ compareValuesOrdered v z ≤ 0) l.
Proof.
  assert (∀ v, compareValuesOrdered v v ≤ 0) as Hrefl.
  { intros v. pose proof (compareValuesOrdered_antisym v v). lia. }
  intros Hs Ha Hz. apply Forall_and. split.
  - destruct Hs as [|x l Hs Hx]; [done|]. injection Ha as ->. by constructor.
  - clear Ha a. induction Hs as [|x l Hs IH Hx]; [done|]. constructor.
    + destruct (decide (l = [])) as [->|Hne]; [by injection Hz as ->|].
      rewrite Forall_forall in Hx. apply Hx. apply last_Some_elem_of.
      destruct l as [|y l]; [done|]. by rewrite last_cons_cons in Hz.
    + destruct l as [|y l]; [constructor|]. apply IH. by rewrite last_cons_cons in Hz.
Qed.

(** The size of a bucket, and how many there are. *)
Lemma bucket_count n nb len size : (0 < nb)%nat →
  size = (if decide (n `div` nb = 0)%nat then 1%nat else n `div` nb)%nat →
  (len * size < n + size)%nat → (len ≤ 2 * nb - 1)%nat.
Proof.
  intros Hnb -> Hl. pose proof (Nat.div_mod_eq n nb) as Hd. pose proof (Nat.mod_upper_bound n nb ltac:(lia)).
  set (q := (n `div` nb)%nat) in *. destruct (decide (q = 0%nat)) as [Hq|Hq].
  - rewrite Hq in Hd. lia.
  - nia.
Qed.

(** The loop of the percentile stops at the end of a run, with enough values before it. *)
Lemma percentile_loop_spec target bs runs : Forall2 bucket_of bs runs → ∀ cum,
  0 ≤ cum → cum + Z.of_nat (length (concat runs)) < 2 ^ 64 →
  match percentile_loop target cum bs with
  | Some v => ∃ front rest, concat runs = front ++ rest ∧ last front = Some v ∧ target ≤ cum + Z.of_nat (length front)
  | None => bs = [] ∨ cum + Z.of_nat (length (concat runs)) < target
  end.
Proof.
  induction 1 as [|b run bs runs Hb Hall IH]; intros cum Hc Hn; cbn [percentile_loop]; [by left|].
  destruct Hb as (_ & Hlast & Hcount & _). cbn [concat] in *. rewrite length_app in *.
  rewrite Hcount, wrap_small by (unfold fits; lia). destruct (Z.leb_spec target (cum + Z.of_nat (length run))).
  - exists run, (concat runs). split_and!; [done..|lia].
  - specialize (IH (cum + Z.of_nat (length run)) ltac:(lia) ltac:(lia)).
    destruct (percentile_loop _ _ bs) as [v|].
    + destruct IH as (front & rest & -> & Hl & Ht). exists (run ++ front), rest. rewrite app_assoc, length_app, last_app, Hl.
      split_and!; [done..|lia].
    + right. destruct IH as [->|?]; [|lia]. inversion Hall; subst. cbn in *. lia.
Qed.

Lemma filter_keeps_all {A} (P : A → Prop) `{∀ x, Decision (P x)} l : Forall P l → filter P l = l.
Proof. induction 1 as [|x l Hx _ IH]; [done|]. by rewrite filter_cons_True, IH. Qed.

(** The values up to the end of a run. *)
Lemma sorted_front (l front rest : list Value) v :
  StronglySorted (λ a b, compareValuesOrdered a b ≤ 0) l → l = front ++ rest → last front = Some v →
  v ∈ l ∧ (length front ≤ length (filter (λ x, compareValuesOrdered x v ≤ 0)%Z l))%nat.
Proof.
  intros Hs -> Hv. split; [apply elem_of_app; left; by apply last_Some_elem_of|].
  rewrite filter_app, length_app.
  enough (filter (λ x, compareValuesOrdered x v ≤ 0) front = front) as -> by lia.
  apply filter_keeps_all. apply StronglySorted_app_1_l in Hs. destruct front as [|a front]; [done|].
  eapply Forall_impl; [by eapply (sorted_head_last (a :: front))|]. by intros x [_ ?].
Qed.

Lemma sum_counts bs runs : Forall2 bucket_of bs runs → sum_list (bk_count <$> bs) = length (concat runs).
Proof.
  induction 1 as [|b run bs runs (_ & _ & Hc & _) _ IH]; [done|].
  rewrite fmap_cons. cbn [concat sum_list]. rewrite length_app, IH. by rewrite Hc.
Qed.

Lemma last_bucket bs runs b : Forall2 bucket_of bs runs → last bs = Some b → last (concat runs) = Some (bk_max b).
Proof.
  induction 1 as [|b' run bs runs (_ & Hl & _) Hall IH]; [done|]. cbn [concat]. rewrite last_app.
  destruct Hall as [|b2 run2 bs runs Hb2 Hall]; [by intros [= ->]|].
  rewrite last_cons_cons. intros Hb. by rewrite IH.
Qed.

(** (C30) The histogram of a sample.  It is built for any sample that is not empty and any positive number of buckets.
    Its buckets are the consecutive runs of the sorted sample, each with its first and last value, its size and its
    share of distinct values; every value is in one bucket and between the two extremes.  There can be more buckets than asked for,
    but fewer than twice as many.  A percentile is a value of the sample that is not below at least that share of the sample. *)
Theorem histogram_spec sample column nb :
  sample ≠ [] → (0 < nb)%nat → Forall value_ok sample → Z.of_nat (length sample) < 2 ^ 64 →
  ∃ h runs, buildHistogram sort sample column nb = Some (Some h) ∧
    concat runs ≡ₚ sample ∧ StronglySorted (λ a b, compareValuesOrdered a b ≤ 0) (concat runs) ∧
    Forall2 bucket_of (buckets h) runs ∧
    total_count h = length sample ∧ sum_list (bk_count <$> buckets h) = total_count h ∧
    (length (buckets h) ≤ 2 * nb - 1)%nat ∧
    Forall (λ v, compareValuesOrdered (hg_min_value h) v ≤ 0 ∧ compareValuesOrdered v (hg_max_value h) ≤ 0) sample ∧
    ∀ p t, SFltb p dzero = false → SFltb (double_of_int 1) p = false →
      to_size (dmul (double_of_int (Z.of_nat (length sample))) p) = Some t →
      ∃ v, getPercentile p h = Some v ∧ v ∈ sample ∧
        Z.min t (Z.of_nat (length sample)) ≤
        Z.of_nat (length (filter (λ x, compareValuesOrdered x v ≤ 0) sample)).
Proof.
  intros Hne Hnb Hok Hn. pose proof (sort_values sample Hok) as Hs.
  pose proof (sort_permutation Value before sample) as Hp. pose proof (Permutation_length Hp) as Hlp.
  unfold buildHistogram. destruct sample as [|s0 sample0] eqn:Esample; [done|]. rewrite <- Esample in *. clear s0 sample0 Esample.
  set (l := sort Value before sample) in *. clearbody l.
  destruct (head l) as [front|] eqn:Hf; [|apply head_None in Hf; subst l; by apply Permutation_nil in Hp].
  destruct (last l) as [back|] eqn:Hb; [|apply last_None in Hb; subst l; by apply Permutation_nil in Hp].
  cbn [mbind option_bind]. rewrite decide_False by lia.
  set (size := if decide _ then 1%nat else _).
  destruct (bucket_loop_spec (length l) l size 0) as (bs & runs & -> & Hc & Hall & Hl); [|lia|].
  { unfold size. case_decide; lia. }
  rewrite drop_0 in Hc. cbn [mbind option_bind]. eexists _, runs. split; [done|]. cbn [buckets total_count hg_min_value hg_max_value].
  rewrite Hc. rewrite (sum_counts _ _ Hall), Hc. split_and!; try done.
  - apply (bucket_count (length l) nb _ size); [done|unfold size; by rewrite Hlp|lia].
  - rewrite <- Hp. by apply sorted_head_last.
  - intros p t Hp0 Hp1 Ht. unfold getPercentile. cbn [buckets total_count].
    assert (length (concat runs) = length sample) as Hlen by (by rewrite Hc, Hlp).
    destruct (last bs) as [bk|] eqn:Hbk.
    2:{ apply last_None in Hbk. subst bs. inversion Hall; subst. cbn in Hlen. by destruct sample. }
    rewrite Hp0, Hp1, Ht. cbn [orb mbind option_bind].
    pose proof (percentile_loop_spec t bs runs Hall 0 ltac:(lia) ltac:(lia)) as Hloop.
    destruct (percentile_loop t 0 bs) as [v|].
    + destruct Hloop as (fr & rest & E & Hv & Hle). exists v. split; [done|].
      destruct (sorted_front l fr rest v Hs) as [Hin Hcount]; [congruence|done|].
      split; [by rewrite <- Hp|]. rewrite <- (Permutation_length (filter_Permutation _ _ _ Hp)). lia.
    + exists back. split.
      * cbn. f_equal. pose proof (last_bucket _ _ _ Hall Hbk) as E. rewrite Hc, Hb in E. by injection E.
      * destruct (sorted_front l l [] back Hs) as [Hin Hcount]; [by rewrite app_nil_r|done|].
        split; [by rewrite <- Hp|]. rewrite <- (Permutation_length (filter_Permutation _ _ _ Hp)). lia.
Qed.

End Histograms.

(** ** A sort *)

Fixpoint insert_sorted {A} (lt : A → A → bool) (x : A) (l : list A) : list A :=
  match l with
  | [] => [x]
  | y :: l' => if lt x y then x :: y :: l' else y :: insert_sorted lt x l'
  end.
Definition insertion_sort (A : Type) (lt : A → A → bool) (l : list A) : list A := foldr (insert_sorted lt) [] l.

Lemma insert_sorted_perm {A} (lt : A → A → bool) x l : insert_sorted lt x l ≡ₚ x :: l.
Proof.
  induction l as [|y l IH]; [done|]. cbn. destruct (lt x y); [done|]. rewrite IH. by apply Permutation_swap.
Qed.

Lemma insert_sorted_ordered {A} (lt : A → A → bool) (P : A → Prop) x l :
  weak_order P lt → P x → Forall P l →
  StronglySorted (λ a b, lt b a = false) l → StronglySorted (λ a b, lt b a = false) (insert_sorted lt x l).
Proof.
  intros [Hasym Htrans] Hx Hl. induction 1 as [|y l Hs IH Hy]; cbn; [repeat constructor|].
  apply Forall_cons in Hl as [Py Hl]. specialize (IH Hl). destruct (lt x y) eqn:Hxy.
  - constructor; [by constructor|]. constructor; [by apply Hasym|]. rewrite Forall_forall in *.
    intros z Hz. eapply (Htrans x y z); auto.
  - constructor; [done|]. rewrite insert_sorted_perm. by constructor.
Qed.

#[export] Instance insertion_sort_laws : SortLaws insertion_sort.
Proof.
  split.
  - intros A lt l. induction l as [|x l IH]; [done|]. cbn. by rewrite insert_sorted_perm, IH.
  - intros A lt P l Hl Hw. induction Hl as [|x l Hx Hl IH]; [constructor|]. cbn.
    eapply insert_sorted_ordered; [exact Hw|done| |done].
    clear -Hl. induction Hl as [|y l Hy Hl IH]; [constructor|]. cbn. rewrite insert_sorted_perm. by constructor.
Qed.

(** ** Analysis *)

Lemma sample_rows_length random rest : ∀ i cols drawn, length (sample_rows random rest i cols drawn) = rest.
Proof. induction rest as [|rest IH]; intros i cols drawn; [done|]. cbn. by rewrite IH. Qed.

(** The columns of a table that is analysed, by name. *)
Lemma initial_columns_lookup cols name : ∀ m0 : gmap string ColumnStatistics,
  is_Some (foldl (λ m col, <[col_name col := ColumnStatistics_new (col_name col) (col_type col)]> m) m0 cols !! name) ↔
  is_Some (m0 !! name) ∨ ∃ col, col ∈ cols ∧ col_name col = name.
Proof.
  induction cols as [|c cols IH]; intros m0; cbn [foldl].
  - split; [by left|]. intros [?|(c & Hc & _)]; [done|by apply not_elem_of_nil in Hc].
  - rewrite IH, lookup_insert_is_Some. setoid_rewrite elem_of_cons. split.
    + intros [[<-|[_ ?]]|(col & ? & ?)]; [right; exists c; auto|by left|right; exists col; auto].
    + intros [?|(col & [->|?] & <-)]; [|by left; left|right; eauto].
      destruct (decide (col_name c = name)); [left; by left|left; by right].
Qed.

(** The names and types are those of the columns; nothing else is known yet. *)
Lemma initial_columns_new cols name s : ∀ m0 : gmap string ColumnStatistics,
  (m0 !! name = Some s → avg_length s = dzero ∧ correlations s = ∅) →
  foldl (λ m col, <[col_name col := ColumnStatistics_new (col_name col) (col_type col)]> m) m0 cols !! name = Some s →
  avg_length s = dzero ∧ correlations s = ∅.
Proof.
  induction cols as [|c cols IH]; intros m0 H0; cbn [foldl]; [done|]. apply IH.
  intros [[_ <-]|[_ ?]]%lookup_insert_Some; auto.
Qed.

Lemma getTable_result name c : rw_mutex c = FREE →
  ∃ c', getTable name c = Some (c', Some (tables c !! name)) ∧ tables c' = tables c ∧ rw_mutex c' = FREE.
Proof. intros Hl. unfold getTable. rewrite locked_free by done. eexists. by split_and!. Qed.

(** The analysis of a table that exists, with a sample of at least one row. *)
Theorem analyzeTable_spec random now elapsed name n m c schema :
  rw_mutex c = FREE → tables c !! name = Some schema → (0 < n)%nat →
  ∃ c' m' t, analyzeTable random now elapsed name n m c = Some (c', Some (m', StatusCode.OK)) ∧
    tables c' = tables c ∧ statistics m' = <[name := t]> (statistics m) ∧
    tst_table_id t = ts_id schema ∧ tst_row_count t = Z.of_nat n ∧ page_count t = 1 ∧ last_analyzed t = now ∧
    (∀ col, is_Some (tst_columns t !! col) ↔ ∃ cs, cs ∈ columns schema ∧ col_name cs = col) ∧
    (∀ col1 col2 s1 s2, tst_columns t !! col1 = Some s1 → tst_columns t !! col2 = Some s2 →
       distinct_values s1 = distinct_values s2 ∧ null_count s1 = null_count s2 ∧
       cs_min_value s1 = cs_min_value s2 ∧ cs_max_value s1 = cs_max_value s2).
Proof.
  intros Hl Ht Hn. unfold analyzeTable, collectSample.
  destruct (getTable_result name c Hl) as (c1 & Hg & Ht1 & Hl1).
  destruct (getTable_result name c1 Hl1) as (c2 & Hg2 & Ht2 & Hl2). rewrite Ht1 in Hg2.
  unfold mbind, M_bind. rewrite Hg. rewrite Ht. rewrite Hg2. rewrite Ht. cbn [mret M_ret].
  eexists _, _, _. split; [done|]. split; [congruence|]. split; [done|].
  pose proof (sample_rows_length random n 0 (columns schema) 0) as Hlen.
  destruct (sample_rows random n 0 (columns schema) 0) as [|row rows] eqn:Hrows; [cbn in Hlen; lia|].
  unfold tst_update. cbn [set_page_count tst_table_id tst_row_count page_count last_analyzed tst_columns avg_row_size initial_stats
    set_tst_columns TableStatistics_new].
  split_and!; [done|by rewrite Hlen| |done|..].
  - by rewrite Z.mul_0_r.
  - intros col. rewrite lookup_fmap, fmap_is_Some, initial_columns_lookup, lookup_empty.
    split; [intros [[? ?]|?]; done|by right].
  - intros col1 col2 s1 s2. rewrite !lookup_fmap. intros (x1 & Hx1 & ->)%fmap_Some_1 (x2 & _ & ->)%fmap_Some_1.
    assert (columns schema ≠ []) as Hne.
    { pose proof (initial_columns_lookup (columns schema) col1 ∅) as [[[? ?]|(cs & Hcs & _)] _];
        [by rewrite Hx1|done|]. intros E. rewrite E in Hcs. by apply not_elem_of_nil in Hcs. }
    assert (∃ v, head row = Some v) as [v Hv].
    { destruct n; [done|]. cbn in Hrows. injection Hrows as <- _. destruct (columns schema); [done|]. by eexists. }
    unfold update_column. cbn [omap list_omap]. rewrite Hv. by cbn.
Qed.

(** ** Restart *)

(** What the file keeps of a column and of a table. *)
Definition saved_column_stats (name : string) (s : ColumnStatistics) : ColumnStatistics :=
  mkColumnStatistics name (cs_type s) (distinct_values s) (null_count s) Value_null Value_null (avg_length s) ∅ None.
Definition saved_table_stats (name : string) (t : TableStatistics) : TableStatistics :=
  mkTableStatistics name (tst_table_id t) (tst_row_count t) (page_count t) (avg_row_size t)
    (map_imap (λ n s, Some (saved_column_stats n s)) (tst_columns t)) ∅ 0 0.

Definition column_stats_fit (s : ColumnStatistics) : Prop :=
  enumerator (cs_type s) ∧ fits 64 (Z.of_nat (distinct_values s)) ∧ fits 64 (Z.of_nat (null_count s)).
Definition table_stats_fit (t : TableStatistics) : Prop :=
  fits 32 (tst_table_id t) ∧ fits 64 (tst_row_count t) ∧ fits 64 (page_count t) ∧ fits 64 (avg_row_size t) ∧
  map_Forall (λ _ s, column_stats_fit s) (tst_columns t).

(** A member that is read from an object. *)
Lemma json_get_member {A} key (f : Json → option A) l x :
  (list_to_map l : gmap string Json) !! key = Some x → json_get key f (json_object l) = f x.
Proof. intros Hx. unfold json_get, json_object, member. cbn [as_object mbind option_bind]. by rewrite Hx. Qed.

Lemma load_column_stats_json name s : column_stats_fit s →
  load_column_stats name (json_column_stats s) = Some (saved_column_stats name s).
Proof.
  intros (Ht & Hd & Hn). pose proof (type_code_range _ Ht). unfold load_column_stats, json_column_stats.
  erewrite (json_get_member "type" _ _ (JNumber _)); [|reflexivity].
  rewrite as_signed_fits by (unfold fits_signed; lia). cbn [mbind option_bind].
  erewrite (json_get_member "distinct_values" _ _ (JNumber _)); [|reflexivity]. rewrite as_unsigned_fits by done. cbn [mbind option_bind].
  erewrite (json_get_member "null_count" _ _ (JNumber _)); [|reflexivity]. rewrite as_unsigned_fits by done. cbn [mbind option_bind].
  erewrite (json_get_member "avg_length" _ _ (JDouble _)); [|reflexivity]. cbn [mbind option_bind as_double].
  by rewrite code_type_code, !Nat2Z.id.
Qed.

(** The members of an object that was made from a map, each with its key. *)
Lemma map_values_imap {A B} (f : string → Json → option B) (g : A → Json) (h : string → A → B) (m : gmap string A) :
  (∀ k a, m !! k = Some a → f k (g a) = Some (h k a)) →
  map_values f (map_to_list (g <$> m)) = Some (map_imap (λ k a, Some (h k a)) m).
Proof.
  intros Hf. unfold map_values. rewrite map_to_list_fmap.
  assert (mapM (λ kv, pair kv.1 <$> f kv.1 kv.2) (prod_map id g <$> map_to_list m) =
          Some ((λ kv, (kv.1, h kv.1 kv.2)) <$> map_to_list m)) as ->.
  { apply mapM_Some. apply Forall2_fmap. apply Forall_Forall2_diag, Forall_forall. intros [k a] Ha%elem_of_map_to_list.
    cbn. by rewrite (Hf _ _ Ha). }
  cbn. f_equal. apply map_eq. intros k. apply option_eq. intros b. rewrite map_lookup_imap.
  rewrite <- elem_of_list_to_map.
  - rewrite list_elem_of_fmap. split.
    + intros ([k' a] & [= -> ->] & Ha%elem_of_map_to_list). by rewrite Ha.
    + destruct (m !! k) as [a|] eqn:Ha; [|done]. intros [= <-]. exists (k, a). split; [done|]. by apply elem_of_map_to_list.
  - rewrite <- list_fmap_compose. apply NoDup_fst_map_to_list.
Qed.

Lemma load_table_stats_json name t : table_stats_fit t →
  load_table_stats name (json_table_stats t) = Some (saved_table_stats name t).
Proof.
  intros (Hi & Hr & Hp & Hs & Hc). unfold load_table_stats, json_table_stats.
  erewrite (json_get_member "table_id" _ _ (JNumber _)); [|reflexivity]. rewrite as_unsigned_fits by done. cbn [mbind option_bind].
  erewrite (json_get_member "row_count" _ _ (JNumber _)); [|reflexivity]. rewrite as_unsigned_fits by done. cbn [mbind option_bind].
  erewrite (json_get_member "page_count" _ _ (JNumber _)); [|reflexivity]. rewrite as_unsigned_fits by done. cbn [mbind option_bind].
  erewrite (json_get_member "avg_row_size" _ _ (JNumber _)); [|reflexivity]. rewrite as_unsigned_fits by done. cbn [mbind option_bind].
  erewrite (json_get_member "columns" _ _ (JObject _)); [|reflexivity]. cbn [items_of].
  rewrite (map_values_imap _ _ saved_column_stats); [done|].
  intros k s Hk. apply load_column_stats_json. by eapply Hc.
Qed.

Lemma load_items_fold l : ∀ s, Forall (λ kv, table_stats_fit kv.2) l →
  load_items (prod_map id json_table_stats <$> l) s =
  (foldl (λ s kv, <[kv.1 := saved_table_stats kv.1 kv.2]> s) s l, true).
Proof.
  induction l as [|[n t] l IH]; intros s Hl; [done|]. apply Forall_cons in Hl as [Ht Hl].
  rewrite fmap_cons. cbn [load_items foldl prod_map fst snd]. rewrite load_table_stats_json by done. by apply IH.
Qed.

(** A manager that starts from the file of one that was destroyed has the counts of its tables and columns; the extremes,
    the histograms, the correlations and the time of the analysis are lost, so that after the first month of the epoch every table is to be analysed again
    and all its statistics are expired. *)
Theorem statistics_restart json_dump json_parse file now later m :
  json_parse (json_dump (json_statistics (statistics m))) = Some (json_statistics (statistics m)) →
  map_Forall (λ _ t, table_stats_fit t) (statistics m) → 31 * 86400 * 1000000000 ≤ later →
  ∃ m', StatisticsManager_new json_parse now (StatisticsManager_destroy json_dump true file m) = Some m' ∧
    statistics m' = map_imap (λ name t, Some (saved_table_stats name t)) (statistics m) ∧
    (∀ name, needsAnalyze later name m' = true) ∧ statistics (expireOldStats later m') = ∅.
Proof.
  intros Hj Hf Hlater. unfold StatisticsManager_new, StatisticsManager_destroy, stats_load, stats_save. cbn [fst].
  rewrite Hj.
  assert (load_items (items_of (json_statistics (statistics m))) ∅ =
          (map_imap (λ name t, Some (saved_table_stats name t)) (statistics m), true)) as Hload.
  { unfold json_statistics. case_decide as He.
    - rewrite He. cbn. f_equal.
    - cbn [items_of]. rewrite map_to_list_fmap, load_items_fold.
      + by rewrite (fold_own_keys saved_table_stats).
      + eapply Forall_map_to_list; [exact Hf|]. done. }
  cbn [statistics]. rewrite Hload. cbn [fst snd].
  assert (∀ t, last_analyzed t = 0 → 24 < Z.quot (later - last_analyzed t) (3600 * 1000000000) ∧
    30 < Z.quot (later - last_analyzed t) (86400 * 1000000000)) as Hold.
  { intros t ->. rewrite Z.sub_0_r, !Z.quot_div_nonneg by lia.
    split; [apply Z.lt_le_trans with 25|apply Z.lt_le_trans with 31]; try lia; apply Z.div_le_lower_bound; lia. }
  eexists. split; [done|]. cbn [statistics set_statistics]. split_and!; [done|..].
  - intros name. unfold needsAnalyze. cbn [statistics]. rewrite map_lookup_imap.
    destruct (statistics m !! name) as [t|]; [|done]. cbn [option_bind mbind]. apply Z.ltb_lt.
    by apply (Hold (saved_table_stats name t)).
  - cbn. apply map_empty. intros name. apply map_lookup_filter_None. right. intros t Ht. rewrite map_lookup_imap in Ht.
    destruct (statistics m !! name) as [t0|]; [|done]. injection Ht as <-. intros Hn. apply Hn.
    by apply (Hold (saved_table_stats name t0)).
Qed.

(** ** Concrete samples *)

(** Three values in two buckets: three buckets. *)
Example more_buckets :
  (λ h : option (option Histogram), (λ h, length (buckets h)) <$> mjoin h) <$>
    Some (buildHistogram insertion_sort [Value_int 3; Value_int 1; Value_int 2] "c" 2) = Some (Some 3%nat).
Proof. reflexivity. Qed.

Lemma histogram_spec_witness :
  ∃ h, buildHistogram insertion_sort [Value_int 3; Value_int 1; Value_int 2] "c" 2 = Some (Some h) ∧
    sum_list (bk_count <$> buckets h) = total_count h ∧ (length (buckets h) ≤ 3)%nat.
Proof.
  destruct (histogram_spec insertion_sort [Value_int 3; Value_int 1; Value_int 2] "c" 2)
    as (h & runs & H1 & _ & _ & _ & _ & H2 & H3 & _).
  - discriminate.
  - lia.
  - repeat constructor.
  - reflexivity.
  - exists h. by split_and!.
Defined.
