(* ===== verification/ThreadPool.v ===== *)
(** * ThreadPool: workers and a queue (src/include/thread_pool.h)

    The calls of the threads interleave.  What a thread does while it holds the mutex is one
    event; a wait releases the mutex in the same event.  A worker is about to take the mutex, waits on the
    condition, runs a task, or has returned.  A call of [enqueue] that was accepted still owes its notification,
    which is an event of its own; so are the notification of the destructor and each [join].  A waiting worker
    may also wake without a notification.  [accepted], [started] and [finished] record the tasks in the order of the events;
    they are not in the source. *)

From stdpp Require Import list.
From S2P Require Import Prelude.

Open Scope nat_scope.

Section ThreadPool.
Context {Task : Type}.

Inductive Worker := READY | WAITING | RUNNING (t : Task) | RETURNED.

(** Where the destructor is: not called, [stop_] set, or waiting for worker [i]. *)
Inductive Destructor := NOT_CALLED | STOPPED | JOINING (i : nat).

Record ThreadPool := mkThreadPool {
  workers : list Worker;
  tasks : list Task;
  stop : bool;
  notifications : nat;
  destructor : Destructor;
  accepted : list Task;
  started : list Task;
  finished : list Task
}.

Definition ThreadPool_new (num_threads : nat) : ThreadPool :=
  mkThreadPool (replicate num_threads READY) [] false 0 NOT_CALLED [] [] [].

Definition set_worker (i : nat) (w : Worker) (p : ThreadPool) : ThreadPool :=
  mkThreadPool (<[i := w]> (workers p)) (tasks p) (stop p) (notifications p) (destructor p)
    (accepted p) (started p) (finished p).
Definition set_destructor (stop : bool) (d : Destructor) (p : ThreadPool) : ThreadPool :=
  mkThreadPool (workers p) (tasks p) stop (notifications p) d (accepted p) (started p) (finished p).

Definition getTaskCount (p : ThreadPool) : nat := length (tasks p).
Definition getWorkerCount (p : ThreadPool) : nat := length (workers p).

(** [enqueue] up to the release of the mutex: [None] is the exception. *)
Definition enqueue (t : Task) (p : ThreadPool) : option ThreadPool :=
  if stop p then None
  else Some (mkThreadPool (workers p) (tasks p ++ [t]) (stop p) (S (notifications p)) (destructor p)
               (accepted p ++ [t]) (started p) (finished p)).

Definition is_waiting (w : Worker) : bool := match w with WAITING => true | _ => false end.

(** [notify_one] of an accepted call: it wakes a worker, if one waits. *)
Definition notify_one (woken : option nat) (p : ThreadPool) : option ThreadPool :=
  match notifications p with
  | O => None
  | S n =>
      let p' := mkThreadPool (workers p) (tasks p) (stop p) n (destructor p) (accepted p) (started p) (finished p) in
      match woken with
      | Some i =>
          match workers p !! i with
          | Some WAITING => Some (set_worker i READY p')
          | _ => None
          end
      | None => if existsb is_waiting (workers p) then None else Some p'
      end
  end.

(** A wake-up without a notification. *)
Definition wake (i : nat) (p : ThreadPool) : option ThreadPool :=
  match workers p !! i with
  | Some WAITING => Some (set_worker i READY p)
  | _ => None
  end.

(** A worker takes the mutex, tests the condition, and waits, returns or takes a task. *)
Definition take_task (i : nat) (p : ThreadPool) : option ThreadPool :=
  match workers p !! i with
  | Some READY =>
      match tasks p with
      | [] => Some (set_worker i (if stop p then RETURNED else WAITING) p)
      | t :: ts =>
          Some (mkThreadPool (<[i := RUNNING t]> (workers p)) ts (stop p) (notifications p) (destructor p)
                  (accepted p) (started p ++ [t]) (finished p))
      end
  | _ => None
  end.

(** [task()] returns; its exceptions stay in the future. *)
Definition finish_task (i : nat) (p : ThreadPool) : option ThreadPool :=
  match workers p !! i with
  | Some (RUNNING t) =>
      Some (mkThreadPool (<[i := READY]> (workers p)) (tasks p) (stop p) (notifications p) (destructor p)
              (accepted p) (started p) (finished p ++ [t]))
  | _ => None
  end.

(** The destructor: the block with the mutex, [notify_all], and the loop of [join]. *)
Definition pool_destroy (p : ThreadPool) : option ThreadPool :=
  match destructor p with NOT_CALLED => Some (set_destructor true STOPPED p) | _ => None end.
Definition notify_all (p : ThreadPool) : option ThreadPool :=
  match destructor p with
  | STOPPED =>
      Some (mkThreadPool ((λ w, if is_waiting w then READY else w) <$> workers p) (tasks p) (stop p)
              (notifications p) (JOINING 0) (accepted p) (started p) (finished p))
  | _ => None
  end.
Definition pool_join (p : ThreadPool) : option ThreadPool :=
  match destructor p with
  | JOINING i =>
      match workers p !! i with
      | Some RETURNED => Some (set_destructor (stop p) (JOINING (S i)) p)
      | _ => None
      end
  | _ => None
  end.
(** The destructor has returned. *)
Definition destroyed (p : ThreadPool) : Prop := destructor p = JOINING (length (workers p)).

(** ** Events *)

Inductive Event :=
  | Enqueue (t : Task) | Wake (i : nat) | Destroy
  | NotifyOne (woken : option nat) | TakeTask (i : nat) | FinishTask (i : nat) | NotifyAll | Join.

Definition run_event (e : Event) : ThreadPool → option ThreadPool :=
  match e with
  | Enqueue t => enqueue t
  | Wake i => wake i
  | Destroy => pool_destroy
  | NotifyOne woken => notify_one woken
  | TakeTask i => take_task i
  | FinishTask i => finish_task i
  | NotifyAll => notify_all
  | Join => pool_join
  end.

(** The events that the threads owe; the others come from outside. *)
Definition internal (e : Event) : bool :=
  match e with Enqueue _ | Wake _ | Destroy => false | _ => true end.

Definition step (p p' : ThreadPool) : Prop := ∃ e, run_event e p = Some p'.
Definition internal_step (p p' : ThreadPool) : Prop := ∃ e, internal e = true ∧ run_event e p = Some p'.

End ThreadPool.
Arguments Worker Task : clear implicits.
Arguments ThreadPool Task : clear implicits.
Arguments Event Task : clear implicits.
