(* ===== verification/ThreadPoolProofs.v ===== *)
(** * ThreadPoolProofs: every accepted task runs

    Tasks start in the order in which they were accepted; no notification is lost; the events that the threads owe end, and end in
    a state in which every accepted task has run, once, and the destructor, if it was called, has returned. *)

From stdpp Require Import list relations.
From S2P Require Import Prelude ThreadPool.

Open Scope nat_scope.

Section Proofs.
Context {Task : Type}.
Implicit Types (p : ThreadPool Task) (w : Worker Task) (ws : list (Worker Task)).

(** ** Workers *)

Lemma worker_split ws i w : ws !! i = Some w →
  ∃ l1 l2, ws = l1 ++ w :: l2 ∧ length l1 = i ∧ ∀ w', <[i := w']> ws = l1 ++ w' :: l2.
Proof.
  intros Hi. exists (take i ws), (drop (S i) ws). pose proof (lookup_lt_Some _ _ _ Hi).
  split_and!; [by rewrite take_drop_middle|rewrite length_take; lia|].
  intros w'. by rewrite insert_take_drop.
Qed.

Lemma elem_of_change ws i w w' x : ws !! i = Some w → x ∈ <[i := w']> ws → x = w' ∨ x ∈ ws.
Proof.
  intros Hi. destruct (worker_split _ _ _ Hi) as (l1 & l2 & -> & _ & ->).
  rewrite !elem_of_app, !elem_of_cons. tauto.
Qed.

(** The sum of a weight over the workers. *)
Definition weight (f : Worker Task → nat) ws : nat := sum_list (f <$> ws).

Lemma weight_app f ws1 ws2 : weight f (ws1 ++ ws2) = weight f ws1 + weight f ws2.
Proof. unfold weight. rewrite fmap_app. induction (f <$> ws1) as [|x l IH]; [done|]. cbn in *. lia. Qed.
Lemma weight_cons f w ws : weight f (w :: ws) = f w + weight f ws.
Proof. done. Qed.

Arguments weight : simpl never.

Definition ready_weight w : nat := match w with READY => 1 | _ => 0 end.
Definition running_task w : option Task := match w with RUNNING t => Some t | _ => None end.
Definition running ws : list Task := omap running_task ws.

Arguments running : simpl never.

Lemma running_app ws1 ws2 : running (ws1 ++ ws2) = running ws1 ++ running ws2.
Proof. unfold running. apply omap_app. Qed.

Lemma running_cons w ws : running (w :: ws) = option_list (running_task w) ++ running ws.
Proof. unfold running. cbn. by destruct (running_task w). Qed.

Lemma waiting_elem ws : existsb is_waiting ws = false → WAITING ∉ ws.
Proof.
  intros He Hin. apply Bool.not_true_iff_false in He. apply He. apply existsb_exists.
  exists WAITING. split; [by apply list_elem_of_In|done].
Qed.

(** ** The invariant *)

Record pool_ok p : Prop := {
  ok_order : accepted p = started p ++ tasks p;
  ok_finished : (finished p ++ running (workers p)) ≡ₚ started p;
  ok_stop : stop p = true ↔ destructor p ≠ NOT_CALLED;
  ok_returned : RETURNED ∈ workers p → stop p = true ∧ tasks p = [];
  ok_notified : WAITING ∈ workers p → length (tasks p) ≤ notifications p + weight ready_weight (workers p);
  ok_joining i : destructor p = JOINING i →
    WAITING ∉ workers p ∧ i ≤ length (workers p) ∧ ∀ j, j < i → workers p !! j = Some RETURNED
}.

Lemma new_ok n : pool_ok (ThreadPool_new n).
Proof.
  split; cbn; try done.
  - unfold running. induction n as [|n IH]; [done|]. exact IH.
  - intros Hin. by apply elem_of_replicate in Hin as [? _].
  - lia.
Qed.

(** What a change of worker [i] does to the parts of the invariant that look at the workers. *)
Lemma joining_insert p i w w' j : pool_ok p → workers p !! i = Some w → w ≠ RETURNED → w' ≠ WAITING →
  destructor p = JOINING j →
  WAITING ∉ <[i := w']> (workers p) ∧ j ≤ length (<[i := w']> (workers p)) ∧
  ∀ k, k < j → <[i := w']> (workers p) !! k = Some RETURNED.
Proof.
  intros Hok Hi Hw Hw' Hd. destruct (ok_joining _ Hok _ Hd) as (Hnw & Hj & Hret).
  split_and!.
  - intros Hin. by destruct (elem_of_change _ _ _ _ _ Hi Hin) as [<-|?].
  - by rewrite length_insert.
  - intros k Hk. destruct (decide (i = k)) as [->|Hne]; [|by rewrite list_lookup_insert_ne; auto].
    rewrite (Hret k Hk) in Hi. congruence.
Qed.

(** The sums and the running tasks after a change. *)
Lemma weight_change f ws i w w' : ws !! i = Some w → weight f (<[i := w']> ws) + f w = weight f ws + f w'.
Proof.
  intros Hi. destruct (worker_split _ _ _ Hi) as (l1 & l2 & -> & _ & ->).
  rewrite !weight_app, !weight_cons. lia.
Qed.

Lemma running_change ws i w w' : ws !! i = Some w →
  ∃ rest, running ws ≡ₚ (option_list (running_task w) ++ rest) ∧
          running (<[i := w']> ws) ≡ₚ (option_list (running_task w') ++ rest).
Proof.
  intros Hi. destruct (worker_split _ _ _ Hi) as (l1 & l2 & -> & _ & ->). exists (running l1 ++ running l2).
  rewrite !running_app, !running_cons. split; apply Permutation_app_swap_app.
Qed.

(** ** Every event keeps the invariant *)

Lemma enqueue_ok t p p' : pool_ok p → enqueue t p = Some p' → pool_ok p'.
Proof.
  intros [Ho Hf Hs Hr Hn Hj] E. unfold enqueue in E. destruct (stop p) eqn:Hstop; [done|]. injection E as <-.
  split; cbn; try done.
  - by rewrite Ho, app_assoc.
  - intros Hin. by destruct (Hr Hin).
  - intros Hin. rewrite length_app. cbn. specialize (Hn Hin). lia.
Qed.

(** A worker that stops waiting; the number of notifications may fall by one with it. *)
Lemma ready_ok i n p : pool_ok p → workers p !! i = Some WAITING → notifications p ≤ S n →
  pool_ok (set_worker i READY (mkThreadPool (workers p) (tasks p) (stop p) n (destructor p) (accepted p) (started p) (finished p))).
Proof.
  intros Hok Hi Hle. pose proof Hok as [Ho Hf Hs Hr Hn Hj].
  pose proof (list_elem_of_lookup_2 _ _ _ Hi) as Hw. specialize (Hn Hw).
  split; cbn; try done.
  - destruct (running_change _ _ _ READY Hi) as (rest & H1 & H2). cbn in *. by rewrite H2, <- H1.
  - intros Hin. by destruct (elem_of_change _ _ _ _ _ Hi Hin) as [?|?]; auto.
  - intros _. pose proof (weight_change ready_weight _ _ _ READY Hi). cbn in *. lia.
  - intros j Hd. by apply (joining_insert p i WAITING).
Qed.

Lemma notify_one_ok woken p p' : pool_ok p → notify_one woken p = Some p' → pool_ok p'.
Proof.
  intros Hok. unfold notify_one. destruct (notifications p) as [|n] eqn:Hc; [done|].
  destruct woken as [i|].
  - destruct (workers p !! i) as [[]|] eqn:Hi; try done. intros [= <-]. apply ready_ok; [done..|lia].
  - destruct (existsb is_waiting (workers p)) eqn:He; [done|]. intros [= <-].
    destruct Hok as [Ho Hf Hs Hr Hn Hj]. split; cbn; try done.
    intros Hin. by apply waiting_elem in He.
Qed.

Lemma wake_ok i p p' : pool_ok p → wake i p = Some p' → pool_ok p'.
Proof.
  intros Hok. unfold wake. destruct (workers p !! i) as [[]|] eqn:Hi; try done. intros [= <-].
  apply (ready_ok i (notifications p)); [done..|lia].
Qed.

Lemma take_task_ok i p p' : pool_ok p → take_task i p = Some p' → pool_ok p'.
Proof.
  intros Hok. pose proof Hok as [Ho Hf Hs Hr Hn Hj]. unfold take_task.
  destruct (workers p !! i) as [w|] eqn:Hi; [|done]. destruct w; try done.
  destruct (tasks p) as [|t ts] eqn:Ht; intros [= <-].
  - split; cbn; rewrite ?Ht; try done.
    + destruct (running_change _ _ _ (if stop p then RETURNED else WAITING) Hi) as (rest & H1 & H2).
      rewrite H2, <- Hf, H1. by destruct (stop p).
    + intros Hin. destruct (elem_of_change _ _ _ _ _ Hi Hin) as [?|?]; [|by split; [apply Hr|]].
      by destruct (stop p).
    + intros _. cbn. lia.
    + intros j Hd. assert (stop p = true) as Hst by (apply Hs; congruence). rewrite Hst.
      by apply (joining_insert p i READY).
  - split; cbn; try done.
    + by rewrite Ho, <- app_assoc.
    + destruct (running_change _ _ _ (RUNNING t) Hi) as (rest & H1 & H2). cbn in *.
      rewrite H2, <- Hf, H1. rewrite <- Permutation_middle. by rewrite Permutation_cons_append.
    + intros Hin. destruct (elem_of_change _ _ _ _ _ Hi Hin) as [?|Hin']; [done|]. by destruct (Hr Hin').
    + intros Hin. destruct (elem_of_change _ _ _ _ _ Hi Hin) as [?|Hin']; [done|]. specialize (Hn Hin').
      pose proof (weight_change ready_weight _ _ _ (RUNNING t) Hi). cbn in *. lia.
    + intros j Hd. by apply (joining_insert p i READY).
Qed.

Lemma finish_task_ok i p p' : pool_ok p → finish_task i p = Some p' → pool_ok p'.
Proof.
  intros Hok. pose proof Hok as [Ho Hf Hs Hr Hn Hj]. unfold finish_task.
  destruct (workers p !! i) as [w|] eqn:Hi; [|done]. destruct w as [| |t|]; try done. intros [= <-].
  split; cbn; try done.
  - destruct (running_change _ _ _ READY Hi) as (rest & H1 & H2). cbn in *.
    rewrite H2, <- Hf, H1. by rewrite <- app_assoc.
  - intros Hin. destruct (elem_of_change _ _ _ _ _ Hi Hin) as [?|?]; [done|auto].
  - intros Hin. destruct (elem_of_change _ _ _ _ _ Hi Hin) as [?|Hin']; [done|]. specialize (Hn Hin').
    pose proof (weight_change ready_weight _ _ _ READY Hi). cbn in *. lia.
  - intros j Hd. by apply (joining_insert p i (RUNNING t)).
Qed.

Lemma destroy_ok p p' : pool_ok p → pool_destroy p = Some p' → pool_ok p'.
Proof.
  intros [Ho Hf Hs Hr Hn Hj]. unfold pool_destroy. destruct (destructor p) eqn:Hd; try done. intros [= <-].
  split; cbn; try done. intros Hin. by destruct (Hr Hin).
Qed.

Definition woken w : Worker Task := if is_waiting w then READY else w.

Lemma running_woken ws : running (woken <$> ws) = running ws.
Proof. unfold running. induction ws as [|[] ws IH]; cbn in *; congruence. Qed.

Lemma woken_elem ws w : w ∈ woken <$> ws → w ≠ READY → w ∈ ws ∧ w ≠ WAITING.
Proof. intros ([] & -> & Hin)%list_elem_of_fmap; cbn; intros ?; done. Qed.

Lemma notify_all_ok p p' : pool_ok p → notify_all p = Some p' → pool_ok p'.
Proof.
  intros [Ho Hf Hs Hr Hn Hj]. unfold notify_all. fold woken. destruct (destructor p) eqn:Hd; try done. intros [= <-].
  split; cbn [workers tasks stop notifications destructor accepted started finished]; try done.
  - by rewrite running_woken.
  - rewrite Hs. done.
  - intros [Hin _]%woken_elem; [|done]. by apply Hr.
  - intros [_ ?]%woken_elem; done.
  - intros i [= <-]. split_and!; [by intros [_ ?]%woken_elem|lia|lia].
Qed.

Lemma join_ok p p' : pool_ok p → pool_join p = Some p' → pool_ok p'.
Proof.
  intros [Ho Hf Hs Hr Hn Hj]. unfold pool_join. destruct (destructor p) as [| |i] eqn:Hd; try done.
  destruct (workers p !! i) as [[]|] eqn:Hi; try done. intros [= <-]. destruct (Hj i eq_refl) as (Hw & Hle & Hret).
  split; cbn; try done.
  - rewrite Hs. done.
  - intros k [= <-]. pose proof (lookup_lt_Some _ _ _ Hi). split_and!; [done|lia|].
    intros j Hlt. destruct (decide (j = i)) as [->|]; [done|]. apply Hret. lia.
Qed.

Lemma event_ok e p p' : pool_ok p → run_event e p = Some p' → pool_ok p'.
Proof.
  intros Hok. destruct e; cbn; [by apply enqueue_ok|by apply wake_ok|by apply destroy_ok|by apply notify_one_ok|by apply take_task_ok
    |by apply finish_task_ok|by apply notify_all_ok|by apply join_ok].
Qed.

Lemma pool_reachable_ok n p : rtc step (ThreadPool_new n) p → pool_ok p.
Proof.
  intros Hr. apply (rtc_ind_r (R := step) (λ p, pool_ok p) (ThreadPool_new n)); [apply new_ok| |done].
  intros p1 p2 _ [e He] Hok. by eapply event_ok.
Qed.

Lemma event_workers e p p' : run_event e p = Some p' → length (workers p') = length (workers p).
Proof.
  destruct e; cbn; unfold enqueue, wake, pool_destroy, notify_one, take_task, finish_task, notify_all, pool_join; intros He;
    repeat case_match; simplify_eq/=; by rewrite ?length_insert, ?length_fmap.
Qed.

Lemma reachable_workers n p : rtc step (ThreadPool_new n) p → length (workers p) = n.
Proof.
  intros Hr. apply (rtc_ind_r (R := step) (λ p, length (workers p) = n) (ThreadPool_new n)); [apply length_replicate| |done].
  intros p1 p2 _ [e He] Hl. by rewrite (event_workers _ _ _ He).
Qed.

(** ** The owed events end *)

Definition worker_weight w : nat := match w with READY => 1 | RUNNING _ => 2 | _ => 0 end.
Definition destructor_weight (n : nat) (d : Destructor) : nat :=
  match d with NOT_CALLED => 0 | STOPPED => 2 * n + 1 | JOINING i => n - i end.
(** What the threads still owe. *)
Definition owed p : nat :=
  2 * length (tasks p) + 2 * notifications p + weight worker_weight (workers p)
  + destructor_weight (length (workers p)) (destructor p).

Lemma weight_woken ws : weight worker_weight (woken <$> ws) ≤ weight worker_weight ws + length ws.
Proof.
  induction ws as [|w ws IH]; [done|]. rewrite fmap_cons, !weight_cons. cbn [length]. destruct w; cbn; lia.
Qed.

Lemma internal_decreases e p p' : pool_ok p → internal e = true → run_event e p = Some p' → owed p' < owed p.
Proof.
  intros Hok Hi He. pose proof (event_workers _ _ _ He) as Hl. unfold owed. rewrite Hl.
  destruct e as [| | |woken'|i|i| |]; try done; cbn in He.
  - unfold notify_one in He. destruct (notifications p) as [|n] eqn:Hn; [done|]. destruct woken' as [i|].
    + destruct (workers p !! i) as [[]|] eqn:Hw; try done. injection He as <-. cbn.
      pose proof (weight_change worker_weight _ _ _ READY Hw). cbn in *. lia.
    + destruct (existsb _ _); [done|]. injection He as <-. cbn. lia.
  - unfold take_task in He. destruct (workers p !! i) as [[]|] eqn:Hw; try done.
    destruct (tasks p) as [|t ts] eqn:Ht; injection He as <-; cbn; rewrite ?Ht.
    + pose proof (weight_change worker_weight _ _ _ (if stop p then RETURNED else WAITING) Hw).
      destruct (stop p); cbn in *; lia.
    + pose proof (weight_change worker_weight _ _ _ (RUNNING t) Hw). cbn in *. lia.
  - unfold finish_task in He. destruct (workers p !! i) as [[]|] eqn:Hw; try done. injection He as <-. cbn.
    pose proof (weight_change worker_weight _ _ _ READY Hw). cbn in *. lia.
  - unfold notify_all in He. fold woken in He. destruct (destructor p) eqn:Hd; try done. injection He as <-. cbn.
    pose proof (weight_woken (workers p)). lia.
  - unfold pool_join in He. destruct (destructor p) as [| |i] eqn:Hd; try done.
    destruct (workers p !! i) as [[]|] eqn:Hw; try done. injection He as <-. cbn.
    pose proof (lookup_lt_Some _ _ _ Hw). lia.
Qed.

(** ** They end when everything is done *)

Definition idle w : bool := match w with WAITING | RETURNED => true | _ => false end.

Lemma find_busy ws : Forall (λ w, idle w = true) ws ∨ ∃ i w, ws !! i = Some w ∧ idle w = false.
Proof.
  induction ws as [|w ws [IH|(i & w' & Hi & Hw)]]; [by left| |right; by exists (S i), w'].
  destruct (idle w) eqn:E; [left; by constructor|right]. by exists 0, w.
Qed.
Lemma find_waiting ws : WAITING ∉ ws ∨ ∃ i, ws !! i = Some WAITING.
Proof.
  destruct (existsb is_waiting ws) eqn:E; [right|left; by apply waiting_elem].
  apply existsb_exists in E as (w & Hin%list_elem_of_In & Hw). destruct w; try done.
  by apply list_elem_of_lookup_1.
Qed.
Lemma running_idle ws : Forall (λ w, idle w = true) ws → running ws = [] ∧ weight ready_weight ws = 0.
Proof.
  induction 1 as [|w ws Hw _ [IH1 IH2]]; [done|]. rewrite running_cons, weight_cons. by destruct w.
Qed.

(** No task waits or runs, and the destructor has not been called or has returned. *)
Definition settled p : Prop :=
  tasks p = [] ∧ running (workers p) = [] ∧ (destructor p = NOT_CALLED ∨ destroyed p).

(** A pool with workers is settled or one of its threads can go on. *)
Lemma progress p : pool_ok p → 0 < length (workers p) → settled p ∨ ∃ p', internal_step p p'.
Proof.
  intros Hok Hn. destruct (find_busy (workers p)) as [Hidle|(i & w & Hi & Hw)].
  2:{ right. destruct w as [| |t|]; try done.
      - assert (is_Some (take_task i p)) as [p' Hp'] by (unfold take_task; rewrite Hi; case_match; eauto).
        exists p', (TakeTask i). by split.
      - assert (is_Some (finish_task i p)) as [p' Hp'] by (unfold finish_task; rewrite Hi; eauto).
        exists p', (FinishTask i). by split. }
  destruct (running_idle _ Hidle) as [Hrun Hready].
  destruct (notifications p) as [|n] eqn:Hnot.
  2:{ right. destruct (find_waiting (workers p)) as [Hw|[i Hi]].
      - assert (is_Some (notify_one None p)) as [p' Hp'].
        { unfold notify_one. rewrite Hnot. destruct (existsb is_waiting (workers p)) eqn:E; [|eauto].
          apply existsb_exists in E as (w & Hin%list_elem_of_In & Hw'). by destruct w. }
        exists p', (NotifyOne None). by split.
      - assert (is_Some (notify_one (Some i) p)) as [p' Hp'] by (unfold notify_one; rewrite Hnot, Hi; eauto).
        exists p', (NotifyOne (Some i)). by split. }
  assert (tasks p = []) as Ht.
  { destruct (workers p) as [|w ws] eqn:Ews; [cbn in Hn; lia|].
    assert (w ∈ workers p) as Hin by (rewrite Ews; left). apply Forall_cons in Hidle as [Hw _].
    destruct w; try done.
    - apply (ok_notified _ Hok) in Hin. rewrite Ews, Hready, Hnot in Hin. destruct (tasks p); [done|]. cbn in Hin. lia.
    - by apply (ok_returned _ Hok). }
  destruct (destructor p) as [| |i] eqn:Hd.
  - left. split_and!; [done..|by left].
  - right. assert (is_Some (notify_all p)) as [p' Hp'] by (unfold notify_all; rewrite Hd; eauto).
    exists p', NotifyAll. by split.
  - destruct (ok_joining _ Hok _ Hd) as (Hw & Hle & _).
    destruct (decide (i = length (workers p))) as [->|Hne]; [left; split_and!; [done..|by right]|right].
    destruct (lookup_lt_is_Some_2 (workers p) i ltac:(lia)) as [w Hi].
    assert (w = RETURNED) as ->.
    { rewrite Forall_lookup in Hidle. specialize (Hidle _ _ Hi). destruct w; try done.
      exfalso. apply Hw. by eapply list_elem_of_lookup_2. }
    assert (is_Some (pool_join p)) as [p' Hp'] by (unfold pool_join; rewrite Hd, Hi; eauto).
    exists p', Join. by split.
Qed.

Lemma internal_accepted p p' : internal_step p p' →
  accepted p' = accepted p ∧ (stop p = true → stop p' = true).
Proof.
  intros (e & Hi & He). destruct e; try done; cbn in He;
    unfold notify_one, take_task, finish_task, notify_all, pool_join in He; repeat case_match; simplify_eq/=; done.
Qed.

Lemma internal_rtc p p' : rtc internal_step p p' →
  rtc step p p' ∧ accepted p' = accepted p ∧ (stop p = true → stop p' = true).
Proof.
  induction 1 as [|p1 p2 p3 Hs _ (IH1 & IH2 & IH3)]; [by split_and!|].
  destruct (internal_accepted _ _ Hs) as [H1 H2]. split_and!; [|congruence|auto].
  eapply rtc_l; [|done]. destruct Hs as (e & _ & He). by exists e.
Qed.

(** (C20) The pool, with at least one worker, after any interleaving of calls.  Tasks start in the order in which they were accepted.
    Whatever the threads do next of what they owe, they are done after a bounded number of events; when none of them can go on, the accepted tasks,
    and only they, have run, each once, and the destructor, if it was called, has returned.  No notification is lost. *)
Theorem thread_pool_spec n p : 0 < n → rtc step (ThreadPool_new n) p →
  started p `prefix_of` accepted p ∧
  (∀ k p', nsteps internal_step k p p' → k ≤ owed p) ∧
  ∀ p', rtc internal_step p p' → (∀ p'', ¬ internal_step p' p'') →
    started p' = accepted p ∧ finished p' ≡ₚ accepted p ∧ (stop p = true → destroyed p').
Proof.
  intros Hn Hr. pose proof (pool_reachable_ok _ _ Hr) as Hok. split_and!.
  - exists (tasks p). apply Hok.
  - intros k p' Hk. clear Hr Hn. induction Hk as [|k p1 p2 p3 Hs Hk IH]; [lia|].
    destruct Hs as (e & Hi & He). pose proof (internal_decreases e p1 p2 Hok Hi He).
    specialize (IH (event_ok e _ _ Hok He)). lia.
  - intros p' Hi Hstuck. destruct (internal_rtc _ _ Hi) as (Hs & Ha & Hst).
    assert (rtc step (ThreadPool_new n) p') as Hr' by (by etrans).
    pose proof (pool_reachable_ok _ _ Hr') as Hok'.
    destruct (progress p' Hok') as [(Ht & Hrun & Hd)|[p'' Hp'']].
    + rewrite (reachable_workers _ _ Hr'). done.
    + pose proof (ok_order _ Hok') as Ho. pose proof (ok_finished _ Hok') as Hf. pose proof (ok_stop _ Hok') as Hstop.
      rewrite Ht, app_nil_r, Ha in Ho. rewrite Hrun, app_nil_r in Hf.
      split_and!; [done|by rewrite Hf, Ho|]. intros Hp. destruct Hd as [Hd|Hd]; [|done].
      exfalso. by apply Hstop in Hd; [|auto].
    + by apply Hstuck in Hp''.
Qed.

(** A pool without workers: the destructor returns, and no task that was accepted has run. *)
Lemma no_workers t : ∃ p, rtc step (ThreadPool_new 0) p ∧ destroyed p ∧ accepted p = [t] ∧ started p = [].
Proof.
  eexists. split_and!.
  - eapply rtc_l; [by exists (Enqueue t)|]. eapply rtc_l; [by exists Destroy|]. eapply rtc_l; [by exists NotifyAll|].
    apply rtc_refl.
  - done.
  - done.
  - done.
Qed.

End Proofs.

(** ** A concrete run *)

(** Two tasks, one worker; the destructor is called while the first task runs. *)
Definition pool_events : list (Event nat) :=
  [TakeTask 0; Enqueue 7; NotifyOne (Some 0); TakeTask 0; Enqueue 8; NotifyOne None; Destroy; FinishTask 0; TakeTask 0;
   FinishTask 0; NotifyAll; TakeTask 0; Join].
Fixpoint run_events (es : list (Event nat)) (p : ThreadPool nat) : option (ThreadPool nat) :=
  match es with
  | [] => Some p
  | e :: es' => match run_event e p with Some p' => run_events es' p' | None => None end
  end.

Lemma run_events_steps es : ∀ p p', run_events es p = Some p' → rtc step p p'.
Proof.
  induction es as [|e es IH]; intros p p'; cbn; [intros [= <-]; apply rtc_refl|].
  destruct (run_event e p) as [p1|] eqn:He; [|done]. intros Hr. eapply rtc_l; [by exists e|by apply IH].
Qed.

Definition pool_end : ThreadPool nat := mkThreadPool [RETURNED] [] true 0 (JOINING 1) [7; 8] [7; 8] [7; 8].

Lemma thread_pool_spec_witness :
  ∃ p, run_events pool_events (ThreadPool_new 1) = Some p ∧ destroyed p ∧ finished p = [7; 8] ∧ started p `prefix_of` accepted p.
Proof.
  exists pool_end. split; [vm_compute; reflexivity|]. split; [vm_compute; reflexivity|]. split; [vm_compute; reflexivity|].
  apply (thread_pool_spec 1); [lia|]. apply (run_events_steps pool_events). vm_compute. reflexivity.
Defined.
