(* ===== verification/Console.v ===== *)
(** * Console: the terminal (src/cli/console.h, console.cpp, main.cpp)

    The state of the console with what it has printed and the lines of the terminal that are
    still to be read; [readline] prints the prompt and reads the next one, [std::getline] on
    the standard input as well.  The text is in bytes.  The time that a
    query takes and the time since the start are parameters.  [None] is undefined behaviour: the
    last character of an empty line.  [system] and the pauses change nothing here.  The
    completion of readline, the handler of the interrupt and the pager are in [ConsoleTools]; [printError] in the
    command [sleep], which has no [this] and does not compile, is modelled as it is meant. *)

From stdpp Require Import gmap strings.
From S2P Require Import Prelude CxxString Doubles DecimalText.

Open Scope Z_scope.

Definition ansi (code : string) : string := String (byte_ascii 27) "[" +:+ code +:+ "m".
Definition back_slash : ascii := byte_ascii 92.

(** ** Data *)

(** The closures of the commands. *)
Module Handler.
Inductive Handler :=
  HELP | QUIT | CLEAR | LIST | DESCRIBE | TIMING | VERBOSE | PAGER | HISTORY | STATS | ECHO | SLEEP.
End Handler.
Abbreviation Handler := Handler.Handler.

Record ConsoleCommand := mkConsoleCommand {
  cmd_name : string;
  description : string;
  usage : string;
  handler : Handler
}.

Record FormattedResult := mkFormattedResult {
  headers : list string;
  rows : list (list string);
  affected_rows : Z;
  execution_time : double
}.

Record Console := mkConsole {
  running : bool;
  verbose : bool;
  use_pager : bool;
  show_timing : bool;
  current_db : string;
  current_user : string;
  prompt : string;
  history : list string;
  history_max_size : nat;
  commands : list (string * ConsoleCommand);
  queries_executed : Z;
  commands_executed : Z;
  total_execution_time : double;
  (* the standard output, and whether it aligns to the left *)
  cout : string;
  cout_left : bool;
  (* the lines of the terminal *)
  cin : list string;
  (* the text of the file of the history *)
  history_file : option string
}.

Definition Console_new (input : list string) (file : option string) : Console :=
  mkConsole false false true true "default" "admin" "" [] 1000 [] 0 0 dzero "" false input file.

Definition set_running (b : bool) (c : Console) : Console :=
  mkConsole b (verbose c) (use_pager c) (show_timing c) (current_db c) (current_user c) (prompt c) (history c)
    (history_max_size c) (commands c) (queries_executed c) (commands_executed c) (total_execution_time c) (cout c)
    (cout_left c) (cin c) (history_file c).
(** [setVerbose], [setPager] and [setTiming] *)
Definition set_flags (v p t : bool) (c : Console) : Console :=
  mkConsole (running c) v p t (current_db c) (current_user c) (prompt c) (history c)
    (history_max_size c) (commands c) (queries_executed c) (commands_executed c) (total_execution_time c) (cout c)
    (cout_left c) (cin c) (history_file c).
Definition set_prompt (s : string) (c : Console) : Console :=
  mkConsole (running c) (verbose c) (use_pager c) (show_timing c) (current_db c) (current_user c) s (history c)
    (history_max_size c) (commands c) (queries_executed c) (commands_executed c) (total_execution_time c) (cout c)
    (cout_left c) (cin c) (history_file c).
Definition set_history (h : list string) (c : Console) : Console :=
  mkConsole (running c) (verbose c) (use_pager c) (show_timing c) (current_db c) (current_user c) (prompt c) h
    (history_max_size c) (commands c) (queries_executed c) (commands_executed c) (total_execution_time c) (cout c)
    (cout_left c) (cin c) (history_file c).
Definition set_commands (l : list (string * ConsoleCommand)) (c : Console) : Console :=
  mkConsole (running c) (verbose c) (use_pager c) (show_timing c) (current_db c) (current_user c) (prompt c) (history c)
    (history_max_size c) l (queries_executed c) (commands_executed c) (total_execution_time c) (cout c)
    (cout_left c) (cin c) (history_file c).
Definition set_console_counts (q n : Z) (t : double) (c : Console) : Console :=
  mkConsole (running c) (verbose c) (use_pager c) (show_timing c) (current_db c) (current_user c) (prompt c) (history c)
    (history_max_size c) (commands c) q n t (cout c) (cout_left c) (cin c) (history_file c).
Definition set_cout (s : string) (b : bool) (c : Console) : Console :=
  mkConsole (running c) (verbose c) (use_pager c) (show_timing c) (current_db c) (current_user c) (prompt c) (history c)
    (history_max_size c) (commands c) (queries_executed c) (commands_executed c) (total_execution_time c) s
    b (cin c) (history_file c).
Definition set_cin (l : list string) (c : Console) : Console :=
  mkConsole (running c) (verbose c) (use_pager c) (show_timing c) (current_db c) (current_user c) (prompt c) (history c)
    (history_max_size c) (commands c) (queries_executed c) (commands_executed c) (total_execution_time c) (cout c)
    (cout_left c) l (history_file c).
Definition set_history_file (f : option string) (c : Console) : Console :=
  mkConsole (running c) (verbose c) (use_pager c) (show_timing c) (current_db c) (current_user c) (prompt c) (history c)
    (history_max_size c) (commands c) (queries_executed c) (commands_executed c) (total_execution_time c) (cout c)
    (cout_left c) (cin c) f.

(** ** Output *)

Definition print (s : string) (c : Console) : Console := set_cout (cout c +:+ s) (cout_left c) c.
Definition print_line (s : string) (c : Console) : Console := print (s +:+ endl) c.
(** [std::left] stays set. *)
Definition align_left (c : Console) : Console := set_cout (cout c) true c.

Fixpoint repeat_char (n : nat) (c : ascii) : string :=
  match n with O => "" | S n' => String c (repeat_char n' c) end.
(** [std::setw(n)] before a text, aligned to the left or to the right *)
Definition pad_text (to_left : bool) (n : nat) (s : string) : string :=
  let fill := repeat_char (n - String.length s) " " in if to_left then s +:+ fill else fill +:+ s.

Definition printError (error : string) (c : Console) : Console :=
  print_line (ansi "1;31" +:+ "ERRO: " +:+ error +:+ ansi "0") c.

Definition printMessage (msg type : string) (c : Console) : Console :=
  if decide (type = "info"%string) then print_line (ansi "1;34" +:+ "INFO: " +:+ msg +:+ ansi "0") c
  else if decide (type = "success"%string) then print_line (ansi "1;32" +:+ "SUCESSO: " +:+ msg +:+ ansi "0") c
  else if decide (type = "warning"%string) then print_line (ansi "1;33" +:+ "AVISO: " +:+ msg +:+ ansi "0") c
  else print_line msg c.

(** The widths after one row: the cells past the headers are ignored. *)
Fixpoint widen (widths : list nat) (row : list string) : list nat :=
  match widths, row with
  | w :: widths', cell :: row' => w `max` String.length cell :: widen widths' row'
  | _, _ => widths
  end%nat.
Definition column_widths (headers : list string) (rows : list (list string)) : list nat :=
  foldl widen (String.length <$> headers) rows.

Definition rule (first last : string) (widths : list nat) : string :=
  first +:+ String.concat "" ((λ w, repeat_char (w + 2) "-" +:+ last) <$> widths) +:+ endl.
Definition table_row (widths : list nat) (row : list string) : string :=
  "|" +:+ String.concat "" (zip_with (λ w cell, " " +:+ pad_text true w cell +:+ " |") widths row) +:+ endl.
Definition table_text (headers : list string) (rows : list (list string)) : string :=
  let widths := column_widths headers rows in
  rule "+" "+" widths +:+ table_row widths headers +:+ rule "|" "|" widths
  +:+ String.concat "" (table_row widths <$> rows) +:+ rule "+" "+" widths.

Definition printTable (headers : list string) (rows : list (list string)) (c : Console) : Console :=
  match headers, rows with
  | [], _ | _, [] => c
  | _, _ => align_left (print (table_text headers rows) c)
  end.

Definition welcome_text (db user : string) : string :=
  endl +:+ "    ╔═══════════════════════════════════════╗" +:+ endl
  +:+ "    ║         OrangeSQL v1.0.0              ║" +:+ endl
  +:+ "    ║     Banco de Dados ACID com B-Tree     ║" +:+ endl
  +:+ "    ╚═══════════════════════════════════════╝" +:+ endl
  +:+ "    " +:+ endl
  +:+ "Conectado ao banco de dados '" +:+ db +:+ "' como '" +:+ user +:+ "'" +:+ endl
  +:+ "Digite '\help' para ajuda ou '\quit' para sair." +:+ endl +:+ endl.
Definition printWelcome (c : Console) : Console := print (welcome_text (current_db c) (current_user c)) c.

Definition updatePrompt (c : Console) : Console := set_prompt (current_db c +:+ "=> ") c.
Definition printPrompt (c : Console) : Console := let c := updatePrompt c in print (prompt c) c.
Definition handleSigInt (c : Console) : Console :=
  printPrompt (print_line (endl +:+ "Para sair, digite \quit") c).

(** ** History *)

Definition addToHistory (command : string) (c : Console) : Console :=
  let h := history c ++ [command] in
  set_history (if decide (history_max_size c < length h)%nat then tail h else h) c.

(** The lines that [std::getline] reads; [line] has been read of the current one. *)
Fixpoint read_lines (text line : string) : list string :=
  match text with
  | EmptyString => if decide (line = ""%string) then [] else [line]
  | String a text' =>
      if decide (a = line_feed) then line :: read_lines text' "" else read_lines text' (line +:+ String a "")
  end.
Definition loadHistory (c : Console) : Console :=
  match history_file c with
  | None => c
  | Some text => set_history (history c ++ read_lines text "") c
  end.

Definition history_text (h : list string) : string := String.concat "" ((λ cmd, cmd +:+ endl) <$> h).
(** [can_open]: whether the file can be written. *)
Definition saveHistory (can_open : bool) (c : Console) : Console :=
  if can_open then set_history_file (Some (history_text (history c))) c else c.
Definition clearHistory (c : Console) : Console := set_history [] c.

Definition console_shutdown (can_open : bool) (c : Console) : Console :=
  if running c then saveHistory can_open (set_running false c) else c.

(** ** Commands *)

(** In the order of [std::map]. *)
Definition registered : list (string * ConsoleCommand) :=
  let quit := mkConsoleCommand "quit" "Sai do OrangeSQL" "\quit" Handler.QUIT in
  [("clear"%string, mkConsoleCommand "clear" "Limpa a tela" "\clear" Handler.CLEAR);
   ("describe"%string, mkConsoleCommand "describe" "Descreve a estrutura de uma tabela" "\describe <tabela>" Handler.DESCRIBE);
   ("echo"%string, mkConsoleCommand "echo" "Imprime uma mensagem" "\echo <mensagem>" Handler.ECHO);
   ("exit"%string, quit);
   ("help"%string, mkConsoleCommand "help" "Mostra esta mensagem de ajuda" "\help [comando]" Handler.HELP);
   ("history"%string, mkConsoleCommand "history" "Mostra histórico de comandos" "\history [clear]" Handler.HISTORY);
   ("list"%string, mkConsoleCommand "list" "Lista tabelas ou bancos de dados" "\list [tables|databases]" Handler.LIST);
   ("pager"%string, mkConsoleCommand "pager" "Ativa/desativa uso de pager para resultados longos" "\pager [on|off]" Handler.PAGER);
   ("quit"%string, quit);
   ("sleep"%string, mkConsoleCommand "sleep" "Pausa a execução por N segundos" "\sleep <segundos>" Handler.SLEEP);
   ("stats"%string, mkConsoleCommand "stats" "Mostra estatísticas da sessão" "\stats" Handler.STATS);
   ("timing"%string, mkConsoleCommand "timing" "Ativa/desativa exibição do tempo de execução" "\timing [on|off]" Handler.TIMING);
   ("verbose"%string, mkConsoleCommand "verbose" "Ativa/desativa modo verboso" "\verbose [on|off]" Handler.VERBOSE)].
Definition registerInternalCommands (c : Console) : Console := set_commands registered c.

Definition initialize (c : Console) : Console := updatePrompt (registerInternalCommands (loadHistory c)).

(** [commands_.find] *)
Fixpoint find_command (name : string) (l : list (string * ConsoleCommand)) : option ConsoleCommand :=
  match l with
  | [] => None
  | (n, cmd) :: l' => if decide (n = name) then Some cmd else find_command name l'
  end.

(** [ss >> part]; [word] has been read of the current part. *)
Fixpoint split_words (s word : string) : list string :=
  match s with
  | EmptyString => if decide (word = ""%string) then [] else [word]
  | String a s' =>
      if isspace a then if decide (word = ""%string) then split_words s' "" else word :: split_words s' ""
      else split_words s' (word +:+ String a "")
  end.
Definition splitCommand (input : string) : list string := split_words input "".

Definition isSpecialCommand (cmd : string) : bool :=
  match cmd with String a _ => bool_decide (a = back_slash) | EmptyString => false end.

(** A switch without argument, with [on], with [off], or with anything else. *)
Definition switched (old : bool) (args : list string) : bool :=
  match args with
  | [] => negb old
  | a :: _ => if decide (a = "on"%string) then true else if decide (a = "off"%string) then false else old
  end.
Definition on_off (b : bool) : string := if b then "ativado" else "desativado".

Fixpoint print_history (left_ : bool) (i : Z) (h : list string) : string :=
  match h with
  | [] => ""
  | cmd :: h' => pad_text left_ 4 (to_string (i + 1)) +:+ "  " +:+ cmd +:+ endl +:+ print_history left_ (i + 1) h'
  end.

Definition describe_rows : list (list string) :=
  [["id"; "INTEGER"; "NOT NULL"; "PK"]; ["nome"; "VARCHAR(100)"; "NULL"; ""]; ["idade"; "INTEGER"; "NULL"; ""]]%string.

Section Session.
(** The seconds since the start, and those that the query takes after a number of others. *)
Variable uptime : double.
Variable elapsed : Z → double.

Definition stats_text (c : Console) : string :=
  "Estatísticas da Sessão:" +:+ endl
  +:+ "  Queries executadas: " +:+ to_string (queries_executed c) +:+ endl
  +:+ "  Comandos executados: " +:+ to_string (commands_executed c) +:+ endl
  +:+ "  Tempo total de execução: " +:+ print_fixed 2 (total_execution_time c) +:+ "s" +:+ endl
  +:+ "  Tempo médio por query: "
  +:+ print_fixed 2 (if 0 <? queries_executed c
               then ddiv (total_execution_time c) (double_of_int (queries_executed c)) else dzero) +:+ "s" +:+ endl
  +:+ "  Uptime: " +:+ print_fixed 0 uptime +:+ "s" +:+ endl.

Definition help_text (l : list (string * ConsoleCommand)) : string :=
  String.concat "" ((λ nc, "  \" +:+ pad_text true 12 nc.1 +:+ " - " +:+ description nc.2 +:+ endl) <$> l)
  +:+ endl +:+ "Digite \help <comando> para ajuda detalhada." +:+ endl.

Definition run_help (args : list string) (c : Console) : Console :=
  match args with
  | [] => align_left (print (help_text (commands c)) (printMessage "Comandos disponíveis:" "info" c))
  | a :: _ =>
      match find_command a (commands c) with
      | Some cmd =>
          print_line ("Uso: " +:+ usage cmd) (print_line ("Descrição: " +:+ description cmd)
            (print_line ("Comando: \" +:+ cmd_name cmd) c))
      | None => printError ("Comando desconhecido: " +:+ a) c
      end
  end.

Definition run_list (args : list string) (c : Console) : Console :=
  let target := default "tables"%string (head args) in
  if decide (target = "tables"%string) then printTable ["Tabela"%string] [["usuarios"]; ["produtos"]; ["pedidos"]]%string c
  else if decide (target = "databases"%string) then printTable ["Banco de Dados"%string] [["default"]; ["test"]]%string c
  else c.

Definition run_echo (args : list string) (c : Console) : Console :=
  print_line (String.concat "" ((λ a, a +:+ " ") <$> args)) c.

(** The pause itself changes nothing; [std::stoi] throws on a text that is no number of an
    [int]. *)
Definition run_sleep (args : list string) (c : Console) : Console * bool :=
  match args with
  | [] => (printError "Tempo não especificado" c, false)
  | a :: _ => match stoi a with Some _ => (c, true) | None => (printError "Tempo inválido" c, false) end
  end.

(** The handlers. *)
Definition run_handler (h : Handler) (args : list string) (c : Console) : Console * bool :=
  match h with
  | Handler.HELP => (run_help args c, true)
  | Handler.QUIT => (set_running false (print_line "Finalizando OrangeSQL..." c), true)
  | Handler.CLEAR => (c, true)
  | Handler.LIST => (run_list args c, true)
  | Handler.DESCRIBE =>
      match args with
      | [] => (printError "Nome da tabela não especificado" c, false)
      | _ => (printTable ["Coluna"; "Tipo"; "Nulo"; "PK"]%string describe_rows c, true)
      end
  | Handler.TIMING =>
      let t := switched (show_timing c) args in
      (print_line ("Timing " +:+ on_off t) (set_flags (verbose c) (use_pager c) t c), true)
  | Handler.VERBOSE =>
      let v := switched (verbose c) args in
      (print_line ("Verbose mode " +:+ on_off v) (set_flags v (use_pager c) (show_timing c) c), true)
  | Handler.PAGER =>
      let p := switched (use_pager c) args in
      (print_line ("Pager " +:+ on_off p) (set_flags (verbose c) p (show_timing c) c), true)
  | Handler.HISTORY =>
      if decide (head args = Some "clear"%string)
      then (printMessage "Histórico limpo." "info" (clearHistory c), true)
      else (print (print_history (cout_left c) 0 (history c)) c, true)
  | Handler.STATS => (print (stats_text c) c, true)
  | Handler.ECHO => (run_echo args c, true)
  | Handler.SLEEP => run_sleep args c
  end.

Definition handleInternalCommand (cmd : string) (args : list string) (c : Console) : Console * bool :=
  match find_command cmd (commands c) with
  | Some command =>
      run_handler (handler command) args
        (set_console_counts (queries_executed c) (wrap 64 (commands_executed c + 1)) (total_execution_time c) c)
  | None => (printError ("Comando desconhecido: \" +:+ cmd) c, false)
  end.

(** ** Queries *)

Definition printResult (r : FormattedResult) (c : Console) : Console :=
  let c := match rows r with [] => c | _ => printTable (headers r) (rows r) c end in
  let c := print ("(" +:+ to_string (affected_rows r) +:+ " linhas afetadas)") c in
  let c := if show_timing c then print ("  [Tempo: " +:+ print_fixed 3 (execution_time r) +:+ "s]") c else c in
  print endl c.

(** The same rows for every query. *)
Definition simulated_result (time : double) : FormattedResult :=
  mkFormattedResult ["id"; "nome"; "idade"]%string
    [["1"; "João"; "30"]; ["2"; "Maria"; "25"]; ["3"; "Pedro"; "35"]]%string 3 time.

Definition executeQuery (query : string) (c : Console) : Console * bool :=
  let time := elapsed (queries_executed c) in
  let c := printResult (simulated_result time) c in
  (set_console_counts (wrap 64 (queries_executed c + 1)) (commands_executed c) (dadd (total_execution_time c) time) c, true).

(** [back()]: [None] for the empty string. *)
Fixpoint string_back (s : string) : option ascii :=
  match s with
  | EmptyString => None
  | String a EmptyString => Some a
  | String _ s' => string_back s'
  end.
Definition semicolon : ascii := ";"%char.

(** The lines until one ends in a semicolon, with the lines left. *)
Fixpoint read_query (lines : list string) (query out : string) : option (string * string * list string) :=
  let out := out +:+ "    -> " in
  match lines with
  | [] => Some (query, out, [])
  | line :: lines' =>
      let query := query +:+ " " +:+ line in
      back ← string_back line;
      if decide (back = semicolon) then Some (query, out, lines') else read_query lines' query out
  end.

Definition executeCommand (input : string) (c : Console) : option (Console * bool) :=
  match string_back input with
  | None => Some (c, true)
  | Some back =>
      if isSpecialCommand input then
        match splitCommand input with
        | [] => Some (c, true)
        | part :: args => Some (handleInternalCommand (String.substring 1 (String.length part) part) args c)
        end
      else if decide (back = semicolon) then Some (executeQuery input c)
      else
        r ← read_query (cin c) input "";
        let '(query, out, lines) := r in
        Some (executeQuery query (set_cin lines (print out c)))
  end.

(** The loop: every turn reads a line. *)
Fixpoint console_loop (fuel : nat) (c : Console) : option Console :=
  if running c then
    match fuel, cin c with
    | _, [] => Some (print (prompt c) c)
    | O, _ => None
    | S fuel', line :: lines =>
        let c := set_cin lines (print (prompt c) c) in
        if decide (line = ""%string) then console_loop fuel' c
        else
          r ← executeCommand line (addToHistory line c);
          console_loop fuel' r.1
    end
  else Some c.

Definition console_run (c : Console) : option Console :=
  let c := printWelcome (set_running true c) in
  c ← console_loop (S (length (cin c))) c;
  Some (print_line "Até logo!" c).

(** ** The program *)

Record Application := mkApplication {
  app_verbose : bool;
  no_pager : bool;
  no_timing : bool;
  direct_query : string;
  script_file : string
}.
Definition Application_new : Application := mkApplication false false false "" "".

(** [None] is [false], after the help, the version or an error was printed: the program ends with status 1. *)
Fixpoint parseArguments (args : list string) (a : Application) : option Application :=
  match args with
  | [] => Some a
  | arg :: args' =>
      if decide (arg = "-h" ∨ arg = "--help")%string then None
      else if decide (arg = "-v" ∨ arg = "--version")%string then None
      else if decide (arg = "-V" ∨ arg = "--verbose")%string then
        parseArguments args' (mkApplication true (no_pager a) (no_timing a) (direct_query a) (script_file a))
      else if decide (arg = "--no-pager")%string then
        parseArguments args' (mkApplication (app_verbose a) true (no_timing a) (direct_query a) (script_file a))
      else if decide (arg = "--no-timing")%string then
        parseArguments args' (mkApplication (app_verbose a) (no_pager a) true (direct_query a) (script_file a))
      else if decide (arg = "-c" ∨ arg = "--command")%string then
        match args' with
        | [] => Some a
        | q :: args'' =>
            parseArguments args'' (mkApplication (app_verbose a) (no_pager a) (no_timing a) q (script_file a))
        end
      else if decide (arg = "-f" ∨ arg = "--file")%string then
        match args' with
        | [] => Some a
        | f :: args'' =>
            parseArguments args'' (mkApplication (app_verbose a) (no_pager a) (no_timing a) (direct_query a) f)
        end
      else None
  end.

(** The console with the settings of the command line. *)
Definition configure (a : Application) (c : Console) : Console :=
  set_flags (verbose c || app_verbose a) (use_pager c && negb (no_pager a)) (show_timing c && negb (no_timing a)) c.

Definition app_run (a : Application) (c : Console) : option Console :=
  if decide (direct_query a = ""%string) then console_run c
  else Some (executeQuery (direct_query a) c).1.

(** The status of the program, with the console at its end if there was one. *)
Definition main (can_open : bool) (args input : list string) (file : option string) : option (option Console * Z) :=
  match parseArguments args Application_new with
  | None => Some (None, 1)
  | Some a =>
      c ← app_run a (configure a (initialize (Console_new input file)));
      Some (Some (console_shutdown can_open (console_shutdown can_open c)), 0)
  end.

End Session.

(** ** Highlighting *)

Module TokenKind.
Inductive TokenKind := KEYWORD | STRING | NUMBER | COMMENT | FUNCTION | OPERATOR | IDENTIFIER.

#[export] Instance TokenKind_eq_dec : EqDecision TokenKind.
Proof. solve_decision. Defined.
End TokenKind.
Export (hints) TokenKind.
Abbreviation TokenKind := TokenKind.TokenKind.

(** [colors_], which has every kind of token. *)
Definition default_colors (t : TokenKind) : string :=
  match t with
  | TokenKind.KEYWORD => ansi "1;34"
  | TokenKind.STRING => ansi "1;32"
  | TokenKind.NUMBER => ansi "1;35"
  | TokenKind.COMMENT => ansi "1;30"
  | TokenKind.FUNCTION => ansi "1;33"
  | TokenKind.OPERATOR => ansi "1;31"
  | TokenKind.IDENTIFIER => ansi "0"
  end.
Definition getColorCode (colors : TokenKind → string) (t : TokenKind) : string := colors t.
Fixpoint setColors (l : list (TokenKind * string)) (colors : TokenKind → string) : TokenKind → string :=
  match l with
  | [] => colors
  | (k, color) :: l' => setColors l' (λ t, if decide (t = k) then color else colors t)
  end.

Definition highlight_keywords : list string :=
  ["SELECT"; "INSERT"; "UPDATE"; "DELETE"; "CREATE"; "DROP"; "ALTER";
   "TABLE"; "INDEX"; "VIEW"; "TRIGGER"; "FUNCTION"; "PROCEDURE";
   "WHERE"; "FROM"; "JOIN"; "INNER"; "LEFT"; "RIGHT"; "OUTER";
   "ON"; "AND"; "OR"; "NOT"; "NULL"; "IS"; "IN"; "BETWEEN"; "LIKE";
   "ORDER"; "BY"; "GROUP"; "HAVING"; "LIMIT"; "OFFSET";
   "UNION"; "ALL"; "DISTINCT"; "AS"; "CASE"; "WHEN"; "THEN"; "ELSE";
   "END"; "EXISTS"; "ANY"; "SOME"; "ALL"; "WITH"; "RECURSIVE";
   "PRIMARY"; "FOREIGN"; "KEY"; "REFERENCES"; "CONSTRAINT";
   "DEFAULT"; "AUTO_INCREMENT"; "UNIQUE"; "CHECK";
   "BEGIN"; "COMMIT"; "ROLLBACK"; "TRANSACTION"; "SAVEPOINT";
   "GRANT"; "REVOKE"; "USER"; "ROLE"]%string.
Definition highlight_functions : list string :=
  ["COUNT"; "SUM"; "AVG"; "MIN"; "MAX"; "UPPER"; "LOWER"; "LENGTH"; "SUBSTR"; "TRIM";
   "NOW"; "DATE"; "TIME"; "YEAR"; "MONTH"; "DAY"; "CONCAT"; "COALESCE"; "NULLIF"; "CAST"]%string.

(** The variables of the loop. *)
Record Highlighter := mkHighlighter { hl_result : string; hl_token : string; in_string : bool; in_comment : bool }.

Definition quote : ascii := byte_ascii 39.
Definition is_operator (a : ascii) : bool :=
  bool_decide (a ∈ ["="; "<"; ">"; "!"; "+"; "-"; "*"; "/"]%char).

Section Highlight.
Variable colors : TokenKind → string.

Definition color_token (token : string) : string :=
  let upper_token := string_map toupper token in
  if decide (upper_token ∈ highlight_keywords) then colors TokenKind.KEYWORD +:+ token +:+ ansi "0"
  else if decide (upper_token ∈ highlight_functions) then colors TokenKind.FUNCTION +:+ token +:+ ansi "0"
  else if match token with String a _ => isdigit a | EmptyString => false end
       then colors TokenKind.NUMBER +:+ token +:+ ansi "0"
  else token.

(** A quote that opens or closes a string: one after some text that does not end in a back_slash. *)
Definition toggles (a : ascii) (h : Highlighter) : bool :=
  bool_decide (a = quote) && negb (in_comment h)
  && match string_back (hl_result h) with Some b => negb (bool_decide (b = back_slash)) | None => false end.

Definition add_char (a : ascii) (h : Highlighter) : Highlighter :=
  if isalnum a || bool_decide (a = "_"%char) then
    mkHighlighter (hl_result h) (hl_token h +:+ String a "") (in_string h) (in_comment h)
  else
    let result := if decide (hl_token h = ""%string) then hl_result h else hl_result h +:+ color_token (hl_token h) in
    let shown := if is_operator a then colors TokenKind.OPERATOR +:+ String a "" +:+ ansi "0" else String a "" in
    mkHighlighter (result +:+ shown) "" (in_string h) (in_comment h).

Fixpoint highlight_loop (sql : string) (h : Highlighter) : Highlighter :=
  match sql with
  | EmptyString => h
  | String a rest =>
      if toggles a h then
        highlight_loop rest
          (mkHighlighter (hl_result h +:+ (if in_string h then ansi "0" else colors TokenKind.STRING) +:+ String a "")
             (hl_token h) (negb (in_string h)) (in_comment h))
      else if in_string h || in_comment h then
        highlight_loop rest (mkHighlighter (hl_result h +:+ String a "") (hl_token h) (in_string h) (in_comment h))
      else
        match rest with
        | String b rest' =>
            if decide (a = "-"%char ∧ b = "-"%char) then
              highlight_loop rest'
                (mkHighlighter (hl_result h +:+ colors TokenKind.COMMENT +:+ "--") (hl_token h) (in_string h) true)
            else highlight_loop rest (add_char a h)
        | EmptyString => highlight_loop rest (add_char a h)
        end
  end.

Definition highlight (sql : string) : string :=
  let h := highlight_loop sql (mkHighlighter "" "" false false) in
  hl_result h +:+ hl_token h +:+ (if in_comment h then ansi "0" else "").

End Highlight.
