(* ===== verification/ConsoleProofs.v ===== *)
(** * ConsoleProofs: properties of the terminal

    What a session keeps in the file of the history, by the way in which it ends, and that the
    history is read back; the loop of the console ends with its input; highlighting keeps the text
    where there are no strings and comments. *)

From stdpp Require Import gmap strings.
From S2P Require Import Prelude CxxString CxxStream Doubles Console.

Open Scope Z_scope.

(** ** History *)

Lemma read_lines_line line text acc : no_char line_feed line = true →
  read_lines (line +:+ String line_feed text) acc = (acc +:+ line) :: read_lines text "".
Proof.
  revert acc. induction line as [|a line IH]; intros acc Hl.
  - change ("" +:+ String line_feed text) with (String line_feed text). cbn [read_lines].
    rewrite decide_True by done. by rewrite append_nil.
  - cbn [no_char] in Hl. apply andb_true_iff in Hl as [Ha Hl].
    change (String a line +:+ String line_feed text) with (String a (line +:+ String line_feed text)). cbn [read_lines].
    rewrite decide_False by (intros ->; by rewrite bool_decide_eq_true_2 in Ha).
    rewrite IH by done. by rewrite append_assoc.
Qed.

Lemma concat_nil_cons (s : string) l : String.concat "" (s :: l) = s +:+ String.concat "" l.
Proof. destruct l as [|t l]; cbn; [by rewrite append_nil|done]. Qed.

(** The lines of the file are the entries of the history. *)
Lemma history_roundtrip h : Forall (λ cmd, no_char line_feed cmd = true) h → read_lines (history_text h) "" = h.
Proof.
  unfold history_text. induction 1 as [|cmd h Hc Hh IH]; [done|]. rewrite fmap_cons, concat_nil_cons, append_assoc.
  change (endl +:+ ?t) with (String line_feed t). rewrite read_lines_line by done. by rewrite IH.
Qed.

(** One more entry, of at most [n]. *)
Definition push_history (n : nat) (h : list string) (cmd : string) : list string :=
  let h := h ++ [cmd] in if decide (n < length h)%nat then tail h else h.

Lemma push_history_bound n l : ∀ h, (length (foldl (push_history n) h l) ≤ n `max` length h)%nat.
Proof.
  induction l as [|cmd l IH]; intros h; cbn; [lia|]. rewrite IH. unfold push_history.
  assert (length (h ++ [cmd]) = S (length h)) as Hl by (rewrite length_app; cbn; lia).
  case_decide; [|lia]. destruct (h ++ [cmd]); cbn in *; lia.
Qed.

(** ** Lines *)

(** The handler of a line and its arguments. *)
Definition line_command (line : string) : option (Handler * list string) :=
  match splitCommand line with
  | [] => None
  | part :: args =>
      match find_command (String.substring 1 (String.length part) part) registered with
      | Some cmd => Some (handler cmd, args)
      | None => None
      end
  end.
Definition quits (line : string) : Prop :=
  isSpecialCommand line = true ∧ ∃ args, line_command line = Some (Handler.QUIT, args).
(** A command that neither ends the session nor clears the history, or a query on one line. *)
Definition plain_line (line : string) : Prop :=
  if isSpecialCommand line then
    ∀ args, line_command line ≠ Some (Handler.QUIT, args) ∧
            (line_command line = Some (Handler.HISTORY, args) → head args ≠ Some "clear"%string)
  else string_back line = Some semicolon.
Definition is_query (line : string) : bool := negb (isSpecialCommand line).

(** What no command of a session changes. *)
Record same_frame (c c' : Console) : Prop := {
  same_cin : cin c' = cin c;
  same_file : history_file c' = history_file c;
  same_max : history_max_size c' = history_max_size c;
  same_commands : commands c' = commands c
}.

Lemma same_frame_trans c1 c2 c3 : same_frame c1 c2 → same_frame c2 c3 → same_frame c1 c3.
Proof. intros [] []. split; congruence. Qed.

Lemma printTable_frame hs rs c :
  same_frame c (printTable hs rs c) ∧ history (printTable hs rs c) = history c ∧ running (printTable hs rs c) = running c ∧
  queries_executed (printTable hs rs c) = queries_executed c ∧ show_timing (printTable hs rs c) = show_timing c.
Proof. by destruct hs, rs. Qed.

Lemma printMessage_frame m t c :
  same_frame c (printMessage m t c) ∧ history (printMessage m t c) = history c ∧ running (printMessage m t c) = running c ∧
  queries_executed (printMessage m t c) = queries_executed c.
Proof. unfold printMessage. by repeat case_decide. Qed.

Section Session.
Variable uptime : double.
Variable elapsed : Z → double.

Lemma run_handler_frame h args c :
  let c' := (run_handler uptime h args c).1 in
  same_frame c c' ∧ queries_executed c' = queries_executed c ∧
  (h ≠ Handler.QUIT → running c' = running c) ∧ (h = Handler.QUIT → running c' = false) ∧
  ((h = Handler.HISTORY → head args ≠ Some "clear"%string) → history c' = history c).
Proof.
  destruct h; cbn [run_handler fst].
  - unfold run_help. destruct args as [|a args].
    + destruct (printMessage_frame "Comandos disponíveis:" "info" c) as ([] & ? & ? & ?). cbn. split_and!; try done.
    + destruct (find_command a (commands c)); cbn; split_and!; done.
  - cbn. split_and!; done.
  - cbn. split_and!; done.
  - unfold run_list. by repeat case_decide.
  - destruct args; [cbn; split_and!; done|].
    destruct (printTable_frame ["Coluna"; "Tipo"; "Nulo"; "PK"]%string describe_rows c) as (? & ? & ? & ? & _). split_and!; done.
  - cbn. split_and!; done.
  - cbn. split_and!; done.
  - cbn. split_and!; done.
  - case_decide as Hc; cbn [fst].
    + destruct (printMessage_frame "Histórico limpo." "info" (clearHistory c)) as (Hf & ? & ? & ?).
      split_and!; try done. intros Hn. by destruct (Hn eq_refl).
    + cbn. split_and!; done.
  - cbn. split_and!; done.
  - cbn. split_and!; done.
  - unfold run_sleep. destruct args as [|a args]; [|destruct (stoi a)]; cbn; split_and!; done.
Qed.

Lemma executeQuery_frame query c :
  let c' := (executeQuery elapsed query c).1 in
  same_frame c c' ∧ queries_executed c' = wrap 64 (queries_executed c + 1) ∧ running c' = running c ∧ history c' = history c.
Proof.
  unfold executeQuery, printResult. cbn [fst rows headers simulated_result].
  match goal with |- context [printTable ?h ?r c] => destruct (printTable_frame h r c) as ([] & ? & ? & ? & ?) end.
  set (c1 := printTable _ _ c) in *. clearbody c1.
  destruct (show_timing (print _ c1)); cbn; split_and!; try done; try congruence; by split.
Qed.

Lemma special_back line : isSpecialCommand line = true → is_Some (string_back line).
Proof.
  destruct line as [|a line]; [done|]. intros _. revert a. induction line as [|b line IH]; intros a; [by eexists|]. apply IH.
Qed.

(** A command, by its handler. *)
Lemma command_step line c : isSpecialCommand line = true → commands c = registered →
  ∃ c' b, executeCommand uptime elapsed line c = Some (c', b) ∧ same_frame c c' ∧
    queries_executed c' = queries_executed c ∧
    ((∀ args, line_command line ≠ Some (Handler.QUIT, args)) → running c' = running c) ∧
    ((∃ args, line_command line = Some (Handler.QUIT, args)) → running c' = false) ∧
    ((∀ args, line_command line = Some (Handler.HISTORY, args) → head args ≠ Some "clear"%string) → history c' = history c).
Proof.
  intros Hs Hc. destruct (special_back _ Hs) as [back Hb]. unfold executeCommand, line_command. rewrite Hb, Hs.
  destruct (splitCommand line) as [|part args].
  { exists c, true. split_and!; try done. by intros [? ?]. }
  unfold handleInternalCommand. rewrite Hc.
  destruct (find_command (String.substring 1 (String.length part) part) registered) as [cmd|].
  2:{ eexists _, false. split_and!; try done. by intros [? ?]. }
  set (c1 := set_console_counts _ _ _ c).
  destruct (run_handler_frame (handler cmd) args c1) as (Hf & Hq & Hr & Hr' & Hh). set (r := run_handler _ _ _ _) in *.
  exists r.1, r.2. split; [by destruct r|]. split; [destruct Hf; by split|]. split; [done|]. split_and!.
  - intros Hn. apply Hr. intros E. apply (Hn args). by rewrite E.
  - intros [args' E]. apply Hr'. congruence.
  - intros Hn. apply Hh. intros E. apply Hn. by rewrite E.
Qed.

Lemma plain_step line c : plain_line line → commands c = registered →
  ∃ c' b, executeCommand uptime elapsed line c = Some (c', b) ∧ same_frame c c' ∧
    queries_executed c' = (if is_query line then wrap 64 (queries_executed c + 1) else queries_executed c) ∧
    running c' = running c ∧ history c' = history c.
Proof.
  intros Hp Hc. unfold plain_line, is_query in *. destruct (isSpecialCommand line) eqn:Hs.
  - destruct (command_step line c Hs Hc) as (c' & b & He & Hf & Hq & Hr & _ & Hh). exists c', b.
    split_and!; try done; [apply Hr|apply Hh]; intros args; apply Hp.
  - unfold executeCommand. rewrite Hp, Hs, decide_True by done.
    destruct (executeQuery_frame line c) as (Hf & Hq & Hr & Hh). set (r := executeQuery _ _ _) in *.
    exists r.1, r.2. split; [by destruct r|]. by split_and!.
Qed.

Lemma quit_step line c : quits line → commands c = registered →
  ∃ c' b, executeCommand uptime elapsed line c = Some (c', b) ∧ same_frame c c' ∧
    queries_executed c' = queries_executed c ∧ running c' = false ∧ history c' = history c.
Proof.
  intros [Hs [args Ha]] Hc. destruct (command_step line c Hs Hc) as (c' & b & He & Hf & Hq & _ & Hr & Hh).
  exists c', b. split_and!; try done; [apply Hr; by eexists|]. apply Hh. intros args' E. congruence.
Qed.

(** ** The loop *)

Definition query_count (lines : list string) : nat := length (filter (λ l, is_query l) lines).

Lemma query_count_cons line lines :
  query_count (line :: lines) = (if is_query line then S (query_count lines) else query_count lines).
Proof.
  unfold query_count. destruct (is_query line) eqn:E.
  - rewrite filter_cons_True; [done|]. by rewrite E.
  - rewrite filter_cons_False; [done|]. rewrite E. by intros [].
Qed.

Lemma plain_nonempty line : plain_line line ∨ quits line → line ≠ ""%string.
Proof. by intros [Hp|[Hs _]] ->. Qed.

(** The console before it reads a line. *)
Definition reading (line : string) (rest : list string) (c : Console) : Console :=
  addToHistory line (set_cin rest (print (prompt c) c)).

Lemma console_loop_read fuel line rest c : running c = true → cin c = line :: rest → line ≠ ""%string →
  console_loop uptime elapsed (S fuel) c =
  (r ← executeCommand uptime elapsed line (reading line rest c); console_loop uptime elapsed fuel r.1).
Proof. intros Hr Hc Hl. cbn [console_loop]. rewrite Hr, Hc, decide_False by done. done. Qed.

Lemma console_loop_spec pre post : ∀ fuel c,
  (length (pre ++ post) < fuel)%nat → running c = true → cin c = pre ++ post → commands c = registered →
  Forall plain_line pre → (post = [] ∨ ∃ q rest, post = q :: rest ∧ quits q) →
  ∃ c', console_loop uptime elapsed fuel c = Some c' ∧ history_file c' = history_file c ∧ cin c' = tail post ∧
    running c' = bool_decide (post = []) ∧
    history c' = foldl (push_history (history_max_size c)) (history c) (pre ++ take 1 post) ∧
    queries_executed c' = (if decide (query_count pre = 0%nat) then queries_executed c
                           else wrap 64 (queries_executed c + Z.of_nat (query_count pre))).
Proof.
  induction pre as [|line pre IH]; intros fuel c Hfuel Hr Hcin Hcmd Hpre Hpost; (destruct fuel as [|fuel]; [lia|]).
  - destruct Hpost as [->|(q & rest & -> & Hq)].
    + exists (print (prompt c) c). cbn [console_loop]. rewrite Hr, Hcin. by split_and!.
    + rewrite (console_loop_read fuel q rest) by (try done; by apply plain_nonempty; right).
      destruct (quit_step q (reading q rest c) Hq) as (c' & b & -> & [Hf1 Hf2 Hf3 Hf4] & Hqs & Hrun & Hh); [done|].
      cbn [mbind option_bind fst]. exists c'. split; [destruct fuel; cbn; by rewrite Hrun|].
      split_and!; [done|done|done|by rewrite Hh|done].
  - apply Forall_cons in Hpre as [Hl Hpre].
    rewrite (console_loop_read fuel line (pre ++ post)) by (try done; by apply plain_nonempty; left).
    destruct (plain_step line (reading line (pre ++ post) c) Hl) as (c1 & b & -> & [Hf1 Hf2 Hf3 Hf4] & Hqs & Hrun & Hh); [done|].
    cbn [mbind option_bind fst].
    destruct (IH fuel c1) as (c' & -> & H1 & H2 & H3 & H4 & H5); [cbn in Hfuel; lia|by rewrite Hrun|by rewrite Hf1|by rewrite Hf4|done|done|].
    exists c'. split_and!; [done|by rewrite H1, Hf2|done|done|by rewrite H4, Hf3, Hh|].
    rewrite H5, Hqs, query_count_cons. cbn [queries_executed reading addToHistory set_history set_cin print set_cout].
    clear. destruct (is_query line); [|done]. generalize (query_count pre) as n. intros n.
    rewrite (decide_False (P := (S n = 0)%nat)) by lia. case_decide as E; [subst n; f_equal; lia|].
    rewrite wrap_add by lia. f_equal. lia.
Qed.


End Session.

(** ** Highlighting *)

Definition escape_char : ascii := byte_ascii 27.

(** The text without the codes of the terminal, which end in an m. *)
Fixpoint visible (in_code : bool) (s : string) : string :=
  match s with
  | EmptyString => ""
  | String a s' =>
      if in_code then visible (negb (bool_decide (a = "m"%char))) s'
      else if decide (a = escape_char) then visible true s' else String a (visible false s')
  end.

(** [s] is seen as [t], whatever follows. *)
Definition seen_as (s t : string) : Prop := ∀ rest, visible false (s +:+ rest) = t +:+ visible false rest.

Lemma seen_as_app s1 t1 s2 t2 : seen_as s1 t1 → seen_as s2 t2 → seen_as (s1 +:+ s2) (t1 +:+ t2).
Proof. intros H1 H2 rest. by rewrite !append_assoc, H1, H2. Qed.

Lemma seen_as_plain s : no_char escape_char s = true → seen_as s s.
Proof.
  intros Hs rest. induction s as [|a s IH]; [done|]. cbn [no_char] in Hs. apply andb_true_iff in Hs as [Ha Hs].
  change (String a s +:+ rest) with (String a (s +:+ rest)). cbn [visible].
  rewrite decide_False by (intros ->; by rewrite bool_decide_eq_true_2 in Ha). by rewrite IH.
Qed.

Lemma seen_as_reset : seen_as (ansi "0") "".
Proof. done. Qed.

Section Highlighting.
Variable colors : TokenKind → string.
Hypothesis colors_codes : ∀ t, seen_as (colors t) "".

Lemma seen_as_colored t s : no_char escape_char s = true → seen_as (colors t +:+ s +:+ ansi "0") s.
Proof.
  intros Hs. rewrite <- (append_nil s) at 2.
  apply (seen_as_app _ "" _ (s +:+ "")); [apply colors_codes|].
  apply seen_as_app; [by apply seen_as_plain|apply seen_as_reset].
Qed.

Lemma color_token_seen token : no_char escape_char token = true → seen_as (color_token colors token) token.
Proof.
  intros Ht. unfold color_token. repeat case_match; auto using seen_as_colored, seen_as_plain.
Qed.

(** The loop between two characters: what was shown and the pending token are the text so far. *)
Definition shows (h : Highlighter) (text : string) : Prop :=
  in_string h = false ∧ in_comment h = false ∧ no_char escape_char (hl_token h) = true ∧
  ∃ t, seen_as (hl_result h) t ∧ text = t +:+ hl_token h.

Lemma add_char_shows a h text : a ≠ escape_char → shows h text → shows (add_char colors a h) (text +:+ String a "").
Proof.
  intros Ha (H1 & H2 & Htok & t & Ht & ->). unfold add_char.
  assert (no_char escape_char (String a "") = true) as Hc by (cbn; by rewrite bool_decide_eq_false_2).
  destruct (isalnum a || bool_decide (a = "_"%char)).
  - split_and!; try done; cbn [hl_token hl_result].
    + by rewrite no_char_app, Htok, Hc.
    + exists t. split; [done|]. apply append_assoc.
  - split_and!; try done; cbn [hl_token hl_result]. exists ((t +:+ hl_token h) +:+ String a ""). rewrite append_nil.
    split; [|done]. apply seen_as_app.
    + case_decide as E; [rewrite E; by rewrite append_nil|]. apply seen_as_app; [done|by apply color_token_seen].
    + destruct (is_operator a); [by apply seen_as_colored|by apply seen_as_plain].
Qed.

(** No quote, no escape character and no comment. *)
Fixpoint simple_text (s : string) : bool :=
  match s with
  | EmptyString => true
  | String a rest =>
      negb (bool_decide (a = quote)) && negb (bool_decide (a = escape_char))
      && negb match rest with
              | String b _ => bool_decide (a = "-"%char) && bool_decide (b = "-"%char)
              | EmptyString => false
              end
      && simple_text rest
  end.

Lemma highlight_loop_shows sql : ∀ h text, simple_text sql = true → shows h text →
  shows (highlight_loop colors sql h) (text +:+ sql).
Proof.
  induction sql as [|a sql IH]; intros h text Hs Hh; [by rewrite append_nil|].
  cbn [simple_text] in Hs. apply andb_true_iff in Hs as [Hs Hrest]. apply andb_true_iff in Hs as [Hs Hdash].
  apply andb_true_iff in Hs as [Hq Ha]. apply negb_true_iff, bool_decide_eq_false in Hq, Ha.
  pose proof Hh as (H1 & H2 & _).
  assert (toggles a h = false) as Ht by (unfold toggles; by rewrite bool_decide_eq_false_2).
  assert (highlight_loop colors (String a sql) h = highlight_loop colors sql (add_char colors a h)) as ->.
  { cbn [highlight_loop]. rewrite Ht, H1, H2. cbn [orb]. destruct sql as [|b sql]; [done|].
    rewrite decide_False; [done|]. intros [-> ->]. by rewrite !bool_decide_eq_true_2 in Hdash. }
  replace (text +:+ String a sql) with ((text +:+ String a "") +:+ sql) by apply append_assoc.
  apply IH; [done|]. by apply add_char_shows.
Qed.

(** The highlighted text of SQL without strings and comments is the text itself with codes of the terminal in between. *)
Theorem highlight_keeps_text sql : simple_text sql = true → visible false (highlight colors sql) = sql.
Proof.
  intros Hs. destruct (highlight_loop_shows sql (mkHighlighter "" "" false false) "" Hs) as (_ & Hc & Htok & t & Ht & E).
  { split_and!; try done. exists ""%string. done. }
  unfold highlight. set (h := highlight_loop _ _ _) in *. clearbody h. rewrite Hc, append_nil.
  change ("" +:+ sql) with sql in E. rewrite Ht, E. f_equal.
  pose proof (seen_as_plain _ Htok ""%string) as Hv. cbn [visible] in Hv. by rewrite !append_nil in Hv.
Qed.

End Highlighting.

(** A word before a quote, or before a comment, is shown after it. *)
Example highlight_reorders :
  visible false (highlight default_colors "1 a'b'") = "1 'b'a"%string ∧
  visible false (highlight default_colors "a--b") = "--ba"%string.
Proof. split; reflexivity. Qed.

(** ** Concrete sessions *)

Definition session_lines : list string := ["\timing off"; "SELECT 1;"]%string.

Lemma plain_session : Forall plain_line session_lines.
Proof.
  apply Forall_cons. split; [|apply Forall_cons; split; [reflexivity|constructor]].
  intros args. split; [|intros E]; vm_compute in *; discriminate.
Qed.

Lemma quit_line : quits "\quit".
Proof. split; [reflexivity|]. exists []. reflexivity. Qed.

