(* ===== verification/ConsoleTools.v ===== *)
(** * ConsoleTools: around the session of the console (src/cli/console.cpp, main.cpp)

    The handler of the interrupt and the one console it knows, the completion of commands for
    readline, the pager, the clock of the console and the texts of the command line. *)

From stdpp Require Import strings list.
From S2P Require Import Prelude CxxString CxxStream Doubles DecimalText Utils UtilsSystem Console.

Open Scope Z_scope.

(** ** The one console *)

(** [g_console_instance] *)
Definition console_instance : Type := option Console.

(** The constructor registers the console. *)
Definition Console_register (c : Console) : console_instance := Some c.

Definition sigint_handler (g : console_instance) : console_instance :=
  match g with
  | Some c => Some (handleSigInt (print endl c))
  | None => None
  end.

(** [Console::~Console]: what is left of the console, and the instance. *)
Definition Console_destroy (can_open : bool) (c : Console) : Console * console_instance :=
  (console_shutdown can_open c, None).

(** [OrangeSQLApplication::shutdown] *)
Definition app_shutdown (can_open : bool) (c : option Console) : option Console := console_shutdown can_open <$> c.

(** ** Completion *)

(** [name.find(prefix) == 0] *)
Fixpoint has_prefix (prefix name : string) : bool :=
  match prefix, name with
  | EmptyString, _ => true
  | String a p, String b n => bool_decide (a = b) && has_prefix p n
  | String _ _, EmptyString => false
  end.

(** The function given to readline: the matches, or a null pointer. *)
Definition attempted_completion (g : console_instance) (text : string) (start : Z) : option (list string) :=
  if start =? 0 then
    let matches :=
      match g with
      | Some c => omap (λ nc, if has_prefix text nc.1 then Some (String back_slash nc.1) else None) (commands c)
      | None => []
      end in
    match matches with [] => None | _ => Some matches end
  else None.

(** ** The clock *)

Definition getCurrentTime (localtime : Z → time_utils.tm) (ns : Z) : string := time_utils.now_text localtime ns.

(** ** The pager *)

(** The command, and what the process has been given while it is open. *)
Record Pager := mkPager { pager_command : string; pager_process : option string }.

(** [which] tells whether a program is found. *)
Definition Pager_new (which : string → bool) : Pager :=
  mkPager (if which "less" then "less -R" else if which "more" then "more" else "")%string None.

(** [popen] may fail. *)
Definition Pager_open (popen : string → bool) (p : Pager) : Pager :=
  if decide (pager_command p = ""%string) then p
  else mkPager (pager_command p) (if popen (pager_command p) then Some ""%string else None).

(** [fputs] writes up to the first zero; without a process the text goes to [std::cout]. *)
Definition Pager_write (text : string) (p : Pager) (out : string) : Pager * string :=
  match pager_process p with
  | Some given => (mkPager (pager_command p) (Some (given +:+ string_format.c_str text)), out)
  | None => (p, out +:+ text)
  end.

Definition Pager_close (p : Pager) : Pager := mkPager (pager_command p) None.
Definition Pager_destroy (p : Pager) : Pager := Pager_close p.

(** ** The texts of the command line *)

Definition double_quote : ascii := byte_ascii 34.

Definition printHelp : string :=
  "OrangeSQL - Banco de Dados ACID com B-Tree" +:+ endl +:+ endl +:+
  "Uso: orangesql [OPÇÕES]" +:+ endl +:+ endl +:+
  "Opções:" +:+ endl +:+
  "  -h, --help        Mostra esta mensagem de ajuda" +:+ endl +:+
  "  -v, --version     Mostra a versão" +:+ endl +:+
  "  -V, --verbose     Modo verboso" +:+ endl +:+
  "  --no-pager        Desativa pager para resultados longos" +:+ endl +:+
  "  --no-timing       Desativa exibição do tempo de execução" +:+ endl +:+
  "  -c, --command SQL Executa comando SQL e sai" +:+ endl +:+
  "  -f, --file ARQ    Executa comandos do arquivo e sai" +:+ endl +:+ endl +:+
  "Exemplos:" +:+ endl +:+
  "  orangesql" +:+ endl +:+
  "  orangesql -c " +:+ String double_quote ("SELECT * FROM usuarios;" +:+ String double_quote endl) +:+
  "  orangesql -f script.sql" +:+ endl +:+ endl.

Definition printVersion : string :=
  "OrangeSQL versão 1.0.0" +:+ endl +:+ "Compilado com C++17" +:+ endl +:+
  "Copyright (c) 2024 OrangeSQL" +:+ endl +:+ endl.

(** ** What is proved *)

Lemma has_prefix_spec prefix name : has_prefix prefix name = true ↔ ∃ rest, name = prefix +:+ rest.
Proof.
  revert name. induction prefix as [|a p IH]; intros name; cbn; [split; [by exists name|done]|].
  destruct name as [|b n]; [split; [done|by intros [? ?]]|]. rewrite andb_true_iff, bool_decide_eq_true, IH.
  split; [intros [-> [rest ->]]; by exists rest|]. intros [rest Heq].
  change (String a p +:+ rest) with (String a (p +:+ rest)) in Heq. simplify_eq. eauto.
Qed.

(** At the start of a line the completions are the commands whose name begins with the text,
    each with a backslash, in the order of the commands; there is no other completion, and the
    text itself is not among them, though readline takes the first for what replaces it. *)
Theorem completion_spec c text start :
  match attempted_completion (Some c) text start with
  | Some l => start = 0 ∧ l ≠ [] ∧ ∀ m, m ∈ l ↔ ∃ name cmd rest, (name, cmd) ∈ commands c ∧ name = text +:+ rest ∧ m = String back_slash name
  | None => start = 0 → ∀ name cmd rest, (name, cmd) ∈ commands c → name ≠ text +:+ rest
  end.
Proof.
  unfold attempted_completion. destruct (Z.eqb_spec start 0) as [->|Hs]; [|done].
  set (l := omap _ (commands c)).
  assert (∀ m, m ∈ l ↔ ∃ name cmd rest, (name, cmd) ∈ commands c ∧ name = text +:+ rest ∧ m = String back_slash name) as Hl.
  { intros m. unfold l. rewrite list_elem_of_omap. split.
    - intros ([name cmd] & Hin & Hm). cbn in Hm. destruct (has_prefix text name) eqn:Hp; simplify_eq.
      apply has_prefix_spec in Hp as [rest ->]. by exists (text +:+ rest), cmd, rest.
    - intros (name & cmd & rest & Hin & -> & ->). exists (text +:+ rest, cmd). split; [done|]. cbn.
      by rewrite (proj2 (has_prefix_spec _ _)) by eauto. }
  destruct l as [|x l0]; [|done]. intros _ name cmd rest Hin ->.
  apply (elem_of_nil (String back_slash (text +:+ rest))), Hl. by exists (text +:+ rest), cmd, rest.
Qed.

(** Texts written between opening and closing. *)
Definition page_all (texts : list string) (p : Pager) (out : string) : Pager * string :=
  foldl (λ po t, Pager_write t po.1 po.2) (p, out) texts.

Lemma page_all_process texts : ∀ cmd given out,
  page_all texts (mkPager cmd (Some given)) out =
    (mkPager cmd (Some (given +:+ String.concat "" (string_format.c_str <$> texts))), out).
Proof.
  unfold page_all. induction texts as [|t texts IH]; intros cmd given out; cbn [foldl fmap list_fmap].
  - cbn. by rewrite append_nil.
  - unfold Pager_write at 2. cbn [pager_process pager_command fst snd]. rewrite IH, append_assoc.
    do 3 f_equal. destruct texts as [|t' texts]; cbn [fmap list_fmap]; cbn [String.concat]; [by rewrite append_nil|done].
Qed.

Lemma page_all_out texts : ∀ cmd out,
  page_all texts (mkPager cmd None) out = (mkPager cmd None, out +:+ String.concat "" texts).
Proof.
  unfold page_all. induction texts as [|t texts IH]; intros cmd out; cbn [foldl].
  - cbn. by rewrite append_nil.
  - unfold Pager_write at 2. cbn [pager_process pager_command fst snd]. rewrite IH, append_assoc.
    do 2 f_equal. destruct texts as [|t' texts]; cbn [String.concat]; [by rewrite append_nil|done].
Qed.

(** The pager: with a command that can be started the process is given the texts in order, up
    to their zero bytes, and nothing is printed; otherwise the texts are printed.  Closing
    leaves no process. *)
Theorem pager_spec popen p texts out :
  pager_process p = None →
  let '(p', out') := page_all texts (Pager_open popen p) out in
  (if bool_decide (pager_command p ≠ ""%string) && popen (pager_command p)
   then pager_process p' = Some (String.concat "" (string_format.c_str <$> texts)) ∧ out' = out
   else pager_process p' = None ∧ out' = out +:+ String.concat "" texts) ∧
  pager_process (Pager_close p') = None.
Proof.
  destruct p as [cmd proc]. cbn [pager_process pager_command]. intros ->. unfold Pager_open. cbn [pager_command].
  case_decide as Hc.
  - rewrite bool_decide_false by tauto. cbn [andb]. by rewrite page_all_out.
  - rewrite bool_decide_true by done. cbn [andb]. destruct (popen cmd).
    + rewrite page_all_process. done.
    + by rewrite page_all_out.
Qed.

(** An interrupt prints and does not end the session; after the console is destroyed it does
    nothing. *)
Theorem sigint_keeps_session can_open c :
  (∃ c', sigint_handler (Console_register c) = Some c' ∧ running c' = running c ∧ history c' = history c ∧ cin c' = cin c) ∧
  sigint_handler (Console_destroy can_open c).2 = None.
Proof. split; [by eexists|done]. Qed.
