(* ===== verification/TestBTree.v ===== *)
(** * TestBTree: the tests of the B-tree (src/tests/test_btree.cpp)

    The fixture and the four tests, as programs in the monad of the tree that return the
    outcome of each expectation in order.  A test passes when it ends and every
    expectation holds. *)

From stdpp Require Import gmap list.
From S2P Require Import Prelude CxxString Types Page FileManager BufferPool BufferPoolProofs TableProofs BTreeNode BTreeNodeProofs BTree BTreeProofs BTreeQueries.

Open Scope Z_scope.

#[local] Instance key_int : Key Z := int_key 4.
#[local] Instance key_int_laws : KeyLaws Z.
Proof. apply int_key_laws. lia. Defined.
#[local] Instance remove_int : IntRemove Z := int32_remove.

Section Tests.
Context {St : Type} `{HS : PageStore St}.
(** [Page::getData], as for the nodes over the pool. *)
Variable page_bytes : Page → list Z.
Variable set_page_bytes : list Z → Page → Page.
#[local] Instance test_nodes : NodeStore Z (BufferPool St) := PoolNodes 1 page_bytes set_page_bytes.
(** The fuel of the tree's operations, and what an uninitialised [RecordId] reads as. *)
Variable fuel : nat.
Variable garbage : Z.

(** [EXPECT_EQ]: the outcome is recorded and the test goes on. *)
Definition EXPECT_EQ {A} `{EqDecision A} (a b : A) : M (T := BufferPool St) (list bool) :=
  mret [bool_decide (a = b)].

(** [for (int i = first; i < first + steps; i++) body(i)] *)
Fixpoint test_loop (steps : nat) (first : Z) (body : Z → M (T := BufferPool St) (list bool)) : M (list bool) :=
  match steps with
  | O => mret []
  | S steps' =>
      now ← body first;
      later ← test_loop steps' (first + 1) body;
      mret (now ++ later)
  end.

(** The fixture: a pool of 100 frames and index 1 over it. *)
Definition SetUp (st : St) : option (BTree (BufferPool St) * ()) :=
  BTree_open IndexConfig_default (BufferPool_new 100 st).

Definition BTreeTest_InsertAndFind : M (list bool) :=
  inserted ← test_loop 1000 0 (λ i, status ← btree_insert fuel i i; EXPECT_EQ status StatusCode.OK);
  found ← test_loop 1000 0 (λ i,
    r ← btree_find fuel i;
    a ← EXPECT_EQ r.1 StatusCode.OK;
    b ← EXPECT_EQ (default garbage r.2) i;
    mret (a ++ b));
  mret (inserted ++ found).

(** [results[i - 30]] past the end of the vector is undefined. *)
Definition BTreeTest_RangeQuery : M (list bool) :=
  _ ← test_loop 100 0 (λ i, _ ← btree_insert fuel i i; mret []);
  results ← rangeQuery fuel 30 50;
  a ← EXPECT_EQ (Z.of_nat (length results)) 21;
  b ← test_loop 21 30 (λ i, v ← lift (results !! Z.to_nat (i - 30)); EXPECT_EQ v i);
  mret (a ++ b).

Definition BTreeTest_DuplicateKey : M (list bool) :=
  _ ← btree_insert fuel 42 100;
  status ← btree_insert fuel 42 200;
  EXPECT_EQ status StatusCode.ALREADY_EXISTS.

Definition BTreeTest_NotFound : M (list bool) :=
  r ← btree_find fuel 999;
  EXPECT_EQ r.1 StatusCode.NOT_FOUND.

(** The outcomes of a test on a new fixture; [None] when the run is undefined. *)
Definition TEST_F (test : M (list bool)) (st : St) : option (list bool) :=
  t ← SetUp st; r ← test t.1; Some r.2.

Definition test_passes (test : M (list bool)) (st : St) : bool :=
  match TEST_F test st with Some l => forallb id l | None => false end.

(** [RUN_ALL_TESTS]: zero when every test passes. *)
Definition RUN_ALL_TESTS (st : St) : Z :=
  if forallb (λ test, test_passes test st) [BTreeTest_InsertAndFind; BTreeTest_RangeQuery; BTreeTest_DuplicateKey; BTreeTest_NotFound] then 0 else 1.

(** ** A directory without the file of the index *)

Hypothesis page_bytes_length : ∀ pg, length (page_bytes pg) = Z.to_nat PAGE_SIZE.
Hypothesis page_bytes_set : ∀ pg bs, length bs = Z.to_nat PAGE_SIZE → page_bytes (set_page_bytes bs pg) = bs.

Lemma int_key_small : (ksize ≤ 23)%nat.
Proof. apply Nat.leb_le. reflexivity. Qed.

#[local] Instance test_nodes_laws : NodeStoreLaws Z (BufferPool St) :=
  pool_nodes_laws 1 page_bytes set_page_bytes page_bytes_length page_bytes_set int_key_small.

Lemma int_default_ok : kok (kdefault : Z).
Proof. change (- 2 ^ 31 ≤ 0 < 2 ^ 31). lia. Qed.

(** A new pool over a file whose first page cannot be read. *)
Lemma new_pool_load st st' n :
  (0 < n)%nat → ps_read st (table_file 1) 0 = (st', None) →
  ns_load 0 (BufferPool_new n st) =
    Some (set_store st' (set_stats count_miss (BufferPool_new n st)), @None (BTreeNode Z)).
Proof.
  intros Hn Hread. cbn [ns_load test_nodes PoolNodes]. unfold pool_load, fetchPage.
  cbn [frames BufferPool_new]. rewrite lookup_empty, new_pool_room by done. cbn [mbind option_bind].
  unfold readFromDisk. cbn [file_manager set_stats BufferPool_new]. by rewrite Hread.
Qed.

Lemma SetUp_new st st' :
  ps_read st (table_file 1) 0 = (st', None) → ∃ t m, SetUp st = Some (t, ()) ∧ empty_root t m.
Proof.
  intros Hread. destruct (BTree_open_new int_default_ok IndexConfig_default (BufferPool_new 100 st) _
    (new_pool_load st st' 100 ltac:(lia) Hread)) as (t & m & Ho & He & _).
  - apply pool_ok_store, pool_ok_stats, BufferPool_new_ok.
  - split; [vm_compute; lia|]. split; [unfold fits; cbn; lia|done].
  - by exists t, m.
Qed.

(** A loop whose body keeps an invariant and has the same outcomes at every turn. *)
Lemma test_loop_const (I : BTree (BufferPool St) → Prop) body (out : Z → list bool) :
  (∀ i t, I t → ∃ t', body i t = Some (t', out i) ∧ I t') →
  ∀ steps first t, I t →
  ∃ t', test_loop steps first body t =
    Some (t', concat (out <$> ((λ i, first + Z.of_nat i) <$> seq 0 steps))) ∧ I t'.
Proof.
  intros Hbody. induction steps as [|steps IH]; intros first t Ht; [by exists t|]. cbn [test_loop].
  destruct (Hbody first t Ht) as (t1 & Hb & Ht1). destruct (IH (first + 1) t1 Ht1) as (t2 & Hl & Ht2).
  exists t2. split; [|done]. rewrite (M_bind_eq _ _ _ _ _ Hb), (M_bind_eq _ _ _ _ _ Hl).
  cbn [seq fmap list_fmap concat]. rewrite Z.add_0_r, <- fmap_S_seq. unfold mret, M_ret.
  do 4 f_equal. rewrite <- !list_fmap_compose. apply list_fmap_ext. intros i x _. cbn. f_equal. lia.
Qed.

Lemma concat_const {A} (out : A → list bool) b l :
  (∀ x, out x = [b]) → concat (out <$> l) = replicate (length l) b.
Proof. intros Hout. induction l as [|x l IH]; [done|]. cbn. by rewrite Hout, IH. Qed.

Lemma loop_inserts_fail m steps t :
  empty_root t m →
  ∃ t', test_loop steps 0 (λ i, status ← btree_insert fuel i i; EXPECT_EQ status StatusCode.OK) t =
    Some (t', replicate steps false) ∧ empty_root t' m.
Proof.
  intros He. destruct (test_loop_const (λ t, empty_root t m)
    (λ i, status ← btree_insert fuel i i; EXPECT_EQ status StatusCode.OK) (λ _, [false])) with steps 0 t
    as (t' & Hl & He'); [|done|].
  - intros i u Hu. destruct (empty_root_insert u m fuel i i Hu) as (u' & Hi & Hu' & _).
    exists u'. split; [|done]. by rewrite (M_bind_eq _ _ _ _ _ Hi).
  - exists t'. split; [|done]. rewrite Hl. f_equal. f_equal.
    rewrite (concat_const _ false) by done. by rewrite !length_fmap, length_seq.
Qed.

Lemma insert_and_find_fails m t :
  empty_root t m → (0 < fuel)%nat →
  ∃ t', BTreeTest_InsertAndFind t = Some (t', replicate 1000 false ++
    concat ((λ i, [false; bool_decide (garbage = i)]) <$> (Z.of_nat <$> seq 0 1000))).
Proof.
  intros He Hfuel. unfold BTreeTest_InsertAndFind. destruct (loop_inserts_fail m 1000 t He) as (t1 & H1 & He1).
  rewrite (M_bind_eq _ _ _ _ _ H1).
  destruct (test_loop_const (λ t, empty_root t m) (λ i,
    r ← btree_find fuel i;
    a ← EXPECT_EQ r.1 StatusCode.OK;
    b ← EXPECT_EQ (default garbage r.2) i;
    mret (a ++ b)) (λ i, [false; bool_decide (garbage = i)])) with 1000%nat 0 t1
    as (t2 & H2 & _); [|done|].
  - intros i u Hu. destruct (empty_root_find u m fuel i Hu Hfuel) as (u' & Hf & Hu').
    exists u'. split; [|done]. by rewrite (M_bind_eq _ _ _ _ _ Hf).
  - exists t2. by rewrite (M_bind_eq _ _ _ _ _ H2).
Qed.

Lemma range_query_undefined m t : empty_root t m → (0 < fuel)%nat → BTreeTest_RangeQuery t = None.
Proof.
  intros He Hfuel. unfold BTreeTest_RangeQuery.
  destruct (test_loop_const (λ t, empty_root t m) (λ i, _ ← btree_insert fuel i i; mret []) (λ _, []))
    with 100%nat 0 t as (t1 & H1 & He1); [|done|].
  { intros i u Hu. destruct (empty_root_insert u m fuel i i Hu) as (u' & Hi & Hu' & _).
    exists u'. split; [|done]. by rewrite (M_bind_eq _ _ _ _ _ Hi). }
  rewrite (M_bind_eq _ _ _ _ _ H1).
  destruct (empty_root_range t1 m fuel 30 50 He1 Hfuel) as (t2 & H2 & _).
  by rewrite (M_bind_eq _ _ _ _ _ H2).
Qed.


(** ** An index whose root is an empty leaf *)

(** The entries after the first [k] insertions of [BTreeTest_RangeQuery]. *)
Definition first_entries (k : nat) : list (Z * Z) := (λ i, (Z.of_nat i, Z.of_nat i)) <$> seq 0 k.

Lemma ins_first_entries k :
  ins (Z.of_nat k) (Z.of_nat k) (first_entries k) = first_entries (S k).
Proof.
  unfold first_entries. rewrite <- (app_nil_r (_ <$> seq 0 k)), ins_below.
  - by rewrite (seq_S k 0), fmap_app.
  - apply Forall_fmap, Forall_seq. intros i Hi. cbn. apply Z.compare_lt_iff. lia.
Qed.

Lemma loop_inserts_leaf steps : ∀ k t m,
  leaf_root t m (first_entries k) → (k + steps ≤ MAX_KEYS)%nat → cfg_unique (bt_config t) = false →
  ∃ t' m', test_loop steps (Z.of_nat k) (λ i, _ ← btree_insert fuel i i; mret []) t = Some (t', []) ∧
    leaf_root t' m' (first_entries (k + steps)).
Proof.
  induction steps as [|steps IH]; intros k t m Ht Hk Hu; [exists t, m; by rewrite Nat.add_0_r|].
  assert (MAX_KEYS ≤ 127)%nat as Hmax by done.
  destruct (leaf_root_insert t m _ fuel (Z.of_nat k) (Z.of_nat k) Ht) as (t1 & m1 & Hi & Ht1 & [_ Hc]).
  - unfold first_entries. rewrite length_fmap, length_seq. lia.
  - change (- 2 ^ 31 ≤ Z.of_nat k < 2 ^ 31). lia.
  - unfold fits. lia.
  - done.
  - rewrite ins_first_entries in Ht1.
    destruct (IH (S k) t1 m1 Ht1) as (t2 & m2 & Hl & Ht2); [lia|by rewrite Hc|].
    exists t2, m2. split; [|by rewrite Nat.add_succ_r]. cbn [test_loop].
    assert ((_ ← btree_insert fuel (Z.of_nat k) (Z.of_nat k); mret []) t = Some (t1, [] : list bool)) as Hb
      by (by rewrite (M_bind_eq _ _ _ _ _ Hi)).
    rewrite (M_bind_eq _ _ _ _ _ Hb). replace (Z.of_nat k + 1) with (Z.of_nat (S k)) by lia.
    by rewrite (M_bind_eq _ _ _ _ _ Hl).
Qed.

(** (C40) The same tests on an index whose root is an empty leaf, as the constructor means it to
    be: [BTreeTest_RangeQuery] passes all its twenty-two expectations, but [BTreeTest_DuplicateKey] fails
    still, since the default configuration does not make the index unique and the
    second insertion replaces the value. *)
Theorem btree_tests_leaf_index t m :
  leaf_root t m [] → bt_config t = IndexConfig_default → (100 < fuel)%nat →
  (∃ t', BTreeTest_RangeQuery t = Some (t', replicate 22 true)) ∧
  (∃ t' m', BTreeTest_DuplicateKey t = Some (t', [false]) ∧ leaf_root t' m' [(42, 200)]).
Proof.
  intros Ht Hcfg Hfuel. assert (cfg_unique (bt_config t) = false) as Hu by (by rewrite Hcfg). split.
  - destruct (loop_inserts_leaf 100 0 t m Ht) as (t1 & m1 & Hl & Ht1); [apply Nat.leb_le; reflexivity|done|].
    destruct (leaf_root_range t1 m1 _ fuel 30 50 Ht1) as (t2 & Hr); [done|done|].
    exists t2. unfold BTreeTest_RangeQuery. change 0 with (Z.of_nat 0) at 1.
    rewrite (M_bind_eq _ _ _ _ _ Hl), (M_bind_eq _ _ _ _ _ Hr). reflexivity.
  - destruct (leaf_root_insert t m _ fuel 42 100 Ht) as (t1 & m1 & H1 & Ht1 & [_ Hc]);
      [apply Nat.ltb_lt; reflexivity|change (- 2 ^ 31 ≤ 42 < 2 ^ 31); lia|unfold fits; lia|done|].
    destruct (leaf_root_insert t1 m1 _ fuel 42 200 Ht1) as (t2 & m2 & H2 & Ht2 & _);
      [apply Nat.ltb_lt; reflexivity|change (- 2 ^ 31 ≤ 42 < 2 ^ 31); lia|unfold fits; lia|by rewrite Hc|].
    exists t2, m2. split; [|done]. unfold BTreeTest_DuplicateKey.
    by rewrite (M_bind_eq _ _ _ _ _ H1), (M_bind_eq _ _ _ _ _ H2).
Qed.

End Tests.

(** ** Examples *)

#[local] Instance test_store : PageStore FileManager := FileManager_store env0.

Lemma no_index_file : ∃ fm, ps_read fm_nofile (table_file 1) 0 = (fm, None).
Proof.
  destruct (ps_read fm_nofile (table_file 1) 0) as [fm r] eqn:Hread. exists fm.
  assert (r = None) as -> by (vm_compute in Hread; congruence). done.
Qed.


(** Page 1 with an empty leaf. *)
Definition leaf0 : BTreeNode Z := BTreeNode_new 1 BTreeNodeType.LEAF.
Definition leaf0_bytes : list Z :=
  let bs := node_serialize leaf0 (replicate 4 0) in bs ++ replicate (4096 - length bs) 0.
Definition leaf0_frame : BufferFrame := mkFrame (set_bytes0 leaf0_bytes (Page_new 1 1)) 0 false false.
Definition empty_leaf_tree : BTree (BufferPool FileManager) :=
  mkBTree (pool_one leaf0_frame) 1 IndexConfig_default IndexStats_zero.

Lemma leaf0_storable : storable leaf0.
Proof.
  destruct (storable_new int_default_ok 1 BTreeNodeType.LEAF) as [[] [] ???]; [by left|].
  by constructor; [constructor|constructor|..].
Qed.

Lemma leaf0_node : node_of bytes0 1 leaf0_frame = leaf0.
Proof.
  unfold node_of, leaf0_frame. cbn [fpage].
  assert (length leaf0_bytes = Z.to_nat PAGE_SIZE) as Hl by (vm_compute; reflexivity).
  rewrite bytes0_set by exact Hl. unfold leaf0_bytes. cbv zeta.
  rewrite (node_roundtrip leaf0 (replicate 4 0)); [|apply leaf0_storable..|done].
  reflexivity.
Qed.

#[local] Instance empty_leaf_nodes : NodeStore Z (BufferPool FileManager) := test_nodes bytes0 set_bytes0.
#[local] Instance empty_leaf_laws : NodeStoreLaws Z (BufferPool FileManager) :=
  test_nodes_laws bytes0 set_bytes0 bytes0_length bytes0_set.

Lemma empty_leaf_leaf : leaf_root empty_leaf_tree (nodes_of bytes0 (pool_one leaf0_frame)) [].
Proof.
  assert (nodes_of bytes0 (pool_one leaf0_frame) !! 1 = Some leaf0) as Hn.
  { rewrite nodes_of_lookup. cbn [frames pool_one]. rewrite lookup_singleton_eq.
    cbn [fmap option_fmap option_map]. by rewrite leaf0_node. }
  split; [split; [apply (pool_one_ok leaf0_frame); reflexivity|reflexivity]|].
  cbn [root_page_id empty_leaf_tree]. split; [|by rewrite Hn]. exists leaf0.
  split; [done|]. split; [done|]. split; [apply leaf0_storable|]. by split_and!.
Qed.

Lemma btree_tests_leaf_index_witness :
  ∃ t', BTreeTest_RangeQuery bytes0 set_bytes0 101 empty_leaf_tree = Some (t', replicate 22 true).
Proof.
  destruct (btree_tests_leaf_index bytes0 set_bytes0 101 bytes0_length bytes0_set empty_leaf_tree _ empty_leaf_leaf eq_refl)
    as [(t' & Hr) _]; [lia|]. exists t'. exact Hr.
Defined.
