(* ===== verification/Constants.v ===== *)
(** * Constants: the constants of src/include/constants.h

    Every constant with its value, by the sections of the header; [PAGE_SIZE] and [DATA_DIR]
    are in the files of the page and of the buffer pool.  Most are used by no code.  The ones
    that repeat a constant of a component are compared with it.  The invalid identifiers of
    src/include/types.h are here too. *)

From Stdlib Require Import SpecFloat.
From S2P Require Import Prelude Types Doubles Page BufferPool BTreeNode LogManager.

Open Scope Z_scope.

(** [a << k] of two [int]: not a constant expression when [k] is not below the width. *)
Definition shl_int (a k : Z) : option Z :=
  if decide (0 ≤ k < 32 ∧ 0 ≤ a) then Some (to_signed 32 (wrap 32 (Z.shiftl a k))) else None.

(** Version *)
Definition VERSION : string := "1.0.0".
Definition COPYRIGHT : string := "OrangeSQL 2024".

(** Pages *)
Definition PAGE_HEADER_SIZE : Z := 64.
Definition MAX_PAGES_PER_TABLE : option Z := shl_int 1 32.
Definition MAX_RECORDS_PER_PAGE : Z := 100.

(** Buffer pool *)
Definition DEFAULT_BUFFER_POOL_SIZE : Z := 1024.
Definition MAX_BUFFER_POOL_SIZE : Z := 1048576.
Definition MIN_BUFFER_POOL_SIZE : Z := 64.
Definition DEFAULT_BUFFER_POOL_HIT_TARGET : double := decimal 95 100.

(** Indexes *)
Definition BTREE_ORDER : Z := 128.
Definition BTREE_MAX_KEYS : Z := BTREE_ORDER - 1.
Definition BTREE_MIN_KEYS : Z := BTREE_ORDER / 2 - 1.
Definition DEFAULT_FILL_FACTOR : Z := 70.

(** Transactions *)
Definition DEFAULT_LOCK_TIMEOUT_MS : Z := 5000.
Definition DEFAULT_DEADLOCK_TIMEOUT_MS : Z := 1000.
Definition DEFAULT_TX_TIMEOUT_SEC : Z := 300.
Definition MAX_TRANSACTIONS : Z := 1000.

(** Log *)
Definition LOG_DIR : string := "data/wal".
Definition SYSTEM_DIR : string := "data/system".
Definition TEMP_DIR : string := "data/temp".
Definition MAX_LOG_FILE_SIZE : Z := 1024 * 1024 * 100.
Definition WAL_BUFFER_SIZE : Z := 1024 * 1024.
Definition CHECKPOINT_INTERVAL_SEC : Z := 300.
Definition CHECKPOINT_LOG_SIZE : Z := 50 * 1024 * 1024.

(** Queries *)
Definition MAX_JOIN_TABLES : Z := 64.
Definition MAX_SUBQUERY_DEPTH : Z := 10.
Definition DEFAULT_LIMIT : Z := 1000.
Definition MAX_LIMIT : Z := 1000000.
Definition QUERY_CACHE_SIZE : Z := 1000.

(** Optimizer *)
Definition INDEX_SCAN_COST : double := decimal 10 10.
Definition SEQ_SCAN_COST : double := decimal 100 10.
Definition STATISTICS_TARGET : Z := 10000.
Definition HISTOGRAM_BUCKETS : Z := 100.

(** Memory *)
Definition SORT_BUFFER_SIZE : Z := 64 * 1024 * 1024.
Definition JOIN_BUFFER_SIZE : Z := 32 * 1024 * 1024.
Definition TEMP_TABLE_MAX_SIZE : Z := 100 * 1024 * 1024.

(** Network *)
Definition DEFAULT_PORT : Z := 5432.
Definition DEFAULT_HOST : string := "localhost".
Definition MAX_CONNECTIONS : Z := 100.
Definition SOCKET_TIMEOUT_SEC : Z := 30.
Definition BACKLOG_SIZE : Z := 128.

(** Authentication *)
Definition DEFAULT_USER : string := "orangesql".
Definition DEFAULT_DATABASE : string := "default".
Definition PASSWORD_HASH_LENGTH : Z := 64.
Definition MAX_LOGIN_ATTEMPTS : Z := 5.
Definition LOGIN_TIMEOUT_MINUTES : Z := 30.

(** Timeouts and intervals *)
Definition CONNECTION_TIMEOUT_SEC : Z := 60.
Definition STATEMENT_TIMEOUT_SEC : Z := 30.
Definition IDLE_TRANSACTION_TIMEOUT_SEC : Z := 300.
Definition LOCK_TIMEOUT_SEC : Z := 30.
Definition STATISTICS_UPDATE_INTERVAL_SEC : Z := 3600.

(** Limits on objects *)
Definition MAX_TABLES : Z := 10000.
Definition MAX_COLUMNS_PER_TABLE : Z := 1000.
Definition MAX_INDEXES_PER_TABLE : Z := 100.
Definition MAX_CONSTRAINTS_PER_TABLE : Z := 100.
Definition MAX_VIEWS : Z := 1000.
Definition MAX_SEQUENCES : Z := 1000.
Definition MAX_FUNCTIONS : Z := 1000.

(** Limits on data *)
Definition MAX_VARCHAR_LENGTH : Z := 65535.
Definition MAX_TEXT_LENGTH : Z := 1024 * 1024 * 1024.
Definition MAX_BLOB_SIZE : Z := 1024 * 1024 * 1024.
Definition MAX_INT : Z := 2147483647.
Definition MAX_BIGINT : Z := 9223372036854775807.
Definition MAX_DOUBLE : double := S754_finite false 9007199254740991 971.

(** Defaults *)
Definition DEFAULT_DECIMAL_PRECISION : Z := 10.
Definition DEFAULT_DECIMAL_SCALE : Z := 0.
Definition DEFAULT_VARCHAR_LENGTH : Z := 255.
Definition DEFAULT_CHAR_LENGTH : Z := 1.
Definition DEFAULT_CHARSET : string := "UTF8".

(** namespace [ErrorCode] *)
Definition ErrorCode_SUCCESS : Z := 0.
Definition ErrorCode_GENERAL_ERROR : Z := 1.
Definition ErrorCode_SYNTAX_ERROR : Z := 2.
Definition ErrorCode_CONSTRAINT_VIOLATION : Z := 3.
Definition ErrorCode_DEADLOCK_DETECTED : Z := 4.
Definition ErrorCode_SERIALIZATION_FAILURE : Z := 5.
Definition ErrorCode_OUT_OF_MEMORY : Z := 6.
Definition ErrorCode_IO_ERROR : Z := 7.
Definition ErrorCode_NOT_FOUND : Z := 8.
Definition ErrorCode_ALREADY_EXISTS : Z := 9.
Definition ErrorCode_PERMISSION_DENIED : Z := 10.
Definition ErrorCode_TIMEOUT : Z := 11.
Definition ErrorCode_CONNECTION_ERROR : Z := 12.
Definition ErrorCode_TRANSACTION_ERROR : Z := 13.
Definition ErrorCode_UNSUPPORTED_FEATURE : Z := 14.

(** namespace [LogMessages] *)
Definition LogMessages_STARTUP : string := "OrangeSQL iniciado com sucesso".
Definition LogMessages_SHUTDOWN : string := "OrangeSQL finalizado".
Definition LogMessages_CHECKPOINT : string := "Checkpoint realizado".
Definition LogMessages_RECOVERY : string := "Recovery concluído".
Definition LogMessages_DEADLOCK : string := "Deadlock detectado e resolvido".
Definition LogMessages_BACKUP : string := "Backup realizado".
Definition LogMessages_RESTORE : string := "Restauração concluída".

(** Performance *)
Definition ENABLE_QUERY_CACHE : bool := true.
Definition ENABLE_RESULT_CACHE : bool := true.
Definition ENABLE_PREPARED_STATEMENTS : bool := true.
Definition ENABLE_ASYNC_COMMIT : bool := false.
Definition ENABLE_PARALLEL_QUERY : bool := true.
Definition PARALLEL_WORKERS : Z := 4.

(** [debug] tells whether [ORANGESQL_DEBUG] is defined. *)
Definition DEBUG_MODE (debug : bool) : bool := if debug then true else false.
Definition LOG_SLOW_QUERIES (debug : bool) : bool := if debug then true else true.
Definition SLOW_QUERY_THRESHOLD_MS (debug : bool) : Z := if debug then 100 else 1000.
Definition LOG_ALL_QUERIES (debug : bool) : bool := if debug then true else false.
Definition LOG_TRANSACTIONS (debug : bool) : bool := if debug then true else false.
Definition LOG_LOCKS (debug : bool) : bool := if debug then true else false.

(** Backup *)
Definition BACKUP_DIR : string := "data/backup".
Definition BACKUP_RETENTION_DAYS : Z := 30.
Definition AUTO_BACKUP_ENABLED : bool := true.
Definition AUTO_BACKUP_INTERVAL_HOURS : Z := 24.

(** Limits on resources *)
Definition MAX_MEMORY_USAGE : Z := 1024 * 1024 * 1024.
Definition MAX_DISK_USAGE : Z := 1024 * 1024 * 1024 * 1024.
Definition MAX_FILE_SIZE : Z := 1024 * 1024 * 1024 * 10.
Definition MAX_OPEN_FILES : Z := 1000.

(** Replication *)
Definition REPLICATION_ENABLED : bool := false.
Definition REPLICATION_FACTOR : Z := 1.
Definition REPLICATION_SYNC_TIMEOUT_SEC : Z := 10.

(** Compression *)
Definition ENABLE_COMPRESSION : bool := false.
Definition COMPRESSION_LEVEL : Z := 6.

(** Experimental features *)
Definition ENABLE_EXPERIMENTAL_FEATURES : bool := false.
Definition ENABLE_VECTORIZED_EXECUTION : bool := false.
Definition ENABLE_ADAPTIVE_OPTIMIZER : bool := false.

(** ** Invalid identifiers (types.h) *)

Definition INVALID_TABLE_ID : Z := 2 ^ 32 - 1.
Definition INVALID_INDEX_ID : Z := 2 ^ 32 - 1.
Definition INVALID_TX_ID : Z := 0.
Definition INVALID_RECORD_ID : Z := 2 ^ 64 - 1.
Definition INVALID_LSN : Z := 0.

(** ** Agreement with the components *)

(** The sizes that a component repeats are those of the header; a limit of the header that
    differs from the one in force is not used. *)
Theorem constants_agree :
  PAGE_HEADER_SIZE = HEADER_SIZE ∧ BTREE_ORDER = Z.of_nat ORDER ∧ BTREE_MAX_KEYS = Z.of_nat MAX_KEYS ∧
  MAX_BUFFER_POOL_SIZE = Z.of_nat MAX_POOL_SIZE ∧ WAL_BUFFER_SIZE = WRITE_BUFFER_SIZE ∧
  MAX_RECORDS_PER_PAGE ≠ MAX_SLOTS ∧ MAX_PAGES_PER_TABLE = None.
Proof.
  do 3 (split; [reflexivity|]). split; [|by split_and!].
  unfold MAX_BUFFER_POOL_SIZE, MAX_POOL_SIZE. rewrite Z2Nat.id by lia. reflexivity.
Qed.

(** Products of [int] constants do not overflow, and every constant of type [size_t] fits it. *)
Theorem constants_fit :
  Forall (fits_signed 32) [MAX_LOG_FILE_SIZE; WAL_BUFFER_SIZE; CHECKPOINT_LOG_SIZE; SORT_BUFFER_SIZE;
    JOIN_BUFFER_SIZE; TEMP_TABLE_MAX_SIZE; MAX_TEXT_LENGTH; MAX_BLOB_SIZE; MAX_MEMORY_USAGE] ∧
  Forall (fits_signed 64) [MAX_DISK_USAGE; MAX_FILE_SIZE; MAX_BIGINT] ∧
  ¬ fits_signed 32 MAX_FILE_SIZE ∧ valid_binary 53 1024 MAX_DOUBLE = true.
Proof.
  unfold fits_signed. split_and!; [repeat (constructor; [split; vm_compute; congruence|]); constructor..| |reflexivity].
  intros [_ Hlt]. vm_compute in Hlt. congruence.
Qed.
